(* ===== verification/_CoqProject ===== *)
-Q . S2P
Prelude.v
Bits.v
Layout.v
Segment.v
SegmentFacts.v
SegList.v
SegStack.v
Alloc.v
AllocFacts.v
AllocThms.v
Memory.v
Object.v
ObjectThms.v
ObjectTyping.v
IntInf.v
IntInfThms.v
Malloc.v
Reclaim.v
ReclaimFacts.v
Heap.v
Trace.v
TraceSpec.v
TraceThms.v
Barrier.v
OnTheFly.v
OnTheFlyInv.v
OnTheFlyTri.v
OnTheFlySteps.v
OnTheFlyStores.v
OnTheFlyReach.v
OnTheFlyThms.v
OnTheFlyHeap.v
OnTheFlyRuns.v
ReclaimThms.v
HeapThms.v
SplayTree.v
SplayHeap.v
SplayOps.v
SplayIter.v
SplaySpec.v
SplayCompact.v
SplayThms.v
ItemTree.v
Finalize.v
FinalizeThms.v
Callback.v
CallbackThms.v
Livecheck.v
LivecheckThms.v
Exn.v
ExnThms.v
Prim.v
PrimThms.v
PrimSys.v
Init.v
Control.v
ControlFacts.v
ControlInv.v
ControlFrame.v
ControlSteps.v
ControlLead.v
ControlChange.v
ControlEffect.v
ControlThms.v
Exit.v
FrameTable.v
FrameThms.v
Users.v
UsersThms.v
Migration.v
MigrationInv.v
MigrationSteps.v
MigrationEvents.v
MigrationEnter.v
MigrationLoop.v
MigrationThms.v
