(* ===== verification/Prelude.v ===== *)
(** * The runtime of SML#

    A verification development for the runtime system of the SML# compiler,
    the C code under src/src/runtime/ that is linked to every program: a
    collector that runs concurrently with the program
    (heap_concurrent.c), the threads and handshakes that drive it
    (control.c), objects (object.c), big integers (intinf.h, prim.c), frame
    tables (top.c), exceptions (exn.c), callbacks (callback.c), finalizers
    (finalize.c), balanced trees (splay.c), a tracer for debugging
    (livecheck.c), primitives of the Basis Library (prim.c) and the
    initialisation (init.c).

    ** How the parts work together

    ML code allocates with [sml_alloc] of heap_concurrent.c: a bump through
    the free blocks of a 32k segment of the right block size, a new segment
    from the heap of the thread, from the pool of all threads or from the
    system, and a [malloc] for large objects.  When there is none, [sml_gc]
    of control.c begins a collection.  It has four handshakes, SYNC1, SYNC2,
    MARK and ASYNC, each of which every worker has to answer, at a check in
    ML code, when it leaves ML code, or through a helper when it is outside.
    From SYNC1 on the write barrier of [sml_write] is on; in SYNC2 every
    worker enumerates its roots (the stacks of its user threads by the frame
    tables of top.c, and one of them the globals and the callbacks); in MARK
    it traces from its mark stacks; then the finalizers of the objects that
    are not marked run, and in ASYNC every worker makes the unmarked blocks
    of its own heap free.  User threads of MassiveThreads move between
    workers at any time they are not in ML code.

    ** Conventions

    A function of the code is a function here, with its name, over explicit
    state; a failed [assert] or an access to something that is not there is
    [Fault], [sml_fatal] is [Fatal] ([res] below).  Integers are [Z] with the
    wrap-around of their width written out ([u32], [u64] of Bits.v).  Code
    that runs concurrently is a step function or relation in which every
    atomic access is one step; memory is sequentially consistent.  Loops that
    are not structural take fuel; every theorem about them says how much is
    enough, so that the loops terminate.  What is not in the repository, GMP,
    the unwinder, the C library beyond what is defined here and the system
    calls, are arguments.

    ** The files

    _Segments and allocation_ (heap_concurrent.c).  Bits.v has the bit
    pointers of smlsharp.h; Layout.v [compute_segment_layout]; Segment.v the
    bitmaps and their search, with SegmentFacts.v; SegList.v the linked
    lists; SegStack.v the lock-free stacks; Alloc.v [sml_alloc] down to the
    pool, with the invariant of the heap in AllocFacts.v; Malloc.v large
    objects; Heap.v the heap of a thread, its growth and its end.  AllocThms.v
    and HeapThms.v: layouts are disjoint and fit ([compute_segment_layout_correct]),
    the two-level search is a linear scan ([find_bitmap_correct]), allocation
    gives free blocks that are apart ([sml_alloc_small_correct],
    [alloc_all_apart]), stacks are linearizable ([segment_stack_linearizable]),
    reclaiming restores the invariant ([reclaim_heap_correct]).

    _Objects_ (object.c, object.h, prim.c).  Memory.v is a byte memory;
    Object.v the object format, equality, enumeration of pointers; ObjectThms.v
    that equality is structural equality ([sml_obj_equal_correct]) and
    ObjectTyping.v that the heap stays well typed ([heap_stays_typed]).
    IntInf.v and IntInfThms.v: the IntInf primitives over the interface [Gmp]
    ([intinf_arith_correct]).

    _Marking and reclaiming_ (heap_concurrent.c).  Trace.v has [visit], the
    mark stacks, [trace] and the barrier; TraceSpec.v the interfaces
    [MarkStacks] and [Marking] against which tracing is proved; TraceThms.v
    their implementation by the bitmaps and [mark_phase_correct]; Barrier.v
    the barrier alone ([sml_write_keeps_snapshot]); Reclaim.v, ReclaimFacts.v
    and ReclaimThms.v the reclamation and one collection of a single thread
    from the roots to the free blocks ([collection_keeps_live]).

    _Marking while the program runs_ (heap_concurrent.c, control.c).
    OnTheFly.v is the step relation of all workers in a collection, over the
    interface [SharedHeap]; OnTheFlyInv.v and OnTheFlyTri.v its invariant,
    OnTheFlySteps.v, OnTheFlyStores.v and OnTheFlyReach.v that every step
    keeps it; OnTheFlyThms.v what follows, OnTheFlyHeap.v the implementation
    of the interface by the bitmaps, OnTheFlyRuns.v an executable version and
    the properties: what is reachable at the end is marked
    ([marking_complete]), no step fails ([marking_never_fails]), and the gap
    in [remember] ([remember_race]).

    _Threads_ (control.c).  Control.v has the handshakes; ControlFacts.v to
    ControlEffect.v the invariant and its preservation; ControlThms.v the
    properties ([control_never_fails], [leader_sees_all_answers],
    [worker_lock_exclusive], [check_flag_counts], [lost_wakeup]).  Exit.v is
    [sml_exit] among the steps of Control.v ([exit_excludes]).  Users.v and
    UsersThms.v are the contexts of user threads and the enumeration of
    their stacks; Migration.v puts them on top of Control.v, MigrationInv.v to
    MigrationLoop.v have the invariant, MigrationThms.v the properties
    ([every_user_enumerated], [user_contexts_never_fail],
    [user_lock_exclusive]).  FrameTable.v and FrameThms.v: the frame tables
    ([sml_lookup_frametable_correct]).

    _Trees and their clients_.  SplayTree.v has the rules in the comment of
    splay.c; SplayHeap.v, SplayOps.v, SplayIter.v and SplayCompact.v the
    pointer code and its refinement, SplaySpec.v and SplayThms.v the
    operations on sorted lists ([splay_follows_rules],
    [sml_tree_insert_correct], [sml_tree_delete_correct],
    [sml_tree_compact_correct]).  ItemTree.v is the interface of splay.h,
    implemented by the splay trees; on it Finalize.v, Callback.v and
    Livecheck.v with their theorems ([finalizes_unreachable],
    [callback_identity], [sml_livecheck_correct]).

    _The rest_.  Exn.v and ExnThms.v: personality routine and exception
    tables ([two_phase_unwinding]); Prim.v and PrimThms.v: other primitives
    ([errorName_roundtrip]); PrimSys.v: primitives on time, date, files and
    memory outside of the heap, with their arrays of 32-bit integers
    ([date_roundtrip], [utime_roundtrip], [stat_tells_modulo],
    [import_correct]); Init.v: the heap size from the environment.

    ** Bounds and assumptions

    Counters of handshakes are exact below 2^32 - 1 threads; the table of
    callbacks below 2^31 callbacks of one code address; the other 32-bit
    counters wrap as in C.  In OnTheFly.v the workers are fixed during a
    collection (one that registers later is there from the beginning without
    roots), globals and callbacks are fixed, user threads move only between
    workers that are not in the middle of an action, and two threads do not
    race in assignments to one field around SYNC1; the last three are flags
    or premises, and the runs that break the last one are given
    ([sync1_race], [cmpswap_race]).  In SegStack.v a segment does not come
    back to a stack while a pop that has loaded it is under way.  In
    Migration.v the weak compare-and-swap on user contexts fails only when it
    has to ([allowed]); what happens otherwise is shown there, too.  [xmalloc]
    does not fail.

    ** Not modelled

    The heaps that the build does not compile (heap_bitmap.c, heap_cheney.c,
    heap_otomo.c, heap_reppy.c, heap_malloc.c, heap_boehm.c); messages and
    logs (error.c, dbglog.c) and everything that only prints or measures,
    under GCTIME, GCHIST and DEBUG; main.c and signal.c; the third-party
    netlib/dtoa.c; the primitives that only return a variable or a constant or
    call one function of libc, strftime among them; the code for Windows and
    for systems without the usual functions; weak memory: the orderings of the
    atomic accesses are taken to be sequentially consistent; the compiler and
    the libraries, which are written in ML. *)
From Stdlib Require Import ZArith Lia.
From stdpp Require Export base option list gmap sorting.

Create HintDb runtime.
Create Rewrite HintDb runtime.

(** ** Outcomes of C code

    [Fault] is a dereference outside the modelled objects or a failed
    [assert]; [Fatal] is a call of [sml_fatal] / [abort]; [NoFuel] says
    that the bound given to a loop was too small. *)
Inductive res (A : Type) : Type :=
| Ok (a : A)
| Fault
| Fatal
| NoFuel.
Arguments Ok {A} a.
Arguments Fault {A}.
Arguments Fatal {A}.
Arguments NoFuel {A}.

#[export] Instance res_ret : MRet res := fun A a => Ok a.
#[export] Instance res_bind : MBind res := fun A B f m =>
  match m with
  | Ok a => f a
  | Fault => Fault
  | Fatal => Fatal
  | NoFuel => NoFuel
  end.

Definition deref {A} (o : option A) : res A :=
  match o with Some a => Ok a | None => Fault end.

Definition assert_that (b : bool) : res unit := if b then Ok tt else Fault.

Lemma res_bind_ok {A B} (m : res A) (f : A -> res B) b :
  m ≫= f = Ok b <-> exists a, m = Ok a /\ f a = Ok b.
Proof.
  split; [|intros (a & -> & H); exact H].
  destruct m; simpl; intros H; try discriminate; eauto.
Qed.

Lemma deref_ok {A} (o : option A) a : deref o = Ok a <-> o = Some a.
Proof. destruct o; simpl; split; congruence. Qed.

Lemma assert_that_ok b u : assert_that b = Ok u <-> b = true.
Proof. destruct b, u; simpl; split; congruence. Qed.

(** [res_inv] takes a successful run apart. *)
Ltac res_inv :=
  repeat match goal with
  | H : _ ≫= _ = Ok _ |- _ => apply res_bind_ok in H as (? & ? & ?)
  | H : deref _ = Ok _ |- _ => apply deref_ok in H
  | H : assert_that _ = Ok _ |- _ => apply assert_that_ok in H
  | H : Ok _ = Ok _ |- _ => injection H as H; subst
  | H : mret _ = Ok _ |- _ => injection H as H; subst
  | H : (_, _) = (_, _) |- _ => injection H as ? ?; subst
  end.

(** Arithmetic with division. *)
Ltac mod_lia := Z.to_euclidean_division_equations; lia.

(** ** Lists *)
Lemma filter_none {E} (P : E -> Prop) `{!forall x, Decision (P x)} l :
  Forall (fun x => ~ P x) l -> filter P l = [].
Proof.
  induction 1; [done|]. rewrite filter_cons. by rewrite decide_False.
Qed.

Lemma filter_all {E} (P : E -> Prop) `{!forall x, Decision (P x)} l : Forall P l -> filter P l = l.
Proof. induction 1; [done|]. rewrite filter_cons. by rewrite decide_True, IHForall. Qed.

Lemma Forall_subset {A} (P : A -> Prop) (k l : list A) : k ⊆ l -> Forall P l -> Forall P k.
Proof. rewrite !Forall_forall. intros Hkl H x Hx. apply H, Hkl, Hx. Qed.

Lemma elem_of_take_in {A} (x : A) n l : x ∈ take n l -> x ∈ l.
Proof. rewrite <- (take_drop n l) at 2. rewrite elem_of_app. by left. Qed.

Lemma filter_ext_in {A} (P Q : A -> Prop) `{!forall x, Decision (P x), !forall x, Decision (Q x)} (l : list A) :
  (forall x, x ∈ l -> P x <-> Q x) -> filter P l = filter Q l.
Proof.
  induction l as [|x l IH]; intros Hpq; [done|]. rewrite !filter_cons, IH by (intros y Hy; apply Hpq; by right).
  specialize (Hpq x (list_elem_of_here x l)). repeat case_decide; tauto || done.
Qed.

Lemma filter_true {A} (l : list A) : filter (fun _ => True) l = l.
Proof. induction l as [|x l IH]; [done|]. by rewrite filter_cons, decide_True, IH. Qed.

(** [forall2_inv] takes a [Forall2] on an explicit list apart. *)
Ltac forall2_inv :=
  repeat match goal with
  | H : Forall2 _ (_ :: _) _ |- _ => apply Forall2_cons_inv_l in H as (? & ? & ? & H & ->)
  | H : Forall2 _ [] _ |- _ => apply Forall2_nil_inv_l in H as ->
  end.

Ltac forall2_split := repeat first [apply Forall2_nil_2 | apply Forall2_cons; split].

Lemma elem_of_concat_in {A} (x : A) (l : list A) ls : l ∈ ls -> x ∈ l -> x ∈ concat ls.
Proof. rewrite !list_elem_of_In. intros Hl Hx. apply in_concat. by exists l. Qed.

(** What holds of the entries of a finite map, listed, holds of them all. *)
Lemma map_list_all {A} (P : A -> Prop) (m : gmap nat A) k x :
  Forall (fun kv => P kv.2) (map_to_list m) -> m !! k = Some x -> P x.
Proof. rewrite Forall_forall. intros H Hk. apply (H (k, x)). by apply elem_of_map_to_list. Qed.

Lemma NoDup_map_inj {A B} (l : list A) (f : A -> B) x y : NoDup (map f l) -> x ∈ l -> y ∈ l -> f x = f y -> x = y.
Proof.
  induction l as [|z l IH]; [by intros _ ?%elem_of_nil|]. simpl. intros [Hz Hnd]%NoDup_cons.
  intros Hx Hy Hf. apply elem_of_cons in Hx as [->|Hx], Hy as [->|Hy]; [done|..|by apply IH].
  - exfalso. apply Hz. rewrite Hf. by apply list_elem_of_fmap_2.
  - exfalso. apply Hz. rewrite <- Hf. by apply list_elem_of_fmap_2.
Qed.
