(* ===== verification/Bits.v ===== *)
(** * Bits: 32-bit words and the bit pointers of src/src/runtime/smlsharp.h

    An [unsigned int] or [uint32_t] is a [Z] between 0 and 2^32; [u32] is
    the wrap-around.  A bit pointer [sml_bitptr_t] is the index of a word in
    its array and a mask. *)
From Stdlib Require Import ZArith Lia.
From stdpp Require Import base option list.
From S2P Require Import Prelude.

Local Open Scope Z_scope.

Definition u32 (x : Z) : Z := x mod 2 ^ 32.
Definition u64 (x : Z) : Z := x mod 2 ^ 64.
Definition is_u32 (x : Z) : Prop := 0 <= x < 2 ^ 32.

(** ** Size macros *)
Definition CEILING (x y : Z) : Z := (x + y - 1) - (x + y - 1) mod y.

(** [__builtin_clz] and [__builtin_ctz] on 32 bits; undefined on 0. *)
Definition clz32 (x : Z) : Z := 31 - Z.log2 x.
Fixpoint ctz_pos (p : positive) : Z :=
  match p with
  | xO p => 1 + ctz_pos p
  | _ => 0
  end.
Definition ctz32 (x : Z) : Z := match x with Zpos p => ctz_pos p | _ => 32 end.

Definition CEIL_LOG2 (x : Z) : Z := 32 - clz32 (u32 (u32 x - 1)).

(** ** Bit pointers *)
Record bitptr := Bitptr { ptr : nat; mask : Z }.

Definition BITPTR_WORDBITS : Z := 32.

Definition BITPTR (p : nat) (n : nat) : bitptr :=
  Bitptr (p + n / 32) (u32 (Z.shiftl 1 (Z.of_nat (n mod 32)))).

Section Words.
(** The words of the array. *)
Variable words : list Z.

Definition BITPTR_WORD (b : bitptr) : Z := words !!! ptr b.
Definition BITPTR_TEST (b : bitptr) : bool := negb (Z.land (BITPTR_WORD b) (mask b) =? 0).

Definition BITPTR_NEXT0 (b : bitptr) : bitptr :=
  let tmp := Z.lor (BITPTR_WORD b) (u32 (mask b - 1)) in
  Bitptr (ptr b) (Z.land (u32 (tmp + 1)) (u32 (Z.lnot tmp))).

Definition BITPTR_NEXT1 (b : bitptr) : bitptr :=
  let tmp := Z.land (BITPTR_WORD b) (u32 (- u32 (Z.shiftl (mask b) 1))) in
  Bitptr (ptr b) (Z.land tmp (u32 (- tmp))).
End Words.

Definition BITPTR_NEXT_FAILED (b : bitptr) : bool := mask b =? 0.

Definition BITPTR_INC (b : bitptr) : bitptr :=
  Bitptr (ptr b + Z.to_nat (Z.shiftr (mask b) 31))
         (Z.lor (u32 (Z.shiftl (mask b) 1)) (Z.shiftr (mask b) 31)).

Definition BITPTR_EQUAL (b1 b2 : bitptr) : bool :=
  (ptr b1 =? ptr b2)%nat && (mask b1 =? mask b2).
Definition BITPTR_WORDINDEX (b : bitptr) (begin : nat) : nat := ptr b - begin.
Definition BITPTR_MASKINDEX (b : bitptr) : nat := Z.to_nat (ctz32 (mask b)).
Definition BITPTR_INDEX (b : bitptr) (p : nat) : nat :=
  BITPTR_WORDINDEX b p * 32 + BITPTR_MASKINDEX b.

(** [BITPTRW_SET] and the sequential effect of [BITPTRA_TEST_AND_SET]: the
    old bit and the new words. *)
Definition set_bits (words : list Z) (b : bitptr) : list Z :=
  <[ptr b := Z.lor (words !!! ptr b) (mask b)]> words.
Definition BITPTRA_TEST_AND_SET (words : list Z) (b : bitptr) : bool * list Z :=
  if BITPTR_TEST words b then (true, words) else (false, set_bits words b).

(** ** Specifications *)

(** The bit [n] of an array of words. *)
Definition bit_at (words : list Z) (n : nat) : bool :=
  Z.testbit (words !!! (n / 32)%nat) (Z.of_nat (n mod 32)).

(** The first 0 bit of [w] at or after [k]. *)
Definition first_zero (w : Z) (k : nat) : option nat :=
  snd <$> list_find (fun j => Z.testbit w (Z.of_nat j) = false) (seq k (32 - k)).

Lemma u32_range x : is_u32 (u32 x).
Proof. unfold is_u32, u32. apply Z.mod_pos_bound. lia. Qed.
Lemma u32_small x : is_u32 x -> u32 x = x.
Proof. intros H. by apply Z.mod_small. Qed.

Lemma u32_testbit x i : 0 <= i -> Z.testbit (u32 x) i = Z.testbit x i && (i <? 32).
Proof.
  intros Hi. unfold u32. rewrite <- Z.land_ones, Z.land_spec, Z.testbit_ones by lia.
  f_equal. apply Bool.eq_true_iff_eq. rewrite andb_true_iff, !Z.ltb_lt, Z.leb_le. lia.
Qed.

Lemma is_u32_testbit x i : is_u32 x -> 32 <= i -> Z.testbit x i = false.
Proof.
  intros Hx Hi. rewrite <- (u32_small x Hx), u32_testbit by lia.
  rewrite andb_false_iff. right. apply Z.ltb_ge. lia.
Qed.

Lemma lor_u32 x y : is_u32 x -> is_u32 y -> is_u32 (Z.lor x y).
Proof.
  intros Hx Hy. rewrite <- (u32_small x Hx), <- (u32_small y Hy).
  assert (Z.lor (u32 x) (u32 y) = u32 (Z.lor x y)) as ->; [|apply u32_range].
  apply Z.bits_inj'. intros i Hi. rewrite Z.lor_spec, !u32_testbit, Z.lor_spec by lia.
  by destruct (Z.testbit x i), (Z.testbit y i), (i <? 32).
Qed.

Lemma pow2_u32 k : (k < 32)%nat -> is_u32 (2 ^ Z.of_nat k).
Proof.
  intros Hk. split; [apply Z.pow_nonneg; lia|]. apply Z.pow_lt_mono_r; lia.
Qed.

Lemma BITPTR_eq p n : BITPTR p n = Bitptr (p + n / 32) (2 ^ Z.of_nat (n mod 32)).
Proof.
  unfold BITPTR. rewrite Z.shiftl_1_l, u32_small; [done|]. apply pow2_u32.
  apply Nat.mod_upper_bound. lia.
Qed.

Lemma ctz_pow2 k : ctz32 (2 ^ Z.of_nat k) = Z.of_nat k.
Proof.
  rewrite <- two_power_nat_equiv. unfold two_power_nat. simpl ctz32.
  induction k as [|k IH]; [done|]. simpl shift_nat. simpl ctz_pos. rewrite IH. lia.
Qed.

(** [BITPTR_INDEX] inverts [BITPTR]. *)
Lemma BITPTR_INDEX_BITPTR p n : BITPTR_INDEX (BITPTR p n) p = n.
Proof.
  rewrite BITPTR_eq. unfold BITPTR_INDEX, BITPTR_WORDINDEX, BITPTR_MASKINDEX. cbn [ptr mask].
  rewrite ctz_pow2, Nat2Z.id. pose proof (Nat.div_mod_eq n 32). lia.
Qed.

Lemma BITPTR_INC_BITPTR p n : BITPTR_INC (BITPTR p n) = BITPTR p (S n).
Proof.
  rewrite !BITPTR_eq. unfold BITPTR_INC. cbn [ptr mask].
  assert (Hr := Nat.mod_upper_bound n 32 ltac:(lia)). assert (Hn := Nat.div_mod_eq n 32).
  set (q := (n / 32)%nat) in *. set (r := (n mod 32)%nat) in *.
  destruct (decide (r = 31)%nat) as [->|Hne].
  - assert (S n / 32 = S q)%nat as -> by (symmetry; apply (Nat.div_unique _ _ _ 0); lia).
    assert (S n mod 32 = 0)%nat as -> by (symmetry; apply (Nat.mod_unique _ _ (S q)); lia).
    replace (Z.shiftr (2 ^ Z.of_nat 31) 31) with 1 by reflexivity.
    change (Z.to_nat 1) with 1%nat. f_equal; first [lia | reflexivity].
  - assert (S n / 32 = q)%nat as -> by (symmetry; apply (Nat.div_unique _ _ _ (S r)); lia).
    assert (S n mod 32 = S r)%nat as -> by (symmetry; apply (Nat.mod_unique _ _ q); lia).
    assert (Hs : Z.shiftr (2 ^ Z.of_nat r) 31 = 0).
    { rewrite Z.shiftr_div_pow2 by lia. apply Z.div_small. split; [apply Z.pow_nonneg; lia|].
      apply Z.pow_lt_mono_r; lia. }
    rewrite Hs, Z.lor_0_r, Z.shiftl_mul_pow2 by lia. simpl Z.to_nat. f_equal; [lia|].
    rewrite u32_small; [rewrite Nat2Z.inj_succ, Z.pow_succ_r by lia; lia|].
    replace (2 ^ Z.of_nat r * 2 ^ 1) with (2 ^ Z.of_nat (S r))
      by (rewrite Nat2Z.inj_succ, Z.pow_succ_r by lia; lia).
    apply pow2_u32. lia.
Qed.

Lemma land_pow2_eqb w k : 0 <= k -> (Z.land w (2 ^ k) =? 0) = negb (Z.testbit w k).
Proof.
  intros Hk. destruct (Z.testbit w k) eqn:Hb; simpl.
  - apply Z.eqb_neq. intros H. assert (Hf := Z.bits_0 k). rewrite <- H, Z.land_spec, Hb in Hf.
    by rewrite Z.pow2_bits_true in Hf.
  - apply Z.eqb_eq. apply Z.bits_inj_0. intros i. rewrite Z.land_spec.
    destruct (decide (i = k)) as [->|]; [by rewrite Hb|].
    rewrite Z.pow2_bits_false by done. by rewrite andb_false_r.
Qed.

(** [BITPTR_TEST] reads the bit. *)
Lemma BITPTR_TEST_bit words p n :
  BITPTR_TEST words (BITPTR p n) = bit_at (drop p words) n.
Proof.
  rewrite BITPTR_eq. unfold BITPTR_TEST, BITPTR_WORD, bit_at. cbn [ptr mask].
  rewrite land_pow2_eqb, negb_involutive by lia. f_equal.
  rewrite !list_lookup_total_alt, lookup_drop. done.
Qed.

(** ** The word operations *)

Lemma u32_land x y : u32 (Z.land x y) = Z.land (u32 x) (u32 y).
Proof.
  apply Z.bits_inj'. intros i Hi. rewrite Z.land_spec, !u32_testbit, Z.land_spec by lia.
  by destruct (Z.testbit x i), (Z.testbit y i), (i <? 32).
Qed.

(** [s & -s] is the lowest 1 bit of [s]. *)
Lemma lowest_set h j : 0 <= j ->
  Z.land (2 ^ j * (2 * h + 1)) (- (2 ^ j * (2 * h + 1))) = 2 ^ j.
Proof.
  intros Hj. set (s := 2 ^ j * (2 * h + 1)).
  replace (- s) with (Z.lnot (s - 1)) by (unfold Z.lnot; lia).
  assert (Hp : 0 < 2 ^ j) by (apply Z.pow_pos_nonneg; lia).
  assert (Hs : s / 2 ^ j = 2 * h + 1) by (unfold s; rewrite Z.mul_comm, Z.div_mul; lia).
  assert (Hs1 : (s - 1) / 2 ^ j = 2 * h).
  { symmetry. apply (Z.div_unique _ _ _ (2 ^ j - 1)); [left; lia|]. unfold s. lia. }
  apply Z.bits_inj'. intros i Hi. rewrite Z.land_spec, Z.lnot_spec by lia.
  destruct (Z.lt_ge_cases i j) as [Hlt|Hge].
  - rewrite Z.pow2_bits_false by lia. unfold s at 1.
    rewrite Z.mul_comm, Z.mul_pow2_bits_low by lia. done.
  - assert (Hsh : forall x, Z.testbit x i = Z.testbit (x / 2 ^ j) (i - j)).
    { intros x. rewrite <- Z.shiftr_div_pow2, Z.shiftr_spec by lia. f_equal. lia. }
    rewrite (Hsh s), (Hsh (s - 1)), Hs, Hs1. destruct (decide (i = j)) as [->|Hne].
    + rewrite Z.sub_diag, Z.testbit_odd_0, Z.testbit_even_0, Z.pow2_bits_true by lia. done.
    + replace (i - j) with (Z.succ (i - j - 1)) by lia.
      rewrite Z.testbit_odd_succ, Z.testbit_even_succ, Z.pow2_bits_false by lia.
      by destruct (Z.testbit h _).
Qed.

(** A word splits at its lowest 1 bit. *)
Lemma lowest_set_split s j : (forall i, 0 <= i < j -> Z.testbit s i = false) -> 0 <= j ->
  Z.testbit s j = true -> exists h, s = 2 ^ j * (2 * h + 1).
Proof.
  intros Hlow Hj Hs. assert (Hp : 0 < 2 ^ j) by (apply Z.pow_pos_nonneg; lia).
  assert (Hm : s mod 2 ^ j = 0).
  { rewrite <- Z.land_ones by lia. apply Z.bits_inj_0. intros i.
    destruct (Z.lt_ge_cases i 0); [by apply Z.testbit_neg_r|].
    rewrite Z.land_spec, Z.testbit_ones_nonneg by lia.
    destruct (Z.ltb_spec i j); [rewrite Hlow by lia|rewrite andb_false_r]; done. }
  exists (s / 2 ^ j / 2). assert (Hodd : (s / 2 ^ j) mod 2 = 1).
  { rewrite Zmod_odd. rewrite <- Z.bit0_odd, <- Z.shiftr_div_pow2, Z.shiftr_spec by lia.
    by rewrite Z.add_0_l, Hs. }
  pose proof (Z.div_mod s (2 ^ j)). pose proof (Z.div_mod (s / 2 ^ j) 2). lia.
Qed.

Lemma lowest_set_u32 s j : (forall i, 0 <= i < j -> Z.testbit s i = false) -> 0 <= j ->
  Z.testbit s j = true -> Z.land (u32 s) (u32 (- s)) = u32 (2 ^ j).
Proof.
  intros H1 H2 H3. destruct (lowest_set_split s j H1 H2 H3) as [h ->].
  by rewrite <- u32_land, lowest_set.
Qed.

(** [BITPTR_NEXT0] moves to the first 0 bit of the word at or after its
    position; the mask becomes zero if there is none. *)
Lemma first_zero_Some w k j :
  first_zero w k = Some j <->
  (k <= j < 32)%nat /\ Z.testbit w (Z.of_nat j) = false /\
  forall i, (k <= i < j)%nat -> Z.testbit w (Z.of_nat i) = true.
Proof.
  unfold first_zero. rewrite fmap_Some. split.
  - intros ([i x] & Hf & ->). apply list_find_Some in Hf as (Hl & Hz & Hbefore).
    apply lookup_seq in Hl as [-> Hi]. simpl. split; [lia|]. split; [done|].
    intros i' Hi'. apply not_false_iff_true. apply (Hbefore (i' - k)%nat); [|lia].
    apply lookup_seq. lia.
  - intros (Hj & Hz & Hb). exists ((j - k)%nat, j). split; [|done].
    apply list_find_Some. split; [apply lookup_seq; lia|]. split; [done|].
    intros i x Hl Hi. apply lookup_seq in Hl as [-> ?]. apply not_false_iff_true, Hb. lia.
Qed.

Lemma first_zero_None w k :
  first_zero w k = None <-> forall i, (k <= i < 32)%nat -> Z.testbit w (Z.of_nat i) = true.
Proof.
  unfold first_zero. rewrite fmap_None, list_find_None, Forall_forall. setoid_rewrite elem_of_seq.
  split; intros H i Hi; [apply not_false_iff_true|apply not_false_iff_true]; apply H; lia.
Qed.

Lemma u32_pow2_minus1 k : (k < 32)%nat -> u32 (2 ^ Z.of_nat k - 1) = Z.ones (Z.of_nat k).
Proof.
  intros Hk. rewrite Z.ones_equiv. assert (H := pow2_u32 k Hk). unfold is_u32 in H.
  assert (0 < 2 ^ Z.of_nat k) by (apply Z.pow_pos_nonneg; lia). rewrite u32_small; [lia|].
  unfold is_u32. lia.
Qed.

Lemma BITPTR_NEXT0_spec words p k :
  (k < 32)%nat -> is_u32 (words !!! p) ->
  BITPTR_NEXT0 words (Bitptr p (2 ^ Z.of_nat k)) =
  Bitptr p (match first_zero (words !!! p) k with Some j => 2 ^ Z.of_nat j | None => 0 end).
Proof.
  intros Hk Hw. unfold BITPTR_NEXT0, BITPTR_WORD. cbn [ptr mask]. f_equal.
  rewrite u32_pow2_minus1 by done. set (w := words !!! p) in *.
  set (t := Z.lor w (Z.ones (Z.of_nat k))).
  assert (Ht : forall i, 0 <= i -> Z.testbit t i = Z.testbit w i || (i <? Z.of_nat k)).
  { intros i Hi. unfold t. by rewrite Z.lor_spec, Z.testbit_ones_nonneg by lia. }
  replace (Z.lnot t) with (- (t + 1)) by (unfold Z.lnot; lia).
  assert (Hneg : forall i, 0 <= i -> Z.testbit (- (t + 1)) i = negb (Z.testbit t i)).
  { intros i Hi. replace (- (t + 1)) with (Z.lnot t) by (unfold Z.lnot; lia). by apply Z.lnot_spec. }
  (* the lowest 1 bit of [-(t + 1)] is the lowest 0 bit of [t] *)
  assert (Z.land (u32 (t + 1)) (u32 (- (t + 1))) = Z.land (u32 (- (t + 1))) (u32 (- - (t + 1)))) as ->
    by (by rewrite Z.opp_involutive, Z.land_comm).
  destruct (first_zero w k) as [j|] eqn:Hf.
  - apply first_zero_Some in Hf as (Hj & Hz & Hb).
    rewrite (lowest_set_u32 _ (Z.of_nat j)); [apply u32_small, pow2_u32; lia| |lia|].
    + intros i Hi. rewrite Hneg, Ht by lia. destruct (Z.ltb_spec i (Z.of_nat k)); [by rewrite orb_true_r|].
      replace i with (Z.of_nat (Z.to_nat i)) by lia. by rewrite Hb by lia.
    + rewrite Hneg, Ht, Hz by lia. destruct (Z.ltb_spec (Z.of_nat j) (Z.of_nat k)); [lia|done].
  - assert (Hall := proj1 (first_zero_None w k) Hf).
    assert (t = Z.ones 32) as ->; [|done].
    apply Z.bits_inj'. intros i Hi. rewrite Ht, Z.testbit_ones_nonneg by lia.
    destruct (Z.ltb_spec i (Z.of_nat k)), (Z.ltb_spec i 32); rewrite ?orb_true_r, ?orb_false_r; try lia; try done.
    + replace i with (Z.of_nat (Z.to_nat i)) by lia. apply Hall. lia.
    + by apply is_u32_testbit.
Qed.

(** [CEIL_LOG2 x] is the least [i] with [x <= 2^i]. *)
Lemma CEIL_LOG2_spec x : 2 <= x <= 2 ^ 31 -> 2 ^ (CEIL_LOG2 x - 1) < x <= 2 ^ CEIL_LOG2 x.
Proof.
  intros Hx. unfold CEIL_LOG2, clz32. rewrite (u32_small x), (u32_small (x - 1)) by (unfold is_u32; lia).
  replace (32 - (31 - Z.log2 (x - 1))) with (Z.succ (Z.log2 (x - 1))) by lia.
  pose proof (Z.log2_spec (x - 1) ltac:(lia)).
  replace (Z.succ (Z.log2 (x - 1)) - 1) with (Z.log2 (x - 1)) by lia. lia.
Qed.

(** [CEILING x y] is the least multiple of [y] that is not below [x]. *)
Lemma CEILING_spec x y : 0 < y -> exists k, CEILING x y = k * y /\ x <= CEILING x y < x + y.
Proof.
  intros Hy. exists ((x + y - 1) / y). unfold CEILING.
  pose proof (Z.div_mod (x + y - 1) y). pose proof (Z.mod_pos_bound (x + y - 1) y). split; nia.
Qed.
