(* ===== verification/Layout.v ===== *)
(** * Segment layouts

    [compute_segment_layout] of src/src/runtime/heap_concurrent.c: where the
    bitmaps, the mark stack and the blocks of a 32k segment lie, for each of
    the ten block sizes.  LP64: [sizeof(struct segment)] is 32 and
    [alignof(max_align_t)] is 16. *)
From Stdlib Require Import ZArith Lia SpecFloat.
From stdpp Require Import base option list.
From S2P Require Import Prelude Bits.

Local Open Scope Z_scope.

Definition SEGMENT_SIZE_LOG2 : Z := 15.
Definition SEGMENT_SIZE : Z := Z.shiftl 1 SEGMENT_SIZE_LOG2.
Definition SEG_RANK : nat := 2.
Definition BLOCKSIZE_MIN_LOG2 : Z := 3.
Definition BLOCKSIZE_MIN : Z := Z.shiftl 1 BLOCKSIZE_MIN_LOG2.
Definition BLOCKSIZE_MAX_LOG2 : Z := 12.
Definition BLOCKSIZE_MAX : Z := Z.shiftl 1 BLOCKSIZE_MAX_LOG2.
Definition NUM_SUBHEAPS : nat := Z.to_nat (BLOCKSIZE_MAX_LOG2 - BLOCKSIZE_MIN_LOG2 + 1).

Definition MAXALIGN : Z := 16.
Definition OBJ_HEADER_SIZE : Z := 4.
Definition sizeof_struct_segment : Z := 32.
Definition sizeof_struct_stack_slot : Z := 8.
Definition alignof_struct_stack_slot : Z := 8.
Definition sizeof_sml_bmword_t : Z := 4.
Definition BITMAP0_OFFSET : Z := CEILING sizeof_struct_segment sizeof_sml_bmword_t.

(** [struct segment_layout]; offsets in bytes from the segment. *)
Record segment_layout := SegmentLayout {
  blocksize_log2 : Z;
  blocksize_bytes : Z;
  bitmap_offset : list Z;    (* SEG_RANK + 1 entries *)
  bitmap_sentinel : list Z;  (* SEG_RANK entries *)
  bitmap_length : Z;
  bitmap0_length : Z;
  zerofill_limit : Z;
  stack_offset : Z;
  block_offset : Z;
  num_blocks : Z;
  block_limit : Z
}.

#[export] Instance segment_layout_inhabited : Inhabited segment_layout :=
  populate (SegmentLayout 0 0 [] [] 0 0 0 0 0 0 0).

(** Single precision division and conversion to an integer. *)
Definition float_of_Z (x : Z) : spec_float := binary_normalize 24 128 x 0 false.
Definition float_div : spec_float -> spec_float -> spec_float := SFdiv 24 128.
Definition float_add : spec_float -> spec_float -> spec_float := SFadd 24 128.
Definition float_trunc (f : spec_float) : Z :=
  match f with
  | S754_finite s m e =>
      (if s then Z.opp else fun x => x) (if 0 <=? e then Z.pos m * 2 ^ e else Z.pos m / 2 ^ (- e))
  | _ => 0
  end.

(** The first guess for the number of blocks.  In the source the term
    [BITPTR_WORDBITS / (BITPTR_WORDBITS - 1) / 8] is an integer division. *)
Definition initial_num_blocks (blocksize : Z) : Z :=
  u32 (float_trunc
    (float_div (float_of_Z (SEGMENT_SIZE - BITMAP0_OFFSET))
       (float_add
          (float_of_Z (blocksize + sizeof_struct_stack_slot
                       + BITPTR_WORDBITS / (BITPTR_WORDBITS - 1) / 8))
          (float_div (float_of_Z 1) (float_of_Z 8))))).

(** The offsets for [n] blocks: the body of the loop over [n]. *)
Record offsets := Offsets {
  bmoffset : list Z; bmlen : list Z; bmbits : list Z; bmlimit : Z;
  stackoffset : Z; stacklimit : Z; blockoffset : Z; blocklimit : Z
}.

(** One turn of the loop over the upper bitmaps, [i = 1 .. SEG_RANK - 1]. *)
Definition upper_bitmap (o : list Z * list Z * list Z * Z) (i : nat) : list Z * list Z * list Z * Z :=
  let '(off, len, bits, limit) := o in
  let len' := (bits !!! (i - 1)%nat) / BITPTR_WORDBITS in
  let bits' := CEILING (len' + 1) BITPTR_WORDBITS in
  (off ++ [limit], len ++ [len'], bits ++ [bits'], limit + bits' / 8).

Definition compute_offsets (blocksize n : Z) : offsets :=
  let bits0 := CEILING (n + 1) BITPTR_WORDBITS in
  let '(off, len, bits, limit) :=
    foldl upper_bitmap ([BITMAP0_OFFSET], [n], [bits0], BITMAP0_OFFSET + bits0 / 8)
          (seq 1 (SEG_RANK - 1)) in
  let off := off ++ [limit] in
  let limit := limit + bits0 / 8 in
  let stackoffset := CEILING limit alignof_struct_stack_slot in
  let stacklimit := stackoffset + sizeof_struct_stack_slot * n in
  let blockalign := if MAXALIGN <? blocksize then MAXALIGN else blocksize in
  let blockoffset := CEILING (stacklimit + OBJ_HEADER_SIZE) blockalign in
  let blocklimit := blockoffset + blocksize * n in
  Offsets off len bits limit stackoffset stacklimit blockoffset blocklimit.

Fixpoint layout_loop (fuel : nat) (blocksize n : Z) : res (Z * offsets) :=
  match fuel with
  | O => NoFuel
  | S fuel =>
      let o := compute_offsets blocksize n in
      if blocklimit o <=? SEGMENT_SIZE then Ok (n, o)
      else layout_loop fuel blocksize (u32 (n - 1))
  end.

Definition sentinel (bits len : Z) : Z :=
  u32 (Z.shiftl (-1) (BITPTR_WORDBITS - (bits - len))).

Definition compute_segment_layout (subheap_index : nat) : res segment_layout :=
  let blocksize_log2 := Z.of_nat subheap_index + BLOCKSIZE_MIN_LOG2 in
  let blocksize := Z.shiftl 1 blocksize_log2 in
  let n := initial_num_blocks blocksize in
  '(n, o) ← layout_loop (S (Z.to_nat n)) blocksize n;
  Ok {| blocksize_log2 := blocksize_log2;
        blocksize_bytes := blocksize;
        bitmap_offset := bmoffset o;
        bitmap_sentinel := zip_with sentinel (bmbits o) (bmlen o);
        bitmap_length := bmoffset o !!! SEG_RANK - bmoffset o !!! 0%nat;
        bitmap0_length := bmbits o !!! 0%nat / 8;
        zerofill_limit := bmlimit o;
        stack_offset := stackoffset o;
        block_offset := blockoffset o;
        num_blocks := n;
        block_limit := blocklimit o |}.

Fixpoint sequence {A} (l : list (res A)) : res (list A) :=
  match l with
  | [] => Ok []
  | m :: l => x ← m; xs ← sequence l; Ok (x :: xs)
  end.

(** [init_segment_layout]: the table of the ten layouts. *)
Definition init_segment_layout : res (list segment_layout) :=
  sequence (map compute_segment_layout (seq 0 NUM_SUBHEAPS)).

Definition the_layouts : list segment_layout :=
  Eval vm_compute in match init_segment_layout with Ok l => l | _ => [] end.

Lemma the_layouts_ok : init_segment_layout = Ok the_layouts.
Proof. vm_compute. reflexivity. Qed.

(** ** The layouts are what the figure in the source shows *)

(** Word index of the bitmap of level [i], and of the collect bitmap for
    [i = SEG_RANK]. *)
Definition bitmap_base (l : segment_layout) (i : nat) : nat := Z.to_nat (bitmap_offset l !!! i / 4).
Definition blocks (l : segment_layout) : nat := Z.to_nat (num_blocks l).
(** The number of words of [bitmap[0]] and [bitmap[1]]. *)
Definition words0 (l : segment_layout) : nat := blocks l / 32 + 1.
Definition words1 (l : segment_layout) : nat := words0 l / 32 + 1.

(** A word whose bits from [k] on are set. *)
Definition high_bits (k : nat) : Z := u32 (Z.shiftl (-1) (Z.of_nat k)).

Record layout_ok (l : segment_layout) : Prop := {
  lo_pos : 0 < num_blocks l;
  (* the last word of [bitmap[0]] is not made of sentinels only *)
  lo_partial : (blocks l mod 32 <> 0)%nat;
  lo_blocksize : blocksize_bytes l = 2 ^ blocksize_log2 l /\ 3 <= blocksize_log2 l <= 12;
  lo_bitmap0 : bitmap_base l 0 = 8%nat;
  lo_bitmap1 : bitmap_base l 1 = (8 + words0 l)%nat;
  lo_collect : bitmap_base l 2 = (8 + words0 l + words1 l)%nat;
  lo_aligned : Forall (fun off => off mod 4 = 0) (bitmap_offset l);
  lo_length : bitmap0_length l = 4 * Z.of_nat (words0 l) /\
              bitmap_length l = 4 * Z.of_nat (words0 l + words1 l);
  lo_sentinel : bitmap_sentinel l = [high_bits (blocks l mod 32); high_bits (words0 l mod 32)];
  lo_zerofill : zerofill_limit l = 4 * Z.of_nat (8 + words0 l + words1 l + words0 l);
  lo_stack : zerofill_limit l <= stack_offset l /\ stack_offset l mod 8 = 0;
  lo_stack_end : stack_offset l + 8 * num_blocks l + OBJ_HEADER_SIZE <= block_offset l;
  lo_block : block_offset l mod Z.min MAXALIGN (blocksize_bytes l) = 0;
  lo_limit : block_limit l = block_offset l + blocksize_bytes l * num_blocks l /\
             block_limit l <= SEGMENT_SIZE
}.

Definition layout_okb (l : segment_layout) : bool :=
  (0 <? num_blocks l) && negb (blocks l mod 32 =? 0)%nat &&
  ((blocksize_bytes l =? 2 ^ blocksize_log2 l) && (3 <=? blocksize_log2 l) && (blocksize_log2 l <=? 12)) &&
  (bitmap_base l 0 =? 8)%nat && (bitmap_base l 1 =? 8 + words0 l)%nat &&
  (bitmap_base l 2 =? 8 + words0 l + words1 l)%nat &&
  forallb (fun off => off mod 4 =? 0) (bitmap_offset l) &&
  ((bitmap0_length l =? 4 * Z.of_nat (words0 l)) && (bitmap_length l =? 4 * Z.of_nat (words0 l + words1 l))) &&
  bool_decide (bitmap_sentinel l = [high_bits (blocks l mod 32); high_bits (words0 l mod 32)]) &&
  (zerofill_limit l =? 4 * Z.of_nat (8 + words0 l + words1 l + words0 l)) &&
  ((zerofill_limit l <=? stack_offset l) && (stack_offset l mod 8 =? 0)) &&
  (stack_offset l + 8 * num_blocks l + OBJ_HEADER_SIZE <=? block_offset l) &&
  (block_offset l mod Z.min MAXALIGN (blocksize_bytes l) =? 0) &&
  ((block_limit l =? block_offset l + blocksize_bytes l * num_blocks l) && (block_limit l <=? SEGMENT_SIZE)).

Lemma layout_okb_ok l : layout_okb l = true -> layout_ok l.
Proof.
  unfold layout_okb. rewrite !andb_true_iff, negb_true_iff, Nat.eqb_neq, !Z.ltb_lt, !Z.leb_le, !Z.eqb_eq, !Nat.eqb_eq, forallb_forall,
    bool_decide_eq_true.
  intros H. split; try tauto. apply Forall_forall. intros off Hoff.
  apply Z.eqb_eq. destruct_and!.
  match goal with Hf : forall x, In x _ -> _ |- _ => apply Hf end. by apply list_elem_of_In.
Qed.

Lemma layouts_ok i l : the_layouts !! i = Some l -> layout_ok l.
Proof.
  intros H. apply layout_okb_ok. apply list_elem_of_lookup_2 in H.
  assert (Hall : forallb layout_okb the_layouts = true) by (vm_compute; reflexivity).
  rewrite forallb_forall in Hall. apply Hall. by apply list_elem_of_In.
Qed.

Lemma layout_log2 i l : the_layouts !! i = Some l -> blocksize_log2 l = Z.of_nat i + BLOCKSIZE_MIN_LOG2.
Proof. do 10 (destruct i as [|i]; [by intros [= <-]|]). done. Qed.

Lemma layout_size i l : the_layouts !! i = Some l -> 
  Z.of_nat (8 + words0 l + words1 l + words0 l) <= SEGMENT_SIZE / 4.
Proof.
  intros H. assert (Hok := layouts_ok i l H). pose proof (lo_zerofill _ Hok). pose proof (lo_stack _ Hok).
  pose proof (lo_stack_end _ Hok). pose proof (lo_limit _ Hok) as [? ?]. pose proof (lo_pos _ Hok).
  pose proof (lo_blocksize _ Hok) as [Hb _].
  assert (0 <= blocksize_bytes l) by (rewrite Hb; apply Z.pow_nonneg; lia).
  assert (0 <= blocksize_bytes l * num_blocks l) by nia.
  unfold OBJ_HEADER_SIZE in *. change SEGMENT_SIZE with 32768 in *. change (32768 / 4) with 8192. lia.
Qed.

(** More blocks would not fit. *)
Definition maximal (l : segment_layout) : bool :=
  SEGMENT_SIZE <? blocklimit (compute_offsets (blocksize_bytes l) (num_blocks l + 1)).

Lemma layouts_maximal i l : the_layouts !! i = Some l -> maximal l = true.
Proof.
  intros H. apply list_elem_of_lookup_2 in H.
  assert (Hall : forallb maximal the_layouts = true) by (vm_compute; reflexivity).
  rewrite forallb_forall in Hall. apply Hall. by apply list_elem_of_In.
Qed.

Lemma maximal_spec l : maximal l = true ->
  SEGMENT_SIZE < blocklimit (compute_offsets (blocksize_bytes l) (num_blocks l + 1)).
Proof. unfold maximal. apply Z.ltb_lt. Qed.

Lemma layouts_computed i l : the_layouts !! i = Some l -> compute_segment_layout i = Ok l.
Proof. do 10 (destruct i as [|i]; [intros [= <-]; vm_compute; reflexivity|]). done. Qed.
