(* ===== verification/Segment.v ===== *)
(** * Segments: bitmaps and free blocks

    [struct segment] of src/src/runtime/heap_concurrent.c with the memory of
    its bitmaps, [init_segment], [copy_collect_bitmap], [free_count],
    [stat_segment] and the search for free blocks, [find_bitmap]. *)
From Stdlib Require Import ZArith Lia.
From stdpp Require Import base option list.
From S2P Require Import Prelude Bits Layout.

Local Open Scope Z_scope.

Definition segment_words : nat := Z.to_nat (SEGMENT_SIZE / 4).

(** [layout] is an index into the table of layouts, [None] for the null
    pointer of a segment that was never initialised; [allocptr_snapshot] is
    an offset in the segment; [words] is the memory of the segment. *)
Record segment := Segment {
  layout : option nat;
  allocptr_snapshot : Z;
  seg_free_count : Z;
  words : list Z
}.

Definition segment_layout_at (i : nat) : res segment_layout := deref (the_layouts !! i).
Definition seg_layout (seg : segment) : res segment_layout :=
  i ← deref (layout seg); segment_layout_at i.

Definition set_words (ws : list Z) (seg : segment) : segment :=
  Segment (layout seg) (allocptr_snapshot seg) (seg_free_count seg) ws.

(** [BITMAP_BASE(seg, i)] and [BITMAP_LIMIT(seg, i)] as word indices. *)
Definition BITMAP_BASE (l : segment_layout) (level : nat) : nat := bitmap_base l level.
Definition BITMAP_LIMIT (l : segment_layout) (level : nat) : nat := bitmap_base l (level + 1).
Definition BITMAP0_BASE : nat := Z.to_nat (BITMAP0_OFFSET / 4).
Definition COLLECT_BITMAP_BASE (l : segment_layout) : nat := bitmap_base l SEG_RANK.
Definition BLOCK_BASE (l : segment_layout) : Z := block_offset l.
Definition BLOCK_LIMIT (l : segment_layout) : Z := block_limit l.

(** [memset] and [memcpy] on whole words. *)
Definition mem_set (dst n : nat) (v : Z) (ws : list Z) : list Z :=
  take dst ws ++ replicate n v ++ drop (dst + n) ws.
Definition mem_copy (dst src n : nat) (ws : list Z) : list Z :=
  take dst ws ++ take n (drop src ws) ++ drop (dst + n) ws.
Definition check_filled (ws : list Z) (from n : nat) (c : Z) : bool :=
  forallb (Z.eqb c) (take n (drop from ws)).

Definition write_sentinels (l : segment_layout) (value : nat -> Z) (ws : list Z) : list Z :=
  foldl (fun ws i => <[BITMAP_LIMIT l i - 1 := value i]> ws)%nat ws (seq 0 SEG_RANK).

Definition init_segment (seg : segment) (subheap_index : nat) : res segment :=
  assert_that (subheap_index <? NUM_SUBHEAPS)%nat;;
  new_layout ← segment_layout_at subheap_index;
  if bool_decide (layout seg = Some subheap_index) then
    assert_that (allocptr_snapshot seg =? BLOCK_BASE new_layout);;
    assert_that (seg_free_count seg =? num_blocks new_layout);;
    Ok seg
  else
    ws ← match layout seg with
         | Some i =>
             old ← segment_layout_at i;
             let ws := write_sentinels old (fun _ => 0) (words seg) in
             let old_limit := Z.to_nat (zerofill_limit old / 4) in
             let new_limit := Z.to_nat (zerofill_limit new_layout / 4) in
             Ok (if (old_limit <? new_limit)%nat
                 then mem_set old_limit (new_limit - old_limit) 0 ws else ws)
         | None => Ok (words seg)
         end;
    assert_that (check_filled ws BITMAP0_BASE
                   (Z.to_nat ((zerofill_limit new_layout - BITMAP0_OFFSET) / 4)) 0);;
    Ok (Segment (Some subheap_index) (BLOCK_BASE new_layout) (num_blocks new_layout)
          (write_sentinels new_layout (fun i => bitmap_sentinel new_layout !!! i) ws)).

Definition clear_collect_bitmap (l : segment_layout) (ws : list Z) : list Z :=
  mem_set (COLLECT_BITMAP_BASE l) (Z.to_nat (bitmap0_length l / 4)) 0 ws.

(** The loop [while (lower < limit)] with [n] words to go; the last word is
    written by the caller. *)
Fixpoint fill_upper (n : nat) (ws : list Z) (lower upper : nat) (bit word : Z) : list Z * nat * nat * Z :=
  match n with
  | O => (ws, lower, upper, word)
  | S n =>
      let word := if ws !!! lower =? u32 (-1) then Z.lor word bit else word in
      let bit := u32 (Z.shiftl bit 1) in
      if bit =? 0 then fill_upper n (<[upper := word]> ws) (S lower) (S upper) 1 0
      else fill_upper n ws (S lower) upper bit word
  end.

(** One turn of [for (i = 1; i < SEG_RANK; i++)]. *)
Definition copy_level (l : segment_layout) (st : list Z * nat * nat) (i : nat) : res (list Z * nat * nat) :=
  let '(ws, lower, upper) := st in
  let limit := upper in
  assert_that (upper =? BITMAP_BASE l i)%nat;;
  assert_that (limit =? BITMAP_LIMIT l (i - 1))%nat;;
  let '(ws, lower, upper, word) := fill_upper (limit - lower) ws lower upper 1 0 in
  Ok (<[upper := Z.lor word (bitmap_sentinel l !!! i)]> ws, lower, S upper).

Definition copy_collect_bitmap (l : segment_layout) (ws : list Z) : res (list Z) :=
  let ws := mem_copy BITMAP0_BASE (COLLECT_BITMAP_BASE l) (Z.to_nat (bitmap0_length l / 4)) ws in
  let last := (BITMAP_LIMIT l 0 - 1)%nat in
  let ws := <[last := Z.lor (ws !!! last) (bitmap_sentinel l !!! 0%nat)]> ws in
  '(ws, _, _) ← foldl (fun m i => st ← m; copy_level l st i)
                      (Ok (ws, BITMAP0_BASE, BITMAP_LIMIT l 0)) (seq 1 (SEG_RANK - 1));
  Ok ws.

(** [__builtin_popcount] of a 32-bit word. *)
Definition popcount32 (w : Z) : Z :=
  foldl (fun n i => n + Z.b2z (Z.testbit w (Z.of_nat i))) 0 (seq 0 32).

(** [obj] is an offset in the segment. *)
Definition object_index (l : segment_layout) (obj : Z) : res nat :=
  assert_that (BLOCK_BASE l <=? obj);;
  assert_that (obj <=? SEGMENT_SIZE);;
  Ok (Z.to_nat (Z.shiftr (obj - BLOCK_BASE l) (blocksize_log2 l))).

Definition free_count (l : segment_layout) (ws : list Z) (allocptr : option Z) : res Z :=
  p ← match allocptr with
      | None => Ok BITMAP0_BASE
      | Some allocptr =>
          index ← object_index l allocptr;
          Ok (ptr (BITPTR BITMAP0_BASE index) + 1)%nat
      end;
  Ok (foldl (fun sum p => u32 (sum + popcount32 (u32 (Z.lnot (ws !!! p))))) 0
            (seq p (BITMAP_LIMIT l 0 - p))).

Record stat := Stat {
  num_marked : Z; num_unmarked : Z;
  num_marked_before_allocptr : Z; num_unmarked_before_allocptr : Z
}.

Definition stat_step (ws : list Z) (allocptr : Z) (bs : Z) (st : bitptr * Z * stat) : bitptr * Z * stat :=
  let '(b, block, s) := st in
  let before := Z.b2z (block <? allocptr) in
  let s := if BITPTR_TEST ws b
           then Stat (num_marked s + 1) (num_unmarked s)
                     (num_marked_before_allocptr s + before) (num_unmarked_before_allocptr s)
           else Stat (num_marked s) (num_unmarked s + 1)
                     (num_marked_before_allocptr s) (num_unmarked_before_allocptr s + before) in
  (BITPTR_INC b, block + bs, s).

Definition stat_segment (l : segment_layout) (ws : list Z) (allocptr : Z) : stat :=
  (Nat.iter (blocks l) (stat_step ws allocptr (blocksize_bytes l))
     (BITPTR BITMAP0_BASE 0, BLOCK_BASE l, Stat 0 0 0 0)).2.

(** ** The search for a free block *)
Fixpoint bitptr_linear_search (n : nat) (ws : list Z) (b : bitptr) : bitptr :=
  match n with
  | O => b
  | S n =>
      let b := BITPTR_NEXT0 ws (Bitptr (ptr b) 1) in
      if negb (BITPTR_NEXT_FAILED b) then b
      else bitptr_linear_search n ws (Bitptr (S (ptr b)) (mask b))
  end.

(** [for (i = 1;; i++)]: go up until a word with a 0 bit is found. *)
Fixpoint climb (fuel : nat) (l : segment_layout) (ws : list Z) (b : bitptr) (base i : nat)
  : res (option (bitptr * nat * nat)) :=
  match fuel with
  | O => NoFuel
  | S fuel =>
      let index := (BITPTR_WORDINDEX b base + 1)%nat in
      let base := BITMAP_BASE l i in
      let b := BITPTR_NEXT0 ws (BITPTR base index) in
      if negb (BITPTR_NEXT_FAILED b) then Ok (Some (b, base, i))
      else if (SEG_RANK - 1 <=? i)%nat then
        let p := (ptr b + 1)%nat in
        let b := bitptr_linear_search (BITMAP_LIMIT l i - p) ws (Bitptr p 0) in
        if BITPTR_NEXT_FAILED b then Ok None else Ok (Some (b, base, i))
      else climb fuel l ws b base (S i)
  end.

(** [for (; i > 0; i--)]: go down to level 0. *)
Fixpoint descend (i : nat) (l : segment_layout) (ws : list Z) (b : bitptr) (base : nat) : res (bitptr * nat) :=
  match i with
  | O => Ok (b, base)
  | S i' =>
      let index := BITPTR_INDEX b base in
      let base := BITMAP_BASE l i' in
      let b := BITPTR_NEXT0 ws (BITPTR (base + index) 0) in
      assert_that (negb (BITPTR_NEXT_FAILED b));;
      descend i' l ws b base
  end.

(** The result: the object, the new [ptr->b] and the new [ptr->p]. *)
Definition find_bitmap (l : segment_layout) (ws : list Z) (b : bitptr) : res (option (Z * bitptr * Z)) :=
  let base := BITMAP0_BASE in
  let b := BITPTR_NEXT0 ws b in
  found ← (if BITPTR_NEXT_FAILED b then
             up ← climb SEG_RANK l ws b base 1;
             match up with
             | None => Ok None
             | Some (b, base, i) => '(b, base) ← descend i l ws b base; Ok (Some (b, base))
             end
           else Ok (Some (b, base)));
  match found with
  | None => Ok None
  | Some (b, base) =>
      let index := BITPTR_INDEX b base in
      assert_that (Z.of_nat index <? num_blocks l);;
      let obj := BLOCK_BASE l + Z.shiftl (Z.of_nat index) (blocksize_log2 l) in
      Ok (Some (obj, BITPTR_INC b, obj + blocksize_bytes l))
  end.
