(* ===== verification/SegmentFacts.v ===== *)
(** * Segments: invariants and lemmas *)
From Stdlib Require Import ZArith Lia.
From stdpp Require Import base option list.
From S2P Require Import Prelude Bits Layout Segment.

Local Open Scope Z_scope.

(** [k] is the first 0 at or after [n]. *)
Definition least (f : nat -> bool) (n k : nat) : Prop :=
  (n <= k)%nat /\ f k = false /\ forall i, (n <= i < k)%nat -> f i = true.

Lemma least_fun f n k k' : least f n k -> least f n k' -> k = k'.
Proof.
  intros (H1 & H2 & H3) (H1' & H2' & H3').
  destruct (Nat.lt_trichotomy k k') as [H|[H|H]]; [|done|].
  - by rewrite H3' in H2 by lia.
  - by rewrite H3 in H2' by lia.
Qed.

Lemma least_skip f n m k :
  (n <= m)%nat -> (forall i, (n <= i < m)%nat -> f i = true) -> least f m k -> least f n k.
Proof.
  intros Hnm Hall (H1 & H2 & H3). split; [lia|]. split; [done|]. intros i Hi.
  destruct (Nat.lt_ge_cases i m); [apply Hall|apply H3]; lia.
Qed.

(** ** Bits of a range of words *)
Definition words_ok (ws : list Z) : Prop := length ws = segment_words /\ Forall is_u32 ws.

Definition bits (ws : list Z) (base k : nat) : bool := bit_at (drop base ws) k.

Lemma bits_word ws base q j : (j < 32)%nat ->
  bits ws base (32 * q + j) = Z.testbit (ws !!! (base + q)%nat) (Z.of_nat j).
Proof.
  intros Hj. unfold bits, bit_at.
  assert (((32 * q + j) / 32)%nat = q) as -> by (symmetry; apply (Nat.div_unique _ _ _ j); lia).
  assert (((32 * q + j) mod 32)%nat = j) as -> by (symmetry; apply (Nat.mod_unique _ _ q); lia).
  by rewrite !list_lookup_total_alt, lookup_drop.
Qed.

Lemma bits_div ws base k :
  bits ws base k = Z.testbit (ws !!! (base + k / 32)%nat) (Z.of_nat (k mod 32)).
Proof.
  rewrite (Nat.div_mod_eq k 32) at 1. apply bits_word. apply Nat.mod_upper_bound. lia.
Qed.

Lemma word_u32 ws i : Forall is_u32 ws -> is_u32 (ws !!! i).
Proof.
  intros H. rewrite list_lookup_total_alt. destruct (ws !! i) as [w|] eqn:Hw; simpl; [|done].
  by eapply Forall_lookup_1.
Qed.

(** A word is full if all its bits are set. *)
Definition full (w : Z) : bool := w =? u32 (-1).

Lemma full_bits w : is_u32 w -> full w = true <-> forall j, (j < 32)%nat -> Z.testbit w (Z.of_nat j) = true.
Proof.
  intros Hw. unfold full. rewrite Z.eqb_eq. split.
  - intros -> j Hj. rewrite u32_testbit by lia. rewrite Z.bits_m1 by lia. apply Z.ltb_lt. lia.
  - intros H. apply Z.bits_inj'. intros i Hi. rewrite u32_testbit, Z.bits_m1 by lia. simpl.
    destruct (Z.ltb_spec i 32); [|by apply is_u32_testbit].
    replace i with (Z.of_nat (Z.to_nat i)) by lia. apply H. lia.
Qed.

Lemma full_word ws base q : Forall is_u32 ws ->
  full (ws !!! (base + q)%nat) = true <-> forall i, (32 * q <= i < 32 * q + 32)%nat -> bits ws base i = true.
Proof.
  intros Hw. rewrite full_bits by (by apply word_u32). split.
  - intros H i Hi. replace i with (32 * q + (i - 32 * q))%nat by lia. rewrite bits_word by lia.
    apply H. lia.
  - intros H j Hj. rewrite <- bits_word by done. apply H. lia.
Qed.

Lemma full_words ws base a b : Forall is_u32 ws ->
  (forall q, (a <= q < b)%nat -> full (ws !!! (base + q)%nat) = true) ->
  forall i, (32 * a <= i < 32 * b)%nat -> bits ws base i = true.
Proof.
  intros Hw H i Hi. pose proof (Nat.div_mod_eq i 32). pose proof (Nat.mod_upper_bound i 32 ltac:(lia)).
  apply (full_word ws base (i / 32)); [done| |lia]. apply H. lia.
Qed.

Lemma not_full_zero ws base q : Forall is_u32 ws -> full (ws !!! (base + q)%nat) = false ->
  exists j, first_zero (ws !!! (base + q)%nat) 0 = Some j.
Proof.
  intros Hw Hf. destruct (first_zero _ 0) as [j|] eqn:Hz; [eauto|]. exfalso.
  rewrite first_zero_None in Hz. apply not_true_iff_false in Hf. apply Hf.
  apply full_bits; [by apply word_u32|]. intros j Hj. apply Hz. lia.
Qed.

(** ** The searches *)
Lemma NEXT0_word ws base n : Forall is_u32 ws ->
  let w := ws !!! (base + n / 32)%nat in
  BITPTR_NEXT0 ws (BITPTR base n) =
  Bitptr (base + n / 32) (match first_zero w (n mod 32) with Some j => 2 ^ Z.of_nat j | None => 0 end).
Proof.
  intros Hw w. rewrite BITPTR_eq. apply BITPTR_NEXT0_spec; [apply Nat.mod_upper_bound; lia|].
  by apply word_u32.
Qed.

Lemma first_zero_least ws base n j :
  first_zero (ws !!! (base + n / 32)%nat) (n mod 32) = Some j ->
  least (bits ws base) n (32 * (n / 32) + j).
Proof.
  intros (Hj & Hz & Hb)%first_zero_Some. pose proof (Nat.div_mod_eq n 32).
  split; [lia|]. split; [rewrite bits_word by lia; done|]. intros i Hi.
  replace i with (32 * (n / 32) + (i - 32 * (n / 32)))%nat by lia.
  rewrite bits_word by lia. apply Hb. lia.
Qed.

Lemma first_zero_none_bits ws base n :
  first_zero (ws !!! (base + n / 32)%nat) (n mod 32) = None ->
  forall i, (n <= i < 32 * (n / 32 + 1))%nat -> bits ws base i = true.
Proof.
  intros Hn i Hi. rewrite first_zero_None in Hn. pose proof (Nat.div_mod_eq n 32).
  replace i with (32 * (n / 32) + (i - 32 * (n / 32)))%nat by lia.
  rewrite bits_word by lia. apply Hn. lia.
Qed.

Lemma pow2_not_failed j : 2 ^ Z.of_nat j =? 0 = false.
Proof. apply Z.eqb_neq. assert (0 < 2 ^ Z.of_nat j) by (apply Z.pow_pos_nonneg; lia). lia. Qed.

Lemma linear_search_ok ws base : Forall is_u32 ws -> forall n q m,
  let b := bitptr_linear_search n ws (Bitptr (base + q) m) in
  (n = 0%nat /\ b = Bitptr (base + q) m) \/
  (n <> 0%nat /\ BITPTR_NEXT_FAILED b = true /\
    forall i, (32 * q <= i < 32 * (q + n))%nat -> bits ws base i = true) \/
  (exists k, least (bits ws base) (32 * q) k /\ (k < 32 * (q + n))%nat /\ b = BITPTR base k).
Proof.
  intros Hw n. induction n as [|n IH]; intros q m; [by left|]. right. cbn [bitptr_linear_search].
  cbn [ptr]. assert (Bitptr (base + q) 1 = BITPTR base (32 * q)) as ->.
  { rewrite BITPTR_eq. rewrite (Nat.mul_comm 32), Nat.div_mul, Nat.Div0.mod_mul by lia. done. }
  assert (Hq : (32 * q / 32 = q)%nat) by (rewrite Nat.mul_comm, Nat.div_mul; lia).
  assert (Hq0 : (32 * q mod 32 = 0)%nat) by (rewrite Nat.mul_comm, Nat.Div0.mod_mul; lia).
  rewrite NEXT0_word, Hq, Hq0 by done. destruct (first_zero _ 0) as [j|] eqn:Hz.
  - unfold BITPTR_NEXT_FAILED. cbn [mask ptr]. rewrite pow2_not_failed. simpl negb. cbn iota.
    right. exists (32 * q + j)%nat. pose proof (proj1 (first_zero_Some _ _ _) Hz) as (Hj & _).
    split; [|split; [lia|]].
    + rewrite <- Hq at 2. apply (first_zero_least ws base (32 * q)). by rewrite Hq, Hq0.
    + rewrite BITPTR_eq. f_equal; [f_equal; apply (Nat.div_unique _ _ _ j); lia|].
      do 2 f_equal. apply (Nat.mod_unique _ _ q); lia.
  - unfold BITPTR_NEXT_FAILED at 1. cbn [mask ptr]. simpl negb. cbn iota.
    assert (Hall : forall i, (32 * q <= i < 32 * (q + 1))%nat -> bits ws base i = true).
    { intros i Hi. apply (first_zero_none_bits ws base (32 * q)); [by rewrite Hq, Hq0|lia]. }
    replace (S (base + q)) with (base + S q)%nat by lia.
    destruct (IH (S q) 0) as [[-> ->]|[(Hn & Hf & Hb)|(k & Hk & Hlt & ->)]].
    + left. split; [done|]. split; [done|]. intros i Hi. apply Hall. lia.
    + left. split; [done|]. split; [done|]. intros i Hi.
      destruct (Nat.lt_ge_cases i (32 * (q + 1))); [apply Hall|apply Hb]; lia.
    + right. exists k. split; [|split; [lia|done]]. eapply (least_skip _ _ (32 * S q)); [lia| |done].
      intros i Hi. apply Hall. lia.
Qed.

(** ** Segments in use *)

(** [bitmap[1]] summarises [bitmap[0]], and the bits behind the last block
    are sentinels. *)
Record seg_ok (l : segment_layout) (ws : list Z) : Prop := {
  sok_words : words_ok ws;
  sok_sentinel0 k : (blocks l <= k < 32 * words0 l)%nat -> bits ws 8 k = true;
  sok_level1 q : (q < words0 l)%nat ->
    bits ws (8 + words0 l) q = full (ws !!! (8 + q)%nat);
  sok_sentinel1 q : (words0 l <= q < 32 * words1 l)%nat -> bits ws (8 + words0 l) q = true
}.

(** The first free block at or after [n]. *)
Definition next_free (l : segment_layout) (ws : list Z) (n : nat) : option nat :=
  snd <$> list_find (fun k => bits ws 8 k = false) (seq n (blocks l - n)).

Lemma next_free_Some l ws n k :
  next_free l ws n = Some k <-> least (bits ws 8) n k /\ (k < blocks l)%nat.
Proof.
  unfold next_free, least. rewrite fmap_Some. split.
  - intros ([i x] & Hf & ->). apply list_find_Some in Hf as (Hl & Hz & Hb).
    apply lookup_seq in Hl as [-> Hi]. simpl. split; [|lia]. split; [lia|]. split; [done|].
    intros i' Hi'. apply not_false_iff_true. apply (Hb (i' - n)%nat); [|lia]. apply lookup_seq. lia.
  - intros ((Hn & Hz & Hb) & Hk). exists ((k - n)%nat, k). split; [|done].
    apply list_find_Some. split; [apply lookup_seq; lia|]. split; [done|].
    intros i x Hl Hi. apply lookup_seq in Hl as [-> ?]. apply not_false_iff_true, Hb. lia.
Qed.

Lemma next_free_None l ws n :
  next_free l ws n = None <-> forall k, (n <= k < blocks l)%nat -> bits ws 8 k = true.
Proof.
  unfold next_free. rewrite fmap_None, list_find_None, Forall_forall. setoid_rewrite elem_of_seq.
  split; intros H k Hk; apply not_false_iff_true; apply H; lia.
Qed.

Section FindBitmap.
Context (l : segment_layout) (ws : list Z) (Hl : layout_ok l) (Hs : seg_ok l ws).

Lemma seg_u32 : Forall is_u32 ws.
Proof. apply Hs. Qed.

Lemma BASE0 : BITMAP0_BASE = 8%nat.
Proof. done. Qed.

Lemma blocks_words0 : (blocks l < 32 * words0 l)%nat.
Proof.
  unfold words0. pose proof (Nat.div_mod_eq (blocks l) 32).
  pose proof (Nat.mod_upper_bound (blocks l) 32). lia.
Qed.
Lemma words0_words1 : (words0 l < 32 * words1 l)%nat.
Proof.
  unfold words1. pose proof (Nat.div_mod_eq (words0 l) 32).
  pose proof (Nat.mod_upper_bound (words0 l) 32). lia.
Qed.

Lemma level1_zero k :
  bits ws (8 + words0 l) k = false -> (k < 32 * words1 l)%nat ->
  (k < words0 l)%nat /\ full (ws !!! (8 + k)%nat) = false.
Proof.
  intros Hz Hk. destruct (Nat.lt_ge_cases k (words0 l)) as [Hlt|Hge].
  - by rewrite (sok_level1 _ _ Hs) in Hz.
  - by rewrite (sok_sentinel1 _ _ Hs) in Hz.
Qed.

Lemma level1_ones n k : (k <= words0 l)%nat ->
  (forall i, (n <= i < k)%nat -> bits ws (8 + words0 l) i = true) ->
  forall i, (32 * n <= i < 32 * k)%nat -> bits ws 8 i = true.
Proof.
  intros Hk H. apply full_words; [apply seg_u32|]. intros q Hq.
  rewrite <- (sok_level1 _ _ Hs) by lia. by apply H.
Qed.

Lemma free_below k : bits ws 8 k = false -> (k < 32 * words0 l)%nat -> (k < blocks l)%nat.
Proof.
  intros Hz Hk. destruct (Nat.lt_ge_cases k (blocks l)) as [|Hge]; [done|].
  by rewrite (sok_sentinel0 _ _ Hs) in Hz.
Qed.

Lemma BITPTR_word base q j : (j < 32)%nat ->
  Bitptr (base + q) (2 ^ Z.of_nat j) = BITPTR base (32 * q + j).
Proof.
  intros Hj. rewrite BITPTR_eq. f_equal.
  - f_equal. apply (Nat.div_unique _ _ _ j); lia.
  - do 2 f_equal. apply (Nat.mod_unique _ _ q); lia.
Qed.

(** From a 0 bit of [bitmap[1]] to the first free block. *)
Lemma descend_ok n k :
  least (bits ws (8 + words0 l)) n k -> (k < 32 * words1 l)%nat ->
  exists m, descend 1 l ws (BITPTR (8 + words0 l) k) (8 + words0 l) = Ok (BITPTR 8 m, 8%nat) /\
    least (bits ws 8) (32 * n) m /\ (m < blocks l)%nat.
Proof.
  intros (Hn & Hz & Hb) Hk. destruct (level1_zero k Hz Hk) as [Hk0 Hf].
  destruct (not_full_zero ws 8 k seg_u32 Hf) as [j Hj].
  pose proof (proj1 (first_zero_Some _ _ _) Hj) as (Hjr & Hjz & Hjb).
  cbn [descend]. rewrite BITPTR_INDEX_BITPTR.
  assert (BITMAP_BASE l 0 = 8%nat) as -> by apply (lo_bitmap0 _ Hl).
  rewrite NEXT0_word by apply seg_u32. rewrite Nat.div_0_l, Nat.Div0.mod_0_l, Nat.add_0_r, Hj by lia.
  unfold BITPTR_NEXT_FAILED. cbn [mask]. rewrite pow2_not_failed. cbn [negb assert_that mbind res_bind].
  exists (32 * k + j)%nat. rewrite (BITPTR_word 8 k j) by lia.
  assert (Hl0 : least (bits ws 8) (32 * n) (32 * k + j)).
  { apply (least_skip _ _ (32 * k)); [lia|apply level1_ones; [lia|done]|].
    split; [lia|]. split; [by rewrite bits_word by lia|]. intros i Hi.
    replace i with (32 * k + (i - 32 * k))%nat by lia. rewrite bits_word by lia. apply Hjb. lia. }
  split; [done|]. split; [done|]. apply free_below; [apply Hl0|lia].
Qed.

Lemma no_free n : (forall i, (S (n / 32) <= i < 32 * words1 l)%nat -> bits ws (8 + words0 l) i = true) ->
  (forall i, (n <= i < 32 * (n / 32 + 1))%nat -> bits ws 8 i = true) -> next_free l ws n = None.
Proof.
  intros H1 H0. apply next_free_None. intros k Hk. pose proof blocks_words0. pose proof words0_words1.
  destruct (Nat.lt_ge_cases k (32 * (n / 32 + 1))); [apply H0; lia|].
  apply (level1_ones (S (n / 32)) (words0 l)); [lia| |lia]. intros i Hi. apply H1. lia.
Qed.

(** The climb from word [n / 32] finds the next word with a free block. *)
Lemma climb_ok n : (n / 32 < words0 l)%nat ->
  (forall i, (n <= i < 32 * (n / 32 + 1))%nat -> bits ws 8 i = true) ->
  match climb SEG_RANK l ws (Bitptr (8 + n / 32) 0) 8 1 with
  | Ok None => next_free l ws n = None
  | Ok (Some (b, base, i)) =>
      exists k, b = BITPTR base k /\ base = (8 + words0 l)%nat /\ i = 1%nat /\
        least (bits ws base) (S (n / 32)) k /\ (k < 32 * words1 l)%nat
  | _ => False
  end.
Proof.
  intros Hn H0. change SEG_RANK with 2%nat. cbn [climb]. unfold BITPTR_WORDINDEX. cbn [ptr].
  replace (8 + n / 32 - 8 + 1)%nat with (S (n / 32)) by lia. set (ix := S (n / 32)).
  assert (BITMAP_BASE l 1 = (8 + words0 l)%nat) as -> by apply (lo_bitmap1 _ Hl).
  rewrite NEXT0_word by apply seg_u32. unfold words1 in *. fold (words1 l) in *.
  pose proof (Nat.div_mod_eq ix 32). pose proof (Nat.mod_upper_bound ix 32 ltac:(lia)).
  assert (Hix : (ix / 32 < words1 l)%nat) by (unfold words1; pose proof (Nat.Div0.div_le_mono ix (words0 l) 32); lia).
  destruct (first_zero _ _) as [j|] eqn:Hz.
  - unfold BITPTR_NEXT_FAILED at 1. cbn [mask]. rewrite pow2_not_failed. cbn [negb].
    pose proof (proj1 (first_zero_Some _ _ _) Hz) as (Hj & _).
    exists (32 * (ix / 32) + j)%nat. rewrite BITPTR_word by lia. do 3 (split; [done|]).
    split; [|lia]. by apply first_zero_least.
  - unfold BITPTR_NEXT_FAILED at 1. cbn [mask]. cbn [negb Z.eqb]. change (2 - 1 <=? 1)%nat with true. cbn iota.
    cbn [ptr]. assert (BITMAP_LIMIT l 1 = (8 + words0 l + words1 l)%nat) as -> by apply (lo_collect _ Hl).
    replace (8 + words0 l + ix / 32 + 1)%nat with (8 + words0 l + S (ix / 32))%nat by lia.
    assert (Hones := first_zero_none_bits ws (8 + words0 l) ix Hz).
    destruct (linear_search_ok ws (8 + words0 l) seg_u32
                (8 + words0 l + words1 l - (8 + words0 l + S (ix / 32))) (S (ix / 32)) 0)
      as [[Hn0 ->]|[(Hn0 & Hf & Hb)|(k & Hk & Hlt & ->)]].
    + cbn. apply no_free; [|done]. intros i Hi. apply Hones. unfold ix in *. lia.
    + rewrite Hf. apply no_free; [|done]. intros i Hi.
      destruct (Nat.lt_ge_cases i (32 * (ix / 32 + 1))); [apply Hones|apply Hb]; unfold ix in *; lia.
    + assert (Hnf : BITPTR_NEXT_FAILED (BITPTR (8 + words0 l) k) = false).
      { rewrite BITPTR_eq. unfold BITPTR_NEXT_FAILED. cbn [mask]. apply pow2_not_failed. }
      rewrite Hnf. exists k. do 3 (split; [done|]). split; [|lia].
      apply (least_skip _ _ (32 * S (ix / 32))); [lia| |done]. intros i Hi. apply Hones. lia.
Qed.

Lemma find_bitmap_spec n : (n <= blocks l)%nat ->
  find_bitmap l ws (BITPTR 8 n) =
  Ok (match next_free l ws n with
      | Some k => Some (BLOCK_BASE l + Z.of_nat k * blocksize_bytes l, BITPTR 8 (S k),
                        BLOCK_BASE l + Z.of_nat (S k) * blocksize_bytes l)
      | None => None
      end).
Proof.
  intros Hn. unfold find_bitmap. rewrite BASE0.
  assert (Hw : (n / 32 < words0 l)%nat).
  { unfold words0. pose proof (Nat.Div0.div_le_mono n (blocks l) 32 Hn). lia. }
  assert (Hfin : forall k, least (bits ws 8) n k -> (k < blocks l)%nat ->
    (let index := BITPTR_INDEX (BITPTR 8 k) 8 in
     assert_that (Z.of_nat index <? num_blocks l);;
     let obj := BLOCK_BASE l + Z.shiftl (Z.of_nat index) (blocksize_log2 l) in
     Ok (Some (obj, BITPTR_INC (BITPTR 8 k), obj + blocksize_bytes l))) =
    Ok (match next_free l ws n with
      | Some k => Some (BLOCK_BASE l + Z.of_nat k * blocksize_bytes l, BITPTR 8 (S k),
                        BLOCK_BASE l + Z.of_nat (S k) * blocksize_bytes l)
      | None => None
      end)).
  { intros k Hk Hkb. rewrite (proj2 (next_free_Some l ws n k)) by done. rewrite BITPTR_INDEX_BITPTR.
    rewrite BITPTR_INC_BITPTR. unfold blocks in Hkb. cbn zeta. rewrite (proj2 (Z.ltb_lt _ _)) by lia. simpl.
    pose proof (lo_blocksize _ Hl) as [Hb ?]. rewrite Z.shiftl_mul_pow2, <- Hb by lia.
    do 3 f_equal. lia. }
  rewrite NEXT0_word by apply seg_u32. destruct (first_zero _ _) as [j|] eqn:Hz.
  - unfold BITPTR_NEXT_FAILED. cbn [mask]. rewrite pow2_not_failed. cbn [mbind res_bind].
    pose proof (proj1 (first_zero_Some _ _ _) Hz) as (Hj & _).
    rewrite BITPTR_word by lia. assert (Hle := first_zero_least ws 8 n j Hz).
    apply Hfin; [done|]. apply free_below; [apply Hle|lia].
  - unfold BITPTR_NEXT_FAILED at 1. cbn [mask]. cbn [Z.eqb].
    assert (Hones := first_zero_none_bits ws 8 n Hz). assert (Hc := climb_ok n Hw Hones).
    destruct (climb _ _ _ _ _ _) as [[[[b base] i]|]| | |] eqn:Hcl; [| |done..].
    + destruct Hc as (k & -> & -> & -> & Hk & Hkb). cbn [mbind res_bind].
      destruct (descend_ok (S (n / 32)) k Hk Hkb) as (m & Hd & Hm & Hmb). rewrite Hd. cbn [mbind res_bind].
      apply Hfin; [|done]. apply (least_skip _ _ (32 * S (n / 32))); [|intros i Hi; apply Hones; lia|done].
      pose proof (Nat.div_mod_eq n 32). pose proof (Nat.mod_upper_bound n 32). lia.
    + cbn. by rewrite Hc.
Qed.
End FindBitmap.

(** ** Memory operations *)
Lemma lookup_total_app_l (l1 l2 : list Z) i : (i < length l1)%nat -> (l1 ++ l2) !!! i = l1 !!! i.
Proof. intros H. rewrite !list_lookup_total_alt. by rewrite lookup_app_l. Qed.
Lemma lookup_total_app_r (l1 l2 : list Z) i : (length l1 <= i)%nat -> (l1 ++ l2) !!! i = l2 !!! (i - length l1)%nat.
Proof. intros H. rewrite !list_lookup_total_alt. by rewrite lookup_app_r. Qed.
Lemma lookup_total_take (l : list Z) n i : (i < n)%nat -> take n l !!! i = l !!! i.
Proof. intros H. rewrite !list_lookup_total_alt. by rewrite lookup_take_lt. Qed.
Lemma lookup_total_drop (l : list Z) n i : drop n l !!! i = l !!! (n + i)%nat.
Proof. rewrite !list_lookup_total_alt. by rewrite lookup_drop. Qed.

Lemma splice_lookup (ws mid : list Z) dst i :
  (dst + length mid <= length ws)%nat ->
  (take dst ws ++ mid ++ drop (dst + length mid) ws) !!! i =
  if decide (dst <= i < dst + length mid)%nat then mid !!! (i - dst)%nat else ws !!! i.
Proof.
  intros Hlen. destruct (Nat.lt_ge_cases i dst).
  - rewrite decide_False, lookup_total_app_l, lookup_total_take by (rewrite ?length_take; lia). done.
  - rewrite lookup_total_app_r by (rewrite length_take; lia). rewrite length_take.
    replace (dst `min` length ws)%nat with dst by lia. case_decide.
    + rewrite lookup_total_app_l by lia. done.
    + rewrite lookup_total_app_r by lia. rewrite lookup_total_drop. f_equal. lia.
Qed.

Lemma splice_length (ws mid : list Z) dst :
  (dst + length mid <= length ws)%nat ->
  length (take dst ws ++ mid ++ drop (dst + length mid) ws) = length ws.
Proof. intros H. rewrite !length_app, length_take, length_drop. lia. Qed.

Lemma splice_u32 (ws mid : list Z) dst n :
  Forall is_u32 ws -> Forall is_u32 mid -> Forall is_u32 (take dst ws ++ mid ++ drop n ws).
Proof. intros H1 H2. repeat apply Forall_app_2; [by apply Forall_take|done|by apply Forall_drop]. Qed.

Lemma mem_copy_ok dst src n ws : words_ok ws -> (dst + n <= segment_words)%nat -> (src + n <= segment_words)%nat ->
  words_ok (mem_copy dst src n ws) /\
  forall i, mem_copy dst src n ws !!! i =
    if decide (dst <= i < dst + n)%nat then ws !!! (src + (i - dst))%nat else ws !!! i.
Proof.
  intros [Hlen Hu] H1 H2. unfold mem_copy. assert (Hm : length (take n (drop src ws)) = n)
    by (rewrite length_take, length_drop; lia).
  assert (drop (dst + n) ws = drop (dst + length (take n (drop src ws))) ws) as -> by (by rewrite Hm).
  split; [split|].
  - rewrite splice_length; lia.
  - apply splice_u32; [done|]. by apply Forall_take, Forall_drop.
  - intros i. rewrite splice_lookup by lia. rewrite Hm. case_decide; [|done].
    rewrite lookup_total_take by lia. apply lookup_total_drop.
Qed.

Lemma mem_set_ok dst n v ws : words_ok ws -> is_u32 v -> (dst + n <= segment_words)%nat ->
  words_ok (mem_set dst n v ws) /\
  forall i, mem_set dst n v ws !!! i = if decide (dst <= i < dst + n)%nat then v else ws !!! i.
Proof.
  intros [Hlen Hu] Hv H1. unfold mem_set. assert (Hm : length (replicate n v) = n) by apply length_replicate.
  assert (drop (dst + n) ws = drop (dst + length (replicate n v)) ws) as -> by (by rewrite Hm).
  split; [split|].
  - rewrite splice_length; lia.
  - apply splice_u32; [done|]. by apply Forall_replicate.
  - intros i. rewrite splice_lookup by lia. rewrite Hm. case_decide; [|done].
    by rewrite list_lookup_total_alt, lookup_replicate_2 by lia.
Qed.

Lemma insert_ok i w ws : words_ok ws -> is_u32 w -> (i < segment_words)%nat ->
  words_ok (<[i := w]> ws) /\
  forall j, <[i := w]> ws !!! j = if decide (i = j) then w else ws !!! j.
Proof.
  intros [Hlen Hu] Hw Hi. split; [split|].
  - by rewrite length_insert.
  - apply Forall_insert; done.
  - intros j. case_decide as Hij; subst.
    + apply list_lookup_total_insert_eq. lia.
    + by apply list_lookup_total_insert_ne.
Qed.


Lemma high_bits_testbit k j : (j < 32)%nat ->
  Z.testbit (high_bits k) (Z.of_nat j) = (k <=? j)%nat.
Proof.
  intros Hj. unfold high_bits. rewrite u32_testbit, Z.shiftl_spec by lia.
  rewrite (proj2 (Z.ltb_lt (Z.of_nat j) 32)) by lia. rewrite andb_true_r.
  destruct (Nat.leb_spec k j); [apply Z.bits_m1; lia|apply Z.testbit_neg_r; lia].
Qed.

(** ** The summary bitmap *)

(** After [c] words of the lower bitmap, which starts at [lo]; the upper one
    starts at [up]. *)
Record filling (ws0 : list Z) (lo up c : nat) (ws : list Z) (word : Z) : Prop := {
  fil_ok : words_ok ws;
  fil_same i : (i < up \/ up + c / 32 <= i)%nat -> ws !!! i = ws0 !!! i;
  fil_bits k : (k < 32 * (c / 32))%nat -> bits ws up k = full (ws0 !!! (lo + k)%nat);
  fil_word : is_u32 word;
  fil_word_bits j : (j < 32)%nat ->
    Z.testbit word (Z.of_nat j) = (j <? c mod 32)%nat && full (ws0 !!! (lo + (32 * (c / 32) + j))%nat)
}.

Lemma divmod_S c : (S c / 32 = if decide (c mod 32 = 31) then S (c / 32) else c / 32)%nat /\
  (S c mod 32 = if decide (c mod 32 = 31) then 0 else S (c mod 32))%nat.
Proof.
  pose proof (Nat.div_mod_eq c 32). pose proof (Nat.mod_upper_bound c 32 ltac:(lia)).
  case_decide; split; symmetry.
  - apply (Nat.div_unique _ _ _ 0); lia.
  - apply (Nat.mod_unique _ _ (S (c / 32))); lia.
  - apply (Nat.div_unique _ _ _ (S (c mod 32))); lia.
  - apply (Nat.mod_unique _ _ (c / 32)); lia.
Qed.

Lemma fill_step ws0 lo up c ws word :
  filling ws0 lo up c ws word -> (lo + c < up)%nat -> (up + c / 32 < segment_words)%nat ->
  let word' := if full (ws !!! (lo + c)%nat) then Z.lor word (2 ^ Z.of_nat (c mod 32)) else word in
  if decide (c mod 32 = 31)%nat
  then filling ws0 lo up (S c) (<[up + c / 32 := word']>%nat ws) 0
  else filling ws0 lo up (S c) ws word'.
Proof.
  intros [Hok Hsame Hbits Hw Hwb] Hlo Hup word'.
  pose proof (Nat.div_mod_eq c 32) as Hdm. assert (Hr := Nat.mod_upper_bound c 32 ltac:(lia)).
  assert (Hw' : is_u32 word').
  { unfold word'. destruct (full _); [apply lor_u32; [done|by apply pow2_u32]|done]. }
  assert (Hwb' : forall j, (j < 32)%nat -> Z.testbit word' (Z.of_nat j) =
            (j <? S (c mod 32))%nat && full (ws0 !!! (lo + (32 * (c / 32) + j))%nat)).
  { intros j Hj. unfold word'. rewrite (Hsame (lo + c)%nat) by lia.
    destruct (decide (j = c mod 32)%nat) as [->|Hne].
    - rewrite (proj2 (Nat.ltb_lt (c mod 32) (S (c mod 32)))) by lia. cbn [andb]. rewrite <- Hdm.
      destruct (full (ws0 !!! (lo + c)%nat)).
      + by rewrite Z.lor_spec, Z.pow2_bits_true, orb_true_r by lia.
      + rewrite Hwb by done. rewrite (proj2 (Nat.ltb_ge _ _)); [done|lia].
    - assert (Z.testbit (if full (ws0 !!! (lo + c)%nat) then Z.lor word (2 ^ Z.of_nat (c mod 32)) else word)
                (Z.of_nat j) = Z.testbit word (Z.of_nat j)) as ->.
      { destruct (full (ws0 !!! (lo + c)%nat)); [|reflexivity]. rewrite Z.lor_spec, Z.pow2_bits_false, orb_false_r by lia. done. }
      rewrite Hwb by done. f_equal. apply Bool.eq_true_iff_eq. rewrite !Nat.ltb_lt. lia. }
  destruct (divmod_S c) as [Hd Hm]. case_decide as H31.
  - destruct (insert_ok (up + c / 32) word' ws Hok Hw') as [Hok' Hl]; [done|].
    split; [done| | |done|].
    + intros i Hi. rewrite Hl. rewrite Hd in Hi. rewrite decide_False by lia. apply Hsame. lia.
    + intros k Hk. rewrite Hd in Hk. rewrite bits_div, Hl.
      pose proof (Nat.div_mod_eq k 32). pose proof (Nat.mod_upper_bound k 32 ltac:(lia)).
      case_decide as Hki.
      * rewrite Hwb' by done. rewrite (proj2 (Nat.ltb_lt _ _)) by lia. cbn [andb]. do 2 f_equal. lia.
      * rewrite <- bits_div. apply Hbits. lia.
    + intros j Hj. rewrite Hm, Z.bits_0. done.
  - split; try done.
    + intros i Hi. apply Hsame. rewrite Hd in Hi. done.
    + intros k Hk. apply Hbits. by rewrite Hd in Hk.
    + intros j Hj. rewrite Hd, Hm. by apply Hwb'.
Qed.

Lemma fill_upper_ok ws0 lo up : forall n c ws word,
  filling ws0 lo up c ws word -> (lo + c + n <= up)%nat -> (up + (c + n) / 32 < segment_words)%nat ->
  exists ws' word',
    fill_upper n ws (lo + c) (up + c / 32) (2 ^ Z.of_nat (c mod 32)) word =
      (ws', (lo + (c + n))%nat, (up + (c + n) / 32)%nat, word') /\
    filling ws0 lo up (c + n) ws' word'.
Proof.
  induction n as [|n IH]; intros c ws word Hf Hlo Hup.
  { exists ws, word. rewrite Nat.add_0_r. done. }
  assert (Hlt : (up + c / 32 < segment_words)%nat)
    by (pose proof (Nat.Div0.div_le_mono c (c + S n) 32); lia).
  assert (Hst := fill_step _ _ _ _ _ _ Hf ltac:(lia) Hlt). cbn zeta in Hst.
  cbn [fill_upper]. change (ws !!! (lo + c)%nat =? u32 (-1)) with (full (ws !!! (lo + c)%nat)).
  set (word' := if full _ then _ else _) in *.
  assert (Hr := Nat.mod_upper_bound c 32 ltac:(lia)). destruct (divmod_S c) as [Hd Hm].
  replace (c + S n)%nat with (S c + n)%nat in * by lia.
  rewrite Z.shiftl_mul_pow2 by lia. case_decide as H31.
  - rewrite H31. change (u32 (2 ^ Z.of_nat 31 * 2 ^ 1)) with 0. cbn [Z.eqb].
    destruct (IH (S c) _ _ Hst) as (ws' & w' & Hrun & Hf'); [lia..|].
    exists ws', w'. split; [|done]. rewrite Hd, Hm in Hrun. rewrite <- Hrun.
    f_equal; lia.
  - assert (Hb : u32 (2 ^ Z.of_nat (c mod 32) * 2 ^ 1) = 2 ^ Z.of_nat (S (c mod 32))).
    { replace (2 ^ Z.of_nat (c mod 32) * 2 ^ 1) with (2 ^ Z.of_nat (S (c mod 32)))
        by (rewrite Nat2Z.inj_succ, Z.pow_succ_r by lia; lia).
      apply u32_small, pow2_u32. lia. }
    rewrite Hb, pow2_not_failed. destruct (IH (S c) _ _ Hst) as (ws' & w' & Hrun & Hf'); [lia..|].
    exists ws', w'. split; [|done]. rewrite Hd, Hm in Hrun. rewrite <- Hrun. f_equal; lia.
Qed.

(** ** [copy_collect_bitmap] *)
Lemma words0_pos l : (0 < words0 l)%nat.
Proof. unfold words0. lia. Qed.

Section CopyCollect.
Context (l : segment_layout) (Hl : layout_ok l) (Hsize : (8 + words0 l + words1 l + words0 l <= segment_words)%nat).

Lemma collect_base : COLLECT_BITMAP_BASE l = (8 + words0 l + words1 l)%nat.
Proof. apply (lo_collect _ Hl). Qed.

Lemma bitmap0_words : Z.to_nat (bitmap0_length l / 4) = words0 l.
Proof.
  destruct (lo_length _ Hl) as [-> _]. rewrite Z.mul_comm, Z.div_mul by lia. apply Nat2Z.id.
Qed.

(** The words of level 0 after the copy, with the sentinel bits in the last. *)
Lemma level0_bits ws ws' :
  (forall i, (8 <= i < 8 + words0 l)%nat -> ws' !!! i =
     if decide (8 + words0 l - 1 = i)%nat
     then Z.lor (ws !!! (8 + words0 l + words1 l + (i - 8))%nat) (high_bits (blocks l mod 32))
     else ws !!! (8 + words0 l + words1 l + (i - 8))%nat) ->
  forall k, (k < 32 * words0 l)%nat ->
    bits ws' 8 k = bits ws (8 + words0 l + words1 l) k || (blocks l <=? k)%nat.
Proof.
  intros Hws' k Hk. pose proof (Nat.div_mod_eq k 32) as Hkd. assert (Hkr := Nat.mod_upper_bound k 32 ltac:(lia)).
  rewrite !bits_div, Hws' by lia.
  pose proof (Nat.div_mod_eq (blocks l) 32). assert (Hbr := Nat.mod_upper_bound (blocks l) 32 ltac:(lia)).
  assert (Hw0 : words0 l = (blocks l / 32 + 1)%nat) by done.
  assert (Hsrc : (8 + words0 l + words1 l + (8 + k / 32 - 8) = 8 + words0 l + words1 l + k / 32)%nat) by lia.
  rewrite Hsrc. case_decide as Hlast.
  - rewrite Z.lor_spec, high_bits_testbit by lia. f_equal. apply Bool.eq_true_iff_eq. rewrite !Nat.leb_le. lia.
  - rewrite (proj2 (Nat.leb_gt _ _)) by lia. by rewrite orb_false_r.
Qed.

(** Level 1 after [fill_upper], when its last word has been stored. *)
Lemma level1_bits ws ws1 w ws' :
  filling ws 8 (8 + words0 l) (words0 l) ws1 w ->
  (forall j, ws' !!! j = if decide ((8 + words0 l + words0 l / 32)%nat = j)
                         then Z.lor w (high_bits (words0 l mod 32)) else ws1 !!! j) ->
  (forall i, (i < 8 + words0 l)%nat -> ws' !!! i = ws !!! i) /\
  (forall q, (q < words0 l)%nat -> bits ws' (8 + words0 l) q = full (ws' !!! (8 + q)%nat)) /\
  (forall q, (words0 l <= q < 32 * words1 l)%nat -> bits ws' (8 + words0 l) q = true).
Proof.
  intros [_ Hsame Hbits _ Hwb] Hws'. assert (Hw1 : words1 l = (words0 l / 32 + 1)%nat) by done.
  pose proof (Nat.div_mod_eq (words0 l) 32). pose proof (Nat.mod_upper_bound (words0 l) 32 ltac:(lia)).
  assert (Hlow : forall i, (i < 8 + words0 l)%nat -> ws' !!! i = ws !!! i).
  { intros i Hi. rewrite Hws', decide_False by lia. apply Hsame. lia. }
  split; [done|]. split; intros q Hq; pose proof (Nat.div_mod_eq q 32); assert (Hqr := Nat.mod_upper_bound q 32 ltac:(lia)).
  - rewrite Hlow, bits_div, Hws' by lia. case_decide as Hqi.
    + rewrite Z.lor_spec, Hwb, high_bits_testbit by done.
      rewrite (proj2 (Nat.ltb_lt _ _)), (proj2 (Nat.leb_gt _ _)), orb_false_r by lia. cbn [andb].
      do 3 f_equal. lia.
    + rewrite <- bits_div. apply Hbits. lia.
  - rewrite bits_div, Hws', decide_True by lia. rewrite Z.lor_spec, high_bits_testbit by done.
    rewrite (proj2 (Nat.leb_le _ _)) by lia. apply orb_true_r.
Qed.

Lemma copy_collect_bitmap_spec ws : words_ok ws ->
  exists ws', copy_collect_bitmap l ws = Ok ws' /\ seg_ok l ws' /\
    (forall k, (k < blocks l)%nat -> bits ws' 8 k = bits ws (8 + words0 l + words1 l) k) /\
    (forall i, (i < 8 \/ 8 + words0 l + words1 l <= i)%nat -> ws' !!! i = ws !!! i).
Proof.
  intros Hws. unfold copy_collect_bitmap. rewrite collect_base, bitmap0_words, BASE0.
  assert (BITMAP_LIMIT l 0 = (8 + words0 l)%nat) as -> by apply (lo_bitmap1 _ Hl).
  assert (Hp := words0_pos l).
  destruct (mem_copy_ok 8 (8 + words0 l + words1 l) (words0 l) ws Hws) as [Hok1 Hl1]; [lia..|].
  set (ws1 := mem_copy _ _ _ _) in *. set (last := (8 + words0 l - 1)%nat).
  rewrite (lo_sentinel _ Hl). change ([high_bits (blocks l mod 32); high_bits (words0 l mod 32)] !!! 0%nat)
    with (high_bits (blocks l mod 32)).
  destruct (insert_ok last (Z.lor (ws1 !!! last) (high_bits (blocks l mod 32))) ws1 Hok1) as [Hok2 Hl2];
    [apply lor_u32; [apply word_u32, Hok1|apply u32_range]|lia|].
  set (ws2 := <[last := _]> ws1) in *.
  change (seq 1 (SEG_RANK - 1)) with [1%nat]. cbn [foldl]. cbn [mbind res_bind]. unfold copy_level.
  assert (BITMAP_BASE l 1 = (8 + words0 l)%nat) as -> by apply (lo_bitmap1 _ Hl).
  assert (BITMAP_LIMIT l (1 - 1) = (8 + words0 l)%nat) as -> by apply (lo_bitmap1 _ Hl).
  rewrite Nat.eqb_refl. cbn [assert_that mbind res_bind].
  assert (Hf0 : filling ws2 8 (8 + words0 l) 0 ws2 0).
  { split; [done|done| |done|]; [intros k Hk; cbn in Hk; lia|intros j Hj; by rewrite Z.bits_0]. }
  replace (8 + words0 l - 8)%nat with (words0 l) by lia.
  assert (Hw1 : words1 l = (words0 l / 32 + 1)%nat) by done.
  destruct (fill_upper_ok ws2 8 (8 + words0 l) (words0 l) 0 ws2 0 Hf0) as (ws3 & w3 & Hrun & Hf3);
    [lia|rewrite Nat.add_0_l; lia|].
  change (2 ^ Z.of_nat (0 mod 32)) with 1 in Hrun. change (0 / 32)%nat with 0%nat in Hrun.
  rewrite !Nat.add_0_r, Nat.add_0_l in Hrun. rewrite Nat.add_0_l in Hf3.
  rewrite Hrun. cbn [mbind res_bind]. clear Hrun.
  rewrite (lo_sentinel _ Hl). change ([high_bits (blocks l mod 32); high_bits (words0 l mod 32)] !!! 1%nat)
    with (high_bits (words0 l mod 32)).
  destruct (insert_ok (8 + words0 l + words0 l / 32) (Z.lor w3 (high_bits (words0 l mod 32))) ws3 (fil_ok _ _ _ _ _ _ Hf3))
    as [Hok4 Hl4]; [apply lor_u32; [apply Hf3|apply u32_range]|lia|].
  eexists. split; [reflexivity|]. set (ws4 := <[_ := _]> ws3) in *.
  destruct (level1_bits ws2 ws3 w3 ws4 Hf3 Hl4) as (H0 & Hbits1 & Hsent1).
  assert (Hcopy : forall k, (k < 32 * words0 l)%nat -> bits ws4 8 k =
            bits ws (8 + words0 l + words1 l) k || (blocks l <=? k)%nat).
  { apply level0_bits. intros i Hi. rewrite H0, Hl2 by lia. fold last.
    case_decide as Hlast; [subst i|]; rewrite Hl1, decide_True by lia; done. }
  split; [split; [done| |done|done]|split].
  - intros k Hk. rewrite Hcopy by lia. rewrite (proj2 (Nat.leb_le _ _)) by lia. apply orb_true_r.
  - intros k Hk. rewrite Hcopy by (pose proof (blocks_words0 l); lia).
    rewrite (proj2 (Nat.leb_gt _ _)) by lia. apply orb_false_r.
  - intros i Hi. rewrite Hl4, decide_False by lia. rewrite (fil_same _ _ _ _ _ _ Hf3) by lia.
    rewrite Hl2, decide_False by lia. rewrite Hl1, decide_False by lia. done.
Qed.
(** The bits of the collect bitmap. *)
Definition cbits (ws : list Z) (k : nat) : bool := bits ws (8 + words0 l + words1 l) k.

Lemma bits_ext ws ws' base k :
  ws' !!! (base + k / 32)%nat = ws !!! (base + k / 32)%nat -> bits ws' base k = bits ws base k.
Proof. intros H. by rewrite !bits_div, H. Qed.

(** Nothing but the bitmaps below the collect bitmap matters. *)
Lemma seg_ok_ext ws ws' : seg_ok l ws -> words_ok ws' ->
  (forall i, (8 <= i < 8 + words0 l + words1 l)%nat -> ws' !!! i = ws !!! i) -> seg_ok l ws'.
Proof.
  intros [Hok Hs0 Hl1 Hs1] Hok' H.
  assert (H0 : forall k, (k < 32 * words0 l)%nat -> bits ws' 8 k = bits ws 8 k).
  { intros k Hk. apply bits_ext, H. pose proof (Nat.Div0.div_lt_upper_bound k 32 (words0 l)). lia. }
  assert (H1 : forall q, (q < 32 * words1 l)%nat -> bits ws' (8 + words0 l) q = bits ws (8 + words0 l) q).
  { intros k Hk. apply bits_ext, H. pose proof (Nat.Div0.div_lt_upper_bound k 32 (words1 l)). lia. }
  assert (words0 l < 32 * words1 l)%nat by apply words0_words1.
  split; [done|..].
  - intros k Hk. rewrite H0 by lia. by apply Hs0.
  - intros q Hq. rewrite H1, H by lia. by apply Hl1.
  - intros q Hq. rewrite H1 by lia. by apply Hs1.
Qed.

Lemma bits0_ext ws ws' k : (k < blocks l)%nat ->
  (forall i, (8 <= i < 8 + words0 l + words1 l)%nat -> ws' !!! i = ws !!! i) -> bits ws' 8 k = bits ws 8 k.
Proof.
  intros Hk H. apply bits_ext, H. pose proof (blocks_words0 l).
  pose proof (Nat.Div0.div_lt_upper_bound k 32 (words0 l)). lia.
Qed.

Lemma clear_collect_bitmap_spec ws : seg_ok l ws ->
  let ws' := clear_collect_bitmap l ws in
  seg_ok l ws' /\ (forall k, (k < blocks l)%nat -> bits ws' 8 k = bits ws 8 k) /\
  (forall k, (k < blocks l)%nat -> cbits ws' k = false).
Proof.
  intros Hs. cbn zeta. unfold clear_collect_bitmap. rewrite collect_base, bitmap0_words.
  destruct (mem_set_ok (8 + words0 l + words1 l) (words0 l) 0 ws) as [Hok Hl']; [apply Hs|done|lia|].
  assert (Hsame : forall i, (8 <= i < 8 + words0 l + words1 l)%nat ->
    mem_set (8 + words0 l + words1 l) (words0 l) 0 ws !!! i = ws !!! i).
  { intros i Hi. rewrite Hl', decide_False by lia. done. }
  split; [by apply (seg_ok_ext ws)|]. split; [intros k Hk; by apply bits0_ext|].
  intros k Hk. unfold cbits. rewrite bits_div, Hl', decide_True; [by rewrite Z.bits_0|].
  pose proof (blocks_words0 l). pose proof (Nat.Div0.div_lt_upper_bound k 32 (words0 l)). lia.
Qed.
End CopyCollect.

(** ** Counting *)
Fixpoint count_false (f : nat -> bool) (a n : nat) : nat :=
  match n with
  | O => 0
  | S n => (if f a then 0 else 1) + count_false f (S a) n
  end.

Lemma count_false_app f a n m : count_false f a (n + m) = (count_false f a n + count_false f (a + n) m)%nat.
Proof.
  revert a. induction n as [|n IH]; intros a; simpl; [by rewrite Nat.add_0_r|].
  rewrite IH, Nat.add_succ_r. simpl. lia.
Qed.
Lemma count_false_S f a n :
  count_false f a (S n) = (count_false f a n + if f (a + n)%nat then 0 else 1)%nat.
Proof. rewrite <- Nat.add_1_r, count_false_app. simpl. lia. Qed.
Lemma count_false_ext f g a b n :
  (forall i, (i < n)%nat -> f (a + i)%nat = g (b + i)%nat) -> count_false f a n = count_false g b n.
Proof.
  revert a b. induction n as [|n IH]; intros a b H; simpl; [done|].
  assert (H0 := H 0%nat ltac:(lia)). rewrite !Nat.add_0_r in H0. rewrite H0. f_equal.
  apply IH. intros i Hi. specialize (H (S i)). rewrite <- !plus_n_Sm in H. apply H. lia.
Qed.
Lemma count_false_le f a n : (count_false f a n <= n)%nat.
Proof. revert a. induction n as [|n IH]; intros a; simpl; [lia|]. specialize (IH (S a)). destruct (f a); lia. Qed.
Lemma count_false_0 f a n : (forall i, (a <= i < a + n)%nat -> f i = true) -> count_false f a n = 0%nat.
Proof.
  revert a. induction n as [|n IH]; intros a H; simpl; [done|].
  rewrite (H a) by lia. apply IH. intros i Hi. apply H. lia.
Qed.
Lemma count_false_all f a n : count_false f a n = n <-> forall i, (a <= i < a + n)%nat -> f i = false.
Proof.
  revert a. induction n as [|n IH]; intros a; simpl; [split; [lia|done]|].
  pose proof (count_false_le f (S a) n). split.
  - intros Hc i Hi. destruct (f a) eqn:Ha; [lia|]. assert (count_false f (S a) n = n) as Hc' by lia.
    rewrite IH in Hc'. destruct (decide (i = a)) as [->|]; [done|]. apply Hc'. lia.
  - intros Hall. rewrite (Hall a) by lia. f_equal. apply IH. intros i Hi. apply Hall. lia.
Qed.

Lemma popcount_not w :
  popcount32 (u32 (Z.lnot w)) = Z.of_nat (count_false (fun j => Z.testbit w (Z.of_nat j)) 0 32).
Proof.
  unfold popcount32.
  assert (Hgen : forall n acc a, (a + n <= 32)%nat ->
    foldl (fun s i => s + Z.b2z (Z.testbit (u32 (Z.lnot w)) (Z.of_nat i))) acc (seq a n) =
    acc + Z.of_nat (count_false (fun j => Z.testbit w (Z.of_nat j)) a n)).
  { induction n as [|n IH]; intros acc a Ha; cbn [seq foldl count_false]; [lia|].
    rewrite IH by lia. rewrite u32_testbit, Z.lnot_spec by lia.
    rewrite (proj2 (Z.ltb_lt (Z.of_nat a) 32)) by lia.
    destruct (Z.testbit w (Z.of_nat a)); simpl; lia. }
  apply (Hgen 32%nat 0 0%nat). lia.
Qed.

Lemma sum_words ws base : forall n p acc,
  0 <= acc -> acc + 32 * Z.of_nat n < 2 ^ 32 ->
  foldl (fun sum p => u32 (sum + popcount32 (u32 (Z.lnot (ws !!! p))))) acc (seq (base + p) n) =
  acc + Z.of_nat (count_false (bits ws base) (32 * p) (32 * n)).
Proof.
  induction n as [|n IH]; intros p acc Ha Hb; cbn [seq foldl]; [rewrite Nat.mul_0_r; simpl; lia|].
  rewrite popcount_not. set (c := count_false (fun j => Z.testbit _ _) 0 32).
  assert (Hc : (c <= 32)%nat) by apply count_false_le.
  assert (Hcb : c = count_false (bits ws base) (32 * p) 32).
  { apply count_false_ext. intros i Hi. by rewrite bits_word. }
  rewrite u32_small by (unfold is_u32; lia). rewrite <- Nat.add_succ_r, IH by lia.
  replace (32 * S n)%nat with (32 + 32 * n)%nat by lia. rewrite count_false_app, <- Hcb.
  replace (32 * p + 32)%nat with (32 * S p)%nat by lia. lia.
Qed.

Section Counts.
Context (l : segment_layout) (ws : list Z) (Hl : layout_ok l) (Hs : seg_ok l ws).
Context (Hsize : (8 + words0 l + words1 l + words0 l <= segment_words)%nat).

(** The free blocks at or after block [n]. *)
Definition num_free (n : nat) : nat := count_false (bits ws 8) n (blocks l - n).

Lemma num_free_words q : (q <= words0 l)%nat ->
  count_false (bits ws 8) (32 * q) (32 * (words0 l - q)) = num_free (32 * q).
Proof.
  intros Hq. unfold num_free. pose proof (blocks_words0 l).
  destruct (Nat.le_gt_cases (32 * q) (blocks l)) as [Hle|Hgt].
  - replace (32 * (words0 l - q))%nat with ((blocks l - 32 * q) + (32 * words0 l - blocks l))%nat by lia.
    rewrite count_false_app. rewrite (count_false_0 _ (32 * q + (blocks l - 32 * q))); [lia|].
    intros i Hi. apply (sok_sentinel0 _ _ Hs). lia.
  - replace (blocks l - 32 * q)%nat with 0%nat by lia. simpl. apply count_false_0.
    intros i Hi. apply (sok_sentinel0 _ _ Hs). lia.
Qed.

Lemma segment_words_small : 32 * Z.of_nat segment_words < 2 ^ 32.
Proof. vm_compute. reflexivity. Qed.

Lemma free_count_spec : free_count l ws None = Ok (Z.of_nat (num_free 0)).
Proof.
  unfold free_count. cbn [mbind res_bind].
  assert (BITMAP_LIMIT l 0 = (8 + words0 l)%nat) as -> by apply (lo_bitmap1 _ Hl).
  rewrite BASE0. f_equal. pose proof segment_words_small.
  replace (8 + words0 l - 8)%nat with (words0 l) by lia.
  pose proof (sum_words ws 8 (words0 l) 0 0 ltac:(lia) ltac:(lia)) as Hsum.
  change (8 + 0)%nat with 8%nat in Hsum. rewrite Hsum, Z.add_0_l. f_equal.
  pose proof (num_free_words 0 ltac:(lia)) as Hn. rewrite Nat.mul_0_r, Nat.sub_0_r in Hn.
  rewrite Nat.mul_0_r. by rewrite Hn.
Qed.

(** With an allocation pointer the blocks of its word are not counted. *)
Lemma free_count_at_spec n : (n <= blocks l)%nat ->
  free_count l ws (Some (BLOCK_BASE l + Z.of_nat n * blocksize_bytes l)) =
  Ok (Z.of_nat (num_free (32 * (n / 32 + 1)))).
Proof.
  intros Hn. unfold free_count, object_index. pose proof (lo_blocksize _ Hl) as [Hb Hlog].
  assert (0 < blocksize_bytes l) by (rewrite Hb; apply Z.pow_pos_nonneg; lia).
  pose proof (lo_limit _ Hl) as [Hlim Hle]. pose proof (lo_pos _ Hl).
  assert (Hnz : Z.of_nat n <= num_blocks l) by (unfold blocks in Hn; lia).
  assert (0 <= Z.of_nat n * blocksize_bytes l <= num_blocks l * blocksize_bytes l) by nia.
  rewrite (proj2 (Z.leb_le (BLOCK_BASE l) _)) by lia. cbn [assert_that mbind res_bind].
  rewrite (proj2 (Z.leb_le _ SEGMENT_SIZE)) by (unfold BLOCK_BASE; lia). cbn [assert_that mbind res_bind].
  replace (BLOCK_BASE l + Z.of_nat n * blocksize_bytes l - BLOCK_BASE l)
    with (Z.of_nat n * blocksize_bytes l) by lia.
  rewrite Z.shiftr_div_pow2, <- Hb, Z.div_mul, Nat2Z.id by lia.
  rewrite BITPTR_eq, BASE0. cbn [ptr]. f_equal.
  assert (BITMAP_LIMIT l 0 = (8 + words0 l)%nat) as -> by apply (lo_bitmap1 _ Hl).
  assert (Hq : (n / 32 + 1 <= words0 l)%nat)
    by (unfold words0; pose proof (Nat.Div0.div_le_mono n (blocks l) 32); lia).
  pose proof segment_words_small. rewrite <- Nat.add_assoc.
  rewrite sum_words by lia. rewrite <- num_free_words by done. rewrite Z.add_0_l. done.
Qed.

Lemma num_free_full : num_free 0 = blocks l <-> forall k, (k < blocks l)%nat -> bits ws 8 k = false.
Proof.
  unfold num_free. rewrite Nat.sub_0_r, count_false_all. split; intros H k Hk; apply H; lia.
Qed.
Lemma num_free_none : num_free 0 = 0%nat <-> next_free l ws 0 = None.
Proof.
  rewrite next_free_None. unfold num_free. rewrite Nat.sub_0_r. split.
  - intros H k Hk. destruct (bits ws 8 k) eqn:Hb; [done|]. exfalso.
    replace (blocks l) with (k + (1 + (blocks l - k - 1)))%nat in H by lia.
    rewrite !count_false_app in H. simpl in H. rewrite Hb in H. lia.
  - intros H. apply count_false_0. intros i Hi. apply H. lia.
Qed.

Lemma stat_segment_spec m : (m <= blocks l)%nat ->
  stat_segment l ws (BLOCK_BASE l + Z.of_nat m * blocksize_bytes l) =
  Stat (Z.of_nat (blocks l - num_free 0)) (Z.of_nat (num_free 0))
       (Z.of_nat (m - count_false (bits ws 8) 0 m)) (Z.of_nat (count_false (bits ws 8) 0 m)).
Proof.
  intros Hm. unfold stat_segment, num_free. rewrite Nat.sub_0_r. set (ap := BLOCK_BASE l + _).
  pose proof (lo_blocksize _ Hl) as [Hb Hlog].
  assert (Hbs : 0 < blocksize_bytes l) by (rewrite Hb; apply Z.pow_pos_nonneg; lia).
  assert (Hi : forall i, (i <= blocks l)%nat ->
    Nat.iter i (stat_step ws ap (blocksize_bytes l)) (BITPTR BITMAP0_BASE 0, BLOCK_BASE l, Stat 0 0 0 0) =
    (BITPTR 8 i, BLOCK_BASE l + Z.of_nat i * blocksize_bytes l,
     let c := count_false (bits ws 8) 0 i in let cm := count_false (bits ws 8) 0 (i `min` m) in
     Stat (Z.of_nat (i - c)) (Z.of_nat c) (Z.of_nat ((i `min` m) - cm)) (Z.of_nat cm))).
  { induction i as [|i IH]; intros Hi; [cbn; by rewrite Z.add_0_r|].
    rewrite Nat.iter_succ, IH by lia. cbn zeta. unfold stat_step.
    rewrite BITPTR_TEST_bit, BITPTR_INC_BITPTR. fold (bits ws 8 i).
    assert (Hlt : BLOCK_BASE l + Z.of_nat i * blocksize_bytes l <? ap = (i <? m)%nat).
    { unfold ap. apply Bool.eq_true_iff_eq. rewrite Z.ltb_lt, Nat.ltb_lt. nia. }
    rewrite Hlt. pose proof (count_false_le (bits ws 8) 0 i). pose proof (count_false_le (bits ws 8) 0 (i `min` m)).
    f_equal; [f_equal; lia|]. rewrite !count_false_S, Nat.add_0_l.
    destruct (Nat.ltb_spec i m).
    - replace (S i `min` m)%nat with (S i) by lia. replace (i `min` m)%nat with i in * by lia.
      rewrite count_false_S, Nat.add_0_l. destruct (bits ws 8 i); cbn [num_marked num_unmarked num_marked_before_allocptr
        num_unmarked_before_allocptr Z.b2z]; f_equal; lia.
    - replace (S i `min` m)%nat with m by lia. replace (i `min` m)%nat with m in * by lia.
      destruct (bits ws 8 i); cbn [num_marked num_unmarked num_marked_before_allocptr
        num_unmarked_before_allocptr Z.b2z]; f_equal; lia. }
  rewrite Hi by lia. cbn zeta. by rewrite Nat.min_r by lia.
Qed.
End Counts.

(** ** [init_segment] *)
Definition meta_end (l : segment_layout) : nat := (8 + words0 l + words1 l + words0 l)%nat.
Definition last0 (l : segment_layout) : nat := (8 + words0 l - 1)%nat.
Definition last1 (l : segment_layout) : nat := (8 + words0 l + words1 l - 1)%nat.

(** All bitmaps are empty but for the sentinels. *)
Definition blank (l : segment_layout) (ws : list Z) : Prop :=
  words_ok ws /\
  forall i, (8 <= i < meta_end l)%nat ->
    ws !!! i = (if decide (i = last0 l) then high_bits (blocks l mod 32)
                else if decide (i = last1 l) then high_bits (words0 l mod 32) else 0).

(** A segment that holds no objects: fresh memory, or from a free list. *)
Definition idle (seg : segment) : Prop :=
  match layout seg with
  | None => words_ok (words seg) /\ forall i, (8 <= i < segment_words)%nat -> words seg !!! i = 0
  | Some i => exists l, the_layouts !! i = Some l /\ blank l (words seg) /\
                allocptr_snapshot seg = BLOCK_BASE l /\ seg_free_count seg = num_blocks l
  end.

Lemma high_bits_u32 k : is_u32 (high_bits k).
Proof. apply u32_range. Qed.

Section Init.
Context (l : segment_layout) (Hl : layout_ok l) (Hsize : (meta_end l <= segment_words)%nat).

Lemma write_sentinels_ok value ws : words_ok ws -> (forall i, is_u32 (value i)) ->
  words_ok (write_sentinels l value ws) /\
  forall i, write_sentinels l value ws !!! i =
    if decide (last1 l = i) then value 1%nat else if decide (last0 l = i) then value 0%nat else ws !!! i.
Proof.
  intros Hok Hv. unfold write_sentinels. change (seq 0 SEG_RANK) with [0; 1]%nat. cbn [foldl].
  assert (BITMAP_LIMIT l 0 = (8 + words0 l)%nat) as -> by apply (lo_bitmap1 _ Hl).
  assert (BITMAP_LIMIT l 1 = (8 + words0 l + words1 l)%nat) as -> by apply (lo_collect _ Hl).
  unfold meta_end in Hsize. pose proof (words0_pos l).
  destruct (insert_ok (last0 l) (value 0%nat) ws Hok (Hv _)) as [Hok1 H1]; [unfold last0; lia|].
  destruct (insert_ok (last1 l) (value 1%nat) _ Hok1 (Hv _)) as [Hok2 H2]; [unfold last1; lia|].
  split; [exact Hok2|]. intros i. unfold last0, last1 in *. rewrite H2. case_decide; [done|]. by rewrite H1.
Qed.

Lemma zerofill_words : Z.to_nat (zerofill_limit l / 4) = meta_end l.
Proof. rewrite (lo_zerofill _ Hl), Z.mul_comm, Z.div_mul, Nat2Z.id by lia. done. Qed.

Lemma zerofill_span : Z.to_nat ((zerofill_limit l - BITMAP0_OFFSET) / 4) = (meta_end l - 8)%nat.
Proof.
  rewrite (lo_zerofill _ Hl). change BITMAP0_OFFSET with (8 * 4). unfold meta_end.
  set (n := (8 + words0 l + words1 l + words0 l)%nat).
  replace (4 * Z.of_nat n - 8 * 4) with ((Z.of_nat n - 8) * 4) by lia. rewrite Z.div_mul by lia. lia.
Qed.

Lemma check_filled_ok ws : words_ok ws ->
  (forall i, (8 <= i < meta_end l)%nat -> ws !!! i = 0) ->
  check_filled ws BITMAP0_BASE (meta_end l - 8) 0 = true.
Proof.
  intros [Hlen _] Hz. unfold check_filled. apply forallb_forall. intros x Hx.
  apply list_elem_of_In, list_elem_of_lookup in Hx as [i Hi].
  apply lookup_take_Some in Hi as [Hi Hlt]. rewrite lookup_drop in Hi. rewrite BASE0 in *.
  apply Z.eqb_eq. rewrite <- (Hz (8 + i)%nat) by lia. by apply list_lookup_total_correct.
Qed.

Lemma sentinels_blank ws : words_ok ws -> (forall i, (8 <= i < meta_end l)%nat -> ws !!! i = 0) ->
  blank l (write_sentinels l (fun i => bitmap_sentinel l !!! i) ws).
Proof.
  intros Hok Hz. rewrite (lo_sentinel _ Hl).
  destruct (write_sentinels_ok (fun i => [high_bits (blocks l mod 32); high_bits (words0 l mod 32)] !!! i) ws Hok)
    as [Hok' H'].
  { intros [|[|i]]; [apply high_bits_u32..|]. done. }
  split; [done|]. intros i Hi. rewrite H'. pose proof (words0_pos l).
  assert (1 <= words1 l)%nat by (unfold words1; lia). unfold last0, last1 in *.
  repeat case_decide; try lia; try done. by apply Hz.
Qed.

Lemma clear_sentinels ws : blank l ws ->
  words_ok (write_sentinels l (fun _ => 0) ws) /\
  forall i, (8 <= i < meta_end l)%nat -> write_sentinels l (fun _ => 0) ws !!! i = 0.
Proof.
  intros [Hok Hb]. destruct (write_sentinels_ok (fun _ => 0) ws Hok) as [Hok' H']; [done|].
  split; [done|]. intros i Hi. rewrite H'. repeat case_decide; try done.
  rewrite Hb by done. repeat case_decide; congruence.
Qed.

(** A blank segment is in order and all its blocks are free. *)
Lemma blank_seg_ok ws : blank l ws -> seg_ok l ws /\ forall k, (k < blocks l)%nat -> bits ws 8 k = false.
Proof.
  intros [Hok Hb]. pose proof (words0_pos l). pose proof (blocks_words0 l). pose proof (words0_words1 l).
  assert (Hw0 : words0 l = (blocks l / 32 + 1)%nat) by done.
  assert (Hw1 : words1 l = (words0 l / 32 + 1)%nat) by done. pose proof (lo_partial _ Hl).
  pose proof (Nat.div_mod_eq (blocks l) 32). assert (Hbr := Nat.mod_upper_bound (blocks l) 32 ltac:(lia)).
  pose proof (Nat.div_mod_eq (words0 l) 32). assert (Hwr := Nat.mod_upper_bound (words0 l) 32 ltac:(lia)).
  assert (Hb0 : forall k, (k < 32 * words0 l)%nat -> bits ws 8 k = (blocks l <=? k)%nat).
  { intros k Hk. pose proof (Nat.div_mod_eq k 32). assert (Hkr := Nat.mod_upper_bound k 32 ltac:(lia)).
    rewrite bits_div, Hb by (unfold meta_end; lia). unfold last0, last1. repeat case_decide; try lia.
    - rewrite high_bits_testbit by done. apply Bool.eq_true_iff_eq. rewrite !Nat.leb_le. lia.
    - rewrite Z.bits_0. symmetry. apply Nat.leb_gt. lia. }
  split.
  - split; [done| | |].
    + intros k Hk. rewrite Hb0 by lia. apply Nat.leb_le. lia.
    + intros q Hq. pose proof (Nat.div_mod_eq q 32). assert (Hqr := Nat.mod_upper_bound q 32 ltac:(lia)).
      assert (full (ws !!! (8 + q)%nat) = false) as ->.
      { apply not_true_iff_false. rewrite full_word by apply Hok. intros Hf.
        specialize (Hf (32 * q)%nat ltac:(lia)). rewrite Hb0 in Hf by lia. apply Nat.leb_le in Hf. lia. }
      rewrite bits_div, Hb by (unfold meta_end; lia). unfold last0, last1. repeat case_decide; try lia.
      * rewrite high_bits_testbit by done. apply Nat.leb_gt. lia.
      * apply Z.bits_0.
    + intros q Hq. pose proof (Nat.div_mod_eq q 32). assert (Hqr := Nat.mod_upper_bound q 32 ltac:(lia)).
      rewrite bits_div, Hb by (unfold meta_end; lia). unfold last0, last1. repeat case_decide; try lia.
      rewrite high_bits_testbit by done. apply Nat.leb_le. lia.
  - intros k Hk. rewrite Hb0 by lia. apply Nat.leb_gt. lia.
Qed.
End Init.

Lemma layout_meta i l : the_layouts !! i = Some l -> (meta_end l <= segment_words)%nat.
Proof.
  intros H. pose proof (layout_size i l H). unfold meta_end, segment_words. lia.
Qed.

Lemma init_segment_spec seg i l :
  the_layouts !! i = Some l -> idle seg ->
  exists seg', init_segment seg i = Ok seg' /\ idle seg' /\ layout seg' = Some i /\ blank l (words seg') /\
    allocptr_snapshot seg' = BLOCK_BASE l /\ seg_free_count seg' = num_blocks l.
Proof.
  intros Hi Hidle. assert (Hl := layouts_ok i l Hi). assert (Hsz := layout_meta i l Hi).
  assert (Hlt : (i < NUM_SUBHEAPS)%nat) by (apply lookup_lt_Some in Hi; exact Hi).
  unfold init_segment. rewrite (proj2 (Nat.ltb_lt _ _)) by done. cbn [assert_that mbind res_bind].
  assert (Hat : forall j lj, the_layouts !! j = Some lj -> segment_layout_at j = Ok lj)
    by (intros j lj Hj; unfold segment_layout_at; by rewrite Hj).
  rewrite (Hat i l Hi). cbn [mbind res_bind].
  assert (Hfinish : forall ws, words_ok ws -> (forall k, (8 <= k < meta_end l)%nat -> ws !!! k = 0) ->
    exists seg', (assert_that (check_filled ws BITMAP0_BASE
                   (Z.to_nat ((zerofill_limit l - BITMAP0_OFFSET) / 4)) 0);;
       Ok (Segment (Some i) (BLOCK_BASE l) (num_blocks l)
          (write_sentinels l (fun i => bitmap_sentinel l !!! i) ws))) = Ok seg' /\
    idle seg' /\ layout seg' = Some i /\ blank l (words seg') /\
    allocptr_snapshot seg' = BLOCK_BASE l /\ seg_free_count seg' = num_blocks l).
  { intros ws Hok Hz. rewrite (zerofill_span l Hl Hsz), (check_filled_ok l Hsz ws Hok Hz).
    cbn [assert_that mbind res_bind]. assert (Hb := sentinels_blank l Hl Hsz ws Hok Hz).
    eexists. split; [reflexivity|]. split; [by exists l|]. done.
  }
  unfold idle in Hidle. destruct (layout seg) as [j|] eqn:Hlay.
  - destruct Hidle as (lj & Hj & Hblank & Hsnap & Hfc). case_bool_decide as Heq.
    + injection Heq as ->. rewrite Hi in Hj. injection Hj as <-.
      rewrite Hsnap, Hfc, !Z.eqb_refl. cbn [assert_that mbind res_bind].
      exists seg. split; [done|]. split; [|done]. unfold idle. rewrite Hlay. by exists l.
    + rewrite (Hat j lj Hj). cbn [mbind res_bind].
      assert (Hlj := layouts_ok j lj Hj). assert (Hszj := layout_meta j lj Hj).
      destruct (clear_sentinels lj Hlj Hszj _ Hblank) as [Hokc Hzc].
      rewrite !zerofill_words by done. apply Hfinish.
      * case_match; [|done]. apply mem_set_ok; [done|done|lia].
      * intros k Hk. destruct (Nat.ltb_spec (meta_end lj) (meta_end l)); [|apply Hzc; lia].
        destruct (mem_set_ok (meta_end lj) (meta_end l - meta_end lj) 0 _ Hokc) as [_ Hms]; [done|lia|].
        rewrite Hms. case_decide; [done|]. apply Hzc. lia.
  - rewrite bool_decide_false by done. cbn [mbind res_bind]. apply Hfinish; [apply Hidle|].
    intros k Hk. apply Hidle. lia.
Qed.

(** ** Setting a bit *)
Lemma set_bits_words ws base n : words_ok ws -> (base + n / 32 < segment_words)%nat ->
  words_ok (set_bits ws (BITPTR base n)) /\
  forall i, set_bits ws (BITPTR base n) !!! i =
    if decide (base + n / 32 = i)%nat then Z.lor (ws !!! i) (2 ^ Z.of_nat (n mod 32)) else ws !!! i.
Proof.
  intros Hok Hlt. unfold set_bits. rewrite BITPTR_eq. cbn [ptr mask].
  destruct (insert_ok (base + n / 32) (Z.lor (ws !!! (base + n / 32)%nat) (2 ^ Z.of_nat (n mod 32))) ws Hok) as [Hok' Hl'].
  - apply lor_u32; [apply word_u32, Hok|]. apply pow2_u32, Nat.mod_upper_bound. lia.
  - done.
  - split; [done|]. intros i. rewrite Hl'. case_decide; [by subst|done].
Qed.

Lemma set_bits_bits ws base n k : words_ok ws -> (base + n / 32 < segment_words)%nat ->
  bits (set_bits ws (BITPTR base n)) base k = bits ws base k || (k =? n)%nat.
Proof.
  intros Hok Hlt. rewrite !bits_div. destruct (set_bits_words ws base n Hok Hlt) as [_ ->].
  pose proof (Nat.div_mod_eq k 32). pose proof (Nat.mod_upper_bound k 32 ltac:(lia)).
  pose proof (Nat.div_mod_eq n 32). pose proof (Nat.mod_upper_bound n 32 ltac:(lia)).
  case_decide.
  - rewrite Z.lor_spec, Z.pow2_bits_eqb by lia. f_equal. apply Bool.eq_true_iff_eq.
    rewrite Z.eqb_eq, Nat.eqb_eq. lia.
  - rewrite (proj2 (Nat.eqb_neq k n)), orb_false_r by lia. done.
Qed.
