(* ===== verification/SegList.v ===== *)
(** * Segment lists

    [struct segment_list] of src/src/runtime/heap_concurrent.c: a singly
    linked list through [next] with a pointer to the last [next] field.  The
    last [next] field itself is not set to null until LIST_FINISH. *)
From Stdlib Require Import ZArith Lia.
From stdpp Require Import base option list gmap.
From S2P Require Import Prelude.

Local Open Scope Z_scope.

(** The [next] fields of the segments, and a [struct segment **]. *)
Abbreviation nexts := (gmap Z (option Z)) (only parsing).
Inductive link_slot := HeadSlot | NextSlot (seg : Z).
#[export] Instance link_slot_eq_dec : EqDecision link_slot.
Proof. solve_decision. Defined.

Record segment_list := SegmentList { head : option Z; last : link_slot }.

Definition LIST_INIT : segment_list := SegmentList None HeadSlot.

(** [*(list)->last = v]. *)
Definition store_last (nx : nexts) (l : segment_list) (v : option Z) : nexts * segment_list :=
  match last l with
  | HeadSlot => (nx, SegmentList v (last l))
  | NextSlot a => (<[a := v]> nx, l)
  end.

Definition LIST_APPEND (nx : nexts) (l : segment_list) (item : Z) : nexts * segment_list :=
  let '(nx, l) := store_last nx l (Some item) in (nx, SegmentList (head l) (NextSlot item)).

Definition LIST_FINISH (nx : nexts) (l : segment_list) (item : option Z) : nexts * option Z :=
  let '(nx, l) := store_last nx l item in (nx, head l).

(** [while ( *last) last = &( *last)->next]. *)
Fixpoint walk_last (fuel : nat) (nx : nexts) (hd : option Z) (s : link_slot) : res link_slot :=
  match fuel with
  | O => NoFuel
  | S fuel =>
      v ← match s with HeadSlot => Ok hd | NextSlot a => deref (nx !! a) end;
      match v with
      | None => Ok s
      | Some a => walk_last fuel nx hd (NextSlot a)
      end
  end.
Definition LIST_INIT_WITH (nx : nexts) (items : option Z) : res segment_list :=
  s ← walk_last (S (S (size nx))) nx items HeadSlot; Ok (SegmentList items s).

Definition LIST_CONCAT (nx : nexts) (l1 l2 : segment_list) : nexts * segment_list :=
  match head l2 with
  | Some _ =>
      let '(nx, l1) := store_last nx l1 (head l2) in (nx, SegmentList (head l1) (last l2))
  | None => (nx, l1)
  end.

Definition segment_list_pop (nx : nexts) (l : segment_list) : res (option Z * segment_list) :=
  if bool_decide (last l = HeadSlot) then Ok (None, l)
  else
    seg ← deref (head l);
    if bool_decide (last l = NextSlot seg) then Ok (Some seg, LIST_INIT)
    else n ← deref (nx !! seg); Ok (Some seg, SegmentList n (last l)).

(** ** The lists they represent *)

(** From [p] the [next] fields lead through [xs] to [q]. *)
Fixpoint chain (nx : nexts) (p : option Z) (xs : list Z) (q : option Z) : Prop :=
  match xs with
  | [] => p = q
  | a :: xs => p = Some a /\ exists n, nx !! a = Some n /\ chain nx n xs q
  end.

(** A null-terminated list. *)
Definition linked nx (p : option Z) (xs : list Z) : Prop := chain nx p xs None.

(** A [struct segment_list]; the [next] field of its last segment can hold
    anything. *)
Definition listed nx (l : segment_list) (xs : list Z) : Prop :=
  match xs with
  | [] => last l = HeadSlot
  | _ => exists ys z, xs = ys ++ [z] /\ last l = NextSlot z /\ chain nx (head l) ys (Some z) /\ is_Some (nx !! z)
  end /\ NoDup xs.

Lemma chain_app nx p xs ys q :
  chain nx p (xs ++ ys) q <-> exists m, chain nx p xs m /\ chain nx m ys q.
Proof.
  revert p. induction xs as [|a xs IH]; intros p; simpl.
  - split; [intros H; by exists p|intros (m & -> & H); done].
  - setoid_rewrite IH. naive_solver.
Qed.

Lemma chain_frame nx p xs q a v : a ∉ xs -> chain nx p xs q -> chain (<[a := v]> nx) p xs q.
Proof.
  revert p. induction xs as [|b xs IH]; intros p; simpl; [done|].
  intros [Hab Ha]%not_elem_of_cons (-> & n & Hn & Hc). split; [done|]. exists n.
  rewrite lookup_insert_ne by done. by split; [|apply IH].
Qed.

Lemma listed_init nx : listed nx LIST_INIT [].
Proof. by split; [|constructor]. Qed.

Lemma listed_snoc_inv nx l xs z : listed nx l (xs ++ [z]) ->
  last l = NextSlot z /\ chain nx (head l) xs (Some z) /\ is_Some (nx !! z) /\ NoDup (xs ++ [z]).
Proof.
  intros [H Hnd]. destruct (xs ++ [z]) as [|a l0] eqn:E; [by destruct xs|].
  destruct H as (ys & z' & Heq & Hl & Hc & Hs). rewrite Heq in E. apply app_inj_tail in E as [-> ->]. done.
Qed.

Lemma listed_snoc nx l xs z :
  last l = NextSlot z -> chain nx (head l) xs (Some z) -> is_Some (nx !! z) -> NoDup (xs ++ [z]) ->
  listed nx l (xs ++ [z]).
Proof. intros H1 H2 H3 H4. split; [|done]. destruct (xs ++ [z]) eqn:E; [by destruct xs|]. exists xs, z. by rewrite E. Qed.

Lemma listed_append nx l xs a : listed nx l xs -> a ∉ xs -> is_Some (nx !! a) ->
  let '(nx', l') := LIST_APPEND nx l a in
  listed nx' l' (xs ++ [a]) /\ forall b, b ∉ xs -> nx' !! b = nx !! b.
Proof.
  intros Hl Ha Hs. unfold LIST_APPEND, store_last. destruct xs as [|z xs _] using rev_ind.
  - destruct Hl as [-> Hnd]. split; [|done]. by apply (listed_snoc _ _ []); [|simpl| |constructor; [set_solver|constructor]].
  - apply listed_snoc_inv in Hl as (-> & Hc & Hsz & Hnd). simpl. split.
    + assert (Hnd' := Hnd). apply NoDup_app in Hnd' as (_ & Hd & _).
      apply listed_snoc; simpl; [done| | |].
      * apply chain_app. exists (Some z). split; [apply chain_frame; [|done]|].
        -- intros Hz. apply (Hd z Hz). by left.
        -- simpl. split; [done|]. exists (Some a). by rewrite lookup_insert_eq.
      * rewrite lookup_insert_ne; [done|]. intros ->. apply Ha. apply elem_of_app. right. by left.
      * apply NoDup_app. split; [done|]. split; [|constructor; [set_solver|constructor]].
        intros b Hb ->%list_elem_of_singleton. done.
    + intros b Hb. apply lookup_insert_ne. intros ->. apply Hb. apply elem_of_app. right. by left.
Qed.

Lemma linked_finish nx l xs p ys : listed nx l xs -> linked nx p ys -> xs ## ys ->
  let '(nx', q) := LIST_FINISH nx l p in linked nx' q (xs ++ ys) /\ forall b, b ∉ xs -> nx' !! b = nx !! b.
Proof.
  intros Hl Hp Hd. unfold LIST_FINISH, store_last. destruct xs as [|z xs _] using rev_ind.
  - destruct Hl as [-> _]. done.
  - apply listed_snoc_inv in Hl as (-> & Hc & Hsz & Hnd). simpl. apply NoDup_app in Hnd as (_ & Hdz & _). split.
    + unfold linked. rewrite <- app_assoc. apply chain_app. exists (Some z). split.
      * apply chain_frame; [|done]. intros Hz. apply (Hdz z Hz). by left.
      * simpl. split; [done|]. exists p. rewrite lookup_insert_eq. split; [done|].
        apply chain_frame; [|done]. intros Hz. apply (Hd z); [|done]. apply elem_of_app. right. by left.
    + intros b Hb. apply lookup_insert_ne. intros ->. apply Hb. apply elem_of_app. right. by left.
Qed.

Lemma listed_pop nx l xs : listed nx l xs ->
  match xs with
  | [] => segment_list_pop nx l = Ok (None, l)
  | a :: xs' => exists l', segment_list_pop nx l = Ok (Some a, l') /\ listed nx l' xs'
  end.
Proof.
  intros Hl. unfold segment_list_pop. destruct xs as [|z xs _] using rev_ind.
  - destruct Hl as [-> _]. done.
  - apply listed_snoc_inv in Hl as (Hlast & Hc & Hsz & Hnd). rewrite Hlast.
    rewrite bool_decide_false by done. destruct xs as [|a xs]; simpl in *.
    + rewrite Hc. simpl. rewrite bool_decide_true by done. eexists. split; [done|]. apply listed_init.
    + destruct Hc as (-> & n & Hn & Hc). simpl. apply NoDup_cons in Hnd as [Ha Hnd].
      rewrite bool_decide_false by (intros [= ->]; apply Ha, elem_of_app; right; by left).
      rewrite Hn. simpl. eexists. split; [done|]. by apply listed_snoc.
Qed.

Lemma listed_concat nx l1 xs l2 ys : listed nx l1 xs -> listed nx l2 ys -> xs ## ys ->
  (ys = [] -> head l2 = None) ->
  let '(nx', l) := LIST_CONCAT nx l1 l2 in listed nx' l (xs ++ ys) /\ forall b, b ∉ xs -> nx' !! b = nx !! b.
Proof.
  intros H1 H2 Hd Hnil. unfold LIST_CONCAT. destruct ys as [|y ys _] using rev_ind.
  { rewrite Hnil, app_nil_r by done. done. }
  apply listed_snoc_inv in H2 as (Hl2 & Hc2 & Hs2 & Hnd2).
  assert (exists h, head l2 = Some h) as [h Hh]
    by (destruct ys as [|h ys]; simpl in Hc2; [by exists y|destruct Hc2 as [-> _]; by exists h]).
  rewrite Hh in *. unfold store_last. destruct xs as [|z xs _] using rev_ind.
  - destruct H1 as [-> _]. simpl. split; [|done]. by apply listed_snoc.
  - apply listed_snoc_inv in H1 as (-> & Hc1 & Hs1 & Hnd1). simpl. assert (Hnd1' := Hnd1).
    apply NoDup_app in Hnd1' as (_ & Hdz & _).
    assert (Hzy : z ∉ ys ++ [y]) by (intros Hz; apply (Hd z); [apply elem_of_app; right; by left|done]).
    split; [|intros b Hb; apply lookup_insert_ne; intros ->; apply Hb, elem_of_app; right; by left].
    rewrite app_assoc. apply listed_snoc; simpl; [done| | |].
    + rewrite <- app_assoc. apply chain_app. exists (Some z). split.
      * apply chain_frame; [|done]. intros Hz. apply (Hdz z Hz). by left.
      * simpl. split; [done|]. exists (Some h). rewrite lookup_insert_eq. split; [done|].
        apply chain_frame; [|done]. intros Hz. apply Hzy, elem_of_app. by left.
    + rewrite lookup_insert_ne; [done|]. intros ->. apply Hzy, elem_of_app. right. by left.
    + rewrite <- app_assoc. apply NoDup_app. split; [done|]. split; [|done]. intros b Hb Hb'. by apply (Hd b).
Qed.

Lemma walk_last_ok nx hd : forall xs p fuel s,
  linked nx p xs -> (length xs < fuel)%nat ->
  match s with HeadSlot => hd = p | NextSlot a => nx !! a = Some p end ->
  walk_last fuel nx hd s = Ok (match list.last xs with Some z => NextSlot z | None => s end).
Proof.
  induction xs as [|a xs IH]; intros p fuel s Hp Hf Hs; (destruct fuel as [|fuel]; [simpl in Hf; lia|]); rewrite ?last_cons; simpl in *.
  - red in Hp. simpl in Hp. subst p. destruct s; simpl; [by subst|by rewrite Hs].
  - destruct Hp as (-> & n & Hn & Hc). assert ((match s with HeadSlot => Ok hd | NextSlot a => deref (nx !! a) end) = Ok (Some a)) as ->
      by (destruct s; [by subst|by rewrite Hs]).
    simpl. rewrite (IH n fuel (NextSlot a)); [|done|lia|done]. by destruct (list.last xs).
Qed.

Lemma listed_init_with nx p xs : linked nx p xs -> NoDup xs ->
  exists l, LIST_INIT_WITH nx p = Ok l /\ listed nx l xs /\ (xs = [] -> head l = None).
Proof.
  intros Hp Hnd. unfold LIST_INIT_WITH.
  assert (Hlen : (length xs < S (S (size nx)))%nat).
  { assert (Hsub : forall p, linked nx p xs -> forall a, a ∈ xs -> is_Some (nx !! a)).
    { clear p Hp. induction xs as [|b xs IH]; intros p Hp a Ha; [by apply elem_of_nil in Ha|].
      destruct Hp as (-> & n & Hn & Hc). apply NoDup_cons in Hnd as [_ Hnd].
      apply elem_of_cons in Ha as [->|Ha]; [eauto|by eapply IH]. }
    assert (length xs <= size nx)%nat; [|lia].
    rewrite <- (size_dom (D := gset Z)), <- (size_list_to_set (C := gset Z)) by done.
    apply subseteq_size. intros a. rewrite elem_of_list_to_set, elem_of_dom. by apply (Hsub p). }
  rewrite (walk_last_ok nx p xs p _ HeadSlot Hp Hlen eq_refl). simpl. eexists. split; [done|].
  destruct xs as [|z xs _] using rev_ind; simpl.
  - split; [by split; [|constructor]|]. intros _. exact Hp.
  - rewrite last_snoc. split; [|by destruct xs]. apply chain_app in Hp as (m & Hc & -> & n & Hn & _).
    apply listed_snoc; [done|done|eauto|done].
Qed.

(** ** Refinement: the macros implement operations on a list *)
Inductive list_op :=
| OpAppend (item : Z)
| OpPop
| OpConcat (items : option Z) (ys : list Z).

Definition run_op (nx : nexts) (l : segment_list) (op : list_op) : res (option Z * nexts * segment_list) :=
  match op with
  | OpAppend item => let '(nx, l) := LIST_APPEND nx l item in Ok (None, nx, l)
  | OpPop => '(r, l) ← segment_list_pop nx l; Ok (r, nx, l)
  | OpConcat items _ =>
      l2 ← LIST_INIT_WITH nx items;
      let '(nx, l) := LIST_CONCAT nx l l2 in Ok (None, nx, l)
  end.

Definition spec_op (xs : list Z) (op : list_op) : option Z * list Z :=
  match op with
  | OpAppend item => (None, xs ++ [item])
  | OpPop => match xs with [] => (None, []) | a :: xs => (Some a, xs) end
  | OpConcat _ ys => (None, xs ++ ys)
  end.

(** What the caller has to respect. *)
Definition op_ok (nx : nexts) (xs : list Z) (op : list_op) : Prop :=
  match op with
  | OpAppend item => item ∉ xs /\ is_Some (nx !! item)
  | OpPop => True
  | OpConcat items ys => linked nx items ys /\ NoDup ys /\ xs ## ys
  end.

(** Each operation on the linked representation does what the same
    operation does on the list, touches no other segment, and LIST_FINISH
    links the list to what is given to it. *)
Theorem segment_list_refines nx l xs op : listed nx l xs -> op_ok nx xs op ->
  exists r nx' l', run_op nx l op = Ok (r, nx', l') /\ spec_op xs op = (r, (spec_op xs op).2) /\
    listed nx' l' (spec_op xs op).2 /\ (forall b, b ∉ xs -> nx' !! b = nx !! b) /\
    (forall p ys, linked nx' p ys -> (spec_op xs op).2 ## ys ->
       let '(nx2, q) := LIST_FINISH nx' l' p in linked nx2 q ((spec_op xs op).2 ++ ys)).
Proof.
  intros Hl Hop.
  assert (Hfin : forall nx' l' xs', listed nx' l' xs' -> forall p ys, linked nx' p ys -> xs' ## ys ->
            let '(nx2, q) := LIST_FINISH nx' l' p in linked nx2 q (xs' ++ ys)).
  { intros nx' l' xs' Hl' p ys Hp Hd. pose proof (linked_finish nx' l' xs' p ys Hl' Hp Hd) as H.
    destruct (LIST_FINISH nx' l' p). apply H. }
  destruct op as [a| |p ys]; cbn [run_op spec_op snd op_ok] in *.
  - pose proof (listed_append nx l xs a Hl (proj1 Hop) (proj2 Hop)) as H.
    destruct (LIST_APPEND nx l a) as [nx' l']. destruct H as [Hl' Hf].
    exists None, nx', l'. split; [done|]. split; [done|]. split; [done|]. split; [done|]. by apply Hfin.
  - pose proof (listed_pop nx l xs Hl) as H. destruct xs as [|a xs].
    + rewrite H. exists None, nx, l. do 4 (split; [done|]). by apply Hfin.
    + destruct H as (l' & -> & Hl'). exists (Some a), nx, l'. do 4 (split; [done|]). by apply Hfin.
  - destruct Hop as (Hp & Hnd & Hd). destruct (listed_init_with nx p ys Hp Hnd) as (l2 & -> & Hl2 & Hnil).
    cbn [mbind res_bind]. pose proof (listed_concat nx l xs l2 ys Hl Hl2 Hd Hnil) as H.
    destruct (LIST_CONCAT nx l l2) as [nx' l']. destruct H as [Hl' Hf].
    exists None, nx', l'. do 4 (split; [done|]). by apply Hfin.
Qed.

Lemma segment_list_refines_witness :
  let nx := {[1 := Some 2; 2 := None; 3 := None]} in let op := OpConcat (Some 1) [1; 2] in
  exists r nx' l', run_op nx LIST_INIT op = Ok (r, nx', l') /\ spec_op [] op = (r, (spec_op [] op).2) /\
    listed nx' l' (spec_op [] op).2 /\ (forall b, b ∉ [] -> nx' !! b = nx !! b) /\
    (forall p ys, linked nx' p ys -> (spec_op [] op).2 ## ys ->
       let '(nx2, q) := LIST_FINISH nx' l' p in linked nx2 q ((spec_op [] op).2 ++ ys)).
Proof.
  intros nx op. apply (segment_list_refines nx LIST_INIT [] op); [apply listed_init|].
  split; [|split].
  - split; [done|]. exists (Some 2). split; [reflexivity|]. split; [done|]. exists None. split; [reflexivity|done].
  - repeat constructor; [intros H%list_elem_of_singleton; discriminate|intros H%elem_of_nil; done].
  - intros x Hx. by apply elem_of_nil in Hx.
Defined.
