(* ===== verification/SegStack.v ===== *)
(** * The lock-free stacks of segments

    [segment_push_list], [segment_push] and [segment_pop] of
    src/src/runtime/heap_concurrent.c, step by step, by any number of
    threads on one stack.  A pop reads the [next] field of a segment that
    may already belong to another thread.  Its compare-and-swap is right
    only if that segment has not come back in the meantime: a segment that
    a thread took from a stack gets back there by a collection at the
    earliest, which has to wait until every worker has answered.  This is
    the condition [guarded]; under it the stack is the atomic list of
    segments that the sequential model has ([pool_partial],
    [partial_marked], [pool_freelist] of Alloc.v). *)
From Stdlib Require Import ZArith Lia.
From stdpp Require Import base option list relations.
From S2P Require Import Prelude.

Local Open Scope Z_scope.

(** ** The code *)

(** Where a thread is: [items] is the argument of [segment_push_list], the
    chain from [list->head] to the segment of [list->last]; [old] is the
    local variable; [Popped] holds the result. *)
Inductive stack_pc :=
| Idle
| PushLoad (items : list Z)
| PushLink (items : list Z) (old : option Z)
| PushSwap (items : list Z) (old : option Z)
| PopLoad
| PopNext (old : option Z)
| PopSwap (old : Z) (next : option Z)
| Popped (r : option Z).

(** [*stack] and the [next] fields of the segments. *)
Record stack_mem := StackMem { top : option Z; next : Z -> option Z }.
Definition set_next (a : Z) (v : option Z) (m : stack_mem) : stack_mem :=
  StackMem (top m) (fun x => if decide (x = a) then v else next m x).

Definition segment_push_list (items : list Z) : stack_pc :=
  match items with [] => Idle | _ => PushLoad items end.
Definition segment_push (item : Z) : stack_pc := PushLoad [item].
Definition segment_pop : stack_pc := PopLoad.

(** One step of a thread.  [spurious] says whether a weak
    compare-and-swap fails although the value is the expected one. *)
Definition stack_step (spurious : bool) (p : stack_pc) (m : stack_mem) : option (stack_pc * stack_mem) :=
  match p with
  | Idle | Popped _ => None
  | PushLoad items => Some (PushLink items (top m), m)
  | PushLink items old => a ← last items; Some (PushSwap items old, set_next a old m)
  | PushSwap items old =>
      if bool_decide (top m = old) && negb spurious then Some (Idle, StackMem (head items) (next m))
      else Some (PushLink items (top m), m)
  | PopLoad => Some (PopNext (top m), m)
  | PopNext None => Some (Popped None, m)
  | PopNext (Some old) => Some (PopSwap old (next m old), m)
  | PopSwap old n =>
      if bool_decide (top m = Some old) then Some (Popped (Some old), StackMem n (next m))
      else Some (PopNext (top m), m)
  end.

(** ** Threads *)

(** The segments in the hands of a call, and the one a pop has loaded. *)
Definition held (p : stack_pc) : list Z :=
  match p with
  | PushLoad items | PushLink items _ | PushSwap items _ => items
  | Popped (Some s) => [s]
  | _ => []
  end.
Definition pushed (p : stack_pc) : list Z := match p with Popped _ => [] | _ => held p end.
Definition loaded (p : stack_pc) : option Z :=
  match p with PopNext old => old | PopSwap old _ => Some old | _ => None end.

(** [out]: the segments that the clients own. *)
Record threads := Threads { mem : stack_mem; pcs : list stack_pc; out : list Z }.

(** From [items]' first to its last segment along [next]. *)
Fixpoint linked (m : stack_mem) (items : list Z) : Prop :=
  match items with
  | [] => True
  | a :: rest => match rest with [] => True | b :: _ => next m a = Some b /\ linked m rest end
  end.

Definition guard (pcs : list stack_pc) (items : list Z) : Prop :=
  forall p s, p ∈ pcs -> loaded p = Some s -> ~ s ∈ items.

Section Steps.
Variable guarded : bool.

Inductive threads_step : threads -> threads -> Prop :=
| run_step m ps out i p sp p' m' :
    ps !! i = Some p -> stack_step sp p m = Some (p', m') ->
    threads_step (Threads m ps out) (Threads m' (<[i := p']> ps) out)
| start_push m ps out out' i items :
    ps !! i = Some Idle -> out ≡ₚ items ++ out' -> items <> [] -> linked m items ->
    (guarded = true -> guard ps items) ->
    threads_step (Threads m ps out) (Threads m (<[i := segment_push_list items]> ps) out')
| start_pop m ps out i :
    ps !! i = Some Idle -> threads_step (Threads m ps out) (Threads m (<[i := segment_pop]> ps) out)
| finish_pop m ps out i r :
    ps !! i = Some (Popped r) ->
    threads_step (Threads m ps out) (Threads m (<[i := Idle]> ps) (option_list r ++ out))
| client_write m ps out s v :
    s ∈ out -> threads_step (Threads m ps out) (Threads (set_next s v m) ps out).
End Steps.

(** ** The specification: push and pop at once *)
(** A pop is over when it finds the stack empty. *)
Inductive call := NoCall | CallPush (items : list Z) | CallPop | CallDone (r : option Z).
Definition call_of (p : stack_pc) : call :=
  match p with
  | Idle => NoCall
  | PushLoad items | PushLink items _ | PushSwap items _ => CallPush items
  | PopNext None => CallDone None
  | PopLoad | PopNext (Some _) | PopSwap _ _ => CallPop
  | Popped r => CallDone r
  end.

Record atomic_stack := AtomicStack { content : list Z; calls : list call; clients : list Z }.

Inductive atomic_step : atomic_stack -> atomic_stack -> Prop :=
| atomic_push l cs out i items :
    cs !! i = Some (CallPush items) -> atomic_step (AtomicStack l cs out) (AtomicStack (items ++ l) (<[i := NoCall]> cs) out)
| atomic_pop l s cs out i :
    cs !! i = Some CallPop -> atomic_step (AtomicStack (s :: l) cs out) (AtomicStack l (<[i := CallDone (Some s)]> cs) out)
| atomic_pop_empty cs out i :
    cs !! i = Some CallPop -> atomic_step (AtomicStack [] cs out) (AtomicStack [] (<[i := CallDone None]> cs) out)
| atomic_call_push l cs out out' i items :
    cs !! i = Some NoCall -> out ≡ₚ items ++ out' -> items <> [] ->
    atomic_step (AtomicStack l cs out) (AtomicStack l (<[i := CallPush items]> cs) out')
| atomic_call_pop l cs out i :
    cs !! i = Some NoCall -> atomic_step (AtomicStack l cs out) (AtomicStack l (<[i := CallPop]> cs) out)
| atomic_return l cs out i r :
    cs !! i = Some (CallDone r) -> atomic_step (AtomicStack l cs out) (AtomicStack l (<[i := NoCall]> cs) (option_list r ++ out)).

(** ** The invariant *)
Fixpoint chain (m : stack_mem) (p : option Z) (l : list Z) : Prop :=
  match l with [] => p = None | a :: l => p = Some a /\ chain m (next m a) l end.

(** The condition on the program counter of a thread, with the stack [l]. *)
Definition pc_ok (m : stack_mem) (l : list Z) (p : stack_pc) : Prop :=
  match p with
  | PushLoad items | PushLink items _ => items <> [] /\ linked m items
  | PushSwap items old => items <> [] /\ linked m items /\ exists a, last items = Some a /\ next m a = old
  | PopNext None => True
  | PopSwap s n => s ∈ l -> next m s = n
  | _ => True
  end.

Definition all_held (ps : list stack_pc) : list Z := concat (map held ps).

Record stack_inv (t : threads) (l : list Z) : Prop := {
  si_chain : chain (mem t) (top (mem t)) l;
  si_apart : NoDup (l ++ all_held (pcs t) ++ out t);
  si_pcs p : p ∈ pcs t -> pc_ok (mem t) l p;
  si_loaded p q s : p ∈ pcs t -> q ∈ pcs t -> loaded p = Some s -> ~ s ∈ pushed q
}.

(** *** Stores to [next] fields *)
Lemma set_next_same a v m : next (set_next a v m) a = v.
Proof. simpl. by rewrite decide_True. Qed.
Lemma set_next_other a v m b : b <> a -> next (set_next a v m) b = next m b.
Proof. intros. simpl. by rewrite decide_False. Qed.

Lemma chain_ext m m' p l : (forall a, a ∈ l -> next m' a = next m a) -> chain m p l -> chain m' p l.
Proof.
  revert p. induction l as [|a l IH]; intros p Hn; [done|]. simpl. intros [-> Hc]. split; [done|].
  rewrite Hn by (by left). apply IH; [|done]. intros b Hb. apply Hn. by right.
Qed.

(** The last link does not count. *)
Lemma linked_frame m m' items : (forall a, a ∈ items -> last items <> Some a -> next m' a = next m a) -> NoDup items -> linked m items -> linked m' items.
Proof.
  induction items as [|a rest IH]; intros Hn Hnd; [done|]. simpl. destruct rest as [|b rest]; [done|]. intros [Ha Hl].
  apply NoDup_cons in Hnd as [Hna Hnd]. split.
  - rewrite <- Ha. apply Hn; [by left|]. rewrite last_cons_cons. intros Hlast%last_Some_elem_of. done.
  - apply IH; [|done..]. intros c Hc Hlc. apply Hn; [by right|]. by rewrite last_cons_cons.
Qed.

Lemma linked_chain m items p l a : items <> [] -> linked m items -> last items = Some a -> next m a = p -> chain m p l ->
  chain m (head items) (items ++ l).
Proof.
  intros Hne Hl Hlast <- Hc. destruct items as [|b rest]; [done|]. clear Hne. simpl. split; [done|].
  revert b Hl Hlast. induction rest as [|c rest IH]; intros b Hl Hlast; simpl in *; [by simplify_eq|].
  destruct Hl as [-> Hl]. split; [done|]. by apply IH.
Qed.

Lemma pc_ok_ext m m' l l' p : (forall a, a ∈ pushed p -> next m' a = next m a) ->
  (forall s n, p = PopSwap s n -> s ∈ l' -> s ∈ l /\ next m' s = next m s) -> NoDup (held p) -> pc_ok m l p -> pc_ok m' l' p.
Proof.
  intros Hn Hs Hnd. destruct p as [|items|items old|items old| |[o|]|s n|r]; simpl in *; try done.
  - intros [? ?]. split; [done|]. eapply linked_frame; [|done..]. eauto.
  - intros [? ?]. split; [done|]. eapply linked_frame; [|done..]. eauto.
  - intros (? & ? & a & Ha & Hna). split; [done|]. split; [eapply linked_frame; [|done..]; eauto|].
    exists a. split; [done|]. rewrite Hn; [done|]. by apply last_Some_elem_of.
  - intros Hk Hin. destruct (Hs s n eq_refl Hin) as [Hin' ->]. by apply Hk.
Qed.

(** *** The lists of the threads *)
Lemma all_held_split (ps : list stack_pc) i p : ps !! i = Some p -> exists ps1 ps2, ps = ps1 ++ p :: ps2 /\ i = length ps1 /\
  forall q, <[i := q]> ps = ps1 ++ q :: ps2.
Proof.
  intros Hi. exists (take i ps), (drop (S i) ps).
  assert (Hlt := lookup_lt_Some _ _ _ Hi). split; [by rewrite take_drop_middle|].
  split; [rewrite length_take; lia|]. intros q. by rewrite insert_take_drop.
Qed.
Lemma all_held_mid ps1 p ps2 : all_held (ps1 ++ p :: ps2) ≡ₚ held p ++ all_held (ps1 ++ ps2).
Proof.
  unfold all_held. rewrite !map_app, !concat_app. simpl. apply Permutation_app_swap_app.
Qed.
Lemma elem_of_all_held ps q a : q ∈ ps -> a ∈ held q -> a ∈ all_held ps.
Proof.
  unfold all_held. induction 1 as [q ps|q q' ps _ IH]; simpl; intros Ha; apply elem_of_app; [by left|right; by apply IH].
Qed.
Lemma pushed_held p a : a ∈ pushed p -> a ∈ held p.
Proof. destruct p; try done. by intros ?%elem_of_nil. Qed.
Lemma elem_of_mid {X} (q x : X) l1 l2 : q ∈ l1 ++ x :: l2 <-> q = x \/ q ∈ l1 ++ l2.
Proof. rewrite !elem_of_app, elem_of_cons. tauto. Qed.

(** ** Simulation *)
Definition abstraction (t : threads) (l : list Z) : atomic_stack := AtomicStack l (map call_of (pcs t)) (out t).

Definition simulated (t t' : threads) (l : list Z) : Prop :=
  exists l', stack_inv t' l' /\ rtc atomic_step (abstraction t l) (abstraction t' l').

(** A step of one thread that changes neither the stack, nor what is held. *)
Lemma thread_step_inv m m' ps1 ps2 p p' out l l' :
  stack_inv (Threads m (ps1 ++ p :: ps2) out) l ->
  chain m' (top m') l' -> NoDup (l' ++ all_held (ps1 ++ p' :: ps2) ++ out) ->
  pc_ok m' l' p' -> (forall q, q ∈ ps1 ++ ps2 -> pc_ok m l q -> pc_ok m' l' q) ->
  (forall s q, loaded p' = Some s -> q = p' \/ q ∈ ps1 ++ ps2 -> ~ s ∈ pushed q) ->
  (forall s, s ∈ pushed p' -> s ∈ pushed p \/ forall q, q ∈ ps1 ++ ps2 -> loaded q <> Some s) ->
  stack_inv (Threads m' (ps1 ++ p' :: ps2) out) l'.
Proof.
  intros [Hc Hnd Hp Hl] Hc' Hnd' Hp' Hq Hload Hpush. simpl in *. split; simpl; [done|done|..].
  - intros q [->|Hin]%elem_of_mid; [done|]. apply Hq; [done|]. apply Hp, elem_of_mid. by right.
  - intros q r s [->|Hin]%elem_of_mid Hr Hs.
    + apply (Hload s r Hs). by apply elem_of_mid in Hr.
    + intros Hsr. apply elem_of_mid in Hr as [->|Hr].
      * destruct (Hpush s Hsr) as [Hsp|Hno]; [|by apply (Hno q)]. apply (Hl q p s); [by apply elem_of_mid; right|by apply elem_of_mid; left|done|done].
      * apply (Hl q r s); [by apply elem_of_mid; right..|done|done].
Qed.

Lemma abstract_insert ps i q : map call_of (<[i := q]> ps) = <[i := call_of q]> (map call_of ps).
Proof. apply list_fmap_insert. Qed.
Lemma abstract_lookup ps i p : ps !! i = Some p -> map call_of ps !! i = Some (call_of p).
Proof. intros H. change (call_of <$> ps) with (map call_of ps). by rewrite list_lookup_fmap, H. Qed.

(** A step inside of a call. *)
Lemma abstract_stutter ps i p q : ps !! i = Some p -> call_of q = call_of p -> map call_of (<[i := q]> ps) = map call_of ps.
Proof. intros Hi Hq. rewrite abstract_insert, Hq. apply list_insert_id. by apply abstract_lookup. Qed.

(** The steps inside of a call that change [next] at most at a segment that
    is being pushed. *)
Lemma inner_step_inv m m' ps i p p' out l :
  stack_inv (Threads m ps out) l -> ps !! i = Some p -> top m' = top m ->
  held p' = held p -> pushed p' = pushed p -> pc_ok m' l p' ->
  (forall a, ~ a ∈ pushed p -> next m' a = next m a) ->
  (forall s, loaded p' = Some s -> s ∈ l \/ loaded p = Some s) ->
  stack_inv (Threads m' (<[i := p']> ps) out) l.
Proof.
  intros Hinv Hi Htop Hh Hpu Hok Hn Hld. pose proof Hinv as [Hc Hnd Hp Hl]. simpl in *.
  destruct (all_held_split ps i p Hi) as (ps1 & ps2 & -> & -> & Hins). rewrite Hins. rewrite all_held_mid in Hnd.
  assert (Hdis : forall a q, a ∈ pushed p -> q ∈ ps1 ++ ps2 -> ~ a ∈ held q).
  { intros a q Ha Hq Hb. rewrite <- app_assoc in Hnd. apply NoDup_app in Hnd as (_ & _ & Hnd). apply NoDup_app in Hnd as (_ & Hd & _).
    apply (Hd a); [by apply pushed_held|]. apply elem_of_app. left. by eapply elem_of_all_held. }
  assert (Hl' : forall a, a ∈ l -> ~ a ∈ pushed p).
  { intros a Ha Hb. apply NoDup_app in Hnd as (_ & Hd & _). apply (Hd a Ha). rewrite !elem_of_app. left. left. by apply pushed_held. }
  apply (thread_step_inv m m' ps1 ps2 p p' out l l Hinv); [| |done|..].
  - rewrite Htop. eapply chain_ext; [|exact Hc]. intros a Ha. by apply Hn, Hl'.
  - rewrite all_held_mid, Hh. done.
  - intros q Hq. apply pc_ok_ext.
    + intros a Ha. apply Hn. intros Hb. apply (Hdis a q Hb Hq). by apply pushed_held.
    + intros s n -> Hs. split; [done|]. by apply Hn, Hl'.
    + rewrite <- app_assoc in Hnd. apply NoDup_app in Hnd as (_ & _ & Hnd). apply NoDup_app in Hnd as (_ & _ & Hnd).
      apply NoDup_app in Hnd as (Hnd & _ & _). apply list_elem_of_split in Hq as (qs1 & qs2 & Heq). rewrite Heq, all_held_mid in Hnd.
      by apply NoDup_app in Hnd as [Hnd _].
  - intros s q Hs Hq Hin. destruct (Hld s Hs) as [Hsl|Hsp].
    + destruct Hq as [->|Hq]; [rewrite Hpu in Hin; by apply (Hl' s)|].
      apply NoDup_app in Hnd as (_ & Hd & _). apply (Hd s Hsl). rewrite !elem_of_app. left. right.
      eapply elem_of_all_held; [done|by apply pushed_held].
    + destruct Hq as [->|Hq]; [rewrite Hpu in Hin; apply (Hl p p s); try done; apply elem_of_mid; by left|].
      apply (Hl p q s); try done; apply elem_of_mid; [by left|by right].
  - intros s Hs. left. by rewrite <- Hpu.
Qed.

Lemma inner_simulated m m' ps i p p' out l :
  stack_inv (Threads m ps out) l -> ps !! i = Some p -> top m' = top m ->
  held p' = held p -> pushed p' = pushed p -> pc_ok m' l p' -> call_of p' = call_of p ->
  (forall a, ~ a ∈ pushed p -> next m' a = next m a) ->
  (forall s, loaded p' = Some s -> s ∈ l \/ loaded p = Some s) ->
  simulated (Threads m ps out) (Threads m' (<[i := p']> ps) out) l.
Proof.
  intros Hinv Hi Ht Hh Hpu Hok Hca Hn Hld. exists l. split; [by eapply inner_step_inv|].
  unfold abstraction. simpl. by rewrite (abstract_stutter ps i p p').
Qed.

Lemma chain_top m p l s : chain m p l -> p = Some s -> exists l', l = s :: l' /\ chain m (next m s) l'.
Proof. destruct l as [|a l]; simpl; [by intros ->|]. intros [-> Hc] [= ->]. by exists l. Qed.

(** A pop that loads [*stack]. *)
Lemma load_simulated m ps i p out l :
  stack_inv (Threads m ps out) l -> ps !! i = Some p -> held p = [] -> call_of p = CallPop ->
  simulated (Threads m ps out) (Threads m (<[i := PopNext (top m)]> ps) out) l.
Proof.
  intros Hinv Hi Hh Hca. pose proof (si_chain _ _ Hinv) as Hc. simpl in Hc.
  assert (Hpu : pushed p = []) by (destruct p; simpl in *; congruence).
  assert (Hinv' : stack_inv (Threads m (<[i := PopNext (top m)]> ps) out) l).
  { eapply inner_step_inv; [exact Hinv|exact Hi|done..| |done|].
    - simpl. by destruct (top m).
    - simpl. intros s Hs. left. destruct (chain_top _ _ _ _ Hc Hs) as (l' & -> & _). by left. }
  exists l. split; [done|]. unfold abstraction. simpl. destruct (top m) as [s|] eqn:Et.
  - by rewrite (abstract_stutter ps i p).
  - destruct l as [|a l]; [|by destruct Hc]. rewrite abstract_insert. apply rtc_once, atomic_pop_empty. by rewrite (abstract_lookup ps i p), Hca.
Qed.

Lemma push_simulated m ps i items out l :
  stack_inv (Threads m ps out) l -> ps !! i = Some (PushSwap items (top m)) ->
  simulated (Threads m ps out) (Threads (StackMem (head items) (next m)) (<[i := Idle]> ps) out) l.
Proof.
  intros Hinv Hi. pose proof Hinv as [Hc Hnd Hp Hl]. simpl in *. exists (items ++ l). split.
  - destruct (Hp _ (list_elem_of_lookup_2 _ _ _ Hi)) as (Hne & Hlk & a & Ha & Hna).
    destruct (all_held_split ps i _ Hi) as (ps1 & ps2 & -> & -> & Hins). rewrite Hins. rewrite all_held_mid in Hnd. simpl in Hnd.
    apply (thread_step_inv m _ ps1 ps2 _ Idle out l (items ++ l) Hinv); [| |done|..].
    + simpl. apply (chain_ext m); [done|]. by eapply linked_chain.
    + rewrite all_held_mid. simpl. rewrite <- app_assoc in Hnd |- *. by rewrite Permutation_app_swap_app.
    + intros q Hq. apply pc_ok_ext; [done| |].
      * intros s n -> Hs. split; [|done]. apply elem_of_app in Hs as [Hs|Hs]; [|done]. exfalso.
        apply (Hl (PopSwap s n) (PushSwap items (top m)) s); try done; apply elem_of_mid; [by right|by left].
      * rewrite <- app_assoc in Hnd. apply NoDup_app in Hnd as (_ & _ & Hnd). apply NoDup_app in Hnd as (_ & _ & Hnd).
        apply NoDup_app in Hnd as (Hnd & _ & _). apply list_elem_of_split in Hq as (qs1 & qs2 & Heq). rewrite Heq, all_held_mid in Hnd.
        by apply NoDup_app in Hnd as [Hnd _].
    + done.
    + simpl. by intros s ?%elem_of_nil.
  - unfold abstraction. simpl. rewrite abstract_insert. apply rtc_once, atomic_push. by rewrite (abstract_lookup ps i _ Hi).
Qed.

Lemma pop_simulated m ps i s n out l :
  stack_inv (Threads m ps out) l -> ps !! i = Some (PopSwap s n) -> top m = Some s ->
  simulated (Threads m ps out) (Threads (StackMem n (next m)) (<[i := Popped (Some s)]> ps) out) l.
Proof.
  intros Hinv Hi Ht. pose proof Hinv as [Hc Hnd Hp Hl]. simpl in *.
  destruct (chain_top _ _ _ _ Hc Ht) as (l' & -> & Hc').
  assert (Hn : next m s = n) by (apply (Hp _ (list_elem_of_lookup_2 _ _ _ Hi)); by left). exists l'. split.
  - destruct (all_held_split ps i _ Hi) as (ps1 & ps2 & -> & -> & Hins). rewrite Hins. rewrite all_held_mid in Hnd. simpl in Hnd.
    apply (thread_step_inv m _ ps1 ps2 _ (Popped (Some s)) out (s :: l') l' Hinv); [| |done|..].
    + simpl. apply (chain_ext m); [done|]. by rewrite <- Hn.
    + rewrite all_held_mid. simpl. by rewrite <- Permutation_middle.
    + intros q Hq. apply pc_ok_ext; [done| |].
      * intros s' n' _ Hs. split; [by right|done].
      * apply NoDup_cons in Hnd as [_ Hnd]. apply NoDup_app in Hnd as (_ & _ & Hnd). apply NoDup_app in Hnd as (Hnd & _ & _).
        apply list_elem_of_split in Hq as (qs1 & qs2 & Heq). rewrite Heq, all_held_mid in Hnd. by apply NoDup_app in Hnd as [Hnd _].
    + done.
    + simpl. by intros s' ?%elem_of_nil.
  - unfold abstraction. simpl. rewrite abstract_insert. apply rtc_once, atomic_pop. by rewrite (abstract_lookup ps i _ Hi).
Qed.

Lemma run_simulated m ps i sp p p' m' out l :
  stack_inv (Threads m ps out) l -> ps !! i = Some p -> stack_step sp p m = Some (p', m') ->
  simulated (Threads m ps out) (Threads m' (<[i := p']> ps) out) l.
Proof.
  intros Hinv Hi Hstep. pose proof (si_pcs _ _ Hinv p (list_elem_of_lookup_2 _ _ _ Hi)) as Hok. simpl in Hok.
  destruct p as [|items|items old|items old| |[s|]|s n|r]; simpl in *; try done.
  - injection Hstep as <- <-. by eapply inner_simulated; [exact Hinv|exact Hi|..].
  - destruct (last items) as [a|] eqn:Ha; [|done]. injection Hstep as <- <-. destruct Hok as [Hne Hlk].
    eapply inner_simulated; [exact Hinv|exact Hi|done..| |done| |done].
    + simpl. split; [done|]. split; [|exists a; by rewrite decide_True].
      eapply linked_frame; [| |exact Hlk].
      * intros b Hb Hlast. apply set_next_other. congruence.
      * pose proof (si_apart _ _ Hinv) as Hnd. simpl in Hnd. destruct (all_held_split ps i _ Hi) as (ps1 & ps2 & -> & _).
        rewrite all_held_mid in Hnd. apply NoDup_app in Hnd as (_ & _ & Hnd). apply NoDup_app in Hnd as (Hnd & _ & _).
        by apply NoDup_app in Hnd as [Hnd _].
    + simpl. intros b Hb. rewrite decide_False; [done|]. intros ->. by apply Hb, last_Some_elem_of.
  - case_bool_decide as Ht; simpl in Hstep; [destruct sp; simpl in Hstep|]; injection Hstep as <- <-.
    + eapply inner_simulated; [exact Hinv|exact Hi|done..| |done|done|done]. simpl. tauto.
    + subst old. by apply push_simulated.
    + eapply inner_simulated; [exact Hinv|exact Hi|done..| |done|done|done]. simpl. tauto.
  - injection Hstep as <- <-. by eapply load_simulated; [exact Hinv|exact Hi|..].
  - injection Hstep as <- <-. eapply inner_simulated; [exact Hinv|exact Hi|done..|]. simpl. by right.
  - injection Hstep as <- <-. by eapply inner_simulated; [exact Hinv|exact Hi|..].
  - case_bool_decide as Ht; injection Hstep as <- <-; [by apply pop_simulated|].
    by eapply load_simulated; [exact Hinv|exact Hi|..].
Qed.

(** The clients' steps. *)
Lemma start_push_simulated m ps i items out out' l :
  stack_inv (Threads m ps out) l -> ps !! i = Some Idle -> out ≡ₚ items ++ out' -> items <> [] -> linked m items -> guard ps items ->
  simulated (Threads m ps out) (Threads m (<[i := segment_push_list items]> ps) out') l.
Proof.
  intros Hinv Hi Hout Hne Hlk Hg. pose proof Hinv as [Hc Hnd Hp Hl]. simpl in *.
  assert (Hpl : segment_push_list items = PushLoad items) by (by destruct items). rewrite Hpl. exists l. split.
  - destruct (all_held_split ps i _ Hi) as (ps1 & ps2 & -> & -> & Hins). rewrite Hins. rewrite all_held_mid, Hout in Hnd. simpl in Hnd.
    split; simpl; [done|..].
    + rewrite all_held_mid. simpl. rewrite (Permutation_app_swap_app (all_held (ps1 ++ ps2))) in Hnd. by rewrite <- app_assoc.
    + intros q [->|Hq]%elem_of_mid; [done|]. apply Hp, elem_of_mid. by right.
    + intros q r s [->|Hq]%elem_of_mid Hr Hs; [done|]. apply elem_of_mid in Hr as [->|Hr].
      * simpl. apply (Hg q s); [apply elem_of_mid; by right|done].
      * apply (Hl q r s); [apply elem_of_mid; by right..|done].
  - unfold abstraction. simpl. rewrite abstract_insert. apply rtc_once. apply atomic_call_push; [by rewrite (abstract_lookup ps i _ Hi)|done|done].
Qed.

Lemma start_pop_simulated m ps i out l :
  stack_inv (Threads m ps out) l -> ps !! i = Some Idle ->
  simulated (Threads m ps out) (Threads m (<[i := segment_pop]> ps) out) l.
Proof.
  intros Hinv Hi. exists l. split; [by eapply inner_step_inv; [exact Hinv|exact Hi|..]|].
  unfold abstraction. simpl. rewrite abstract_insert. apply rtc_once, atomic_call_pop. by rewrite (abstract_lookup ps i _ Hi).
Qed.

Lemma finish_pop_simulated m ps i r out l :
  stack_inv (Threads m ps out) l -> ps !! i = Some (Popped r) ->
  simulated (Threads m ps out) (Threads m (<[i := Idle]> ps) (option_list r ++ out)) l.
Proof.
  intros Hinv Hi. pose proof Hinv as [Hc Hnd Hp Hl]. simpl in *. exists l. split.
  - destruct (all_held_split ps i _ Hi) as (ps1 & ps2 & -> & -> & Hins). rewrite Hins. rewrite all_held_mid in Hnd.
    split; simpl; [done|..].
    + rewrite all_held_mid. assert (held (Popped r) = option_list r) as Hr by (by destruct r). rewrite Hr in Hnd. simpl.
      by rewrite (Permutation_app_swap_app (all_held (ps1 ++ ps2))), <- app_assoc in *.
    + intros q [->|Hq]%elem_of_mid; [done|]. apply Hp, elem_of_mid. by right.
    + intros q s a [->|Hq]%elem_of_mid Hs Ha; [done|]. apply elem_of_mid in Hs as [->|Hs]; [by intros ?%elem_of_nil|].
      apply (Hl q s a); [apply elem_of_mid; by right..|done].
  - unfold abstraction. simpl. rewrite abstract_insert. apply rtc_once, atomic_return. by rewrite (abstract_lookup ps i _ Hi).
Qed.

Lemma client_write_simulated m ps s v out l :
  stack_inv (Threads m ps out) l -> s ∈ out -> simulated (Threads m ps out) (Threads (set_next s v m) ps out) l.
Proof.
  intros Hinv Hs. pose proof Hinv as [Hc Hnd Hp Hl]. simpl in *. exists l. split; [|done].
  assert (Hfree : forall a, a ∈ l ++ all_held ps -> a <> s).
  { intros a Ha ->. rewrite app_assoc in Hnd. apply NoDup_app in Hnd as (_ & Hd & _). by apply (Hd s). }
  split; simpl; [|done| |done].
  - eapply chain_ext; [|exact Hc]. intros a Ha. apply set_next_other, Hfree, elem_of_app. by left.
  - intros q Hq. apply (pc_ok_ext m (set_next s v m) l l); [| | |by apply Hp].
    + intros a Ha. apply set_next_other, Hfree, elem_of_app. right. eapply elem_of_all_held; [done|by apply pushed_held].
    + intros b n -> Hb. split; [done|]. apply set_next_other, Hfree, elem_of_app. by left.
    + apply NoDup_app in Hnd as (_ & _ & Hnd). apply NoDup_app in Hnd as (Hnd & _ & _).
      apply list_elem_of_split in Hq as (qs1 & qs2 & ->). rewrite all_held_mid in Hnd. by apply NoDup_app in Hnd as [Hnd _].
Qed.

Lemma threads_step_simulated t t' l : threads_step true t t' -> stack_inv t l -> simulated t t' l.
Proof.
  destruct 1; intros Hinv.
  - by eapply run_simulated.
  - apply start_push_simulated; auto.
  - by apply start_pop_simulated.
  - by apply finish_pop_simulated.
  - by apply client_write_simulated.
Qed.

(** ** Properties *)

(** C11. Whatever threads push and pop on a stack, in any interleaving and with
    spurious failures, it behaves as a stack on which every push and pop is
    one step, as long as no segment comes back while a pop that has loaded
    it is under way.  In particular every segment is in one place: on the
    stack, in the hands of one call, or with the clients. *)
Theorem segment_stack_linearizable t t' l :
  stack_inv t l -> rtc (threads_step true) t t' ->
  exists l', rtc atomic_step (abstraction t l) (abstraction t' l') /\
    chain (mem t') (top (mem t')) l' /\ NoDup (l' ++ all_held (pcs t') ++ out t').
Proof.
  intros Hinv Hr. assert (Hsim : simulated t t' l).
  { revert l Hinv. induction Hr as [t|t t1 t2 Hstep _ IH]; intros l Hinv; [exists l; by split|].
    destruct (threads_step_simulated t t1 l Hstep Hinv) as (l1 & Hinv1 & H1).
    destruct (IH l1 Hinv1) as (l2 & Hinv2 & H2). exists l2. split; [done|by etrans]. }
  destruct Hsim as (l' & [Hc Hnd _ _] & H). by exists l'.
Qed.

Module StackSample.
(** Three segments on the stack, two threads. *)
Definition m0 : stack_mem := StackMem (Some 1) (fun a => if a =? 1 then Some 2 else if a =? 2 then Some 3 else None).
Definition t0 : threads := Threads m0 [Idle; Idle] [].
Lemma inv0 : stack_inv t0 [1; 2; 3].
Proof.
  split; simpl.
  - done.
  - apply (bool_decide_unpack _). vm_compute. exact I.
  - intros p Hp. rewrite !elem_of_cons in Hp. by destruct Hp as [->|[->|Hp%elem_of_nil]].
  - intros p q s Hp _ Hs. rewrite !elem_of_cons in Hp. by destruct Hp as [->|[->|Hp%elem_of_nil]].
Qed.

(** The first thread has read 1 and its [next]; the second pops 1. *)
Definition t1 : threads := Threads (StackMem (Some 2) (next m0)) [PopSwap 1 (Some 2); Idle] [1].
Lemma stack_sample_steps g : rtc (threads_step g) t0 t1.
Proof.
  unfold t0, t1. eapply rtc_l; [by apply (start_pop _ _ _ _ 0)|]. eapply rtc_l; [by apply (run_step _ _ _ _ 0 PopLoad false)|].
  eapply rtc_l; [by apply (run_step _ _ _ _ 0 (PopNext (Some 1)) false)|].
  eapply rtc_l; [by apply (start_pop _ _ _ _ 1)|]. eapply rtc_l; [by apply (run_step _ _ _ _ 1 PopLoad false)|].
  eapply rtc_l; [by apply (run_step _ _ _ _ 1 (PopNext (Some 1)) false)|].
  eapply rtc_l; [by apply (run_step _ _ _ _ 1 (PopSwap 1 (Some 2)) false)|].
  apply rtc_once. exact (finish_pop g _ [PopSwap 1 (Some 2); Popped (Some 1)] [] 1 (Some 1) eq_refl).
Qed.
End StackSample.

Lemma segment_stack_linearizable_witness :
  exists l', rtc atomic_step (abstraction StackSample.t0 [1; 2; 3]) (abstraction StackSample.t1 l') /\
    chain (mem StackSample.t1) (top (mem StackSample.t1)) l' /\
    NoDup (l' ++ all_held (pcs StackSample.t1) ++ out StackSample.t1).
Proof. exact (segment_stack_linearizable _ _ _ StackSample.inv0 (StackSample.stack_sample_steps true)). Defined.

(** Without the condition it does not hold: if the second thread also takes
    2 and then pushes 1 again, the compare-and-swap of the first succeeds
    and makes 2, which the second thread owns, the top of the stack. *)
Example segment_pop_aba : exists m,
  rtc (threads_step false) StackSample.t0 (Threads m [Popped (Some 1); Idle] [2]) /\ top m = Some 2.
Proof.
  exists (StackMem (Some 2) (next (set_next 1 (Some 3) StackSample.m0))). split; [|done].
  etrans; [apply StackSample.stack_sample_steps|]. unfold StackSample.t1.
  eapply rtc_l; [by apply (start_pop _ _ _ _ 1)|]. eapply rtc_l; [by apply (run_step _ _ _ _ 1 PopLoad false)|].
  eapply rtc_l; [by apply (run_step _ _ _ _ 1 (PopNext (Some 2)) false)|].
  eapply rtc_l; [by apply (run_step _ _ _ _ 1 (PopSwap 2 (Some 3)) false)|].
  eapply rtc_l; [exact (finish_pop false _ [PopSwap 1 (Some 2); Popped (Some 2)] [1] 1 (Some 2) eq_refl)|].
  eapply rtc_l; [by apply (start_push false _ [PopSwap 1 (Some 2); Idle] [2; 1] [2] 1 [1]); [|apply Permutation_swap|..]|].
  eapply rtc_l; [by apply (run_step _ _ _ _ 1 (PushLoad [1]) false)|].
  eapply rtc_l; [by apply (run_step _ _ _ _ 1 (PushLink [1] (Some 3)) false)|].
  eapply rtc_l; [by apply (run_step _ _ _ _ 1 (PushSwap [1] (Some 3)) false)|].
  apply rtc_once. exact (run_step false (StackMem (Some 1) _) [PopSwap 1 (Some 2); Idle] [2] 0 (PopSwap 1 (Some 2)) false _ _ eq_refl eq_refl).
Qed.
