(* ===== verification/Alloc.v ===== *)
(** * Allocation

    The allocation pointers, subheaps, segment pool and allocators of
    src/src/runtime/heap_concurrent.c.  Segments are named by their address,
    a multiple of SEGMENT_SIZE; the segment lists (see SegList.v) are lists
    of addresses. *)
From Stdlib Require Import ZArith Lia.
From stdpp Require Import base option list gmap.
From S2P Require Import Prelude Bits Layout Segment.

Local Open Scope Z_scope.

(** ** Phases: [enum sml_sync_phase] *)
Definition PREASYNC : Z := 0.
Definition ASYNC : Z := 1.
Definition PRESYNC1 : Z := 2.
Definition SYNC1 : Z := 3.
Definition PRESYNC2 : Z := 4.
Definition SYNC2 : Z := 5.
Definition PREMARK : Z := 6.
Definition MARK : Z := 7.
Definition DUMMY_PHASE : Z := 16.

(** [ASYNC <= phase && phase <= PRESYNC2]: the thread has not taken its
    snapshot of the allocation pointers in this cycle. *)
Definition before_sync2 (phase : Z) : bool := (ASYNC <=? phase) && (phase <=? PRESYNC2).

(** ** Data *)

(** [struct alloc_ptr].  [b] is [dummy_bitptr] or points into the bitmap of a
    segment; [p] is an address, 0 for the null pointer. *)
Record alloc_ptr := AllocPtr {
  ap_b : option (Z * bitptr);
  ap_p : Z;
  ap_blocksize : Z
}.

Record subheap := Subheap { filled : list Z; partial : list Z }.
Record subheap_count := SubheapCount { threshold : Z; extension_room : Z }.

(** [struct heap] without its large objects (see Malloc.v). *)
Record heap := Heap {
  hptr : list alloc_ptr;
  subheaps : list subheap;
  count : list subheap_count;
  freelist : list Z
}.

Record subpool := Subpool {
  pool_filled : list Z; pool_partial : list Z; partial_marked : list Z
}.

(** [struct memory]: the reserved range and the number of segments handed
    out so far. *)
Record memory := Memory { mem_begin : Z; mem_count : Z; alloced : Z }.

Record segment_pool := SegmentPool {
  subpools : list subpool;
  pool_freelist : list Z;
  pool_memory : memory
}.

(** What the threads share: the segments, the pool, the current phase of
    the thread and the number of calls of [sml_gc]. *)
Record world := World {
  segs : gmap Z segment;
  pool : segment_pool;
  current_phase : Z;
  gc_requests : nat
}.

Definition set_segs (s : gmap Z segment) (w : world) : world :=
  World s (pool w) (current_phase w) (gc_requests w).
Definition set_pool (p : segment_pool) (w : world) : world :=
  World (segs w) p (current_phase w) (gc_requests w).
Definition sml_gc (w : world) : world :=
  World (segs w) (pool w) (current_phase w) (S (gc_requests w)).

Definition set_ptr (i : nat) (p : alloc_ptr) (h : heap) : heap :=
  Heap (<[i := p]> (hptr h)) (subheaps h) (count h) (freelist h).
Definition set_subheap (i : nat) (s : subheap) (h : heap) : heap :=
  Heap (hptr h) (<[i := s]> (subheaps h)) (count h) (freelist h).
Definition set_count (i : nat) (c : subheap_count) (h : heap) : heap :=
  Heap (hptr h) (subheaps h) (<[i := c]> (count h)) (freelist h).
Definition set_freelist (f : list Z) (h : heap) : heap :=
  Heap (hptr h) (subheaps h) (count h) f.

Definition get_seg (w : world) (a : Z) : res (segment * segment_layout) :=
  seg ← deref (segs w !! a); l ← seg_layout seg; Ok (seg, l).
Definition put_seg (w : world) (a : Z) (seg : segment) : world := set_segs (<[a := seg]> (segs w)) w.

Definition set_snapshot (s : Z) (seg : segment) : segment :=
  Segment (layout seg) s (seg_free_count seg) (words seg).

(** ** Segments *)

(** [segment_addr]. *)
Definition segment_addr (p : Z) : Z := Z.land p (Z.lnot (SEGMENT_SIZE - 1)).

(** A segment of memory fresh from the system: all zero. *)
Definition fresh_segment : segment := Segment None 0 0 (replicate segment_words 0).

Definition allocate_segment (m : memory) (limit : Z) : option (Z * memory) :=
  let n := alloced m in
  if (if limit <? mem_count m then limit else mem_count m) <=? n then None
  else Some (mem_begin m + n * SEGMENT_SIZE, Memory (mem_begin m) (mem_count m) (n + 1)).

Definition get_segment_from_pool (w : world) (subheap_index : nat) (phase : Z) : res (option Z * world) :=
  assert_that (subheap_index <=? NUM_SUBHEAPS)%nat;;
  sp ← deref (subpools (pool w) !! subheap_index);
  let put_sp sp p := SegmentPool (<[subheap_index := sp]> (subpools p)) (pool_freelist p) (pool_memory p) in
  let init w a := seg ← deref (segs w !! a); seg ← init_segment seg subheap_index; Ok (Some a, put_seg w a seg) in
  match pool_partial sp with
  | a :: rest =>
      Ok (Some a, set_pool (put_sp (Subpool (pool_filled sp) rest (partial_marked sp)) (pool w)) w)
  | [] =>
      match (if (phase =? MARK) || (phase =? ASYNC) || (phase =? PREASYNC) then partial_marked sp else []) with
      | a :: rest =>
          let w := set_pool (put_sp (Subpool (pool_filled sp) [] rest) (pool w)) w in
          if current_phase w =? ASYNC then
            '(seg, l) ← get_seg w a;
            ws ← copy_collect_bitmap l (words seg);
            Ok (Some a, put_seg w a (set_words (clear_collect_bitmap l ws) seg))
          else Ok (Some a, w)
      | [] =>
          match pool_freelist (pool w) with
          | a :: rest =>
              init (set_pool (SegmentPool (subpools (pool w)) rest (pool_memory (pool w))) w) a
          | [] =>
              match allocate_segment (pool_memory (pool w)) (mem_count (pool_memory (pool w))) with
              | Some (a, m) =>
                  let w := set_pool (SegmentPool (subpools (pool w)) [] m) w in
                  init (put_seg w a fresh_segment) a
              | None => Ok (None, w)
              end
          end
      end
  end.

(** ** Allocation pointers *)
Definition clear_alloc_ptr (p : alloc_ptr) : alloc_ptr := AllocPtr None 0 (ap_blocksize p).
Definition init_alloc_ptr (blocksize_log2 : Z) : alloc_ptr := AllocPtr None 0 (Z.shiftl 1 blocksize_log2).

Definition ALLOC_PTR_TO_SEGMENT (p : alloc_ptr) : res Z := '(seg, _) ← deref (ap_b p); Ok seg.

Definition set_alloc_ptr (w : world) (p : alloc_ptr) (a : Z) (phase : Z) : res (alloc_ptr * world) :=
  '(seg, l) ← get_seg w a;
  assert_that (ap_blocksize p =? blocksize_bytes l);;
  assert_that (allocptr_snapshot seg =? BLOCK_BASE l);;
  let w := if before_sync2 phase then put_seg w a (set_snapshot (BLOCK_LIMIT l) seg) else w in
  Ok (AllocPtr (Some (a, BITPTR BITMAP0_BASE 0)) (a + BLOCK_BASE l) (ap_blocksize p), w).

Definition release_alloc_ptr (w : world) (p : alloc_ptr) (phase : Z) : res (Z * alloc_ptr * world) :=
  a ← ALLOC_PTR_TO_SEGMENT p;
  assert_that (negb (ap_p p =? 0));;
  '(seg, l) ← get_seg w a;
  let w := if before_sync2 phase then put_seg w a (set_snapshot (BLOCK_LIMIT l) seg) else w in
  Ok (a, clear_alloc_ptr p, w).

Definition save_alloc_ptr (w : world) (p : alloc_ptr) : res world :=
  if ap_p p =? 0 then Ok w
  else
    a ← ALLOC_PTR_TO_SEGMENT p;
    '(seg, _) ← get_seg w a;
    Ok (put_seg w a (set_snapshot (ap_p p - a) seg)).

Definition take_allocptr_snapshot (w : world) (h : heap) : res world :=
  foldl (fun m p => w ← m; save_alloc_ptr w p) (Ok w) (hptr h).

(** [find_bitmap]: the bit pointer and [p] move behind the object. *)
Definition find_bitmap_ptr (w : world) (p : alloc_ptr) : res (option Z * alloc_ptr) :=
  if ap_p p =? 0 then Ok (None, p)
  else
    '(a, b) ← deref (ap_b p);
    '(seg, l) ← get_seg w a;
    found ← find_bitmap l (words seg) b;
    match found with
    | None => Ok (None, p)
    | Some (obj, b, _) => Ok (Some (a + obj), AllocPtr (Some (a, b)) (a + obj + ap_blocksize p) (ap_blocksize p))
    end.

(** The three parts of [try_find_segment]: the full segment goes to
    [filled] ... *)
Definition release_current (w : world) (p : alloc_ptr) (sh : subheap) (c : subheap_count) (phase : Z)
  : res (alloc_ptr * subheap * subheap_count * world) :=
  if ap_p p =? 0 then Ok (p, sh, c, w)
  else
    '(a, p, w) ← release_alloc_ptr w p phase;
    let c := SubheapCount (threshold c - 1) (extension_room c) in
    Ok (p, Subheap (a :: filled sh) (partial sh), c, if threshold c =? 0 then sml_gc w else w).

(** ... a segment is taken from [partial], from [freelist] or from the pool ... *)
Definition next_segment (w : world) (h : heap) (i : nat) (sh : subheap) (c : subheap_count) (phase : Z)
  : res (option Z * heap * world) :=
  match partial sh with
  | a :: rest => Ok (Some a, set_subheap i (Subheap (filled sh) rest) h, w)
  | [] =>
      if extension_room c =? 0 then Ok (None, h, w)
      else
        '(found, h, w) ←
          (match freelist h with
           | a :: rest =>
               seg ← deref (segs w !! a);
               seg ← init_segment seg i;
               Ok (Some a, set_freelist rest h, put_seg w a seg)
           | [] => '(found, w) ← get_segment_from_pool w i phase; Ok (found, h, w)
           end);
        match found with
        | None => Ok (None, h, w)
        | Some a =>
            let room := extension_room c in
            let h := if 0 <? room then set_count i (SubheapCount (threshold c) (room - 1)) h else h in
            Ok (Some a, h, w)
        end
  end.

(** ... and the first block is allocated there. *)
Definition try_find_segment (w : world) (h : heap) (i : nat) (phase : Z) : res (option Z * heap * world) :=
  p ← deref (hptr h !! i);
  sh ← deref (subheaps h !! i);
  c ← deref (count h !! i);
  '(p, sh, c, w) ← release_current w p sh c phase;
  let h := set_count i c (set_subheap i sh (set_ptr i p h)) in
  '(found, h, w) ← next_segment w h i sh c phase;
  match found with
  | None => Ok (None, h, w)
  | Some a =>
      '(p, w) ← set_alloc_ptr w p a phase;
      '(obj, p) ← find_bitmap_ptr w p;
      assert_that (bool_decide (obj <> None));;
      Ok (obj, set_ptr i p h, w)
  end.

(** The part of [sml_alloc] and [sml_alloc_important] before they look for a
    new segment. *)
Definition alloc_in_segment (w : world) (p : alloc_ptr) : res (option Z * alloc_ptr) :=
  fast ← match ap_b p with
         | None => Ok None (* dummy_bitmap is all ones *)
         | Some (a, b) =>
             '(seg, _) ← get_seg w a;
             Ok (if BITPTR_TEST (words seg) b then None else Some (a, b))
         end;
  match fast with
  | Some (a, b) =>
      assert_that (negb (ap_p p =? 0));;
      Ok (Some (ap_p p), AllocPtr (Some (a, BITPTR_INC b)) (ap_p p + ap_blocksize p) (ap_blocksize p))
  | None => find_bitmap_ptr w p
  end.

(** The subheap for an object of [objsize] bytes. *)
Definition subheap_index_of (objsize : Z) : res nat :=
  let alloc_size := CEILING (OBJ_HEADER_SIZE + objsize) BLOCKSIZE_MIN in
  let blocksize_log2 := CEIL_LOG2 alloc_size in
  assert_that ((BLOCKSIZE_MIN_LOG2 <=? blocksize_log2) && (blocksize_log2 <=? BLOCKSIZE_MAX_LOG2));;
  Ok (Z.to_nat (blocksize_log2 - BLOCKSIZE_MIN_LOG2)).

Section Find.
(** [sml_check_internal] and [sml_wait_gc] of control.c: the thread takes
    part in the collections that other threads ask for, or waits for one. *)
Variable check wait_gc : world * heap -> world * heap.

Definition find_segment (w : world) (h : heap) (i : nat) : res (Z * heap * world) :=
  let '(w, h) := check (w, h) in
  '(obj, h, w) ← try_find_segment w h i (current_phase w);
  match obj with
  | Some obj => Ok (obj, h, w)
  | None =>
      let '(w, h) := wait_gc (w, h) in
      '(obj, h, w) ← try_find_segment w h i (current_phase w);
      match obj with
      | Some obj => Ok (obj, h, w)
      | None =>
          let '(w, h) := wait_gc (w, h) in
          '(obj, h, w) ← try_find_segment w h i (current_phase w);
          match obj with
          | Some obj => Ok (obj, h, w)
          | None => Fatal
          end
      end
  end.

(** [sml_alloc] for objects that are not large: the branch to
    [malloc_object] is in Malloc.v. *)
Definition sml_alloc_small (w : world) (h : heap) (objsize : Z) : res (Z * heap * world) :=
  i ← subheap_index_of objsize;
  p ← deref (hptr h !! i);
  '(obj, p) ← alloc_in_segment w p;
  let h := set_ptr i p h in
  match obj with
  | Some obj => Ok (obj, h, w)
  | None => find_segment w h i
  end.
End Find.

(** [sml_alloc_important]: try the larger block sizes, do not wait. *)
Fixpoint alloc_important_loop (fuel : nat) (w : world) (h : heap) (i : nat) (phase : Z) : res (option Z * heap * world) :=
  match fuel with
  | O => NoFuel
  | S fuel =>
      p ← deref (hptr h !! i);
      '(obj, p) ← alloc_in_segment w p;
      let h := set_ptr i p h in
      match obj with
      | Some obj => Ok (Some obj, h, w)
      | None =>
          '(obj, h, w) ← try_find_segment w h i phase;
          match obj with
          | Some obj => Ok (Some obj, h, w)
          | None =>
              if (i <? NUM_SUBHEAPS - 1)%nat then alloc_important_loop fuel w h (S i) phase
              else Ok (None, h, w)
          end
      end
  end.

Definition sml_alloc_important (w : world) (h : heap) (objsize : Z) (phase : Z) : res (option Z * heap * world) :=
  i ← subheap_index_of objsize;
  alloc_important_loop NUM_SUBHEAPS w h i phase.
