(* ===== verification/AllocFacts.v ===== *)
(** * Allocation: invariants and lemmas *)
From Stdlib Require Import ZArith Lia.
From stdpp Require Import base option list gmap.
From S2P Require Import Prelude Bits Layout Segment SegmentFacts Alloc.

Local Open Scope Z_scope.

(** ** The blocks that are still to be handed out *)
Definition block_addr (l : segment_layout) (a : Z) (k : nat) : Z :=
  a + BLOCK_BASE l + Z.of_nat k * blocksize_bytes l.

Definition free_blocks (l : segment_layout) (ws : list Z) (n : nat) : list nat :=
  filter (fun k => bits ws 8 k = false) (seq n (blocks l - n)).

Lemma seq_split n m k : (n <= k)%nat -> (k < n + m)%nat -> seq n m = seq n (k - n) ++ k :: seq (S k) (n + m - S k).
Proof.
  intros H1 H2. replace m with ((k - n) + S (n + m - S k))%nat at 1 by lia.
  rewrite seq_app. f_equal. replace (n + (k - n))%nat with k by lia. done.
Qed.

Lemma free_blocks_next l ws n :
  free_blocks l ws n = match next_free l ws n with Some k => k :: free_blocks l ws (S k) | None => [] end.
Proof.
  destruct (next_free l ws n) as [k|] eqn:Hf.
  - apply next_free_Some in Hf as ((Hn & Hz & Hb) & Hk). unfold free_blocks.
    rewrite (seq_split n (blocks l - n) k) by lia. rewrite filter_app, filter_cons, decide_True by done.
    replace (n + (blocks l - n) - S k)%nat with (blocks l - S k)%nat by lia.
    assert (filter (fun k => bits ws 8 k = false) (seq n (k - n)) = []) as ->; [|done].
    apply filter_none, Forall_forall. intros i Hi. apply elem_of_seq in Hi. rewrite Hb by lia. done.
  - rewrite next_free_None in Hf. unfold free_blocks. apply filter_none, Forall_forall. intros i Hi.
    apply elem_of_seq in Hi. rewrite Hf by lia. done.
Qed.

Lemma free_blocks_at l ws n : (n < blocks l)%nat -> bits ws 8 n = false ->
  free_blocks l ws n = n :: free_blocks l ws (S n).
Proof.
  intros Hn Hb. rewrite free_blocks_next.
  assert (next_free l ws n = Some n) as ->; [|done].
  apply next_free_Some. split; [|done]. split; [done|]. split; [done|]. lia.
Qed.

(** ** Invariants *)

(** An address of a segment. *)
Definition aligned (a : Z) : Prop := 0 < a /\ a mod SEGMENT_SIZE = 0.

(** The segment at [a] belongs to subheap [i]. *)
Definition seg_at (w : world) (i : nat) (l : segment_layout) (a : Z) (seg : segment) : Prop :=
  segs w !! a = Some seg /\ layout seg = Some i /\ seg_ok l (words seg) /\ aligned a.

Definition ptr_ok (w : world) (i : nat) (l : segment_layout) (p : alloc_ptr) : Prop :=
  ap_blocksize p = blocksize_bytes l /\
  match ap_b p with
  | None => ap_p p = 0
  | Some (a, b) => exists seg n, seg_at w i l a seg /\ (n <= blocks l)%nat /\ b = BITPTR 8 n /\
                     ap_p p = block_addr l a n
  end.

(** A segment of the partial list: not used since the last collection. *)
Definition partial_ok (w : world) (i : nat) (l : segment_layout) (a : Z) : Prop :=
  exists seg, seg_at w i l a seg /\ allocptr_snapshot seg = BLOCK_BASE l /\ next_free l (words seg) 0 <> None.

Definition idle_at (w : world) (a : Z) : Prop := aligned a /\ exists seg, segs w !! a = Some seg /\ idle seg.

Definition ptr_seg (p : alloc_ptr) : list Z := match ap_b p with Some (a, _) => [a] | None => [] end.

Lemma ptr_ok_frame w w' i l p : ptr_ok w i l p ->
  (forall a, a ∈ ptr_seg p -> segs w' !! a = segs w !! a) -> ptr_ok w' i l p.
Proof.
  intros [Hb Hp] Hsame. split; [done|]. unfold ptr_seg in Hsame. destruct (ap_b p) as [[a b]|]; [|done].
  destruct Hp as (seg & n & [Hs H1] & H2). exists seg, n. split; [|done]. split; [|done]. rewrite Hsame; [done|by left].
Qed.

Record sub_ok (w : world) (i : nat) (l : segment_layout) (p : alloc_ptr) (sh : subheap) (fl : list Z) : Prop := {
  sub_ptr : ptr_ok w i l p;
  sub_filled : Forall (fun a => exists seg, seg_at w i l a seg) (filled sh);
  sub_partial : Forall (partial_ok w i l) (partial sh);
  sub_free : Forall (idle_at w) fl;
  sub_nodup : NoDup (ptr_seg p ++ filled sh ++ partial sh ++ fl)
}.

(** What the allocation pointer can still hand out. *)
Definition avail_ptr (w : world) (l : segment_layout) (p : alloc_ptr) : list Z :=
  match ap_b p with
  | None => []
  | Some (a, b) =>
      match segs w !! a with
      | Some seg => map (block_addr l a) (free_blocks l (words seg) (BITPTR_INDEX b 8))
      | None => []
      end
  end.

Definition avail_seg (w : world) (l : segment_layout) (a : Z) : list Z :=
  match segs w !! a with
  | Some seg => map (block_addr l a) (free_blocks l (words seg) 0)
  | None => []
  end.

(** What a subheap can hand out without a new segment. *)
Definition avail (w : world) (l : segment_layout) (p : alloc_ptr) (sh : subheap) : list Z :=
  avail_ptr w l p ++ concat (map (avail_seg w l) (partial sh)).

Lemma idle_fresh : idle fresh_segment.
Proof.
  unfold idle, fresh_segment, words_ok. cbn [layout words]. split; [split|].
  - apply length_replicate.
  - by apply Forall_replicate.
  - intros k Hk. by rewrite list_lookup_total_alt, lookup_replicate_2 by lia.
Qed.

Section Facts.
Context (i : nat) (l : segment_layout) (Hi : the_layouts !! i = Some l).

Lemma Hl : layout_ok l.
Proof. exact (layouts_ok i l Hi). Qed.

Lemma get_seg_ok w a seg : seg_at w i l a seg -> get_seg w a = Ok (seg, l).
Proof.
  intros (Hs & Hlay & _). unfold get_seg, seg_layout. rewrite Hs. simpl. rewrite Hlay. simpl.
  unfold segment_layout_at. by rewrite Hi.
Qed.

Lemma blocksize_pos : 0 < blocksize_bytes l.
Proof. pose proof (lo_blocksize _ Hl) as [-> ?]. apply Z.pow_pos_nonneg; lia. Qed.

Lemma block_base_pos : 0 <= BLOCK_BASE l.
Proof.
  unfold BLOCK_BASE. pose proof (lo_stack_end _ Hl). pose proof (lo_stack _ Hl).
  pose proof (lo_zerofill _ Hl). pose proof (lo_pos _ Hl). unfold OBJ_HEADER_SIZE in *. lia.
Qed.

Lemma block_addr_pos a k : aligned a -> 0 < block_addr l a k.
Proof. intros [Ha _]. unfold block_addr. pose proof blocksize_pos. pose proof block_base_pos. nia. Qed.

Lemma block_addr_S a k : block_addr l a k + blocksize_bytes l = block_addr l a (S k).
Proof. unfold block_addr. lia. Qed.

(** *** [find_bitmap] and the fast path pop the next available block *)
Lemma find_bitmap_ptr_spec w p : ptr_ok w i l p ->
  exists p', find_bitmap_ptr w p = Ok (head (avail_ptr w l p), p') /\ ptr_ok w i l p' /\
    avail_ptr w l p' = tail (avail_ptr w l p) /\ ptr_seg p' = ptr_seg p.
Proof.
  intros [Hbs Hp]. unfold find_bitmap_ptr, avail_ptr.
  destruct (ap_b p) as [[a b]|] eqn:Hb; [|rewrite Hp; exists p; rewrite Hb; by split; [|split; [split; [|rewrite Hb]|]]].
  destruct Hp as (seg & n & Hseg & Hn & -> & Hpp). pose proof Hseg as (Hs & _ & Hok & Ha).
  rewrite Hs, BITPTR_INDEX_BITPTR. rewrite (proj2 (Z.eqb_neq _ _)) by (pose proof (block_addr_pos a n Ha); lia).
  simpl deref. cbn [mbind res_bind]. rewrite (get_seg_ok _ _ _ Hseg). cbn [mbind res_bind].
  rewrite (find_bitmap_spec l (words seg) Hl Hok n Hn). cbn [mbind res_bind].
  rewrite free_blocks_next. destruct (next_free l (words seg) n) as [k|] eqn:Hf.
  - apply next_free_Some in Hf as [_ Hk]. cbn [map head tail].
    assert (Haddr : a + (BLOCK_BASE l + Z.of_nat k * blocksize_bytes l) = block_addr l a k)
      by (unfold block_addr; lia).
    rewrite Haddr. eexists. split; [reflexivity|]. cbn [ap_b]. rewrite Hs, BITPTR_INDEX_BITPTR.
    split; [|split; [done|unfold ptr_seg; by rewrite Hb]]. split; [done|]. cbn [ap_b ap_p].
    exists seg, (S k). rewrite Hbs, block_addr_S. split; [done|]. split; [lia|done].
  - exists p. rewrite Hb. split; [done|]. split; [|split; [|done]].
    + split; [done|]. rewrite Hb. by exists seg, n.
    + rewrite Hs, BITPTR_INDEX_BITPTR, free_blocks_next, Hf. done.
Qed.

Lemma alloc_in_segment_spec w p : ptr_ok w i l p ->
  exists p', alloc_in_segment w p = Ok (head (avail_ptr w l p), p') /\ ptr_ok w i l p' /\
    avail_ptr w l p' = tail (avail_ptr w l p) /\ ptr_seg p' = ptr_seg p.
Proof.
  intros Hok. assert (Hslow := find_bitmap_ptr_spec w p Hok). unfold alloc_in_segment.
  pose proof Hok as [Hbs Hp]. destruct (ap_b p) as [[a b]|] eqn:Hb; [|exact Hslow].
  destruct Hp as (seg & n & Hseg & Hn & -> & Hpp). pose proof Hseg as (Hs & _ & Hsok & Ha).
  rewrite (get_seg_ok _ _ _ Hseg). cbn [mbind res_bind].
  rewrite BITPTR_TEST_bit. fold (bits (words seg) 8 n).
  destruct (bits (words seg) 8 n) eqn:Hbit; [exact Hslow|]. cbn [mbind res_bind].
  rewrite (proj2 (Z.eqb_neq _ _)) by (pose proof (block_addr_pos a n Ha); lia).
  cbn [negb assert_that mbind res_bind]. clear Hslow.
  assert (Hlt : (n < blocks l)%nat).
  { destruct (decide (n = blocks l)) as [->|]; [|lia]. pose proof (blocks_words0 l).
    by rewrite (sok_sentinel0 _ _ Hsok) in Hbit by lia. }
  unfold avail_ptr. rewrite Hb, Hs, BITPTR_INDEX_BITPTR, free_blocks_at by done. cbn [map head tail].
  eexists. rewrite Hpp, Hbs, block_addr_S, BITPTR_INC_BITPTR. split; [reflexivity|].
  cbn [ap_b]. rewrite Hs, BITPTR_INDEX_BITPTR.
  split; [|split; [done|unfold ptr_seg; by rewrite Hb]]. split; [done|]. cbn [ap_b ap_p].
  exists seg, (S n). split; [done|]. split; [lia|done].
Qed.

(** *** Changing segments

    The steps of the allocator change one segment at a time: its snapshot,
    or an idle segment that is set up for the subheap. *)
Definition segs_but (w w' : world) (a : Z) : Prop := forall b, b <> a -> segs w' !! b = segs w !! b.

Lemma segs_but_refl w a : segs_but w w a.
Proof. done. Qed.

Lemma put_seg_but w a seg : segs_but w (put_seg w a seg) a.
Proof. intros b Hb. simpl. by rewrite lookup_insert_ne by congruence. Qed.

Lemma put_seg_at w a seg : segs (put_seg w a seg) !! a = Some seg.
Proof. simpl. by rewrite lookup_insert, decide_True. Qed.

Lemma seg_at_snapshot w a seg s : seg_at w i l a seg ->
  seg_at (put_seg w a (set_snapshot s seg)) i l a (set_snapshot s seg).
Proof. intros (_ & Hlay & Hok & Ha). split; [apply put_seg_at|]. done. Qed.

Section But.
Context (w w' : world) (a : Z) (Hbut : segs_but w w' a).

Lemma seg_at_but b seg : b <> a -> seg_at w i l b seg -> seg_at w' i l b seg.
Proof. intros Hb (Hs & H). split; [|done]. by rewrite Hbut. Qed.
Lemma ptr_ok_but p : a ∉ ptr_seg p -> ptr_ok w i l p -> ptr_ok w' i l p.
Proof. intros Ha Hp. apply (ptr_ok_frame w); [done|]. intros b Hb. apply Hbut. by intros ->. Qed.
Lemma filled_but bs : a ∉ bs -> Forall (fun b => exists seg, seg_at w i l b seg) bs ->
  Forall (fun b => exists seg, seg_at w' i l b seg) bs.
Proof.
  rewrite !Forall_forall. intros Ha H b Hb. destruct (H b Hb) as [seg Hseg]. exists seg.
  apply seg_at_but; [by intros ->|done].
Qed.
Lemma partial_but bs : a ∉ bs -> Forall (partial_ok w i l) bs -> Forall (partial_ok w' i l) bs.
Proof.
  rewrite !Forall_forall. intros Ha H b Hb. destruct (H b Hb) as [seg [Hseg ?]]. exists seg.
  split; [|done]. apply seg_at_but; [by intros ->|done].
Qed.
Lemma idle_but bs : a ∉ bs -> Forall (idle_at w) bs -> Forall (idle_at w') bs.
Proof.
  rewrite !Forall_forall. intros Ha H b Hb. destruct (H b Hb) as [Hpos [seg [Hseg ?]]]. split; [done|].
  exists seg. split; [|done]. rewrite Hbut; [done|by intros ->].
Qed.
Lemma avail_segs_but bs : a ∉ bs -> map (avail_seg w' l) bs = map (avail_seg w l) bs.
Proof.
  intros Ha. apply map_ext_in. intros b Hb%list_elem_of_In. unfold avail_seg.
  by rewrite Hbut by (by intros ->).
Qed.
End But.

(** The state of a subheap whose current segment has been given back. *)
Lemma release_current_spec w p sh c fl phase : sub_ok w i l p sh fl ->
  exists c1 w1, let p1 := clear_alloc_ptr p in
    let sh1 := Subheap (ptr_seg p ++ filled sh) (partial sh) in
    release_current w p sh c phase = Ok (p1, sh1, c1, w1) /\
    sub_ok w1 i l p1 sh1 fl /\ map (avail_seg w1 l) (partial sh) = map (avail_seg w l) (partial sh) /\
    extension_room c1 = extension_room c /\ pool w1 = pool w /\ current_phase w1 = current_phase w /\
    (forall b, b ∉ ptr_seg p -> segs w1 !! b = segs w !! b).
Proof.
  intros [[Hbs Hp] Hfill Hpart Hfree Hnd]. unfold release_current, ptr_seg.
  unfold ptr_seg in Hnd. destruct (ap_b p) as [[a b]|] eqn:Hb.
  - destruct Hp as (seg & n & Hseg & Hn & -> & Hpp).
    assert (Hp0 : ap_p p =? 0 = false).
    { apply Z.eqb_neq. rewrite Hpp. pose proof (block_addr_pos a n (proj2 (proj2 (proj2 Hseg)))). lia. }
    rewrite Hp0. unfold release_alloc_ptr, ALLOC_PTR_TO_SEGMENT. rewrite Hb, Hp0.
    cbn [deref mbind res_bind negb assert_that]. rewrite (get_seg_ok _ _ _ Hseg). cbn [mbind res_bind].
    eexists _, _. split; [reflexivity|].
    apply NoDup_cons in Hnd as [Ha Hnd].
    rewrite !not_elem_of_app in Ha. destruct Ha as (Haf & Hap & Hal).
    set (w0 := if before_sync2 phase then _ else w).
    assert (Hbut : segs_but w w0 a) by (subst w0; case_match; [apply put_seg_but|done]).
    assert (Hat : exists seg', seg_at w0 i l a seg').
    { subst w0. case_match; [eexists; by apply seg_at_snapshot|by exists seg]. }
    assert (Hw0 : pool w0 = pool w /\ current_phase w0 = current_phase w) by (subst w0; by case_match).
    clearbody w0.
    assert (Hgc : forall w1, segs w1 = segs w0 -> pool w1 = pool w0 -> current_phase w1 = current_phase w0 ->
      sub_ok w1 i l (clear_alloc_ptr p) (Subheap (a :: filled sh) (partial sh)) fl /\
      map (avail_seg w1 l) (partial sh) = map (avail_seg w l) (partial sh) /\ pool w1 = pool w /\
      current_phase w1 = current_phase w /\ (forall b, b ∉ [a] -> segs w1 !! b = segs w !! b)).
    { intros w1 Hs Hpl Hph. assert (Hbut1 : segs_but w w1 a) by (intros b' Hb'; rewrite Hs; by apply Hbut).
      assert (Hat1 : exists seg', seg_at w1 i l a seg') by (unfold seg_at; by rewrite Hs).
      split; [|split; [by apply avail_segs_but with (a := a)|
        split; [etrans; [exact Hpl|apply Hw0]|split; [etrans; [exact Hph|apply Hw0]|]]]].
      - split; simpl.
        + by split.
        + constructor; [done|]. by apply (filled_but w w1 a Hbut1).
        + by apply (partial_but w w1 a Hbut1).
        + by apply (idle_but w w1 a Hbut1).
        + constructor; [|done]. by rewrite !not_elem_of_app.
      - intros b' Hb'. apply Hbut1. intros ->. apply Hb'. by left. }
    destruct (Hgc (if threshold c - 1 =? 0 then sml_gc w0 else w0)) as (H1 & H2 & H3 & H4 & H5); [by case_match..|].
    split; [exact H1|]. split; [exact H2|]. split; [done|]. split; [exact H3|]. split; [exact H4|exact H5].
  - rewrite Hp. simpl (0 =? 0). cbn iota. exists c, w.
    split; [destruct p as [? ? ?]; cbn in Hb, Hp; subst; by destruct sh|]. split; [|done].
    split; [|done..]. by split.
Qed.

(** *** The segment pool *)

(** A segment of [partial_marked]: in phase [ASYNC] its collect bitmap is
    still to be copied. *)
Definition marked_ok (w : world) (a : Z) : Prop :=
  exists seg, seg_at w i l a seg /\ allocptr_snapshot seg = BLOCK_BASE l /\ next_free l (words seg) 0 <> None /\
    exists k, (k < blocks l)%nat /\ cbits l (words seg) k = false.

Definition pool_members (w : world) (sp : subpool) : list Z :=
  pool_partial sp ++ partial_marked sp ++ pool_freelist (pool w).

Record pool_ok (w : world) (sp : subpool) : Prop := {
  po_sub : subpools (pool w) !! i = Some sp;
  po_partial : Forall (partial_ok w i l) (pool_partial sp);
  po_marked : Forall (marked_ok w) (partial_marked sp);
  po_free : Forall (idle_at w) (pool_freelist (pool w));
  po_begin : aligned (mem_begin (pool_memory (pool w))) /\ 0 <= alloced (pool_memory (pool w));
  po_fresh n : alloced (pool_memory (pool w)) <= n ->
    segs w !! (mem_begin (pool_memory (pool w)) + n * SEGMENT_SIZE) = None;
  po_nodup : NoDup (pool_members w sp)
}.

Lemma marked_but w w' a bs : segs_but w w' a -> a ∉ bs -> Forall (marked_ok w) bs -> Forall (marked_ok w') bs.
Proof.
  rewrite !Forall_forall. intros Hbut Ha H b Hb. destruct (H b Hb) as [seg [Hseg ?]]. exists seg.
  split; [|done]. apply (seg_at_but w w' a); [done|by intros ->|done].
Qed.

(** Taking [a] out of the pool keeps the rest of it. *)
Lemma pool_ok_take w w' a sp sp' :
  pool_ok w sp -> segs_but w w' a -> subpools (pool w') !! i = Some sp' ->
  pool_partial sp' ⊆ pool_partial sp -> partial_marked sp' ⊆ partial_marked sp ->
  pool_freelist (pool w') ⊆ pool_freelist (pool w) ->
  a ∉ pool_members w' sp' -> NoDup (pool_members w' sp') ->
  mem_begin (pool_memory (pool w')) = mem_begin (pool_memory (pool w)) ->
  alloced (pool_memory (pool w)) <= alloced (pool_memory (pool w')) ->
  (forall n, alloced (pool_memory (pool w')) <= n -> a <> mem_begin (pool_memory (pool w)) + n * SEGMENT_SIZE) ->
  pool_ok w' sp'.
Proof.
  intros [Hsub Hp Hm Hf [Hb1 Hb2] Hfr Hnd] Hbut Hsub' Hsp Hsm Hsf Ha Hnd' Hbeg Hal Hfresh.
  unfold pool_members in Ha. rewrite !not_elem_of_app in Ha. destruct Ha as (Hap & Ham & Haf). split.
  - done.
  - apply (partial_but w w' a Hbut); [done|]. eapply Forall_subset; [exact Hsp|done].
  - apply (marked_but w w' a); [done|done|]. eapply Forall_subset; [exact Hsm|done].
  - apply (idle_but w w' a Hbut); [done|]. eapply Forall_subset; [exact Hsf|done].
  - rewrite Hbeg. split; [done|lia].
  - intros n Hn. rewrite Hbeg, Hbut; [apply Hfr; lia|]. intros Heq. by apply (Hfresh n).
  - done.
Qed.

Lemma partial_not_nil w a : partial_ok w i l a -> exists k, head (avail_seg w l a) = Some k.
Proof.
  intros (seg & (Hs & _) & _ & Hn). unfold avail_seg. rewrite Hs, free_blocks_next.
  destruct (next_free l (words seg) 0) as [k|]; [|done]. by eexists.
Qed.

(** A segment that [init_segment] has set up. *)
Lemma init_idle w a : idle_at w a -> exists seg seg', segs w !! a = Some seg /\ init_segment seg i = Ok seg' /\
  forall w', segs w' !! a = Some seg' -> partial_ok w' i l a.
Proof.
  intros (Ha & seg & Hs & Hidle). destruct (init_segment_spec seg i l Hi Hidle) as (seg' & Hinit & _ & Hlay & Hblank & Hsnap & _).
  exists seg, seg'. split; [done|]. split; [done|]. intros w' Hw'.
  destruct (blank_seg_ok l Hl (layout_meta i l Hi) _ Hblank) as [Hok Hfree]. exists seg'.
  split; [done|]. split; [done|]. pose proof (lo_pos _ Hl). intros Hnone.
  rewrite next_free_None in Hnone. specialize (Hfree 0%nat). rewrite Hnone in Hfree by (unfold blocks; lia).
  discriminate Hfree. unfold blocks. lia.
Qed.

Lemma copied_marked w a : marked_ok w a -> exists seg ws, segs w !! a = Some seg /\ get_seg w a = Ok (seg, l) /\
  copy_collect_bitmap l (words seg) = Ok ws /\
  forall w', segs w' !! a = Some (set_words (clear_collect_bitmap l ws) seg) -> partial_ok w' i l a.
Proof.
  intros (seg & Hseg & Hsnap & _ & k & Hk & Hck). pose proof Hseg as (Hs & Hlay & Hok & Ha).
  assert (Hsz : (8 + words0 l + words1 l + words0 l <= segment_words)%nat) by apply (layout_meta i l Hi).
  destruct (copy_collect_bitmap_spec l Hl Hsz (words seg)) as (ws & Hcopy & Hok' & Hbits & _); [apply Hok|].
  exists seg, ws. split; [done|]. split; [by apply get_seg_ok|]. split; [done|]. intros w' Hw'.
  destruct (clear_collect_bitmap_spec l Hl Hsz ws Hok') as (Hok2 & Hbits2 & _).
  eexists. split; [split; [exact Hw'|]; done|]. split; [done|]. simpl. intros Hnone.
  rewrite next_free_None in Hnone. specialize (Hnone k ltac:(lia)).
  rewrite Hbits2, Hbits in Hnone by done. unfold cbits in Hck. congruence.
Qed.

Lemma fresh_segment_idle w a : aligned a -> segs w !! a = Some fresh_segment -> idle_at w a.
Proof. intros Ha Hs. split; [done|]. exists fresh_segment. split; [done|apply idle_fresh]. Qed.

Definition look_at_marked (phase : Z) : bool := (phase =? MARK) || (phase =? ASYNC) || (phase =? PREASYNC).

(** What [get_segment_from_pool] returns: a segment with a free block that
    leaves the pool, or none when the pool has none to give. *)
Definition got_from_pool (w : world) (sp : subpool) (phase : Z) (r : option Z * world) : Prop :=
  let w' := r.2 in
  current_phase w' = current_phase w /\ gc_requests w' = gc_requests w /\
  match r.1 with
  | Some a => exists sp', segs_but w w' a /\ partial_ok w' i l a /\ pool_ok w' sp' /\
      a ∉ pool_members w' sp' /\ pool_members w' sp' ⊆ pool_members w sp /\
      (a ∈ pool_members w sp \/ segs w !! a = None)
  | None => w' = w /\ pool_partial sp = [] /\ pool_freelist (pool w) = [] /\
      (look_at_marked phase = true -> partial_marked sp = []) /\
      mem_count (pool_memory (pool w)) <= alloced (pool_memory (pool w))
  end.

Lemma member_some w sp a : pool_ok w sp -> a ∈ pool_members w sp -> exists seg, segs w !! a = Some seg.
Proof.
  intros [_ Hp Hm Hf _ _ _]. unfold pool_members. rewrite !Forall_forall in Hp, Hm, Hf.
  rewrite !elem_of_app. intros [Ha|[Ha|Ha]].
  - destruct (Hp a Ha) as (seg & (Hs & _) & _). by exists seg.
  - destruct (Hm a Ha) as (seg & (Hs & _) & _). by exists seg.
  - destruct (Hf a Ha) as (_ & seg & Hs & _). by exists seg.
Qed.

(** One way to take a member [a]. *)
Lemma take_member w w' sp sp' a rest phase :
  pool_ok w sp -> pool_members w sp ≡ₚ a :: rest -> pool_members w' sp' = rest ->
  segs_but w w' a -> partial_ok w' i l a -> subpools (pool w') !! i = Some sp' ->
  pool_partial sp' ⊆ pool_partial sp -> partial_marked sp' ⊆ partial_marked sp ->
  pool_freelist (pool w') ⊆ pool_freelist (pool w) ->
  pool_memory (pool w') = pool_memory (pool w) ->
  current_phase w' = current_phase w -> gc_requests w' = gc_requests w ->
  got_from_pool w sp phase (Some a, w').
Proof.
  intros Hok Hperm Hrest Hbut Hpart Hsub Hsp Hsm Hsf Hmem Hph Hgc. split; [done|]. split; [done|].
  cbn [fst snd]. pose proof (po_nodup _ _ Hok) as Hnd. rewrite Hperm in Hnd. apply NoDup_cons in Hnd as [Ha Hnd].
  assert (Hin : a ∈ pool_members w sp) by (rewrite Hperm; left).
  exists sp'. split; [done|]. split; [done|]. split; [|split; [by rewrite Hrest|split; [|by left]]].
  - apply (pool_ok_take w w' a sp sp'); rewrite ?Hrest, ?Hmem; try done.
    intros n Hn Heq. destruct (member_some _ _ _ Hok Hin) as [seg Hs].
    by rewrite Heq, (po_fresh _ _ Hok) in Hs.
  - rewrite Hrest. intros x Hx. rewrite Hperm. by right.
Qed.

Definition put_subpool (sp : subpool) (w : world) : world :=
  set_pool (SegmentPool (<[i := sp]> (subpools (pool w))) (pool_freelist (pool w)) (pool_memory (pool w))) w.

(** The first partial segment. *)
Lemma take_partial w sp phase a rest :
  pool_ok w sp -> pool_partial sp = a :: rest ->
  got_from_pool w sp phase (Some a, put_subpool (Subpool (pool_filled sp) rest (partial_marked sp)) w).
Proof.
  intros Hok Hpp. pose proof Hok as [Hsub Hp _ _ _ _ _]. rewrite Hpp in Hp.
  apply (take_member _ _ _ (Subpool (pool_filled sp) rest (partial_marked sp)) _
           (rest ++ partial_marked sp ++ pool_freelist (pool w))); try done.
  - unfold pool_members. by rewrite Hpp.
  - by apply Forall_inv in Hp.
  - simpl. apply list_lookup_insert_eq. by apply lookup_lt_Some in Hsub.
  - rewrite Hpp. simpl. by right.
Qed.

(** The first marked segment, whose collect bitmap is copied in [ASYNC]. *)
Lemma take_marked w sp phase a rest :
  pool_ok w sp -> pool_partial sp = [] -> partial_marked sp = a :: rest ->
  let w1 := put_subpool (Subpool (pool_filled sp) [] rest) w in
  exists r, (if current_phase w1 =? ASYNC then
               '(seg, l) ← get_seg w1 a;
               ws ← copy_collect_bitmap l (words seg);
               Ok (Some a, put_seg w1 a (set_words (clear_collect_bitmap l ws) seg))
             else Ok (Some a, w1)) = Ok r /\ got_from_pool w sp phase r.
Proof.
  intros Hok Hpp Hmk w1. pose proof Hok as [Hsub _ Hm _ _ _ _]. rewrite Hmk in Hm.
  pose proof (Forall_inv Hm) as Hma. pose proof (lookup_lt_Some _ _ _ Hsub) as Hlen.
  assert (Htake : forall w', segs_but w w' a -> partial_ok w' i l a -> pool w' = pool w1 ->
    current_phase w' = current_phase w -> gc_requests w' = gc_requests w ->
    got_from_pool w sp phase (Some a, w')).
  { intros w' Hbut Hpart Hpool Hph Hgc.
    apply (take_member _ _ _ (Subpool (pool_filled sp) [] rest) _ (rest ++ pool_freelist (pool w)));
      rewrite ?Hpool; try done.
    - unfold pool_members. by rewrite Hpp, Hmk.
    - unfold pool_members. by rewrite Hpool.
    - simpl. by apply list_lookup_insert_eq.
    - intros x Hx. by apply elem_of_nil in Hx.
    - rewrite Hmk. simpl. by right. }
  destruct (copied_marked w a Hma) as (seg & ws & Hs & Hget & Hcopy & Hpart).
  destruct (current_phase w1 =? ASYNC).
  - change (get_seg w1 a) with (get_seg w a). rewrite Hget. cbn [mbind res_bind]. rewrite Hcopy. cbn [mbind res_bind].
    eexists. split; [reflexivity|]. apply Htake; try done.
    + apply (put_seg_but w1 a).
    + apply Hpart, put_seg_at.
  - eexists. split; [reflexivity|]. apply Htake; try done.
    destruct Hma as (seg' & H1 & H2 & H3 & _). by exists seg'.
Qed.

Definition init_taken (w : world) (a : Z) : res (option Z * world) :=
  seg ← deref (segs w !! a); seg ← init_segment seg i; Ok (Some a, put_seg w a seg).

(** An idle segment. *)
Lemma take_idle w sp phase a rest :
  pool_ok w sp -> pool_partial sp = [] -> pool_freelist (pool w) = a :: rest ->
  exists r, init_taken (set_pool (SegmentPool (subpools (pool w)) rest (pool_memory (pool w))) w) a = Ok r /\
    got_from_pool w sp phase r.
Proof.
  intros Hok Hpp Hfl. pose proof Hok as [Hsub _ _ Hf _ _ _]. rewrite Hfl in Hf. apply Forall_inv in Hf.
  destruct (init_idle w a Hf) as (seg & seg' & Hs & Hinit & Hpart). unfold init_taken.
  cbn [segs set_pool]. rewrite Hs. cbn [deref mbind res_bind]. rewrite Hinit. cbn [mbind res_bind].
  eexists. split; [reflexivity|]. apply (take_member _ _ _ sp _ (partial_marked sp ++ rest)); try done.
  - unfold pool_members. rewrite Hpp, Hfl. simpl. by rewrite <- Permutation_middle.
  - unfold pool_members. by rewrite Hpp.
  - exact (put_seg_but (set_pool _ w) a _).
  - apply Hpart, put_seg_at.
  - simpl. rewrite Hfl. by right.
Qed.

(** A segment of fresh memory. *)
Lemma take_fresh w sp phase :
  pool_ok w sp -> pool_freelist (pool w) = [] ->
  let m := pool_memory (pool w) in
  let a := mem_begin m + alloced m * SEGMENT_SIZE in
  exists r, init_taken (put_seg (set_pool (SegmentPool (subpools (pool w)) []
      (Memory (mem_begin m) (mem_count m) (alloced m + 1))) w) a fresh_segment) a = Ok r /\
    got_from_pool w sp phase r.
Proof.
  intros Hok Hfl m a. pose proof Hok as [Hsub _ _ _ [Hb1 Hb2] Hfr Hnd].
  assert (Hpos : 0 < SEGMENT_SIZE) by done.
  assert (Ha0 : aligned a).
  { destruct Hb1 as [Hb1 Hb1']. split; [unfold a, m; nia|]. unfold a. by rewrite Z.mod_add by lia. }
  unfold init_taken. match goal with |- context [deref (segs ?w0 !! a)] => set (w1 := w0) end.
  assert (Hs' : segs w1 !! a = Some fresh_segment) by apply put_seg_at.
  destruct (init_idle w1 a (fresh_segment_idle w1 a Ha0 Hs')) as (seg & seg' & Hs & Hinit & Hpart).
  rewrite Hs. cbn [deref mbind res_bind]. rewrite Hinit. cbn [mbind res_bind].
  eexists. split; [reflexivity|]. split; [done|]. split; [done|]. cbn [fst snd].
  assert (Hmem : forall b, b ∈ pool_members w sp -> b <> a).
  { intros b Hb ->. destruct (member_some _ _ _ Hok Hb) as [? Hsb]. unfold a in Hsb. by rewrite Hfr in Hsb. }
  assert (Hbut : segs_but w (put_seg w1 a seg') a).
  { intros b Hb. unfold w1. simpl. by rewrite !lookup_insert_ne by congruence. }
  assert (Hsame : pool_members (put_seg w1 a seg') sp = pool_members w sp) by (unfold pool_members; simpl; by rewrite Hfl).
  exists sp. split; [done|]. split; [apply Hpart, put_seg_at|].
  assert (Hnin : a ∉ pool_members (put_seg w1 a seg') sp) by (rewrite Hsame; intros Hin; by apply (Hmem a)).
  split; [|split; [done|split; [by rewrite Hsame|right; by apply Hfr]]].
  apply (pool_ok_take w (put_seg w1 a seg') a sp sp); try done.
  - rewrite Hfl. done.
  - by rewrite Hsame.
  - simpl. fold m. lia.
  - intros n Hn. simpl in Hn. fold m in Hn |- *. unfold a. nia.
Qed.

Lemma get_segment_from_pool_spec w sp phase : pool_ok w sp ->
  exists r, get_segment_from_pool w i phase = Ok r /\ got_from_pool w sp phase r.
Proof.
  intros Hok. unfold get_segment_from_pool.
  pose proof (lookup_lt_Some _ _ _ Hi) as Hlt. change (length the_layouts) with NUM_SUBHEAPS in Hlt.
  rewrite (proj2 (Nat.leb_le _ _)) by lia. cbn [assert_that mbind res_bind].
  rewrite (po_sub _ _ Hok). cbn [deref mbind res_bind].
  destruct (pool_partial sp) as [|a rest] eqn:Hpp; [|eexists; split; [reflexivity|by apply take_partial]].
  fold (look_at_marked phase).
  destruct (if look_at_marked phase then partial_marked sp else []) as [|a rest] eqn:Hmk.
  2:{ apply (take_marked _ _ _ _ _ Hok Hpp). by destruct (look_at_marked phase). }
  destruct (pool_freelist (pool w)) as [|a rest] eqn:Hfl; [|by apply take_idle].
  unfold allocate_segment. rewrite Z.ltb_irrefl.
  destruct (Z.leb_spec (mem_count (pool_memory (pool w))) (alloced (pool_memory (pool w)))).
  - eexists. split; [reflexivity|]. split; [done|]. split; [done|]. cbn [fst snd].
    split; [done|]. split; [done|]. split; [done|]. split; [|done]. intros Hlm. by rewrite Hlm in Hmk.
  - by apply take_fresh.
Qed.

(** *** Taking a segment *)
Lemma take_segment_spec w p a phase : ap_blocksize p = blocksize_bytes l -> partial_ok w i l a ->
  exists p1 w1 k p2, set_alloc_ptr w p a phase = Ok (p1, w1) /\ find_bitmap_ptr w1 p1 = Ok (Some k, p2) /\
    ptr_ok w1 i l p2 /\ ptr_seg p2 = [a] /\ avail_seg w l a = k :: avail_ptr w1 l p2 /\ avail_seg w1 l a = avail_seg w l a /\
    segs_but w w1 a /\ pool w1 = pool w /\ current_phase w1 = current_phase w.
Proof.
  intros Hbs Hpart. destruct (partial_not_nil w a Hpart) as [k Hk].
  destruct Hpart as (seg & Hseg & Hsnap & _). unfold set_alloc_ptr. rewrite (get_seg_ok _ _ _ Hseg).
  cbn [mbind res_bind]. rewrite Hbs, Hsnap, !Z.eqb_refl. cbn [assert_that mbind res_bind].
  set (w1 := if before_sync2 phase then _ else w). set (p1 := AllocPtr _ _ _).
  assert (Hseg1 : exists seg1, seg_at w1 i l a seg1 /\ words seg1 = words seg).
  { unfold w1. case_match; [|by exists seg]. eexists. split; [by apply seg_at_snapshot|done]. }
  destruct Hseg1 as (seg1 & Hseg1 & Hwords).
  assert (Hp1 : ptr_ok w1 i l p1).
  { split; [done|]. exists seg1, 0%nat. split; [done|]. split; [lia|]. split; [done|].
    unfold block_addr. cbn [ap_p p1]. lia. }
  assert (Hav : avail_ptr w1 l p1 = avail_seg w l a /\ avail_seg w1 l a = avail_seg w l a).
  { unfold avail_ptr, avail_seg. cbn [ap_b p1]. rewrite (proj1 Hseg1), (proj1 Hseg).
    rewrite BASE0, BITPTR_INDEX_BITPTR. by rewrite Hwords. }
  destruct (find_bitmap_ptr_spec w1 p1 Hp1) as (p2 & Hfind & Hp2 & Hav2 & Hps).
  rewrite (proj1 Hav), Hk in Hfind. exists p1, w1, k, p2. split; [done|]. split; [done|]. split; [done|].
  split; [by rewrite Hps|]. split; [|split; [apply Hav|]].
  { rewrite Hav2, (proj1 Hav). destruct (avail_seg w l a) as [|x xs]; [done|]. injection Hk as ->. done. }
  split; [unfold w1; case_match; [apply put_seg_but|done]|]. unfold w1. by case_match.
Qed.

(** *** The state of one subheap of a thread and its pool *)
Record alloc_ok (w : world) (h : heap) (p : alloc_ptr) (sh : subheap) (c : subheap_count) (sp : subpool) : Prop := {
  ao_ptr : hptr h !! i = Some p;
  ao_subheap : subheaps h !! i = Some sh;
  ao_count : count h !! i = Some c;
  ao_room : 0 <= extension_room c;
  ao_sub : sub_ok w i l p sh (freelist h);
  ao_pool : pool_ok w sp;
  ao_apart a : a ∈ ptr_seg p ++ filled sh ++ partial sh ++ freelist h -> a ∉ pool_members w sp
}.

(** What the subheap hands out before it asks for a new segment. *)
Definition available (w : world) (h : heap) : list Z :=
  match hptr h !! i, subheaps h !! i with
  | Some p, Some sh => avail w l p sh
  | _, _ => []
  end.

Definition heap_ok (w : world) (h : heap) : Prop := exists p sh c sp, alloc_ok w h p sh c sp.

Lemma pool_ok_frame w w' sp : pool w' = pool w -> (forall b, b ∈ pool_members w sp -> segs w' !! b = segs w !! b) ->
  (forall b, segs w !! b = None -> segs w' !! b = None) -> pool_ok w sp -> pool_ok w' sp.
Proof.
  intros Hpool Hsame Hnone [Hsub Hp Hm Hf Hb Hfr Hnd]. unfold pool_members in *.
  rewrite Forall_forall in Hp, Hm, Hf.
  split; rewrite ?Hpool; try done; try (apply Forall_forall; intros b Hin).
  - destruct (Hp b Hin) as (seg & (Hs & H1) & H2). exists seg. split; [|done]. split; [|done].
    rewrite Hsame; [done|]. rewrite elem_of_app. by left.
  - destruct (Hm b Hin) as (seg & (Hs & H1) & H2). exists seg. split; [|done]. split; [|done].
    rewrite Hsame; [done|]. rewrite !elem_of_app. right. by left.
  - destruct (Hf b Hin) as (H1 & seg & Hs & H2). split; [done|]. exists seg. split; [|done].
    rewrite Hsame; [done|]. rewrite !elem_of_app. by right; right.
  - intros n Hn. by apply Hnone, Hfr.
  - unfold pool_members. by rewrite Hpool.
Qed.

(** There is no segment to be had. *)
Definition no_segment (w : world) (h : heap) : Prop :=
  exists c sp, count h !! i = Some c /\ subpools (pool w) !! i = Some sp /\
    (extension_room c = 0 \/
     freelist h = [] /\ pool_partial sp = [] /\ pool_freelist (pool w) = [] /\
       mem_count (pool_memory (pool w)) <= alloced (pool_memory (pool w))).

(** What [try_find_segment] promises when the current segment is used up. *)
Definition found_segment (w : world) (h : heap) (r : option Z * heap * world) : Prop :=
  let '(k, h', w') := r in
  heap_ok w' h' /\ current_phase w' = current_phase w /\
  match available w h with
  | x :: rest => k = Some x /\ available w' h' = rest
  | [] =>
      match k with
      | Some x => exists a, x :: available w' h' = avail_seg w' l a
      | None => available w' h' = [] /\ no_segment w h
      end
  end.

Lemma avail_cleared w p sh : avail w l (clear_alloc_ptr p) sh = concat (map (avail_seg w l) (partial sh)).
Proof. done. Qed.

(** A segment [a] has been taken for a subheap without a current segment. *)
Record ready (w : world) (h : heap) (sh : subheap) (c : subheap_count) (sp : subpool) (a : Z) : Prop := {
  rd_ptr : (i < length (hptr h))%nat;
  rd_subheap : subheaps h !! i = Some sh;
  rd_count : count h !! i = Some c;
  rd_room : 0 <= extension_room c;
  rd_filled : Forall (fun a => exists seg, seg_at w i l a seg) (filled sh);
  rd_partial : Forall (partial_ok w i l) (partial sh);
  rd_free : Forall (idle_at w) (freelist h);
  rd_segment : partial_ok w i l a;
  rd_nodup : NoDup (a :: filled sh ++ partial sh ++ freelist h);
  rd_pool : pool_ok w sp;
  rd_apart b : b ∈ a :: filled sh ++ partial sh ++ freelist h -> b ∉ pool_members w sp
}.

Lemma find_in_segment w h p sh c sp a phase : ready w h sh c sp a -> ap_blocksize p = blocksize_bytes l ->
  exists k h' w',
    ('(p, w) ← set_alloc_ptr w p a phase;
     '(obj, p) ← find_bitmap_ptr w p;
     assert_that (bool_decide (obj <> None));;
     Ok (obj, set_ptr i p h, w)) = Ok (Some k, h', w') /\
    heap_ok w' h' /\ current_phase w' = current_phase w /\ avail_seg w' l a = avail_seg w l a /\
    k :: available w' h' = avail_seg w l a ++ concat (map (avail_seg w l) (partial sh)).
Proof.
  intros [Hp Hsh Hc Hroom Hfill Hpart Hfree Hpa Hnd Hpool Hapart] Hbs.
  destruct (take_segment_spec w p a phase Hbs Hpa) as
    (p1 & w1 & k & p2 & Hset & Hfind & Hok & Hps & Hav & Hav1 & Hbut & Hw1 & Hph).
  rewrite Hset. cbn [mbind res_bind]. rewrite Hfind. cbn [mbind res_bind].
  rewrite bool_decide_true by done. cbn [assert_that mbind res_bind].
  eexists _, _, _. split; [reflexivity|].
  pose proof (proj1 (proj1 (NoDup_cons _ _) Hnd)) as Ha.
  rewrite !not_elem_of_app in Ha. destruct Ha as (Haf & Hap & Hal).
  assert (Hptr : hptr (set_ptr i p2 h) !! i = Some p2) by (by apply list_lookup_insert_eq).
  split; [|split; [done|split; [done|]]].
  - exists p2, sh, c, sp. split; [done..| | |].
    + split; [done|by apply (filled_but w w1 a Hbut)|by apply (partial_but w w1 a Hbut)|
        by apply (idle_but w w1 a Hbut)|by rewrite Hps].
    + apply (pool_ok_frame w w1 sp Hw1); [| |done].
      * intros b Hb. apply Hbut. intros ->. apply (Hapart a); [by left|done].
      * intros b Hb. rewrite Hbut; [done|]. intros ->. destruct Hpa as (seg & (Hs & _) & _). congruence.
    + intros b Hb. unfold pool_members. rewrite Hw1. apply Hapart. by rewrite Hps in Hb.
  - unfold available. rewrite Hptr. cbn [subheaps set_ptr]. rewrite Hsh.
    unfold avail. rewrite (avail_segs_but w w1 a Hbut) by done. by rewrite Hav.
Qed.

Lemma in_seg_some w a seg : seg_at w i l a seg -> segs w !! a <> None.
Proof. intros (Hs & _). congruence. Qed.

(** Without a segment at hand the subheap stays usable, and empty. *)
Lemma nothing_found w h p sh c sp : alloc_ok w h (clear_alloc_ptr p) sh c sp -> partial sh = [] ->
  heap_ok w h /\ available w h = [].
Proof.
  intros Hok Hpart. split; [by eexists _, _, _, _|]. unfold available.
  rewrite (ao_ptr _ _ _ _ _ _ Hok), (ao_subheap _ _ _ _ _ _ Hok), avail_cleared, Hpart. done.
Qed.

Definition try_result (w : world) (h : heap) (sh : subheap) (r : option Z * heap * world) : Prop :=
  let '(k, h', w') := r in
  current_phase w' = current_phase w /\
  match k with
  | Some a => exists sh' c' sp', ready w' h' sh' c' sp' a /\
      match partial sh with
      | b :: rest => a = b /\ partial sh' = rest /\ w' = w
      | [] => partial sh' = []
      end
  | None => partial sh = [] /\ heap_ok w' h' /\ available w' h' = [] /\ no_segment w h
  end.

(** The first partial segment of the thread. *)
Lemma ready_partial w h p sh c sp a rest :
  alloc_ok w h (clear_alloc_ptr p) sh c sp -> partial sh = a :: rest ->
  ready w (set_subheap i (Subheap (filled sh) rest) h) (Subheap (filled sh) rest) c sp a.
Proof.
  intros [Hp Hsh Hc Hroom [Hptr Hfill Hpart Hfree Hnd] Hpool Hapart] Hps.
  cbn [ptr_seg clear_alloc_ptr ap_b app] in Hnd, Hapart. rewrite Hps in Hpart, Hnd, Hapart.
  apply lookup_lt_Some in Hp. pose proof (lookup_lt_Some _ _ _ Hsh) as Hls.
  apply Forall_cons in Hpart as [Hpa Hpart].
  assert (Hperm : filled sh ++ (a :: rest) ++ freelist h ≡ₚ a :: filled sh ++ rest ++ freelist h)
    by (simpl; symmetry; apply Permutation_middle).
  split; try done.
  - simpl. by apply list_lookup_insert_eq.
  - simpl. by rewrite <- Hperm.
  - intros b Hb. apply Hapart. by rewrite Hperm.
Qed.

Definition use_room (c : subheap_count) (h : heap) : heap :=
  if 0 <? extension_room c then set_count i (SubheapCount (threshold c) (extension_room c - 1)) h else h.

(** Any other segment [a]: the room for extensions becomes smaller. *)
Lemma ready_other w h p sh c sp w' fl a sp' :
  alloc_ok w h (clear_alloc_ptr p) sh c sp -> partial sh = [] -> extension_room c <> 0 ->
  fl ⊆ freelist h -> NoDup fl -> a ∉ filled sh ++ fl ->
  segs_but w w' a -> partial_ok w' i l a -> pool_ok w' sp' ->
  a ∉ pool_members w' sp' -> pool_members w' sp' ⊆ pool_members w sp ->
  ready w' (use_room c (set_freelist fl h)) sh (SubheapCount (threshold c) (extension_room c - 1)) sp' a.
Proof.
  intros [Hp Hsh Hc Hroom [Hptr Hfill Hpart Hfree Hnd] Hpool Hapart] Hps Hr0 Hsub Hndf Ha Hbut Hpa Hpool' Hnp Hps'.
  cbn [ptr_seg clear_alloc_ptr ap_b app] in Hnd, Hapart. rewrite Hps in Hnd, Hapart.
  apply lookup_lt_Some in Hp. pose proof (lookup_lt_Some _ _ _ Hc) as Hlc.
  rewrite not_elem_of_app in Ha. destruct Ha as [Haf Hal]. apply NoDup_app in Hnd as (Hndfill & Hnd1 & _).
  unfold use_room. rewrite (proj2 (Z.ltb_lt _ _)) by lia. split; simpl; rewrite ?Hps; try done.
  - by apply list_lookup_insert_eq.
  - lia.
  - by apply (filled_but w w' a Hbut).
  - apply (idle_but w w' a Hbut); [done|]. by eapply Forall_subset.
  - constructor; [by rewrite not_elem_of_app|]. apply NoDup_app. split; [done|]. split; [|done].
    intros x Hx Hx'. by apply (Hnd1 x Hx), Hsub.
  - intros b [->|Hb]%elem_of_cons; [done|]. intros Hin%Hps'. revert Hin.
    apply Hapart. simpl. rewrite !elem_of_app in Hb |- *. destruct Hb; [by left|right; by apply Hsub].
Qed.

(** An idle segment of the thread. *)
Lemma next_idle w h p sh c sp a rest :
  alloc_ok w h (clear_alloc_ptr p) sh c sp -> partial sh = [] -> extension_room c <> 0 -> freelist h = a :: rest ->
  exists seg seg', segs w !! a = Some seg /\ init_segment seg i = Ok seg' /\
    ready (put_seg w a seg') (use_room c (set_freelist rest h)) sh
      (SubheapCount (threshold c) (extension_room c - 1)) sp a.
Proof.
  intros Hao Hps Hr0 Hfl. pose proof Hao as [_ _ _ _ [_ _ _ Hfree Hnd] Hpool Hapart].
  cbn [ptr_seg clear_alloc_ptr ap_b app] in Hnd, Hapart. rewrite Hps, Hfl in Hnd, Hapart. rewrite Hfl in Hfree.
  destruct (init_idle w a (Forall_inv Hfree)) as (seg & seg' & Hs & Hinit & Hpa).
  exists seg, seg'. split; [done|]. split; [done|]. cbn [app] in Hnd, Hapart.
  assert (Hperm : filled sh ++ a :: rest ≡ₚ a :: filled sh ++ rest) by (symmetry; apply Permutation_middle).
  assert (Hnp : a ∉ pool_members w sp) by (apply Hapart; rewrite Hperm; by left).
  rewrite Hperm in Hnd. apply NoDup_cons in Hnd as [Ha Hnd].
  eapply ready_other; try done.
  - rewrite Hfl. intros x Hx. by right.
  - by apply NoDup_app in Hnd as (_ & _ & ?).
  - apply put_seg_but.
  - apply Hpa, put_seg_at.
  - apply (pool_ok_frame w (put_seg w a seg') sp eq_refl); [| |done].
    + intros b Hb. apply put_seg_but. by intros ->.
    + intros b Hb. rewrite put_seg_but; [done|]. intros ->. congruence.
Qed.

Lemma next_segment_spec w h p sh c sp phase : alloc_ok w h (clear_alloc_ptr p) sh c sp ->
  exists r, next_segment w h i sh c phase = Ok r /\ try_result w h sh r.
Proof.
  intros Hao. pose proof Hao as [_ _ _ _ [_ Hfill _ _ _] Hpool Hapart].
  unfold next_segment. destruct (partial sh) as [|a rest] eqn:Hps.
  2:{ eexists. split; [reflexivity|]. split; [done|]. rewrite Hps.
      exists (Subheap (filled sh) rest), c, sp. split; [|done]. by eapply ready_partial. }
  destruct (nothing_found w h p sh c sp Hao Hps) as [Hok Hav].
  assert (Hnone : no_segment w h -> try_result w h sh (None, h, w)) by (by intros Hno; split).
  destruct (Z.eqb_spec (extension_room c) 0) as [Hr0|Hr0].
  { eexists. split; [reflexivity|]. apply Hnone. exists c, sp.
    split; [apply Hao|]. split; [apply Hpool|by left]. }
  destruct (freelist h) as [|a rest] eqn:Hfl.
  - destruct (get_segment_from_pool_spec w sp phase Hpool) as ([[a|] w'] & Hget & Hph & _ & Hr);
      rewrite Hget; cbn [mbind res_bind fst snd] in Hph, Hr |- *.
    + destruct Hr as (sp' & Hbut & Hpa & Hpool' & Hnin & Hsub & Hfrom). fold (use_room c h).
      eexists. split; [reflexivity|]. split; [done|]. rewrite Hps. eexists sh, _, sp'. split; [|done].
      replace h with (set_freelist [] h) at 1 by (destruct h; simpl in *; by subst).
      eapply ready_other; try done; [by intros x ?%elem_of_nil|constructor|]. rewrite app_nil_r. intros Ha. destruct Hfrom as [Hin|Hnone'].
      * apply (Hapart a); [|done]. simpl. apply elem_of_app. by left.
      * rewrite Forall_forall in Hfill. destruct (Hfill a Ha) as [seg Hseg]. by apply (in_seg_some _ _ _ Hseg).
    + destruct Hr as (-> & Hn1 & Hn2 & _ & Hn3). eexists. split; [reflexivity|]. apply Hnone.
      exists c, sp. split; [apply Hao|]. split; [apply Hpool|by right].
  - destruct (next_idle w h p sh c sp a rest Hao Hps Hr0 Hfl) as (seg & seg' & Hs & Hinit & Hrd).
    rewrite Hs. cbn [deref mbind res_bind]. rewrite Hinit. cbn [mbind res_bind].
    eexists. split; [reflexivity|]. split; [done|]. rewrite Hps. by eexists sh, _, sp.
Qed.

Lemma try_find_segment_spec w h phase p : heap_ok w h -> hptr h !! i = Some p -> avail_ptr w l p = [] ->
  exists r, try_find_segment w h i phase = Ok r /\ found_segment w h r.
Proof.
  intros (p' & sh & c & sp & Hao) Hp Havp. pose proof Hao as [Hp' Hsh Hc Hroom Hsub Hpool Hapart].
  rewrite Hp' in Hp. injection Hp as ->. unfold try_find_segment. rewrite Hp', Hsh, Hc. cbn [deref mbind res_bind].
  destruct (release_current_spec w p sh c (freelist h) phase Hsub) as (c1 & w1 & Hrel & Hsub1 & Hav1 & Hr1 & Hp1 & Hph1 & Hseg1).
  rewrite Hrel. cbn [mbind res_bind].
  set (sh1 := Subheap _ _) in *. set (h1 := set_count _ _ _).
  pose proof (lookup_lt_Some _ _ _ Hp') as Hlp. pose proof (lookup_lt_Some _ _ _ Hsh) as Hls.
  pose proof (lookup_lt_Some _ _ _ Hc) as Hlc.
  assert (Hcur : forall b, b ∈ ptr_seg p -> segs w !! b <> None /\ b ∉ pool_members w sp).
  { intros b Hb. split; [|apply Hapart; rewrite elem_of_app; by left].
    destruct (sub_ptr _ _ _ _ _ _ Hsub) as [_ Hpp]. unfold ptr_seg in Hb. destruct (ap_b p) as [[a0 ?]|]; [|by apply elem_of_nil in Hb].
    apply list_elem_of_singleton in Hb as ->. destruct Hpp as (seg & n & Hseg & _). by apply (in_seg_some _ _ _ Hseg). }
  assert (Hao1 : alloc_ok w1 h1 (clear_alloc_ptr p) sh1 c1 sp).
  { split; try (by apply list_lookup_insert_eq).
    - lia.
    - exact Hsub1.
    - apply (pool_ok_frame w w1 sp Hp1); [| |done]; intros b Hb.
      + apply Hseg1. intros Hin. by apply (Hcur b Hin).
      + destruct (decide (b ∈ ptr_seg p)) as [Hin|]; [by destruct (Hcur b Hin)|by rewrite Hseg1].
    - intros b Hb. unfold pool_members. rewrite Hp1. apply Hapart.
      cbn [ptr_seg clear_alloc_ptr ap_b app filled partial sh1 h1 freelist set_count set_subheap set_ptr] in Hb.
      by rewrite <- !app_assoc in Hb. }
  assert (Have : available w h = concat (map (avail_seg w1 l) (partial sh1))).
  { unfold available. rewrite Hp', Hsh. unfold avail. rewrite Havp. simpl. by rewrite Hav1. }
  destruct (next_segment_spec w1 h1 p sh1 c1 sp phase Hao1) as ([[found h2] w2] & Hnext & Hph2 & Hres).
  rewrite Hnext. cbn [mbind res_bind]. destruct found as [a|].
  - destruct Hres as (sh2 & c2 & sp2 & Hrd & Hfrom).
    destruct (find_in_segment w2 h2 (clear_alloc_ptr p) sh2 c2 sp2 a phase Hrd) as (k & h3 & w3 & Hrun & Hok3 & Hph3 & Hav3 & Hk).
    { apply (sub_ptr _ _ _ _ _ _ Hsub). }
    rewrite Hrun. eexists. split; [reflexivity|]. split; [done|]. split; [congruence|].
    destruct (partial sh1) as [|b rest] eqn:Hps.
    + rewrite Have. simpl. exists a. rewrite Hav3, Hk, Hfrom. by rewrite app_nil_r.
    + destruct Hfrom as (-> & Hrest & ->). rewrite Have. simpl. rewrite Hrest in Hk. rewrite <- Hk. done.
  - destruct Hres as (Hps & Hok2 & Hav2 & c' & sp' & Hc' & Hsp' & Hno). eexists. split; [reflexivity|]. split; [done|].
    split; [congruence|]. rewrite Have, Hps. split; [done|]. exists c, sp'. rewrite <- Hp1. split; [done|]. split; [done|].
    assert (c' = c1) as ->.
    { enough (Some c' = Some c1) by congruence. rewrite <- Hc'. by apply list_lookup_insert_eq. }
    rewrite <- Hr1. exact Hno.
Qed.

(** *** Allocation *)
Lemma set_ptr_ok w h p sh c sp p' : alloc_ok w h p sh c sp -> ptr_ok w i l p' -> ptr_seg p' = ptr_seg p ->
  alloc_ok w (set_ptr i p' h) p' sh c sp.
Proof.
  intros [Hp Hsh Hc Hroom [Hptr Hfill Hpart Hfree Hnd] Hpool Hapart] Hok Hps.
  pose proof (lookup_lt_Some _ _ _ Hp). split; try done.
  - by apply list_lookup_insert_eq.
  - split; try done. by rewrite Hps.
  - by rewrite Hps.
Qed.

(** The fast path: the current segment has a free block. *)
Lemma alloc_fast w h : heap_ok w h ->
  exists p p', hptr h !! i = Some p /\
    alloc_in_segment w p = Ok (head (avail_ptr w l p), p') /\ heap_ok w (set_ptr i p' h) /\
    hptr (set_ptr i p' h) !! i = Some p' /\ avail_ptr w l p' = tail (avail_ptr w l p) /\
    (avail_ptr w l p = [] -> available w (set_ptr i p' h) = available w h) /\
    (forall k ks, avail_ptr w l p = k :: ks ->
       available w h = k :: available w (set_ptr i p' h)).
Proof.
  intros (p & sh & c & sp & Hao). exists p.
  destruct (alloc_in_segment_spec w p (sub_ptr _ _ _ _ _ _ (ao_sub _ _ _ _ _ _ Hao))) as (p' & Hrun & Hok & Hav & Hps).
  pose proof (set_ptr_ok w h p sh c sp p' Hao Hok Hps) as Hao'. exists p'.
  split; [apply Hao|]. split; [done|]. split; [by eexists _, _, _, _|]. split; [apply Hao'|]. split; [done|].
  unfold available. rewrite (ao_ptr _ _ _ _ _ _ Hao), (ao_subheap _ _ _ _ _ _ Hao).
  rewrite (ao_ptr _ _ _ _ _ _ Hao'), (ao_subheap _ _ _ _ _ _ Hao'). unfold avail. rewrite Hav.
  split; [by intros ->|]. by intros k ks ->.
Qed.

(** *** The addresses *)
Lemma free_block_in ws n k : k ∈ free_blocks l ws n -> (n <= k < blocks l)%nat /\ bits ws 8 k = false.
Proof. unfold free_blocks. rewrite list_elem_of_filter, elem_of_seq. intros [? ?]. split; [lia|done]. Qed.

Lemma blocks_fit k : (k < blocks l)%nat ->
  OBJ_HEADER_SIZE <= BLOCK_BASE l + Z.of_nat k * blocksize_bytes l /\
  BLOCK_BASE l + Z.of_nat k * blocksize_bytes l + blocksize_bytes l <= SEGMENT_SIZE.
Proof.
  intros Hk. pose proof (lo_limit _ Hl) as [Hlim Hle]. pose proof blocksize_pos. pose proof (lo_pos _ Hl).
  pose proof (lo_stack_end _ Hl). pose proof (lo_stack _ Hl). pose proof (lo_zerofill _ Hl).
  unfold blocks in Hk. unfold BLOCK_BASE in *. assert (Z.of_nat k + 1 <= num_blocks l) by lia.
  assert ((Z.of_nat k + 1) * blocksize_bytes l <= num_blocks l * blocksize_bytes l) by nia.
  split; [unfold OBJ_HEADER_SIZE in *; nia|lia].
Qed.

Lemma segment_addr_block a k : aligned a -> (k < blocks l)%nat -> segment_addr (block_addr l a k) = a.
Proof.
  intros [Ha Hmod] Hk. destruct (blocks_fit k Hk) as [H1 H2]. pose proof blocksize_pos.
  unfold segment_addr, block_addr. unfold OBJ_HEADER_SIZE in H1.
  assert (SEGMENT_SIZE = 2 ^ 15) as Hs by done. rewrite Hs in *.
  rewrite <- Z.ldiff_land. change (2 ^ 15 - 1) with (Z.ones 15).
  rewrite Z.ldiff_ones_r, Z.shiftl_mul_pow2, Z.shiftr_div_pow2 by lia.
  apply Z.mod_divide in Hmod as [q ->]; [|lia].
  replace (q * 2 ^ 15 + BLOCK_BASE l + Z.of_nat k * blocksize_bytes l)
    with ((BLOCK_BASE l + Z.of_nat k * blocksize_bytes l) + q * 2 ^ 15) by lia.
  rewrite Z.div_add, Z.div_small by lia. lia.
Qed.

Lemma block_addr_inj a b j k : aligned a -> aligned b -> (j < blocks l)%nat -> (k < blocks l)%nat ->
  block_addr l a j = block_addr l b k -> a = b /\ j = k.
Proof.
  intros Ha Hb Hj Hk Heq. assert (a = b) as <-.
  { rewrite <- (segment_addr_block a j), <- (segment_addr_block b k) by done. by rewrite Heq. }
  split; [done|]. unfold block_addr in Heq. pose proof blocksize_pos. nia.
Qed.

(** Two blocks do not overlap. *)
Lemma block_addr_apart a b j k : aligned a -> aligned b -> (j < blocks l)%nat -> (k < blocks l)%nat ->
  block_addr l a j <> block_addr l b k -> blocksize_bytes l <= Z.abs (block_addr l a j - block_addr l b k).
Proof.
  intros [Ha Hma] [Hb Hmb] Hj Hk Hne. destruct (blocks_fit j Hj), (blocks_fit k Hk). pose proof blocksize_pos.
  unfold block_addr in *. destruct (Z.eq_dec a b) as [<-|Hab].
  - assert (j <> k) by (by intros ->). nia.
  - assert (HS : 0 < SEGMENT_SIZE) by done.
    apply Z.mod_divide in Hma as [q ->]; [|lia]. apply Z.mod_divide in Hmb as [r ->]; [|lia].
    unfold OBJ_HEADER_SIZE in *. assert (BLOCK_BASE l >= 0) by (pose proof block_base_pos; lia).
    assert (q <= r - 1 \/ r <= q - 1) as [?|?] by nia; nia.
Qed.

(** A block that may be handed out. *)
Definition free_block (w : world) (k : Z) : Prop :=
  exists a j seg, k = block_addr l a j /\ seg_at w i l a seg /\ (j < blocks l)%nat /\ bits (words seg) 8 j = false.

Lemma avail_seg_in w a k : partial_ok w i l a -> k ∈ avail_seg w l a ->
  free_block w k /\ segment_addr k = a.
Proof.
  intros (seg & Hseg & _) Hk. unfold avail_seg in Hk. rewrite (proj1 Hseg) in Hk.
  apply list_elem_of_In, in_map_iff in Hk as (j & <- & Hj%list_elem_of_In). apply free_block_in in Hj as [Hj Hb].
  split; [by exists a, j, seg; split; [done|split; [done|split; [lia|done]]]|].
  apply segment_addr_block; [apply Hseg|lia].
Qed.

Lemma avail_ptr_in w p k : ptr_ok w i l p -> k ∈ avail_ptr w l p ->
  free_block w k /\ ptr_seg p = [segment_addr k].
Proof.
  intros [_ Hp] Hk. unfold avail_ptr, ptr_seg in *. destruct (ap_b p) as [[a b]|]; [|by apply elem_of_nil in Hk].
  destruct Hp as (seg & n & Hseg & Hn & -> & _). rewrite (proj1 Hseg), BITPTR_INDEX_BITPTR in Hk.
  apply list_elem_of_In, in_map_iff in Hk as (j & <- & Hj%list_elem_of_In). apply free_block_in in Hj as [Hj Hb].
  split; [by exists a, j, seg; split; [done|split; [done|split; [lia|done]]]|].
  by rewrite segment_addr_block by (apply Hseg || lia).
Qed.

Lemma available_in w h k : heap_ok w h -> k ∈ available w h -> free_block w k.
Proof.
  intros (p & sh & c & sp & Hao) Hk. unfold available in Hk.
  rewrite (ao_ptr _ _ _ _ _ _ Hao), (ao_subheap _ _ _ _ _ _ Hao) in Hk.
  destruct (ao_sub _ _ _ _ _ _ Hao) as [Hptr _ Hpart _ _]. apply elem_of_app in Hk as [Hk|Hk].
  - by eapply avail_ptr_in.
  - apply list_elem_of_In, in_concat in Hk as (ks & (a & <- & Ha)%in_map_iff & Hk).
    rewrite Forall_forall in Hpart. apply list_elem_of_In in Ha, Hk. by eapply avail_seg_in; [apply Hpart|].
Qed.

Lemma blocks_nodup a js : aligned a -> NoDup js -> Forall (fun j => j < blocks l)%nat js ->
  NoDup (map (block_addr l a) js).
Proof.
  intros Ha Hnd. induction Hnd as [|j js Hj Hnd IH]; intros Hlt; [constructor|].
  apply Forall_cons in Hlt as [Hj' Hlt]. simpl. constructor; [|by apply IH].
  intros Hin.
  apply list_elem_of_In, in_map_iff in Hin as (j2 & Heq & Hj2%list_elem_of_In).
  rewrite Forall_forall in Hlt. apply block_addr_inj in Heq as [_ ->]; try done. by apply Hlt.
Qed.

Lemma free_blocks_nodup ws n : NoDup (free_blocks l ws n) /\ Forall (fun j => j < blocks l)%nat (free_blocks l ws n).
Proof.
  split; [apply NoDup_filter, NoDup_seq|]. apply Forall_forall. intros j [? _]%free_block_in. lia.
Qed.

Lemma avail_segs_nodup w bs : Forall (partial_ok w i l) bs -> NoDup bs ->
  NoDup (concat (map (avail_seg w l) bs)) /\
  forall k, k ∈ concat (map (avail_seg w l) bs) -> segment_addr k ∈ bs.
Proof.
  intros Hpart Hnd. induction Hnd as [|a bs Ha Hnd IH]; [split; [constructor|]; intros k Hk; by apply elem_of_nil in Hk|].
  apply Forall_cons in Hpart as [Hpa Hpart]. destruct (IH Hpart) as [IH1 IH2]. simpl. split.
  - apply NoDup_app. split; [|split; [|done]].
    + destruct Hpa as (seg & Hseg & _). unfold avail_seg. rewrite (proj1 Hseg).
      apply blocks_nodup; [apply Hseg|apply free_blocks_nodup..].
    + intros k Hk Hin. apply (avail_seg_in w a k Hpa) in Hk as [_ Hk]. apply Ha. rewrite <- Hk. by apply IH2.
  - intros k [Hk|Hk]%elem_of_app; [|right; by apply IH2].
    apply (avail_seg_in w a k Hpa) in Hk as [_ ->]. by left.
Qed.

Lemma available_nodup w h : heap_ok w h -> NoDup (available w h).
Proof.
  intros (p & sh & c & sp & Hao). unfold available.
  rewrite (ao_ptr _ _ _ _ _ _ Hao), (ao_subheap _ _ _ _ _ _ Hao).
  destruct (ao_sub _ _ _ _ _ _ Hao) as [Hptr _ Hpart _ Hnd].
  apply NoDup_app in Hnd as (_ & Hdis & Hnd). apply NoDup_app in Hnd as (_ & _ & Hnd).
  apply NoDup_app in Hnd as (Hnd & _ & _).
  destruct (avail_segs_nodup w (partial sh) Hpart Hnd) as [H1 H2]. apply NoDup_app. split; [|split; [|done]].
  - unfold avail_ptr. destruct Hptr as [_ Hp]. destruct (ap_b p) as [[a b]|]; [|constructor].
    destruct Hp as (seg & n & Hseg & _). rewrite (proj1 Hseg).
    apply blocks_nodup; [apply Hseg|apply free_blocks_nodup..].
  - intros k Hk Hin%H2. apply (avail_ptr_in w p k Hptr) in Hk as [_ Hk].
    apply (Hdis (segment_addr k)); [rewrite Hk; by left|]. rewrite !elem_of_app. right. by left.
Qed.
End Facts.
