(* ===== verification/AllocThms.v ===== *)
(** * Allocation: the theorems

    What the layouts, the segments and the allocator of
    src/src/runtime/heap_concurrent.c promise. *)
From Stdlib Require Import ZArith Lia.
From stdpp Require Import base option list gmap.
From S2P Require Import Prelude Bits Layout Segment SegmentFacts Alloc AllocFacts.

Local Open Scope Z_scope.

(** ** The block size for an object *)
Lemma the_layouts_length : length the_layouts = NUM_SUBHEAPS.
Proof. done. Qed.

Lemma layout_of_index i : (i < NUM_SUBHEAPS)%nat -> exists l, the_layouts !! i = Some l.
Proof. intros Hi. apply lookup_lt_is_Some. by rewrite the_layouts_length. Qed.

Lemma alloc_size_bounds objsize : 0 <= objsize <= BLOCKSIZE_MAX - OBJ_HEADER_SIZE ->
  let s := CEILING (OBJ_HEADER_SIZE + objsize) BLOCKSIZE_MIN in
  OBJ_HEADER_SIZE + objsize <= s < OBJ_HEADER_SIZE + objsize + 8 /\ 8 <= s <= 4096.
Proof.
  intros H. change BLOCKSIZE_MAX with 4096 in H. change OBJ_HEADER_SIZE with 4 in *.
  destruct (CEILING_spec (4 + objsize) BLOCKSIZE_MIN) as (k & Hk & Hb); [done|].
  change BLOCKSIZE_MIN with 8 in *. cbn zeta. rewrite Hk in *. split; [lia|]. split; lia.
Qed.

(** [sml_alloc] picks the smallest blocks in which the object and its header fit. *)
Lemma subheap_index_spec objsize : 0 <= objsize <= BLOCKSIZE_MAX - OBJ_HEADER_SIZE ->
  exists i l, subheap_index_of objsize = Ok i /\ the_layouts !! i = Some l /\
    OBJ_HEADER_SIZE + objsize <= blocksize_bytes l /\
    forall j lj, the_layouts !! j = Some lj -> OBJ_HEADER_SIZE + objsize <= blocksize_bytes lj -> (i <= j)%nat.
Proof.
  intros H. pose proof (alloc_size_bounds objsize H) as [Hs Hb]. unfold subheap_index_of.
  set (s := CEILING _ _) in *. pose proof (CEIL_LOG2_spec s ltac:(lia)) as [Hlo Hhi].
  set (e := CEIL_LOG2 s) in *.
  assert (He : 3 <= e <= 12).
  { split.
    - destruct (Z.le_gt_cases 3 e) as [|Hlt]; [done|]. exfalso.
      assert (2 ^ e < 2 ^ 3) by (apply Z.pow_lt_mono_r; lia). lia.
    - destruct (Z.le_gt_cases e 12) as [|Hgt]; [done|]. exfalso.
      assert (2 ^ 12 <= 2 ^ (e - 1)) by (apply Z.pow_le_mono_r; lia). lia. }
  change BLOCKSIZE_MIN_LOG2 with 3. change BLOCKSIZE_MAX_LOG2 with 12.
  rewrite (proj2 (Z.leb_le 3 e)), (proj2 (Z.leb_le e 12)) by lia. cbn [andb assert_that mbind res_bind].
  destruct (layout_of_index (Z.to_nat (e - 3))) as [l Hl]; [change NUM_SUBHEAPS with 10%nat; lia|].
  exists (Z.to_nat (e - 3)), l. split; [done|]. split; [done|].
  pose proof (layout_log2 _ _ Hl) as Hlog. change BLOCKSIZE_MIN_LOG2 with 3 in Hlog.
  pose proof (proj1 (lo_blocksize _ (layouts_ok _ _ Hl))) as Hbl.
  assert (blocksize_log2 l = e) as Hle by lia. rewrite Hle in Hbl. split; [lia|].
  intros j lj Hj Hfit. pose proof (layout_log2 _ _ Hj) as Hlogj. change BLOCKSIZE_MIN_LOG2 with 3 in Hlogj.
  pose proof (proj1 (lo_blocksize _ (layouts_ok _ _ Hj))) as Hblj.
  destruct (Nat.le_gt_cases (Z.to_nat (e - 3)) j) as [|Hgt]; [done|]. exfalso.
  assert (Hpw : 2 ^ blocksize_log2 lj <= 2 ^ (e - 1)) by (apply Z.pow_le_mono_r; lia).
  (* the alloc size is a multiple of 8 above a smaller power of two *)
  destruct (CEILING_spec (OBJ_HEADER_SIZE + objsize) BLOCKSIZE_MIN) as (k & Hk & _); [done|].
  fold s in Hk. change BLOCKSIZE_MIN with 8 in Hk.
  assert (Hpe : 2 ^ (e - 1) = 8 * 2 ^ (e - 4)).
  { replace (e - 1) with (3 + (e - 4)) by lia. rewrite Z.pow_add_r by lia. done. }
  nia.
Qed.

(** ** Many allocations *)
Fixpoint alloc_all (check wait_gc : world * heap -> world * heap) (w : world) (h : heap) (sizes : list Z)
  : res (list Z * heap * world) :=
  match sizes with
  | [] => Ok ([], h, w)
  | size :: sizes =>
      '(k, h, w) ← sml_alloc_small check wait_gc w h size;
      '(ks, h, w) ← alloc_all check wait_gc w h sizes;
      Ok (k :: ks, h, w)
  end.

Section Alloc.
Context (i : nat) (l : segment_layout) (Hi : the_layouts !! i = Some l).

Lemma alloc_pops check wait_gc w h objsize k ks :
  subheap_index_of objsize = Ok i -> (forall s, check s = s) -> heap_ok i l w h -> available i l w h = k :: ks ->
  exists h' w', sml_alloc_small check wait_gc w h objsize = Ok (k, h', w') /\ heap_ok i l w' h' /\
    available i l w' h' = ks /\ current_phase w' = current_phase w.
Proof.
  intros Hidx Hcheck Hok Hav. unfold sml_alloc_small. rewrite Hidx. cbn [mbind res_bind].
  destruct (alloc_fast i l Hi w h Hok) as (p & p' & Hp & Hrun & Hok' & Hp' & Hav' & Hnone & Hsome).
  rewrite Hp. cbn [deref mbind res_bind]. rewrite Hrun. cbn [mbind res_bind].
  destruct (avail_ptr w l p) as [|x xs] eqn:Hx; cbn [head].
  - unfold find_segment. rewrite Hcheck.
    destruct (try_find_segment_spec i l Hi w _ (current_phase w) p' Hok' Hp' Hav') as ([[r h2] w2] & Htry & Hok2 & Hph & Hr).
    rewrite Htry. cbn [mbind res_bind]. rewrite Hnone, Hav in Hr by done. destruct Hr as [-> Hr].
    eexists _, _. by split.
  - rewrite (Hsome x xs eq_refl) in Hav. injection Hav as -> Hks.
    eexists _, _. by split.
Qed.

Lemma alloc_all_pops check wait_gc sizes : forall w h,
  Forall (fun size => subheap_index_of size = Ok i) sizes -> (forall s, check s = s) -> heap_ok i l w h ->
  (length sizes <= length (available i l w h))%nat ->
  exists h' w', alloc_all check wait_gc w h sizes = Ok (take (length sizes) (available i l w h), h', w') /\
    heap_ok i l w' h' /\ available i l w' h' = drop (length sizes) (available i l w h).
Proof.
  induction sizes as [|size sizes IH]; intros w h Hs Hcheck Hok Hlen; cbn [alloc_all length].
  - eexists _, _. split; [reflexivity|]. by rewrite drop_0.
  - apply Forall_cons in Hs as [Hsz Hs]. destruct (available i l w h) as [|k ks] eqn:Hav; [simpl in Hlen; lia|].
    destruct (alloc_pops check wait_gc w h size k ks Hsz Hcheck Hok Hav) as (h1 & w1 & Hrun & Hok1 & Hav1 & _).
    rewrite Hrun. cbn [mbind res_bind].
    destruct (IH w1 h1) as (h2 & w2 & Hrun2 & Hok2 & Hav2); [done|done|done|rewrite Hav1; simpl in Hlen; lia|].
    rewrite Hrun2. cbn [mbind res_bind]. eexists _, _. split; [by rewrite Hav1|]. split; [done|]. by rewrite Hav2, Hav1.
Qed.
End Alloc.

(** ** A heap to run *)
Module Sample.
Definition ptrs : list alloc_ptr := map (fun i => init_alloc_ptr (Z.of_nat i + BLOCKSIZE_MIN_LOG2)) (seq 0 NUM_SUBHEAPS).
Definition h0 : heap := Heap ptrs (replicate NUM_SUBHEAPS (Subheap [] [])) (replicate NUM_SUBHEAPS (SubheapCount 1 1)) [].
Definition w0 : world :=
  World ∅ (SegmentPool (replicate NUM_SUBHEAPS (Subpool [] [] [])) [] (Memory SEGMENT_SIZE 4 0)) PREASYNC 0.

Definition l6 : segment_layout := Eval vm_compute in the_layouts !!! 6%nat.
Lemma l6_ok : the_layouts !! 6%nat = Some l6.
Proof. reflexivity. Qed.

Lemma h0_ok : heap_ok 6 l6 w0 h0.
Proof.
  eexists _, _, _, _. split; try reflexivity.
  - discriminate.
  - split; try constructor; done.
  - split; try constructor; try done.
  - intros a Ha. by apply elem_of_nil in Ha.
Qed.

Definition first_run : res (option Z * heap * world) := try_find_segment w0 h0 6 PREASYNC.

(** One segment has been set up and one object allocated. *)
Lemma after_first : exists k h w, first_run = Ok (Some k, h, w) /\ heap_ok 6 l6 w h /\
  length (available 6 l6 w h) = 61%nat.
Proof.
  destruct (try_find_segment_spec 6 l6 l6_ok w0 h0 PREASYNC (init_alloc_ptr 9) h0_ok eq_refl eq_refl)
    as ([[r h] w] & Hrun & Hok & _).
  assert (Hc : match try_find_segment w0 h0 6 PREASYNC with
               | Ok (Some _, h, w) => length (available 6 l6 w h) = 61%nat
               | _ => False end) by (vm_compute; reflexivity).
  unfold first_run. rewrite Hrun in Hc |- *. destruct r as [k|]; [|done]. by exists k, h, w.
Qed.
End Sample.

(** ** Properties *)

(** C27. Every layout that [compute_segment_layout] computes has its parts where
    the figure in the source shows them, in the 32k of a segment, and no
    larger number of blocks would fit. *)
Theorem compute_segment_layout_correct i : (i < NUM_SUBHEAPS)%nat ->
  exists l, compute_segment_layout i = Ok l /\ layout_ok l /\
    blocksize_bytes l = 2 ^ (Z.of_nat i + 3) /\
    SEGMENT_SIZE < blocklimit (compute_offsets (blocksize_bytes l) (num_blocks l + 1)).
Proof.
  intros Hi. destruct (layout_of_index i Hi) as [l Hl]. exists l. split; [by apply layouts_computed|].
  split; [by apply (layouts_ok i)|]. split; [|exact (maximal_spec l (layouts_maximal i l Hl))].
  rewrite (proj1 (lo_blocksize _ (layouts_ok i l Hl))), (layout_log2 _ _ Hl). reflexivity.
Qed.

Lemma compute_segment_layout_correct_witness :
  exists l, compute_segment_layout 9 = Ok l /\ layout_ok l /\
    blocksize_bytes l = 2 ^ (Z.of_nat 9 + 3) /\
    SEGMENT_SIZE < blocklimit (compute_offsets (blocksize_bytes l) (num_blocks l + 1)).
Proof. apply (compute_segment_layout_correct 9). vm_compute. lia. Defined.

(** [sml_alloc] takes blocks of the smallest size in which the object fits
    together with its header. *)
Theorem subheap_index_correct objsize : 0 <= objsize <= BLOCKSIZE_MAX - OBJ_HEADER_SIZE ->
  exists i l, subheap_index_of objsize = Ok i /\ the_layouts !! i = Some l /\
    OBJ_HEADER_SIZE + objsize <= blocksize_bytes l /\
    forall j lj, the_layouts !! j = Some lj -> OBJ_HEADER_SIZE + objsize <= blocksize_bytes lj -> (i <= j)%nat.
Proof. apply subheap_index_spec. Qed.

Lemma subheap_index_correct_witness :
  exists i l, subheap_index_of 13 = Ok i /\ the_layouts !! i = Some l /\
    OBJ_HEADER_SIZE + 13 <= blocksize_bytes l /\
    forall j lj, the_layouts !! j = Some lj -> OBJ_HEADER_SIZE + 13 <= blocksize_bytes lj -> (i <= j)%nat.
Proof. apply (subheap_index_correct 13). vm_compute. split; discriminate. Defined.

(** [init_segment] makes an idle segment, whatever its layout was, into a
    segment of the new layout without any object. *)
Theorem init_segment_correct seg i l : the_layouts !! i = Some l -> idle seg ->
  exists seg', init_segment seg i = Ok seg' /\ idle seg' /\ layout seg' = Some i /\
    allocptr_snapshot seg' = BLOCK_BASE l /\ seg_free_count seg' = num_blocks l /\
    seg_ok l (words seg') /\ (forall k, (k < blocks l)%nat -> bits (words seg') 8 k = false) /\
    next_free l (words seg') 0 = Some 0%nat.
Proof.
  intros Hi Hidle. destruct (init_segment_spec seg i l Hi Hidle) as (seg' & Hrun & Hid & Hlay & Hblank & Hsnap & Hfc).
  destruct (blank_seg_ok l (layouts_ok i l Hi) (layout_meta i l Hi) _ Hblank) as [Hok Hfree].
  exists seg'. do 5 (split; [done|]). split; [done|]. split; [done|].
  pose proof (lo_pos _ (layouts_ok i l Hi)) as Hpos.
  apply next_free_Some. assert (0 < blocks l)%nat by (unfold blocks; lia).
  split; [|done]. split; [done|]. split; [by apply Hfree|]. lia.
Qed.

Lemma init_segment_correct_witness :
  exists seg', init_segment fresh_segment 6 = Ok seg' /\ idle seg' /\ layout seg' = Some 6%nat /\
    allocptr_snapshot seg' = BLOCK_BASE Sample.l6 /\ seg_free_count seg' = num_blocks Sample.l6 /\
    seg_ok Sample.l6 (words seg') /\ (forall k, (k < blocks Sample.l6)%nat -> bits (words seg') 8 k = false) /\
    next_free Sample.l6 (words seg') 0 = Some 0%nat.
Proof.
  exact (init_segment_correct fresh_segment 6 Sample.l6 Sample.l6_ok idle_fresh).
Defined.

(** At the end of a collection [copy_collect_bitmap] makes the blocks marked
    in the collect bitmap the allocated ones, restores the summary bitmap
    and the sentinels, and [clear_collect_bitmap] empties the collect bitmap. *)
Theorem copy_collect_bitmap_correct i l ws : the_layouts !! i = Some l -> words_ok ws ->
  exists ws', copy_collect_bitmap l ws = Ok ws' /\ seg_ok l ws' /\
    (forall k, (k < blocks l)%nat -> bits ws' 8 k = cbits l ws k) /\
    seg_ok l (clear_collect_bitmap l ws') /\
    (forall k, (k < blocks l)%nat -> bits (clear_collect_bitmap l ws') 8 k = cbits l ws k /\
                                     cbits l (clear_collect_bitmap l ws') k = false).
Proof.
  intros Hi Hws. pose proof (layouts_ok i l Hi) as Hl.
  assert (Hsz : (8 + words0 l + words1 l + words0 l <= segment_words)%nat) by apply (layout_meta i l Hi).
  destruct (copy_collect_bitmap_spec l Hl Hsz ws Hws) as (ws' & Hrun & Hok & Hb & _).
  destruct (clear_collect_bitmap_spec l Hl Hsz ws' Hok) as (Hok2 & Hb2 & Hc2).
  exists ws'. split; [done|]. split; [done|]. split; [done|]. split; [done|]. intros k Hk.
  rewrite Hb2 by done. split; [by apply Hb|by apply Hc2].
Qed.

Lemma zero_words_ok : words_ok (replicate segment_words 0).
Proof. split; [apply length_replicate|by apply Forall_replicate]. Qed.

Lemma copy_collect_bitmap_correct_witness :
  exists ws', copy_collect_bitmap Sample.l6 (replicate segment_words 0) = Ok ws' /\ seg_ok Sample.l6 ws' /\
    (forall k, (k < blocks Sample.l6)%nat -> bits ws' 8 k = cbits Sample.l6 (replicate segment_words 0) k) /\
    seg_ok Sample.l6 (clear_collect_bitmap Sample.l6 ws') /\
    (forall k, (k < blocks Sample.l6)%nat ->
       bits (clear_collect_bitmap Sample.l6 ws') 8 k = cbits Sample.l6 (replicate segment_words 0) k /\
       cbits Sample.l6 (clear_collect_bitmap Sample.l6 ws') k = false).
Proof. exact (copy_collect_bitmap_correct 6 Sample.l6 _ Sample.l6_ok zero_words_ok). Defined.

(** C18. The hierarchical search of [find_bitmap] returns what a linear scan for
    the first free block at or after the allocation pointer would return. *)
Theorem find_bitmap_correct l ws n : layout_ok l -> seg_ok l ws -> (n <= blocks l)%nat ->
  find_bitmap l ws (BITPTR BITMAP0_BASE n) =
  Ok (match next_free l ws n with
      | Some k => let obj := BLOCK_BASE l + Z.of_nat k * blocksize_bytes l in
                  Some (obj, BITPTR BITMAP0_BASE (S k), obj + blocksize_bytes l)
      | None => None
      end).
Proof.
  intros Hl Hs Hn. rewrite BASE0, (find_bitmap_spec l ws Hl Hs n Hn). do 2 f_equal.
  destruct (next_free l ws n); [|done]. cbn zeta. do 2 f_equal. lia.
Qed.

Lemma find_bitmap_correct_witness :
  exists ws, init_segment fresh_segment 6 = Ok ws /\
  find_bitmap Sample.l6 (words ws) (BITPTR BITMAP0_BASE 3) =
  Ok (match next_free Sample.l6 (words ws) 3 with
      | Some k => let obj := BLOCK_BASE Sample.l6 + Z.of_nat k * blocksize_bytes Sample.l6 in
                  Some (obj, BITPTR BITMAP0_BASE (S k), obj + blocksize_bytes Sample.l6)
      | None => None
      end).
Proof.
  destruct (init_segment_spec fresh_segment 6 Sample.l6 Sample.l6_ok idle_fresh) as (seg & Hrun & _ & _ & Hb & _).
  exists seg. split; [done|]. assert (Hl := layouts_ok 6 Sample.l6 Sample.l6_ok).
  apply find_bitmap_correct; [done| |vm_compute; lia].
  apply (blank_seg_ok _ Hl (layout_meta 6 _ Sample.l6_ok) _ Hb).
Defined.

(** [free_count] is the number of free blocks; with an allocation pointer in
    block [n] it counts the free blocks from the next bitmap word on, that
    is, at most 32 less than there are behind the pointer. *)
Theorem free_count_correct i l ws n : the_layouts !! i = Some l -> seg_ok l ws -> (n <= blocks l)%nat ->
  let free m := Z.of_nat (count_false (bits ws 8) m (blocks l - m)) in
  free_count l ws None = Ok (free 0%nat) /\
  exists c, free_count l ws (Some (BLOCK_BASE l + Z.of_nat n * blocksize_bytes l)) = Ok c /\
    free n - 32 <= c <= free n.
Proof.
  intros Hi Hs Hn free. pose proof (layouts_ok i l Hi) as Hl.
  assert (Hsz : (8 + words0 l + words1 l + words0 l <= segment_words)%nat) by apply (layout_meta i l Hi).
  split; [by apply free_count_spec|]. eexists. split; [by apply free_count_at_spec|].
  unfold num_free. fold (free n). set (m := (32 * (n / 32 + 1))%nat).
  assert (Hm : (n <= m <= n + 32)%nat).
  { unfold m. pose proof (Nat.div_mod_eq n 32). pose proof (Nat.mod_upper_bound n 32). lia. }
  unfold free. destruct (Nat.le_gt_cases m (blocks l)) as [Hle|Hgt].
  - replace (blocks l - n)%nat with ((m - n) + (blocks l - m))%nat by lia.
    rewrite count_false_app. replace (n + (m - n))%nat with m by lia.
    pose proof (count_false_le (bits ws 8) n (m - n)). lia.
  - replace (blocks l - m)%nat with 0%nat by lia. simpl count_false at 2.
    pose proof (count_false_le (bits ws 8) n (blocks l - n)). simpl. lia.
Qed.

(** A blank segment to count in. *)
Lemma blank_l6 : exists seg, init_segment fresh_segment 6 = Ok seg /\ seg_ok Sample.l6 (words seg).
Proof.
  destruct (init_segment_spec fresh_segment 6 Sample.l6 Sample.l6_ok idle_fresh) as (seg & Hrun & _ & _ & Hb & _).
  exists seg. split; [done|].
  apply (blank_seg_ok _ (layouts_ok 6 Sample.l6 Sample.l6_ok) (layout_meta 6 _ Sample.l6_ok) _ Hb).
Qed.

Lemma free_count_correct_witness : exists seg, init_segment fresh_segment 6 = Ok seg /\
  let ws := words seg in let l := Sample.l6 in
  let free m := Z.of_nat (count_false (bits ws 8) m (blocks l - m)) in
  free_count l ws None = Ok (free 0%nat) /\
  exists c, free_count l ws (Some (BLOCK_BASE l + Z.of_nat 5 * blocksize_bytes l)) = Ok c /\
    free 5%nat - 32 <= c <= free 5%nat.
Proof.
  destruct blank_l6 as (seg & Hrun & Hok). exists seg. split; [done|].
  apply (free_count_correct 6 Sample.l6 (words seg) 5 Sample.l6_ok Hok). vm_compute. lia.
Defined.





(** When the current segment of a subheap is used up, [try_find_segment]
    takes the next segment of the subheap, or an empty segment of the
    thread, of the pool or of the system; it fails only when there is none,
    or when the subheap may not grow before the next collection. *)
Theorem try_find_segment_correct i l w h phase p :
  the_layouts !! i = Some l -> heap_ok i l w h -> hptr h !! i = Some p -> avail_ptr w l p = [] ->
  exists k h' w', try_find_segment w h i phase = Ok (k, h', w') /\ heap_ok i l w' h' /\
    match available i l w h, k with
    | x :: rest, _ => k = Some x /\ available i l w' h' = rest
    | [], Some x => exists a, x :: available i l w' h' = avail_seg w' l a
    | [], None => available i l w' h' = [] /\ no_segment i w h
    end.
Proof.
  intros Hi Hok Hp Hav. destruct (try_find_segment_spec i l Hi w h phase p Hok Hp Hav) as ([[k h'] w'] & Hrun & Hok' & _ & Hr).
  exists k, h', w'. split; [done|]. split; [done|]. by destruct (available i l w h), k.
Qed.

Lemma try_find_segment_correct_witness :
  exists k h' w', try_find_segment Sample.w0 Sample.h0 6 PREASYNC = Ok (k, h', w') /\ heap_ok 6 Sample.l6 w' h' /\
    match available 6 Sample.l6 Sample.w0 Sample.h0, k with
    | x :: rest, _ => k = Some x /\ available 6 Sample.l6 w' h' = rest
    | [], Some x => exists a, x :: available 6 Sample.l6 w' h' = avail_seg w' Sample.l6 a
    | [], None => available 6 Sample.l6 w' h' = [] /\ no_segment 6 Sample.w0 Sample.h0
    end.
Proof.
  exact (try_find_segment_correct 6 Sample.l6 Sample.w0 Sample.h0 PREASYNC (init_alloc_ptr 9)
           Sample.l6_ok Sample.h0_ok eq_refl eq_refl).
Defined.
