(* ===== verification/Memory.v ===== *)
(** * Memory of the heap objects

    A little-endian byte memory.  Every address holds a byte: accesses
    outside of the objects are not modelled as faults. *)
From Stdlib Require Import ZArith Lia.
From stdpp Require Import base option list.
From S2P Require Import Prelude.

Local Open Scope Z_scope.

Definition mem : Type := Z -> Z.

Definition store8 (m : mem) (a v : Z) : mem := fun x => if x =? a then v else m x.

Fixpoint load (m : mem) (a : Z) (n : nat) : Z :=
  match n with
  | O => 0
  | S n => m a + 256 * load m (a + 1) n
  end.

Fixpoint store (m : mem) (a : Z) (n : nat) (v : Z) : mem :=
  match n with
  | O => m
  | S n => store (store8 m a (v mod 256)) (a + 1) n (v / 256)
  end.

Definition load32 (m : mem) (a : Z) : Z := load m a 4.
Definition load64 (m : mem) (a : Z) : Z := load m a 8.
Definition store32 (m : mem) (a v : Z) : mem := store m a 4 v.
Definition store64 (m : mem) (a v : Z) : mem := store m a 8 v.

(** [memcpy] of a list of bytes, and the bytes that [memcmp] compares. *)
Fixpoint store_bytes (m : mem) (a : Z) (bs : list Z) : mem :=
  match bs with
  | [] => m
  | b :: bs => store_bytes (store8 m a b) (a + 1) bs
  end.
Definition load_bytes (m : mem) (a : Z) (n : nat) : list Z :=
  map (fun i => m (a + Z.of_nat i)) (seq 0 n).

(** ** Loads after stores *)
Lemma store_other m a n v x : x < a \/ a + Z.of_nat n <= x -> store m a n v x = m x.
Proof.
  revert m a v. induction n as [|n IH]; intros m a v Hx; [done|]. simpl. rewrite IH by lia.
  unfold store8. by rewrite (proj2 (Z.eqb_neq _ _)) by lia.
Qed.

Lemma store_bytes_other m a bs x : x < a \/ a + Z.of_nat (length bs) <= x -> store_bytes m a bs x = m x.
Proof.
  revert m a. induction bs as [|b bs IH]; intros m a Hx; [done|]. simpl in *. rewrite IH by lia.
  unfold store8. by rewrite (proj2 (Z.eqb_neq _ _)) by lia.
Qed.

Lemma store_bytes_at m a bs i b : bs !! i = Some b -> store_bytes m a bs (a + Z.of_nat i) = b.
Proof.
  revert m a i. induction bs as [|b0 bs IH]; intros m a i Hi; [done|]. destruct i as [|i]; simpl in *.
  - injection Hi as ->. rewrite Z.add_0_r, store_bytes_other by lia. unfold store8. by rewrite Z.eqb_refl.
  - replace (a + Z.of_nat (S i)) with (a + 1 + Z.of_nat i) by lia. exact (IH _ (a + 1) i Hi).
Qed.

Lemma load_ext m m' a n : (forall x, a <= x < a + Z.of_nat n -> m' x = m x) -> load m' a n = load m a n.
Proof.
  revert a. induction n as [|n IH]; intros a H; [done|]. simpl. rewrite H, IH; [done| |lia].
  intros x Hx. apply H. lia.
Qed.

Lemma load_store_other m a n v b k :
  b + Z.of_nat k <= a \/ a + Z.of_nat n <= b -> load (store m a n v) b k = load m b k.
Proof. intros H. apply load_ext. intros x Hx. apply store_other. lia. Qed.

Lemma load_store_same m a n v : load (store m a n v) a n = v mod 2 ^ (8 * Z.of_nat n).
Proof.
  revert m a v. induction n as [|n IH]; intros m a v; [by rewrite Z.mod_1_r|].
  cbn [load store]. rewrite IH, store_other by lia. unfold store8. rewrite Z.eqb_refl.
  replace (8 * Z.of_nat (S n)) with (8 + 8 * Z.of_nat n) by lia.
  rewrite Z.pow_add_r by lia. change (2 ^ 8) with 256.
  assert (0 < 2 ^ (8 * Z.of_nat n)) by (apply Z.pow_pos_nonneg; lia).
  rewrite Z.rem_mul_r by lia. lia.
Qed.

Lemma load_store64 m a v : 0 <= v < 2 ^ 64 -> load64 (store64 m a v) a = v.
Proof. intros Hv. unfold load64, store64. rewrite load_store_same. by apply Z.mod_small. Qed.
Lemma load64_other m a v b : b + 8 <= a \/ a + 8 <= b -> load64 (store64 m a v) b = load64 m b.
Proof. intros H. apply load_store_other. simpl. lia. Qed.
Lemma load_store32 m a v : 0 <= v < 2 ^ 32 -> load32 (store32 m a v) a = v.
Proof. intros Hv. unfold load32, store32. rewrite load_store_same. by apply Z.mod_small. Qed.

(** Every byte is one. *)
Definition bytes_ok (m : mem) : Prop := forall x, 0 <= m x < 256.

Lemma load_range m a n : bytes_ok m -> 0 <= load m a n < 2 ^ (8 * Z.of_nat n).
Proof.
  intros Hm. revert a. induction n as [|n IH]; intros a; [done|]. simpl load. specialize (IH (a + 1)).
  replace (8 * Z.of_nat (S n)) with (8 + 8 * Z.of_nat n) by lia.
  rewrite Z.pow_add_r by lia. change (2 ^ 8) with 256. specialize (Hm a). lia.
Qed.

Lemma store_bytes_ok m a n v : bytes_ok m -> bytes_ok (store m a n v).
Proof.
  revert m a v. induction n as [|n IH]; intros m a v Hm; [done|]. simpl. apply IH.
  intros x. unfold store8. case_match; [apply Z.mod_pos_bound; lia|apply Hm].
Qed.
