(* ===== verification/Object.v ===== *)
(** * Heap objects

    The object format of src/src/runtime/object.h and the operations of
    src/src/runtime/object.c: structural equality, the enumeration of the
    pointers of an object, string allocation and copying of arrays. *)
From Stdlib Require Import ZArith Lia.
From stdpp Require Import base option list.
From S2P Require Import Prelude Bits Memory.

Local Open Scope Z_scope.

Definition SIZEOF_BITMAP : Z := 4.
Definition BITMAP_NUM_BITS : Z := 32.
Definition TAG_UNBOXED : Z := 0.
Definition TAG_BOXED : Z := 1.
Definition SIZEOF_POINTER : Z := 8.

Definition OBJ_TYPE_MASK : Z := 0x70000000.
Definition OBJ_SIZE_MASK : Z := 0x0fffffff.
Definition OBJ_FLAG_SKIP : Z := 0x80000000.
Definition OBJTYPE_UNBOXED_VECTOR : Z := 0x00000000.
Definition OBJTYPE_BOXED_VECTOR : Z := 0x10000000.
Definition OBJTYPE_UNBOXED_ARRAY : Z := 0x20000000.
Definition OBJTYPE_BOXED_ARRAY : Z := 0x30000000.
Definition OBJTYPE_RECORD : Z := 0x50000000.
Definition OBJTYPE_INTINF : Z := 0x60000000.

Definition OBJ_HEADER_WORD (objtype size : Z) : Z := Z.lor (u32 objtype) (u32 size).
Definition OBJ_BITMAPS_LEN (payload_size : Z) : Z :=
  (payload_size / SIZEOF_POINTER + BITMAP_NUM_BITS - 1) / BITMAP_NUM_BITS.

Section Objects.
Variable m : mem.

Definition OBJ_HEADER (obj : Z) : Z := load32 m (obj - 4).
Definition OBJ_TYPE (obj : Z) : Z := Z.land (OBJ_HEADER obj) OBJ_TYPE_MASK.
Definition OBJ_SIZE (obj : Z) : Z := Z.land (OBJ_HEADER obj) OBJ_SIZE_MASK.
Definition OBJ_BITMAP (obj : Z) : Z := obj + OBJ_SIZE obj.
Definition OBJ_NUM_BITMAPS (obj : Z) : Z := OBJ_BITMAPS_LEN (OBJ_SIZE obj).
Definition OBJ_TOTAL_SIZE (obj : Z) : Z :=
  4 + OBJ_SIZE obj + (if OBJ_TYPE obj =? OBJTYPE_RECORD then OBJ_NUM_BITMAPS obj * SIZEOF_BITMAP else 0).
Definition OBJ_STR_SIZE (obj : Z) : Z := OBJ_SIZE obj - 1.

Definition BITMAP_BIT (bitmaps : Z) (index : nat) : Z :=
  Z.land (Z.shiftr (load32 m (bitmaps + 4 * (Z.of_nat index / BITMAP_NUM_BITS)))
            (Z.of_nat index mod BITMAP_NUM_BITS)) 1.

(** [((void** )obj)[i]] and the number of such fields. *)
Definition field (obj : Z) (i : nat) : Z := load64 m (obj + 8 * Z.of_nat i).
Definition num_fields (obj : Z) : nat := Z.to_nat (OBJ_SIZE obj / SIZEOF_POINTER).

(** The addresses [sml_obj_enum_ptr] calls its argument with, in order. *)
Definition sml_obj_enum_ptr (obj : Z) : res (list Z) :=
  let t := OBJ_TYPE obj in
  let addresses := map (fun i => obj + 8 * Z.of_nat i) in
  if (t =? OBJTYPE_UNBOXED_ARRAY) || (t =? OBJTYPE_UNBOXED_VECTOR) || (t =? OBJTYPE_INTINF) then Ok []
  else if (t =? OBJTYPE_BOXED_ARRAY) || (t =? OBJTYPE_BOXED_VECTOR) then
    Ok (addresses (seq 0 (num_fields obj)))
  else if t =? OBJTYPE_RECORD then
    Ok (addresses (filter (fun i => BITMAP_BIT (OBJ_BITMAP obj) i <> TAG_UNBOXED) (seq 0 (num_fields obj))))
  else Fatal.

(** ** [sml_obj_equal] *)

(** [for (i = i0; n > 0; i++, n--) if (!f(i)) return 0;] *)
Fixpoint all_equal (n i : nat) (f : nat -> res bool) : res bool :=
  match n with
  | O => Ok true
  | S n => b ← f i; if b : bool then all_equal n (S i) f else Ok false
  end.

(** [sml_intinf_cmp] compares two GMP integers. *)
Variable sml_intinf_cmp : Z -> Z -> Z.

(** The objects to compare by content, or none if the types exclude
    equality; a record is the second one. *)
Definition equal_types (obj1 obj2 : Z) : res (option (Z * Z)) :=
  if OBJ_TYPE obj1 =? OBJ_TYPE obj2 then Ok (Some (obj1, obj2))
  else
    let swapped :=
      if OBJ_TYPE obj1 =? OBJTYPE_RECORD then Some (obj2, obj1)
      else if negb (OBJ_TYPE obj2 =? OBJTYPE_RECORD) then None
      else Some (obj1, obj2) in
    match swapped with
    | None => Ok None
    | Some (obj1, obj2) =>
        let tag := if OBJ_TYPE obj1 =? OBJTYPE_UNBOXED_VECTOR then Some TAG_UNBOXED
                   else if OBJ_TYPE obj1 =? OBJTYPE_BOXED_VECTOR then Some TAG_BOXED
                   else None in
        match tag with
        | None => Ok None
        | Some tag =>
            assert_that (OBJ_SIZE obj2 mod SIZEOF_POINTER =? 0);;
            Ok (if forallb (fun i => BITMAP_BIT (OBJ_BITMAP obj2) i =? tag) (seq 0 (num_fields obj2))
                then Some (obj1, obj2) else None)
        end
    end.

Definition equal_contents (obj_equal : Z -> Z -> res bool) (obj1 obj2 : Z) : res bool :=
  let t := OBJ_TYPE obj1 in
  if (t =? OBJTYPE_UNBOXED_ARRAY) || (t =? OBJTYPE_BOXED_ARRAY) then Ok false
  else if t =? OBJTYPE_UNBOXED_VECTOR then
    let n := Z.to_nat (OBJ_SIZE obj1) in
    Ok (bool_decide (load_bytes m obj1 n = load_bytes m obj2 n))
  else if t =? OBJTYPE_BOXED_VECTOR then
    assert_that (OBJ_SIZE obj1 mod SIZEOF_POINTER =? 0);;
    all_equal (num_fields obj1) 0 (fun i => obj_equal (field obj1 i) (field obj2 i))
  else if t =? OBJTYPE_INTINF then Ok (sml_intinf_cmp obj1 obj2 =? 0)
  else if t =? OBJTYPE_RECORD then
    assert_that (OBJ_NUM_BITMAPS obj1 =? OBJ_NUM_BITMAPS obj2);;
    assert_that (OBJ_SIZE obj1 mod SIZEOF_POINTER =? 0);;
    if forallb (fun i => load32 m (OBJ_BITMAP obj1 + 4 * Z.of_nat i) =? load32 m (OBJ_BITMAP obj2 + 4 * Z.of_nat i))
         (seq 0 (Z.to_nat (OBJ_NUM_BITMAPS obj1)))
    then all_equal (num_fields obj1) 0 (fun i =>
           if BITMAP_BIT (OBJ_BITMAP obj1) i =? TAG_UNBOXED then Ok (field obj1 i =? field obj2 i)
           else obj_equal (field obj1 i) (field obj2 i))
    else Ok false
  else Fatal.

Fixpoint sml_obj_equal (fuel : nat) (obj1 obj2 : Z) : res bool :=
  match fuel with
  | O => NoFuel
  | S fuel =>
      if obj1 =? obj2 then Ok true
      else if (obj1 =? 0) || (obj2 =? 0) then Ok false
      else if negb (OBJ_SIZE obj1 =? OBJ_SIZE obj2) then Ok false
      else
        p ← equal_types obj1 obj2;
        match p with
        | None => Ok false
        | Some (obj1, obj2) => equal_contents (sml_obj_equal fuel) obj1 obj2
        end
  end.
End Objects.

(** ** Allocation *)
Section Allocation.
(** [sml_alloc] on some state of the allocator: the address of the object. *)
Context {St : Type} (sml_alloc : St -> Z -> res (Z * St)).

Definition sml_obj_alloc (st : St) (m : mem) (objtype payload_size : Z) : res (Z * St * mem) :=
  assert_that (Z.land (u32 payload_size) OBJ_SIZE_MASK =? payload_size);;
  '(obj, st) ← sml_alloc st (u32 payload_size);
  let m := store32 m (obj - 4) (OBJ_HEADER_WORD objtype payload_size) in
  assert_that (OBJ_SIZE m obj =? payload_size);;
  let t := OBJ_TYPE m obj in
  assert_that ((t =? OBJTYPE_UNBOXED_VECTOR) || (t =? OBJTYPE_BOXED_VECTOR) || (t =? OBJTYPE_UNBOXED_ARRAY) ||
               (t =? OBJTYPE_BOXED_ARRAY) || (t =? OBJTYPE_INTINF));;
  Ok (obj, st, m).

Definition sml_str_new2 (st : St) (m : mem) (str : list Z) : res (Z * St * mem) :=
  let len := Z.of_nat (length str) in
  '(obj, st, m) ← sml_obj_alloc st m OBJTYPE_UNBOXED_VECTOR (len + 1);
  let m := store_bytes m obj str in
  let m := store8 m (obj + len) 0 in
  Ok (obj, st, m).

(** [str] are the bytes before the terminating zero; the length is passed on
    as an [unsigned int]. *)
Definition sml_str_new (st : St) (m : mem) (str : list Z) : res (Z * St * mem) :=
  sml_str_new2 st m (take (Z.to_nat (u32 (Z.of_nat (length str)))) str).

(** [sml_set_finalizer(obj, intinf_free)], and [mpz_init] of the payload. *)
Variables (set_intinf_free : St -> Z -> res St) (mpz_init : mem -> Z -> mem).
Definition sizeof_intinf : Z := 16.

Definition sml_intinf_new (st : St) (m : mem) : res (Z * St * mem) :=
  '(obj, st) ← sml_alloc st sizeof_intinf;
  let m := store32 m (obj - 4) (OBJ_HEADER_WORD OBJTYPE_INTINF sizeof_intinf) in
  st ← set_intinf_free st obj;
  Ok (obj, st, mpz_init m obj).
End Allocation.

(** ** Copying arrays of pointers *)
Section Copy.
(** Reading and [sml_write] on some state of memory and collector. *)
Context {St : Type} (read : St -> Z -> Z) (sml_write : St -> Z -> Z -> Z -> res St).

(** [si], [di] and [len] are [unsigned int]. *)
Fixpoint copy_overlapping (len : nat) (st : St) (src si dst di : Z) : res St :=
  match len with
  | O => Ok st
  | S len =>
      st ← sml_write st dst (dst + 8 * (di + Z.of_nat len)) (read st (src + 8 * u32 (si + Z.of_nat len)));
      copy_overlapping len st src si dst di
  end.

Fixpoint copy_forward (len : nat) (st : St) (src si dst di : Z) : res St :=
  match len with
  | O => Ok st
  | S len =>
      st ← sml_write st dst (dst + 8 * di) (read st (src + 8 * si));
      copy_forward len st src (u32 (si + 1)) dst (u32 (di + 1))
  end.

Definition sml_copyary (st : St) (src si dst di len : Z) : res St :=
  if src =? dst then copy_overlapping (Z.to_nat len) st src si dst di
  else copy_forward (Z.to_nat len) st src si dst di.
End Copy.
