(* ===== verification/ObjectThms.v ===== *)
(** * Heap objects: the theorems *)
From Stdlib Require Import ZArith Lia.
From stdpp Require Import base option list.
From S2P Require Import Prelude Bits Memory Object.

Local Open Scope Z_scope.

(** ** Header words *)
Definition objtypes : list Z :=
  [OBJTYPE_UNBOXED_VECTOR; OBJTYPE_BOXED_VECTOR; OBJTYPE_UNBOXED_ARRAY; OBJTYPE_BOXED_ARRAY; OBJTYPE_RECORD; OBJTYPE_INTINF].

Lemma header_word t size : t ∈ objtypes -> 0 <= size <= OBJ_SIZE_MASK ->
  Z.land (OBJ_HEADER_WORD t size) OBJ_TYPE_MASK = t /\ Z.land (OBJ_HEADER_WORD t size) OBJ_SIZE_MASK = size /\
  is_u32 (OBJ_HEADER_WORD t size) /\ Z.land (OBJ_HEADER_WORD t size) OBJ_FLAG_SKIP = 0.
Proof.
  intros Ht Hs. unfold OBJ_HEADER_WORD.
  assert (Hsz : size = Z.land size OBJ_SIZE_MASK).
  { change OBJ_SIZE_MASK with (Z.ones 28). rewrite Z.land_ones by lia. symmetry. apply Z.mod_small.
    change OBJ_SIZE_MASK with (2 ^ 28 - 1) in Hs. lia. }
  rewrite (u32_small size) by (unfold is_u32; change OBJ_SIZE_MASK with 268435455 in Hs; lia).
  assert (Htt : Z.land t OBJ_TYPE_MASK = t /\ Z.land t OBJ_SIZE_MASK = 0 /\ u32 t = t /\ Z.land t OBJ_FLAG_SKIP = 0).
  { unfold objtypes in Ht. rewrite !elem_of_cons in Ht. by destruct Ht as [->|[->|[->|[->|[->|[->|Ht%elem_of_nil]]]]]]. }
  destruct Htt as (H1 & H2 & H3 & H4). rewrite H3.
  rewrite !Z.land_lor_distr_l, H1, H2, H4. split; [|split; [|split]].
  - rewrite Hsz, <- Z.land_assoc. change (Z.land OBJ_SIZE_MASK OBJ_TYPE_MASK) with 0. by rewrite Z.land_0_r, Z.lor_0_r.
  - by rewrite Z.lor_0_l, <- Hsz.
  - apply lor_u32; [rewrite <- H3; apply u32_range|]. unfold is_u32. change OBJ_SIZE_MASK with 268435455 in Hs. lia.
  - rewrite Z.lor_0_l, Hsz, <- Z.land_assoc. change (Z.land OBJ_SIZE_MASK OBJ_FLAG_SKIP) with 0. apply Z.land_0_r.
Qed.

(** ** Structural equality *)
Section Equal.
Variable m : mem.
Variable intinf_cmp : Z -> Z -> Z.

(** When the objects at two addresses are equal. *)
Inductive obj_eq : Z -> Z -> Prop :=
| eq_same a : obj_eq a a
| eq_content a b : a <> 0 -> b <> 0 -> OBJ_SIZE m a = OBJ_SIZE m b -> OBJ_TYPE m a = OBJ_TYPE m b ->
    content_eq a b -> obj_eq a b
| eq_record_right a b : a <> 0 -> b <> 0 -> OBJ_SIZE m a = OBJ_SIZE m b ->
    OBJ_TYPE m b = OBJTYPE_RECORD -> vector_record_eq a b -> obj_eq a b
| eq_record_left a b : a <> 0 -> b <> 0 -> OBJ_SIZE m a = OBJ_SIZE m b ->
    OBJ_TYPE m a = OBJTYPE_RECORD -> vector_record_eq b a -> obj_eq a b
(** Objects of the same type. *)
with content_eq : Z -> Z -> Prop :=
| eq_bytes a b : OBJ_TYPE m a = OBJTYPE_UNBOXED_VECTOR ->
    load_bytes m a (Z.to_nat (OBJ_SIZE m a)) = load_bytes m b (Z.to_nat (OBJ_SIZE m a)) -> content_eq a b
| eq_pointers a b : OBJ_TYPE m a = OBJTYPE_BOXED_VECTOR ->
    (forall i, (i < num_fields m a)%nat -> obj_eq (field m a i) (field m b i)) -> content_eq a b
| eq_intinf a b : OBJ_TYPE m a = OBJTYPE_INTINF -> intinf_cmp a b = 0 -> content_eq a b
| eq_record a b : OBJ_TYPE m a = OBJTYPE_RECORD ->
    (forall i, (i < Z.to_nat (OBJ_NUM_BITMAPS m a))%nat ->
       load32 m (OBJ_BITMAP m a + 4 * Z.of_nat i) = load32 m (OBJ_BITMAP m b + 4 * Z.of_nat i)) ->
    (forall i, (i < num_fields m a)%nat -> BITMAP_BIT m (OBJ_BITMAP m a) i = TAG_UNBOXED ->
       field m a i = field m b i) ->
    (forall i, (i < num_fields m a)%nat -> BITMAP_BIT m (OBJ_BITMAP m a) i <> TAG_UNBOXED ->
       obj_eq (field m a i) (field m b i)) ->
    content_eq a b
(** A vector and a record whose fields are all of the vector's kind. *)
with vector_record_eq : Z -> Z -> Prop :=
| eq_bytes_record a b : OBJ_TYPE m a = OBJTYPE_UNBOXED_VECTOR ->
    (forall i, (i < num_fields m b)%nat -> BITMAP_BIT m (OBJ_BITMAP m b) i = TAG_UNBOXED) ->
    load_bytes m a (Z.to_nat (OBJ_SIZE m a)) = load_bytes m b (Z.to_nat (OBJ_SIZE m a)) -> vector_record_eq a b
| eq_pointers_record a b : OBJ_TYPE m a = OBJTYPE_BOXED_VECTOR ->
    (forall i, (i < num_fields m b)%nat -> BITMAP_BIT m (OBJ_BITMAP m b) i = TAG_BOXED) ->
    (forall i, (i < num_fields m a)%nat -> obj_eq (field m a i) (field m b i)) -> vector_record_eq a b.

(** The pointers of an object that equality follows. *)
Definition pointer_fields (a : Z) : list Z :=
  if OBJ_TYPE m a =? OBJTYPE_BOXED_VECTOR then map (field m a) (seq 0 (num_fields m a))
  else if OBJ_TYPE m a =? OBJTYPE_RECORD then
    map (field m a) (filter (fun i => BITMAP_BIT m (OBJ_BITMAP m a) i <> TAG_UNBOXED) (seq 0 (num_fields m a)))
  else [].

(** Well-formed objects of finite depth, [rank] being a bound. *)
Record wf_objects (P : Z -> Prop) (rank : Z -> nat) : Prop := {
  wf_type a : P a -> a <> 0 -> OBJ_TYPE m a ∈ objtypes;
  wf_size a : P a -> a <> 0 -> OBJ_TYPE m a = OBJTYPE_BOXED_VECTOR \/ OBJ_TYPE m a = OBJTYPE_RECORD ->
    OBJ_SIZE m a mod SIZEOF_POINTER = 0;
  wf_fields a c : P a -> a <> 0 -> c ∈ pointer_fields a -> P c /\ (rank c < rank a)%nat
}.

Ltac type_clash :=
  exfalso; match goal with
  | H1 : OBJ_TYPE m ?a = _, H2 : OBJ_TYPE m ?a = _ |- _ => rewrite H1 in H2; discriminate H2
  end.

Lemma all_equal_spec (Q : nat -> Prop) f n : forall i0,
  (forall i, (i0 <= i < i0 + n)%nat -> exists b, f i = Ok b /\ (b = true <-> Q i)) ->
  exists b, all_equal n i0 f = Ok b /\ (b = true <-> forall i, (i0 <= i < i0 + n)%nat -> Q i).
Proof.
  induction n as [|n IH]; intros i0 Hf; cbn [all_equal].
  - exists true. split; [done|]. split; [intros _ i Hi; lia|done].
  - destruct (Hf i0 ltac:(lia)) as (b & -> & Hb). cbn [mbind res_bind]. destruct b.
    + destruct (IH (S i0)) as (b' & -> & Hb'); [intros i Hi; apply Hf; lia|]. exists b'. split; [done|].
      rewrite Hb'. split; intros H i Hi; [|apply H; lia].
      destruct (decide (i = i0)) as [->|]; [by apply Hb|apply H; lia].
    + exists false. split; [done|]. split; [done|]. intros H. apply Hb, H. lia.
Qed.

Lemma forallb_seq_spec (f : nat -> bool) n : forallb f (seq 0 n) = true <-> forall i, (i < n)%nat -> f i = true.
Proof.
  rewrite forallb_forall. split; intros H i Hi; apply H; [apply in_seq; lia|]. apply in_seq in Hi. lia.
Qed.

Lemma pointer_fields_vector a i : OBJ_TYPE m a = OBJTYPE_BOXED_VECTOR -> (i < num_fields m a)%nat ->
  field m a i ∈ pointer_fields a.
Proof.
  intros Ht Hi. unfold pointer_fields. rewrite Ht. apply list_elem_of_In, in_map, in_seq. lia.
Qed.
Lemma pointer_fields_record a i : OBJ_TYPE m a = OBJTYPE_RECORD -> (i < num_fields m a)%nat ->
  BITMAP_BIT m (OBJ_BITMAP m a) i <> TAG_UNBOXED -> field m a i ∈ pointer_fields a.
Proof.
  intros Ht Hi Hb. unfold pointer_fields. rewrite Ht.
  apply list_elem_of_In, in_map, list_elem_of_In, list_elem_of_filter. split; [done|]. apply elem_of_seq. lia.
Qed.

Section Contents.
(** The comparison of the pointers, right on those of [a] and [b]. *)
Variable obj_equal : Z -> Z -> res bool.
Variables a b : Z.
Hypothesis obj_equal_ok : forall c d, c ∈ pointer_fields a -> d ∈ pointer_fields b ->
  exists r, obj_equal c d = Ok r /\ (r = true <-> obj_eq c d).
Hypothesis Hsize : OBJ_SIZE m a = OBJ_SIZE m b.
Hypothesis Hmod : OBJ_TYPE m a = OBJTYPE_BOXED_VECTOR \/ OBJ_TYPE m a = OBJTYPE_RECORD ->
  OBJ_SIZE m a mod SIZEOF_POINTER = 0.

Lemma same_fields : num_fields m a = num_fields m b.
Proof. unfold num_fields. by rewrite Hsize. Qed.

Lemma vector_pointers : OBJ_TYPE m a = OBJTYPE_BOXED_VECTOR ->
  (OBJ_TYPE m b = OBJTYPE_BOXED_VECTOR \/ OBJ_TYPE m b = OBJTYPE_RECORD /\
     forall i, (i < num_fields m b)%nat -> BITMAP_BIT m (OBJ_BITMAP m b) i = TAG_BOXED) ->
  exists r, all_equal (num_fields m a) 0 (fun i => obj_equal (field m a i) (field m b i)) = Ok r /\
    (r = true <-> forall i, (i < num_fields m a)%nat -> obj_eq (field m a i) (field m b i)).
Proof.
  intros Ha Hb. destruct (all_equal_spec (fun i => obj_eq (field m a i) (field m b i))
    (fun i => obj_equal (field m a i) (field m b i)) (num_fields m a) 0) as (r & -> & Hr).
  - intros i Hi. apply obj_equal_ok; [apply pointer_fields_vector; [done|lia]|].
    destruct Hb as [Hb|[Hb Htag]]; [apply pointer_fields_vector; [done|rewrite <- same_fields; lia]|].
    apply pointer_fields_record; [done|rewrite <- same_fields; lia|].
    rewrite Htag; [done|rewrite <- same_fields; lia].
  - exists r. split; [done|]. rewrite Hr. split; intros H i Hi; apply H; lia.
Qed.

Lemma record_pointers : OBJ_TYPE m a = OBJTYPE_RECORD -> OBJ_TYPE m b = OBJTYPE_RECORD ->
  (forall i, (i < num_fields m a)%nat -> BITMAP_BIT m (OBJ_BITMAP m a) i = BITMAP_BIT m (OBJ_BITMAP m b) i) ->
  exists r, all_equal (num_fields m a) 0 (fun i =>
      if BITMAP_BIT m (OBJ_BITMAP m a) i =? TAG_UNBOXED then Ok (field m a i =? field m b i)
      else obj_equal (field m a i) (field m b i)) = Ok r /\
    (r = true <-> forall i, (i < num_fields m a)%nat ->
       if BITMAP_BIT m (OBJ_BITMAP m a) i =? TAG_UNBOXED then field m a i = field m b i
       else obj_eq (field m a i) (field m b i)).
Proof.
  intros Ha Hb Htags. match goal with |- context [all_equal _ _ ?f] => set (ff := f) end.
  destruct (all_equal_spec (fun i => if BITMAP_BIT m (OBJ_BITMAP m a) i =? TAG_UNBOXED
      then field m a i = field m b i else obj_eq (field m a i) (field m b i)) ff (num_fields m a) 0) as (r & Hrun & Hr).
  - intros i Hi. unfold ff. destruct (Z.eqb_spec (BITMAP_BIT m (OBJ_BITMAP m a) i) TAG_UNBOXED) as [|Hne].
    + eexists. split; [done|]. apply Z.eqb_eq.
    + apply obj_equal_ok; apply pointer_fields_record; [done|lia|done|done|rewrite <- same_fields; lia|].
      by rewrite <- Htags by lia.
  - exists r. split; [done|]. rewrite Hr. split; intros H i Hi; apply H; lia.
Qed.

Lemma equal_contents_spec : OBJ_TYPE m a = OBJ_TYPE m b -> OBJ_TYPE m a ∈ objtypes ->
  (forall i, (i < num_fields m a)%nat -> OBJ_TYPE m a = OBJTYPE_RECORD ->
     (i / 32 < Z.to_nat (OBJ_NUM_BITMAPS m a))%nat) ->
  exists r, equal_contents m intinf_cmp obj_equal a b = Ok r /\ (r = true <-> content_eq a b).
Proof.
  intros Hty Hin Hbm. unfold objtypes in Hin. rewrite !elem_of_cons in Hin. unfold equal_contents.
  destruct Hin as [Ht|[Ht|[Ht|[Ht|[Ht|[Ht|Ht%elem_of_nil]]]]]]; [..|done]; rewrite Ht.
  - change (if _ || _ then _ else ?x) with x. eexists. split; [reflexivity|]. rewrite bool_decide_eq_true.
    split; [by apply eq_bytes|]. inversion 1; first [done|type_clash].
  - change (if _ || _ then _ else ?x) with x. change (if OBJTYPE_BOXED_VECTOR =? OBJTYPE_UNBOXED_VECTOR then _ else ?x) with x.
    change (if OBJTYPE_BOXED_VECTOR =? OBJTYPE_BOXED_VECTOR then ?x else _) with x.
    rewrite Hmod by (by left). cbn [Z.eqb assert_that mbind res_bind].
    destruct (vector_pointers Ht) as (r & -> & Hr); [left; congruence|]. exists r. split; [done|]. rewrite Hr.
    split; [by apply eq_pointers|]. inversion 1; first [done|type_clash].
  - eexists. split; [reflexivity|]. split; [done|]. inversion 1; type_clash.
  - eexists. split; [reflexivity|]. split; [done|]. inversion 1; type_clash.
  - change (if _ || _ then _ else ?x) with x. change (if OBJTYPE_RECORD =? OBJTYPE_UNBOXED_VECTOR then _ else ?x) with x.
    change (if OBJTYPE_RECORD =? OBJTYPE_BOXED_VECTOR then _ else ?x) with x.
    change (if OBJTYPE_RECORD =? OBJTYPE_INTINF then _ else ?x) with x.
    change (if OBJTYPE_RECORD =? OBJTYPE_RECORD then ?x else _) with x.
    assert (OBJ_NUM_BITMAPS m a =? OBJ_NUM_BITMAPS m b = true) as -> by (apply Z.eqb_eq; unfold OBJ_NUM_BITMAPS; by rewrite Hsize).
    rewrite Hmod by (by right). cbn [Z.eqb assert_that mbind res_bind].
    destruct (forallb _ _) eqn:Hbits.
    + rewrite forallb_seq_spec in Hbits. setoid_rewrite Z.eqb_eq in Hbits.
      destruct (record_pointers Ht) as (r & -> & Hr); [congruence| |].
      { intros i Hi. unfold BITMAP_BIT. specialize (Hbits (i / 32)%nat (Hbm i Hi Ht)).
        rewrite Nat2Z.inj_div in Hbits. change (Z.of_nat 32) with BITMAP_NUM_BITS in Hbits. by rewrite Hbits. }
      exists r. split; [done|]. rewrite Hr. split.
      * intros H. apply eq_record; [done..| |]; intros i Hi Htag; specialize (H i Hi).
        -- by rewrite Htag in H.
        -- by rewrite (proj2 (Z.eqb_neq _ _)) in H.
      * inversion 1 as [| | |? ? _ _ H1 H2]; [type_clash..|]. intros i Hi. subst.
        destruct (Z.eqb_spec (BITMAP_BIT m (OBJ_BITMAP m a) i) TAG_UNBOXED); auto.
    + exists false. split; [done|]. split; [done|]. inversion 1; [type_clash..|].
      exfalso. apply not_true_iff_false in Hbits. apply Hbits, forallb_seq_spec. intros i Hi. apply Z.eqb_eq. by auto.
  - eexists. split; [reflexivity|]. rewrite Z.eqb_eq. split; [by apply eq_intinf|]. inversion 1; first [done|type_clash].
Qed.
End Contents.

Lemma size_nonneg a : 0 <= OBJ_SIZE m a.
Proof. unfold OBJ_SIZE. apply Z.land_nonneg. by right. Qed.

Lemma bitmap_index a i : (i < num_fields m a)%nat -> (i / 32 < Z.to_nat (OBJ_NUM_BITMAPS m a))%nat.
Proof.
  intros Hi. pose proof (size_nonneg a). unfold num_fields in Hi. unfold OBJ_NUM_BITMAPS, OBJ_BITMAPS_LEN.
  set (n := OBJ_SIZE m a / SIZEOF_POINTER) in *. change BITMAP_NUM_BITS with 32.
  assert (0 <= n) by (apply Z.div_pos; [lia|done]).
  apply Nat2Z.inj_lt. rewrite Nat2Z.inj_div, Z2Nat.id by (apply Z.div_pos; lia). change (Z.of_nat 32) with 32.
  pose proof (Z.div_mod (Z.of_nat i) 32 ltac:(lia)). pose proof (Z.mod_pos_bound (Z.of_nat i) 32 ltac:(lia)).
  pose proof (Z.div_mod (n + 32 - 1) 32 ltac:(lia)). pose proof (Z.mod_pos_bound (n + 32 - 1) 32 ltac:(lia)).
  lia.
Qed.

Section VectorRecord.
Variable obj_equal : Z -> Z -> res bool.
Variables a b : Z.
Hypothesis obj_equal_ok : forall c d, c ∈ pointer_fields a -> d ∈ pointer_fields b ->
  exists r, obj_equal c d = Ok r /\ (r = true <-> obj_eq c d).
Hypothesis Hsize : OBJ_SIZE m a = OBJ_SIZE m b.
Hypothesis Hmod : OBJ_SIZE m b mod SIZEOF_POINTER = 0.
Hypothesis Hb : OBJ_TYPE m b = OBJTYPE_RECORD.

(** The rest of [sml_obj_equal] for a vector and a record. *)
Lemma vector_record_spec tag :
  OBJ_TYPE m a = OBJTYPE_UNBOXED_VECTOR /\ tag = TAG_UNBOXED \/ OBJ_TYPE m a = OBJTYPE_BOXED_VECTOR /\ tag = TAG_BOXED ->
  exists r, (p ← (if forallb (fun i => BITMAP_BIT m (OBJ_BITMAP m b) i =? tag) (seq 0 (num_fields m b))
                  then Ok (Some (a, b)) else Ok None);
             match p with
             | None => Ok false
             | Some (obj1, obj2) => equal_contents m intinf_cmp obj_equal obj1 obj2
             end) = Ok r /\ (r = true <-> vector_record_eq a b).
Proof.
  intros Hty. destruct (forallb _ _) eqn:Htags.
  2:{ eexists. split; [reflexivity|]. split; [done|]. intros H. exfalso. apply not_true_iff_false in Htags.
      apply Htags, forallb_seq_spec. intros i Hi. apply Z.eqb_eq.
      destruct Hty as [[Ha ->]|[Ha ->]]; inversion H; first [by auto|type_clash]. }
  rewrite forallb_seq_spec in Htags. setoid_rewrite Z.eqb_eq in Htags.
  cbn [mbind res_bind]. unfold equal_contents. destruct Hty as [[Ha ->]|[Ha ->]]; rewrite Ha.
  - change (if _ || _ then _ else ?x) with x. change (if _ =? _ then ?x else _) with x.
    eexists. split; [reflexivity|]. rewrite bool_decide_eq_true.
    split; [by apply eq_bytes_record|]. inversion 1; first [done|type_clash].
  - change (if _ || _ then _ else ?x) with x. change (if OBJTYPE_BOXED_VECTOR =? OBJTYPE_UNBOXED_VECTOR then _ else ?x) with x.
    change (if OBJTYPE_BOXED_VECTOR =? OBJTYPE_BOXED_VECTOR then ?x else _) with x.
    rewrite Hsize, Hmod. cbn [Z.eqb assert_that mbind res_bind].
    destruct (vector_pointers obj_equal a b obj_equal_ok Hsize Ha) as (r & -> & Hr); [by right|].
    exists r. split; [done|]. rewrite Hr. split; [by apply eq_pointers_record|]. inversion 1; first [done|type_clash].
Qed.

(** ... whatever the type of [a] is. *)
Lemma vector_case :
  exists r, (p ← match (if OBJ_TYPE m a =? OBJTYPE_UNBOXED_VECTOR then Some TAG_UNBOXED
                        else if OBJ_TYPE m a =? OBJTYPE_BOXED_VECTOR then Some TAG_BOXED else None) with
                 | None => Ok None
                 | Some tag => assert_that (OBJ_SIZE m b mod SIZEOF_POINTER =? 0);;
                     Ok (if forallb (fun i => BITMAP_BIT m (OBJ_BITMAP m b) i =? tag) (seq 0 (num_fields m b))
                         then Some (a, b) else None)
                 end;
             match p with
             | None => Ok false
             | Some (obj1, obj2) => equal_contents m intinf_cmp obj_equal obj1 obj2
             end) = Ok r /\ (r = true <-> vector_record_eq a b).
Proof.
  destruct (Z.eqb_spec (OBJ_TYPE m a) OBJTYPE_UNBOXED_VECTOR) as [Hu|Hu];
    [|destruct (Z.eqb_spec (OBJ_TYPE m a) OBJTYPE_BOXED_VECTOR) as [Hbx|Hbx]].
  - rewrite Hmod. cbn [Z.eqb assert_that mbind res_bind]. destruct (vector_record_spec TAG_UNBOXED) as (r & Hrun & Hr); [by left|].
    exists r. split; [|done]. rewrite <- Hrun. by destruct (forallb _ _).
  - rewrite Hmod. cbn [Z.eqb assert_that mbind res_bind]. destruct (vector_record_spec TAG_BOXED) as (r & Hrun & Hr); [by right|].
    exists r. split; [|done]. rewrite <- Hrun. by destruct (forallb _ _).
  - exists false. split; [done|]. split; [done|]. by inversion 1.
Qed.
End VectorRecord.

Lemma obj_eq_sym_rec a b : obj_eq a b -> a <> b -> a <> 0 /\ b <> 0 /\ OBJ_SIZE m a = OBJ_SIZE m b /\
  ((OBJ_TYPE m a = OBJ_TYPE m b /\ content_eq a b) \/
   (OBJ_TYPE m a <> OBJ_TYPE m b /\ OBJ_TYPE m b = OBJTYPE_RECORD /\ vector_record_eq a b) \/
   (OBJ_TYPE m a <> OBJ_TYPE m b /\ OBJ_TYPE m a = OBJTYPE_RECORD /\ vector_record_eq b a)).
Proof.
  intros H Hne. inversion H as [|? ? ? ? ? ? Hc|? ? ? ? ? Ht Hv|? ? ? ? ? Ht Hv]; subst; [done|..].
  - do 3 (split; [done|]). by left.
  - do 3 (split; [done|]). right. left. split; [|done]. rewrite Ht. inversion Hv as [? ? Ha|? ? Ha]; rewrite Ha; discriminate.
  - do 3 (split; [done|]). right. right. split; [|done]. rewrite Ht. inversion Hv as [? ? Ha|? ? Ha]; rewrite Ha; discriminate.
Qed.

(** Objects of different types are equal when one is a record with the
    contents of the other, a vector. *)
Lemma different_types_spec obj_equal a b :
  (forall x y c d, x = a /\ y = b \/ x = b /\ y = a -> c ∈ pointer_fields x -> d ∈ pointer_fields y ->
    exists r, obj_equal c d = Ok r /\ (r = true <-> obj_eq c d)) ->
  (forall x, x = a \/ x = b -> OBJ_TYPE m x = OBJTYPE_RECORD -> OBJ_SIZE m x mod SIZEOF_POINTER = 0) ->
  a <> b -> a <> 0 -> b <> 0 -> OBJ_SIZE m a = OBJ_SIZE m b -> OBJ_TYPE m a <> OBJ_TYPE m b ->
  exists r, (p ← equal_types m a b;
             match p with
             | None => Ok false
             | Some (obj1, obj2) => equal_contents m intinf_cmp obj_equal obj1 obj2
             end) = Ok r /\ (r = true <-> obj_eq a b).
Proof.
  intros Hrec Hmod Hab Ha0 Hb0 Hs Ht. unfold equal_types. rewrite (proj2 (Z.eqb_neq _ _) Ht).
  destruct (Z.eqb_spec (OBJ_TYPE m a) OBJTYPE_RECORD) as [Hra|Hra].
  - destruct (vector_case obj_equal b a) as (r & Hrun & Hr); [intros c d; apply Hrec; by right|done|by apply Hmod; [left|]|done|].
    cbn iota. rewrite Hrun. exists r.
    split; [done|]. rewrite Hr. split; [by apply eq_record_left|]. intros H. apply obj_eq_sym_rec in H; [|done].
    destruct H as (_ & _ & _ & [?|[(? & ? & _)|?]]); [tauto|congruence|tauto].
  - destruct (Z.eqb_spec (OBJ_TYPE m b) OBJTYPE_RECORD) as [Hrb|Hrb]; cbn [negb].
    + destruct (vector_case obj_equal a b) as (r & Hrun & Hr); [intros c d; apply Hrec; by left|done|by apply Hmod; [right|]|done|].
      rewrite Hrun. exists r.
      split; [done|]. rewrite Hr. split; [by apply eq_record_right|]. intros H. apply obj_eq_sym_rec in H; [|done]. tauto.
    + exists false. split; [done|]. split; [done|]. intros H. apply obj_eq_sym_rec in H; tauto.
Qed.

(** [sml_obj_equal] decides structural equality. *)
Lemma sml_obj_equal_spec P rank : wf_objects P rank -> forall fuel a b,
  P a -> P b -> (rank a < fuel)%nat -> (rank b < fuel)%nat ->
  exists r, sml_obj_equal m intinf_cmp fuel a b = Ok r /\ (r = true <-> obj_eq a b).
Proof.
  intros [Hty Hsz Hfl]. induction fuel as [|fuel IH]; intros a b Pa Pb Ha Hb; [lia|]. cbn [sml_obj_equal].
  destruct (Z.eqb_spec a b) as [<-|Hab]; [exists true; split; [done|]; split; [intros _; apply eq_same|done]|].
  destruct (Z.eqb_spec a 0) as [Ha0|Ha0]; [|destruct (Z.eqb_spec b 0) as [Hb0|Hb0]]; cbn [orb].
  1-2: exists false; split; [done|]; split; [done|]; intros H; apply obj_eq_sym_rec in H; tauto.
  destruct (Z.eqb_spec (OBJ_SIZE m a) (OBJ_SIZE m b)) as [Hs|Hs]; cbn [negb].
  2: exists false; split; [done|]; split; [done|]; intros H; apply obj_eq_sym_rec in H; tauto.
  assert (Hrec : forall x y c d, x = a /\ y = b \/ x = b /\ y = a -> c ∈ pointer_fields x -> d ∈ pointer_fields y ->
    exists r, sml_obj_equal m intinf_cmp fuel c d = Ok r /\ (r = true <-> obj_eq c d)).
  { intros x y c d Hxy Hc Hd. assert (P x /\ P y /\ x <> 0 /\ y <> 0 /\ (rank x <= fuel)%nat /\ (rank y <= fuel)%nat)
      as (Px & Py & Hx & Hy & Hrx & Hry) by (destruct Hxy as [[-> ->]|[-> ->]]; repeat split; done || lia).
    destruct (Hfl x c Px Hx Hc), (Hfl y d Py Hy Hd). apply IH; try done; lia. }
  destruct (decide (OBJ_TYPE m a = OBJ_TYPE m b)) as [Ht|Ht].
  - unfold equal_types. rewrite (proj2 (Z.eqb_eq _ _) Ht). cbn [mbind res_bind].
    destruct (equal_contents_spec (sml_obj_equal m intinf_cmp fuel) a b) as (r & Hrun & Hr); try done.
    + intros c d. apply Hrec. by left.
    + by apply Hsz.
    + by apply Hty.
    + intros i Hi _. by apply bitmap_index.
    + exists r. split; [done|]. rewrite Hr. split; [by apply eq_content|]. intros H. apply obj_eq_sym_rec in H; tauto.
  - apply different_types_spec; try done. intros x [->| ->] Hr; apply Hsz; try done; by right.
Qed.
End Equal.

(** ** Copying *)
Definition plain_write (m : mem) (obj addr v : Z) : res mem := Ok (store64 m addr v).

(** [m'] is [m] with [len] pointers copied. *)
Definition copied (m m' : mem) (from to : Z) (len : nat) : Prop :=
  (forall k, (k < len)%nat -> load64 m' (to + 8 * Z.of_nat k) = load64 m (from + 8 * Z.of_nat k)) /\
  (forall x, x < to \/ to + 8 * Z.of_nat len <= x -> m' x = m x).

Lemma load64_range m a : bytes_ok m -> 0 <= load64 m a < 2 ^ 64.
Proof. intros Hm. apply (load_range m a 8 Hm). Qed.

Lemma load64_ext m m' a : (forall x, a <= x < a + 8 -> m' x = m x) -> load64 m' a = load64 m a.
Proof. intros H. apply load_ext. intros x Hx. apply H. simpl in Hx. lia. Qed.

Lemma copy_overlapping_spec src si dst di n : forall m, bytes_ok m -> 0 <= si -> si + Z.of_nat n < 2 ^ 32 ->
  (src + 8 * si <= dst + 8 * di /\ (dst - src) mod 8 = 0 \/ dst + 8 * (di + Z.of_nat n) <= src + 8 * si) ->
  exists m', copy_overlapping load64 plain_write n m src si dst di = Ok m' /\
    copied m m' (src + 8 * si) (dst + 8 * di) n.
Proof.
  induction n as [|n IH]; intros m Hm Hsi Hlen Hov; [by exists m; repeat split; try lia|].
  cbn [copy_overlapping mbind res_bind]. unfold plain_write at 1.
  rewrite u32_small by (unfold is_u32; lia). cbn [mbind res_bind].
  set (v := load64 m _). set (m1 := store64 m (dst + 8 * (di + Z.of_nat n)) v).
  destruct (IH m1) as (m' & Hrun & Hcopy & Hsame); [by apply store_bytes_ok|done|lia|lia|].
  exists m'. split; [done|].
  assert (Hm1 : forall x, x < dst + 8 * (di + Z.of_nat n) \/ dst + 8 * (di + Z.of_nat n) + 8 <= x -> m1 x = m x).
  { intros x Hx. apply store_other. simpl. lia. }
  split.
  - intros k Hk. destruct (decide (k = n)) as [->|].
    + rewrite (load64_ext m1 m') by (intros x Hx; apply Hsame; lia).
      replace (dst + 8 * di + 8 * Z.of_nat n) with (dst + 8 * (di + Z.of_nat n)) by lia.
      unfold m1. rewrite load_store64 by (by apply load64_range). unfold v. f_equal. lia.
    + rewrite Hcopy by lia. apply load64_ext. intros x Hx. apply Hm1.
      destruct Hov as [[Hle Hmod]|Hov]; [|lia].
      apply Z.mod_divide in Hmod as [q Hq]; [|lia]. lia.
  - intros x Hx. rewrite Hsame by lia. apply Hm1. lia.
Qed.

Lemma copy_forward_spec src dst n : forall m si di, bytes_ok m -> 0 <= si -> 0 <= di ->
  si + Z.of_nat n < 2 ^ 32 -> di + Z.of_nat n < 2 ^ 32 ->
  (src + 8 * (si + Z.of_nat n) <= dst + 8 * di \/ dst + 8 * (di + Z.of_nat n) <= src + 8 * si) ->
  exists m', copy_forward load64 plain_write n m src si dst di = Ok m' /\
    copied m m' (src + 8 * si) (dst + 8 * di) n.
Proof.
  induction n as [|n IH]; intros m si di Hm Hsi Hdi Hls Hld Hov; [by exists m; repeat split; try lia|].
  cbn [copy_forward mbind res_bind]. unfold plain_write at 1. cbn [mbind res_bind].
  rewrite !u32_small by (unfold is_u32; lia). set (v := load64 m _). set (m1 := store64 m (dst + 8 * di) v).
  destruct (IH m1 (si + 1) (di + 1)) as (m' & Hrun & Hcopy & Hsame); [by apply store_bytes_ok|lia..|].
  exists m'. split; [done|].
  assert (Hm1 : forall x, x < dst + 8 * di \/ dst + 8 * di + 8 <= x -> m1 x = m x).
  { intros x Hx. apply store_other. simpl. lia. }
  split.
  - intros [|k] Hk.
    + rewrite (load64_ext m1 m') by (intros x Hx; apply Hsame; lia). rewrite !Z.add_0_r.
      unfold m1. by rewrite load_store64 by (by apply load64_range).
    + replace (dst + 8 * di + 8 * Z.of_nat (S k)) with (dst + 8 * (di + 1) + 8 * Z.of_nat k) by lia.
      rewrite Hcopy by lia.
      replace (src + 8 * si + 8 * Z.of_nat (S k)) with (src + 8 * (si + 1) + 8 * Z.of_nat k) by lia.
      apply load64_ext. intros x Hx. apply Hm1. lia.
  - intros x Hx. rewrite Hsame by lia. apply Hm1. lia.
Qed.

(** ** Properties *)

(** C22. [sml_obj_equal] terminates on objects of finite depth, never fails, and
    decides structural equality: vectors and records by content, arrays by
    identity, big integers by value, a record also against a vector when all
    of its fields are of the vector's kind. *)
Theorem sml_obj_equal_correct m intinf_cmp P rank fuel a b :
  wf_objects m P rank -> P a -> P b -> (rank a < fuel)%nat -> (rank b < fuel)%nat ->
  exists r, sml_obj_equal m intinf_cmp fuel a b = Ok r /\ (r = true <-> obj_eq m intinf_cmp a b).
Proof. intros Hwf. by apply (sml_obj_equal_spec m intinf_cmp P rank Hwf). Qed.

Module EqualSample.
(** Two records of one boxed field that refer to equal strings. *)
Definition m : mem :=
  let str m a := store_bytes (store32 m (a - 4) 4) a [65; 66; 67; 0] in
  let rec m a p := store32 (store64 (store32 m (a - 4) (OBJ_HEADER_WORD OBJTYPE_RECORD 8)) a p) (a + 8) 1 in
  rec (rec (str (str (fun _ => 0) 16) 32) 64 16) 96 32.
Definition P (a : Z) : Prop := a ∈ [16; 32; 64; 96].
Definition rank (a : Z) : nat := if 48 <? a then 1 else 0.
Lemma P_cases a : P a <-> a = 16 \/ a = 32 \/ a = 64 \/ a = 96.
Proof. unfold P. rewrite !elem_of_cons, elem_of_nil. tauto. Qed.
Lemma wf : wf_objects m P rank.
Proof.
  split.
  - intros a [->|[->|[->| ->]]]%P_cases _; apply (bool_decide_unpack _); vm_compute; exact I.
  - intros a [->|[->|[->| ->]]]%P_cases _ H; vm_compute in H |- *; first [reflexivity|destruct H; discriminate].
  - intros a c [->|[->|[->| ->]]]%P_cases _ Hc; vm_compute in Hc;
      (inversion Hc as [|? ? ? H]; subst; [|inversion H]) || inversion Hc;
      (split; [apply P_cases; tauto|vm_compute; lia]).
Qed.
End EqualSample.

Lemma sml_obj_equal_correct_witness :
  exists r, sml_obj_equal EqualSample.m (fun _ _ => 1) 2 64 96 = Ok r /\
    (r = true <-> obj_eq EqualSample.m (fun _ _ => 1) 64 96).
Proof.
  apply (sml_obj_equal_correct EqualSample.m _ EqualSample.P EqualSample.rank 2 64 96 EqualSample.wf);
    [apply EqualSample.P_cases; tauto..|vm_compute; lia|vm_compute; lia].
Defined.

(** [sml_copyary] copies the pointers and nothing else when the source and
    the destination do not overlap, and within one array when the
    destination does not begin below the source. *)
Theorem sml_copyary_correct m src si dst di len :
  bytes_ok m -> 0 <= si -> 0 <= di -> si + Z.of_nat len < 2 ^ 32 -> di + Z.of_nat len < 2 ^ 32 ->
  (src = dst /\ si <= di \/ src + 8 * (si + Z.of_nat len) <= dst + 8 * di /\ src <> dst \/
   dst + 8 * (di + Z.of_nat len) <= src + 8 * si) ->
  exists m', sml_copyary load64 plain_write m src si dst di (Z.of_nat len) = Ok m' /\
    copied m m' (src + 8 * si) (dst + 8 * di) len.
Proof.
  intros Hm Hsi Hdi Hls Hld Hov. unfold sml_copyary. rewrite Nat2Z.id.
  destruct (Z.eqb_spec src dst) as [->|Hne].
  - apply copy_overlapping_spec; [done..|]. destruct Hov as [[_ Hle]|[[_ ?]|Hov]]; [|done|by right].
    left. split; [lia|]. by rewrite Z.sub_diag.
  - apply copy_forward_spec; [done..|]. destruct Hov as [[? _]|[[? _]|Hov]]; [done|by left|by right].
Qed.

Lemma zero_bytes_ok : bytes_ok (fun _ => 0).
Proof. intros x. lia. Qed.

Lemma sml_copyary_correct_witness :
  exists m', sml_copyary load64 plain_write (store64 (fun _ => 0) 16 5) 16 0 16 1 (Z.of_nat 3) = Ok m' /\
    copied (store64 (fun _ => 0) 16 5) m' (16 + 8 * 0) (16 + 8 * 1) 3.
Proof. apply sml_copyary_correct; [apply store_bytes_ok, zero_bytes_ok|lia..]. Defined.

(** Within one array and downwards, [sml_copyary] does not copy: moving the
    last two of the pointers 1, 2, 3 to the front yields 3, 3, 3 where
    [memmove] yields 2, 3, 3. *)
Theorem sml_copyary_downwards : exists m m',
  (load64 m 16, load64 m 24, load64 m 32) = (1, 2, 3) /\
  sml_copyary load64 plain_write m 16 1 16 0 2 = Ok m' /\
  (load64 m' 16, load64 m' 24, load64 m' 32) = (3, 3, 3).
Proof.
  exists (store64 (store64 (store64 (fun _ => 0) 16 1) 24 2) 32 3). eexists.
  split; [reflexivity|]. split; [vm_compute; reflexivity|]. vm_compute. reflexivity.
Qed.

(** [sml_obj_alloc] of an unboxed vector writes the header and nothing else. *)
Lemma sml_obj_alloc_unboxed {St} (sml_alloc : St -> Z -> res (Z * St)) st st' m len obj :
  0 <= len <= OBJ_SIZE_MASK -> sml_alloc st len = Ok (obj, st') ->
  exists m', sml_obj_alloc sml_alloc st m OBJTYPE_UNBOXED_VECTOR len = Ok (obj, st', m') /\
    (forall m'', (forall x, x < obj -> m'' x = m' x) -> OBJ_TYPE m'' obj = OBJTYPE_UNBOXED_VECTOR /\ OBJ_SIZE m'' obj = len) /\
    (forall x, x < obj - 4 \/ obj <= x -> m' x = m x).
Proof.
  intros Hlen Halloc. destruct (header_word OBJTYPE_UNBOXED_VECTOR len) as (Ht & Hs & Hu & _); [by left|lia|].
  assert (Hsmall : 0 <= len < 2 ^ 28) by (change OBJ_SIZE_MASK with (2 ^ 28 - 1) in Hlen; lia).
  set (m' := store32 m (obj - 4) (OBJ_HEADER_WORD OBJTYPE_UNBOXED_VECTOR len)).
  assert (Hh : forall m'', (forall x, x < obj -> m'' x = m' x) -> OBJ_TYPE m'' obj = OBJTYPE_UNBOXED_VECTOR /\ OBJ_SIZE m'' obj = len).
  { intros m'' Hm''. unfold OBJ_TYPE, OBJ_SIZE. assert (OBJ_HEADER m'' obj = OBJ_HEADER_WORD OBJTYPE_UNBOXED_VECTOR len) as ->; [|done].
    unfold OBJ_HEADER. transitivity (load32 m' (obj - 4)); [|by apply load_store32].
    apply load_ext. intros x Hx. apply Hm''. simpl in Hx. lia. }
  exists m'. split; [|split; [done|]].
  - unfold sml_obj_alloc. rewrite (u32_small len) by (unfold is_u32; lia).
    change OBJ_SIZE_MASK with (Z.ones 28). rewrite Z.land_ones, (Z.mod_small len), Z.eqb_refl by lia.
    cbn [assert_that mbind res_bind]. rewrite Halloc. cbn [mbind res_bind]. fold m'.
    destruct (Hh m') as [-> ->]; [done|]. by rewrite !Z.eqb_refl.
  - intros x Hx. apply store_other. simpl. lia.
Qed.

(** The bytes of a string that was stored behind a header. *)
Lemma load_stored_string m a str :
  load_bytes (store8 (store_bytes m a str) (a + Z.of_nat (length str)) 0) a (S (length str)) = str ++ [0].
Proof.
  apply list_eq. intros i. unfold load_bytes, store8. rewrite list_lookup_fmap.
  destruct (Nat.lt_trichotomy i (length str)) as [Hi|[->|Hi]].
  - rewrite lookup_seq_lt by lia. rewrite lookup_app_l by done.
    destruct (lookup_lt_is_Some_2 str i Hi) as [b Hb]. rewrite Hb. simpl. f_equal.
    rewrite (proj2 (Z.eqb_neq _ _)) by lia. by apply store_bytes_at.
  - rewrite lookup_seq_lt by lia. rewrite lookup_app_r, Nat.sub_diag by done. simpl. by rewrite Z.eqb_refl.
  - rewrite lookup_seq_ge by lia. symmetry. apply lookup_ge_None_2. rewrite length_app. simpl. lia.
Qed.

(** [sml_str_new2] makes a string object: an unboxed vector with the bytes
    and a terminating NUL, in the memory that [sml_alloc] returned. *)
Theorem sml_str_new2_correct {St} (sml_alloc : St -> Z -> res (Z * St)) st st' m str obj :
  Z.of_nat (length str) + 1 <= OBJ_SIZE_MASK ->
  sml_alloc st (Z.of_nat (length str) + 1) = Ok (obj, st') ->
  exists m', sml_str_new2 sml_alloc st m str = Ok (obj, st', m') /\
    OBJ_TYPE m' obj = OBJTYPE_UNBOXED_VECTOR /\ OBJ_STR_SIZE m' obj = Z.of_nat (length str) /\
    load_bytes m' obj (S (length str)) = str ++ [0] /\ sml_obj_enum_ptr m' obj = Ok [] /\
    (forall x, x < obj - 4 \/ obj + Z.of_nat (length str) < x -> m' x = m x).
Proof.
  intros Hlen Halloc.
  destruct (sml_obj_alloc_unboxed sml_alloc st st' m (Z.of_nat (length str) + 1) obj) as (m1 & Hr & Hh & Hm1); [lia|done|].
  unfold sml_str_new2. rewrite Hr. cbn [mbind res_bind]. eexists. split; [reflexivity|].
  set (len := Z.of_nat (length str)) in *. set (m2 := store8 (store_bytes m1 obj str) (obj + len) 0).
  assert (Hm2 : forall x, x < obj \/ obj + len < x -> m2 x = m1 x).
  { intros x Hx. unfold m2, store8. rewrite (proj2 (Z.eqb_neq _ _)) by lia. apply store_bytes_other. lia. }
  destruct (Hh m2) as [Ht Hs]; [intros x Hx; apply Hm2; lia|].
  split; [done|]. split; [unfold OBJ_STR_SIZE; lia|]. split; [apply load_stored_string|]. split.
  - unfold sml_obj_enum_ptr. by rewrite Ht.
  - intros x Hx. rewrite Hm2 by lia. apply Hm1. lia.
Qed.

Lemma sml_str_new2_correct_witness :
  exists m', sml_str_new2 (fun st _ => Ok (16, st)) tt (fun _ => 0) [104; 105] = Ok (16, tt, m') /\
    OBJ_TYPE m' 16 = OBJTYPE_UNBOXED_VECTOR /\ OBJ_STR_SIZE m' 16 = Z.of_nat (length [104; 105]) /\
    load_bytes m' 16 (S (length [104; 105])) = [104; 105] ++ [0] /\ sml_obj_enum_ptr m' 16 = Ok [] /\
    (forall x, x < 16 - 4 \/ 16 + Z.of_nat (length [104; 105]) < x -> m' x = 0).
Proof.
  apply (sml_str_new2_correct (fun st _ => Ok (16, st)) tt tt (fun _ => 0) [104; 105] 16); [vm_compute; discriminate|done].
Defined.
