(* ===== verification/ObjectTyping.v ===== *)
(** * The heap is well typed

    What the collector, equality and the primitives rely on: every object
    has one of the object types, its pointers are null or objects, and
    objects do not overlap.  The operations of object.c that make objects
    and the stores of ML code into pointer fields keep it so. *)
From Stdlib Require Import ZArith Lia.
From stdpp Require Import base option list relations.
From S2P Require Import Prelude Bits Memory Object ObjectThms.

Local Open Scope Z_scope.

(** The bytes of an object, the header included. *)
Definition extent (m : mem) (a x : Z) : Prop := a - 4 <= x < a - 4 + OBJ_TOTAL_SIZE m a.
Definition disjoint_extents (m : mem) (a b : Z) : Prop :=
  a - 4 + OBJ_TOTAL_SIZE m a <= b - 4 \/ b - 4 + OBJ_TOTAL_SIZE m b <= a - 4.

Record typed (m : mem) (Obj : Z -> Prop) : Prop := {
  ty_null : ~ Obj 0;
  ty_type a : Obj a -> OBJ_TYPE m a ∈ objtypes;
  ty_pointers a : Obj a -> exists ps, sml_obj_enum_ptr m a = Ok ps /\ forall p, p ∈ ps -> load64 m p = 0 \/ Obj (load64 m p);
  ty_apart a b : Obj a -> Obj b -> a <> b -> disjoint_extents m a b
}.

(** ** An object depends on its own bytes only *)
Lemma total_size_ge m a : 4 + OBJ_SIZE m a <= OBJ_TOTAL_SIZE m a /\ 0 <= OBJ_SIZE m a.
Proof.
  assert (Hs : 0 <= OBJ_SIZE m a < 2 ^ 28).
  { unfold OBJ_SIZE, OBJ_SIZE_MASK. change 0x0fffffff with (Z.ones 28). rewrite Z.land_ones by lia. apply Z.mod_pos_bound. lia. }
  unfold OBJ_TOTAL_SIZE, OBJ_NUM_BITMAPS, OBJ_BITMAPS_LEN, SIZEOF_BITMAP, SIZEOF_POINTER, BITMAP_NUM_BITS. split; [|lia].
  case_match; [|lia]. assert (0 <= (OBJ_SIZE m a / 8 + 32 - 1) / 32); [|lia].
  apply Z.div_pos; [|lia]. pose proof (Z.div_pos (OBJ_SIZE m a) 8). lia.
Qed.

Section Extent.
Variables (m m' : mem) (a : Z).
Hypothesis Hsame : forall x, extent m a x -> m' x = m x.

Lemma header_kept : OBJ_HEADER m' a = OBJ_HEADER m a.
Proof.
  apply load_ext. intros x Hx. apply Hsame. unfold extent. pose proof (total_size_ge m a). simpl in Hx. lia.
Qed.
Lemma type_kept : OBJ_TYPE m' a = OBJ_TYPE m a.
Proof. unfold OBJ_TYPE. by rewrite header_kept. Qed.
Lemma size_kept : OBJ_SIZE m' a = OBJ_SIZE m a.
Proof. unfold OBJ_SIZE. by rewrite header_kept. Qed.
Lemma total_same : OBJ_TOTAL_SIZE m' a = OBJ_TOTAL_SIZE m a.
Proof. unfold OBJ_TOTAL_SIZE, OBJ_NUM_BITMAPS. by rewrite type_kept, size_kept. Qed.

(** The addresses of the pointers lie inside of the payload. *)
Lemma enum_inside ps p : sml_obj_enum_ptr m a = Ok ps -> p ∈ ps -> a <= p /\ p + 8 <= a + OBJ_SIZE m a.
Proof.
  assert (Hf : forall i, (i < num_fields m a)%nat -> a <= a + 8 * Z.of_nat i /\ a + 8 * Z.of_nat i + 8 <= a + OBJ_SIZE m a).
  { intros i Hi. unfold num_fields, SIZEOF_POINTER in Hi. pose proof (total_size_ge m a).
    assert (Z.of_nat i < OBJ_SIZE m a / 8) by lia. pose proof (Z.div_mod (OBJ_SIZE m a) 8). pose proof (Z.mod_pos_bound (OBJ_SIZE m a) 8). lia. }
  unfold sml_obj_enum_ptr. repeat case_match; intros [= <-] Hp; [by apply elem_of_nil in Hp|..];
    apply list_elem_of_fmap in Hp as (i & -> & Hi); apply Hf.
  - apply elem_of_seq in Hi. lia.
  - apply list_elem_of_filter in Hi as [_ Hi]. apply elem_of_seq in Hi. lia.
Qed.

(** The addresses are apart. *)
Lemma enum_apart ps p q : sml_obj_enum_ptr m a = Ok ps -> p ∈ ps -> q ∈ ps -> p <> q -> p + 8 <= q \/ q + 8 <= p.
Proof.
  unfold sml_obj_enum_ptr. repeat case_match; intros [= <-] Hp Hq Hne; [by apply elem_of_nil in Hp|..];
    apply list_elem_of_fmap in Hp as (i & -> & _), Hq as (j & -> & _); lia.
Qed.

Lemma bitmap_same i : OBJ_TYPE m a = OBJTYPE_RECORD -> (i < num_fields m a)%nat ->
  BITMAP_BIT m' (OBJ_BITMAP m' a) i = BITMAP_BIT m (OBJ_BITMAP m a) i.
Proof.
  intros Ht Hi. unfold BITMAP_BIT, OBJ_BITMAP. rewrite size_kept. do 2 f_equal. apply load_ext. intros x Hx. apply Hsame.
  unfold extent, OBJ_TOTAL_SIZE. rewrite Ht, Z.eqb_refl. simpl in Hx.
  unfold OBJ_NUM_BITMAPS, OBJ_BITMAPS_LEN, SIZEOF_BITMAP, SIZEOF_POINTER, BITMAP_NUM_BITS, num_fields, SIZEOF_POINTER in *.
  pose proof (total_size_ge m a). assert (Hii : Z.of_nat i < OBJ_SIZE m a / 8) by lia.
  set (n := OBJ_SIZE m a / 8) in *. assert (0 <= Z.of_nat i / 32) by (apply Z.div_pos; lia).
  assert (Z.of_nat i / 32 + 1 <= (n + 32 - 1) / 32); [|lia].
  pose proof (Z.div_mod (Z.of_nat i) 32). pose proof (Z.mod_pos_bound (Z.of_nat i) 32).
  pose proof (Z.div_mod (n + 32 - 1) 32). pose proof (Z.mod_pos_bound (n + 32 - 1) 32). lia.
Qed.

Lemma enum_kept : sml_obj_enum_ptr m' a = sml_obj_enum_ptr m a.
Proof.
  unfold sml_obj_enum_ptr. rewrite type_kept. unfold num_fields. rewrite size_kept. fold (num_fields m a).
  repeat case_match; try done. do 3 f_equal. apply filter_ext_in. intros i Hi. apply elem_of_seq in Hi.
  rewrite bitmap_same; [done|by apply Z.eqb_eq|lia].
Qed.

Lemma pointer_same ps p : sml_obj_enum_ptr m a = Ok ps -> p ∈ ps -> load64 m' p = load64 m p.
Proof.
  intros Hps Hp. destruct (enum_inside ps p Hps Hp). apply load_ext. intros x Hx. apply Hsame. unfold extent.
  pose proof (total_size_ge m a). simpl in Hx. lia.
Qed.
End Extent.

(** ** New objects *)
Lemma typed_new m m' Obj obj n :
  typed m Obj -> obj <> 0 -> OBJ_TYPE m' obj ∈ objtypes -> OBJ_TOTAL_SIZE m' obj = 4 + n -> sml_obj_enum_ptr m' obj = Ok [] ->
  (forall x, x < obj - 4 \/ obj + n <= x -> m' x = m x) ->
  (forall a, Obj a -> obj + n <= a - 4 \/ a - 4 + OBJ_TOTAL_SIZE m a <= obj - 4) ->
  typed m' (fun a => Obj a \/ a = obj).
Proof.
  intros [T0 T1 T2 T3] H0 Ht Hsize Henum Hm Hfresh.
  assert (Hsame : forall a, Obj a -> forall x, extent m a x -> m' x = m x).
  { intros a Ha x Hx. apply Hm. destruct (Hfresh a Ha); unfold extent in Hx; lia. }
  split.
  - intros [H|H]; [by apply T0|by subst].
  - intros a [Ha| ->]; [|done]. rewrite (type_kept m) by (by apply Hsame). by apply T1.
  - intros a [Ha| ->]; [|exists []; split; [done|]; by intros p ?%elem_of_nil].
    destruct (T2 a Ha) as (ps & Hps & Hptr). exists ps. rewrite (enum_kept m) by (by apply Hsame). split; [done|].
    intros p Hp. rewrite (pointer_same m m' a (Hsame a Ha) ps p Hps Hp). destruct (Hptr p Hp); auto.
  - unfold disjoint_extents in *. intros a b [Ha| ->] [Hb| ->] Hne; try done.
    + rewrite (total_same m m' a), (total_same m m' b) by (by apply Hsame). by apply T3.
    + rewrite (total_same m m' a) by (by apply Hsame). rewrite Hsize. destruct (Hfresh a Ha); [right|left]; lia.
    + rewrite (total_same m m' b) by (by apply Hsame). rewrite Hsize. destruct (Hfresh b Hb); [left|right]; lia.
Qed.

(** ** Stores *)
Lemma typed_store m Obj a ps p v :
  typed m Obj -> Obj a -> sml_obj_enum_ptr m a = Ok ps -> p ∈ ps -> v = 0 \/ Obj v -> 0 <= v < 2 ^ 64 ->
  typed (store64 m p v) Obj.
Proof.
  intros [T0 T1 T2 T3] Ha Hps Hp Hv Hr. destruct (enum_inside m a ps p Hps Hp) as [Hp1 Hp2].
  set (m' := store64 m p v). assert (Hm : forall x, x < p \/ p + 8 <= x -> m' x = m x).
  { intros x Hx. apply store_other. simpl. lia. }
  pose proof (total_size_ge m a) as Hts.
  assert (Hother : forall b, Obj b -> b <> a -> forall x, extent m b x -> m' x = m x).
  { intros b Hb Hne x Hx. apply Hm. destruct (T3 a b Ha Hb) as [H|H]; [done|..]; unfold extent in Hx; lia. }
  assert (Hhead : forall b, Obj b -> OBJ_HEADER m' b = OBJ_HEADER m b).
  { intros b Hb. destruct (decide (b = a)) as [->|Hne]; [|by apply header_kept, Hother].
    apply load_ext. intros x Hx. apply Hm. simpl in Hx. lia. }
  assert (Hty : forall b, Obj b -> OBJ_TYPE m' b = OBJ_TYPE m b) by (intros b Hb; unfold OBJ_TYPE; by rewrite Hhead).
  assert (Hsz : forall b, Obj b -> OBJ_SIZE m' b = OBJ_SIZE m b) by (intros b Hb; unfold OBJ_SIZE; by rewrite Hhead).
  assert (Htot : forall b, Obj b -> OBJ_TOTAL_SIZE m' b = OBJ_TOTAL_SIZE m b).
  { intros b Hb. unfold OBJ_TOTAL_SIZE, OBJ_NUM_BITMAPS. by rewrite Hty, Hsz. }
  assert (Henum : forall b, Obj b -> sml_obj_enum_ptr m' b = sml_obj_enum_ptr m b).
  { intros b Hb. destruct (decide (b = a)) as [->|Hne]; [|by apply enum_kept, Hother].
    unfold sml_obj_enum_ptr, num_fields, OBJ_BITMAP. rewrite Hty, Hsz by done. repeat case_match; try done.
    do 3 f_equal. apply filter_ext_in. intros i _. unfold BITMAP_BIT.
    assert (load32 m' (a + OBJ_SIZE m a + 4 * (Z.of_nat i / BITMAP_NUM_BITS)) =
            load32 m (a + OBJ_SIZE m a + 4 * (Z.of_nat i / BITMAP_NUM_BITS))) as ->; [|done].
    apply load_ext. intros x Hx. apply Hm. assert (0 <= Z.of_nat i / BITMAP_NUM_BITS) by (apply Z.div_pos; [lia|done]). lia. }
  split; [done|..].
  - intros b Hb. rewrite Hty by done. by apply T1.
  - intros b Hb. rewrite Henum by done. destruct (T2 b Hb) as (qs & Hqs & Hptr). exists qs. split; [done|]. intros q Hq.
    destruct (decide (b = a)) as [->|Hne].
    + destruct (decide (q = p)) as [->|Hqp]; [unfold m'; rewrite load_store64 by done; tauto|].
      rewrite Hqs in Hps. simplify_eq. assert (q + 8 <= p \/ p + 8 <= q) by (by apply (enum_apart m a ps)).
      unfold m'. rewrite load64_other by lia. by apply Hptr.
    + rewrite (pointer_same m m' b (Hother b Hb Hne) qs q Hqs Hq). by apply Hptr.
  - intros b c Hb Hc Hne. unfold disjoint_extents. rewrite !Htot by done. by apply T3.
Qed.

(** ** What ML code and the primitives do to the heap *)
Section Mutator.
Context {St : Type} (sml_alloc : St -> Z -> res (Z * St)).
Variables (set_intinf_free : St -> Z -> res St) (mpz_init : mem -> Z -> mem).

(** [mpz_init] writes the payload only. *)
Hypothesis mpz_init_writes : forall m a x, x < a \/ a + sizeof_intinf <= x -> mpz_init m a x = m x.

(** The [n] bytes that [sml_alloc] returned and the word before them belong
    to no object. *)
Definition fresh (m : mem) (objs : list Z) (obj n : Z) : Prop :=
  obj <> 0 /\ forall a, a ∈ objs -> obj + n <= a - 4 \/ a - 4 + OBJ_TOTAL_SIZE m a <= obj - 4.

Record heap := Heap { bytes : mem; objs : list Z; allocator : St }.

Inductive heap_step : heap -> heap -> Prop :=
| step_str m os st str obj st' m' :
    sml_str_new2 sml_alloc st m str = Ok (obj, st', m') -> fresh m os obj (Z.of_nat (length str) + 1) ->
    heap_step (Heap m os st) (Heap m' (obj :: os) st')
| step_intinf m os st obj st' m' :
    sml_intinf_new sml_alloc set_intinf_free mpz_init st m = Ok (obj, st', m') -> fresh m os obj sizeof_intinf ->
    heap_step (Heap m os st) (Heap m' (obj :: os) st')
| step_store m os st a ps p v :
    a ∈ os -> sml_obj_enum_ptr m a = Ok ps -> p ∈ ps -> v = 0 \/ v ∈ os -> 0 <= v < 2 ^ 64 ->
    heap_step (Heap m os st) (Heap (store64 m p v) os st).

Definition heap_typed (h : heap) : Prop := typed (bytes h) (fun a => a ∈ objs h).

Lemma typed_iff m (P Q : Z -> Prop) : (forall a, P a <-> Q a) -> typed m P -> typed m Q.
Proof.
  intros Heq [T0 T1 T2 T3]. split.
  - by rewrite <- Heq.
  - intros a Ha. by apply T1, Heq.
  - intros a Ha. apply Heq in Ha. destruct (T2 a Ha) as (ps & H1 & H2). exists ps. split; [done|].
    intros p Hp. rewrite <- Heq. by apply H2.
  - intros a b Ha%Heq Hb%Heq. by apply T3.
Qed.
Lemma typed_cons m os obj : typed m (fun a => a ∈ os \/ a = obj) -> typed m (fun a => a ∈ obj :: os).
Proof. apply typed_iff. intros a. rewrite elem_of_cons. tauto. Qed.

Lemma str_new_length st m str r : sml_str_new2 sml_alloc st m str = Ok r -> Z.of_nat (length str) + 1 <= OBJ_SIZE_MASK.
Proof.
  unfold sml_str_new2, sml_obj_alloc. set (len := Z.of_nat (length str)).
  destruct (Z.eqb_spec (Z.land (u32 (len + 1)) OBJ_SIZE_MASK) (len + 1)) as [He|]; [|done]. intros _. rewrite <- He.
  change OBJ_SIZE_MASK with (Z.ones 28). rewrite Z.land_ones by lia. pose proof (Z.mod_pos_bound (u32 (len + 1)) (2 ^ 28)).
  change (Z.ones 28) with (2 ^ 28 - 1). lia.
Qed.

Lemma str_new_alloc st m str obj st' m' : sml_str_new2 sml_alloc st m str = Ok (obj, st', m') ->
  sml_alloc st (Z.of_nat (length str) + 1) = Ok (obj, st').
Proof.
  intros Hrun. pose proof (str_new_length st m str _ Hrun) as Hlen. revert Hrun.
  unfold sml_str_new2, sml_obj_alloc. intros ([[o s] m1] & Ho & [= -> -> _])%res_bind_ok. apply res_bind_ok in Ho as (_ & _ & Ho).
  apply res_bind_ok in Ho as ([o1 s1] & Ha & Ho). apply res_bind_ok in Ho as (_ & _ & Ho).
  apply res_bind_ok in Ho as (_ & _ & [= -> -> _]).
  rewrite u32_small in Ha; [done|]. unfold is_u32. change OBJ_SIZE_MASK with 268435455 in Hlen. lia.
Qed.

Lemma heap_step_typed h h' : heap_step h h' -> heap_typed h -> heap_typed h'.
Proof.
  unfold heap_typed. intros [m os st str obj st' m' Hrun [H0 Hf]|m os st obj st' m' Hrun [H0 Hf]|m os st a ps p v Ha Hps Hp Hv Hr] Ht;
    cbn [bytes objs] in *.
  - destruct (sml_str_new2_correct sml_alloc st st' m str obj (str_new_length _ _ _ _ Hrun) (str_new_alloc _ _ _ _ _ _ Hrun))
      as (m1 & Hrun1 & Hty & Hsz & _ & Henum & Hm). rewrite Hrun in Hrun1. injection Hrun1 as <-.
    apply typed_cons, (typed_new m m' _ obj (Z.of_nat (length str) + 1)); [done|done|rewrite Hty; by left| |done| |done].
    + unfold OBJ_TOTAL_SIZE, OBJ_STR_SIZE in *. rewrite Hty. change (OBJTYPE_UNBOXED_VECTOR =? OBJTYPE_RECORD) with false. lia.
    + intros x Hx. apply Hm. lia.
  - unfold sml_intinf_new in Hrun. apply res_bind_ok in Hrun as ([o s] & Halloc & Hrun).
    apply res_bind_ok in Hrun as (s1 & Hset & [= <- <- <-]).
    destruct (header_word OBJTYPE_INTINF sizeof_intinf) as (Ht1 & Hs1 & Hu & _); [do 5 right; left|vm_compute; intuition congruence|].
    set (m1 := store32 m (o - 4) (OBJ_HEADER_WORD OBJTYPE_INTINF sizeof_intinf)).
    assert (Hh : OBJ_HEADER (mpz_init m1 o) o = OBJ_HEADER_WORD OBJTYPE_INTINF sizeof_intinf).
    { unfold OBJ_HEADER. transitivity (load32 m1 (o - 4)); [|by apply load_store32].
      apply load_ext. intros x Hx. apply mpz_init_writes. simpl in Hx. lia. }
    assert (Hty : OBJ_TYPE (mpz_init m1 o) o = OBJTYPE_INTINF) by (unfold OBJ_TYPE; by rewrite Hh).
    assert (Hsz : OBJ_SIZE (mpz_init m1 o) o = sizeof_intinf) by (unfold OBJ_SIZE; by rewrite Hh).
    apply typed_cons, (typed_new m _ _ o sizeof_intinf); [done|done|rewrite Hty; do 5 right; left| | | |done].
    + unfold OBJ_TOTAL_SIZE. rewrite Hty, Hsz. done.
    + unfold sml_obj_enum_ptr. rewrite Hty. done.
    + intros x Hx. rewrite mpz_init_writes by lia. apply store_other. unfold sizeof_intinf in Hx. simpl. lia.
  - by apply (typed_store m _ a ps).
Qed.
End Mutator.
Arguments Heap {St} bytes objs allocator.

(** ** Properties *)


Module TypingSample.
(** A heap with one array of one pointer, and an allocator that hands out
    addresses one after the other. *)
Definition m0 : mem := store32 (fun _ => 0) 60 (OBJ_HEADER_WORD OBJTYPE_BOXED_ARRAY 8).
Definition alloc (next n : Z) : res (Z * Z) := Ok (next, next + 256).
Definition init (m : mem) (a : Z) : mem := store64 m a 0.
Definition h0 : heap := Heap m0 [64] 1024.
Definition m1 : mem := store8 (store_bytes (store32 m0 1020 (OBJ_HEADER_WORD OBJTYPE_UNBOXED_VECTOR 3)) 1024 [104; 105]) 1026 0.
Definition h1 : heap := Heap m1 [1024; 64] 1280.
Definition h2 : heap := Heap (store64 m1 64 1024) [1024; 64] 1280.

Lemma typed0 : heap_typed h0.
Proof.
  split; cbn [bytes objs h0].
  - intros H. apply list_elem_of_singleton in H. discriminate H.
  - intros a ->%list_elem_of_singleton. do 3 right. left.
  - intros a ->%list_elem_of_singleton. exists [64]. split; [reflexivity|]. intros p ->%list_elem_of_singleton. left. reflexivity.
  - intros a b ->%list_elem_of_singleton ->%list_elem_of_singleton. done.
Qed.
Lemma steps : rtc (heap_step alloc (fun st _ => Ok st) init) h0 h2.
Proof.
  eapply rtc_l; [|apply rtc_once].
  - apply (step_str alloc _ _ m0 [64] 1024 [104; 105] 1024 1280 m1); [reflexivity|]. split; [done|].
    intros a ->%list_elem_of_singleton. right. vm_compute. discriminate.
  - apply (step_store alloc _ _ m1 [1024; 64] 1280 64 [64] 64 1024); [right; left|reflexivity|left|right; left|lia].
Qed.
End TypingSample.

