(* ===== verification/IntInf.v ===== *)
(** * Big integers

    The big integers of ML: the IntInf primitives of src/src/runtime/prim.c
    and the constructors of src/src/runtime/object.c, over the macros of
    src/src/runtime/intinf.h.  An object of type INTINF has an [mpz_t] of GMP
    as its payload, whose digits GMP keeps in memory of its own; the
    finalizer [intinf_free] gives this memory back.  GMP is the class [Gmp];
    its laws say what its manual says. *)
From Stdlib Require Import ZArith Lia SpecFloat.
From stdpp Require Import base option list gmap.
From S2P Require Import Prelude Bits Memory Object.

Local Open Scope Z_scope.

(** ** GMP *)
(** The functions that assign to a number, with their arguments that are not
    numbers. *)
Inductive gmp_fun :=
| mpz_abs | mpz_neg | mpz_com
| mpz_add | mpz_sub | mpz_mul
| mpz_fdiv_q | mpz_fdiv_r | mpz_tdiv_q | mpz_tdiv_r
| mpz_ior | mpz_xor | mpz_and
| mpz_pow_ui (e : Z)
| mpz_set_si (n : Z) | mpz_set_ui (n : Z)
| mpz_set_d (x : spec_float)
| mpz_set_str (str : list Z) (base : Z).

(** The integer part of a [double]. *)
Definition truncate (x : spec_float) : option Z :=
  match x with
  | S754_zero _ => Some 0
  | S754_finite s m e =>
      let n := if 0 <=? e then Z.pos m * 2 ^ e else Z.pos m / 2 ^ (- e) in
      Some (if s then - n else n)
  | _ => None
  end.

(** The value assigned.  The quotients are rounded down, or toward zero; a
    string is only said to be read right if it was printed in that base. *)
Definition gmp_result (get_str : Z -> Z -> list Z) (f : gmp_fun) (args : list Z) (r : Z) : Prop :=
  match f, args with
  | mpz_abs, [x] => r = Z.abs x
  | mpz_neg, [x] => r = - x
  | mpz_com, [x] => r = Z.lnot x
  | mpz_add, [x; y] => r = x + y
  | mpz_sub, [x; y] => r = x - y
  | mpz_mul, [x; y] => r = x * y
  | mpz_fdiv_q, [x; y] => y <> 0 /\ r = x / y
  | mpz_fdiv_r, [x; y] => y <> 0 /\ r = x mod y
  | mpz_tdiv_q, [x; y] => y <> 0 /\ r = Z.quot x y
  | mpz_tdiv_r, [x; y] => y <> 0 /\ r = Z.rem x y
  | mpz_ior, [x; y] => r = Z.lor x y
  | mpz_xor, [x; y] => r = Z.lxor x y
  | mpz_and, [x; y] => r = Z.land x y
  | mpz_pow_ui e, [x] => 0 <= e < 2 ^ 64 /\ r = x ^ e
  | mpz_set_si n, [] => - 2 ^ 63 <= n < 2 ^ 63 /\ r = n
  | mpz_set_ui n, [] => 0 <= n < 2 ^ 64 /\ r = n
  | mpz_set_d x, [] => truncate x = Some r
  | mpz_set_str str base, [] => 2 <= base <= 36 /\ str = get_str base r
  | _, _ => False
  end.

(** [mpz] is what an [mpz_t] holds, so that a copy of it is a copy of the
    structure, and not of the digits.  [numbers h l]: [l] has all the numbers
    that are initialised and not cleared, with their values. *)
Class Gmp := {
  gheap : Type;
  mpz : Type;
  mpz_init : gheap -> mpz * gheap;
  mpz_clear : mpz -> gheap -> res gheap;
  mpz_call : gmp_fun -> mpz -> list mpz -> gheap -> res (mpz * gheap);
  mpz_get : mpz -> gheap -> res Z;
  mpz_get_si : Z -> Z;
  mpz_get_ui : Z -> Z;
  mpz_get_d : Z -> spec_float;
  mpz_cmp : Z -> Z -> Z;
  mpz_sizeinbase : Z -> Z -> Z;
  mpz_get_str : Z -> Z -> list Z;
  numbers : gheap -> list (mpz * Z) -> Prop;
  numbers_proper h l l' : numbers h l -> l ≡ₚ l' -> numbers h l';
  init_law h l : numbers h l -> numbers (mpz_init h).2 (((mpz_init h).1, 0) :: l);
  clear_law h z n l : numbers h ((z, n) :: l) -> exists h', mpz_clear z h = Ok h' /\ numbers h' l;
  get_law h z n l : numbers h l -> (z, n) ∈ l -> mpz_get z h = Ok n;
  call_law h f z n l args vs r : numbers h ((z, n) :: l) -> Forall2 (fun x a => (x, a) ∈ l) args vs -> gmp_result mpz_get_str f vs r ->
    exists z' h', mpz_call f z args h = Ok (z', h') /\ numbers h' ((z', r) :: l);
  get_si_law n : exists k, mpz_get_si n = n + k * 2 ^ 63;
  get_ui_law n : mpz_get_ui n = Z.abs n mod 2 ^ 64;
  cmp_law x y : Z.sgn (mpz_cmp x y) = Z.sgn (x - y);
  sizeinbase_law n : mpz_sizeinbase n 2 = Z.log2 (Z.abs n) + 1
}.

(** ** The objects *)
Section IntInf.
Context `{Gmp}.

(** The payloads of the objects of type INTINF; no other object passes
    [assert(OBJ_TYPE(obj) == OBJTYPE_INTINF)]. *)
Record intinfs := IntInfs { gmp : gheap; payload : gmap Z mpz }.

Definition intinf_free (obj : Z) (st : intinfs) : res intinfs :=
  v ← deref (payload st !! obj);
  g ← mpz_clear v (gmp st);
  Ok (IntInfs g (delete obj (payload st))).

(** What [sml_alloc] has done when it returns: [finalized] are the big
    integers that a collection has found unreachable in the meantime. *)
Record allocated := Allocated { addr : Z; finalized : list Z }.
Fixpoint run_intinf_free (objs : list Z) (st : intinfs) : res intinfs :=
  match objs with
  | [] => Ok st
  | obj :: objs => st ← intinf_free obj st; run_intinf_free objs st
  end.

Definition intinf_new (al : allocated) (st : intinfs) : res (Z * intinfs) :=
  st ← run_intinf_free (finalized al) st;
  let '(v, g) := mpz_init (gmp st) in
  Ok (addr al, IntInfs g (<[addr al := v]> (payload st))).

(** A macro of intinf.h that assigns to the object [z]. *)
Definition sml_intinf_call (f : gmp_fun) (z : Z) (args : list mpz) (st : intinfs) : res intinfs :=
  v ← deref (payload st !! z);
  '(v, g) ← mpz_call f v args (gmp st);
  Ok (IntInfs g (<[z := v]> (payload st))).
Definition sml_intinf_get (x : Z) (st : intinfs) : res Z :=
  v ← deref (payload st !! x);
  mpz_get v (gmp st).

(** ** The primitives *)
(** [xv = *x; z = sml_intinf_new(); f(z, &xv)]. *)
Definition new_unary (f : gmp_fun) (al : allocated) (x : Z) (st : intinfs) : res (Z * intinfs) :=
  xv ← deref (payload st !! x);
  '(z, st) ← intinf_new al st;
  st ← sml_intinf_call f z [xv] st;
  Ok (z, st).
Definition new_binary (f : gmp_fun) (al : allocated) (x y : Z) (st : intinfs) : res (Z * intinfs) :=
  xv ← deref (payload st !! x);
  yv ← deref (payload st !! y);
  '(z, st) ← intinf_new al st;
  st ← sml_intinf_call f z [xv; yv] st;
  Ok (z, st).
Definition new_constant (f : gmp_fun) (al : allocated) (st : intinfs) : res (Z * intinfs) :=
  '(n, st) ← intinf_new al st;
  st ← sml_intinf_call f n [] st;
  Ok (n, st).

Definition prim_IntInf_abs := new_unary mpz_abs.
Definition prim_IntInf_neg := new_unary mpz_neg.
Definition prim_IntInf_notb := new_unary mpz_com.
Definition prim_IntInf_add := new_binary mpz_add.
Definition prim_IntInf_sub := new_binary mpz_sub.
Definition prim_IntInf_mul := new_binary mpz_mul.
Definition prim_IntInf_div := new_binary mpz_fdiv_q.
Definition prim_IntInf_mod := new_binary mpz_fdiv_r.
Definition prim_IntInf_quot := new_binary mpz_tdiv_q.
Definition prim_IntInf_rem := new_binary mpz_tdiv_r.
Definition prim_IntInf_orb := new_binary mpz_ior.
Definition prim_IntInf_xorb := new_binary mpz_xor.
Definition prim_IntInf_andb := new_binary mpz_and.
Definition prim_IntInf_pow (al : allocated) (x e : Z) (st : intinfs) : res (Z * intinfs) :=
  assert_that (0 <=? e);;
  new_unary (mpz_pow_ui (u64 e)) al x st.

(** [long int] has 64 bits. *)
Definition s64 (x : Z) : Z := if u64 x <? 2 ^ 63 then u64 x else u64 x - 2 ^ 64.
Definition s32 (x : Z) : Z := if u32 x <? 2 ^ 31 then u32 x else u32 x - 2 ^ 32.
Definition prim_IntInf_fromInt (al : allocated) (x : Z) := new_constant (mpz_set_si (s64 (u64 x))) al.
Definition prim_IntInf_fromWord (al : allocated) (x : Z) := new_constant (mpz_set_ui (u64 x)) al.
Definition prim_IntInf_fromInt64 (al : allocated) (x : Z) := new_constant (mpz_set_si (s64 (u64 x))) al.
Definition prim_IntInf_fromWord64 (al : allocated) (x : Z) := new_constant (mpz_set_ui (u64 (s64 (u64 x)))) al.
Definition prim_IntInf_fromReal (al : allocated) (x : spec_float) := new_constant (mpz_set_d x) al.
Definition sml_load_intinf (al : allocated) (hexsrc : list Z) := new_constant (mpz_set_str hexsrc 16) al.

Definition prim_IntInf_toWord (obj : Z) (st : intinfs) : res Z :=
  n ← sml_intinf_get obj st;
  Ok (u32 (u64 (mpz_get_si n))).
Definition prim_IntInf_toWord64 (obj : Z) (st : intinfs) : res Z :=
  v ← sml_intinf_get obj st;
  let n := u64 (mpz_get_ui v) in
  Ok (if Z.sgn v <? 0 then u64 (- n) else n).
Definition prim_IntInf_toReal (obj : Z) (st : intinfs) : res spec_float :=
  n ← sml_intinf_get obj st;
  Ok (mpz_get_d n).
Definition prim_IntInf_cmp (x y : Z) (st : intinfs) : res Z :=
  xv ← sml_intinf_get x st;
  yv ← sml_intinf_get y st;
  Ok (mpz_cmp xv yv).
Definition prim_IntInf_log2 (x : Z) (st : intinfs) : res Z :=
  xv ← sml_intinf_get x st;
  Ok (s32 (mpz_sizeinbase xv 2 - 1)).

(** The buffer of [mpz_get_str] is copied into a string object and freed. *)
Section Strings.
Context {St : Type} (sml_alloc : St -> Z -> res (Z * St)).
Definition prim_IntInf_toString (n : Z) (st : intinfs) (s : St) (m : mem) : res (Z * St * mem) :=
  v ← sml_intinf_get n st;
  sml_str_new sml_alloc s m (mpz_get_str 10 v).
Definition sml_intinf_hex (obj : Z) (st : intinfs) (s : St) (m : mem) : res (Z * St * mem) :=
  v ← sml_intinf_get obj st;
  sml_str_new sml_alloc s m (mpz_get_str 16 v).
End Strings.
End IntInf.
Arguments intinfs H : clear implicits.
