(* ===== verification/IntInfThms.v ===== *)
(** * Big integers: the properties

    The IntInf primitives compute on integers what their names say, as long
    as their operands are not collected while they allocate the result; no
    digits leak or are freed twice.  The class [Gmp] is implemented by a
    small memory of numbers for the examples. *)
From Stdlib Require Import ZArith Lia SpecFloat.
From stdpp Require Import base option list gmap.
From S2P Require Import Prelude Bits Memory Object ObjectThms IntInf.

Local Open Scope Z_scope.

Section Facts.
Context `{Gmp}.

(** The values of all objects of type INTINF; GMP has no other numbers. *)
Definition nums (payload : gmap Z mpz) (vals : gmap Z Z) : list (mpz * Z) :=
  (map_to_list (map_zip payload vals)).*2.
Record intinfs_ok (st : intinfs _) (vals : gmap Z Z) : Prop := {
  io_dom i : is_Some (payload st !! i) <-> is_Some (vals !! i);
  io_numbers : numbers (gmp st) (nums (payload st) vals)
}.

Lemma nums_insert p vals i v n : p !! i = None -> nums (<[i := v]> p) (<[i := n]> vals) ≡ₚ (v, n) :: nums p vals.
Proof.
  intros Hi. unfold nums. rewrite <- map_insert_zip_with.
  rewrite map_to_list_insert; [done|]. by apply map_lookup_zip_with_None; left.
Qed.

Lemma nums_split p vals i v n : p !! i = Some v -> vals !! i = Some n ->
  nums p vals ≡ₚ (v, n) :: nums (delete i p) (delete i vals).
Proof.
  intros Hv Hn. rewrite <- (insert_delete_id p i v Hv), <- (insert_delete_id vals i n Hn) at 1.
  apply nums_insert, lookup_delete_eq.
Qed.

Lemma nums_in p vals i v n : p !! i = Some v -> vals !! i = Some n -> (v, n) ∈ nums p vals.
Proof. intros Hv Hn. rewrite (nums_split p vals i v n) by done. by left. Qed.

Lemma ok_value st vals i n : intinfs_ok st vals -> vals !! i = Some n ->
  exists v, payload st !! i = Some v /\ (v, n) ∈ nums (payload st) vals.
Proof.
  intros Hok Hn. destruct (proj2 (io_dom _ _ Hok i)) as [v Hv]; [by eexists|].
  exists v. split; [done|by apply nums_in with i].
Qed.

Lemma get_ok st vals i n : intinfs_ok st vals -> vals !! i = Some n -> sml_intinf_get i st = Ok n.
Proof.
  intros Hok Hn. destruct (ok_value st vals i n Hok Hn) as (v & Hv & Hin).
  unfold sml_intinf_get. rewrite Hv. by apply (get_law _ _ _ (nums (payload st) vals)), Hin; apply Hok.
Qed.

Lemma insert_dom {A B} (p : gmap Z A) (q : gmap Z B) i a b j :
  (is_Some (p !! j) <-> is_Some (q !! j)) -> is_Some (<[i := a]> p !! j) <-> is_Some (<[i := b]> q !! j).
Proof. rewrite !lookup_insert_is_Some. tauto. Qed.

(** ** Allocation and finalization *)
Lemma intinf_free_ok st vals i n : intinfs_ok st vals -> vals !! i = Some n ->
  exists st', intinf_free i st = Ok st' /\ intinfs_ok st' (delete i vals) /\ payload st' = delete i (payload st).
Proof.
  intros Hok Hn. destruct (ok_value st vals i n Hok Hn) as (v & Hv & _).
  destruct (clear_law (gmp st) v n (nums (delete i (payload st)) (delete i vals))) as (h & Hc & Hh).
  { by apply (numbers_proper _ _ _ (io_numbers _ _ Hok)), nums_split. }
  exists (IntInfs h (delete i (payload st))). unfold intinf_free. rewrite Hv. cbn. rewrite Hc. split; [done|].
  split; [|done]. split; [|done]. intros j. simpl. rewrite !lookup_delete_is_Some. by rewrite (io_dom _ _ Hok).
Qed.

Lemma run_intinf_free_ok objs : forall st vals, intinfs_ok st vals -> NoDup objs -> (forall i, i ∈ objs -> is_Some (vals !! i)) ->
  exists st', run_intinf_free objs st = Ok st' /\ intinfs_ok st' (foldl (fun m i => delete i m) vals objs) /\
    forall i, i ∉ objs -> payload st' !! i = payload st !! i.
Proof.
  induction objs as [|o objs IH]; intros st vals Hok Hnd Hin; [by exists st|].
  apply NoDup_cons in Hnd as [Ho Hnd]. destruct (Hin o) as [n Hn]; [by left|].
  destruct (intinf_free_ok st vals o n Hok Hn) as (st1 & Hf & Hok1 & Hp).
  destruct (IH st1 (delete o vals) Hok1 Hnd) as (st' & Hr & Hok' & Hp').
  { intros i Hi. rewrite lookup_delete_ne by (by intros ->). apply Hin. by right. }
  exists st'. cbn. rewrite Hf. split; [done|]. split; [done|].
  intros i [Hio Hi]%not_elem_of_cons. by rewrite Hp', Hp, lookup_delete_ne.
Qed.

(** The values that are left after an allocation. *)
Definition survivors (al : allocated) (vals : gmap Z Z) : gmap Z Z := foldl (fun m i => delete i m) vals (finalized al).

Record alloc_ok (al : allocated) (vals : gmap Z Z) : Prop := {
  ao_nodup : NoDup (finalized al);
  ao_live i : i ∈ finalized al -> is_Some (vals !! i);
  ao_fresh : survivors al vals !! addr al = None
}.

Lemma intinf_new_ok al st vals : intinfs_ok st vals -> alloc_ok al vals ->
  exists st' z, intinf_new al st = Ok (addr al, st') /\ payload st' !! addr al = Some z /\
    numbers (gmp st') ((z, 0) :: nums (delete (addr al) (payload st')) (survivors al vals)) /\
    (forall i, is_Some (delete (addr al) (payload st') !! i) <-> is_Some (survivors al vals !! i)) /\
    forall i, i ∉ finalized al -> is_Some (vals !! i) -> delete (addr al) (payload st') !! i = payload st !! i.
Proof.
  intros Hok [Hnd Hlive Hfresh]. destruct (run_intinf_free_ok (finalized al) st vals Hok Hnd Hlive) as (st1 & Hr & Hok1 & Hp).
  fold (survivors al vals) in Hok1.
  assert (Hnone : payload st1 !! addr al = None).
  { apply eq_None_not_Some. rewrite (io_dom _ _ Hok1), Hfresh. by intros [? ?]. }
  unfold intinf_new. rewrite Hr. cbn. pose proof (init_law _ _ (io_numbers _ _ Hok1)) as Hi.
  destruct (mpz_init (gmp st1)) as [z g] eqn:Hz. do 2 eexists. split; [done|]. cbn. rewrite delete_insert_id by done.
  split; [by rewrite lookup_insert_eq|]. split; [done|]. split; [apply Hok1|]. intros i Hi' Hv. by apply Hp.
Qed.

Lemma survivors_lookup al vals i : i ∉ finalized al -> survivors al vals !! i = vals !! i.
Proof.
  unfold survivors. revert vals. induction (finalized al) as [|o objs IH]; intros vals Hi; [done|].
  apply not_elem_of_cons in Hi as [Ho Hi]. cbn. by rewrite IH, lookup_delete_ne.
Qed.
End Facts.

(** ** What the primitives compute *)
Section Primitives.
Context `{Gmp}.

Definition computes (r : res (Z * intinfs _)) (al : allocated) (vals : gmap Z Z) (n : Z) : Prop :=
  exists st', r = Ok (addr al, st') /\ intinfs_ok st' (<[addr al := n]> (survivors al vals)).

(** The copies of operands that survive the allocation are good. *)
Lemma new_call_ok al st vals f args vs r : intinfs_ok st vals -> alloc_ok al vals ->
  Forall2 (fun x a => exists i, i ∉ finalized al /\ payload st !! i = Some x /\ vals !! i = Some a) args vs ->
  gmp_result mpz_get_str f vs r ->
  computes ('(z, st) ← intinf_new al st; st ← sml_intinf_call f z args st; Ok (z, st)) al vals r.
Proof.
  intros Hok Hal Hargs Hr. destruct (intinf_new_ok al st vals Hok Hal) as (st' & z & Hn & Hz & Hnum & Hdom & Hsame).
  assert (Hargs' : Forall2 (fun x a => (x, a) ∈ nums (delete (addr al) (payload st')) (survivors al vals)) args vs).
  { eapply Forall2_impl; [exact Hargs|]. intros x a (i & Hi & Hx & Ha). apply nums_in with i; [by rewrite Hsame by eauto|].
    by rewrite survivors_lookup. }
  destruct (call_law (gmp st') f z 0 _ args vs r Hnum Hargs' Hr) as (z' & h' & Hc & Hh').
  unfold computes. rewrite Hn. cbn. unfold sml_intinf_call. rewrite Hz. cbn. rewrite Hc. cbn.
  eexists. split; [done|]. split; cbn.
  - intros i. rewrite !lookup_insert_is_Some, <- Hdom, lookup_delete_is_Some. clear. tauto.
  - rewrite <- insert_delete_eq. eapply numbers_proper; [exact Hh'|]. symmetry. apply nums_insert, lookup_delete_eq.
Qed.

Lemma unary_ok f al x st vals a r : intinfs_ok st vals -> alloc_ok al vals -> x ∉ finalized al -> vals !! x = Some a ->
  gmp_result mpz_get_str f [a] r -> computes (new_unary f al x st) al vals r.
Proof.
  intros Hok Hal Hx Ha Hr. destruct (ok_value st vals x a Hok Ha) as (v & Hv & _). unfold new_unary. rewrite Hv.
  apply (new_call_ok al st vals f [v] [a] r); eauto 10.
Qed.

Lemma binary_ok f al x y st vals a b r : intinfs_ok st vals -> alloc_ok al vals -> x ∉ finalized al -> y ∉ finalized al ->
  vals !! x = Some a -> vals !! y = Some b ->
  gmp_result mpz_get_str f [a; b] r -> computes (new_binary f al x y st) al vals r.
Proof.
  intros Hok Hal Hx Hy Ha Hb Hr. destruct (ok_value st vals x a Hok Ha) as (v & Hv & _), (ok_value st vals y b Hok Hb) as (w & Hw & _).
  unfold new_binary. rewrite Hv. cbn. rewrite Hw. apply (new_call_ok al st vals f [v; w] [a; b] r); eauto 10.
Qed.

Lemma constant_ok f al st vals r : intinfs_ok st vals -> alloc_ok al vals ->
  gmp_result mpz_get_str f [] r -> computes (new_constant f al st) al vals r.
Proof. intros Hok Hal Hr. by apply (new_call_ok al st vals f [] [] r). Qed.

Definition unary_prims : list ((allocated -> Z -> intinfs _ -> res (Z * intinfs _)) * (Z -> Z)) :=
  [(prim_IntInf_abs, Z.abs); (prim_IntInf_neg, Z.opp); (prim_IntInf_notb, Z.lnot)].
Definition binary_prims : list ((allocated -> Z -> Z -> intinfs _ -> res (Z * intinfs _)) * (Z -> Z -> Z)) :=
  [(prim_IntInf_add, Z.add); (prim_IntInf_sub, Z.sub); (prim_IntInf_mul, Z.mul);
   (prim_IntInf_orb, Z.lor); (prim_IntInf_xorb, Z.lxor); (prim_IntInf_andb, Z.land)].
Definition division_prims : list ((allocated -> Z -> Z -> intinfs _ -> res (Z * intinfs _)) * (Z -> Z -> Z)) :=
  [(prim_IntInf_div, Z.div); (prim_IntInf_mod, Z.modulo); (prim_IntInf_quot, Z.quot); (prim_IntInf_rem, Z.rem)].
End Primitives.

(** ** A memory of numbers *)
Module IntInfSample.
Definition digit_char (d : Z) : Z := if d <? 10 then 48 + d else 87 + d.
Definition digit_value (c : Z) : Z := if c <? 58 then c - 48 else c - 87.
Fixpoint print (fuel : nat) (b n : Z) (acc : list Z) : list Z :=
  match fuel with
  | O => acc
  | S fuel => if n <? b then digit_char n :: acc else print fuel b (n / b) (digit_char (n mod b) :: acc)
  end.
Fixpoint parse (b : Z) (s : list Z) (acc : Z) : Z :=
  match s with [] => acc | c :: s => parse b s (acc * b + digit_value c) end.
Definition get_str (b n : Z) : list Z :=
  let digits := print (S (Z.to_nat (Z.log2 (Z.abs n)))) b (Z.abs n) [] in
  if n <? 0 then 45 :: digits else digits.
Definition set_str (s : list Z) (b : Z) : Z :=
  match s with c :: s' => if c =? 45 then - parse b s' 0 else parse b s 0 | [] => 0 end.

Lemma digit_value_char d : 0 <= d < 36 -> digit_value (digit_char d) = d.
Proof.
  intros Hd. unfold digit_char, digit_value. destruct (Z.ltb_spec d 10);
    [destruct (Z.ltb_spec (48 + d) 58)|destruct (Z.ltb_spec (87 + d) 58)]; lia.
Qed.

Lemma print_cons b fuel : forall n acc, 2 <= b <= 36 -> 0 <= n < 2 ^ Z.of_nat (S fuel) ->
  exists c s, print (S fuel) b n acc = c :: s /\ c <> 45 /\ parse b (c :: s) 0 = parse b acc n.
Proof.
  assert (Hc : forall d, 0 <= d -> digit_char d <> 45) by (intros d; unfold digit_char; case_match; lia).
  induction fuel as [|fuel IH]; intros n acc Hb Hn; [|remember (S fuel) as k eqn:Hk]; cbn [print];
    destruct (Z.ltb_spec n b); try (do 2 eexists; split; [done|]; split; [apply Hc; lia|]; cbn [parse];
      by rewrite digit_value_char by lia); [cbn in Hn; lia|].
  subst k. destruct (IH (n / b) (digit_char (n mod b) :: acc) Hb) as (c & s & Hp & H45 & Hs).
  - split; [apply Z.div_pos; lia|]. apply Z.div_lt_upper_bound; [lia|].
    rewrite !Nat2Z.inj_succ, !Z.pow_succ_r in * by lia. nia.
  - exists c, s. split; [done|]. split; [done|]. rewrite Hs. cbn [parse].
    rewrite digit_value_char by (pose proof (Z.mod_pos_bound n b); lia). f_equal. pose proof (Z.div_mod n b). lia.
Qed.

Lemma set_get_str b n : 2 <= b <= 36 -> set_str (get_str b n) b = n.
Proof.
  intros Hb. unfold get_str. destruct (print_cons b (Z.to_nat (Z.log2 (Z.abs n))) (Z.abs n) [] Hb) as (c & s & -> & Hc & Hp).
  - rewrite Nat2Z.inj_succ, Z2Nat.id by apply Z.log2_nonneg. destruct (decide (n = 0)) as [->|]; [done|].
    pose proof (Z.log2_spec (Z.abs n)). lia.
  - cbn [parse] in Hp. destruct (Z.ltb_spec n 0); unfold set_str; cbn [Z.eqb Pos.eqb]; [cbn [parse]; lia|].
    destruct (Z.eqb_spec c 45); [done|]. cbn [parse]. lia.
Qed.

Definition gmp_eval (f : gmp_fun) (args : list Z) : option Z :=
  match f, args with
  | mpz_abs, [x] => Some (Z.abs x)
  | mpz_neg, [x] => Some (- x)
  | mpz_com, [x] => Some (Z.lnot x)
  | mpz_add, [x; y] => Some (x + y)
  | mpz_sub, [x; y] => Some (x - y)
  | mpz_mul, [x; y] => Some (x * y)
  | mpz_fdiv_q, [x; y] => if y =? 0 then None else Some (x / y)
  | mpz_fdiv_r, [x; y] => if y =? 0 then None else Some (x mod y)
  | mpz_tdiv_q, [x; y] => if y =? 0 then None else Some (Z.quot x y)
  | mpz_tdiv_r, [x; y] => if y =? 0 then None else Some (Z.rem x y)
  | mpz_ior, [x; y] => Some (Z.lor x y)
  | mpz_xor, [x; y] => Some (Z.lxor x y)
  | mpz_and, [x; y] => Some (Z.land x y)
  | mpz_pow_ui e, [x] => Some (x ^ e)
  | mpz_set_si n, [] => Some n
  | mpz_set_ui n, [] => Some n
  | mpz_set_d x, [] => truncate x
  | mpz_set_str s b, [] => Some (set_str s b)
  | _, _ => None
  end.

Lemma gmp_eval_ok f vs r : gmp_result get_str f vs r -> gmp_eval f vs = Some r.
Proof.
  destruct f, vs as [|p [|q [|]]]; cbn; try done; intros Hr; try (by subst r); try (by destruct Hr as [_ ->]);
    try (destruct Hr as [Hy%Z.eqb_neq ->]; by rewrite Hy).
  destruct Hr as [Hb ->]. by rewrite set_get_str.
Qed.

(** A number is the index of its digits. *)
Record limbs := Limbs { next : nat; blocks : gmap nat Z }.
Fixpoint read_all (zs : list nat) (h : limbs) : res (list Z) :=
  match zs with
  | [] => Ok []
  | z :: zs => n ← deref (blocks h !! z); ns ← read_all zs h; Ok (n :: ns)
  end.
Definition gmp_call (f : gmp_fun) (z : nat) (args : list nat) (h : limbs) : res (nat * limbs) :=
  vs ← read_all args h;
  _ ← deref (blocks h !! z);
  r ← deref (gmp_eval f vs);
  Ok (z, Limbs (next h) (<[z := r]> (blocks h))).
Definition clear (z : nat) (h : limbs) : res limbs :=
  _ ← deref (blocks h !! z);
  Ok (Limbs (next h) (delete z (blocks h))).
Record all_numbers (h : limbs) (l : list (nat * Z)) : Prop := {
  an_nodup : NoDup l.*1;
  an_in z n : (z, n) ∈ l <-> blocks h !! z = Some n;
  an_next z : (next h <= z)%nat -> blocks h !! z = None
}.

Lemma read_all_ok h l args vs : all_numbers h l -> Forall2 (fun x a => (x, a) ∈ l) args vs -> read_all args h = Ok vs.
Proof.
  intros Hl. induction 1 as [|x a args vs Hx _ IH]; [done|]. cbn. apply (an_in _ _ Hl) in Hx. rewrite Hx. cbn. by rewrite IH.
Qed.

Lemma all_numbers_cons h z n l : all_numbers h ((z, n) :: l) ->
  blocks h !! z = Some n /\ (forall m, (z, m) ∉ l) /\ forall x m, (x, m) ∈ l <-> x <> z /\ blocks h !! x = Some m.
Proof.
  intros [Hnd Hin Hnext]. change (NoDup (z :: l.*1)) in Hnd. apply NoDup_cons in Hnd as [Hz Hnd]. assert (Hno : forall m, (z, m) ∉ l) by (intros m Hm; by apply (list_elem_of_fmap_2 fst) in Hm).
  split; [apply Hin; by left|]. split; [done|]. intros x m. rewrite <- Hin, elem_of_cons. split; [|naive_solver].
  intros Hx. split; [by intros ->; apply (Hno m)|by right].
Qed.

#[global] Instance sample_gmp : Gmp.
Proof.
  refine {| gheap := limbs; mpz := nat;
    mpz_init h := (next h, Limbs (S (next h)) (<[next h := 0]> (blocks h)));
    mpz_clear := clear; mpz_call := gmp_call; mpz_get z h := deref (blocks h !! z);
    mpz_get_si n := n; mpz_get_ui n := Z.abs n mod 2 ^ 64; mpz_get_d := fun _ => S754_zero false; mpz_cmp x y := x - y;
    mpz_sizeinbase n b := Z.log2 (Z.abs n) + 1; mpz_get_str := get_str; numbers := all_numbers |}; try done.
  - intros h l l' [Hnd Hin Hnext] Hl. split; [by rewrite <- Hl|intros z n; by rewrite <- Hl|done].
  - intros h l [Hnd Hin Hnext]. split; cbn.
    + apply NoDup_cons. split; [|done]. intros ((z & n) & Heq & Hz%Hin)%list_elem_of_fmap. cbn in Heq. by rewrite Hnext in Hz by lia.
    + intros z n. rewrite elem_of_cons, Hin. destruct (decide (z = next h)) as [->|Hz].
      * rewrite lookup_insert_eq, Hnext by lia. naive_solver.
      * rewrite lookup_insert_ne by done. naive_solver.
    + intros z Hz. rewrite lookup_insert_ne by lia. apply Hnext. lia.
  - intros h z n l Hl. destruct (all_numbers_cons _ _ _ _ Hl) as (Hz & Hno & Hin). exists (Limbs (next h) (delete z (blocks h))).
    unfold clear. rewrite Hz. split; [done|]. split; cbn; [pose proof (an_nodup _ _ Hl) as Hnd; change (NoDup (z :: l.*1)) in Hnd; by apply NoDup_cons in Hnd as [_ ?]| |].
    + intros x m. rewrite Hin, lookup_delete_Some. naive_solver.
    + intros x Hx. apply lookup_delete_None. right. by apply (an_next _ _ Hl).
  - intros h z n l Hl Hz. apply (an_in _ _ Hl) in Hz. by rewrite Hz.
  - intros h f z n l args vs r Hl Hargs Hr. destruct (all_numbers_cons _ _ _ _ Hl) as (Hz & Hno & Hin).
    exists z, (Limbs (next h) (<[z := r]> (blocks h))). unfold gmp_call.
    rewrite (read_all_ok h ((z, n) :: l) args vs); [|done|eapply Forall2_impl; [exact Hargs|]; by right].
    cbn. rewrite Hz. cbn. rewrite (gmp_eval_ok _ _ _ Hr). cbn. split; [done|]. split; cbn.
    + apply (an_nodup _ _ Hl).
    + intros x m. rewrite elem_of_cons, Hin. destruct (decide (x = z)) as [->|Hx]; [rewrite lookup_insert_eq|rewrite lookup_insert_ne by done]; naive_solver.
    + intros x Hx. rewrite lookup_insert_ne by (intros <-; by rewrite (an_next _ _ Hl) in Hz). by apply (an_next _ _ Hl).
  - intros n. exists 0. lia.
Defined.
End IntInfSample.

(** ** The theorems *)
(** A case for each entry of a table of primitives. *)
Ltac table_cases Hp := repeat (apply elem_of_cons in Hp as [[= -> ->]|Hp]); [..|by apply elem_of_nil in Hp].

(** C21. The primitives with big integers as operands return a new object with
    the absolute value, sum, quotient (rounded down for [div], toward zero
    for [quot]) and so on, if none of the operands is collected by the
    allocation of the result.  The other big integers that are not collected
    keep their values, and the digits of those that are have been freed
    exactly once. *)
Theorem intinf_arith_correct `{Gmp} st vals al x y a b e : intinfs_ok st vals -> alloc_ok al vals ->
  x ∉ finalized al -> y ∉ finalized al -> vals !! x = Some a -> vals !! y = Some b -> b <> 0 -> 0 <= e < 2 ^ 31 ->
  (forall prim f, (prim, f) ∈ unary_prims -> computes (prim al x st) al vals (f a)) /\
  (forall prim f, (prim, f) ∈ binary_prims -> computes (prim al x y st) al vals (f a b)) /\
  (forall prim f, (prim, f) ∈ division_prims -> computes (prim al x y st) al vals (f a b)) /\
  computes (prim_IntInf_pow al x e st) al vals (a ^ e).
Proof.
  intros Hok Hal Hx Hy Ha Hb Hb0 He. split_and!.
  - intros prim f Hp. table_cases Hp; by eapply unary_ok.
  - intros prim f Hp. table_cases Hp; by eapply binary_ok.
  - intros prim f Hp. table_cases Hp; by eapply binary_ok.
  - unfold prim_IntInf_pow. rewrite (proj2 (Z.leb_le 0 e)) by lia. cbn.
    apply (unary_ok _ al x st vals a); [done..|]. cbn. unfold u64. rewrite Z.mod_small by lia. lia.
Qed.

Section Words.
Context `{Gmp}.

Lemma s64_u64 x : - 2 ^ 63 <= x < 2 ^ 63 -> s64 (u64 x) = x.
Proof. intros Hx. unfold s64, u64. rewrite Z.mod_mod by lia. destruct (Z.ltb_spec (x mod 2 ^ 64) (2 ^ 63)); mod_lia. Qed.

Lemma u64_s64 x : 0 <= x < 2 ^ 64 -> u64 (s64 (u64 x)) = x.
Proof. intros Hx. unfold s64, u64. rewrite !Z.mod_mod by lia. destruct (Z.ltb_spec (x mod 2 ^ 64) (2 ^ 63)); mod_lia. Qed.

Lemma toWord_ok st vals x a : intinfs_ok st vals -> vals !! x = Some a -> prim_IntInf_toWord x st = Ok (a mod 2 ^ 32).
Proof.
  intros Hok Ha. unfold prim_IntInf_toWord. rewrite (get_ok st vals x a) by done. cbn. f_equal.
  destruct (get_si_law a) as [k ->]. unfold u32, u64. mod_lia.
Qed.

Lemma toWord64_ok st vals x a : intinfs_ok st vals -> vals !! x = Some a -> prim_IntInf_toWord64 x st = Ok (a mod 2 ^ 64).
Proof.
  intros Hok Ha. unfold prim_IntInf_toWord64. rewrite (get_ok st vals x a) by done. cbn. f_equal.
  unfold u64. rewrite get_ui_law, Z.mod_mod by lia. destruct (Z.ltb_spec (Z.sgn a) 0).
  - rewrite Z.abs_neq by lia. rewrite <- Z.sub_0_l, Zminus_mod_idemp_r. f_equal. lia.
  - by rewrite Z.abs_eq by lia.
Qed.

Lemma computes_get r al vals n : computes r al vals n -> exists st', r = Ok (addr al, st') /\ intinfs_ok st' (<[addr al := n]> (survivors al vals)) /\
  <[addr al := n]> (survivors al vals) !! addr al = Some n.
Proof. intros (st' & Hr & Hok). exists st'. by rewrite lookup_insert_eq. Qed.
End Words.

(** C37. Conversions to words are modulo the word size, those from words and
    integers keep the value, and a 64-bit word survives the way to a big
    integer and back. *)
Theorem intinf_word_correct `{Gmp} st vals al : intinfs_ok st vals -> alloc_ok al vals ->
  (forall x a, vals !! x = Some a -> prim_IntInf_toWord x st = Ok (a mod 2 ^ 32) /\ prim_IntInf_toWord64 x st = Ok (a mod 2 ^ 64)) /\
  (forall w, 0 <= w < 2 ^ 64 -> exists st', prim_IntInf_fromWord64 al w st = Ok (addr al, st') /\ prim_IntInf_toWord64 (addr al) st' = Ok w) /\
  (forall w, 0 <= w < 2 ^ 32 -> computes (prim_IntInf_fromWord al w st) al vals w) /\
  (forall n, - 2 ^ 31 <= n < 2 ^ 31 -> computes (prim_IntInf_fromInt al n st) al vals n) /\
  (forall n, - 2 ^ 63 <= n < 2 ^ 63 -> computes (prim_IntInf_fromInt64 al n st) al vals n).
Proof.
  intros Hok Hal. split_and!.
  - intros x a Ha. split; [by apply (toWord_ok st vals)|by apply (toWord64_ok st vals)].
  - intros w Hw. destruct (computes_get (prim_IntInf_fromWord64 al w st) al vals w) as (st' & Hr & Hok' & Hv).
    { apply constant_ok; [done..|]. cbn. by rewrite u64_s64. }
    exists st'. split; [done|]. rewrite (toWord64_ok st' _ _ _ Hok' Hv). by rewrite Z.mod_small.
  - intros w Hw. apply constant_ok; [done..|]. cbn. unfold u64. rewrite Z.mod_small by lia. lia.
  - intros n Hn. apply constant_ok; [done..|]. cbn. rewrite s64_u64 by lia. lia.
  - intros n Hn. apply constant_ok; [done..|]. cbn. by rewrite s64_u64.
Qed.

(** C38. The hexadecimal digits of a big integer, put into a string object, load
    as a big integer of the same value.  [str] is what the string object
    holds before its terminating zero. *)
Theorem intinf_hex_roundtrip `{Gmp} {St} (sml_alloc : St -> Z -> res (Z * St)) st vals al x a s s' m obj :
  intinfs_ok st vals -> alloc_ok al vals -> vals !! x = Some a ->
  Z.of_nat (length (mpz_get_str 16 a)) + 1 <= OBJ_SIZE_MASK ->
  sml_alloc s (Z.of_nat (length (mpz_get_str 16 a)) + 1) = Ok (obj, s') ->
  exists m' str, sml_intinf_hex sml_alloc x st s m = Ok (obj, s', m') /\
    load_bytes m' obj (S (length str)) = str ++ [0] /\ OBJ_STR_SIZE m' obj = Z.of_nat (length str) /\
    computes (sml_load_intinf al str st) al vals a.
Proof.
  intros Hok Hal Ha Hlen Halloc.
  destruct (sml_str_new2_correct sml_alloc s s' m (mpz_get_str 16 a) obj Hlen Halloc) as (m' & Hr & _ & Hsize & Hbytes & _).
  exists m', (mpz_get_str 16 a). unfold sml_intinf_hex, sml_str_new. rewrite (get_ok st vals x a) by done. cbn.
  rewrite u32_small by (unfold is_u32; change OBJ_SIZE_MASK with 268435455 in Hlen; lia).
  rewrite firstn_all2 by lia. split_and!; [done..|]. apply constant_ok; [done..|]. by split.
Qed.

(** [prim_IntInf_cmp] has the sign of the comparison and
    [prim_IntInf_log2] is the logarithm, rounded down. *)
Theorem intinf_cmp_correct `{Gmp} st vals x y a b : intinfs_ok st vals -> vals !! x = Some a -> vals !! y = Some b ->
  (exists c, prim_IntInf_cmp x y st = Ok c /\ (c ?= 0) = (a ?= b)) /\
  (0 < a -> Z.log2 a < 2 ^ 31 -> exists k, prim_IntInf_log2 x st = Ok k /\ 2 ^ k <= a < 2 ^ (k + 1)).
Proof.
  intros Hok Ha Hb. split.
  - eexists. unfold prim_IntInf_cmp. rewrite (get_ok st vals x a), (get_ok st vals y b) by done. split; [done|].
    pose proof (cmp_law a b). destruct (Z.compare_spec (mpz_cmp a b) 0), (Z.compare_spec a b); try done; exfalso; lia.
  - intros H0 H1. eexists. unfold prim_IntInf_log2. rewrite (get_ok st vals x a) by done. split; [done|].
    rewrite sizeinbase_law, Z.abs_eq, Z.add_simpl_r by lia.
    pose proof (Z.log2_nonneg a). pose proof (Z.log2_spec a H0).
    replace (s32 (Z.log2 a)) with (Z.log2 a); [by rewrite Z.add_1_r|].
    unfold s32, u32. rewrite Z.mod_small by lia. by rewrite (proj2 (Z.ltb_lt _ _)).
Qed.

(** ** Three big integers *)
Module IntInfRuns.
Import IntInfSample.

Definition make (al : allocated) (n : Z) (st : intinfs sample_gmp) : intinfs sample_gmp :=
  match prim_IntInf_fromInt al n st with Ok (_, st) => st | _ => st end.
Definition empty : intinfs sample_gmp := IntInfs (Limbs 0 ∅ : gheap) ∅.
Definition st0 : intinfs sample_gmp := make (Allocated 48 []) 5 (make (Allocated 32 []) (-7) (make (Allocated 16 []) 100 empty)).
Definition vals0 : gmap Z Z := <[48 := 5]> (<[32 := -7]> (<[16 := 100]> ∅)).
(** The third is collected, and the new object has its address. *)
Definition reuse : allocated := Allocated 48 [48].

Lemma make_ok al n st vals : intinfs_ok st vals -> alloc_ok al vals -> - 2 ^ 31 <= n < 2 ^ 31 ->
  intinfs_ok (make al n st) (<[addr al := n]> (survivors al vals)).
Proof.
  intros Hok Hal Hn. destruct (constant_ok (mpz_set_si (s64 (u64 n))) al st vals n Hok Hal) as (st' & Hr & Hok').
  - cbn. rewrite s64_u64 by lia. lia.
  - unfold make, prim_IntInf_fromInt. by rewrite Hr.
Qed.

Lemma make_fresh a n st vals : intinfs_ok st vals -> vals !! a = None -> - 2 ^ 31 <= n < 2 ^ 31 ->
  intinfs_ok (make (Allocated a []) n st) (<[a := n]> vals).
Proof.
  intros Hok Ha Hn. apply (make_ok (Allocated a []) n st vals); [done| |done].
  split; [by apply NoDup_nil|by intros i ?%elem_of_nil|done].
Qed.

Lemma st0_ok : intinfs_ok st0 vals0.
Proof.
  do 3 (apply make_fresh; [|done|done]).
  split; [by intros i; split; intros [? ?]|]. split; [by apply NoDup_nil|by intros z n; split; [intros ?%elem_of_nil|]|done].
Qed.

Lemma reuse_ok : alloc_ok reuse vals0.
Proof. split; [by apply NoDup_singleton|intros i Hi; change (i ∈ [48]) in Hi; apply list_elem_of_singleton in Hi as ->; exists 5; vm_compute; reflexivity|vm_compute; reflexivity]. Qed.

Lemma not_reused x : x <> 48 -> x ∉ finalized reuse.
Proof. intros Hx Hin. change (x ∈ [48]) in Hin. by apply list_elem_of_singleton in Hin. Qed.

(** If an operand is collected in the meantime, its digits are freed, and
    the copy of its [mpz_t] refers to memory that is not there any more. *)
Lemma collected_operand : intinfs_ok st0 vals0 /\ alloc_ok reuse vals0 /\
  computes (prim_IntInf_add (Allocated 64 []) 48 32 st0) (Allocated 64 []) vals0 (-2) /\
  prim_IntInf_add reuse 48 32 st0 = Fault.
Proof.
  split; [apply st0_ok|]. split; [apply reuse_ok|]. split; [|reflexivity].
  apply (binary_ok mpz_add (Allocated 64 []) 48 32 st0 vals0 5 (-7) (-2));
    [apply st0_ok|split; [by apply NoDup_nil|by intros i ?%elem_of_nil|vm_compute; reflexivity]|..];
    try (intros ?%elem_of_nil; done); vm_compute; reflexivity.
Qed.
End IntInfRuns.

Lemma intinf_arith_correct_witness :
  computes (prim_IntInf_div IntInfRuns.reuse 16 32 IntInfRuns.st0) IntInfRuns.reuse IntInfRuns.vals0 (-15) /\
  computes (prim_IntInf_mod IntInfRuns.reuse 16 32 IntInfRuns.st0) IntInfRuns.reuse IntInfRuns.vals0 (-5).
Proof.
  destruct (intinf_arith_correct IntInfRuns.st0 IntInfRuns.vals0 IntInfRuns.reuse 16 32 100 (-7) 3) as (_ & _ & Hd & _);
    [apply IntInfRuns.st0_ok|apply IntInfRuns.reuse_ok|by apply IntInfRuns.not_reused|by apply IntInfRuns.not_reused|done..|].
  split; [apply (Hd prim_IntInf_div Z.div)|apply (Hd prim_IntInf_mod Z.modulo)]; [by left|by right; left].
Defined.

Lemma intinf_word_correct_witness : exists st', prim_IntInf_fromWord64 IntInfRuns.reuse (2 ^ 64 - 1) IntInfRuns.st0 = Ok (48, st') /\
  prim_IntInf_toWord64 48 st' = Ok (2 ^ 64 - 1).
Proof.
  destruct (intinf_word_correct IntInfRuns.st0 IntInfRuns.vals0 IntInfRuns.reuse) as (_ & Hw & _);
    [apply IntInfRuns.st0_ok|apply IntInfRuns.reuse_ok|]. apply (Hw (2 ^ 64 - 1)). lia.
Defined.

Lemma intinf_hex_roundtrip_witness : exists m' str,
  sml_intinf_hex (fun s _ => Ok (1024, s)) 16 IntInfRuns.st0 tt (fun _ => 0) = Ok (1024, tt, m') /\
  load_bytes m' 1024 (S (length str)) = str ++ [0] /\ OBJ_STR_SIZE m' 1024 = Z.of_nat (length str) /\
  computes (sml_load_intinf IntInfRuns.reuse str IntInfRuns.st0) IntInfRuns.reuse IntInfRuns.vals0 100.
Proof.
  apply (intinf_hex_roundtrip (fun s _ => Ok (1024, s)) IntInfRuns.st0 IntInfRuns.vals0);
    [apply IntInfRuns.st0_ok|apply IntInfRuns.reuse_ok|done|by vm_compute|done].
Defined.

Lemma intinf_cmp_correct_witness :
  (exists c, prim_IntInf_cmp 16 32 IntInfRuns.st0 = Ok c /\ (c ?= 0) = (100 ?= -7)) /\
  (0 < 100 -> Z.log2 100 < 2 ^ 31 -> exists k, prim_IntInf_log2 16 IntInfRuns.st0 = Ok k /\ 2 ^ k <= 100 < 2 ^ (k + 1)).
Proof. apply (intinf_cmp_correct IntInfRuns.st0 IntInfRuns.vals0); [apply IntInfRuns.st0_ok|done..]. Defined.
