(* ===== verification/Malloc.v ===== *)
(** * Large objects

    The malloc segments of src/src/runtime/heap_concurrent.c: objects that do
    not fit in a block are allocated one by one and kept in a list of the
    thread's heap; a collection frees the unmarked ones. *)
From Stdlib Require Import ZArith Lia.
From stdpp Require Import base option list gmap.
From S2P Require Import Prelude Bits Layout Alloc Object.

Local Open Scope Z_scope.

(** [next] is the order of the lists below; the stack slot is in Trace.v. *)
Record malloc_segment := MallocSegment {
  bit : Z;          (* whether allocated before SYNC2 *)
  collect_bit : Z
}.

Definition sizeof_struct_malloc_segment : Z := 24.
Definition MALLOC_OBJECT_OFFSET : Z := CEILING (sizeof_struct_malloc_segment + OBJ_HEADER_SIZE) MAXALIGN.
Definition OBJ_TO_MALLOC_SEGMENT (obj : Z) : Z := obj - MALLOC_OBJECT_OFFSET.
Definition MALLOC_SEGMENT_TO_OBJ (mseg : Z) : Z := mseg + MALLOC_OBJECT_OFFSET.

(** The malloc segments in memory, by address. *)
Abbreviation msegs := (gmap Z malloc_segment) (only parsing).

(** [p] is the memory that [xmalloc] returned. *)
Definition new_malloc_segment (ms : msegs) (p : Z) (phase : Z) : msegs :=
  <[p := MallocSegment (Z.b2z (before_sync2 phase)) 0]> ms.

Definition free_malloc_segment (ms : msegs) (mseg : Z) : msegs := delete mseg ms.

Definition malloc_object (ms : msegs) (malloc_subheap : list Z) (p : Z) (phase : Z) : Z * msegs * list Z :=
  (MALLOC_SEGMENT_TO_OBJ p, new_malloc_segment ms p phase, p :: malloc_subheap).

(** One turn of the loop; [l] is the list made by LIST_APPEND. *)
Definition reclaim_malloc_step (st : msegs * list Z) (mseg : Z) : res (msegs * list Z) :=
  let '(ms, l) := st in
  s ← deref (ms !! mseg);
  if (bit s =? 0) || negb (collect_bit s =? 0) then
    Ok (<[mseg := MallocSegment 1 0]> ms, l ++ [mseg])
  else Ok (free_malloc_segment ms mseg, l).

Definition reclaim_malloc_segments (ms : msegs) (mss : list Z) : res (msegs * list Z) :=
  foldl (fun r mseg => st ← r; reclaim_malloc_step st mseg) (Ok (ms, [])) mss.

(** ** [sml_alloc] for objects of every size *)
Section SmlAlloc.
Variable check wait_gc : world * heap -> world * heap.

Record thread_heap := ThreadHeap { small_heap : heap; malloc_subheap : list Z; all_msegs : msegs }.

(** [xmalloc] returns [p] for an object that needs it. *)
Definition sml_alloc (w : world) (t : thread_heap) (p : Z) (objsize : Z) : res (Z * thread_heap * world) :=
  if BLOCKSIZE_MAX - OBJ_HEADER_SIZE <? objsize then
    let '(obj, ms, l) := malloc_object (all_msegs t) (malloc_subheap t) p (current_phase w) in
    Ok (obj, ThreadHeap (small_heap t) l ms, w)
  else
    '(obj, h, w) ← sml_alloc_small check wait_gc w (small_heap t) objsize;
    Ok (obj, ThreadHeap h (malloc_subheap t) (all_msegs t), w).
End SmlAlloc.

(** ** Facts *)
Definition survives (s : malloc_segment) : bool := (bit s =? 0) || negb (collect_bit s =? 0).

Definition surviving (ms : msegs) (mseg : Z) : bool :=
  match ms !! mseg with Some s => survives s | None => false end.

Lemma reclaim_malloc_segments_spec mss : forall ms ms0 l, NoDup mss ->
  (forall a, a ∈ mss -> ms !! a = ms0 !! a /\ is_Some (ms !! a)) ->
  exists ms', foldl (fun r mseg => st ← r; reclaim_malloc_step st mseg) (Ok (ms, l)) mss =
      Ok (ms', l ++ filter (fun a => surviving ms0 a = true) mss) /\
    (forall a, a ∈ mss -> ms' !! a = if surviving ms0 a then Some (MallocSegment 1 0) else None) /\
    (forall a, a ∉ mss -> ms' !! a = ms !! a).
Proof.
  induction mss as [|a mss IH]; intros ms ms0 l Hnd Hin.
  - exists ms. rewrite app_nil_r. split; [done|]. split; [|done]. intros a Ha. by apply elem_of_nil in Ha.
  - apply NoDup_cons in Hnd as [Ha Hnd]. destruct (Hin a) as [Hsame [s Hs]]; [by left|].
    cbn [foldl mbind res_bind]. unfold reclaim_malloc_step at 2. rewrite Hs. cbn [deref mbind res_bind].
    assert (Hsur : surviving ms0 a = survives s) by (unfold surviving; by rewrite <- Hsame, Hs).
    rewrite filter_cons. fold (survives s). rewrite <- Hsur.
    assert (Hrest : forall ms1 : msegs, (forall b, b <> a -> ms1 !! b = ms !! b) ->
              forall b, b ∈ mss -> ms1 !! b = ms0 !! b /\ is_Some (ms1 !! b)).
    { intros ms1 H1 b Hb. rewrite H1 by (by intros ->). apply Hin. by right. }
    destruct (surviving ms0 a) eqn:Hsa.
    + rewrite decide_True by done.
      destruct (IH (<[a := MallocSegment 1 0]> ms) ms0 (l ++ [a]) Hnd) as (ms' & Hrun & H1 & H2).
      { apply Hrest. intros b Hb. by rewrite lookup_insert_ne by congruence. }
      exists ms'. rewrite Hrun, <- app_assoc. split; [done|]. split.
      * intros b [->|Hb]%elem_of_cons; [|by apply H1]. by rewrite H2, lookup_insert_eq, Hsa by done.
      * intros b [Hne Hb]%not_elem_of_cons. by rewrite H2, lookup_insert_ne by congruence.
    + rewrite decide_False by congruence.
      destruct (IH (free_malloc_segment ms a) ms0 l Hnd) as (ms' & Hrun & H1 & H2).
      { apply Hrest. intros b Hb. unfold free_malloc_segment. by rewrite lookup_delete_ne by congruence. }
      exists ms'. split; [done|]. split.
      * intros b [->|Hb]%elem_of_cons; [|by apply H1]. rewrite H2 by done. unfold free_malloc_segment. by rewrite lookup_delete_eq, Hsa.
      * intros b [Hne Hb]%not_elem_of_cons. rewrite H2 by done. unfold free_malloc_segment. by rewrite lookup_delete_ne by congruence.
Qed.

(** ** Properties *)

(** C26. A collection frees exactly the large objects of a list that were there
    before SYNC2 and are not marked, keeps the others in their order, and
    resets their bits for the next collection; segments of other lists are
    not touched. *)
Theorem reclaim_malloc_segments_correct (ms : msegs) mss : NoDup mss -> (forall a, a ∈ mss -> is_Some (ms !! a)) ->
  exists ms', reclaim_malloc_segments ms mss = Ok (ms', filter (fun a => surviving ms a = true) mss) /\
    (forall a, a ∈ mss -> ms' !! a = if surviving ms a then Some (MallocSegment 1 0) else None) /\
    (forall a, a ∉ mss -> ms' !! a = ms !! a).
Proof. intros Hnd Hin. apply (reclaim_malloc_segments_spec mss ms ms [] Hnd). auto. Qed.

Lemma reclaim_malloc_segments_correct_witness :
  let ms := <[64 := MallocSegment 1 0]> (<[128 := MallocSegment 0 0]> (<[192 := MallocSegment 1 1]> ∅)) : msegs in
  exists ms', reclaim_malloc_segments ms [64; 128; 192] = Ok (ms', filter (fun a => surviving ms a = true) [64; 128; 192]) /\
    (forall a, a ∈ [64; 128; 192] -> ms' !! a = if surviving ms a then Some (MallocSegment 1 0) else None) /\
    (forall a, a ∉ [64; 128; 192] -> ms' !! a = ms !! a).
Proof.
  apply reclaim_malloc_segments_correct.
  - apply (bool_decide_unpack _). vm_compute. exact I.
  - intros a Ha. rewrite !elem_of_cons, elem_of_nil in Ha. destruct Ha as [->|[->|[->|[]]]]; vm_compute; eauto.
Defined.
