(* ===== verification/Reclaim.v ===== *)
(** * Reclamation

    [reclaim_subheap], [reclaim_subpool] and [reclaim_segment_pool] of
    src/src/runtime/heap_concurrent.c: after marking, the collect bitmap of
    every segment becomes its bitmap, and the segments are sorted into
    filled, partial and free ones. *)
From Stdlib Require Import ZArith Lia.
From stdpp Require Import base option list gmap.
From S2P Require Import Prelude Bits Layout Segment Alloc.

Local Open Scope Z_scope.

Definition set_free_count (n : Z) (seg : segment) : segment :=
  Segment (layout seg) (allocptr_snapshot seg) n (words seg).

(** Counters of C type [unsigned int]. *)
Definition add32 (a b : Z) : Z := u32 (a + b).

Record stat_reclaim := StatReclaim {
  num_partial : Z;
  stat_blocks : Z;          (* num_blocks *)
  num_blocks_free : Z;
  num_blocks_alloced : Z;
  num_blocks_room : Z
}.

(** The variables of [reclaim_subheap]: the lists made by LIST_APPEND, the
    counters, and the segments. *)
Record reclaiming := Reclaiming {
  rc_world : world;
  rc_partial : list Z;
  rc_filled : list Z;
  rc_free : list Z;
  rc_num_filled : Z;
  rc_num_partial : Z;
  rc_num_free : Z;
  rc_num_alloced : Z;
  rc_num_room : Z
}.

(** [copy_collect_bitmap(seg)]. *)
Definition copied (w : world) (a : Z) : res (segment * segment_layout) :=
  '(seg, l) ← get_seg w a;
  ws ← copy_collect_bitmap l (words seg);
  Ok (set_words ws seg, l).

Definition cleared (l : segment_layout) (seg : segment) : segment :=
  set_words (clear_collect_bitmap l (words seg)) seg.

(** [for (seg = subheap->partial; ...)]. *)
Definition reclaim_partial_step (r : reclaiming) (a : Z) : res reclaiming :=
  let w := rc_world r in
  '(seg, l) ← copied w a;
  assert_that (allocptr_snapshot seg =? BLOCK_BASE l);;
  count ← free_count l (words seg) None;
  if count =? num_blocks l then
    Ok (Reclaiming (put_seg w a (set_free_count count seg))
          (rc_partial r) (rc_filled r) (rc_free r ++ [a])
          (rc_num_filled r) (rc_num_partial r) (rc_num_free r) (rc_num_alloced r) (rc_num_room r))
  else
    Ok (Reclaiming (put_seg w a (set_free_count count (cleared l seg)))
          (rc_partial r ++ [a]) (rc_filled r) (rc_free r)
          (rc_num_filled r) (add32 (rc_num_partial r) 1) (add32 (rc_num_free r) count)
          (rc_num_alloced r) (add32 (rc_num_room r) (seg_free_count seg))).

(** [if (ptr->p)]: the segment that is being allocated from. *)
Definition reclaim_current (r : reclaiming) (p : alloc_ptr) : res reclaiming :=
  if ap_p p =? 0 then Ok r
  else
    let w := rc_world r in
    a ← ALLOC_PTR_TO_SEGMENT p;
    '(seg, l) ← copied w a;
    let seg := set_snapshot (BLOCK_LIMIT l) (cleared l seg) in
    count ← free_count l (words seg) (Some (ap_p p - a));
    index ← object_index l (ap_p p - a);
    Ok (Reclaiming (put_seg w a (set_free_count count seg))
          (rc_partial r) (rc_filled r) (rc_free r)
          (add32 (rc_num_filled r) 1) (rc_num_partial r) (add32 (rc_num_free r) count)
          (add32 (rc_num_alloced r) (Z.of_nat index)) (add32 (rc_num_room r) count)).

(** [for (seg = subheap->filled; ...)]. *)
Definition reclaim_filled_step (r : reclaiming) (a : Z) : res reclaiming :=
  let w := rc_world r in
  '(seg, l) ← copied w a;
  let alloced := add32 (rc_num_alloced r) (seg_free_count seg) in
  count ← free_count l (words seg) None;
  let seg := set_free_count count seg in
  if (allocptr_snapshot seg <? BLOCK_LIMIT l) || (count =? 0) then
    Ok (Reclaiming (put_seg w a (set_snapshot (BLOCK_LIMIT l) (cleared l seg)))
          (rc_partial r) (rc_filled r ++ [a]) (rc_free r)
          (add32 (rc_num_filled r) 1) (rc_num_partial r) (rc_num_free r) alloced (rc_num_room r))
  else if count =? num_blocks l then
    Ok (Reclaiming (put_seg w a (set_snapshot (BLOCK_BASE l) seg))
          (rc_partial r) (rc_filled r) (rc_free r ++ [a])
          (rc_num_filled r) (rc_num_partial r) (rc_num_free r) alloced (rc_num_room r))
  else
    Ok (Reclaiming (put_seg w a (set_snapshot (BLOCK_BASE l) (cleared l seg)))
          (rc_partial r ++ [a]) (rc_filled r) (rc_free r)
          (rc_num_filled r) (add32 (rc_num_partial r) 1) (add32 (rc_num_free r) count) alloced (rc_num_room r)).

Definition reclaim_subheap (w : world) (h : heap) (subheap_index : nat) (free : list Z)
  : res (world * heap * list Z * stat_reclaim) :=
  subheap ← deref (subheaps h !! subheap_index);
  p ← deref (hptr h !! subheap_index);
  l ← segment_layout_at subheap_index;
  r ← foldl (fun r a => r ← r; reclaim_partial_step r a) (Ok (Reclaiming w [] [] free 0 0 0 0 0)) (partial subheap);
  r ← reclaim_current r p;
  r ← foldl (fun r a => r ← r; reclaim_filled_step r a) (Ok r) (filled subheap);
  Ok (rc_world r, set_subheap subheap_index (Subheap (rc_filled r) (rc_partial r)) h, rc_free r,
      StatReclaim (rc_num_partial r) (u32 (add32 (rc_num_filled r) (rc_num_partial r) * num_blocks l))
        (rc_num_free r) (rc_num_alloced r) (rc_num_room r)).

(** ** The segment pool *)

(** [while ((seg = segment_pop(&subpool->partial_marked)))]: the segment
    goes to the list [free], or is pushed on [partial]. *)
Definition reclaim_marked_step (st : world * list Z * list Z) (a : Z) : res (world * list Z * list Z) :=
  let '(w, partial, free) := st in
  '(seg, l) ← copied w a;
  let seg := set_snapshot (BLOCK_BASE l) seg in
  count ← free_count l (words seg) None;
  let seg := set_free_count count seg in
  if count =? num_blocks l then Ok (put_seg w a seg, partial, free ++ [a])
  else Ok (put_seg w a (cleared l seg), a :: partial, free).

(** [for (seg = subpool->filled; ...)]. *)
Definition reclaim_pool_filled_step (st : world * list Z * list Z * list Z) (a : Z) : res (world * list Z * list Z * list Z) :=
  let '(w, filled, partial, free) := st in
  '(seg, l) ← copied w a;
  let seg := set_snapshot (BLOCK_BASE l) seg in
  count ← free_count l (words seg) None;
  let seg := set_free_count count seg in
  if count =? 0 then Ok (put_seg w a (cleared l seg), filled ++ [a], partial, free)
  else if count =? num_blocks l then Ok (put_seg w a seg, filled, partial, free ++ [a])
  else Ok (put_seg w a (cleared l seg), filled, partial ++ [a], free).

Definition reclaim_subpool (w : world) (sp : subpool) (free : list Z) : res (world * subpool * list Z) :=
  '(w, popped, free) ← foldl (fun st a => st ← st; reclaim_marked_step st a)
                          (Ok (w, pool_partial sp, free)) (partial_marked sp);
  '(w, filled, partial, free) ← foldl (fun st a => st ← st; reclaim_pool_filled_step st a)
                          (Ok (w, [], [], free)) (pool_filled sp);
  Ok (w, Subpool filled (partial ++ popped) [], free).

Definition set_subpools (sps : list subpool) (w : world) : world :=
  set_pool (SegmentPool sps (pool_freelist (pool w)) (pool_memory (pool w))) w.

(** One turn of the loop of [reclaim_segment_pool]. *)
Definition reclaim_pool_step (st : world * list Z) (i : nat) : res (world * list Z) :=
  let '(w, free) := st in
  sp ← deref (subpools (pool w) !! i);
  '(w, sp, free) ← reclaim_subpool w sp free;
  Ok (set_subpools (<[i := sp]> (subpools (pool w))) w, free).

(** [reclaim_segment_pool] without the large objects. *)
Definition reclaim_segments (w : world) : res world :=
  '(w, free) ← foldl (fun st i => st ← st; reclaim_pool_step st i) (Ok (w, [])) (seq 0 NUM_SUBHEAPS);
  Ok (set_pool (SegmentPool (subpools (pool w)) (free ++ pool_freelist (pool w)) (pool_memory (pool w))) w).

(** [sml_heap_global_before_async]. *)
Definition sml_heap_global_before_async (w : world) : world :=
  set_subpools (imap (fun i sp => if (i <? NUM_SUBHEAPS)%nat then Subpool (pool_filled sp) [] (pool_partial sp) else sp)
                  (subpools (pool w))) w.
