(* ===== verification/ReclaimFacts.v ===== *)
(** * Reclamation: what happens to one segment, and the loops *)
From Stdlib Require Import ZArith Lia.
From stdpp Require Import base option list gmap.
From S2P Require Import Prelude Bits Layout Segment SegmentFacts Alloc AllocFacts Reclaim.

Local Open Scope Z_scope.

Lemma word_eq x y : is_u32 x -> is_u32 y ->
  (forall j, (j < 32)%nat -> Z.testbit x (Z.of_nat j) = Z.testbit y (Z.of_nat j)) -> x = y.
Proof.
  intros Hx Hy H. apply Z.bits_inj'. intros n Hn. destruct (Z.lt_ge_cases n 32).
  - rewrite <- (Z2Nat.id n) by done. apply H. lia.
  - rewrite !is_u32_testbit by done. done.
Qed.

Section Segment.
Context (i : nat) (l : segment_layout) (Hi : the_layouts !! i = Some l).
Let Hl : layout_ok l := layouts_ok i l Hi.
Let Hsz : (8 + words0 l + words1 l + words0 l <= segment_words)%nat := layout_meta i l Hi.

(** No mark is in the collect bitmap, not even behind the last block. *)
Definition clean (ws : list Z) : Prop := forall k, (k < 32 * words0 l)%nat -> cbits l ws k = false.

(** There are no marks behind the last block: [visit] marks blocks only. *)
Definition tail_clean (ws : list Z) : Prop := forall k, (blocks l <= k < 32 * words0 l)%nat -> cbits l ws k = false.

(** A segment in which all blocks are free is as good as a new one. *)
Lemma free_is_blank ws : seg_ok l ws -> clean ws -> (forall k, (k < blocks l)%nat -> bits ws 8 k = false) -> blank l ws.
Proof.
  intros Hs Hc Hf. split; [apply Hs|]. intros j Hj. unfold meta_end in Hj.
  assert (Hu := word_u32 ws j (proj2 (sok_words _ _ Hs))).
  assert (Hw0 : words0 l = (blocks l / 32 + 1)%nat) by done.
  assert (Hw1 : words1 l = (words0 l / 32 + 1)%nat) by done. pose proof (lo_partial _ Hl).
  pose proof (Nat.div_mod_eq (blocks l) 32). assert (Hbr := Nat.mod_upper_bound (blocks l) 32 ltac:(lia)).
  pose proof (Nat.div_mod_eq (words0 l) 32). assert (Hwr := Nat.mod_upper_bound (words0 l) 32 ltac:(lia)).
  assert (Hbit : forall base q t, j = (base + q)%nat -> (t < 32)%nat -> Z.testbit (ws !!! j) (Z.of_nat t) = bits ws base (32 * q + t)).
  { intros base q t -> Ht. by rewrite bits_word. }
  assert (Hlev0 : forall k, (k < 32 * words0 l)%nat -> bits ws 8 k = (blocks l <=? k)%nat).
  { intros k Hk. destruct (Nat.leb_spec (blocks l) k); [apply (sok_sentinel0 _ _ Hs); lia|apply Hf; lia]. }
  assert (Hlev1 : forall q, (q < 32 * words1 l)%nat -> bits ws (8 + words0 l) q = (words0 l <=? q)%nat).
  { intros q Hq. destruct (Nat.leb_spec (words0 l) q); [apply (sok_sentinel1 _ _ Hs); lia|].
    rewrite (sok_level1 _ _ Hs) by done. apply not_true_iff_false. rewrite full_word by apply Hs.
    intros Hfull. specialize (Hfull (32 * q)%nat ltac:(lia)). rewrite Hlev0 in Hfull by lia. apply Nat.leb_le in Hfull. lia. }
  apply word_eq; [done|repeat case_decide; try apply high_bits_u32; done|]. intros t Ht.
  destruct (Nat.lt_ge_cases j (8 + words0 l)) as [Hj0|Hj0]; [|destruct (Nat.lt_ge_cases j (8 + words0 l + words1 l)) as [Hj1|Hj1]].
  - rewrite (Hbit 8%nat (j - 8)%nat) by lia. rewrite Hlev0 by lia. unfold last0, last1. repeat case_decide; try lia.
    + rewrite high_bits_testbit by done. apply Bool.eq_true_iff_eq. rewrite !Nat.leb_le. lia.
    + rewrite Z.bits_0. apply Nat.leb_gt. lia.
  - rewrite (Hbit (8 + words0 l)%nat (j - (8 + words0 l))%nat) by lia. rewrite Hlev1 by lia. unfold last0, last1. repeat case_decide; try lia.
    + rewrite high_bits_testbit by done. apply Bool.eq_true_iff_eq. rewrite !Nat.leb_le. lia.
    + rewrite Z.bits_0. apply Nat.leb_gt. lia.
  - rewrite (Hbit (8 + words0 l + words1 l)%nat (j - (8 + words0 l + words1 l))%nat) by lia.
    unfold last0, last1. repeat case_decide; try lia. rewrite Z.bits_0. apply (Hc (32 * (j - (8 + words0 l + words1 l)) + t)%nat). lia.
Qed.

Lemma copied_spec w a seg : seg_at w i l a seg -> exists ws, copied w a = Ok (set_words ws seg, l) /\ seg_ok l ws /\
  (forall k, (k < blocks l)%nat -> bits ws 8 k = cbits l (words seg) k) /\
  (forall k, cbits l ws k = cbits l (words seg) k).
Proof.
  intros Hseg. unfold copied. rewrite (get_seg_ok i l Hi w a seg Hseg). cbn [mbind res_bind].
  destruct (copy_collect_bitmap_spec l Hl Hsz (words seg)) as (ws & Hcopy & Hok & Hbits & Hsame); [apply Hseg|].
  rewrite Hcopy. exists ws. split; [done|]. split; [done|]. split; [done|]. intros k. apply bits_ext, Hsame. right. lia.
Qed.

Lemma cleared_spec ws : seg_ok l ws -> seg_ok l (clear_collect_bitmap l ws) /\
  (forall k, (k < blocks l)%nat -> bits (clear_collect_bitmap l ws) 8 k = bits ws 8 k) /\ clean (clear_collect_bitmap l ws).
Proof.
  intros Hs. destruct (clear_collect_bitmap_spec l Hl Hsz ws Hs) as (H1 & H2 & _). split; [done|]. split; [done|].
  intros k Hk. unfold cbits, clear_collect_bitmap. rewrite (collect_base l Hl), (bitmap0_words l Hl) by exact Hsz.
  destruct (mem_set_ok (8 + words0 l + words1 l) (words0 l) 0 ws) as [_ Hl']; [apply Hs|done|lia|].
  rewrite bits_div, Hl', decide_True; [by rewrite Z.bits_0|]. pose proof (Nat.Div0.div_lt_upper_bound k 32 (words0 l)). lia.
Qed.

(** ** Where a segment goes *)
Inductive fate := ToFilled | ToPartial | ToFree.
#[global] Instance fate_eq_dec : EqDecision fate.
Proof. solve_decision. Defined.

(** The blocks that the collection frees. *)
Definition unmarked (seg : segment) : nat := count_false (cbits l (words seg)) 0 (blocks l).

Definition fate_partial (seg : segment) : fate := if decide (unmarked seg = blocks l) then ToFree else ToPartial.
Definition fate_filled (seg : segment) : fate :=
  if decide (allocptr_snapshot seg < BLOCK_LIMIT l \/ unmarked seg = 0%nat) then ToFilled else fate_partial seg.
Definition fate_pool (seg : segment) : fate :=
  if decide (unmarked seg = 0%nat) then ToFilled else fate_partial seg.

(** [seg'] is [seg] after the collection: what was marked is allocated. *)
Record collected (snap : Z) (f : fate) (seg seg' : segment) : Prop := {
  co_layout : layout seg' = Some i;
  co_ok : seg_ok l (words seg');
  co_bits k : (k < blocks l)%nat -> bits (words seg') 8 k = cbits l (words seg) k;
  co_clean : clean (words seg');
  co_count : f <> ToFilled -> seg_free_count seg' = Z.of_nat (unmarked seg);
  co_fate : match f with
            | ToFilled => allocptr_snapshot seg' = snap
            | ToPartial => allocptr_snapshot seg' = BLOCK_BASE l
            | ToFree => allocptr_snapshot seg' = BLOCK_BASE l /\ unmarked seg = blocks l
            end
}.

Lemma collected_idle snap seg seg' : collected snap ToFree seg seg' -> idle seg'.
Proof.
  intros [Hlay Hok Hb Hc Hn [Hsnap Hu]]. unfold idle. rewrite Hlay. exists l. split; [done|].
  split; [|split; [done|rewrite Hn, Hu by done; unfold blocks; pose proof (lo_pos _ Hl); lia]].
  apply free_is_blank; [done..|]. intros k Hk. rewrite Hb by done. unfold unmarked in Hu. rewrite count_false_all in Hu. apply Hu. lia.
Qed.

Lemma count_collected ws seg : seg_ok l ws -> (forall k, (k < blocks l)%nat -> bits ws 8 k = cbits l (words seg) k) ->
  free_count l ws None = Ok (Z.of_nat (unmarked seg)).
Proof.
  intros Hs Hb. rewrite (free_count_spec l ws Hl Hs) by exact Hsz. do 2 f_equal. unfold num_free, unmarked. rewrite Nat.sub_0_r.
  apply count_false_ext. intros k Hk. apply Hb. lia.
Qed.
End Segment.

Arguments collected i l snap f seg seg'.

Section Steps.
Context (i : nat) (l : segment_layout) (Hi : the_layouts !! i = Some l).
Let Hl : layout_ok l := layouts_ok i l Hi.

Lemma unmarked_le seg : (unmarked l seg <= blocks l)%nat.
Proof. apply count_false_le. Qed.

Lemma blocks_num : Z.of_nat (blocks l) = num_blocks l.
Proof. unfold blocks. pose proof (lo_pos _ Hl). lia. Qed.

(** The segment that stays in use, and the one that is given back. *)
Lemma keep_collected w a seg ws snap0 snap f : seg_at w i l a seg -> seg_ok l ws ->
  (forall k, (k < blocks l)%nat -> bits ws 8 k = cbits l (words seg) k) -> f <> ToFree ->
  (f = ToPartial -> snap = BLOCK_BASE l) -> (f = ToFilled -> snap = snap0) ->
  collected i l snap0 f seg (Segment (layout seg) snap (Z.of_nat (unmarked l seg)) (clear_collect_bitmap l ws)).
Proof.
  intros (_ & Hlay & _) Hs Hb Hf Hp Hq. destruct (cleared_spec i l Hi ws Hs) as (H1 & H2 & H3).
  split; try done.
  - intros k Hk. cbn [words]. by rewrite H2, Hb.
  - destruct f; [by apply Hq|by apply Hp|done].
Qed.

Lemma free_collected w a seg ws snap : seg_at w i l a seg -> tail_clean l (words seg) -> seg_ok l ws ->
  (forall k, (k < blocks l)%nat -> bits ws 8 k = cbits l (words seg) k) ->
  (forall k, cbits l ws k = cbits l (words seg) k) -> unmarked l seg = blocks l ->
  collected i l snap ToFree seg (Segment (layout seg) (BLOCK_BASE l) (Z.of_nat (unmarked l seg)) ws).
Proof.
  intros (_ & Hlay & _) Ht Hs Hb Hc Hu. split; try done. intros k Hk. cbn [words]. rewrite Hc.
  unfold unmarked in Hu. rewrite count_false_all in Hu. destruct (Nat.lt_ge_cases k (blocks l)); [apply Hu; lia|apply Ht; lia].
Qed.

(** How a turn of a loop changes the segments. *)
Definition turn (w w' : world) (a : Z) (snap : Z) (f : fate) (seg : segment) : Prop :=
  exists seg', w' = put_seg w a seg' /\ collected i l snap f seg seg'.

Definition dest (f : fate) (r r' : reclaiming) (a : Z) : Prop :=
  rc_filled r' = rc_filled r ++ (if f is ToFilled then [a] else []) /\
  rc_partial r' = rc_partial r ++ (if f is ToPartial then [a] else []) /\
  rc_free r' = rc_free r ++ (if f is ToFree then [a] else []).

Lemma reclaim_partial_step_spec r a seg : seg_at (rc_world r) i l a seg -> tail_clean l (words seg) ->
  allocptr_snapshot seg = BLOCK_BASE l ->
  exists r', reclaim_partial_step r a = Ok r' /\
    turn (rc_world r) (rc_world r') a (BLOCK_BASE l) (fate_partial l seg) seg /\ dest (fate_partial l seg) r r' a.
Proof.
  intros Hseg Ht Hsnap. destruct (copied_spec i l Hi _ _ _ Hseg) as (ws & Hcp & Hok & Hb & Hc).
  unfold reclaim_partial_step. rewrite Hcp. cbn [mbind res_bind]. cbn [allocptr_snapshot set_words words].
  rewrite (proj2 (Z.eqb_eq _ _) Hsnap). cbn [assert_that mbind res_bind].
  rewrite (count_collected i l Hi ws seg Hok Hb). cbn [mbind res_bind]. rewrite <- blocks_num. unfold fate_partial.
  destruct (decide (unmarked l seg = blocks l)) as [Hu|Hu].
  - rewrite Hu, Z.eqb_refl. eexists. split; [reflexivity|]. split; [|by unfold dest; cbn; rewrite !app_nil_r].
    eexists. split; [reflexivity|]. unfold set_free_count, set_words. cbn [words layout allocptr_snapshot].
    rewrite Hsnap, <- Hu. by apply (free_collected _ a seg ws _ Hseg Ht Hok Hb Hc).
  - rewrite (proj2 (Z.eqb_neq _ _)) by lia. eexists. split; [reflexivity|]. split; [|by unfold dest; cbn; rewrite !app_nil_r].
    eexists. split; [reflexivity|]. unfold set_free_count, set_words, cleared. cbn [words layout allocptr_snapshot set_words].
    rewrite Hsnap. by apply (keep_collected _ a seg ws _ _ _ Hseg Hok Hb).
Qed.

Lemma reclaim_filled_step_spec r a seg : seg_at (rc_world r) i l a seg -> tail_clean l (words seg) ->
  exists r', reclaim_filled_step r a = Ok r' /\
    turn (rc_world r) (rc_world r') a (BLOCK_LIMIT l) (fate_filled l seg) seg /\ dest (fate_filled l seg) r r' a.
Proof.
  intros Hseg Ht. destruct (copied_spec i l Hi _ _ _ Hseg) as (ws & Hcp & Hok & Hb & Hc).
  unfold reclaim_filled_step. rewrite Hcp. cbn [mbind res_bind]. cbn [seg_free_count set_words words].
  rewrite (count_collected i l Hi ws seg Hok Hb). cbn [mbind res_bind set_free_count allocptr_snapshot set_words].
  rewrite <- blocks_num. unfold fate_filled.
  assert (Hif : (allocptr_snapshot seg <? BLOCK_LIMIT l) || (Z.of_nat (unmarked l seg) =? 0) =
            bool_decide (allocptr_snapshot seg < BLOCK_LIMIT l \/ unmarked l seg = 0%nat)).
  { apply Bool.eq_true_iff_eq. rewrite orb_true_iff, Z.ltb_lt, Z.eqb_eq, bool_decide_eq_true. lia. }
  rewrite Hif. destruct (decide (allocptr_snapshot seg < BLOCK_LIMIT l \/ unmarked l seg = 0%nat)) as [Hf|Hf].
  - rewrite bool_decide_true by done. eexists. split; [reflexivity|]. split; [|by unfold dest; cbn; rewrite !app_nil_r].
    eexists. split; [reflexivity|]. by apply (keep_collected _ a seg ws _ _ _ Hseg Hok Hb).
  - rewrite bool_decide_false by done. unfold fate_partial.
    destruct (decide (unmarked l seg = blocks l)) as [Hu|Hu].
    + rewrite Hu, Z.eqb_refl. eexists. split; [reflexivity|]. split; [|by unfold dest; cbn; rewrite !app_nil_r].
      eexists. split; [reflexivity|]. unfold set_snapshot. cbn [words layout seg_free_count]. rewrite <- Hu. by apply (free_collected _ a seg ws _ Hseg Ht Hok Hb Hc).
    + rewrite (proj2 (Z.eqb_neq _ _)) by lia. eexists. split; [reflexivity|]. split; [|by unfold dest; cbn; rewrite !app_nil_r].
      eexists. split; [reflexivity|]. by apply (keep_collected _ a seg ws _ _ _ Hseg Hok Hb).
Qed.

(** The lists that a loop fills: filled, partial and free segments. *)
Definition lists : Type := list Z * list Z * list Z.
Definition dest3 (f : fate) (x x' : lists) (a : Z) : Prop :=
  let '(fl, pa, fr) := x in let '(fl', pa', fr') := x' in
  fl' ≡ₚ fl ++ (if f is ToFilled then [a] else []) /\
  pa' ≡ₚ pa ++ (if f is ToPartial then [a] else []) /\
  fr' ≡ₚ fr ++ (if f is ToFree then [a] else []).

Lemma reclaim_marked_step_spec w pa fr a seg : seg_at w i l a seg -> tail_clean l (words seg) ->
  exists w' pa' fr', reclaim_marked_step (w, pa, fr) a = Ok (w', pa', fr') /\
    turn w w' a (BLOCK_BASE l) (fate_partial l seg) seg /\ dest3 (fate_partial l seg) ([], pa, fr) ([], pa', fr') a.
Proof.
  intros Hseg Ht. destruct (copied_spec i l Hi _ _ _ Hseg) as (ws & Hcp & Hok & Hb & Hc).
  unfold reclaim_marked_step. rewrite Hcp. cbn [mbind res_bind]. cbn [words set_snapshot set_words].
  rewrite (count_collected i l Hi ws seg Hok Hb). cbn [mbind res_bind]. rewrite <- blocks_num. unfold fate_partial.
  destruct (decide (unmarked l seg = blocks l)) as [Hu|Hu].
  - rewrite Hu, Z.eqb_refl. do 3 eexists. split; [reflexivity|]. split; [|by unfold dest3; rewrite !app_nil_r].
    eexists. split; [reflexivity|]. rewrite <- Hu. by apply (free_collected _ a seg ws _ Hseg Ht Hok Hb Hc).
  - rewrite (proj2 (Z.eqb_neq _ _)) by lia. do 3 eexists. split; [reflexivity|].
    split; [|by unfold dest3; rewrite !app_nil_r, Permutation_cons_append].
    eexists. split; [reflexivity|]. by apply (keep_collected _ a seg ws _ _ _ Hseg Hok Hb).
Qed.

Lemma reclaim_pool_filled_step_spec w fl pa fr a seg : seg_at w i l a seg -> tail_clean l (words seg) ->
  exists w' fl' pa' fr', reclaim_pool_filled_step (w, fl, pa, fr) a = Ok (w', fl', pa', fr') /\
    turn w w' a (BLOCK_BASE l) (fate_pool l seg) seg /\ dest3 (fate_pool l seg) (fl, pa, fr) (fl', pa', fr') a.
Proof.
  intros Hseg Ht. destruct (copied_spec i l Hi _ _ _ Hseg) as (ws & Hcp & Hok & Hb & Hc).
  unfold reclaim_pool_filled_step. rewrite Hcp. cbn [mbind res_bind]. cbn [words set_snapshot set_words].
  rewrite (count_collected i l Hi ws seg Hok Hb). cbn [mbind res_bind]. rewrite <- blocks_num. unfold fate_pool.
  destruct (decide (unmarked l seg = 0%nat)) as [Hz|Hz].
  - rewrite Hz. cbn [Z.of_nat Z.eqb]. do 4 eexists. split; [reflexivity|]. split; [|by unfold dest3; rewrite !app_nil_r].
    eexists. split; [reflexivity|]. change 0 with (Z.of_nat 0). rewrite <- Hz. by apply (keep_collected _ a seg ws _ _ _ Hseg Hok Hb).
  - rewrite (proj2 (Z.eqb_neq _ 0)) by lia. unfold fate_partial.
    destruct (decide (unmarked l seg = blocks l)) as [Hu|Hu].
    + rewrite Hu, Z.eqb_refl. do 4 eexists. split; [reflexivity|]. split; [|by unfold dest3; rewrite !app_nil_r].
      eexists. split; [reflexivity|]. rewrite <- Hu. by apply (free_collected _ a seg ws _ Hseg Ht Hok Hb Hc).
    + rewrite (proj2 (Z.eqb_neq _ _)) by lia. do 4 eexists. split; [reflexivity|]. split; [|by unfold dest3; rewrite !app_nil_r].
      eexists. split; [reflexivity|]. by apply (keep_collected _ a seg ws _ _ _ Hseg Hok Hb).
Qed.

(** The segment of the allocation pointer stays where it is; the blocks
    before the pointer are not looked at. *)
Lemma reclaim_current_spec r p : ptr_ok (rc_world r) i l p ->
  exists r', reclaim_current r p = Ok r' /\ ptr_ok (rc_world r') i l p /\
    rc_filled r' = rc_filled r /\ rc_partial r' = rc_partial r /\ rc_free r' = rc_free r /\
    match ap_b p with
    | None => rc_world r' = rc_world r
    | Some (a, _) => exists seg, segs (rc_world r) !! a = Some seg /\ turn (rc_world r) (rc_world r') a (BLOCK_LIMIT l) ToFilled seg
    end.
Proof.
  intros [Hbs Hp]. unfold reclaim_current. destruct (ap_b p) as [[a b]|] eqn:Hb.
  - destruct Hp as (seg & n & Hseg & Hn & -> & Hap). assert (Hpos := block_addr_pos i l Hi a n ltac:(apply Hseg)).
    rewrite (proj2 (Z.eqb_neq _ 0)) by lia. unfold ALLOC_PTR_TO_SEGMENT. rewrite Hb. cbn [deref mbind res_bind].
    destruct (copied_spec i l Hi _ _ _ Hseg) as (ws & Hcp & Hok & Hbits & Hc). rewrite Hcp. cbn [mbind res_bind].
    destruct (cleared_spec i l Hi ws Hok) as (Hok' & _ & _). cbn [words set_snapshot cleared set_words].
    replace (ap_p p - a) with (BLOCK_BASE l + Z.of_nat n * blocksize_bytes l) by (rewrite Hap; unfold block_addr; lia).
    rewrite (free_count_at_spec l _ Hl Hok' (layout_meta i l Hi) n Hn). cbn [mbind res_bind].
    assert (Hidx : exists k, object_index l (BLOCK_BASE l + Z.of_nat n * blocksize_bytes l) = Ok k).
    { pose proof (free_count_at_spec l _ Hl Hok' (layout_meta i l Hi) n Hn) as Hfc. unfold free_count in Hfc.
      destruct (object_index l _) as [k| | |]; [by exists k|discriminate Hfc..]. }
    destruct Hidx as [k ->]. cbn [mbind res_bind]. eexists. split; [reflexivity|]. cbn [rc_world rc_filled rc_partial rc_free].
    assert (Hco : collected i l (BLOCK_LIMIT l) ToFilled seg
              (set_free_count (Z.of_nat (num_free l (clear_collect_bitmap l ws) (32 * (n / 32 + 1))))
                 (set_snapshot (BLOCK_LIMIT l) (cleared l (set_words ws seg))))).
    { assert (Hfd : ToFilled <> ToFree) by done.
      destruct (keep_collected _ a seg ws (BLOCK_LIMIT l) (BLOCK_LIMIT l) ToFilled Hseg Hok Hbits Hfd) as [H1 H2 H3 H4 _ H6]; [done..|].
      split; done. }
    split.
    + split; [done|]. rewrite Hb. eexists _, n. split; [|done]. split; [apply put_seg_at|]. split; [apply Hco|]. split; [apply Hco|apply Hseg].
    + do 3 (split; [done|]). exists seg. split; [apply Hseg|]. eexists. split; [reflexivity|exact Hco].
  - rewrite Hp, Z.eqb_refl. exists r. split; [done|]. split; [|done]. split; [done|]. by rewrite Hb.
Qed.
End Steps.

(** ** The loops *)
Section Loop.
Context (i : nat) (l : segment_layout) (Hi : the_layouts !! i = Some l).
Context {S : Type} (world_of : S -> world) (lists_of : S -> lists) (step : S -> Z -> res S).
Context (snap : Z) (fate_of : segment -> fate) (pre : segment -> Prop).
Hypothesis step_spec : forall s a seg, seg_at (world_of s) i l a seg -> pre seg ->
  exists s', step s a = Ok s' /\ turn i l (world_of s) (world_of s') a snap (fate_of seg) seg /\
    dest3 (fate_of seg) (lists_of s) (lists_of s') a.

(** The segments of [xs] that go to [f], as they are in [w]. *)
Definition fate_at (w : world) (a : Z) : fate := match segs w !! a with Some seg => fate_of seg | None => ToFilled end.
Definition going (w : world) (f : fate) (xs : list Z) : list Z := filter (fun a => fate_at w a = f) xs.

(** Only the segments of [xs] have changed. *)
Definition only (w w' : world) (xs : list Z) : Prop :=
  pool w' = pool w /\ current_phase w' = current_phase w /\ gc_requests w' = gc_requests w /\
  forall b, b ∉ xs -> segs w' !! b = segs w !! b.

(** Each segment of [xs] has been reclaimed. *)
Definition reclaimed (w w' : world) (xs : list Z) : Prop :=
  forall a, a ∈ xs -> exists seg seg', segs w !! a = Some seg /\ seg_at w' i l a seg' /\ collected i l snap (fate_at w a) seg seg'.

Definition sorted_from (w : world) (xs : list Z) (x x' : lists) : Prop :=
  let '(fl, pa, fr) := x in let '(fl', pa', fr') := x' in
  fl' ≡ₚ fl ++ going w ToFilled xs /\ pa' ≡ₚ pa ++ going w ToPartial xs /\ fr' ≡ₚ fr ++ going w ToFree xs.

Lemma only_refl w xs : only w w xs.
Proof. done. Qed.

Lemma only_trans w1 w2 w3 xs ys : only w1 w2 xs -> only w2 w3 ys -> only w1 w3 (xs ++ ys).
Proof.
  intros (H1 & H2 & H3 & H4) (H5 & H6 & H7 & H8). split; [congruence|]. split; [congruence|]. split; [congruence|].
  intros b Hb. rewrite not_elem_of_app in Hb. rewrite H8, H4; tauto.
Qed.

Lemma reclaim_loop xs : forall s w0, NoDup xs ->
  (forall a, a ∈ xs -> segs (world_of s) !! a = segs w0 !! a /\ exists seg, seg_at w0 i l a seg /\ pre seg) ->
  exists s', foldl (fun r a => r ← r; step r a) (Ok s) xs = Ok s' /\ only (world_of s) (world_of s') xs /\
    reclaimed w0 (world_of s') xs /\ sorted_from w0 xs (lists_of s) (lists_of s').
Proof.
  induction xs as [|a xs IH]; intros s w0 Hnd Hin.
  - exists s. split; [done|]. split; [done|]. split; [intros a Ha; by apply elem_of_nil in Ha|].
    unfold sorted_from, going. destruct (lists_of s) as [[fl pa] fr]. by rewrite !app_nil_r.
  - apply NoDup_cons in Hnd as [Ha Hnd]. destruct (Hin a) as (Hsame & seg & Hseg & Hpre); [by left|].
    assert (Hseg' : seg_at (world_of s) i l a seg) by (destruct Hseg as [Hs ?]; split; [congruence|done]).
    destruct (step_spec s a seg Hseg' Hpre) as (s1 & Hrun & (seg1 & Hw1 & Hco) & Hdest). cbn [foldl mbind res_bind]. rewrite Hrun.
    assert (Hrest : forall b, b ∈ xs -> segs (world_of s1) !! b = segs w0 !! b /\ exists seg, seg_at w0 i l b seg /\ pre seg).
    { intros b Hb. destruct (Hin b) as [H1 H2]; [by right|]. split; [|done]. rewrite Hw1. cbn [segs put_seg set_segs].
      rewrite lookup_insert_ne; [done|]. intros ->. done. }
    destruct (IH s1 w0 Hnd Hrest) as (s' & Hrun' & Honly & Hrec & Hsort). exists s'. split; [done|].
    assert (Hfa : fate_at w0 a = fate_of seg) by (unfold fate_at; by rewrite (proj1 Hseg)).
    split; [|split].
    + apply (only_trans _ (world_of s1) _ [a] xs); [|done]. rewrite Hw1. do 3 (split; [done|]). intros b Hb.
      apply (put_seg_but _ a). intros ->. apply Hb. by left.
    + intros b [->|Hb]%elem_of_cons; [|by apply Hrec]. exists seg, seg1. split; [apply Hseg|]. rewrite Hfa. split; [|done].
      destruct Honly as (_ & _ & _ & Hon). split; [rewrite Hon by done; rewrite Hw1; apply put_seg_at|].
      split; [apply Hco|]. split; [apply Hco|apply Hseg].
    + unfold sorted_from, going in *. destruct (lists_of s) as [[fl pa] fr], (lists_of s1) as [[fl1 pa1] fr1], (lists_of s') as [[fl' pa'] fr'].
      destruct Hsort as (H1 & H2 & H3). destruct Hdest as (H4 & H5 & H6). rewrite H4 in H1. rewrite H5 in H2. rewrite H6 in H3.
      rewrite !filter_cons, Hfa. destruct (fate_of seg); cbn in *; rewrite ?app_nil_r in *; rewrite <- ?app_assoc in *; done.
Qed.
End Loop.

Arguments reclaimed i l snap fate_of w w' xs.

Section Subheap.
Context (i : nat) (l : segment_layout) (Hi : the_layouts !! i = Some l).
Let Hl : layout_ok l := layouts_ok i l Hi.

(** A subheap at the end of marking. *)
Record to_collect (w : world) (p : alloc_ptr) (sh : subheap) : Prop := {
  tc_ptr : ptr_ok w i l p;
  tc_partial a : a ∈ partial sh -> exists seg, seg_at w i l a seg /\ tail_clean l (words seg) /\ allocptr_snapshot seg = BLOCK_BASE l;
  tc_filled a : a ∈ filled sh -> exists seg, seg_at w i l a seg /\ tail_clean l (words seg);
  tc_nodup : NoDup (ptr_seg p ++ filled sh ++ partial sh)
}.

(** All segments of the subheap have been reclaimed and sorted. *)
Record subheap_reclaimed (w w' : world) (p : alloc_ptr) (sh sh' : subheap) (free free' : list Z) : Prop := {
  sr_only : only w w' (partial sh ++ ptr_seg p ++ filled sh);
  sr_ptr : ptr_ok w' i l p;
  sr_partial : reclaimed i l (BLOCK_BASE l) (fate_partial l) w w' (partial sh);
  sr_filled : reclaimed i l (BLOCK_LIMIT l) (fate_filled l) w w' (filled sh);
  sr_current : reclaimed i l (BLOCK_LIMIT l) (fun _ => ToFilled) w w' (ptr_seg p);
  sr_to_filled : filled sh' ≡ₚ going (fate_filled l) w ToFilled (filled sh);
  sr_to_partial : partial sh' ≡ₚ going (fate_partial l) w ToPartial (partial sh) ++ going (fate_filled l) w ToPartial (filled sh);
  sr_to_free : free' ≡ₚ free ++ going (fate_partial l) w ToFree (partial sh) ++ going (fate_filled l) w ToFree (filled sh)
}.

Definition lists_of (r : reclaiming) : lists := (rc_filled r, rc_partial r, rc_free r).
Lemma dest_lists f r r' a : dest f r r' a -> dest3 f (lists_of r) (lists_of r') a.
Proof. intros (H1 & H2 & H3). unfold dest3, lists_of. by rewrite H1, H2, H3. Qed.

Lemma reclaimed_later snap fate w w' w'' xs ys : reclaimed i l snap fate w w' xs -> only w' w'' ys -> (forall a, a ∈ xs -> a ∉ ys) ->
  reclaimed i l snap fate w w'' xs.
Proof.
  intros Hr (_ & _ & _ & Hon) Hd a Ha. destruct (Hr a Ha) as (seg & seg' & H1 & [H2 H3] & H4).
  exists seg, seg'. split; [done|]. split; [|done]. split; [|done]. rewrite Hon; [done|]. by apply Hd.
Qed.

Lemma going_partial_none w xs : (forall a, a ∈ xs -> segs w !! a <> None) -> going (fate_partial l) w ToFilled xs = [].
Proof.
  intros Hs. apply filter_none, Forall_forall. intros a Ha. unfold fate_at, fate_partial.
  destruct (segs w !! a) eqn:Hsa; [by case_decide|by destruct (Hs a Ha)].
Qed.

Lemma reclaimed_sooner snap fate w w0 w' xs : reclaimed i l snap fate w w' xs ->
  (forall a, a ∈ xs -> segs w !! a = segs w0 !! a) -> reclaimed i l snap fate w0 w' xs.
Proof.
  intros Hr Hsame a Ha. destruct (Hr a Ha) as (seg & seg' & H1 & H2 & H3). exists seg, seg'.
  unfold fate_at in *. rewrite <- Hsame by done. done.
Qed.

(** The segment of the allocation pointer. *)
Lemma reclaim_current_only r p : ptr_ok (rc_world r) i l p ->
  exists r', reclaim_current r p = Ok r' /\ ptr_ok (rc_world r') i l p /\ lists_of r' = lists_of r /\
    only (rc_world r) (rc_world r') (ptr_seg p) /\
    reclaimed i l (BLOCK_LIMIT l) (fun _ => ToFilled) (rc_world r) (rc_world r') (ptr_seg p).
Proof.
  intros Hptr. destruct (reclaim_current_spec i l Hi r p Hptr) as (r' & Hrun & Hptr' & Hf & Hp & Hfr & Hw).
  exists r'. split; [done|]. split; [done|]. split; [unfold lists_of; by rewrite Hf, Hp, Hfr|].
  unfold ptr_seg in *. destruct (ap_b p) as [[a b]|] eqn:Hab.
  - destruct Hw as (seg & Hs & seg' & Hw & Hco). split.
    + rewrite Hw. do 3 (split; [done|]). intros b' Hb'. apply (put_seg_but _ a). intros ->. apply Hb'. by left.
    + intros a' ->%list_elem_of_singleton. exists seg, seg'. split; [done|].
      assert (fate_at (fun _ => ToFilled) (rc_world r) a = ToFilled) as -> by (unfold fate_at; by case_match).
      split; [|done]. split; [rewrite Hw; apply put_seg_at|]. split; [apply Hco|]. split; [apply Hco|].
      destruct Hptr as [_ H1]. rewrite Hab in H1. destruct H1 as (? & ? & Hx & _). apply Hx.
  - rewrite Hw. split; [done|]. intros a Ha. by apply elem_of_nil in Ha.
Qed.

Lemma reclaim_subheap_spec w h p sh free : hptr h !! i = Some p -> subheaps h !! i = Some sh -> to_collect w p sh ->
  exists w' sh' free' st, reclaim_subheap w h i free = Ok (w', set_subheap i sh' h, free', st) /\
    subheap_reclaimed w w' p sh sh' free free'.
Proof.
  intros Hp Hsh [Hptr Hpa Hfi Hnd]. unfold reclaim_subheap, segment_layout_at. rewrite Hsh, Hp, Hi. cbn [deref mbind res_bind].
  assert (Hnd' := Hnd). apply NoDup_app in Hnd' as (Hndp & Hd1 & Hnd'). apply NoDup_app in Hnd' as (Hndf & Hd2 & Hndpa).
  destruct (reclaim_loop i l rc_world lists_of reclaim_partial_step (BLOCK_BASE l) (fate_partial l)
    (fun seg => tail_clean l (words seg) /\ allocptr_snapshot seg = BLOCK_BASE l)) with (xs := partial sh)
    (s := Reclaiming w [] [] free 0 0 0 0 0) (w0 := w) as (r1 & Hr1 & Ho1 & Hre1 & Hso1); [|done| |].
  { intros r a seg Hseg [Ht Hsn]. destruct (reclaim_partial_step_spec i l Hi r a seg Hseg Ht Hsn) as (r' & H1 & H2 & H3).
    exists r'. split; [done|]. split; [done|by apply dest_lists]. }
  { intros a Ha. split; [done|]. destruct (Hpa a Ha) as (seg & H1 & H2). by exists seg. }
  rewrite Hr1. cbn [mbind res_bind]. cbn [rc_world] in Ho1.
  assert (Hptr1 : ptr_ok (rc_world r1) i l p).
  { apply (ptr_ok_frame w); [done|]. intros a Ha. destruct Ho1 as (_ & _ & _ & Hon). apply Hon. intros Hx.
    apply (Hd1 a Ha). rewrite elem_of_app. by right. }
  destruct (reclaim_current_only r1 p Hptr1) as (r2 & Hr2 & Hptr2 & Hlists & Ho2 & Hre2). rewrite Hr2. cbn [mbind res_bind].
  unfold lists_of in Hlists. injection Hlists as Hf2 Hp2 Hfr2.
  destruct (reclaim_loop i l rc_world lists_of reclaim_filled_step (BLOCK_LIMIT l) (fate_filled l)
    (fun seg => tail_clean l (words seg))) with (xs := filled sh) (s := r2) (w0 := w) as (r3 & Hr3 & Ho3 & Hre3 & Hso3); [|done| |].
  { intros r a seg Hseg Ht. destruct (reclaim_filled_step_spec i l Hi r a seg Hseg Ht) as (r' & H1 & H2 & H3).
    exists r'. split; [done|]. split; [done|by apply dest_lists]. }
  { intros a Ha. split; [|by apply Hfi]. destruct Ho1 as (_ & _ & _ & Hon1), Ho2 as (_ & _ & _ & Hon2). rewrite Hon2, Hon1; [done| |].
    - by apply Hd2.
    - intros Hx. apply (Hd1 a Hx). rewrite elem_of_app. by left. }
  rewrite Hr3. cbn [mbind res_bind]. exists (rc_world r3), (Subheap (rc_filled r3) (rc_partial r3)), (rc_free r3). eexists. split; [reflexivity|].
  assert (Ho12 := only_trans _ _ _ _ _ Ho1 Ho2).
  assert (Hr13 : reclaimed i l (BLOCK_BASE l) (fate_partial l) w (rc_world r3) (partial sh)).
  { apply (reclaimed_later _ _ _ (rc_world r1) _ _ (ptr_seg p ++ filled sh)); [done|by eapply only_trans|].
    intros a Ha. rewrite not_elem_of_app. split; intros Hx; [apply (Hd1 a Hx); rewrite elem_of_app; by right|by apply (Hd2 a)]. }
  assert (Hr23 : reclaimed i l (BLOCK_LIMIT l) (fun _ => ToFilled) w (rc_world r3) (ptr_seg p)).
  { apply (reclaimed_later _ _ _ (rc_world r2) _ _ (filled sh)); [|done|intros a Ha Hx; apply (Hd1 a Ha); rewrite elem_of_app; by left].
    apply (reclaimed_sooner _ _ (rc_world r1)); [done|]. intros a Ha. destruct Ho1 as (_ & _ & _ & Hon). apply Hon. intros Hx.
    apply (Hd1 a Ha). rewrite elem_of_app. by right. }
  split; try done.
  - apply (only_trans w (rc_world r1) (rc_world r3) (partial sh) (ptr_seg p ++ filled sh)); [done|]. by eapply only_trans.
  - apply (ptr_ok_frame (rc_world r2)); [done|]. intros a Ha. destruct Ho3 as (_ & _ & _ & Hon). apply Hon. intros Hx.
    apply (Hd1 a Ha). rewrite elem_of_app. by left.
  - destruct Hso3 as (H1 & _). destruct Hso1 as (H2 & _). cbn [filled]. rewrite H1, Hf2, H2.
    rewrite going_partial_none; [done|]. intros a Ha. destruct (Hpa a Ha) as (seg & [Hs _] & _). congruence.
  - destruct Hso3 as (_ & H1 & _). destruct Hso1 as (_ & H2 & _). cbn [partial]. by rewrite H1, Hp2, H2.
  - destruct Hso3 as (_ & _ & H1). destruct Hso1 as (_ & _ & H2). rewrite H1, Hfr2, H2. by rewrite <- app_assoc.
Qed.

(** *** A subpool of the segment pool *)
Record subpool_to_collect (w : world) (sp : subpool) : Prop := {
  st_marked a : a ∈ partial_marked sp -> exists seg, seg_at w i l a seg /\ tail_clean l (words seg);
  st_filled a : a ∈ pool_filled sp -> exists seg, seg_at w i l a seg /\ tail_clean l (words seg);
  st_nodup : NoDup (partial_marked sp ++ pool_filled sp)
}.

Record subpool_reclaimed (w w' : world) (sp sp' : subpool) (free free' : list Z) : Prop := {
  pr_only : only w w' (partial_marked sp ++ pool_filled sp);
  pr_marked : reclaimed i l (BLOCK_BASE l) (fate_partial l) w w' (partial_marked sp);
  pr_filled : reclaimed i l (BLOCK_BASE l) (fate_pool l) w w' (pool_filled sp);
  pr_none_marked : partial_marked sp' = [];
  pr_to_filled : pool_filled sp' ≡ₚ going (fate_pool l) w ToFilled (pool_filled sp);
  pr_to_partial : pool_partial sp' ≡ₚ pool_partial sp ++ going (fate_partial l) w ToPartial (partial_marked sp) ++ going (fate_pool l) w ToPartial (pool_filled sp);
  pr_to_free : free' ≡ₚ free ++ going (fate_partial l) w ToFree (partial_marked sp) ++ going (fate_pool l) w ToFree (pool_filled sp)
}.

Lemma reclaim_subpool_spec w sp free : subpool_to_collect w sp ->
  exists w' sp' free', reclaim_subpool w sp free = Ok (w', sp', free') /\ subpool_reclaimed w w' sp sp' free free'.
Proof.
  intros [Hma Hfi Hnd]. apply NoDup_app in Hnd as (Hndm & Hd & Hndf). unfold reclaim_subpool.
  destruct (reclaim_loop i l (fun s : world * list Z * list Z => s.1.1) (fun s => ([], s.1.2, s.2)) reclaim_marked_step
    (BLOCK_BASE l) (fate_partial l) (fun seg => tail_clean l (words seg))) with (xs := partial_marked sp)
    (s := (w, pool_partial sp, free)) (w0 := w) as ([[w1 popped] free1] & Hr1 & Ho1 & Hre1 & Hso1); [|done| |].
  { intros [[w1 pa] fr] a seg Hseg Ht. destruct (reclaim_marked_step_spec i l Hi w1 pa fr a seg Hseg Ht) as (w' & pa' & fr' & H1 & H2 & H3).
    by exists (w', pa', fr'). }
  { intros a Ha. split; [done|by apply Hma]. }
  rewrite Hr1. cbn [mbind res_bind]. cbn [fst snd] in Ho1, Hre1, Hso1.
  destruct (reclaim_loop i l (fun s : world * list Z * list Z * list Z => s.1.1.1) (fun s => (s.1.1.2, s.1.2, s.2)) reclaim_pool_filled_step
    (BLOCK_BASE l) (fate_pool l) (fun seg => tail_clean l (words seg))) with (xs := pool_filled sp)
    (s := (w1, [] : list Z, [] : list Z, free1)) (w0 := w) as ([[[w2 fl] pa] free2] & Hr2 & Ho2 & Hre2 & Hso2); [|done| |].
  { intros [[[w2 fl] pa] fr] a seg Hseg Ht.
    destruct (reclaim_pool_filled_step_spec i l Hi w2 fl pa fr a seg Hseg Ht) as (w' & fl' & pa' & fr' & H1 & H2 & H3).
    by exists (w', fl', pa', fr'). }
  { intros a Ha. split; [|by apply Hfi]. destruct Ho1 as (_ & _ & _ & Hon). cbn [fst]. rewrite Hon; [done|]. intros Hx. by apply (Hd a). }
  rewrite Hr2. cbn [mbind res_bind]. cbn [fst snd] in Ho2, Hre2, Hso2.
  exists w2, (Subpool fl (pa ++ popped) []), free2. split; [done|].
  destruct Hso1 as (_ & Hp1 & Hf1), Hso2 as (Hfl2 & Hp2 & Hf2). split; try done.
  - by eapply only_trans.
  - by apply (reclaimed_later _ _ _ w1 _ _ (pool_filled sp)).
  - cbn [pool_partial]. rewrite Hp1, Hp2. cbn [app]. solve_Permutation.
  - rewrite Hf2, Hf1. by rewrite <- app_assoc.
Qed.
End Subheap.
