(* ===== verification/Heap.v ===== *)
(** * The heap of a thread

    [struct heap] and [struct sml_alloc] of src/src/runtime/heap_concurrent.c
    with the counters that control the growth of the heap; initialisation of
    memory, pool and heaps; [reclaim_heap]; the thread's allocator from its
    creation to its end.  The C type [double] is IEEE binary64 as in
    [SpecFloat]; converting a double that an integer type cannot represent is
    undefined in C and left to the parameter [undefined]. *)
From Stdlib Require Import ZArith Lia SpecFloat.
From stdpp Require Import base option list gmap.
From S2P Require Import Prelude Bits Layout Segment SegList Alloc Memory Malloc Reclaim.

Local Open Scope Z_scope.

(** ** Doubles *)
Abbreviation double := spec_float (only parsing).
Definition of_Z (n : Z) : double := binary_normalize 53 1024 n 0 false.
Definition dadd : double -> double -> double := SFadd 53 1024.
Definition dsub : double -> double -> double := SFsub 53 1024.
Definition dmul : double -> double -> double := SFmul 53 1024.
Definition ddiv : double -> double -> double := SFdiv 53 1024.
(** The literals 0.1, 0.2 and 0.5. *)
Definition d01 : double := Eval vm_compute in ddiv (of_Z 1) (of_Z 10).
Definition d02 : double := Eval vm_compute in ddiv (of_Z 1) (of_Z 5).
Definition d05 : double := Eval vm_compute in ddiv (of_Z 1) (of_Z 2).

(** The magnitude of [m * 2 ^ e], rounded down or up. *)
Definition magnitude (up : bool) (m : positive) (e : Z) : Z :=
  if 0 <=? e then Z.pos m * 2 ^ e
  else if up then - (- Z.pos m / 2 ^ (- e)) else Z.pos m / 2 ^ (- e).

Definition ceil (f : double) : double :=
  match f with
  | S754_finite s m e =>
      let z := magnitude (negb s) m e in
      if z =? 0 then S754_zero s else of_Z (if s then - z else z)
  | _ => f
  end.

Section Undefined.
Variable undefined : double -> Z.

(** Conversion to an integer type with the values from [lo] to [hi]. *)
Definition to_integer (lo hi : Z) (f : double) : Z :=
  match f with
  | S754_zero _ => 0
  | S754_finite s m e =>
      let z := magnitude false m e in
      let z := if s then - z else z in
      if (lo <=? z) && (z <=? hi) then z else undefined f
  | _ => undefined f
  end.
Definition to_uint : double -> Z := to_integer 0 (2 ^ 32 - 1).
Definition to_int : double -> Z := to_integer (- 2 ^ 31) (2 ^ 31 - 1).

(** ** Counters *)

(** The fields of [struct subheap_count] besides those in Alloc.v. *)
Record ratios := Ratios { threshold_ratio : double; allocspeed_ratio : double }.
Record heap_count := HeapCount { alloc_accum : double; gc_accum : double; heap_distrib : double }.

(** ** Initialisation *)

(** [init_memory]: [p] is what AllocPage returned for the size, a multiple of
    the page size. *)
Definition init_memory (pagesize p max_size : Z) : res memory :=
  if negb (SEGMENT_SIZE mod pagesize =? 0) then Fatal
  else
    let bytes := CEILING max_size SEGMENT_SIZE in
    let gap := Z.land p (SEGMENT_SIZE - 1) in
    Ok (Memory (if gap =? 0 then p else p + (SEGMENT_SIZE - gap)) (bytes / SEGMENT_SIZE) 0).

(** What init_memory gives back to the system: ranges (address, size). *)
Definition released_pages (p max_size : Z) : list (Z * Z) :=
  let bytes := CEILING max_size SEGMENT_SIZE in
  let gap := Z.land p (SEGMENT_SIZE - 1) in
  if gap =? 0 then [(p + bytes, SEGMENT_SIZE)]
  else [(p, SEGMENT_SIZE - gap); (p + (SEGMENT_SIZE - gap) + bytes, gap)].

Definition init_segment_pool (pagesize p min_size max_size : Z) : res (segment_pool * Z * Z) :=
  memory ← init_memory pagesize p max_size;
  let min_size := CEILING min_size SEGMENT_SIZE in
  Ok (SegmentPool (replicate NUM_SUBHEAPS (Subpool [] [] [])) [] memory,
      min_size / SEGMENT_SIZE, mem_count memory).

(** One turn of the second loop of [init_subheap_count_init]. *)
Definition count_init (min_num_segments num_blocks_total : Z) (l : segment_layout) : subheap_count * ratios :=
  let ratio := ddiv (of_Z (num_blocks l)) (of_Z num_blocks_total) in
  let room := to_uint (dmul (of_Z min_num_segments) ratio) in
  let room := if room <=? 0 then 1 else room in
  (SubheapCount (u32 (room + 1) / 2) room, Ratios d05 ratio).

Definition init_subheap_count_init (min_num_segments : Z) : list (subheap_count * ratios) * heap_count :=
  let total := foldl (fun n l => u32 (n + num_blocks l)) 0 the_layouts in
  let counts := map (count_init min_num_segments total) the_layouts in
  let distrib := foldl (fun d cl => dadd d (of_Z (u32 (extension_room cl.1.1 * num_blocks cl.2))))
                   (of_Z 0) (zip counts the_layouts) in
  (counts, HeapCount (of_Z 0) (of_Z 0) distrib).

(** [struct heap]: the part of Alloc.v, [malloc_subheap] and the rest. *)
Record full_heap := FullHeap {
  fh_heap : heap;
  fh_malloc : list Z;
  fh_ratios : list ratios;
  fh_count : heap_count
}.

Definition init_heap (init : list (subheap_count * ratios) * heap_count) : full_heap :=
  FullHeap
    (Heap (map (fun i => init_alloc_ptr (Z.of_nat i + BLOCKSIZE_MIN_LOG2)) (seq 0 NUM_SUBHEAPS))
       (replicate NUM_SUBHEAPS (Subheap [] [])) (map fst init.1) [])
    [] (map snd init.1) init.2.

(** ** [reclaim_heap] *)

(** The global list is a stack: [segment_push_list] puts a list before it. *)
Definition push_freelist (l : list Z) (w : world) : world :=
  set_pool (SegmentPool (subpools (pool w)) (l ++ pool_freelist (pool w)) (pool_memory (pool w))) w.

Record totals := Totals { alloc_total : Z; live_total : Z }.

(** One turn of the first loop: the subheaps are reclaimed into the list of
    free segments. *)
Definition reclaim_heap_step (st : world * heap * list Z * list stat_reclaim * totals) (i : nat)
  : res (world * heap * list Z * list stat_reclaim * totals) :=
  let '(w, h, free, stats, t) := st in
  '(w, h, free, stat) ← reclaim_subheap w h i free;
  Ok (w, h, free, stats ++ [stat],
      Totals (u32 (alloc_total t + num_blocks_alloced stat))
             (u32 (live_total t + u32 (stat_blocks stat - num_blocks_free stat)))).

(** The number of blocks to distribute over the subheaps. *)
Definition distribute (hc : heap_count) (t : totals) : heap_count * double :=
  let alloc := dadd (alloc_accum hc) (of_Z (alloc_total t)) in
  let gc := dadd (gc_accum hc) (of_Z (live_total t)) in
  let sum := dadd alloc gc in
  let gc_ratio := ddiv gc sum in
  let want := dmul (ddiv (dsub gc_ratio d02) d02) sum in
  let want := if SFltb (heap_distrib hc) want then want else heap_distrib hc in
  let distrib := dadd (heap_distrib hc) (dmul d01 (dsub want (heap_distrib hc))) in
  (HeapCount alloc gc distrib, distrib).

(** One turn of the second loop. *)
Definition reclaim_count (num_distrib : double) (num_alloc_total : Z) (l : segment_layout) (stat : stat_reclaim)
    (r : ratios) : subheap_count * ratios :=
  let allocspeed := ddiv (of_Z (num_blocks_alloced stat)) (of_Z num_alloc_total) in
  let allocspeed_ratio := dadd (allocspeed_ratio r) (dmul d02 (dsub allocspeed (allocspeed_ratio r))) in
  let want_block := to_uint (dmul num_distrib allocspeed_ratio) in
  let shortage_block := of_Z (if num_blocks_free stat <? want_block then u32 (want_block - num_blocks_free stat) else 0) in
  let shortage_segment := to_uint (ceil (ddiv shortage_block (of_Z (num_blocks l)))) in
  let room := if shortage_segment <=? 0 then 1 else shortage_segment in
  let full := if 0 <? num_blocks_room stat then of_Z 1 else d02 in
  let threshold_ratio := dadd (threshold_ratio r) (dmul d02 (dsub full (threshold_ratio r))) in
  let num_room := u32 (num_partial stat + room) in
  let threshold := to_int (ceil (dmul (of_Z num_room) threshold_ratio)) in
  let threshold := if threshold <=? 0 then threshold + 1 else threshold in
  (SubheapCount threshold room, Ratios threshold_ratio allocspeed_ratio).

Fixpoint reclaim_counts (num_distrib : double) (num_alloc_total : Z) (ls : list segment_layout)
    (stats : list stat_reclaim) (rs : list ratios) : list (subheap_count * ratios) :=
  match ls, stats, rs with
  | l :: ls, stat :: stats, r :: rs =>
      reclaim_count num_distrib num_alloc_total l stat r :: reclaim_counts num_distrib num_alloc_total ls stats rs
  | _, _, _ => []
  end.

Definition reclaim_heap (w : world) (ms : gmap Z malloc_segment) (f : full_heap)
  : res (world * gmap Z malloc_segment * full_heap) :=
  let w := push_freelist (freelist (fh_heap f)) w in
  '(w, h, free, stats, t) ←
    foldl (fun st i => st ← st; reclaim_heap_step st i)
      (Ok (w, set_freelist [] (fh_heap f), [], [], Totals 0 0)) (seq 0 NUM_SUBHEAPS);
  '(ms, malloc) ← reclaim_malloc_segments ms (fh_malloc f);
  let '(hc, num_distrib) := distribute (fh_count f) t in
  let counts := reclaim_counts num_distrib (alloc_total t) the_layouts stats (fh_ratios f) in
  Ok (w, ms, FullHeap (Heap (hptr h) (subheaps h) (map fst counts) free) malloc (map snd counts) hc).
End Undefined.

(** ** Statistics *)
Definition stat_segment_add (s1 s2 : stat) : stat :=
  Stat (u32 (num_marked s1 + num_marked s2)) (u32 (num_unmarked s1 + num_unmarked s2))
    (u32 (num_marked_before_allocptr s1 + num_marked_before_allocptr s2))
    (u32 (num_unmarked_before_allocptr s1 + num_unmarked_before_allocptr s2)).

Record stat_subheap_t := StatSubheap { st_num_filled : Z; st_num_current : Z; st_num_partial : Z; st_total : stat }.

(** The segments of a list with the allocation pointer where [at_ptr] says. *)
Definition stat_list (w : world) (at_ptr : segment_layout -> Z) (xs : list Z) (s0 : stat) : res stat :=
  foldl (fun r a => s ← r; '(seg, l) ← get_seg w a;
           Ok (stat_segment_add s (stat_segment l (words seg) (at_ptr l)))) (Ok s0) xs.

Definition stat_subheap (w : world) (sh : subheap) (p : alloc_ptr) : res stat_subheap_t :=
  s ← stat_list w BLOCK_LIMIT (filled sh) (Stat 0 0 0 0);
  '(n, s) ← (if ap_p p =? 0 then Ok (0, s)
             else a ← ALLOC_PTR_TO_SEGMENT p; s ← stat_list w (fun _ => ap_p p - a) [a] s; Ok (1, s));
  s ← stat_list w BLOCK_BASE (partial sh) s;
  Ok (StatSubheap (u32 (Z.of_nat (length (filled sh)))) n (u32 (Z.of_nat (length (partial sh)))) s).

(** ** The allocator of a worker *)

(** [sizeof(struct sml_alloc)] and its alignment on x86-64. *)
Section Worker.
Variable sizeof_struct_sml_alloc alignof_struct_sml_alloc : Z.

(** [sml_heap_worker_init]: the allocator is put behind the contexts of the
    worker and the user in one block, whose header says it has no pointers.
    The result is the address of the block and that of the allocator, with
    the heap of the latter. *)
Definition sml_heap_worker_init (init : list (subheap_count * ratios) * heap_count) (m : mem) (w : world) (extra_allocsize : Z)
  : res (option (Z * Z * full_heap) * mem * world) :=
  let offset := CEILING extra_allocsize alignof_struct_sml_alloc in
  let allocsize := OBJ_HEADER_SIZE + offset + sizeof_struct_sml_alloc in
  let blocksize_log2 := CEIL_LOG2 allocsize in
  assert_that ((BLOCKSIZE_MIN_LOG2 <=? blocksize_log2) && (blocksize_log2 <=? BLOCKSIZE_MAX_LOG2));;
  let subheap_index := Z.to_nat (blocksize_log2 - BLOCKSIZE_MIN_LOG2) in
  '(seg, w) ← get_segment_from_pool w subheap_index DUMMY_PHASE;
  match seg with
  | Some a =>
      '(p, w) ← set_alloc_ptr w (init_alloc_ptr blocksize_log2) a DUMMY_PHASE;
      '(memory, p) ← find_bitmap_ptr w p;
      memory ← deref memory;
      let f := init_heap init in
      Ok (Some (memory, memory + offset,
                FullHeap (set_ptr subheap_index p (fh_heap f)) (fh_malloc f) (fh_ratios f) (fh_count f)),
          store32 m (memory - 4) allocsize, w)
  | None => Ok (None, m, w)
  end.
End Worker.

(** [sml_heap_worker_register]. *)
Definition register_step (phase : Z) (w : world) (p : alloc_ptr) : res world :=
  if negb (ap_p p =? 0) && before_sync2 phase then
    a ← ALLOC_PTR_TO_SEGMENT p;
    '(seg, l) ← get_seg w a;
    Ok (put_seg w a (set_snapshot (BLOCK_LIMIT l) seg))
  else Ok w.
Definition sml_heap_worker_register (w : world) (h : heap) (phase : Z) : res world :=
  foldl (fun w p => w ← w; register_step phase w p) (Ok w) (hptr h).

(** [sml_heap_worker_kill]: the segments of the thread go to the pool. *)
Definition kill_step (st : world * heap) (i : nat) : res (world * heap) :=
  let '(w, h) := st in
  sh ← deref (subheaps h !! i);
  p ← deref (hptr h !! i);
  sp ← deref (subpools (pool w) !! i);
  l1 ← (if ap_p p =? 0 then Ok (filled sh) else a ← ALLOC_PTR_TO_SEGMENT p; Ok (filled sh ++ [a]));
  let l1 := l1 ++ partial sh in
  Ok (set_subpools (<[i := Subpool (l1 ++ pool_filled sp) (pool_partial sp) (partial_marked sp)]> (subpools (pool w))) w,
      set_ptr i (clear_alloc_ptr p) (set_subheap i (Subheap [] []) h)).

Definition sml_heap_worker_kill (w : world) (f : full_heap) (malloc_subpool : list Z) : res (world * list Z) :=
  '(w, h) ← foldl (fun st i => st ← st; kill_step st i) (Ok (w, fh_heap f)) (seq 0 NUM_SUBHEAPS);
  Ok (push_freelist (freelist h) w, fh_malloc f ++ malloc_subpool).

(** ** The actions at the end of a collection *)

(** [sml_heap_worker_async]: the remembered set is emptied. *)
Definition sml_heap_worker_async (undefined : double -> Z) (w : world) (ms : gmap Z malloc_segment) (f : full_heap)
  : res (world * gmap Z malloc_segment * full_heap * Z) :=
  '(w, ms, f) ← reclaim_heap undefined w ms f;
  Ok (w, ms, f, 0).

(** [reclaim_segment_pool] and [sml_heap_global_async]. *)
Definition sml_heap_global_async (w : world) (ms : gmap Z malloc_segment) (malloc_subpool : list Z)
  : res (world * gmap Z malloc_segment * list Z) :=
  w ← reclaim_segments w;
  '(ms, malloc_subpool) ← reclaim_malloc_segments ms malloc_subpool;
  Ok (w, ms, malloc_subpool).
