(* ===== verification/Trace.v ===== *)
(** * Tracing

    Marking in src/src/runtime/heap_concurrent.c: [visit], the mark stack
    threaded through the stack slots of the objects, [trace], the write
    barrier, and the heap's actions in the phases of a collection. *)
From Stdlib Require Import ZArith Lia.
From stdpp Require Import base option list gmap countable.
From S2P Require Import Prelude Bits Layout Segment Alloc Memory Object Malloc.

Local Open Scope Z_scope.

(** A [struct stack_slot *]: in the stack area of a segment or in a malloc
    segment. *)
Inductive stack_slot := SegmentSlot (seg : Z) (index : nat) | MallocSlot (mseg : Z).
#[export] Instance stack_slot_eq_dec : EqDecision stack_slot.
Proof. solve_decision. Defined.
#[export] Instance stack_slot_countable : Countable stack_slot.
Proof.
  refine (inj_countable' (fun s => match s with SegmentSlot a i => inl (a, i) | MallocSlot a => inr a end)
            (fun s => match s with inl (a, i) => SegmentSlot a i | inr a => MallocSlot a end) _).
  by intros [].
Defined.

(** What marking works on, besides the objects: the bitmaps, the malloc
    segments and the [next] fields of the stack slots. *)
Record marks := Marks {
  mark_segs : gmap Z segment;
  mark_msegs : gmap Z malloc_segment;
  slots : gmap stack_slot Z
}.

Definition slot_next (g : marks) (s : stack_slot) : Z := default 0 (slots g !! s).
Definition set_slot (s : stack_slot) (next : Z) (g : marks) : marks :=
  Marks (mark_segs g) (mark_msegs g) (<[s := next]> (slots g)).

Section Visit.
(** The objects. *)
Variable m : mem.

Definition is_skip (obj : Z) : bool := negb (Z.land (OBJ_HEADER m obj) OBJ_FLAG_SKIP =? 0).
Definition is_large (obj : Z) : bool := BLOCKSIZE_MAX <? OBJ_TOTAL_SIZE m obj.

Definition mark_seg (g : marks) (a : Z) : res (segment * segment_layout) :=
  seg ← deref (mark_segs g !! a); l ← seg_layout seg; Ok (seg, l).

Definition object_stack_slot (g : marks) (obj : Z) : res (option stack_slot) :=
  if obj =? 0 then Ok None
  else if is_skip obj then Ok None
  else if is_large obj then Ok (Some (MallocSlot (OBJ_TO_MALLOC_SEGMENT obj)))
  else
    let a := segment_addr obj in
    '(_, l) ← mark_seg g a;
    index ← object_index l (obj - a);
    Ok (Some (SegmentSlot a index)).

Definition visit (g : marks) (obj : Z) : res (option stack_slot * marks) :=
  if (obj =? 0) || is_skip obj then Ok (None, g)
  else if is_large obj then
    let a := OBJ_TO_MALLOC_SEGMENT obj in
    mseg ← deref (mark_msegs g !! a);
    if bit mseg =? 0 then Ok (None, g)
    else if negb (Z.land (collect_bit mseg) 1 =? 0) then Ok (None, g)
    else
      Ok (Some (MallocSlot a),
          Marks (mark_segs g) (<[a := MallocSegment (bit mseg) (Z.lor (collect_bit mseg) 1)]> (mark_msegs g)) (slots g))
  else
    let a := segment_addr obj in
    '(seg, l) ← mark_seg g a;
    index ← object_index l (obj - a);
    if negb (BITPTR_TEST (words seg) (BITPTR BITMAP0_BASE index)) && (a + allocptr_snapshot seg <=? obj)
    then Ok (None, g)
    else
      let '(marked, ws) := BITPTRA_TEST_AND_SET (words seg) (BITPTR (COLLECT_BITMAP_BASE l) index) in
      if marked : bool then Ok (None, g)
      else Ok (Some (SegmentSlot a index), Marks (<[a := set_words ws seg]> (mark_segs g)) (mark_msegs g) (slots g)).

Definition is_alive (g : marks) (obj : Z) : res bool :=
  if (obj =? 0) || is_skip obj then Ok true
  else if is_large obj then
    mseg ← deref (mark_msegs g !! OBJ_TO_MALLOC_SEGMENT obj);
    if bit mseg =? 0 then Ok true else Ok (negb (collect_bit mseg =? 0))
  else
    let a := segment_addr obj in
    '(seg, l) ← mark_seg g a;
    index ← object_index l (obj - a);
    if (a + allocptr_snapshot seg <=? obj) && negb (BITPTR_TEST (words seg) (BITPTR BITMAP0_BASE index))
    then Ok true
    else Ok (BITPTR_TEST (words seg) (BITPTR (COLLECT_BITMAP_BASE l) index)).

Definition sml_heap_check_alive (g : marks) (objptr : Z) : res bool := is_alive g (load64 m objptr).
End Visit.

(** ** The mark stack

    [visit], [object_stack_slot] and the pointers of an object are
    parameters here: the theorems of TraceSpec.v are about any of them with
    the properties of the class [Marking]. *)
Section Stack.
Context {G : Type} (visit : G -> Z -> res (option stack_slot * G))
  (object_stack_slot : G -> Z -> res (option stack_slot))
  (next : G -> stack_slot -> Z) (set_next : stack_slot -> Z -> G -> G)
  (pointers : Z -> res (list Z)).

(** [push] and [remember]: [stack_top] is the variable that is pushed on. *)
Definition push (g : G) (stack_top obj : Z) : res (G * Z) :=
  '(slot, g) ← visit g obj;
  match slot with
  | None => Ok (g, stack_top)
  | Some slot =>
      assert_that (next g slot =? 0);;
      Ok (set_next slot stack_top g, obj)
  end.

Definition push_all (g : G) (stack_top : Z) (objs : list Z) : res (G * Z) :=
  foldl (fun r obj => '(g, top) ← r; push g top obj) (Ok (g, stack_top)) objs.

(** [trace] in a build with assertions: the slot of a popped object is
    reset. *)
Fixpoint trace (fuel : nat) (g : G) (stack_top : Z) : res G :=
  match fuel with
  | O => NoFuel
  | S fuel =>
      if stack_top =? 0 then Ok g
      else
        let obj := stack_top in
        slot ← object_stack_slot g obj;
        slot ← deref slot;
        let top := next g slot in
        let g := set_next slot 0 g in
        objs ← pointers obj;
        '(g, top) ← push_all g top objs;
        trace fuel g top
  end.
End Stack.

(** ** The collector of one thread *)
Record allocator := Allocator { root_set : Z; remembered_set : Z }.

Section Collector.
Variable m : mem.

(** The pointers in the fields of an object. *)
Definition obj_pointers (obj : Z) : res (list Z) :=
  objps ← sml_obj_enum_ptr m obj; Ok (map (load64 m) objps).

Definition heap_push : marks -> Z -> Z -> res (marks * Z) := push (visit m) slot_next set_slot.
Definition heap_push_all : marks -> Z -> list Z -> res (marks * Z) := push_all (visit m) slot_next set_slot.
Definition heap_trace : nat -> marks -> Z -> res marks :=
  trace (visit m) (object_stack_slot m) slot_next set_slot obj_pointers.

Definition remember (g : marks) (alloc : allocator) (obj : Z) : res (marks * allocator) :=
  '(g, s) ← heap_push g (remembered_set alloc) obj;
  Ok (g, Allocator (root_set alloc) s).

(** [roots]: the pointers on the stack of the user thread. *)
Definition sml_heap_user_sync2 (g : marks) (alloc : allocator) (user : Z) (roots : list Z) : res (marks * allocator) :=
  '(_, g) ← visit m g user;
  '(g, s) ← heap_push_all g (root_set alloc) roots;
  Ok (g, Allocator s (remembered_set alloc)).

Definition sml_heap_worker_sync2 (g : marks) (w : world) (h : heap) (worker alloc : Z) : res (marks * world) :=
  '(_, g) ← visit m g worker;
  '(_, g) ← visit m g alloc;
  w ← take_allocptr_snapshot (World (mark_segs g) (pool w) (current_phase w) (gc_requests w)) h;
  Ok (Marks (segs w) (mark_msegs g) (slots g), w).

(** [globals]: the pointers in global variables and callback closures. *)
Definition sml_heap_global_sync2 (g : marks) (alloc : allocator) (globals callbacks : list Z) : res (marks * allocator) :=
  '(g, s) ← heap_push_all g (root_set alloc) globals;
  '(g, s) ← heap_push_all g s callbacks;
  Ok (g, Allocator s (remembered_set alloc)).

Definition sml_heap_worker_mark (fuel : nat) (g : marks) (alloc : allocator) : res (marks * allocator) :=
  g ← heap_trace fuel g (root_set alloc);
  g ← heap_trace fuel g (remembered_set alloc);
  Ok (g, Allocator 0 0).

(** [c1] and [c2] are the allocators before and after two looks at their
    remembered sets, by address. *)
Definition all_empty (remembered : Z -> Z) (allocs : list Z) : bool :=
  forallb (fun a => remembered a =? 0) allocs.
Definition sml_heap_mark_finish (look1 look2 : Z -> Z) (c1 c2 : list Z) : bool :=
  if negb (all_empty look1 c1) then false
  else if negb (all_empty look2 c1) then false
  else if negb (hd 0 c1 =? hd 0 c2) then false
  else true.

Definition barrier (g : marks) (alloc : allocator) (phase old_value new_value : Z) : res (marks * allocator) :=
  if SYNC1 <=? phase then
    '(g, alloc) ← (if phase <=? SYNC2 then remember g alloc new_value else Ok (g, alloc));
    remember g alloc old_value
  else Ok (g, alloc).
End Collector.

(** [sml_write] and [sml_cmpswap]: the barrier sees the memory before the
    assignment, and after it, respectively. *)
Definition sml_write (m : mem) (g : marks) (alloc : allocator) (phase writeaddr new_value : Z)
  : res (mem * marks * allocator) :=
  '(g, alloc) ← barrier m g alloc phase (load64 m writeaddr) new_value;
  Ok (store64 m writeaddr new_value, g, alloc).

Definition sml_cmpswap (m : mem) (g : marks) (alloc : allocator) (phase obj old_value new_value : Z)
  : res (bool * mem * marks * allocator) :=
  if load64 m obj =? old_value then
    let m := store64 m obj new_value in
    '(g, alloc) ← barrier m g alloc phase old_value new_value;
    Ok (true, m, g, alloc)
  else Ok (false, m, g, alloc).
