(* ===== verification/TraceSpec.v ===== *)
(** * Tracing marks exactly what is reachable

    The class [MarkStacks] says what the mark stacks need of [visit] and of
    the stack slots, and [Marking] what [trace] needs of the objects; the
    theorems about [push] and [trace] are proved against them. *)
From Stdlib Require Import ZArith Lia.
From stdpp Require Import base option list.
From S2P Require Import Prelude Trace.

Local Open Scope Z_scope.

Class MarkStacks (G : Type) := {
  (* the operations *)
  mk_visit : G -> Z -> res (option stack_slot * G);
  mk_slot : G -> Z -> res (option stack_slot);
  mk_next : G -> stack_slot -> Z;
  mk_set_next : stack_slot -> Z -> G -> G;
  (* their meaning *)
  good : G -> Prop;
  object : Z -> Prop;
  target : G -> Z -> bool;
  marked : G -> Z -> bool;
  slot_of : Z -> stack_slot;
  (* the laws *)
  object_0 : ~ object 0;
  visit_law g x : good g -> x = 0 \/ object x ->
    exists g', let white := negb (x =? 0) && target g x && negb (marked g x) in
      mk_visit g x = Ok (if white then Some (slot_of x) else None, g') /\ good g' /\
      (forall y, object y -> marked g' y = marked g y || (white && (y =? x))) /\
      (forall y, object y -> target g' y = target g y) /\
      (forall s, mk_next g' s = mk_next g s);
  slot_law g x : good g -> object x -> target g x = true -> mk_slot g x = Ok (Some (slot_of x));
  slot_inj g x y : good g -> object x -> object y -> target g x = true -> target g y = true ->
    slot_of x = slot_of y -> x = y;
  set_next_law g s v : good g -> good (mk_set_next s v g) /\
    (forall y, target (mk_set_next s v g) y = target g y) /\
    (forall y, marked (mk_set_next s v g) y = marked g y) /\
    (forall s', mk_next (mk_set_next s v g) s' = if decide (s = s') then v else mk_next g s')
}.

(** Objects whose pointers stay the same. *)
Class Marking (G : Type) := {
  marking_stacks :: MarkStacks G;
  mk_pointers : Z -> res (list Z);
  children : Z -> list Z;
  pointers_law g x : good g -> object x -> target g x = true ->
    mk_pointers x = Ok (children x) /\ forall y, y ∈ children x -> y = 0 \/ object y
}.

Section Stacks.
Context {G : Type} `{MarkStacks G}.

Definition mk_push := push mk_visit mk_next mk_set_next.
Definition mk_push_all := push_all mk_visit mk_next mk_set_next.

(** An object that is to be marked and is not yet. *)
Definition white (g : G) (x : Z) : bool := negb (x =? 0) && target g x && negb (marked g x).

(** The mark stack [top] consists of [xs]. *)
Fixpoint linked_stack (g : G) (top : Z) (xs : list Z) : Prop :=
  match xs with
  | [] => top = 0
  | x :: xs => top = x /\ object x /\ target g x = true /\ linked_stack g (mk_next g (slot_of x)) xs
  end.

Record stack_ok (g : G) (top : Z) (xs : list Z) : Prop := {
  so_good : good g;
  so_linked : linked_stack g top xs;
  so_nodup : NoDup xs;
  so_marked x : x ∈ xs -> marked g x = true;
  so_clear x : object x -> white g x = true -> mk_next g (slot_of x) = 0
}.

Lemma white_target g x : white g x = true -> target g x = true /\ marked g x = false.
Proof. unfold white. rewrite !andb_true_iff, !negb_true_iff. tauto. Qed.

Lemma marked_not_white g x : marked g x = true -> white g x = false.
Proof. unfold white. intros ->. apply andb_false_r. Qed.

(** The slots of the objects already marked stay as they are. *)
Definition slots_kept (g g' : G) (except : list Z) : Prop :=
  forall y, object y -> target g y = true -> marked g y = true -> y ∉ except ->
    mk_next g' (slot_of y) = mk_next g (slot_of y).

Lemma linked_objects g top xs x : linked_stack g top xs -> x ∈ xs -> object x /\ target g x = true.
Proof.
  revert top. induction xs as [|y xs IH]; intros top Hl Hx; [by apply elem_of_nil in Hx|].
  destruct Hl as (-> & Ho & Ht & Hl). apply elem_of_cons in Hx as [->|Hx]; [done|by eapply IH].
Qed.

(** Only the slots of the stack and the targets matter. *)
Lemma linked_ext g g' top xs : (forall x, object x -> target g' x = target g x) ->
  (forall x, x ∈ xs -> mk_next g' (slot_of x) = mk_next g (slot_of x)) ->
  linked_stack g top xs -> linked_stack g' top xs.
Proof.
  intros Ht. revert top. induction xs as [|x xs IH]; intros top Hn Hl; [done|]. simpl in *.
  destruct Hl as (-> & Ho & Htx & Hl). rewrite Ht, Hn by (done || left). do 3 (split; [done|]).
  apply IH; [|done]. intros y Hy. apply Hn. by right.
Qed.

Lemma push_spec g top xs x : stack_ok g top xs -> x = 0 \/ object x ->
  exists g' top', mk_push g top x = Ok (g', top') /\
    stack_ok g' top' (if white g x then x :: xs else xs) /\
    (forall y, object y -> target g' y = target g y) /\
    (forall y, object y -> marked g' y = marked g y || (white g x && (y =? x))) /\ slots_kept g g' [].
Proof.
  intros [Hg Hl Hnd Hm Hc] Hx. unfold mk_push, push.
  destruct (visit_law g x Hg Hx) as (g1 & Hv & Hg1 & Hm1 & Ht1 & Hn1). rewrite Hv. cbn [mbind res_bind].
  fold (white g x) in *. destruct (white g x) eqn:Hw.
  2:{ exists g1, top. split; [done|]. split; [|split; [done|split; [done|intros y _ _ _ _; apply Hn1]]].
      split; [done| |done| |].
      - by apply (linked_ext g).
      - intros y Hy. rewrite Hm1, Hm by (done || by eapply linked_objects). done.
      - intros y Ho Hwy. rewrite Hn1. apply Hc; [done|]. unfold white in Hwy |- *. by rewrite Ht1, Hm1, orb_false_r in Hwy. }
  assert (Hcx := Hw). unfold white in Hw. apply andb_true_iff in Hw as [[Hx0 Ht]%andb_true_iff Hnm].
  apply negb_true_iff in Hx0, Hnm. apply Z.eqb_neq in Hx0. destruct Hx as [->|Hx]; [done|].
  assert (Hxs : x ∉ xs) by (intros Hin; apply Hm in Hin; congruence).
  rewrite Hn1, (Hc x Hx Hcx). cbn [Z.eqb assert_that mbind res_bind].
  destruct (set_next_law g1 (slot_of x) top Hg1) as (Hg2 & Ht2 & Hm2 & Hn2).
  assert (Hother : forall y, object y -> target g y = true -> y <> x -> mk_next (mk_set_next (slot_of x) top g1) (slot_of y) = mk_next g (slot_of y)).
  { intros y Ho Hty Hne. rewrite Hn2, decide_False; [by rewrite Hn1|]. intros Heq. apply Hne. symmetry.
    by apply (slot_inj g). }
  eexists _, x. split; [reflexivity|]. split; [|split; [intros y Hy; by rewrite Ht2, Ht1|split; [intros y Hy; by rewrite Hm2, Hm1|]]].
  { split; [done| |by constructor| |].
  - simpl. split; [done|]. split; [done|]. rewrite Ht2, Ht1 by done. split; [done|].
    rewrite Hn2, decide_True by done. apply (linked_ext g); [intros y Hy; by rewrite Ht2, Ht1| |done].
    intros y Hy. destruct (linked_objects _ _ _ _ Hl Hy). apply Hother; [done..|by intros ->].
  - intros y Hy. rewrite Hm2. apply elem_of_cons in Hy as [->|Hy].
    + rewrite Hm1, Z.eqb_refl by done. apply orb_true_r.
    + rewrite Hm1 by (by eapply linked_objects). by rewrite Hm.
  - intros y Ho Hwy. unfold white in Hwy. rewrite Ht2, Hm2, Ht1, Hm1, negb_orb in Hwy by done.
    assert (y <> x) by (intros ->; by rewrite Z.eqb_refl, andb_false_r, andb_false_r in Hwy).
    assert (Hwg : white g y = true) by (unfold white; rewrite !andb_true_iff in Hwy; rewrite !andb_true_iff; tauto).
    rewrite Hother by (done || by apply white_target). by apply Hc. }
  intros y Ho Hty Hmy _. apply Hother; [done..|]. intros ->. congruence.
Qed.

Lemma push_all_spec objs : forall g top xs, stack_ok g top xs -> (forall y, y ∈ objs -> y = 0 \/ object y) ->
  exists g' top' new, mk_push_all g top objs = Ok (g', top') /\ stack_ok g' top' (new ++ xs) /\
    (forall y, object y -> target g' y = target g y) /\
    (forall y, object y -> marked g' y = true <-> marked g y = true \/ y ∈ new) /\
    (forall y, y ∈ new -> y ∈ objs /\ white g y = true) /\
    (forall y, y ∈ objs -> object y -> target g y = true -> marked g' y = true) /\ slots_kept g g' [].
Proof.
  unfold mk_push_all, push_all. induction objs as [|x objs IH]; intros g top xs Hok Hin.
  - exists g, top, []. split; [done|]. split; [done|]. split; [done|]. split; [|split; [|split; [|done]]].
    + intros y Hy. split; [by left|]. intros [?|Hn%elem_of_nil]; done.
    + intros y Hy. by apply elem_of_nil in Hy.
    + intros y Hy. by apply elem_of_nil in Hy.
  - cbn [foldl mbind res_bind]. destruct (push_spec g top xs x Hok) as (g1 & top1 & Hpush & Hok1 & Ht1 & Hm1 & Hk1); [by apply Hin; left|].
    fold mk_push. rewrite Hpush.
    destruct (IH g1 top1 _ Hok1) as (g2 & top2 & new & Hrun & Hok2 & Ht2 & Hm2 & Hnew & Hall & Hk2); [intros y Hy; apply Hin; by right|].
    assert (Hwhite : forall y, object y -> white g1 y = true -> white g y = true).
    { intros y Ho. unfold white. rewrite Ht1, Hm1 by done. rewrite !andb_true_iff, negb_orb, andb_true_iff. tauto. }
    assert (Hx : white g x = true -> object x).
    { intros Hw. destruct (Hin x) as [->|]; [by left| |done]. by unfold white in Hw. }
    exists g2, top2, (new ++ (if white g x then [x] else [])). split; [done|]. split; [|split; [|split; [|split; [|split]]]].
    + rewrite <- app_assoc. by destruct (white g x).
    + intros y Hy. by rewrite Ht2, Ht1.
    + intros y Hy. rewrite Hm2, Hm1, orb_true_iff, andb_true_iff, elem_of_app, Z.eqb_eq by done.
      destruct (white g x) eqn:Hw.
      * rewrite list_elem_of_singleton. naive_solver.
      * rewrite elem_of_nil. naive_solver.
    + intros y [Hy|Hy]%elem_of_app.
      * destruct (Hnew y Hy) as [Hyo Hyw]. split; [by right|].
        apply Hwhite; [|done]. assert (y ∈ new ++ (if white g x then x :: xs else xs)) as Hys by (apply elem_of_app; by left).
        by destruct (linked_objects _ _ _ _ (so_linked _ _ _ Hok2) Hys).
      * destruct (white g x) eqn:Hw; [|by apply elem_of_nil in Hy].
        apply list_elem_of_singleton in Hy as ->. split; [by left|done].
    + intros y [->|Hy]%elem_of_cons Ho Ht; [|apply Hall; [done|done|by rewrite Ht1]].
      apply Hm2; [done|]. left. rewrite Hm1, Z.eqb_refl by done. unfold white. rewrite Ht.
      assert (x =? 0 = false) as -> by (apply Z.eqb_neq; intros ->; by apply object_0).
      by destruct (marked g x).
    + intros y Ho Ht Hmy Hn. rewrite Hk2, Hk1; try done; [by rewrite Ht1|by rewrite Hm1, Hmy].
Qed.

(** The stacks of several allocators, all in the same slots. *)
Lemma stack_kept g g' xs top ys : stack_ok g top ys -> good g' -> xs ## ys ->
  (forall y, object y -> target g' y = target g y) ->
  (forall y, object y -> marked g y = true -> marked g' y = true) ->
  slots_kept g g' xs ->
  (forall y, object y -> target g y = true -> y ∈ xs \/ marked g y = false -> mk_next g' (slot_of y) = 0) ->
  stack_ok g' top ys.
Proof.
  intros [Hg Hl Hnd Hm Hc] Hg' Hd Ht Hmm Hk Hz. split; [done| |done| |].
  - apply (linked_ext g); [done| |done]. intros y Hy. destruct (linked_objects _ _ _ _ Hl Hy).
    apply Hk; [done..|by apply Hm|]. intros Hx. by apply (Hd y).
  - intros y Hy. apply Hmm; [by eapply linked_objects|by apply Hm].
  - intros y Ho [Hty Hmy]%white_target. rewrite Ht in Hty by done. apply Hz; [done..|]. right.
    apply not_true_iff_false. intros Hy. apply Hmm in Hy; [congruence|done].
Qed.

End Stacks.

Section Spec.
Context {G : Type} `{Marking G}.

Definition mk_trace := trace mk_visit mk_slot mk_next mk_set_next mk_pointers.

(** Reachable from [s] through white objects. *)
Inductive wreach (g : G) (s : Z) : Z -> Prop :=
| wreach_step x : x ∈ children s -> object x -> white g x = true -> wreach g s x
| wreach_trans y x : wreach g s y -> x ∈ children y -> object x -> white g x = true -> wreach g s x.

Lemma wreach_cons g s x y : x ∈ children s -> object x -> white g x = true -> wreach g x y -> wreach g s y.
Proof.
  intros H1 H2 H3. induction 1 as [y Hy|z y _ IH]; [|by eapply wreach_trans].
  eapply wreach_trans; [by apply wreach_step|done..].
Qed.

Lemma wreach_mono g g' s x : (forall y, object y -> white g' y = true -> white g y = true) ->
  wreach g' s x -> wreach g s x.
Proof. intros Hw. induction 1; [apply wreach_step|eapply wreach_trans]; eauto. Qed.

(** The number of white objects among [us]. *)
Definition whites (g : G) (us : list Z) : nat := length (filter (fun x => white g x = true) us).

(** One object is taken from the stack and its children are pushed: [new]
    are those that were white. *)
Record traced (g g2 : G) (x : Z) (xs new : list Z) (top2 : Z) : Prop := {
  td_stack : stack_ok g2 top2 (new ++ xs);
  td_target y : object y -> target g2 y = target g y;
  td_marked y : object y -> marked g2 y = true <-> marked g y = true \/ y ∈ new;
  td_new y : y ∈ new -> object y /\ y ∈ children x /\ white g y = true;
  td_all y : y ∈ children x -> object y -> target g y = true -> marked g2 y = true;
  td_next : mk_next g2 (slot_of x) = 0;
  td_kept : slots_kept g g2 [x]
}.

Lemma pop_ok g x xs : stack_ok g x (x :: xs) ->
  let g1 := mk_set_next (slot_of x) 0 g in
  stack_ok g1 (mk_next g (slot_of x)) xs /\ (forall y, target g1 y = target g y) /\
  (forall y, marked g1 y = marked g y) /\ mk_next g1 (slot_of x) = 0 /\ slots_kept g g1 [x].
Proof.
  intros [Hg (_ & Ho & Ht & Hl) Hnd Hm Hc] g1. apply NoDup_cons in Hnd as [Hx Hnd].
  destruct (set_next_law g (slot_of x) 0 Hg) as (Hg1 & Ht1 & Hm1 & Hn1). fold g1 in Hg1, Ht1, Hm1, Hn1.
  assert (Hother : forall y, object y -> target g y = true -> y <> x -> mk_next g1 (slot_of y) = mk_next g (slot_of y)).
  { intros y Hy Hty Hne. rewrite Hn1, decide_False; [done|]. intros Heq. apply Hne. symmetry. by apply (slot_inj g). }
  split; [|split; [done|split; [done|split; [by rewrite Hn1, decide_True|]]]].
  - split; [done| |done| |].
    + apply (linked_ext g); [intros y _; apply Ht1| |done]. intros y Hy.
      destruct (linked_objects _ _ _ _ Hl Hy). apply Hother; [done..|by intros ->].
    + intros y Hy. rewrite Hm1. apply Hm. by right.
    + intros y Hy Hwy. rewrite Hn1. case_decide; [done|]. apply Hc; [done|].
      unfold white in Hwy |- *. by rewrite Ht1, Hm1 in Hwy.
  - intros y Hy Hty _ Hn. apply Hother; [done..|]. intros ->. apply Hn. by left.
Qed.

Lemma trace_step fuel g top x xs : stack_ok g top (x :: xs) ->
  exists g2 top2 new, mk_trace (S fuel) g top = mk_trace fuel g2 top2 /\ traced g g2 x xs new top2.
Proof.
  intros Hok. pose proof Hok as [Hg (-> & Ho & Ht & _) _ Hm _]. unfold mk_trace at 1. cbn [trace].
  assert (x =? 0 = false) as -> by (apply Z.eqb_neq; intros ->; by apply object_0).
  rewrite (slot_law g x) by done. cbn [mbind res_bind deref].
  destruct (pointers_law g x Hg Ho Ht) as [Hp Hch]. rewrite Hp. cbn [mbind res_bind].
  destruct (pop_ok g x xs Hok) as (Hok1 & Ht1 & Hm1 & Hn1 & Hk1).
  set (g1 := mk_set_next (slot_of x) 0 g) in *.
  assert (Hw1 : forall y, white g1 y = white g y) by (intros y; unfold white; by rewrite Ht1, Hm1).
  destruct (push_all_spec (children x) g1 _ xs Hok1 Hch) as (g2 & top2 & new & Hrun & Hok2 & Ht2 & Hm2 & Hnew & Hall & Hk2).
  unfold mk_push_all in Hrun. rewrite Hrun. cbn [mbind res_bind].
  exists g2, top2, new. split; [done|]. split; [done| | | | | |].
  - intros y Hy. by rewrite Ht2, Ht1.
  - intros y Hy. by rewrite Hm2, Hm1.
  - intros y Hy. destruct (Hnew y Hy) as [? Hw]. rewrite Hw1 in Hw. split; [|done].
    eapply linked_objects; [apply Hok2|]. apply elem_of_app. by left.
  - intros y Hy Hoy Hty. by apply Hall; rewrite ?Ht1.
  - rewrite Hk2; try done; [by rewrite Ht1|rewrite Hm1; apply Hm; by left|apply not_elem_of_nil].
  - intros y Hy Hty Hmy Hn. rewrite Hk2; [by apply Hk1|done|by rewrite Ht1|by rewrite Hm1|apply not_elem_of_nil].
Qed.

Section Step.
Context (g g2 : G) (x : Z) (xs new : list Z) (top2 : Z) (Htd : traced g g2 x xs new top2).

Lemma traced_white y : object y -> white g2 y = true <-> white g y = true /\ y ∉ new.
Proof.
  intros Hy. unfold white. rewrite (td_target _ _ _ _ _ _ Htd) by done.
  pose proof (td_marked _ _ _ _ _ _ Htd y Hy) as Hm.
  rewrite !andb_true_iff, !negb_true_iff, <- !not_true_iff_false, Hm. tauto.
Qed.

(** The white objects become the new ones or stay white. *)
Lemma traced_whites us : NoDup us -> (forall y, y ∈ us -> object y) -> (forall y, object y -> white g y = true -> y ∈ us) ->
  (whites g2 us + length new <= whites g us)%nat.
Proof.
  intros Hus Huso Huniv. unfold whites. rewrite <- length_app. apply submseteq_length, NoDup_submseteq.
  - apply NoDup_app. split; [by apply NoDup_filter|]. split.
    + intros y [Hw Hy]%list_elem_of_filter Hin. apply traced_white in Hw as [_ Hn]; [done|by apply Huso].
    + pose proof (so_nodup _ _ _ (td_stack _ _ _ _ _ _ Htd)) as Hnd. by apply NoDup_app in Hnd as (? & _).
  - intros y [[Hw Hy]%list_elem_of_filter|Hy]%elem_of_app; apply list_elem_of_filter.
    + split; [|done]. apply traced_white in Hw as [Hw _]; [done|by apply Huso].
    + destruct (td_new _ _ _ _ _ _ Htd y Hy) as (Hoy & _ & Hw). split; [done|]. by apply Huniv.
Qed.

(** What is marked or reachable from the new stack was so from the old one,
    and the other way round. *)
Lemma traced_reach_old y : object y ->
  marked g2 y = true \/ (exists s, s ∈ new ++ xs /\ wreach g2 s y) ->
  marked g y = true \/ exists s, s ∈ x :: xs /\ wreach g s y.
Proof.
  intros Hy. rewrite (td_marked _ _ _ _ _ _ Htd) by done.
  intros [[?|Hn]|(s & Hs & Hr)]; [by left| |]; right.
  - destruct (td_new _ _ _ _ _ _ Htd y Hn) as (_ & Hc & Hw). exists x. split; [by left|]. by apply wreach_step.
  - apply (wreach_mono g) in Hr; [|intros z Hz Hw; by apply traced_white]. apply elem_of_app in Hs as [Hs|Hs].
    + destruct (td_new _ _ _ _ _ _ Htd s Hs) as (Ho & Hc & Hw). exists x. split; [by left|]. by eapply wreach_cons.
    + exists s. split; [by right|done].
Qed.

Lemma wreach_object g' s y : wreach g' s y -> object y /\ white g' y = true.
Proof. by destruct 1. Qed.

Lemma traced_reach_new s y : s ∈ x :: xs -> wreach g s y ->
  marked g2 y = true \/ exists s', s' ∈ new ++ xs /\ wreach g2 s' y.
Proof.
  intros Hs Hr. destruct (wreach_object _ _ _ Hr) as [Ho _].
  rewrite (td_marked _ _ _ _ _ _ Htd) by done. clear Ho.
  induction Hr as [y Hcy Hoy Hwy|z y Hrz IHr Hcy Hoy Hwy];
    (destruct (decide (y ∈ new)) as [|Hnn]; [by left; right|]).
  - apply elem_of_cons in Hs as [->|Hs].
    + left. rewrite <- (td_marked _ _ _ _ _ _ Htd) by done. apply (td_all _ _ _ _ _ _ Htd); [done..|].
      by apply white_target.
    + right. exists s. split; [apply elem_of_app; by right|]. apply wreach_step; [done..|]. by apply traced_white.
  - right. destruct (wreach_object _ _ _ Hrz) as [Hoz Hwz].
    assert (Hwy2 : white g2 y = true) by (by apply traced_white).
    destruct IHr as [[Hmz|Hz]|(s' & Hs' & Hr')].
    + apply white_target in Hwz as [_ Hwz]. congruence.
    + exists z. split; [apply elem_of_app; by left|]. by apply wreach_step.
    + exists s'. split; [done|]. by eapply wreach_trans.
Qed.

Lemma traced_kept g' : slots_kept g2 g' (new ++ xs) -> slots_kept g g' (x :: xs).
Proof.
  intros Hk y Hy Hty Hmy [Hne Hyx]%not_elem_of_cons.
  assert (Hyn : y ∉ new).
  { intros Hn. destruct (td_new _ _ _ _ _ _ Htd y Hn) as (_ & _ & [_ Hw]%white_target). congruence. }
  rewrite Hk; [apply Htd; [done..|by rewrite list_elem_of_singleton]|done|by rewrite (td_target _ _ _ _ _ _ Htd)| |by rewrite not_elem_of_app].
  apply (td_marked _ _ _ _ _ _ Htd); auto.
Qed.

Lemma traced_clear g' : marked g x = true -> object x -> target g x = true -> x ∉ xs ->
  slots_kept g2 g' (new ++ xs) ->
  (forall y, object y -> target g2 y = true -> y ∈ new ++ xs \/ marked g2 y = false -> mk_next g' (slot_of y) = 0) ->
  forall y, object y -> target g y = true -> y ∈ x :: xs \/ marked g y = false -> mk_next g' (slot_of y) = 0.
Proof.
  intros Hmx Hox Htx Hx Hk Hz y Hy Hty Hcase.
  rewrite <- (td_target _ _ _ _ _ _ Htd) in Hty, Htx by done.
  destruct (decide (y ∈ new ++ xs)) as [Hin|Hnin]; [by apply Hz; auto|].
  destruct (decide (y = x)) as [->|Hne].
  - rewrite Hk; [exact (td_next _ _ _ _ _ _ Htd)|done..| |done]. rewrite (td_marked _ _ _ _ _ _ Htd) by done. by left.
  - apply not_elem_of_app in Hnin as [Hn Hnx]. apply Hz; [done..|]. right.
    destruct Hcase as [[?|?]%elem_of_cons|Hm0]; [done..|].
    apply not_true_iff_false. rewrite (td_marked _ _ _ _ _ _ Htd), Hm0 by done. naive_solver.
Qed.
End Step.

Lemma trace_spec us : NoDup us -> (forall x, x ∈ us -> object x) -> forall fuel g top xs, stack_ok g top xs ->
  (forall x, object x -> white g x = true -> x ∈ us) -> (whites g us + length xs < fuel)%nat ->
  exists g', mk_trace fuel g top = Ok g' /\ stack_ok g' 0 [] /\
    (forall y, object y -> target g' y = target g y) /\
    (forall y, object y -> marked g' y = true <-> marked g y = true \/ exists s, s ∈ xs /\ wreach g s y) /\
    slots_kept g g' xs /\
    (forall y, object y -> target g y = true -> y ∈ xs \/ marked g y = false -> mk_next g' (slot_of y) = 0).
Proof.
  intros Hus Huso. induction fuel as [|fuel IH]; intros g top xs Hok Huniv Hf; [lia|].
  destruct xs as [|x xs].
  { unfold mk_trace. cbn [trace]. assert (top = 0) as -> by apply Hok. cbn [Z.eqb]. exists g. split; [done|].
    split; [done|]. split; [done|]. split; [|split; [done|]].
    - intros y Hy. split; [by left|]. intros [?|(s & Hs%elem_of_nil & _)]; done.
    - intros y Ho Ht [Hy%elem_of_nil|Hm]; [done|]. apply (so_clear _ _ _ Hok); [done|]. unfold white. rewrite Ht, Hm.
      assert (y =? 0 = false) as -> by (apply Z.eqb_neq; intros ->; by apply object_0). done. }
  destruct (trace_step fuel g top x xs Hok) as (g2 & top2 & new & Hrun & Htd). rewrite Hrun.
  destruct (IH g2 top2 (new ++ xs) (td_stack _ _ _ _ _ _ Htd)) as (g' & Htr & Hok' & Ht' & Hm' & Hk' & Hz').
  { intros y Hy Hw. apply Huniv; [done|]. by apply (traced_white _ _ _ _ _ _ Htd). }
  { pose proof (traced_whites _ _ _ _ _ _ Htd us Hus Huso Huniv). rewrite length_app. simpl in Hf. lia. }
  exists g'. split; [done|]. split; [done|].
  split; [intros y Hy; by rewrite Ht', (td_target _ _ _ _ _ _ Htd)|].
  split; [|split; [by eapply traced_kept|]].
  - intros y Hy. rewrite Hm' by done. split; [by apply (traced_reach_old _ _ _ _ _ _ Htd)|].
    intros [Hmy|(s & Hs & Hr)]; [left; apply (td_marked _ _ _ _ _ _ Htd); auto|by eapply traced_reach_new].
  - pose proof Hok as [_ (_ & Ho & Ht & _) Hnd Hm _]. apply NoDup_cons in Hnd as [Hx _].
    eapply traced_clear; try done. apply Hm. by left.
Qed.

(** Two stacks traced one after the other. *)
Lemma trace_both us fuel g top1 xs1 top2 xs2 : NoDup us -> (forall x, object x <-> x ∈ us) ->
  stack_ok g top1 xs1 -> stack_ok g top2 xs2 -> xs1 ## xs2 -> (length us < fuel)%nat ->
  exists g1 g', mk_trace fuel g top1 = Ok g1 /\ mk_trace fuel g1 top2 = Ok g' /\ good g' /\
    (forall y, object y -> target g' y = target g y) /\
    (forall y, object y -> marked g' y = true <-> marked g y = true \/ exists s, s ∈ xs1 ++ xs2 /\ wreach g s y) /\
    (forall y, object y -> target g y = true -> y ∈ xs1 ++ xs2 \/ marked g y = false -> mk_next g' (slot_of y) = 0) /\
    slots_kept g g' (xs1 ++ xs2).
Proof.
  intros Hnd Hus Hok1 Hok2 Hd Hf.
  assert (Hfuel : forall g top xs, stack_ok g top xs -> (whites g us + length xs < fuel)%nat).
  { intros g0 top xs [Hg Hl Hnd0 Hm Hc]. eapply Nat.le_lt_trans; [|exact Hf]. unfold whites. rewrite <- length_app.
    apply submseteq_length, NoDup_submseteq.
    - apply NoDup_app. split; [by apply NoDup_filter|]. split; [|done].
      intros y [Hw Hy]%list_elem_of_filter Hx. apply Hm, marked_not_white in Hx. congruence.
    - intros y [[_ Hy]%list_elem_of_filter|Hy]%elem_of_app; [done|]. apply Hus. by eapply linked_objects. }
  destruct (trace_spec us Hnd (fun x Hx => proj2 (Hus x) Hx) fuel g top1 xs1 Hok1) as (g1 & Hr1 & Hs1 & Ht1 & Hm1 & Hk1 & Hz1);
    [intros x Hx _; by apply Hus|by apply (Hfuel _ top1)|].
  assert (Hmm : forall y, object y -> marked g y = true -> marked g1 y = true) by (intros y Hy Hmy; apply Hm1; [done|by left]).
  assert (Hok2' : stack_ok g1 top2 xs2) by (apply (stack_kept g g1 xs1); try done; apply Hs1).
  destruct (trace_spec us Hnd (fun x Hx => proj2 (Hus x) Hx) fuel g1 top2 xs2 Hok2') as (g' & Hr' & Hs' & Ht' & Hm' & Hk' & Hz');
    [intros x Hx _; by apply Hus|by apply (Hfuel _ top2)|].
  exists g1, g'. split; [done|]. split; [done|]. split; [apply Hs'|].
  split; [intros y Hy; by rewrite Ht', Ht1|].
  assert (Hw1 : forall y, object y -> white g1 y = true <-> white g y = true /\ marked g1 y = false).
  { intros y Hy. unfold white. rewrite Ht1, !andb_true_iff, !negb_true_iff by done.
    destruct (marked g y) eqn:Hmy; [rewrite (Hmm y) by done|]; naive_solver. }
  split; [|split].
  - intros y Hy. rewrite Hm', Hm1 by done. split.
    + intros [[?|(s & Hs & Hr)]|(s & Hs & Hr)]; [by left|right; exists s; split; [apply elem_of_app; by left|done]|].
      right. exists s. split; [apply elem_of_app; by right|]. apply (wreach_mono g g1); [|done]. intros z Hz Hwz. by apply Hw1.
    + intros [?|(s & Hs & Hr)]; [by left; left|]. apply elem_of_app in Hs as [Hs|Hs]; [left; right; by exists s|].
      assert (Hcl : object y /\ (marked g1 y = true \/ wreach g1 s y)).
      { clear Hy. induction Hr as [y Hcy Hoy Hwy|z y Hrz [Hoz IHr] Hcy Hoy Hwy]; (split; [done|]).
        - destruct (marked g1 y) eqn:Hmy; [by left|]. right. apply wreach_step; [done..|]. by apply Hw1.
        - destruct (marked g1 y) eqn:Hmy; [by left|]. right.
          assert (Hw : white g1 y = true) by (by apply Hw1). destruct IHr as [Hmz|Hrz1]; [|by eapply wreach_trans].
          exfalso. apply Hm1 in Hmz; [|done]. destruct Hmz as [Hmz|(r & Hr & Hrr)].
          + assert (white g z = true) as Hwz%white_target by (by destruct Hrz). destruct Hwz. congruence.
          + assert (marked g1 y = true); [|congruence]. apply Hm1; [done|]. right. exists r. split; [done|]. by eapply wreach_trans. }
      destruct Hcl as [_ [Hmy|Hr1']]; [left; by apply Hm1|right; by exists s].
  - intros y Ho Hty Hcase. destruct (decide (y ∈ xs2)) as [Hx2|Hx2]; [apply Hz'; [done|by rewrite Ht1|by left]|].
    destruct (marked g1 y) eqn:Hmy; [|apply Hz'; [done|by rewrite Ht1|by right]].
    rewrite Hk'; try done; [|by rewrite Ht1]. apply Hz1; [done..|]. rewrite elem_of_app in Hcase. tauto.
  - intros y Ho Hty Hmy Hnin. rewrite elem_of_app in Hnin. rewrite Hk', Hk1; try done; [tauto|by rewrite Ht1|by apply Hmm|tauto].
Qed.
End Spec.
