(* ===== verification/TraceThms.v ===== *)
(** * Tracing: the implementation and the theorems

    The bitmaps of the segments and the bits of the malloc segments
    implement the classes [MarkStacks] and [Marking]. *)
From Stdlib Require Import ZArith Lia.
From stdpp Require Import base option list gmap.
From S2P Require Import Prelude Bits Layout Segment SegmentFacts Alloc AllocFacts Memory Object Malloc Trace TraceSpec.

Local Open Scope Z_scope.

Section Concrete.
(** The memory, the addresses of its objects, and the layouts of the segments. *)
Context (m : mem) (Obj : Z -> Prop) (lay : Z -> nat).

(** A small object is the [k]-th block of its segment. *)
Definition placed (x : Z) (l : segment_layout) (k : nat) : Prop :=
  the_layouts !! lay (segment_addr x) = Some l /\ (k < blocks l)%nat /\ aligned (segment_addr x) /\
  x = block_addr l (segment_addr x) k.

Record objects_ok : Prop := {
  ob_0 : ~ Obj 0;
  ob_small x : Obj x -> is_skip m x = false -> is_large m x = false -> exists l k, placed x l k;
  ob_pointers x : Obj x -> is_skip m x = false ->
    exists ys, obj_pointers m x = Ok ys /\ forall y, y ∈ ys -> y = 0 \/ Obj y
}.

Record marks_ok (g : marks) : Prop := {
  ma_small x : Obj x -> is_skip m x = false -> is_large m x = false ->
    exists seg, mark_segs g !! segment_addr x = Some seg /\ layout seg = Some (lay (segment_addr x)) /\
      words_ok (words seg);
  ma_large x : Obj x -> is_skip m x = false -> is_large m x = true ->
    exists s, mark_msegs g !! OBJ_TO_MALLOC_SEGMENT x = Some s /\ (collect_bit s = 0 \/ collect_bit s = 1)
}.

Definition layout_of (x : Z) : segment_layout := the_layouts !!! lay (segment_addr x).
Definition index_of (x : Z) : nat :=
  Z.to_nat (Z.shiftr (x - segment_addr x - BLOCK_BASE (layout_of x)) (blocksize_log2 (layout_of x))).

(** Subject to this collection, and marked by it. *)
Definition is_target (g : marks) (x : Z) : bool :=
  negb (is_skip m x) &&
  if is_large m x then
    match mark_msegs g !! OBJ_TO_MALLOC_SEGMENT x with Some s => negb (bit s =? 0) | None => false end
  else
    match mark_segs g !! segment_addr x with
    | Some seg => bits (words seg) 8 (index_of x) || negb (segment_addr x + allocptr_snapshot seg <=? x)
    | None => false
    end.

Definition is_marked (g : marks) (x : Z) : bool :=
  negb (is_skip m x) &&
  if is_large m x then
    match mark_msegs g !! OBJ_TO_MALLOC_SEGMENT x with Some s => negb (Z.land (collect_bit s) 1 =? 0) | None => false end
  else
    match mark_segs g !! segment_addr x with
    | Some seg => cbits (layout_of x) (words seg) (index_of x)
    | None => false
    end.

Definition object_slot (x : Z) : stack_slot :=
  if is_large m x then MallocSlot (OBJ_TO_MALLOC_SEGMENT x) else SegmentSlot (segment_addr x) (index_of x).

Definition object_children (x : Z) : list Z := match obj_pointers m x with Ok ys => ys | _ => [] end.

Hypothesis Hobj : objects_ok.

Lemma placed_spec x l k : placed x l k ->
  layout_of x = l /\ index_of x = k /\ object_index l (x - segment_addr x) = Ok k /\
  (8 + words0 l + words1 l + k / 32 < segment_words)%nat /\ (8 + k / 32 < 8 + words0 l)%nat /\ layout_ok l.
Proof.
  intros (Hl & Hk & Ha & Hx). pose proof (layouts_ok _ _ Hl) as Hok.
  assert (Hlay : layout_of x = l) by (unfold layout_of; by apply list_lookup_total_correct).
  assert (Hoff : x - segment_addr x = BLOCK_BASE l + Z.of_nat k * blocksize_bytes l)
    by (rewrite Hx at 1; unfold block_addr; lia).
  pose proof (lo_blocksize _ Hok) as [Hb Hlog].
  assert (Hsh : Z.to_nat (Z.shiftr (Z.of_nat k * blocksize_bytes l) (blocksize_log2 l)) = k).
  { rewrite Z.shiftr_div_pow2, <- Hb, Z.div_mul, Nat2Z.id; [done| |lia]. rewrite Hb. pose proof (Z.pow_pos_nonneg 2 (blocksize_log2 l)). lia. }
  split; [done|]. split; [|split; [|split; [|split; [|done]]]].
  - unfold index_of. rewrite Hlay, Hoff.
    replace (BLOCK_BASE l + Z.of_nat k * blocksize_bytes l - BLOCK_BASE l) with (Z.of_nat k * blocksize_bytes l) by lia. done.
  - destruct (blocks_fit _ _ Hl k Hk) as [_ Hfit]. unfold object_index. rewrite Hoff.
    assert (0 < blocksize_bytes l) by (rewrite Hb; apply Z.pow_pos_nonneg; lia).
    rewrite (proj2 (Z.leb_le (BLOCK_BASE l) _)) by lia. cbn [assert_that mbind res_bind].
    rewrite (proj2 (Z.leb_le _ SEGMENT_SIZE)) by lia. cbn [assert_that mbind res_bind].
    replace (BLOCK_BASE l + Z.of_nat k * blocksize_bytes l - BLOCK_BASE l) with (Z.of_nat k * blocksize_bytes l) by lia. by rewrite Hsh.
  - pose proof (layout_meta _ _ Hl) as Hm. unfold meta_end in Hm. pose proof (blocks_words0 l).
    pose proof (Nat.Div0.div_lt_upper_bound k 32 (words0 l)). lia.
  - pose proof (blocks_words0 l). pose proof (Nat.Div0.div_lt_upper_bound k 32 (words0 l)). lia.
Qed.

Lemma small_seg g x : marks_ok g -> Obj x -> is_skip m x = false -> is_large m x = false ->
  exists seg l k, placed x l k /\ mark_segs g !! segment_addr x = Some seg /\ words_ok (words seg) /\
    layout seg = Some (lay (segment_addr x)) /\ mark_seg g (segment_addr x) = Ok (seg, l).
Proof.
  intros Hg Hx Hs Hlg. destruct (ma_small g Hg x Hx Hs Hlg) as (seg & Hseg & Hlay & Hw).
  destruct (ob_small Hobj x Hx Hs Hlg) as (l & k & Hp). exists seg, l, k. do 4 (split; [done|]).
  unfold mark_seg, seg_layout. rewrite Hseg. cbn [deref mbind res_bind]. rewrite Hlay. cbn [deref mbind res_bind].
  unfold segment_layout_at. destruct Hp as (-> & _). done.
Qed.

(** Marking a small object. *)
Lemma mark_small g x seg l k : marks_ok g -> placed x l k -> mark_segs g !! segment_addr x = Some seg ->
  layout seg = Some (lay (segment_addr x)) -> words_ok (words seg) -> is_skip m x = false -> is_large m x = false ->
  let g' := Marks (<[segment_addr x := set_words (set_bits (words seg) (BITPTR (8 + words0 l + words1 l) k)) seg]> (mark_segs g))
              (mark_msegs g) (slots g) in
  marks_ok g' /\ (forall y, Obj y -> is_target g' y = is_target g y) /\
  (forall y, Obj y -> is_marked g' y = is_marked g y || (y =? x)).
Proof.
  intros Hg Hp Hseg Hlay Hw Hskx Hlg g'. destruct (placed_spec x l k Hp) as (Hl & Hi & _ & Hlt & Hlt0 & _).
  destruct (set_bits_words (words seg) (8 + words0 l + words1 l) k Hw Hlt) as [Hw' Hsame].
  set (ws' := set_bits _ _) in *.
  assert (Hat : mark_segs g' !! segment_addr x = Some (set_words ws' seg)) by (simpl; by rewrite lookup_insert_eq).
  assert (Hne : forall a, a <> segment_addr x -> mark_segs g' !! a = mark_segs g !! a)
    by (intros a Ha; simpl; by rewrite lookup_insert_ne by congruence).
  assert (Hsl : forall y, Obj y -> is_skip m y = false -> is_large m y = false -> segment_addr y = segment_addr x ->
            exists k', placed y l k').
  { intros y Hy Hsy Hly Heq. destruct (ob_small Hobj y Hy Hsy Hly) as (l' & k' & Hp'). exists k'.
    destruct Hp as (Hlx & _), Hp' as (Hly' & ? & ? & ?). rewrite Heq in Hly'. assert (l' = l) as -> by congruence.
    split; [by rewrite Heq|done]. }
  split; [|split].
  - split; [|intros y Hy Hs Hl0; by apply (ma_large g Hg)].
    intros y Hy Hs Hl0. destruct (decide (segment_addr y = segment_addr x)) as [->|Hn]; [|rewrite Hne by done; by apply (ma_small g Hg)].
    rewrite Hat. eexists. split; [done|]. done.
  - intros y Hy. unfold is_target. destruct (is_skip m y) eqn:Hs; [done|]. cbn [negb andb]. destruct (is_large m y) eqn:Hl0; [done|].
    destruct (decide (segment_addr y = segment_addr x)) as [Heq|Hn]; [|by rewrite Hne].
    destruct (Hsl y Hy Hs Hl0 Heq) as [k' Hp']. destruct (placed_spec y l k' Hp') as (_ & Hi' & _ & _ & Hlt' & _).
    rewrite Heq, Hat, Hseg. f_equal. apply bits_ext. cbn [words set_words]. rewrite Hsame, decide_False; [done|].
    rewrite Hi'. lia.
  - intros y Hy. unfold is_marked. destruct (is_skip m y) eqn:Hs; cbn [negb andb orb].
    { symmetry. apply Z.eqb_neq. congruence. }
    destruct (is_large m y) eqn:Hl0.
    { assert (y =? x = false) as -> by (apply Z.eqb_neq; congruence). by rewrite orb_false_r. }
    destruct (decide (segment_addr y = segment_addr x)) as [Heq|Hn].
    + destruct (Hsl y Hy Hs Hl0 Heq) as [k' Hp']. destruct (placed_spec y l k' Hp') as (Hl' & Hi' & _ & _ & _ & _).
      rewrite Heq, Hat, Hseg, Hl', Hi'. unfold cbits. cbn [words set_words]. unfold ws'. rewrite set_bits_bits by done. f_equal.
      destruct Hp as (_ & _ & _ & Hx), Hp' as (_ & _ & _ & Hy'). destruct (Nat.eqb_spec k' k) as [->|Hk].
      * symmetry. apply Z.eqb_eq. rewrite Hx, Hy'. by rewrite Heq.
      * symmetry. apply Z.eqb_neq. congruence.
    + rewrite Hne by done. assert (y =? x = false) as -> by (apply Z.eqb_neq; congruence). by rewrite orb_false_r.
Qed.

(** Marking a large one. *)
Lemma mark_large g x s : marks_ok g -> mark_msegs g !! OBJ_TO_MALLOC_SEGMENT x = Some s -> collect_bit s = 0 ->
  is_skip m x = false -> is_large m x = true ->
  let g' := Marks (mark_segs g)
              (<[OBJ_TO_MALLOC_SEGMENT x := MallocSegment (bit s) (Z.lor (collect_bit s) 1)]> (mark_msegs g)) (slots g) in
  marks_ok g' /\ (forall y, Obj y -> is_target g' y = is_target g y) /\
  (forall y, Obj y -> is_marked g' y = is_marked g y || (y =? x)).
Proof.
  intros Hg Hs Hc Hskx Hlg g'.
  assert (Hat : mark_msegs g' !! OBJ_TO_MALLOC_SEGMENT x = Some (MallocSegment (bit s) 1)).
  { simpl. by rewrite lookup_insert_eq, Hc. }
  assert (Hne : forall y, y <> x -> mark_msegs g' !! OBJ_TO_MALLOC_SEGMENT y = mark_msegs g !! OBJ_TO_MALLOC_SEGMENT y).
  { intros y Hy. simpl. rewrite lookup_insert_ne; [done|]. unfold OBJ_TO_MALLOC_SEGMENT. lia. }
  split; [|split].
  - split; [apply (ma_small g Hg)|]. intros y Hy Hsk Hl0. destruct (decide (y = x)) as [->|Hn].
    + rewrite Hat. eexists. split; [done|]. by right.
    + rewrite Hne by done. by apply (ma_large g Hg).
  - intros y Hy. unfold is_target. destruct (is_large m y) eqn:Hl0; [|done]. f_equal.
    destruct (decide (y = x)) as [->|Hn]; [by rewrite Hat, Hs|by rewrite Hne].
  - intros y Hy. unfold is_marked. destruct (decide (y = x)) as [->|Hn].
    + rewrite Hskx, Hlg, Hat, Z.eqb_refl. cbn. by rewrite orb_true_r.
    + rewrite (proj2 (Z.eqb_neq y x)) by done. rewrite orb_false_r. destruct (is_large m y) eqn:Hl0; [by rewrite Hne|done].
Qed.

(** The result of [visit] on an object that is white, or not. *)
Definition visited (g : marks) (x : Z) (white : bool) (r : res (option stack_slot * marks)) : Prop :=
  exists g', r = Ok (if white then Some (object_slot x) else None, g') /\ marks_ok g' /\
    (forall y, Obj y -> is_marked g' y = is_marked g y || (white && (y =? x))) /\
    (forall y, Obj y -> is_target g' y = is_target g y) /\
    (forall s, slot_next g' s = slot_next g s).

Lemma visited_none g x : marks_ok g -> visited g x false (Ok (None, g)).
Proof. intros Hg. exists g. do 2 (split; [done|]). split; [|done]. intros y _. by rewrite orb_false_r. Qed.

Lemma visit_concrete g x : marks_ok g -> x = 0 \/ Obj x ->
  visited g x (negb (x =? 0) && is_target g x && negb (is_marked g x)) (visit m g x).
Proof.
  intros Hg Hx. unfold visit. set (white := _ && negb (is_marked g x)).
  destruct (Z.eqb_spec x 0) as [Hx0|Hx0]; cbn [orb]; [by apply visited_none|].
  destruct Hx as [|Hx]; [done|]. destruct (is_skip m x) eqn:Hs.
  { replace white with false by (unfold white, is_target; by rewrite Hs). by apply visited_none. }
  destruct (is_large m x) eqn:Hlg.
  - destruct (ma_large g Hg x Hx Hs Hlg) as (s & Hms & Hc). rewrite Hms. cbn [deref mbind res_bind].
    assert (Hwh : white = negb (bit s =? 0) && negb (negb (Z.land (collect_bit s) 1 =? 0)))
      by (unfold white, is_target, is_marked; by rewrite Hs, Hlg, Hms).
    destruct (bit s =? 0) eqn:Hb; [rewrite Hwh; by apply visited_none|].
    destruct (negb (Z.land (collect_bit s) 1 =? 0)) eqn:Hcb; [rewrite Hwh; by apply visited_none|].
    assert (Hc0 : collect_bit s = 0) by (destruct Hc as [|Hc]; [done|by rewrite Hc in Hcb]).
    destruct (mark_large g x s Hg Hms Hc0 Hs Hlg) as (H1 & H2 & H3). rewrite Hwh.
    eexists. split; [unfold object_slot; rewrite Hlg; reflexivity|]. split; [exact H1|]. split; [|done]. exact H3.
  - destruct (small_seg g x Hg Hx Hs Hlg) as (seg & l & k & Hp & Hseg & Hw & Hlay & Hms). rewrite Hms. cbn [mbind res_bind].
    destruct (placed_spec x l k Hp) as (Hl & Hi & Hoi & Hlt & Hlt0 & Hok). rewrite Hoi. cbn [mbind res_bind].
    rewrite BITPTR_TEST_bit. change (bit_at (drop BITMAP0_BASE (words seg)) k) with (bits (words seg) 8 k).
    unfold BITPTRA_TEST_AND_SET. rewrite (collect_base l Hok), BITPTR_TEST_bit.
    change (bit_at (drop (8 + words0 l + words1 l) (words seg)) k) with (cbits l (words seg) k).
    assert (Hwh : white = (bits (words seg) 8 k || negb (segment_addr x + allocptr_snapshot seg <=? x)) && negb (cbits l (words seg) k)).
    { unfold white, is_target, is_marked. by rewrite Hs, Hlg, Hseg, Hi, Hl. }
    destruct (negb (bits (words seg) 8 k) && (segment_addr x + allocptr_snapshot seg <=? x)) eqn:Hnt.
    { rewrite Hwh. apply andb_true_iff in Hnt as [Hb Hle]. apply negb_true_iff in Hb. rewrite Hb, Hle. by apply visited_none. }
    assert (Ht : bits (words seg) 8 k || negb (segment_addr x + allocptr_snapshot seg <=? x) = true)
      by (by destruct (bits (words seg) 8 k), (segment_addr x + allocptr_snapshot seg <=? x)).
    rewrite Hwh, Ht. destruct (cbits l (words seg) k) eqn:Hcb; [by apply visited_none|].
    destruct (mark_small g x seg l k Hg Hp Hseg Hlay Hw Hs Hlg) as (H1 & H2 & H3).
    eexists. split; [unfold object_slot; rewrite Hlg, Hi; reflexivity|]. split; [exact H1|]. split; [|done]. exact H3.
Qed.

(** ** The instance *)
Lemma object_slot_inj x y : Obj x -> Obj y -> is_skip m x = false -> is_skip m y = false ->
  object_slot x = object_slot y -> x = y.
Proof.
  intros Hx Hy Hsx Hsy. unfold object_slot. destruct (is_large m x) eqn:Hlx, (is_large m y) eqn:Hly; intros [=].
  - unfold OBJ_TO_MALLOC_SEGMENT in *. lia.
  - destruct (ob_small Hobj x Hx Hsx Hlx) as (l & k & Hp), (ob_small Hobj y Hy Hsy Hly) as (l' & k' & Hp').
    destruct (placed_spec x l k Hp) as (_ & Hi & _), (placed_spec y l' k' Hp') as (_ & Hi' & _).
    destruct Hp as (Hl & _ & _ & Hxa), Hp' as (Hl' & _ & _ & Hya). rewrite Hxa, Hya. congruence.
Qed.

Lemma slot_concrete g x : marks_ok g -> Obj x -> is_target g x = true ->
  object_stack_slot m g x = Ok (Some (object_slot x)).
Proof.
  intros Hg Hx Ht. unfold object_stack_slot, object_slot.
  rewrite (proj2 (Z.eqb_neq x 0)) by (intros ->; by apply (ob_0 Hobj)).
  assert (Hs : is_skip m x = false) by (unfold is_target in Ht; by apply andb_true_iff in Ht as [?%negb_true_iff _]).
  rewrite Hs. destruct (is_large m x) eqn:Hlg; [done|].
  destruct (small_seg g x Hg Hx Hs Hlg) as (seg & l & k & Hp & Hseg & Hw & Hlay & Hms). rewrite Hms. cbn [mbind res_bind].
  destruct (placed_spec x l k Hp) as (Hl & -> & Hoi & _). rewrite Hoi. done.
Qed.

Definition heap_stacks : MarkStacks marks.
Proof.
  refine {| mk_visit := visit m; mk_slot := object_stack_slot m; mk_next := slot_next; mk_set_next := set_slot;
            good := marks_ok; object := Obj; target := is_target; marked := is_marked; slot_of := object_slot |}.
  - apply (ob_0 Hobj).
  - intros g x Hg Hx. exact (visit_concrete g x Hg Hx).
  - apply slot_concrete.
  - intros g x y _ Hx Hy Htx Hty. apply object_slot_inj; [done..| |].
    + unfold is_target in Htx. by apply andb_true_iff in Htx as [?%negb_true_iff _].
    + unfold is_target in Hty. by apply andb_true_iff in Hty as [?%negb_true_iff _].
  - intros g s v Hg. split; [destruct Hg as [H1 H2]; split; [exact H1|exact H2]|]. split; [done|]. split; [done|].
    intros s'. unfold slot_next. simpl. case_decide as Heq; [subst; by rewrite lookup_insert_eq|by rewrite lookup_insert_ne].
Defined.

Definition heap_marking : Marking marks.
Proof.
  refine {| marking_stacks := heap_stacks; mk_pointers := obj_pointers m; children := object_children |}.
  - intros g x Hg Hx Ht. unfold is_target in Ht. apply andb_true_iff in Ht as [Hs%negb_true_iff _].
    destruct (ob_pointers Hobj x Hx Hs) as (ys & Hys & Hin). unfold object_children. by rewrite Hys.
Defined.

Lemma is_alive_spec g x : marks_ok g -> x = 0 \/ Obj x ->
  is_alive m g x = Ok ((x =? 0) || negb (is_target g x) || is_marked g x).
Proof.
  intros Hg Hx. unfold is_alive. destruct (Z.eqb_spec x 0) as [Hx0|Hx0]; cbn [orb]; [done|].
  destruct Hx as [|Hx]; [done|]. unfold is_target, is_marked. destruct (is_skip m x) eqn:Hs; [done|]. cbn [negb andb].
  destruct (is_large m x) eqn:Hlg.
  - destruct (ma_large g Hg x Hx Hs Hlg) as (s & Hms & Hc). rewrite Hms. cbn [deref mbind res_bind].
    destruct (bit s =? 0); cbn [negb orb]; [done|]. by destruct Hc as [-> | ->].
  - destruct (small_seg g x Hg Hx Hs Hlg) as (seg & l & k & Hp & Hseg & Hw & Hlay & Hms). rewrite Hms. cbn [mbind res_bind].
    destruct (placed_spec x l k Hp) as (Hl & Hi & Hoi & Hlt & Hlt0 & Hok). rewrite Hoi. cbn [mbind res_bind].
    rewrite (collect_base l Hok), !BITPTR_TEST_bit, Hseg, Hl, Hi.
    change (bit_at (drop BITMAP0_BASE (words seg)) k) with (bits (words seg) 8 k).
    change (bit_at (drop (8 + words0 l + words1 l) (words seg)) k) with (cbits l (words seg) k).
    by destruct (bits (words seg) 8 k), (segment_addr x + allocptr_snapshot seg <=? x).
Qed.
End Concrete.

(** ** A whole mark phase of one thread *)
Section Cycle.
Context (m : mem) (Obj : Z -> Prop) (lay : Z -> nat) (Hobj : objects_ok m Obj lay).

(** The mark stack of the pointer [top], and reachability through objects
    that are still to be marked. *)
Definition mark_stack : marks -> Z -> list Z -> Prop := @stack_ok marks (heap_stacks m Obj lay Hobj).
Definition white_reach : marks -> Z -> Z -> Prop := @wreach marks (heap_marking m Obj lay Hobj).

(** Reachable from [roots] through objects subject to the collection. *)
Inductive live (g : marks) (roots : list Z) : Z -> Prop :=
| live_root x : x ∈ roots -> Obj x -> is_target m lay g x = true -> live g roots x
| live_field y x : live g roots y -> x ∈ object_children m y -> Obj x -> is_target m lay g x = true -> live g roots x.

(** The roots are pushed in SYNC2, and everything is traced in MARK. *)
Definition mark_phase (fuel : nat) (g : marks) (user : Z) (roots globals callbacks : list Z) : res (marks * allocator) :=
  '(g, alloc) ← sml_heap_user_sync2 m g (Allocator 0 0) user roots;
  '(g, alloc) ← sml_heap_global_sync2 m g alloc globals callbacks;
  sml_heap_worker_mark m fuel g alloc.

Lemma roots_pushed g user roots globals callbacks :
  mark_stack g 0 [] -> (forall x, Obj x -> is_marked m lay g x = false) ->
  user = 0 \/ Obj user -> (forall x, x ∈ roots ++ globals ++ callbacks -> x = 0 \/ Obj x) ->
  exists g' top new,
    ('(g, alloc) ← sml_heap_user_sync2 m g (Allocator 0 0) user roots;
     sml_heap_global_sync2 m g alloc globals callbacks) = Ok (g', Allocator top 0) /\ mark_stack g' top new /\
    (forall x, Obj x -> is_target m lay g' x = is_target m lay g x) /\
    (forall x, Obj x -> is_marked m lay g' x = true <-> x ∈ new \/ x = user /\ is_target m lay g x = true) /\
    (forall x, x ∈ new -> x ∈ roots ++ globals ++ callbacks /\ is_target m lay g x = true) /\
    (forall x, x ∈ roots ++ globals ++ callbacks -> Obj x -> is_target m lay g x = true -> is_marked m lay g' x = true).
Proof.
  intros Hok Hun Huser Hroots. unfold sml_heap_user_sync2, sml_heap_global_sync2.
  pose proof (@push_all_spec marks (heap_stacks m Obj lay Hobj)) as Hpush.
  (* visiting the user is pushing it without keeping the stack *)
  pose proof (so_good _ _ _ Hok) as Hg.
  destruct (visit_concrete m Obj lay Hobj g user Hg Huser) as (g1 & Hv & Hg1 & Hm1 & Ht1 & Hn1). rewrite Hv. cbn [mbind res_bind].
  assert (Hok1 : mark_stack g1 0 []).
  { split; [done|done|constructor|intros x Hx; by apply elem_of_nil in Hx|].
    intros x Hx Hw. change (slot_next g1 (object_slot m lay x) = 0). rewrite Hn1.
    apply (so_clear _ _ _ Hok x Hx). apply white_target in Hw as Hw'. destruct Hw' as [Htx _].
    change (is_target m lay g1 x = true) in Htx. rewrite Ht1 in Htx by done.
    unfold white. change (negb (x =? 0) && is_target m lay g x && negb (is_marked m lay g x) = true). rewrite Htx, Hun by done.
    assert (x =? 0 = false) as -> by (apply Z.eqb_neq; intros ->; by apply (ob_0 m Obj lay Hobj)). done. }
  assert (Hm1' : forall x, Obj x -> is_marked m lay g1 x = true <-> x = user /\ is_target m lay g x = true).
  { intros x Hx. rewrite Hm1, Hun by done. cbn [orb]. rewrite !andb_true_iff, negb_true_iff, Z.eqb_eq, Z.eqb_neq. split.
    - intros [[[_ ?] _] ->]. done.
    - intros [-> ?]. rewrite Hun by done. split; [|done]. split; [|done]. split; [|done]. intros ->. by apply (ob_0 m Obj lay Hobj). }
  destruct (Hpush roots g1 0 [] Hok1) as (g2 & top2 & new2 & Hr2 & Hok2 & Ht2 & Hm2 & Hn2 & Ha2 & _);
    [intros x Hx; apply Hroots; apply elem_of_app; by left|].
  change (heap_push_all m g1 0 roots = Ok (g2, top2)) in Hr2. cbn [root_set]. rewrite Hr2. cbn [mbind res_bind remembered_set root_set].
  destruct (Hpush globals g2 top2 _ Hok2) as (g3 & top3 & new3 & Hr3 & Hok3 & Ht3 & Hm3 & Hn3 & Ha3 & _);
    [intros x Hx; apply Hroots; rewrite !elem_of_app; tauto|].
  change (heap_push_all m g2 top2 globals = Ok (g3, top3)) in Hr3. rewrite Hr3. cbn [mbind res_bind].
  destruct (Hpush callbacks g3 top3 _ Hok3) as (g4 & top4 & new4 & Hr4 & Hok4 & Ht4 & Hm4 & Hn4 & Ha4 & _);
    [intros x Hx; apply Hroots; rewrite !elem_of_app; tauto|].
  change (heap_push_all m g3 top3 callbacks = Ok (g4, top4)) in Hr4. rewrite Hr4. cbn [mbind res_bind].
  cbn in Ht2, Hm2, Ha2, Ht3, Hm3, Ha3, Ht4, Hm4, Ha4.
  exists g4, top4, (new4 ++ new3 ++ new2 ++ []). split; [done|]. split; [done|].
  assert (Hob : forall x, x ∈ new4 ++ new3 ++ new2 ++ [] -> Obj x) by (intros x Hx; by destruct (linked_objects _ _ _ _ (so_linked _ _ _ Hok4) Hx)).
  assert (Htt : forall x, Obj x -> is_target m lay g4 x = is_target m lay g x) by (intros x Hx; by rewrite Ht4, Ht3, Ht2, Ht1).
  split; [done|]. split; [|split].
  - intros x Hx. rewrite Hm4, Hm3, Hm2, Hm1', !elem_of_app, elem_of_nil by done. tauto.
  - intros x Hx. split.
    + rewrite !elem_of_app, elem_of_nil in Hx. rewrite !elem_of_app. destruct Hx as [Hx|[Hx|[Hx|[]]]];
        [apply Hn4 in Hx as [? _]|apply Hn3 in Hx as [? _]|apply Hn2 in Hx as [? _]]; tauto.
    + rewrite <- Htt by (by apply Hob). by destruct (linked_objects _ _ _ _ (so_linked _ _ _ Hok4) Hx).
  - intros x Hx Ho Ht. rewrite !elem_of_app in Hx. destruct Hx as [Hx|[Hx|Hx]].
    + apply Hm4; [done|]. left. apply Hm3; [done|]. left. apply Ha2; [done..|by rewrite Ht1].
    + apply Hm4; [done|]. left. apply Ha3; [done..|by rewrite Ht2, Ht1].
    + apply Ha4; [done..|by rewrite Ht3, Ht2, Ht1].
Qed.

(** Marking is complete and exact: what is live is marked, nothing else is. *)
Lemma mark_phase_spec us fuel g user roots globals callbacks :
  NoDup us -> (forall x, Obj x <-> x ∈ us) -> (length us < fuel)%nat ->
  mark_stack g 0 [] -> (forall x, Obj x -> is_marked m lay g x = false) ->
  user = 0 \/ Obj user -> object_children m user = [] ->
  (forall x, x ∈ roots ++ globals ++ callbacks -> x = 0 \/ Obj x) ->
  exists g', mark_phase fuel g user roots globals callbacks = Ok (g', Allocator 0 0) /\
    marks_ok m Obj lay g' /\
    (forall x, Obj x -> is_target m lay g' x = is_target m lay g x) /\
    (forall x, Obj x -> is_marked m lay g' x = true <-> live g (user :: roots ++ globals ++ callbacks) x) /\
    (forall x, Obj x -> is_target m lay g x = true -> x <> user -> slot_next g' (object_slot m lay x) = 0).
Proof.
  intros Hnd Hus Hf Hok Hun Huser Hleaf Hroots. set (all := roots ++ globals ++ callbacks) in *.
  destruct (roots_pushed g user roots globals callbacks Hok Hun Huser Hroots)
    as (g1 & top & new & Hrun & Hok1 & Ht1 & Hm1 & Hnew & Hall). unfold mark_phase.
  destruct (sml_heap_user_sync2 m g (Allocator 0 0) user roots) as [[ga al]| | |]; try discriminate Hrun.
  cbn [mbind res_bind] in Hrun |- *. rewrite Hrun. cbn [mbind res_bind]. unfold sml_heap_worker_mark. cbn [root_set remembered_set].
  assert (Hempty : mark_stack g1 0 []).
  { destruct Hok1 as [Hg _ _ _ Hc]. split; [done|done|constructor|intros x Hx; by apply elem_of_nil in Hx|done]. }
  destruct (@trace_both marks (heap_marking m Obj lay Hobj) us fuel g1 top new 0 [] Hnd Hus Hok1 Hempty)
    as (g2 & g3 & Hr1 & Hr2 & Hg3 & Ht3 & Hm3 & Hz3 & _); [intros x _ Hx; by apply elem_of_nil in Hx|done|].
  change (heap_trace m fuel g1 top = Ok g2) in Hr1. change (heap_trace m fuel g2 0 = Ok g3) in Hr2.
  rewrite Hr1. cbn [mbind res_bind]. rewrite Hr2. cbn [mbind res_bind].
  exists g3. split; [done|]. split; [done|]. cbn in Ht3, Hm3, Hz3. split; [intros x Hx; by rewrite Ht3, Ht1|].
  assert (Hnewo : forall x, x ∈ new -> Obj x) by (intros x Hx; by destruct (linked_objects _ _ _ _ (so_linked _ _ _ Hok1) Hx)).
  assert (Hwhite : forall x, Obj x -> @white marks (heap_stacks m Obj lay Hobj) g1 x = is_target m lay g x && negb (is_marked m lay g1 x)).
  { intros x Hx. unfold white. cbn. rewrite Ht1 by done. assert (x =? 0 = false) as -> by (apply Z.eqb_neq; intros ->; by apply (ob_0 m Obj lay Hobj)). done. }
  rewrite app_nil_r in Hm3, Hz3. split.
  - intros x Hx. rewrite Hm3 by done. split.
    + intros [Hmx|(s & Hs & Hr)].
      * apply Hm1 in Hmx; [|done]. destruct Hmx as [Hn|[-> Ht]]; [|apply live_root; [by left|done..]].
        destruct (Hnew x Hn). apply live_root; [by right|done..].
      * assert (Hls : live g (user :: all) s) by (destruct (Hnew s Hs); apply live_root; [by right|by apply Hnewo|done]).
        clear Hx. induction Hr as [x Hcx Hox Hwx|z x Hrz IHr Hcx Hox Hwx].
        -- apply live_field with s; [done..|]. rewrite Hwhite in Hwx by done. by apply andb_true_iff in Hwx as [? _].
        -- apply live_field with z; [done..|]. rewrite Hwhite in Hwx by done. by apply andb_true_iff in Hwx as [? _].
    + induction 1 as [x Hroot Hox Htx|y x Hy IHy Hcx Hox Htx].
      * left. apply elem_of_cons in Hroot as [->|Hroot]; [apply Hm1; [done|by right]|by apply Hall].
      * destruct (is_marked m lay g1 x) eqn:Hmx; [by left|]. right.
        assert (Hwx : @white marks (heap_stacks m Obj lay Hobj) g1 x = true) by (by rewrite Hwhite, Htx, Hmx).
        assert (Hoy : Obj y) by (by inversion Hy). destruct (IHy Hoy) as [Hmy|(s & Hs & Hr)].
        -- apply Hm1 in Hmy; [|done]. destruct Hmy as [Hn|[-> _]]; [|rewrite Hleaf in Hcx; by apply elem_of_nil in Hcx].
           exists y. split; [done|]. by apply wreach_step.
        -- exists s. split; [done|]. by eapply wreach_trans.
  - intros x Hx Ht Hne. apply Hz3; [done|by rewrite Ht1|]. destruct (decide (x ∈ new)) as [|Hn]; [by left|]. right.
    apply not_true_iff_false. rewrite Hm1 by done. tauto.
Qed.
End Cycle.

(** ** A memory to run *)
Module TraceSample.
(** Three arrays of 513 pointers, too large for a block; the first refers to
    the second, the third to itself. *)
Definition a1 : Z := 65536.
Definition a2 : Z := 131072.
Definition a3 : Z := 196608.
Definition m : mem :=
  let array m a p := store64 (store32 m (a - 4) (OBJ_HEADER_WORD OBJTYPE_BOXED_ARRAY 4104)) a p in
  array (array (array (fun _ => 0) a1 a2) a2 0) a3 a3.
Definition Obj (x : Z) : Prop := x = a1 \/ x = a2 \/ x = a3.
Definition lay (_ : Z) : nat := 0.
Definition us : list Z := [a1; a2; a3].
Definition g0 : marks :=
  Marks ∅ (<[OBJ_TO_MALLOC_SEGMENT a1 := MallocSegment 1 0]>
          (<[OBJ_TO_MALLOC_SEGMENT a2 := MallocSegment 1 0]>
          (<[OBJ_TO_MALLOC_SEGMENT a3 := MallocSegment 1 0]> ∅))) ∅.

Lemma Obj_cases (P : Z -> Prop) : P a1 -> P a2 -> P a3 -> forall x, Obj x -> P x.
Proof. intros H1 H2 H3 x [->|[->| ->]]; done. Qed.

Lemma all_large : forall x, Obj x -> is_large m x = true.
Proof. apply Obj_cases; vm_compute; reflexivity. Qed.

Lemma pointers_ok : forall x, Obj x -> match obj_pointers m x with
  | Ok ys => forallb (fun y => (y =? 0) || (y =? a1) || (y =? a2) || (y =? a3)) ys = true
  | _ => False
  end.
Proof. apply Obj_cases; vm_compute; reflexivity. Qed.

Lemma objects : objects_ok m Obj lay.
Proof.
  split.
  - intros [H|[H|H]]; discriminate H.
  - intros x Hx _ Hl. rewrite all_large in Hl by done. discriminate Hl.
  - intros x Hx _. pose proof (pointers_ok x Hx) as H. destruct (obj_pointers m x) as [ys| | |]; [|done..].
    exists ys. split; [done|]. intros y Hy. rewrite forallb_forall in H. apply list_elem_of_In in Hy.
    specialize (H y Hy). rewrite !orb_true_iff, !Z.eqb_eq in H. unfold Obj. tauto.
Qed.

Lemma marks0 : marks_ok m Obj lay g0.
Proof.
  split.
  - intros x Hx _ Hl. rewrite all_large in Hl by done. discriminate Hl.
  - intros x Hx _ _. exists (MallocSegment 1 0). split; [|by left].
    revert x Hx. apply Obj_cases; reflexivity.
Qed.

Lemma nothing_marked : forall x, Obj x -> is_marked m lay g0 x = false.
Proof. apply Obj_cases; vm_compute; reflexivity. Qed.

Lemma stack0 : mark_stack m Obj lay objects g0 0 [].
Proof.
  split; [exact marks0|done|constructor|intros x Hx; by apply elem_of_nil in Hx|done].
Qed.

Lemma us_ok : NoDup us /\ forall x, Obj x <-> x ∈ us.
Proof.
  split; [apply (bool_decide_unpack _); vm_compute; exact I|]. intros x. unfold us, Obj.
  rewrite !elem_of_cons, elem_of_nil. tauto.
Qed.
End TraceSample.

(** ** Properties *)

(** C7. The mark phase of a thread terminates without a failing assertion, marks
    exactly the objects that are reachable from its roots through objects
    subject to the collection, and leaves all mark stack slots empty. *)
Theorem mark_phase_correct m Obj lay (Hobj : objects_ok m Obj lay) us fuel g user roots globals callbacks :
  NoDup us -> (forall x, Obj x <-> x ∈ us) -> (length us < fuel)%nat ->
  mark_stack m Obj lay Hobj g 0 [] -> (forall x, Obj x -> is_marked m lay g x = false) ->
  user = 0 \/ Obj user -> object_children m user = [] ->
  (forall x, x ∈ roots ++ globals ++ callbacks -> x = 0 \/ Obj x) ->
  exists g', mark_phase m fuel g user roots globals callbacks = Ok (g', Allocator 0 0) /\
    marks_ok m Obj lay g' /\
    (forall x, Obj x -> is_target m lay g' x = is_target m lay g x) /\
    (forall x, Obj x -> is_marked m lay g' x = true <-> live m Obj lay g (user :: roots ++ globals ++ callbacks) x) /\
    (forall x, Obj x -> is_target m lay g x = true -> x <> user -> slot_next g' (object_slot m lay x) = 0).
Proof. apply mark_phase_spec. Qed.

Lemma mark_phase_correct_witness : exists g',
  mark_phase TraceSample.m 4 TraceSample.g0 0 [TraceSample.a1; 0] [TraceSample.a1] [] = Ok (g', Allocator 0 0) /\
    marks_ok TraceSample.m TraceSample.Obj TraceSample.lay g' /\
    (forall x, TraceSample.Obj x -> is_target TraceSample.m TraceSample.lay g' x = is_target TraceSample.m TraceSample.lay TraceSample.g0 x) /\
    (forall x, TraceSample.Obj x -> is_marked TraceSample.m TraceSample.lay g' x = true <->
       live TraceSample.m TraceSample.Obj TraceSample.lay TraceSample.g0 (0 :: [TraceSample.a1; 0] ++ [TraceSample.a1] ++ []) x) /\
    (forall x, TraceSample.Obj x -> is_target TraceSample.m TraceSample.lay TraceSample.g0 x = true -> x <> 0 ->
       slot_next g' (object_slot TraceSample.m TraceSample.lay x) = 0).
Proof.
  apply (mark_phase_correct TraceSample.m TraceSample.Obj TraceSample.lay TraceSample.objects TraceSample.us).
  - apply TraceSample.us_ok.
  - apply TraceSample.us_ok.
  - vm_compute. lia.
  - exact TraceSample.stack0.
  - exact TraceSample.nothing_marked.
  - by left.
  - vm_compute. reflexivity.
  - intros x Hx. unfold TraceSample.Obj. rewrite !elem_of_app, !elem_of_cons, !elem_of_nil in Hx. tauto.
Defined.

(** Tracing the root set and the remembered set of an allocator, whose
    stacks share the slots with those of the other threads, marks what is
    reachable through unmarked objects, and keeps the stacks of the others. *)
Theorem sml_heap_worker_mark_correct m Obj lay (Hobj : objects_ok m Obj lay) us fuel g alloc rs ss :
  NoDup us -> (forall x, Obj x <-> x ∈ us) -> (length us < fuel)%nat ->
  mark_stack m Obj lay Hobj g (root_set alloc) rs -> mark_stack m Obj lay Hobj g (remembered_set alloc) ss -> rs ## ss ->
  exists g', sml_heap_worker_mark m fuel g alloc = Ok (g', Allocator 0 0) /\ marks_ok m Obj lay g' /\
    (forall x, Obj x -> is_marked m lay g' x = true <->
       is_marked m lay g x = true \/ exists s, s ∈ rs ++ ss /\ white_reach m Obj lay Hobj g s x) /\
    (forall top ts, mark_stack m Obj lay Hobj g top ts -> rs ++ ss ## ts -> mark_stack m Obj lay Hobj g' top ts).
Proof.
  intros Hnd Hus Hf Hrs Hss Hd.
  destruct (@trace_both marks (heap_marking m Obj lay Hobj) us fuel g (root_set alloc) rs (remembered_set alloc) ss Hnd Hus Hrs Hss Hd Hf)
    as (g1 & g' & Hr1 & Hr2 & Hg' & Ht' & Hm' & Hz' & Hk').
  exists g'. split; [|split; [done|split; [exact Hm'|]]].
  - unfold sml_heap_worker_mark. change (heap_trace m fuel g (root_set alloc) = Ok g1) in Hr1.
    change (heap_trace m fuel g1 (remembered_set alloc) = Ok g') in Hr2.
    rewrite Hr1. cbn [mbind res_bind]. by rewrite Hr2.
  - intros top ts Hts Hdt. apply (@stack_kept marks (heap_stacks m Obj lay Hobj) g g' (rs ++ ss)); try done.
    intros y Hy Hmy. apply Hm'; [done|by left].
Qed.

Lemma sml_heap_worker_mark_correct_witness :
  exists g1 top new,
    heap_push_all TraceSample.m TraceSample.g0 0 [TraceSample.a1] = Ok (g1, top) /\
    exists g', sml_heap_worker_mark TraceSample.m 4 g1 (Allocator top 0) = Ok (g', Allocator 0 0) /\
      forall x, TraceSample.Obj x -> is_marked TraceSample.m TraceSample.lay g' x = true <->
        is_marked TraceSample.m TraceSample.lay g1 x = true \/
        exists s, s ∈ new ++ [] /\ white_reach TraceSample.m TraceSample.Obj TraceSample.lay TraceSample.objects g1 s x.
Proof.
  destruct (@push_all_spec marks (heap_stacks _ _ _ TraceSample.objects) [TraceSample.a1] TraceSample.g0 0 [] TraceSample.stack0)
    as (g1 & top & new & Hrun & Hok & _).
  { intros y Hy. apply list_elem_of_singleton in Hy as ->. right. by left. }
  exists g1, top, (new ++ []). split; [exact Hrun|].
  destruct (sml_heap_worker_mark_correct TraceSample.m TraceSample.Obj TraceSample.lay TraceSample.objects TraceSample.us 4
    g1 (Allocator top 0) (new ++ []) []) as (g' & H1 & _ & H2 & _).
  - apply TraceSample.us_ok.
  - apply TraceSample.us_ok.
  - vm_compute. lia.
  - exact Hok.
  - destruct Hok as [Hg _ _ _ Hc]. split; [done|done|constructor|intros x Hx; by apply elem_of_nil in Hx|done].
  - intros x _ Hx. by apply elem_of_nil in Hx.
  - exists g'. split; [exact H1|]. intros x Hx. exact (H2 x Hx).
Defined.

(** [sml_heap_check_alive] is true exactly of the objects that the
    collection does not free: those not subject to it, and the marked ones. *)
Theorem sml_heap_check_alive_correct m Obj lay g objptr : objects_ok m Obj lay -> marks_ok m Obj lay g ->
  let x := load64 m objptr in x = 0 \/ Obj x ->
  sml_heap_check_alive m g objptr = Ok ((x =? 0) || negb (is_target m lay g x) || is_marked m lay g x).
Proof. intros Hobj Hg x Hx. by apply (is_alive_spec m Obj lay Hobj). Qed.

Lemma sml_heap_check_alive_correct_witness :
  sml_heap_check_alive TraceSample.m TraceSample.g0 TraceSample.a1 = Ok false.
Proof.
  assert (Hx : load64 TraceSample.m TraceSample.a1 = 0 \/ TraceSample.Obj (load64 TraceSample.m TraceSample.a1))
    by (right; right; left; vm_compute; reflexivity).
  rewrite (sml_heap_check_alive_correct TraceSample.m TraceSample.Obj TraceSample.lay TraceSample.g0 TraceSample.a1
             TraceSample.objects TraceSample.marks0 Hx).
  vm_compute. reflexivity.
Defined.
