(* ===== verification/Barrier.v ===== *)
(** * The write barrier

    [sml_write] keeps the snapshot that the collection began with: whatever
    is to be retained is marked, or reachable from the mark stacks through
    objects that are still to be marked, in the memory after the write. *)
From Stdlib Require Import ZArith Lia.
From stdpp Require Import base option list gmap.
From S2P Require Import Prelude Bits Layout Segment SegmentFacts Alloc AllocFacts Memory Object ObjectThms Malloc Trace TraceSpec TraceThms.

Local Open Scope Z_scope.

(** ** Paths *)
Section Paths.
Variable ch : Z -> list Z.
Variable W : Z -> Prop.

(** From [s] through objects of [W]. *)
Inductive path (s : Z) : Z -> Prop :=
| path_step x : x ∈ ch s -> W x -> path s x
| path_trans y x : path s y -> x ∈ ch y -> W x -> path s x.
End Paths.

(** One edge to [old] may go away and the objects of [B] leave [W]: a path
    is still there, or its end can be reached from [old] or from [B]. *)
Lemma path_cut ch ch' (Q W W' B : Z -> Prop) old s x :
  (forall y z, Q y -> z ∈ ch y -> z ∈ ch' y \/ z = old) -> (forall z, W z -> Q z) -> Q s ->
  (forall z, W z -> W' z \/ B z) -> (W old -> B old) ->
  path ch W s x -> path ch' W' s x \/ exists b, W b /\ B b /\ (x = b \/ path ch' W' b x).
Proof.
  intros Hch HQ Hs HW Hold. induction 1 as [x Hx Hw|y x Hy IH Hx Hw].
  - destruct (HW x Hw) as [Hw'|HB]; [|right; exists x; tauto].
    destruct (Hch s x Hs Hx) as [Hx'|Heq]; [left; by apply path_step|]. right. exists x. subst. tauto.
  - assert (Hyw : Q y) by (destruct Hy; by apply HQ).
    destruct (HW x Hw) as [Hw'|HB]; [|right; exists x; tauto].
    destruct (Hch y x Hyw Hx) as [Hx'|Heq]; [|right; exists x; subst; tauto].
    destruct IH as [Hp|(b & Hb & HBb & [->|Hp])]; [left; by eapply path_trans| |]; right; exists b; (split; [done|]; split; [done|]; right).
    + by apply path_step.
    + by eapply path_trans.
Qed.

Section Write.
Context (m : mem) (Obj : Z -> Prop) (lay : Z -> nat).

(** [w] is a pointer field, apart from the headers, the bitmaps and the
    other pointer fields of the objects. *)
Record write_ok (w : Z) : Prop := {
  wo_header x : Obj x -> x <= w \/ w + 8 <= x - 4;
  wo_bitmap x : Obj x -> OBJ_TYPE m x = OBJTYPE_RECORD ->
    w + 8 <= OBJ_BITMAP m x \/ OBJ_BITMAP m x + 4 * OBJ_NUM_BITMAPS m x <= w;
  wo_other x a ps : Obj x -> sml_obj_enum_ptr m x = Ok ps -> a ∈ ps -> a = w \/ a + 8 <= w \/ w + 8 <= a
}.

Variables (w new : Z).
Hypothesis Hw : write_ok w.
Hypothesis Hnew : new = 0 \/ Obj new.
Hypothesis Hnew64 : 0 <= new < 2 ^ 64.
Let m' := store64 m w new.

Lemma header_same x : Obj x -> OBJ_HEADER m' x = OBJ_HEADER m x.
Proof. intros Hx. apply load_store_other. destruct (wo_header w Hw x Hx); simpl; lia. Qed.

Lemma type_same x : Obj x -> OBJ_TYPE m' x = OBJ_TYPE m x.
Proof. intros Hx. unfold OBJ_TYPE. by rewrite header_same. Qed.
Lemma size_same x : Obj x -> OBJ_SIZE m' x = OBJ_SIZE m x.
Proof. intros Hx. unfold OBJ_SIZE. by rewrite header_same. Qed.
Lemma skip_same x : Obj x -> is_skip m' x = is_skip m x.
Proof. intros Hx. unfold is_skip. by rewrite header_same. Qed.
Lemma large_same x : Obj x -> is_large m' x = is_large m x.
Proof. intros Hx. unfold is_large, OBJ_TOTAL_SIZE, OBJ_NUM_BITMAPS. by rewrite type_same, size_same. Qed.
Lemma target_same g x : Obj x -> is_target m' lay g x = is_target m lay g x.
Proof. intros Hx. unfold is_target. by rewrite skip_same, large_same. Qed.
Lemma marked_same g x : Obj x -> is_marked m' lay g x = is_marked m lay g x.
Proof. intros Hx. unfold is_marked. by rewrite skip_same, large_same. Qed.
Lemma slot_same x : Obj x -> object_slot m' lay x = object_slot m lay x.
Proof. intros Hx. unfold object_slot. by rewrite large_same. Qed.

Lemma enum_same x : Obj x -> sml_obj_enum_ptr m' x = sml_obj_enum_ptr m x.
Proof.
  intros Hx. unfold sml_obj_enum_ptr, num_fields. rewrite type_same, size_same by done.
  destruct (OBJ_TYPE m x =? OBJTYPE_RECORD) eqn:Ht; [|done]. apply Z.eqb_eq in Ht.
  do 2 (case_match; [done|]). do 2 f_equal. apply filter_ext_in. intros i Hi. apply elem_of_seq in Hi.
  enough (BITMAP_BIT m' (OBJ_BITMAP m' x) i = BITMAP_BIT m (OBJ_BITMAP m x) i) as -> by done.
  unfold OBJ_BITMAP. rewrite size_same by done. fold (OBJ_BITMAP m x). unfold BITMAP_BIT. do 2 f_equal.
  apply load_store_other. assert (Hn : (i < num_fields m x)%nat) by (unfold num_fields; lia).
  apply bitmap_index in Hn. change BITMAP_NUM_BITS with (Z.of_nat 32). rewrite <- Nat2Z.inj_div.
  destruct (wo_bitmap w Hw x Hx Ht); lia.
Qed.

(** The pointers of an object are those before, but for the one in [w]. *)
Lemma children_same x y : Obj x -> y ∈ object_children m x -> y ∈ object_children m' x \/ y = load64 m w.
Proof.
  intros Hx. unfold object_children, obj_pointers. rewrite enum_same by done.
  destruct (sml_obj_enum_ptr m x) as [ps| | |] eqn:Hps; cbn [mbind res_bind]; try (intros Hy; by apply elem_of_nil in Hy).
  intros (a & -> & Ha)%list_elem_of_fmap. destruct (wo_other w Hw x a ps Hx Hps Ha) as [->|Hap]; [by right|].
  left. apply list_elem_of_fmap. exists a. split; [|done]. symmetry. by apply load64_other.
Qed.

Lemma pointers_written x : Obj x -> is_skip m x = false -> objects_ok m Obj lay ->
  exists ys, obj_pointers m' x = Ok ys /\ forall y, y ∈ ys -> y = 0 \/ Obj y.
Proof.
  intros Hx Hs Hobj. destruct (ob_pointers _ _ _ Hobj x Hx Hs) as (ys & Hys & Hin). unfold obj_pointers in *.
  rewrite enum_same by done. destruct (sml_obj_enum_ptr m x) as [ps| | |] eqn:Hps; try discriminate Hys.
  cbn [mbind res_bind] in *. injection Hys as <-. eexists. split; [reflexivity|].
  intros y (a & -> & Ha)%list_elem_of_fmap. destruct (wo_other w Hw x a ps Hx Hps Ha) as [->|Hap].
  - unfold m'. by rewrite load_store64.
  - unfold m'. rewrite load64_other by done. apply Hin, list_elem_of_fmap. by exists a.
Qed.

Lemma objects_written : objects_ok m Obj lay -> objects_ok m' Obj lay.
Proof.
  intros Hobj. split; [apply Hobj| |].
  - intros x Hx. rewrite skip_same, large_same by done. by apply (ob_small _ _ _ Hobj).
  - intros x Hx. rewrite skip_same by done. intros Hs. by apply pointers_written.
Qed.

Lemma marks_written g : marks_ok m Obj lay g -> marks_ok m' Obj lay g.
Proof.
  intros Hg. split; intros x Hx; rewrite skip_same, large_same by done; by apply Hg.
Qed.

Lemma stack_written (Hobj : objects_ok m Obj lay) g top xs :
  mark_stack m Obj lay Hobj g top xs -> mark_stack m' Obj lay (objects_written Hobj) g top xs.
Proof.
  intros [Hg Hl Hnd Hm Hc]. split; [by apply marks_written| |done| |].
  - clear Hnd Hm Hc. revert top Hl. induction xs as [|x xs IH]; intros top Hl; [done|].
    destruct Hl as (-> & Ho & Ht & Hl). split; [done|]. split; [done|]. cbn in *. split; [by rewrite target_same|].
    rewrite slot_same by done. by apply IH.
  - intros x Hx. cbn. rewrite marked_same; [by apply Hm|]. by destruct (linked_objects _ _ _ _ Hl Hx).
  - intros x Hx Hwx. cbn in *. rewrite slot_same by done. apply Hc; [done|]. unfold white in *. cbn in *.
    by rewrite target_same, marked_same in Hwx.
Qed.
End Write.

(** ** What is retained *)
Section Snapshot.
Context (m : mem) (Obj : Z -> Prop) (lay : Z -> nat).

Definition to_mark (g : marks) (x : Z) : Prop := Obj x /\ is_target m lay g x = true /\ is_marked m lay g x = false.

(** The objects of [S] will be marked when the stacks of [gray] are traced. *)
Definition retained (g : marks) (gray : list Z) (snapshot : Z -> Prop) : Prop :=
  forall x, snapshot x -> Obj x -> is_target m lay g x = true ->
    is_marked m lay g x = true \/ exists s, s ∈ gray /\ Obj s /\ path (object_children m) (to_mark g) s x.
End Snapshot.

Section Barrier.
Context (m : mem) (Obj : Z -> Prop) (lay : Z -> nat) (Hobj : objects_ok m Obj lay).

(** The values that the barrier remembers. *)
Definition remembered (phase old_value new_value : Z) : list Z :=
  if phase <=? SYNC2 then [new_value; old_value] else [old_value].

Lemma barrier_push_all g alloc phase old new : SYNC1 <= phase ->
  barrier m g alloc phase old new =
    '(g, s) ← heap_push_all m g (remembered_set alloc) (remembered phase old new);
    Ok (g, Allocator (root_set alloc) s).
Proof.
  intros Hp. unfold barrier, remembered, remember, heap_push_all, push_all. rewrite (proj2 (Z.leb_le _ _)) by done.
  fold (heap_push m). destruct (phase <=? SYNC2); cbn [foldl mbind res_bind].
  - destruct (heap_push m g (remembered_set alloc) new) as [[g1 s1]| | |]; cbn [mbind res_bind remembered_set root_set]; [|done..].
    by destruct (heap_push m g1 s1 old) as [[g2 s2]| | |].
  - by destruct (heap_push m g (remembered_set alloc) old) as [[g2 s2]| | |].
Qed.

Lemma sml_write_spec w new g alloc phase ss gray snapshot (Hw : write_ok m Obj w) (Hnew : new = 0 \/ Obj new)
    (Hnew64 : 0 <= new < 2 ^ 64) :
  SYNC1 <= phase -> load64 m w = 0 \/ Obj (load64 m w) ->
  mark_stack m Obj lay Hobj g (remembered_set alloc) ss -> (forall s, s ∈ gray -> Obj s) ->
  retained m Obj lay g gray snapshot ->
  exists g' alloc' ss', sml_write m g alloc phase w new = Ok (store64 m w new, g', alloc') /\
    root_set alloc' = root_set alloc /\
    mark_stack (store64 m w new) Obj lay (objects_written m Obj lay w new Hw Hnew Hnew64 Hobj) g' (remembered_set alloc') ss' /\
    ss ⊆ ss' /\ retained (store64 m w new) Obj lay g' (gray ++ ss') snapshot /\
    (forall x, x ∈ remembered phase (load64 m w) new -> Obj x -> is_target m lay g x = true -> is_marked m lay g' x = true).
Proof.
  intros Hphase Hold Hok Hgray Hret. unfold sml_write. rewrite barrier_push_all by done. set (old := load64 m w) in *.
  destruct (@push_all_spec marks (heap_stacks m Obj lay Hobj) (remembered phase old new) g (remembered_set alloc) ss Hok)
    as (g' & top' & added & Hrun & Hok' & Ht' & Hm' & Hadd & Hall & _).
  { intros y Hy. unfold remembered in Hy. case_match; rewrite ?elem_of_cons, elem_of_nil in Hy; [by destruct Hy as [->|[->|[]]]|by destruct Hy as [->|[]]]. }
  change (heap_push_all m g (remembered_set alloc) (remembered phase old new) = Ok (g', top')) in Hrun.
  rewrite Hrun. cbn [mbind res_bind]. cbn in Ht', Hm', Hall.
  exists g', (Allocator (root_set alloc) top'), (added ++ ss). split; [done|]. split; [done|].
  split; [by apply stack_written|]. split; [intros x Hx; apply elem_of_app; by right|]. split; [|exact Hall].
  assert (Hao : forall x, x ∈ added ++ ss -> Obj x) by (intros x Hx; by destruct (linked_objects _ _ _ _ (so_linked _ _ _ Hok') Hx)).
  assert (HW : forall z, to_mark m Obj lay g z -> to_mark (store64 m w new) Obj lay g' z \/ z ∈ added).
  { intros z (Hz & Htz & Hmz). destruct (decide (z ∈ added)) as [|Hn]; [by right|]. left. split; [done|].
    rewrite (target_same m Obj lay w new Hw), (marked_same m Obj lay w new Hw), Ht' by done. split; [done|].
    apply not_true_iff_false. rewrite Hm' by done. intros [?|?]; [congruence|done]. }
  assert (HB : to_mark m Obj lay g old -> old ∈ added).
  { intros (Hz & Htz & Hmz). assert (Hmo : is_marked m lay g' old = true).
    { apply Hall; [|done..]. unfold remembered. case_match; [right; by left|by left]. }
    apply Hm' in Hmo; [|done]. destruct Hmo as [?|?]; [congruence|done]. }
  intros x Hs Hx Ht. rewrite (target_same m Obj lay w new Hw), Ht' in Ht by done.
  rewrite (marked_same m Obj lay w new Hw) by done.
  destruct (Hret x Hs Hx Ht) as [Hmx|(s & Hsg & Hso & Hp)]; [left; apply Hm'; [done|by left]|].
  destruct (path_cut _ (object_children (store64 m w new)) Obj _ (to_mark (store64 m w new) Obj lay g') (fun z => z ∈ added) old s x
    (children_same m Obj w new Hw) (fun z Hz => proj1 Hz) Hso HW HB Hp) as [Hp'|(b & Hb & Hba & [->|Hp'])].
  - right. exists s. split; [apply elem_of_app; by left|done].
  - left. apply Hm'; [done|by right].
  - right. exists b. split; [rewrite !elem_of_app; tauto|]. split; [apply Hb|done].
Qed.
End Barrier.

(** ** A write to run *)
Module BarrierSample.
Import TraceSample.

Lemma fields_apart : forall x, Obj x -> match sml_obj_enum_ptr m x with
  | Ok ps => forallb (fun a => (a =? a1) || (a + 8 <=? a1) || (a1 + 8 <=? a)) ps = true
  | _ => False
  end.
Proof. apply Obj_cases; vm_compute; reflexivity. Qed.

Lemma field_ok : write_ok m Obj a1.
Proof.
  split.
  - apply (Obj_cases (fun x => x <= a1 \/ a1 + 8 <= x - 4)); unfold a1, a2, a3; lia.
  - apply (Obj_cases (fun x => OBJ_TYPE m x = OBJTYPE_RECORD -> _)); intros H; vm_compute in H; discriminate H.
  - intros x a ps Hx Hps Ha. pose proof (fields_apart x Hx) as H. rewrite Hps in H. rewrite forallb_forall in H.
    apply list_elem_of_In in Ha. specialize (H a Ha). rewrite !orb_true_iff, Z.eqb_eq, !Z.leb_le in H. tauto.
Qed.

Lemma a3_object : a3 = 0 \/ Obj a3.
Proof. right. right. by right. Qed.
Lemma a3_word : 0 <= a3 < 2 ^ 64.
Proof. unfold a3. lia. Qed.

(** Only the object [a2] is in the snapshot, below the gray [a1]. *)
Lemma a2_retained : retained m Obj lay g0 [a1] (fun x => x = a2).
Proof.
  intros x -> _ _. right. exists a1. split; [by left|]. split; [by left|]. apply path_step.
  - apply (bool_decide_unpack _). vm_compute. exact I.
  - split; [right; by left|]. split; vm_compute; reflexivity.
Qed.
End BarrierSample.

(** ** Properties *)

(** C9. The write barrier keeps the snapshot of a running collection: [sml_write]
    succeeds, only pushes on the thread's remembered set, marks the values
    that the phase requires to be remembered, and what was marked or
    reachable from the gray objects through unmarked ones is so afterwards,
    although the overwritten field may have been the only way to it. *)
Theorem sml_write_keeps_snapshot m Obj lay (Hobj : objects_ok m Obj lay) w new g alloc phase ss gray snapshot
    (Hw : write_ok m Obj w) (Hnew : new = 0 \/ Obj new) (Hnew64 : 0 <= new < 2 ^ 64) :
  SYNC1 <= phase -> load64 m w = 0 \/ Obj (load64 m w) ->
  mark_stack m Obj lay Hobj g (remembered_set alloc) ss -> (forall s, s ∈ gray -> Obj s) ->
  retained m Obj lay g gray snapshot ->
  exists g' alloc' ss', sml_write m g alloc phase w new = Ok (store64 m w new, g', alloc') /\
    root_set alloc' = root_set alloc /\
    mark_stack (store64 m w new) Obj lay (objects_written m Obj lay w new Hw Hnew Hnew64 Hobj) g' (remembered_set alloc') ss' /\
    ss ⊆ ss' /\ retained (store64 m w new) Obj lay g' (gray ++ ss') snapshot /\
    (forall x, x ∈ remembered phase (load64 m w) new -> Obj x -> is_target m lay g x = true -> is_marked m lay g' x = true).
Proof. apply sml_write_spec. Qed.

Lemma sml_write_keeps_snapshot_witness :
  exists g' alloc' ss',
    sml_write TraceSample.m TraceSample.g0 (Allocator 0 0) MARK TraceSample.a1 TraceSample.a3 =
      Ok (store64 TraceSample.m TraceSample.a1 TraceSample.a3, g', alloc') /\
    retained (store64 TraceSample.m TraceSample.a1 TraceSample.a3) TraceSample.Obj TraceSample.lay g'
      ([TraceSample.a1] ++ ss') (fun x => x = TraceSample.a2).
Proof.
  destruct (sml_write_keeps_snapshot TraceSample.m TraceSample.Obj TraceSample.lay TraceSample.objects
    TraceSample.a1 TraceSample.a3 TraceSample.g0 (Allocator 0 0) MARK [] [TraceSample.a1] (fun x => x = TraceSample.a2)
    BarrierSample.field_ok BarrierSample.a3_object BarrierSample.a3_word) as (g' & alloc' & ss' & H1 & _ & _ & _ & H2 & _).
  - vm_compute. discriminate.
  - right. right. left. vm_compute. reflexivity.
  - exact TraceSample.stack0.
  - intros s Hs. apply list_elem_of_singleton in Hs as ->. by left.
  - exact BarrierSample.a2_retained.
  - exists g', alloc', ss'. split; [exact H1|exact H2].
Defined.
