(* ===== verification/OnTheFly.v ===== *)
(** * Marking while the program runs

    The workers of src/src/runtime/control.c in one collection, from its
    first handshake until [sml_heap_mark_finish] of heap_concurrent.c: ML
    code, write barriers, the enumeration of roots in SYNC2 and tracing in
    MARK, interleaved at the granularity of single accesses to the heap and
    to the mark bits.  The handshakes themselves are those of Control.v;
    here a phase advances when the answers it waits for are there.

    The heap is any implementation of the class [SharedHeap]; the bitmaps
    and the memory of Trace.v are one (OnTheFlyHeap.v).  The objects that
    are allocated during the collection are in it from the start, and nobody
    knows their addresses before. *)
From Stdlib Require Import ZArith Lia.
From stdpp Require Import base option list relations.
From S2P Require Import Prelude Alloc Trace TraceSpec.

Local Open Scope Z_scope.

(** Mark stacks and a memory with pointers at the [fields] of the objects,
    and at other addresses such as those of global variables. *)
Class SharedHeap (H : Type) := {
  shared_stacks :: MarkStacks H;
  sh_enum : H -> Z -> res (list Z);
  sh_load : H -> Z -> Z;
  sh_store : Z -> Z -> H -> H;
  fields : Z -> list Z;
  location : Z -> Prop;
  visit_load h x r h' a : mk_visit h x = Ok (r, h') -> sh_load h' a = sh_load h a;
  set_next_load s v h a : sh_load (mk_set_next s v h) a = sh_load h a;
  fields_location x a : object x -> a ∈ fields x -> location a;
  fields_apart x y a : object x -> object y -> a ∈ fields x -> a ∈ fields y -> x = y;
  enum_law h x : good h -> object x -> target h x = true -> sh_enum h x = Ok (fields x);
  store_law h a v : good h -> location a -> v = 0 \/ object v -> good (sh_store a v h) /\
    (forall y, object y -> target (sh_store a v h) y = target h y) /\
    (forall y, object y -> marked (sh_store a v h) y = marked h y) /\
    (forall s, mk_next (sh_store a v h) s = mk_next h s) /\
    (forall b, location b -> sh_load (sh_store a v h) b = if decide (a = b) then v else sh_load h b)
}.

(** ** Workers *)

(** What a worker is doing.  In a write, [dst] is the address to assign
    [new] to at the end; a compare-and-swap has done that already. *)
Inductive action :=
| Mutator
| Barrier (old new : Z) (dst : option Z)
| Remember (todo : list Z) (new : Z) (dst : option Z)
| UserSync2 (todo user : list Z)
| WorkerSync2 (todo : list Z)
| GlobalSync2 (todo : list Z) (loaded : option Z)
| Tracing (second : bool) (top : Z)
| TraceObj (second : bool) (top obj : Z) (todo : list Z) (loaded : option Z).

(** [roots]: the pointers on the stacks of its user threads; [globalenum]:
    GLOBALENUM_FLAG; [pending]: the object that [visit] has just marked, with
    its slot. *)
Record mark_worker := Worker {
  wphase : Z;
  globalenum : bool;
  roots : list Z;
  walloc : allocator;
  pending : option (Z * stack_slot);
  doing : action
}.
Definition set_phase (p : Z) (w : mark_worker) : mark_worker := Worker p (globalenum w) (roots w) (walloc w) (pending w) (doing w).
Definition set_roots (r : list Z) (w : mark_worker) : mark_worker := Worker (wphase w) (globalenum w) r (walloc w) (pending w) (doing w).
Definition set_doing (d : action) (w : mark_worker) : mark_worker := Worker (wphase w) (globalenum w) (roots w) (walloc w) (pending w) d.
Definition set_walloc (al : allocator) (w : mark_worker) : mark_worker := Worker (wphase w) (globalenum w) (roots w) al (pending w) (doing w).
Definition set_pending (p : option (Z * stack_slot)) (w : mark_worker) : mark_worker :=
  Worker (wphase w) (globalenum w) (roots w) (walloc w) p (doing w).
Definition clear_globalenum (w : mark_worker) : mark_worker := Worker (wphase w) false (roots w) (walloc w) (pending w) (doing w).

(** The variable [*stack_top] of [push], or the one of [remember]. *)
Definition stack_top (w : mark_worker) : Z :=
  match doing w with
  | Remember _ _ _ => remembered_set (walloc w)
  | TraceObj _ top _ _ _ => top
  | _ => root_set (walloc w)
  end.
Definition set_stack_top (x : Z) (w : mark_worker) : mark_worker :=
  match doing w with
  | Remember _ _ _ => set_walloc (Allocator (root_set (walloc w)) x) w
  | TraceObj second _ obj todo loaded => set_doing (TraceObj second x obj todo loaded) w
  | _ => set_walloc (Allocator x (remembered_set (walloc w))) w
  end.

Section Run.
Context {H : Type} `{SharedHeap H}.
(** The addresses of the global variables and the callback closures. *)
Variable globals : list Z.

Definition visit_value (h : H) (v : Z) (w : mark_worker) : res (H * mark_worker) :=
  '(slot, h) ← mk_visit h v;
  Ok (h, set_pending (match slot with Some slot => Some (v, slot) | None => None end) w).

(** The next step of a worker that is not in ML code: the rest of [push]
    and [remember], [barrier] and the assignment, [sml_heap_user_sync2],
    [worker_sync2], [sml_heap_global_sync2], [sml_heap_worker_mark] and
    [trace]. *)
Definition worker_run (h : H) (w : mark_worker) : res (H * mark_worker) :=
  match pending w with
  | Some (obj, slot) =>
      assert_that (mk_next h slot =? 0);;
      Ok (mk_set_next slot (stack_top w) h, set_pending None (set_stack_top obj w))
  | None =>
  match doing w with
  | Mutator => Fault
  | Barrier old new dst =>
      let todo := if SYNC1 <=? wphase w then if wphase w <=? SYNC2 then [new; old] else [old] else [] in
      Ok (h, set_doing (Remember todo new dst) w)
  | Remember (v :: todo) new dst => visit_value h v (set_doing (Remember todo new dst) w)
  | Remember [] new (Some a) => Ok (sh_store a new h, set_doing Mutator w)
  | Remember [] new None => Ok (h, set_doing Mutator w)
  | UserSync2 (v :: todo) user => visit_value h v (set_doing (UserSync2 todo user) w)
  | UserSync2 [] user => Ok (h, set_roots (user ++ roots w) (set_doing Mutator w))
  | WorkerSync2 (v :: todo) => visit_value h v (set_doing (WorkerSync2 todo) w)
  | WorkerSync2 [] => Ok (h, set_doing (if globalenum w then GlobalSync2 globals None else Mutator) w)
  | GlobalSync2 todo (Some v) => visit_value h v (set_doing (GlobalSync2 todo None) w)
  | GlobalSync2 (a :: todo) None => Ok (h, set_doing (GlobalSync2 todo (Some (sh_load h a))) w)
  | GlobalSync2 [] None => Ok (h, clear_globalenum (set_doing Mutator w))
  | Tracing second top =>
      if top =? 0 then
        Ok (h, if second then set_walloc (Allocator 0 0) (set_doing Mutator w)
               else set_walloc (Allocator 0 (remembered_set (walloc w))) (set_doing (Tracing true (remembered_set (walloc w))) w))
      else
        slot ← mk_slot h top;
        slot ← deref slot;
        let next := mk_next h slot in
        let h := mk_set_next slot 0 h in
        objps ← sh_enum h top;
        Ok (h, set_doing (TraceObj second next top objps None) w)
  | TraceObj second top obj todo (Some v) => visit_value h v (set_doing (TraceObj second top obj todo None) w)
  | TraceObj second top obj (a :: todo) None => Ok (h, set_doing (TraceObj second top obj todo (Some (sh_load h a))) w)
  | TraceObj second top obj [] None => Ok (h, set_doing (Tracing second top) w)
  end
  end.

(** ** The collection *)
(** [unused]: the objects not yet allocated. *)
Record collection := Collection { cheap : H; workers : list mark_worker; unused : list Z }.

(** The worker has answered the handshake of SYNC2, that of MARK. *)
Definition in_sync2 (w : mark_worker) : bool :=
  match doing w with WorkerSync2 _ | GlobalSync2 _ _ => true | _ => false end.
Definition scanned (w : mark_worker) : Prop := SYNC2 <= wphase w /\ in_sync2 w = false.
Definition tracing (w : mark_worker) : bool :=
  match doing w with Tracing _ _ | TraceObj _ _ _ _ _ => true | _ => false end.
Definition traced (w : mark_worker) : Prop := wphase w = MARK /\ tracing w = false.

(** The fields of the objects it can see, and the global variables. *)
Definition accessible (w : mark_worker) (a : Z) : Prop :=
  a ∈ globals \/ exists x, x ∈ roots w /\ x <> 0 /\ a ∈ fields x.

(** [readonly]: the fields of the constants of the program, which are not
    assigned to.  [racy] permits an assignment that runs without a barrier
    while another worker is in its barrier for the same address, and [cas]
    permits [sml_cmpswap]. *)
Variables (readonly : Z -> bool) (racy cas : bool).

Definition assigning (w : mark_worker) (a : Z) : Prop :=
  match doing w with Barrier _ _ (Some b) | Remember _ _ (Some b) => a = b | _ => False end.
Definition no_race (ws : list mark_worker) (i : nat) (w : mark_worker) : Prop :=
  wphase w < SYNC1 -> forall a, assigning w a ->
  forall j w', j <> i -> ws !! j = Some w' -> SYNC1 <= wphase w' -> ~ assigning w' a.

Inductive otf_step : collection -> collection -> Prop :=
| run_action s i w h w' :
    workers s !! i = Some w -> (racy = false -> no_race (workers s) i w) -> worker_run (cheap s) w = Ok (h, w') ->
    otf_step s (Collection h (<[i := w']> (workers s)) (unused s))
(* ML code *)
| load_field s i w a :
    workers s !! i = Some w -> doing w = Mutator -> accessible w a ->
    otf_step s (Collection (cheap s) (<[i := set_roots (sh_load (cheap s) a :: roots w) w]> (workers s)) (unused s))
| drop_roots s i w r :
    workers s !! i = Some w -> doing w = Mutator -> r ⊆ roots w ->
    otf_step s (Collection (cheap s) (<[i := set_roots r w]> (workers s)) (unused s))
| alloc_object s i w x vs :
    workers s !! i = Some w -> doing w = Mutator -> x ∈ unused s -> target (cheap s) x = (wphase w <? SYNC2) ->
    length vs = length (fields x) -> vs ⊆ 0 :: roots w ->
    otf_step s (Collection (foldr (fun '(a, v) h => sh_store a v h) (cheap s) (zip (fields x) vs))
                  (<[i := set_roots (x :: roots w) w]> (workers s)) (filter (fun y => y <> x) (unused s)))
| call_sml_write s i w a new :
    workers s !! i = Some w -> doing w = Mutator -> accessible w a -> readonly a = false -> new ∈ 0 :: roots w ->
    otf_step s (Collection (cheap s) (<[i := set_doing (Barrier (sh_load (cheap s) a) new (Some a)) w]> (workers s)) (unused s))
| call_sml_cmpswap s i w a new :
    cas = true -> workers s !! i = Some w -> doing w = Mutator -> accessible w a -> readonly a = false -> new ∈ 0 :: roots w ->
    otf_step s (Collection (sh_store a new (cheap s))
                  (<[i := set_doing (Barrier (sh_load (cheap s) a) new None) w]> (workers s)) (unused s))
(* a user thread goes from worker [j] to worker [i] *)
| move_user s i j w wj r user :
    i <> j -> workers s !! i = Some w -> workers s !! j = Some wj -> doing w = Mutator -> doing wj = Mutator ->
    r ⊆ roots wj -> user ⊆ roots wj -> wphase w < SYNC2 \/ SYNC2 < wphase w ->
    otf_step s (Collection (cheap s) (<[i := set_roots (user ++ roots w) w]> (<[j := set_roots r wj]> (workers s))) (unused s))
| enumerate_user s i j w wj r user :
    i <> j -> workers s !! i = Some w -> workers s !! j = Some wj -> doing w = Mutator -> doing wj = Mutator ->
    r ⊆ roots wj -> user ⊆ roots wj -> wphase w = SYNC2 ->
    otf_step s (Collection (cheap s) (<[i := set_doing (UserSync2 user user) w]> (<[j := set_roots r wj]> (workers s))) (unused s))
(* handshakes *)
| enter_presync1 s i w :
    workers s !! i = Some w -> wphase w = ASYNC ->
    otf_step s (Collection (cheap s) (<[i := set_phase PRESYNC1 w]> (workers s)) (unused s))
| answer_sync1 s i w :
    workers s !! i = Some w -> wphase w = PRESYNC1 -> doing w = Mutator ->
    otf_step s (Collection (cheap s) (<[i := set_phase SYNC1 w]> (workers s)) (unused s))
| enter_presync2 s i w :
    workers s !! i = Some w -> wphase w = SYNC1 -> (forall j wj, workers s !! j = Some wj -> SYNC1 <= wphase wj) ->
    otf_step s (Collection (cheap s) (<[i := set_phase PRESYNC2 w]> (workers s)) (unused s))
| answer_sync2 s i w :
    workers s !! i = Some w -> wphase w = PRESYNC2 -> doing w = Mutator ->
    otf_step s (Collection (cheap s) (<[i := set_doing (WorkerSync2 (roots w)) (set_phase SYNC2 w)]> (workers s)) (unused s))
| enter_premark s i w :
    workers s !! i = Some w -> wphase w = SYNC2 -> (forall j wj, workers s !! j = Some wj -> scanned wj) ->
    otf_step s (Collection (cheap s) (<[i := set_phase PREMARK w]> (workers s)) (unused s))
| answer_mark s i w :
    workers s !! i = Some w -> wphase w = PREMARK -> doing w = Mutator ->
    otf_step s (Collection (cheap s) (<[i := set_doing (Tracing false (root_set (walloc w))) (set_phase MARK w)]> (workers s)) (unused s))
| mark_again s i w :
    workers s !! i = Some w -> wphase w = MARK -> tracing w = false ->
    otf_step s (Collection (cheap s) (<[i := set_phase PREMARK w]> (workers s)) (unused s)).
End Run.
Arguments collection H : clear implicits.
