(* ===== verification/OnTheFlyInv.v ===== *)
(** * Marking while the program runs: the invariant

    The mark stacks of all workers are disjoint; and every object that is
    not marked, if a worker that has enumerated its roots can get at it, is
    reachable from an object on a mark stack or from a global variable still
    to be enumerated, through objects that are not marked either and through
    fields that nobody has assigned to since the roots are enumerated. *)
From Stdlib Require Import ZArith Lia.
From stdpp Require Import base option list relations.
From S2P Require Import Prelude Alloc Trace TraceSpec OnTheFly.

Local Open Scope Z_scope.

Definition upd {A} (f : nat -> A) (i : nat) (a : A) : nat -> A := fun j => if decide (j = i) then a else f j.
Lemma upd_eq {A} (f : nat -> A) i a : upd f i a i = a.
Proof. unfold upd. by rewrite decide_True. Qed.
Lemma upd_ne {A} (f : nat -> A) i j a : j <> i -> upd f i a j = f j.
Proof. intros. unfold upd. by rewrite decide_False. Qed.

(** ** Mark stacks *)

(** The mark stacks of a worker, and the objects it has marked or popped but
    not pushed or traced. *)
Definition tops (w : mark_worker) : list Z :=
  match doing w with
  | Tracing false top | TraceObj false top _ _ _ => [top; remembered_set (walloc w)]
  | Tracing true top | TraceObj true top _ _ _ => [top]
  | _ => [root_set (walloc w); remembered_set (walloc w)]
  end.
Definition cur (w : mark_worker) : list Z := match doing w with TraceObj _ _ obj _ _ => [obj] | _ => [] end.
(** Only these actions visit objects. *)
Definition visits (w : mark_worker) : bool :=
  match doing w with Mutator | Barrier _ _ _ | Tracing _ _ => false | _ => true end.
Definition pend (w : mark_worker) : list Z := match pending w with Some (x, _) => [x] | None => [] end.

Section Inv.
Context {H : Type} `{SharedHeap H}.

Record worker_stacks (h : H) (w : mark_worker) (g : list Z) : Prop := {
  ws_stacks : exists xss, Forall2 (linked_stack h) (tops w) xss /\ g = pend w ++ cur w ++ concat xss;
  ws_pending x s : pending w = Some (x, s) -> s = slot_of x /\ mk_next h s = 0;
  ws_idle : visits w = false -> pending w = None
}.

(** [gr i]: what is gray and belongs to worker [i]. *)
Record stacks_inv (h : H) (ws : list mark_worker) (gr : nat -> list Z) : Prop := {
  si_stacks i w : ws !! i = Some w -> worker_stacks h w (gr i);
  si_none i : ws !! i = None -> gr i = [];
  si_nodup i : NoDup (gr i);
  si_apart i j x : x ∈ gr i -> x ∈ gr j -> i = j;
  si_gray i x : x ∈ gr i -> object x /\ target h x = true /\ marked h x = true;
  si_clear x : object x -> white h x = true -> mk_next h (slot_of x) = 0
}.

(** The marks only grow. *)
Record marks_grow (h h' : H) : Prop := {
  mg_good : good h';
  mg_target x : object x -> target h' x = target h x;
  mg_marked x : object x -> marked h x = true -> marked h' x = true
}.

Lemma marks_grow_refl h : good h -> marks_grow h h.
Proof. by split. Qed.

Lemma white_shrinks h h' x : marks_grow h h' -> object x -> white h' x = true -> white h x = true.
Proof.
  intros [_ Ht Hm] Ho. unfold white. rewrite Ht by done. rewrite !andb_true_iff, !negb_true_iff. intros [? Hx]. split; [done|].
  apply not_true_iff_false. intros Hmx. apply Hm in Hmx; [congruence|done].
Qed.

Lemma worker_stacks_frame h h' w g : marks_grow h h' -> (forall x, x ∈ g -> mk_next h' (slot_of x) = mk_next h (slot_of x)) ->
  worker_stacks h w g -> worker_stacks h' w g.
Proof.
  intros Hmg Hn [(xss & Hl & ->) Hp Htr]. split; [| |exact Htr].
  - exists xss. split; [|done]. apply Forall2_same_length_lookup_2; [by eapply Forall2_length|].
    intros k top xs Htop Hxs. apply (linked_ext h); [by apply Hmg| |by eapply Forall2_lookup_lr].
    intros x Hx. apply Hn. rewrite !elem_of_app. right. right. apply list_elem_of_In, in_concat. exists xs.
    split; apply list_elem_of_In; [by eapply list_elem_of_lookup_2|done].
  - intros x s Hps. destruct (Hp x s Hps) as [-> Hz]. split; [done|]. rewrite Hn; [done|].
    rewrite elem_of_app. left. unfold pend. rewrite Hps. by left.
Qed.

(** One worker changes, with the slots of its own objects and of new ones. *)
Lemma stacks_update h h' ws gr i w w' g' : stacks_inv h ws gr -> ws !! i = Some w -> marks_grow h h' ->
  worker_stacks h' w' g' -> NoDup g' ->
  (forall x, x ∈ g' -> x ∈ gr i \/ white h x = true /\ object x /\ marked h' x = true) ->
  (forall x, object x -> white h' x = true -> mk_next h' (slot_of x) = 0) ->
  (forall j x, j <> i -> x ∈ gr j -> mk_next h' (slot_of x) = mk_next h (slot_of x)) ->
  stacks_inv h' (<[i := w']> ws) (upd gr i g').
Proof.
  intros Hs Hi Hmg Hws Hnd Hin Hcl Hn.
  assert (Hgray : forall x, x ∈ g' -> object x /\ target h' x = true /\ marked h' x = true).
  { intros x Hx. destruct (Hin x Hx) as [Hg|(Hw & Ho & Hm)].
    - destruct (si_gray _ _ _ Hs i x Hg) as (Ho & Ht & Hm). rewrite (mg_target _ _ Hmg) by done. split; [done|]. split; [done|].
      by apply (mg_marked _ _ Hmg).
    - rewrite (mg_target _ _ Hmg) by done. apply white_target in Hw as [? _]. done. }
  assert (Hap : forall j x, j <> i -> x ∈ g' -> x ∉ gr j).
  { intros j x Hj Hx Hxj. destruct (Hin x Hx) as [Hg|(Hw & _)].
    - apply Hj. by apply (si_apart _ _ _ Hs j i x).
    - apply white_target in Hw as [_ Hw]. destruct (si_gray _ _ _ Hs j x Hxj) as (_ & _ & ?). congruence. }
  split.
  - intros j wj Hj. destruct (decide (j = i)) as [->|Hne].
    + rewrite list_lookup_insert_eq in Hj by (by eapply lookup_lt_Some). injection Hj as <-. by rewrite upd_eq.
    + rewrite list_lookup_insert_ne in Hj by done. rewrite upd_ne by done.
      apply (worker_stacks_frame h); [done| |by apply (si_stacks _ _ _ Hs)]. intros x Hx. by apply (Hn j).
  - intros j Hj. destruct (decide (j = i)) as [->|Hne].
    + rewrite list_lookup_insert_eq in Hj by (by eapply lookup_lt_Some). done.
    + rewrite list_lookup_insert_ne in Hj by done. rewrite upd_ne by done. by apply (si_none _ _ _ Hs).
  - intros j. unfold upd. case_decide; [done|]. apply (si_nodup _ _ _ Hs).
  - intros j k x. unfold upd. repeat case_decide; subst; intros Hj Hk; [done|..|by apply (si_apart _ _ _ Hs j k x)].
    + by destruct (Hap k x).
    + by destruct (Hap j x).
  - intros j x. unfold upd. case_decide; [apply Hgray|]. intros Hx. destruct (si_gray _ _ _ Hs j x Hx) as (Ho & Ht & Hm).
    rewrite (mg_target _ _ Hmg) by done. split; [done|]. split; [done|]. by apply (mg_marked _ _ Hmg).
  - exact Hcl.
Qed.

(** A worker of which neither the stacks nor what it holds changes. *)
Lemma stacks_same h ws gr i w w' : stacks_inv h ws gr -> good h -> ws !! i = Some w ->
  tops w' = tops w -> cur w' = cur w -> pending w' = pending w -> (visits w' = false -> visits w = false) \/ pending w = None ->
  stacks_inv h (<[i := w']> ws) (upd gr i (gr i)).
Proof.
  intros Hs Hg Hi Ht Hc Hp Htr. apply (stacks_update h h ws gr i w); try done.
  - destruct (si_stacks _ _ _ Hs i w Hi) as [(xss & Hl & Heq) Hpd Htd]. split.
    + exists xss. rewrite Ht, Hc. unfold pend. by rewrite Hp.
    + by rewrite Hp.
    + intros Hv. rewrite Hp. destruct Htr as [Htr|]; [by apply Htd, Htr|done].
  - apply (si_nodup _ _ _ Hs).
  - by left.
  - apply (si_clear _ _ _ Hs).
Qed.

(** [visit] *)
Lemma visit_stacks h ws gr i w w1 v : stacks_inv h ws gr -> good h -> ws !! i = Some w -> v = 0 \/ object v ->
  pending w = None -> tops w1 = tops w -> cur w1 = cur w -> visits w1 = true ->
  exists h' p, visit_value h v w1 = Ok (h', set_pending p w1) /\ marks_grow h h' /\
    (forall a, sh_load h' a = sh_load h a) /\
    (forall x, object x -> marked h' x = marked h x || (white h v && (x =? v))) /\
    stacks_inv h' (<[i := set_pending p w1]> ws) (upd gr i (if white h v then v :: gr i else gr i)).
Proof.
  intros Hs Hg Hi Hv Hp Htops Hcur Hntr. destruct (visit_law h v Hg Hv) as (h' & Hrun & Hg' & Hm & Ht & Hn).
  fold (white h v) in *. unfold visit_value. rewrite Hrun. cbn [mbind res_bind].
  assert (Hmg : marks_grow h h') by (split; [done..|]; intros x Ho Hmx; by rewrite Hm, Hmx).
  exists h', (if white h v then Some (v, slot_of v) else None).
  split; [by destruct (white h v)|]. split; [done|]. split; [intros a; by eapply visit_load|]. split; [done|].
  destruct (si_stacks _ _ _ Hs i w Hi) as [(xss & Hl & Heq) _ _].
  assert (Hl' : Forall2 (linked_stack h') (tops w) xss).
  { apply Forall2_same_length_lookup_2; [by eapply Forall2_length|]. intros k top xs Htop Hxs.
    apply (linked_ext h); [done|intros x _; apply Hn|by eapply Forall2_lookup_lr]. }
  apply (stacks_update h h' ws gr i w); try done.
  - split.
    + exists xss. rewrite Heq. unfold pend. rewrite Hp. cbn [pending set_pending app].
      change (tops (set_pending _ w1)) with (tops w1). change (cur (set_pending _ w1)) with (cur w1). rewrite Htops, Hcur.
      by destruct (white h v).
    + intros x s. cbn [pending set_pending]. destruct (white h v) eqn:Hw; [|done]. intros [= <- <-]. split; [done|]. rewrite Hn.
      destruct Hv as [->|Hv]; [by unfold white in Hw|]. by apply (si_clear _ _ _ Hs).
    + intros Hvis. change (visits w1 = false) in Hvis. congruence.
  - destruct (white h v) eqn:Hw; [|apply (si_nodup _ _ _ Hs)]. apply NoDup_cons. split; [|apply (si_nodup _ _ _ Hs)].
    intros Hx. apply white_target in Hw as [_ Hw]. destruct (si_gray _ _ _ Hs i v Hx) as (_ & _ & ?). congruence.
  - intros x. destruct (white h v) eqn:Hw; [|by left]. intros [->|Hx]%elem_of_cons; [right|by left].
    destruct Hv as [->|Hv]; [by unfold white in Hw|]. rewrite Hm, Z.eqb_refl by done. by rewrite orb_true_r.
  - intros x Ho Hw. rewrite Hn. apply (si_clear _ _ _ Hs); [done|]. by eapply white_shrinks.
Qed.

(** The writes of a stack slot that belongs to the worker. *)
Lemma set_next_grow h s v : good h -> marks_grow h (mk_set_next s v h) /\
  (forall x, white (mk_set_next s v h) x = white h x).
Proof.
  intros Hg. destruct (set_next_law h s v Hg) as (Hg' & Ht & Hm & _). split.
  - split; [done|done|]. intros x _. by rewrite Hm.
  - intros x. unfold white. by rewrite Ht, Hm.
Qed.

Lemma next_set_other h x y v : good h -> object x -> object y -> target h x = true -> target h y = true -> x <> y ->
  mk_next (mk_set_next (slot_of x) v h) (slot_of y) = mk_next h (slot_of y).
Proof.
  intros Hg Hx Hy Htx Hty Hne. destruct (set_next_law h (slot_of x) v Hg) as (_ & _ & _ & ->).
  rewrite decide_False; [done|]. intros Heq. apply Hne. by apply (slot_inj h).
Qed.

Lemma next_set_same h x v : good h -> mk_next (mk_set_next (slot_of x) v h) (slot_of x) = v.
Proof. intros Hg. destruct (set_next_law h (slot_of x) v Hg) as (_ & _ & _ & ->). by rewrite decide_True. Qed.

Lemma linked_set_other h x v top xs : good h -> object x -> target h x = true -> x ∉ xs -> linked_stack h top xs ->
  linked_stack (mk_set_next (slot_of x) v h) top xs.
Proof.
  intros Hg Ho Ht Hx Hl. apply (linked_ext h); [| |done].
  - intros y Hy. by apply (set_next_grow h (slot_of x) v Hg).
  - intros y Hy. destruct (linked_objects _ _ _ _ Hl Hy). apply next_set_other; [done..|]. by intros ->.
Qed.

(** The object [x] goes on top. *)
Lemma linked_push h x top xs : good h -> object x -> target h x = true -> x ∉ xs -> linked_stack h top xs ->
  linked_stack (mk_set_next (slot_of x) top h) x (x :: xs).
Proof.
  intros Hg Ho Ht Hx Hl. split; [done|]. split; [done|]. destruct (set_next_law h (slot_of x) top Hg) as (_ & Ht' & _).
  split; [by rewrite Ht'|]. rewrite next_set_same by done. by apply linked_set_other.
Qed.

(** A change of the slot of one gray object of the worker. *)
Lemma slot_update h ws gr i w w' x v g' : stacks_inv h ws gr -> good h -> ws !! i = Some w -> x ∈ gr i ->
  worker_stacks (mk_set_next (slot_of x) v h) w' g' -> NoDup g' -> g' ⊆ gr i ->
  stacks_inv (mk_set_next (slot_of x) v h) (<[i := w']> ws) (upd gr i g').
Proof.
  intros Hs Hg Hi Hx Hws Hnd Hsub. destruct (si_gray _ _ _ Hs i x Hx) as (Ho & Ht & Hm).
  destruct (set_next_grow h (slot_of x) v Hg) as [Hmg Hw].
  apply (stacks_update h _ ws gr i w); try done.
  - intros y Hy. left. by apply Hsub.
  - intros y Hoy Hwy. rewrite Hw in Hwy. pose proof (white_target _ _ Hwy) as [Hty Hmy].
    rewrite next_set_other by (done || intros ->; congruence). by apply (si_clear _ _ _ Hs).
  - intros j y Hj Hy. destruct (si_gray _ _ _ Hs j y Hy) as (Hoy & Hty & Hmy).
    apply next_set_other; [done..|]. intros ->. apply Hj. by apply (si_apart _ _ _ Hs j i y).
Qed.

(** [slot->next = *stack_top; *stack_top = obj] *)
Lemma link_stacks globals h ws gr i w x s : stacks_inv h ws gr -> good h -> ws !! i = Some w -> pending w = Some (x, s) ->
  worker_run globals h w = Ok (mk_set_next s (stack_top w) h, set_pending None (set_stack_top x w)) /\ s = slot_of x /\
  exists g', g' ≡ₚ gr i /\
    stacks_inv (mk_set_next s (stack_top w) h) (<[i := set_pending None (set_stack_top x w)]> ws) (upd gr i g').
Proof.
  intros Hs Hg Hi Hp. destruct (si_stacks _ _ _ Hs i w Hi) as [(xss & Hl & Heq) Hpd Htd].
  destruct (Hpd x s Hp) as [-> Hz]. unfold worker_run. rewrite Hp, Hz. split; [done|]. split; [done|].
  assert (Hgi : gr i = x :: cur w ++ concat xss) by (unfold pend in Heq; by rewrite Hp in Heq).
  assert (Hx : x ∈ gr i) by (rewrite Hgi; by left). destruct (si_gray _ _ _ Hs i x Hx) as (Ho & Ht & _).
  pose proof (si_nodup _ _ _ Hs i) as Hnd. rewrite Hgi in Hnd. apply NoDup_cons in Hnd as [Hnx Hnd].
  rewrite elem_of_app in Hnx.
  remember (mk_set_next (slot_of x) (stack_top w) h) as h' eqn:Hh'.
  assert (Hsame : forall top xs, xs ∈ xss -> linked_stack h top xs -> linked_stack h' top xs).
  { intros top xs Hxs. rewrite Hh'. apply linked_set_other; [done..|]. intros Hin. apply Hnx. right. by apply elem_of_concat_in with xs. }
  assert (Hpush : forall xs, xs ∈ xss -> linked_stack h (stack_top w) xs -> linked_stack h' x (x :: xs)).
  { intros xs Hxs. rewrite Hh'. apply linked_push; [done..|]. intros Hin. apply Hnx. right. by apply elem_of_concat_in with xs. }
  assert (Hsplit : exists xss', concat xss' ≡ₚ x :: concat xss /\
    Forall2 (linked_stack h') (tops (set_pending None (set_stack_top x w))) xss' /\ cur (set_stack_top x w) = cur w).
  { clear Hz Heq Hgi Hnx Hnd Hh'.
    unfold visits in Htd.
    destruct (doing w) as [| | | | | |b t|b t obj todo l] eqn:Hd; try (by rewrite Htd in Hp); [..|destruct b];
      unfold tops in Hl; rewrite Hd in Hl; forall2_inv; unfold stack_top in *; rewrite Hd in *;
      unfold set_stack_top, tops, cur; rewrite Hd; cbn; rewrite ?Hd.
    1: { rename x0 into xs, x2 into ys. exists [xs; x :: ys]. rewrite !concat_cons, !app_nil_r.
         split; [by rewrite Permutation_middle|]. split; [|done].
         forall2_split; [apply Hsame|apply Hpush]; done || (rewrite !elem_of_cons; tauto). }
    all: try (rename x0 into xs; rename x2 into ys; exists [x :: xs; ys]; split; [done|]; split; [|done];
              forall2_split; [apply Hpush|apply Hsame]; done || (rewrite !elem_of_cons; tauto)).
    rename x0 into xs. exists [x :: xs]. split; [done|]. split; [|done].
    forall2_split. apply Hpush; [by left|done]. }
  destruct Hsplit as (xss' & Hperm & Hl' & Hcur). exists (cur w ++ concat xss').
  assert (Hpg : cur w ++ concat xss' ≡ₚ gr i) by (rewrite Hgi, Hperm; by rewrite Permutation_middle).
  split; [done|]. rewrite Hh' in *. apply (slot_update h ws gr i w); try done.
  - split; [|done|done]. exists xss'. split; [done|].
    change (cur (set_pending None (set_stack_top x w))) with (cur (set_stack_top x w)). by rewrite Hcur.
  - rewrite Hpg. apply (si_nodup _ _ _ Hs).
  - intros y. by rewrite Hpg.
Qed.

Lemma linked_0 h xs : linked_stack h 0 xs -> xs = [].
Proof. destruct xs as [|x xs]; [done|]. intros (<- & Ho & _). by destruct object_0. Qed.

(** [trace] takes an object from the stack. *)
Lemma pop_stacks globals h ws gr i w second top : stacks_inv h ws gr -> good h -> ws !! i = Some w ->
  doing w = Tracing second top -> top <> 0 ->
  let h' := mk_set_next (slot_of top) 0 h in
  let w' := set_doing (TraceObj second (mk_next h (slot_of top)) top (fields top) None) w in
  worker_run globals h w = Ok (h', w') /\ top ∈ gr i /\ stacks_inv h' (<[i := w']> ws) (upd gr i (gr i)).
Proof.
  intros Hs Hg Hi Hd Htop h' w'. destruct (si_stacks _ _ _ Hs i w Hi) as [(xss & Hl & Heq) _ Htd].
  assert (Hp : pending w = None) by (apply Htd; unfold visits; by rewrite Hd).
  assert (Htops : tops w = top :: (if second then [] else [remembered_set (walloc w)])) by (unfold tops; rewrite Hd; by destruct second).
  rewrite Htops in Hl. apply Forall2_cons_inv_l in Hl as (xs & xss0 & Hx & Hl & ->).
  destruct xs as [|x xs]; [by simpl in Hx|]. destruct Hx as (<- & Ho & Ht & Hx).
  assert (Hgi : gr i = top :: xs ++ concat xss0) by (rewrite Heq; unfold pend, cur; by rewrite Hp, Hd).
  assert (Hin : top ∈ gr i) by (rewrite Hgi; by left).
  pose proof (si_nodup _ _ _ Hs i) as Hnd. assert (Hnd' := Hnd). rewrite Hgi in Hnd'. apply NoDup_cons in Hnd' as [Hnx _].
  rewrite elem_of_app in Hnx. split; [|split; [done|]].
  - unfold worker_run. rewrite Hp, Hd, (proj2 (Z.eqb_neq top 0)), slot_law by done. cbn [mbind res_bind deref].
    destruct (set_next_law h (slot_of top) 0 Hg) as (Hg' & Ht' & _). rewrite enum_law by (done || by rewrite Ht'). done.
  - apply (slot_update h ws gr i w); [done..| |done|done]. split.
    + exists (xs :: xss0). split; [|rewrite Hgi; unfold pend, cur; cbn; by rewrite Hp].
      assert (Htops' : tops w' = mk_next h (slot_of top) :: (if second then [] else [remembered_set (walloc w)])) by (unfold tops, w'; by destruct second).
      rewrite Htops'. apply Forall2_cons. split; [apply linked_set_other; tauto|].
      apply Forall2_same_length_lookup_2; [by eapply Forall2_length|]. intros k t ys Hk Hys.
      apply linked_set_other; [done..| |by eapply Forall2_lookup_lr]. intros Hy. apply Hnx. right.
      apply elem_of_concat_in with ys; [by eapply list_elem_of_lookup_2|done].
    + intros x s. cbn. by rewrite Hp.
    + done.
Qed.

(** [trace] finds its stack empty. *)
Lemma trace_end_stacks globals h ws gr i w second : stacks_inv h ws gr -> good h -> ws !! i = Some w ->
  doing w = Tracing second 0 ->
  exists w', worker_run globals h w = Ok (h, w') /\
    w' = (if second then set_walloc (Allocator 0 0) (set_doing Mutator w)
          else set_walloc (Allocator 0 (remembered_set (walloc w))) (set_doing (Tracing true (remembered_set (walloc w))) w)) /\
    stacks_inv h (<[i := w']> ws) (upd gr i (gr i)).
Proof.
  intros Hs Hg Hi Hd. destruct (si_stacks _ _ _ Hs i w Hi) as [(xss & Hl & Heq) _ Htd].
  assert (Hp : pending w = None) by (apply Htd; unfold visits; by rewrite Hd). eexists. split; [unfold worker_run; by rewrite Hp, Hd|]. split; [done|].
  apply (stacks_update h h ws gr i w); try done; [|apply (si_nodup _ _ _ Hs)|by left|apply (si_clear _ _ _ Hs)].
  unfold tops in Hl. rewrite Hd in Hl. unfold pend, cur in Heq. rewrite Hp, Hd in Heq.
  destruct second; forall2_inv;
    match goal with E : linked_stack h 0 ?xs |- _ => apply linked_0 in E as -> end;
    (split; [|cbn; by rewrite Hp|done]).
  - exists [[]; []]. split; [by forall2_split|]. rewrite Heq. unfold pend. cbn. by rewrite Hp.
  - eexists [_]. split; [forall2_split; done|]. rewrite Heq. unfold pend. cbn. by rewrite Hp.
Qed.

(** [sml_obj_enum_ptr] is over. *)
Lemma trace_obj_stacks h ws gr i w second top obj todo l : stacks_inv h ws gr -> good h -> ws !! i = Some w -> pending w = None ->
  doing w = TraceObj second top obj todo l ->
  exists g', gr i = obj :: g' /\ stacks_inv h (<[i := set_doing (Tracing second top) w]> ws) (upd gr i g').
Proof.
  intros Hs Hg Hi Hp Hd. destruct (si_stacks _ _ _ Hs i w Hi) as [(xss & Hl & Heq) _ Htd].
  unfold pend, cur in Heq. rewrite Hp, Hd in Heq. exists (concat xss). split; [done|].
  pose proof (si_nodup _ _ _ Hs i) as Hnd. rewrite Heq in Hnd. cbn [app] in *. apply NoDup_cons in Hnd as [_ Hnd].
  apply (stacks_update h h ws gr i w); try done; [|intros x Hx; left; rewrite Heq; by right|apply (si_clear _ _ _ Hs)].
  split; [|cbn; by rewrite Hp|done]. exists xss. split; [|unfold pend, cur; cbn; by rewrite Hp].
  unfold tops in *. rewrite Hd in Hl. cbn. by destruct second.
Qed.
End Inv.
