(* ===== verification/OnTheFlyTri.v ===== *)
(** * Marking while the program runs: the tricolour invariant

    [prot]: what will be marked in any case; [otf_inv] is the invariant of
    the collection of OnTheFly.v, over the ghost state of the gray objects
    [gr] (OnTheFlyInv.v) and of the fields [dirty] that have been assigned
    to since every worker has its barrier on. *)
From Stdlib Require Import ZArith Lia.
From stdpp Require Import base option list relations.
From S2P Require Import Prelude Alloc Trace TraceSpec OnTheFly OnTheFlyInv.

Local Open Scope Z_scope.

Section Prot.
Context {H : Type} `{SharedHeap H}.

(** Reachable from the gray addresses [G] along clean fields, through
    objects of [W]. *)
Inductive prot (W : Z -> bool) (ld : Z -> Z) (dirty G : Z -> Prop) : Z -> Prop :=
| prot_gray a : G a -> ~ dirty a -> W (ld a) = true -> prot W ld dirty G (ld a)
| prot_field x a : prot W ld dirty G x -> a ∈ fields x -> ~ dirty a -> W (ld a) = true -> prot W ld dirty G (ld a).

Lemma prot_white W ld dirty G x : prot W ld dirty G x -> W x = true.
Proof. by destruct 1. Qed.

(** The edges between unmarked objects may only go away if their end is
    marked, and the objects that are marked become gray. *)
Lemma prot_mono W ld dirty G W' ld' dirty' G' :
  (forall a, G a -> ~ dirty a -> W (ld a) = true -> W' (ld a) = true -> G' a /\ ~ dirty' a /\ ld' a = ld a) ->
  (forall x a, prot W ld dirty G x -> a ∈ fields x -> ~ dirty a -> W (ld a) = true -> W' (ld a) = true ->
    ~ dirty' a /\ ld' a = ld a /\ (W' x = true \/ G' a)) ->
  forall x, prot W ld dirty G x -> W' x = true -> prot W' ld' dirty' G' x.
Proof.
  intros HG HF. induction 1 as [a Ha Hc Hw|x a Hx IH Ha Hc Hw]; intros Hw'.
  - destruct (HG a) as (? & ? & Heq); [done..|]. rewrite <- Heq in Hw' |- *. by apply prot_gray.
  - destruct (HF x a) as (Hd & Heq & Hcase); [done..|]. rewrite <- Heq in Hw' |- *. destruct Hcase as [Hx'|Hg].
    + apply prot_field with x; [by apply IH|done..].
    + by apply prot_gray.
Qed.
End Prot.

Section Inv.
Context {H : Type} `{SharedHeap H} (globals : list Z) (readonly : Z -> bool).

(** Null, or an allocated object; the addresses of pointers to these. *)
Definition lv (un : list Z) (v : Z) : Prop := v = 0 \/ object v /\ v ∉ un.
Definition loc (un : list Z) (a : Z) : Prop := a ∈ globals \/ exists x, object x /\ x ∉ un /\ a ∈ fields x.

Definition writes (w : mark_worker) (new : Z) (dst : option Z) : Prop :=
  new ∈ 0 :: roots w /\ match dst with Some a => accessible globals w a /\ readonly a = false | None => False end.

Record worker_live (un : list Z) (w : mark_worker) : Prop := {
  wl_roots v : v ∈ roots w -> lv un v;
  wl_doing : match doing w with
    | Mutator | Tracing _ _ => True
    | Barrier old new dst => lv un old /\ writes w new dst
    | Remember todo new dst => (forall v, v ∈ todo -> lv un v) /\ writes w new dst
    | UserSync2 todo user => (forall v, v ∈ user -> lv un v) /\ todo ⊆ user
    | WorkerSync2 todo => todo ⊆ roots w
    | GlobalSync2 todo l => todo ⊆ globals /\ forall v, l = Some v -> lv un v
    | TraceObj _ _ obj todo l => todo ⊆ fields obj /\ forall v, l = Some v -> lv un v
    end
}.

(** What is not white any more, or is still to be visited. *)
Definition done_or (h : H) (todo : list Z) (v : Z) : Prop := v ∈ todo \/ white h v = false.
(** A clean address is to be loaded, its value has been loaded, or is done. *)
Definition slot_done (h : H) (dirty : Z -> Prop) (todo : list Z) (l : option Z) (a : Z) : Prop :=
  ~ dirty a -> a ∈ todo \/ l = Some (sh_load h a) \/ white h (sh_load h a) = false.

(** Where a worker is in its action.  Before its barrier is on, it is in ML
    code or writes without a barrier. *)
Definition action_ok (h : H) (dirty : Z -> Prop) (w : mark_worker) : Prop :=
  if decide (SYNC1 <= wphase w) then
    match doing w with
    | Mutator => True
    | Barrier _ _ None | Remember _ _ None => False
    | Barrier old _ (Some a) => ~ dirty a -> done_or h [old] (sh_load h a)
    | Remember todo new (Some a) =>
        (~ dirty a -> done_or h todo (sh_load h a)) /\ (scanned w \/ done_or h todo new)
    | UserSync2 todo user => SYNC2 <= wphase w <= PREMARK /\ forall v, v ∈ user -> done_or h todo v
    | WorkerSync2 todo => wphase w = SYNC2 /\ forall v, v ∈ roots w -> done_or h todo v
    | GlobalSync2 todo l => wphase w = SYNC2 /\ globalenum w = true /\
        (forall v, v ∈ roots w -> white h v = false) /\ forall a, a ∈ globals -> slot_done h dirty todo l a
    | Tracing _ _ => SYNC2 < wphase w
    | TraceObj _ _ obj todo l => SYNC2 < wphase w /\ forall a, a ∈ fields obj -> slot_done h dirty todo l a
    end
  else match doing w with Mutator | Barrier _ _ (Some _) | Remember _ _ (Some _) => True | _ => False end.

(** The fields of the gray objects, and the global variables until they are
    enumerated. *)
Definition flagged (ws : list mark_worker) : Prop := exists i w, ws !! i = Some w /\ globalenum w = true.
Definition gslot (gr : nat -> list Z) (ws : list mark_worker) (a : Z) : Prop :=
  (exists i x, x ∈ gr i /\ a ∈ fields x) \/ a ∈ globals /\ flagged ws.
Definition safe (h : H) (dirty : Z -> Prop) (gr : nat -> list Z) (ws : list mark_worker) (v : Z) : Prop :=
  white h v = true -> prot (white h) (sh_load h) dirty (gslot gr ws) v.

Record safe_inv (h : H) (ws : list mark_worker) (un : list Z) (gr : nat -> list Z) (dirty : Z -> Prop) : Prop := {
  sf_dirty a : dirty a -> loc un a -> safe h dirty gr ws (sh_load h a);
  sf_black x a : object x -> x ∉ un -> white h x = false -> (forall i, x ∉ gr i) -> a ∈ fields x ->
    safe h dirty gr ws (sh_load h a);
  sf_globals a : ~ flagged ws -> a ∈ globals -> safe h dirty gr ws (sh_load h a);
  sf_roots i w v : ws !! i = Some w -> scanned w -> v ∈ roots w -> safe h dirty gr ws v
}.

(** Every worker has its barrier on. *)
Definition barriers_on (ws : list mark_worker) : Prop := forall i w, ws !! i = Some w -> SYNC1 <= wphase w.

(** Until then nothing has been traced, and what is not subject to the
    collection is constant. *)
Record early_inv (h : H) (ws : list mark_worker) (un : list Z) (gr : nat -> list Z) (dirty : Z -> Prop) : Prop := {
  ea_clean a : ~ dirty a;
  ea_flagged : flagged ws;
  ea_gray x : object x -> target h x = true -> marked h x = true -> exists i, x ∈ gr i;
  ea_constant x a : object x -> x ∉ un -> target h x = false -> a ∈ fields x ->
    readonly a = true /\ white h (sh_load h a) = false
}.

Record otf_inv (h : H) (ws : list mark_worker) (un : list Z) (gr : nat -> list Z) (dirty : Z -> Prop) : Prop := {
  oi_good : good h;
  oi_stacks : stacks_inv h ws gr;
  oi_unused x : x ∈ un -> object x /\ marked h x = false;
  oi_slots a : loc un a -> lv un (sh_load h a);
  oi_live i w : ws !! i = Some w -> worker_live un w;
  oi_action i w : ws !! i = Some w -> action_ok h dirty w;
  oi_sync2 i w : ws !! i = Some w -> SYNC1 < wphase w -> barriers_on ws;
  oi_mark i w : ws !! i = Some w -> SYNC2 < wphase w -> forall j wj, ws !! j = Some wj -> scanned wj;
  oi_globalenum i w : ws !! i = Some w -> scanned w -> globalenum w = false;
  oi_dirty a : dirty a \/ ~ dirty a;
  oi_early : ~ barriers_on ws -> early_inv h ws un gr dirty;
  oi_safe : barriers_on ws -> safe_inv h ws un gr dirty
}.

Lemma barriers_on_dec ws : barriers_on ws \/ ~ barriers_on ws.
Proof.
  unfold barriers_on. destruct (decide (Forall (fun w => SYNC1 <= wphase w) ws)) as [Ha|Ha].
  - left. intros i w Hi. rewrite Forall_lookup in Ha. by eapply Ha.
  - right. intros Hb. apply Ha, Forall_lookup, Hb.
Qed.

Lemma flagged_dec ws : flagged ws \/ ~ flagged ws.
Proof.
  unfold flagged. destruct (decide (Exists (fun w => globalenum w = true) ws)) as [Ha|Ha].
  - left. apply Exists_exists in Ha as (w & Hw & Hg). apply list_elem_of_lookup in Hw as [i Hi]. by exists i, w.
  - right. intros (i & w & Hi & Hg). apply Ha, Exists_exists. exists w. split; [by eapply list_elem_of_lookup_2|done].
Qed.

(** *** What the objects of the invariant are *)
Section Facts.
Context (h : H) (ws : list mark_worker) (un : list Z) (gr : nat -> list Z) (dirty : Z -> Prop).
Hypothesis Hinv : otf_inv h ws un gr dirty.

Lemma gray_allocated i x : x ∈ gr i -> object x /\ x ∉ un.
Proof.
  intros Hx. destruct (si_gray _ _ _ (oi_stacks _ _ _ _ _ Hinv) i x Hx) as (Ho & _ & Hm). split; [done|].
  intros Hu. apply (oi_unused _ _ _ _ _ Hinv) in Hu as [_ Hu]. congruence.
Qed.

Lemma gslot_loc a : gslot gr ws a -> loc un a.
Proof.
  intros [(i & x & Hx & Ha)|[Ha _]]; [right|by left]. exists x. destruct (gray_allocated i x Hx). done.
Qed.

Lemma lv_white v : lv un v -> white h v = true -> object v /\ v ∉ un.
Proof. intros [->|?] Hw; [by unfold white in Hw|done]. Qed.

Lemma prot_allocated x : prot (white h) (sh_load h) dirty (gslot gr ws) x -> object x /\ x ∉ un.
Proof.
  induction 1 as [a Ha _ Hw|x a _ [Ho Hu] Ha _ Hw]; apply lv_white; try done; apply (oi_slots _ _ _ _ _ Hinv).
  - by apply gslot_loc.
  - right. by exists x.
Qed.

Lemma accessible_loc i w a : ws !! i = Some w -> accessible globals w a -> loc un a.
Proof.
  intros Hi [Ha|(x & Hx & Hx0 & Ha)]; [by left|right]. exists x.
  destruct (wl_roots _ _ (oi_live _ _ _ _ _ Hinv i w Hi) x Hx) as [?|[? ?]]; done.
Qed.

(** The addresses that an action is about. *)
Definition uses (w : mark_worker) (b : Z) : Prop :=
  match doing w with
  | Barrier _ _ (Some a) | Remember _ _ (Some a) => b = a
  | GlobalSync2 _ _ => b ∈ globals
  | TraceObj _ _ obj _ _ => b ∈ fields obj
  | _ => False
  end.

Lemma cur_gray i w x : ws !! i = Some w -> x ∈ cur w -> x ∈ gr i.
Proof.
  intros Hi Hx. destruct (si_stacks _ _ _ (oi_stacks _ _ _ _ _ Hinv) i w Hi) as [(xss & _ & ->) _ _].
  rewrite !elem_of_app. tauto.
Qed.

Lemma uses_loc i w b : ws !! i = Some w -> uses w b -> loc un b.
Proof.
  intros Hi. unfold uses. pose proof (wl_doing _ _ (oi_live _ _ _ _ _ Hinv i w Hi)) as Hl.
  destruct (doing w) as [|? ? [?|]|? ? [?|]| | | | |? ? obj] eqn:Hd; try done.
  - intros ->. destruct Hl as (_ & _ & Hacc & _). by apply (accessible_loc i w).
  - intros ->. destruct Hl as (_ & _ & Hacc & _). by apply (accessible_loc i w).
  - by left.
  - intros Hb. right. exists obj. assert (obj ∈ gr i) as Hg by (apply (cur_gray i w); [done|]; unfold cur; rewrite Hd; by left).
    destruct (gray_allocated i obj Hg). done.
Qed.

(** The others' actions are where they were. *)
Lemma action_ok_mono h' dirty' i w : ws !! i = Some w -> marks_grow h h' ->
  (forall b, uses w b -> ~ dirty' b -> ~ dirty b /\ sh_load h' b = sh_load h b \/ white h' (sh_load h' b) = false) ->
  action_ok h' dirty' w.
Proof.
  intros Hi Hmg Hb. pose proof (oi_action _ _ _ _ _ Hinv i w Hi) as Hok. pose proof (wl_roots _ _ (oi_live _ _ _ _ _ Hinv i w Hi)) as Hroots.
  pose proof (wl_doing _ _ (oi_live _ _ _ _ _ Hinv i w Hi)) as Hl.
  assert (Hnw : forall v, lv un v -> white h v = false -> white h' v = false).
  { intros v [->|[Ho _]] Hw; [done|]. apply not_true_iff_false. intros Hw'. apply (white_shrinks h h') in Hw'; [congruence|done..]. }
  assert (Hdone : forall todo v, lv un v -> done_or h todo v -> done_or h' todo v) by (intros todo v Hv [?|?]; [by left|right; by apply Hnw]).
  assert (Hload : forall b, uses w b -> lv un (sh_load h b)) by (intros b Hu; by apply (oi_slots _ _ _ _ _ Hinv), (uses_loc i w)).
  assert (Hslot : forall todo b, uses w b -> (~ dirty b -> done_or h todo (sh_load h b)) -> ~ dirty' b -> done_or h' todo (sh_load h' b)).
  { intros todo b Hu Hd Hnd. destruct (Hb b Hu Hnd) as [[? ->]|?]; [|by right]. apply Hdone; [by apply Hload|by apply Hd]. }
  assert (Hsd : forall todo l b, uses w b -> slot_done h dirty todo l b -> slot_done h' dirty' todo l b).
  { intros todo l b Hu Hd Hnd. destruct (Hb b Hu Hnd) as [[Hnd' ->]|?]; [|tauto].
    destruct (Hd Hnd') as [?|[?|?]]; [tauto..|]. right. right. apply Hnw; [by apply Hload|done]. }
  unfold action_ok in *. case_decide; [|done]. unfold uses in *.
  destruct (doing w) as [|old new [a|]|todo new [a|]|todo user|todo|todo l|second top|second top obj todo l]; try done.
  - apply Hslot; [done|exact Hok].
  - destruct Hok as [Ha Hn]. split; [by apply Hslot|]. destruct Hn as [?|Hn]; [by left|]. right. apply Hdone; [|done].
    destruct Hl as (_ & Hnew & _). apply elem_of_cons in Hnew as [->|?]; [by left|by apply Hroots].
  - destruct Hok as [? Hn]. split; [done|]. intros v Hv. apply Hdone; [|by apply Hn]. destruct Hl as [Hl _]. by apply Hl.
  - destruct Hok as [? Hn]. split; [done|]. intros v Hv. apply Hdone; [by apply Hroots|by apply Hn].
  - destruct Hok as (? & ? & Hn & Hg). split; [done|]. split; [done|]. split; [|intros a Ha; by apply Hsd, Hg].
    intros v Hv. apply Hnw; [by apply Hroots|by apply Hn].
  - destruct Hok as (? & Hg). split; [done|]. intros a Ha. by apply Hsd, Hg.
Qed.

(** What is safe stays safe. *)
Lemma safe_mono h' ws' gr' dirty' : marks_grow h h' ->
  (forall a, loc un a -> ~ dirty a -> white h (sh_load h a) = true -> white h' (sh_load h a) = true ->
    ~ dirty' a /\ sh_load h' a = sh_load h a) ->
  (forall x, object x -> x ∉ un -> white h x = true -> white h' x = false -> exists i, x ∈ gr' i) ->
  (forall a, gslot gr ws a -> ~ dirty a -> white h' (sh_load h a) = true -> gslot gr' ws' a) ->
  forall v, lv un v -> safe h dirty gr ws v -> safe h' dirty' gr' ws' v.
Proof.
  intros Hmg Hld Hgray Hg v Hv Hs Hw'.
  assert (Hw : white h v = true).
  { destruct Hv as [->|[Ho _]]; [by unfold white in Hw'|by apply (white_shrinks h h')]. }
  apply (prot_mono (white h) (sh_load h) dirty (gslot gr ws)); [| |by apply Hs|done].
  - intros a Ha Hc Hwa Hwa'. destruct (Hld a) as [? ?]; [by apply gslot_loc|done..|].
    split; [by apply Hg|done].
  - intros x a Hx Ha Hc Hwa Hwa'. destruct (prot_allocated x Hx) as [Ho Hu].
    destruct (Hld a) as [? ?]; [right; by exists x|done..|]. split; [done|]. split; [done|].
    destruct (white h' x) eqn:Hwx; [by left|right]. left. apply prot_white in Hx.
    destruct (Hgray x Ho Hu Hx Hwx) as [i Hi]. by exists i, x.
Qed.

Lemma gray_dec x : (exists i, x ∈ gr i) \/ forall i, x ∉ gr i.
Proof.
  destruct (decide (Exists (fun i => x ∈ gr i) (seq 0 (length ws)))) as [Ha|Ha].
  - left. apply Exists_exists in Ha as (i & _ & Hi). by exists i.
  - right. intros i Hi. apply Ha, Exists_exists. exists i. split; [|done]. apply elem_of_seq.
    destruct (decide (i < length ws)%nat); [lia|]. rewrite (si_none _ _ _ (oi_stacks _ _ _ _ _ Hinv)) in Hi; [by apply elem_of_nil in Hi|].
    apply lookup_ge_None. lia.
Qed.

(** A field of an object that a worker can see. *)
Lemma load_safe x a : safe_inv h ws un gr dirty -> object x -> x ∉ un -> safe h dirty gr ws x -> a ∈ fields x ->
  safe h dirty gr ws (sh_load h a).
Proof.
  intros Hs Ho Hu Hx Ha Hw. destruct (oi_dirty _ _ _ _ _ Hinv a) as [Hd|Hd]; [apply (sf_dirty _ _ _ _ _ Hs); [done|right; by exists x|done]|].
  destruct (white h x) eqn:Hwx; [by apply prot_field with x; [apply Hx|..]|].
  destruct (gray_dec x) as [[i Hi]|Hn]; [apply prot_gray; [left; by exists i, x|done..]|].
  by apply (sf_black _ _ _ _ _ Hs x a).
Qed.

Lemma global_safe a : safe_inv h ws un gr dirty -> a ∈ globals -> safe h dirty gr ws (sh_load h a).
Proof.
  intros Hs Ha Hw. destruct (oi_dirty _ _ _ _ _ Hinv a) as [Hd|Hd]; [apply (sf_dirty _ _ _ _ _ Hs); [done|by left|done]|].
  destruct (flagged_dec ws) as [Hf|Hf]; [apply prot_gray; [by right|done..]|]. by apply (sf_globals _ _ _ _ _ Hs).
Qed.
End Facts.
End Inv.
