(* ===== verification/OnTheFlySteps.v ===== *)
(** * Marking while the program runs: the steps

    Every step of OnTheFly.v keeps the invariant of OnTheFlyTri.v, and no
    step of an action fails. *)
From Stdlib Require Import ZArith Lia.
From stdpp Require Import base option list relations.
From S2P Require Import Prelude Alloc Trace TraceSpec OnTheFly OnTheFlyInv OnTheFlyTri.

Local Open Scope Z_scope.

Section Steps.
Context {H : Type} `{SharedHeap H} (globals : list Z) (readonly : Z -> bool).
Notation inv := (otf_inv globals readonly).
Notation live := (worker_live globals readonly).

Lemma lookup_insert_cases (ws : list mark_worker) i j w wj :
  <[i := w]> ws !! j = Some wj -> j = i /\ wj = w \/ j <> i /\ ws !! j = Some wj.
Proof.
  destruct (decide (j = i)) as [->|Hne]; [|rewrite list_lookup_insert_ne by done; by right].
  intros Hj. rewrite list_lookup_insert_eq in Hj; [left; by injection Hj as <-|].
  apply lookup_lt_Some in Hj. by rewrite length_insert in Hj.
Qed.

Section Update.
Context (h : H) (ws : list mark_worker) (un : list Z) (gr : nat -> list Z) (dirty : Z -> Prop) (i : nat) (w : mark_worker).
Hypothesis Hinv : inv h ws un gr dirty.
Hypothesis Hi : ws !! i = Some w.

Lemma barriers_on_insert w' : wphase w' = wphase w -> barriers_on (<[i := w']> ws) <-> barriers_on ws.
Proof.
  intros Hp. split.
  - intros Hb j wj Hj. destruct (decide (j = i)) as [->|Hne].
    + assert (wj = w) as -> by congruence. rewrite <- Hp. apply (Hb i). apply list_lookup_insert_eq. by eapply lookup_lt_Some.
    + apply (Hb j). by rewrite list_lookup_insert_ne.
  - intros Hb j wj Hj. apply lookup_insert_cases in Hj as [[-> ->]|[_ Hj]]; [rewrite Hp; by apply (Hb i)|by apply (Hb j)].
Qed.

Lemma flagged_insert w' : globalenum w' = globalenum w -> flagged (<[i := w']> ws) <-> flagged ws.
Proof.
  intros Hp. split.
  - intros (j & wj & Hj & Hg). apply lookup_insert_cases in Hj as [[-> ->]|[_ Hj]]; [exists i, w; by rewrite <- Hp|by exists j, wj].
  - intros (j & wj & Hj & Hg). destruct (decide (j = i)) as [->|Hne].
    + assert (wj = w) as -> by congruence. exists i, w'. rewrite list_lookup_insert_eq by (by eapply lookup_lt_Some). by rewrite Hp.
    + exists j, wj. by rewrite list_lookup_insert_ne.
Qed.

(** One worker goes on; the fields stay as they are, the marks may grow. *)
Section Change.
Context (h' : H) (w' : mark_worker) (g' : list Z).
Let ws' := <[i := w']> ws.
Let gr' := upd gr i g'.
Let done_fields x := forall a, a ∈ fields x -> ~ dirty a -> white h (sh_load h a) = false.
Hypothesis Hmg : marks_grow h h'.
Hypothesis Hld : forall a, sh_load h' a = sh_load h a.
Hypothesis Hst : stacks_inv h' ws' gr'.
Hypothesis Hlive : live un w'.
Hypothesis Hact : action_ok globals h' dirty w'.
Hypothesis Hph : wphase w' = wphase w.
Hypothesis Hsc : scanned w -> scanned w'.
Hypothesis Hge : scanned w' -> globalenum w' = false.
Hypothesis Hun : forall x, x ∈ un -> marked h' x = false.
Hypothesis Hnew : forall x, object x -> marked h x = false -> marked h' x = true -> x ∈ g'.
Hypothesis Hold : forall x, x ∈ gr i -> x ∉ g' -> SYNC2 < wphase w /\ done_fields x.
Hypothesis Hglob : globalenum w' = globalenum w \/ SYNC2 <= wphase w /\
  forall a, a ∈ globals -> ~ dirty a -> white h (sh_load h a) = false.
Hypothesis Hroots : barriers_on ws -> scanned w' -> forall v, v ∈ roots w' ->
  scanned w /\ v ∈ roots w \/ white h v = false \/ safe globals h dirty gr ws v.

Lemma change_barriers : SYNC2 <= wphase w -> barriers_on ws.
Proof. intros Hp. apply (oi_sync2 _ _ _ _ _ _ _ Hinv i w Hi). unfold SYNC1, SYNC2 in *. lia. Qed.

Lemma change_nonwhite v : lv un v -> white h v = false -> white h' v = false.
Proof.
  intros [->|[Ho _]] Hw; [done|]. apply not_true_iff_false. intros Hw'. apply (white_shrinks h h') in Hw'; [congruence|done..].
Qed.

Lemma change_gray x j : x ∈ gr j -> (exists k, x ∈ gr' k) \/ SYNC2 < wphase w /\ done_fields x.
Proof.
  intros Hx. destruct (decide (j = i)) as [->|Hne]; [|left; exists j; unfold gr'; by rewrite upd_ne].
  destruct (decide (x ∈ g')); [left; exists i; unfold gr'; by rewrite upd_eq|]. right. by apply Hold.
Qed.

Lemma change_new x : object x -> marked h x = false -> marked h' x = true -> exists k, x ∈ gr' k.
Proof. intros Ho Hm Hm'. exists i. unfold gr'. rewrite upd_eq. by apply Hnew. Qed.

Lemma change_new_white x : object x -> white h x = true -> white h' x = false -> exists k, x ∈ gr' k.
Proof.
  intros Ho Hw Hw'. assert (Hm := white_target _ _ Hw). apply change_new; [done|tauto|].
  unfold white in Hw, Hw'. rewrite (mg_target _ _ Hmg) in Hw' by done. apply andb_true_iff in Hw as [Hw _]. rewrite Hw in Hw'.
  by apply negb_false_iff in Hw'.
Qed.

Lemma change_gslot a : gslot globals gr ws a -> ~ dirty a -> white h' (sh_load h a) = true -> gslot globals gr' ws' a.
Proof.
  intros Ha Hc Hw'. assert (Hlv : lv un (sh_load h a)) by (apply (oi_slots _ _ _ _ _ _ _ Hinv); by eapply gslot_loc).
  assert (Hw : white h (sh_load h a) <> false) by (intros Hw; rewrite (change_nonwhite _ Hlv Hw) in Hw'; done).
  destruct Ha as [(j & x & Hx & Ha)|[Ha Hf]].
  - left. destruct (change_gray x j Hx) as [[k Hk]|[_ Hd]]; [by exists k, x|by destruct Hw; apply Hd].
  - right. split; [done|]. destruct Hglob as [Heq|[_ Hd]]; [by apply (flagged_insert _)|by destruct Hw; apply Hd].
Qed.

Lemma change_safe v : lv un v -> safe globals h dirty gr ws v -> safe globals h' dirty gr' ws' v.
Proof.
  apply (safe_mono globals readonly h ws un gr dirty Hinv); [done|by intros a _ ?|..].
  - intros x Ho _. by apply change_new_white.
  - apply change_gslot.
Qed.

Lemma change_nonwhite_safe v : lv un v -> white h v = false -> safe globals h' dirty gr' ws' v.
Proof. intros Hv Hw Hw'. by rewrite (change_nonwhite v Hv Hw) in Hw'. Qed.

Lemma change_early : early_inv readonly h ws un gr dirty -> ~ barriers_on ws ->
  early_inv readonly h' ws' un gr' dirty.
Proof.
  intros [H1 H2 H3 H4] Hnb. split; [done|..].
  - destruct Hglob as [Heq|[Hp _]]; [by apply (flagged_insert _)|by destruct Hnb; apply change_barriers].
  - intros x Ho Ht Hm. destruct (marked h x) eqn:Hmx; [|by apply change_new].
    destruct (H3 x) as [j Hj]; [done| |done|].
    + by rewrite <- (mg_target _ _ Hmg).
    + destruct (change_gray x j Hj) as [?|[Hp _]]; [done|]. destruct Hnb. apply change_barriers. lia.
  - intros x a Ho Hu Ht Ha. rewrite (mg_target _ _ Hmg) in Ht by done. destruct (H4 x a) as [? Hw]; [done..|]. split; [done|].
    rewrite Hld. apply change_nonwhite; [|done]. apply (oi_slots _ _ _ _ _ _ _ Hinv). right. by exists x.
Qed.

Lemma change_safe_inv : barriers_on ws -> safe_inv globals h ws un gr dirty -> safe_inv globals h' ws' un gr' dirty.
Proof.
  intros Hb [H1 H2 H3 H4].
  assert (Hslots := oi_slots _ _ _ _ _ _ _ Hinv). split.
  - intros a Hd Ha. rewrite Hld. apply change_safe; [by apply Hslots|by apply H1].
  - intros x a Ho Hu Hw Hg Ha. rewrite Hld. assert (Hlv : lv un (sh_load h a)) by (apply Hslots; right; by exists x).
    destruct (white h x) eqn:Hwx; [by destruct (change_new_white x) as [k Hk]; [..|by destruct (Hg k)]|].
    destruct (gray_dec globals readonly h ws un gr dirty Hinv x) as [[j Hj]|Hn].
    + destruct (change_gray x j Hj) as [[k Hk]|[_ Hd]]; [by destruct (Hg k)|].
      destruct (oi_dirty _ _ _ _ _ _ _ Hinv a); [apply change_safe; [done|apply H1; [done|right; by exists x]]|].
      apply change_nonwhite_safe; [done|by apply Hd].
    + apply change_safe; [done|]. by apply (H2 x).
  - intros a Hf Ha. rewrite Hld. assert (Hlv : lv un (sh_load h a)) by (apply Hslots; by left).
    destruct (oi_dirty _ _ _ _ _ _ _ Hinv a); [apply change_safe; [done|apply H1; [done|by left]]|].
    destruct Hglob as [Heq|[_ Hd]]; [|apply change_nonwhite_safe; [done|by apply Hd]].
    apply change_safe; [done|]. apply H3; [|done]. intros Hf'. apply Hf. by apply (flagged_insert _).
  - intros j wj v Hj Hs Hv. apply lookup_insert_cases in Hj as [[-> ->]|[_ Hj]].
    + assert (Hlv : lv un v) by (by apply (wl_roots _ _ _ _ Hlive)).
      destruct (Hroots Hb Hs v Hv) as [[? ?]|[?|?]]; [|by apply change_nonwhite_safe|by apply change_safe].
      apply change_safe; [done|]. by apply (H4 i w).
    + apply change_safe; [|by apply (H4 j wj)]. by apply (wl_roots _ _ _ _ (oi_live _ _ _ _ _ _ _ Hinv j wj Hj)).
Qed.

Lemma inv_update : inv h' ws' un gr' dirty.
Proof.
  split.
  - apply Hmg.
  - exact Hst.
  - intros x Hx. split; [by apply (oi_unused _ _ _ _ _ _ _ Hinv)|by apply Hun].
  - intros a Ha. rewrite Hld. by apply (oi_slots _ _ _ _ _ _ _ Hinv).
  - intros j wj Hj. apply lookup_insert_cases in Hj as [[-> ->]|[_ Hj]]; [done|by apply (oi_live _ _ _ _ _ _ _ Hinv j)].
  - intros j wj Hj. apply lookup_insert_cases in Hj as [[-> ->]|[_ Hj]]; [done|].
    apply (action_ok_mono globals readonly h ws un gr dirty Hinv h' dirty j); [done..|]. intros b _ Hb. left. by split.
  - intros j wj Hj Hp. apply barriers_on_insert; [done|]. apply lookup_insert_cases in Hj as [[-> ->]|[_ Hj]].
    + rewrite Hph in Hp. by apply (oi_sync2 _ _ _ _ _ _ _ Hinv i w).
    + by apply (oi_sync2 _ _ _ _ _ _ _ Hinv j wj).
  - assert (Hall : (exists k wk, ws !! k = Some wk /\ SYNC2 < wphase wk) -> forall j wj, ws' !! j = Some wj -> scanned wj).
    { intros (k & wk & Hk & Hp) j wj Hj. pose proof (oi_mark _ _ _ _ _ _ _ Hinv k wk Hk Hp) as Hm.
      apply lookup_insert_cases in Hj as [[-> ->]|[_ Hj]]; [by apply Hsc, (Hm i)|by apply (Hm j)]. }
    intros j wj Hj Hp. apply Hall. apply lookup_insert_cases in Hj as [[-> ->]|[_ Hj]]; [exists i, w; by rewrite <- Hph|by exists j, wj].
  - intros j wj Hj Hs. apply lookup_insert_cases in Hj as [[-> ->]|[_ Hj]]; [by apply Hge|by apply (oi_globalenum _ _ _ _ _ _ _ Hinv j)].
  - apply (oi_dirty _ _ _ _ _ _ _ Hinv).
  - intros Hb. unfold ws' in Hb. rewrite barriers_on_insert in Hb by done. apply change_early; [by apply (oi_early _ _ _ _ _ _ _ Hinv)|done].
  - intros Hb. unfold ws' in Hb. rewrite barriers_on_insert in Hb by done. apply change_safe_inv; [done|by apply (oi_safe _ _ _ _ _ _ _ Hinv)].
Qed.
End Change.

Lemma live_same w1 w2 : roots w2 = roots w1 -> doing w2 = doing w1 -> live un w1 -> live un w2.
Proof.
  intros Hr Hd [H1 H2]. split; [by rewrite Hr|]. rewrite Hd. unfold writes, accessible in *. by rewrite Hr.
Qed.

Lemma action_same h' dirty' w1 w2 : wphase w2 = wphase w1 -> globalenum w2 = globalenum w1 -> roots w2 = roots w1 -> doing w2 = doing w1 ->
  action_ok globals h' dirty' w1 -> action_ok globals h' dirty' w2.
Proof. intros Hp Hg Hr Hd. unfold action_ok, scanned, in_sync2. by rewrite Hp, Hg, Hr, Hd. Qed.

Lemma scanned_same w1 w2 : wphase w2 = wphase w1 -> in_sync2 w2 = in_sync2 w1 -> scanned w1 -> scanned w2.
Proof. unfold scanned. by intros -> ->. Qed.

(** Only the worker's own variables change. *)
Lemma pure_inv w' : tops w' = tops w -> cur w' = cur w -> pending w' = pending w -> (visits w' = false -> visits w = false) \/ pending w = None ->
  wphase w' = wphase w -> globalenum w' = globalenum w -> live un w' -> action_ok globals h dirty w' ->
  (scanned w -> scanned w') -> (scanned w' -> globalenum w' = false) ->
  (barriers_on ws -> scanned w' -> forall v, v ∈ roots w' ->
    scanned w /\ v ∈ roots w \/ white h v = false \/ safe globals h dirty gr ws v) ->
  inv h (<[i := w']> ws) un (upd gr i (gr i)) dirty.
Proof.
  intros. apply (inv_update h w' (gr i)); try done.
  - apply marks_grow_refl, Hinv.
  - apply (stacks_same h ws gr i w); [apply Hinv..|done|done|done|done|done].
  - intros x Hx. by apply (oi_unused _ _ _ _ _ _ _ Hinv).
  - congruence.
  - by left.
Qed.

Definition run_ok : Prop :=
  exists h' w', worker_run globals h w = Ok (h', w') /\ exists gr' dirty', inv h' (<[i := w']> ws) un gr' dirty'.

(** The object that was visited goes on its stack. *)
Lemma run_link x s : pending w = Some (x, s) -> run_ok.
Proof.
  intros Hp. assert (Hg := oi_good _ _ _ _ _ _ _ Hinv).
  destruct (link_stacks globals h ws gr i w x s) as (Hrun & -> & g' & Hperm & Hst); [apply Hinv|done..|].
  set (w' := set_pending None (set_stack_top x w)) in *.
  destruct (set_next_grow h (slot_of x) (stack_top w) Hg) as [Hmg Hw]. destruct (set_next_law h (slot_of x) (stack_top w) Hg) as (_ & _ & Hm & _).
  assert (Hsame : wphase w' = wphase w /\ globalenum w' = globalenum w /\ roots w' = roots w /\ in_sync2 w' = in_sync2 w)
    by (unfold w', set_stack_top, in_sync2; by destruct (doing w) eqn:Hd; cbn; rewrite ?Hd).
  destruct Hsame as (Hph & Hge & Hr & Hs2).
  assert (Hsc : scanned w' <-> scanned w) by (unfold scanned; by rewrite Hph, Hs2).
  assert (Hl := oi_live _ _ _ _ _ _ _ Hinv i w Hi).
  assert (Hok : action_ok globals (mk_set_next (slot_of x) (stack_top w) h) dirty w).
  { apply (action_ok_mono _ _ _ _ _ _ _ Hinv _ _ i); [done..|]. intros b _ Hb. left. split; [done|apply set_next_load]. }
  do 2 eexists. split; [exact Hrun|]. do 2 eexists. apply (inv_update _ _ g' Hmg); try done.
  - intros a. apply set_next_load.
  - destruct Hl as [Hl1 Hl2]. split; [by rewrite Hr|]. unfold writes, accessible in *. rewrite Hr.
    unfold w', set_stack_top. by destruct (doing w) eqn:Hd; cbn; rewrite ?Hd.
  - unfold action_ok in *. rewrite Hph. unfold scanned in *. rewrite Hph, Hge, Hr, Hs2.
    unfold w', set_stack_top. by destruct (doing w) eqn:Hd; cbn; rewrite ?Hd.
  - apply Hsc.
  - intros Hs. rewrite Hge. apply (oi_globalenum _ _ _ _ _ _ _ Hinv i w Hi). by apply Hsc.
  - intros y Hy. rewrite Hm. by apply (oi_unused _ _ _ _ _ _ _ Hinv).
  - intros y _. rewrite Hm. congruence.
  - intros y Hy Hn. destruct Hn. by rewrite Hperm.
  - by left.
  - intros _ Hs v Hv. left. split; [by apply Hsc|by rewrite <- Hr].
Qed.

Hypothesis Hp : pending w = None.

(** The value [v] is visited. *)
Lemma visit_inv w1 v : tops w1 = tops w -> cur w1 = cur w -> visits w1 = true ->
  wphase w1 = wphase w -> globalenum w1 = globalenum w -> roots w1 = roots w -> in_sync2 w1 = in_sync2 w ->
  lv un v -> live un w1 ->
  (forall h', marks_grow h h' -> (forall a, sh_load h' a = sh_load h a) -> white h' v = false -> action_ok globals h' dirty w1) ->
  exists h' p, visit_value h v w1 = Ok (h', set_pending p w1) /\
    exists g', inv h' (<[i := set_pending p w1]> ws) un (upd gr i g') dirty.
Proof.
  intros Ht Hc Hntr Hph Hge Hr Hs2 Hv Hl Hact.
  destruct (visit_stacks h ws gr i w w1 v) as (h' & p & Hrun & Hmg & Hld & Hm & Hst); try done; [apply Hinv..|by destruct Hv; tauto|].
  exists h', p. split; [done|]. eexists.
  assert (Hwv : white h v = true -> object v /\ v ∉ un) by (intros Hw; by apply (lv_white h un)).
  assert (Hdone : white h' v = false).
  { unfold white. destruct (Z.eqb_spec v 0) as [|Hv0]; [done|]. destruct Hv as [|[Ho Hu]]; [done|]. rewrite (mg_target _ _ Hmg), Hm by done.
    rewrite Z.eqb_refl. unfold white. rewrite (proj2 (Z.eqb_neq v 0)) by done. cbn. by destruct (target h v), (marked h v). }
  assert (Hsc : forall w2, wphase w2 = wphase w1 -> in_sync2 w2 = in_sync2 w1 -> scanned w2 <-> scanned w)
    by (intros w2 E1 E2; unfold scanned; by rewrite E1, E2, Hph, Hs2).
  apply (inv_update h' (set_pending p w1)); try done.
  - by apply (live_same w1).
  - apply (action_same h' dirty w1); [done..|]. by apply Hact.
  - by apply Hsc.
  - intros Hs. change (globalenum w1 = false). rewrite Hge. apply (oi_globalenum _ _ _ _ _ _ _ Hinv i w Hi). by apply (Hsc (set_pending p w1)).
  - intros x Hx. destruct (oi_unused _ _ _ _ _ _ _ Hinv x Hx) as [Ho Hmx]. rewrite Hm, Hmx by done. cbn.
    destruct (white h v) eqn:Hw; [|done]. cbn. apply Z.eqb_neq. intros ->. by destruct (Hwv eq_refl).
  - intros x Ho Hmx Hmx'. rewrite Hm, Hmx in Hmx' by done. apply andb_true_iff in Hmx' as [-> ->%Z.eqb_eq]. by left.
  - intros x Hx Hn. destruct Hn. destruct (white h v); [by right|done].
  - by left.
  - intros _ Hs x Hx. left. split; [by apply (Hsc (set_pending p w1))|]. change (x ∈ roots w1) in Hx. by rewrite <- Hr.
Qed.

Lemma pure_run w' : worker_run globals h w = Ok (h, w') ->
  tops w' = tops w -> cur w' = cur w -> pending w' = pending w ->
  wphase w' = wphase w -> globalenum w' = globalenum w -> live un w' -> action_ok globals h dirty w' ->
  (scanned w -> scanned w') -> (scanned w' -> globalenum w' = false) ->
  (barriers_on ws -> scanned w' -> forall v, v ∈ roots w' ->
    scanned w /\ v ∈ roots w \/ white h v = false \/ safe globals h dirty gr ws v) -> run_ok.
Proof. intros. exists h, w'. split; [done|]. do 2 eexists. apply pure_inv; auto. Qed.

Lemma visit_run w1 v : worker_run globals h w = visit_value h v w1 ->
  tops w1 = tops w -> cur w1 = cur w -> visits w1 = true ->
  wphase w1 = wphase w -> globalenum w1 = globalenum w -> roots w1 = roots w -> in_sync2 w1 = in_sync2 w ->
  lv un v -> live un w1 ->
  (forall h', marks_grow h h' -> (forall a, sh_load h' a = sh_load h a) -> white h' v = false -> action_ok globals h' dirty w1) ->
  run_ok.
Proof.
  intros Hrun. intros. destruct (visit_inv w1 v) as (h' & p & Hv & g' & Hg'); try done.
  exists h', (set_pending p w1). split; [by rewrite Hrun|]. by do 2 eexists.
Qed.

Lemma done_or_visit h' v todo x : marks_grow h h' -> lv un x -> white h' v = false -> done_or h (v :: todo) x -> done_or h' todo x.
Proof.
  intros Hmg Hx Hv [[->|?]%elem_of_cons|Hw]; [by right|by left|right]. by apply change_nonwhite.
Qed.

Lemma slot_done_visit h' v todo a : marks_grow h h' -> (forall b, sh_load h' b = sh_load h b) -> loc globals un a -> white h' v = false ->
  slot_done h dirty todo (Some v) a -> slot_done h' dirty todo None a.
Proof.
  intros Hmg Hld Ha Hv Hs Hd. rewrite Hld. destruct (Hs Hd) as [?|[[= ->]|Hw]]; [by left|by right; right|right; right].
  apply change_nonwhite; [done| |done]. by apply (oi_slots _ _ _ _ _ _ _ Hinv).
Qed.

Lemma slot_done_load todo a b : slot_done h dirty (b :: todo) None a -> slot_done h dirty todo (Some (sh_load h b)) a.
Proof. intros Hs Hd. destruct (Hs Hd) as [[->|?]%elem_of_cons|[?|?]]; naive_solver. Qed.

Let Hl := oi_live _ _ _ _ _ _ _ Hinv i w Hi.
Let Hok := oi_action _ _ _ _ _ _ _ Hinv i w Hi.

Lemma run_barrier old new dst : doing w = Barrier old new dst -> run_ok.
Proof.
  intros Hd. destruct Hl as [Hlr Hld]. rewrite Hd in Hld. destruct Hld as (Hold & Hw). assert (Hw' := Hw). destruct Hw' as [Hnew Hdst].
  destruct dst as [a|]; [|done]. unfold action_ok in Hok. rewrite Hd in Hok.
  eapply pure_run; [unfold worker_run; by rewrite Hp, Hd|unfold tops, cur, pending; simpl; try (by rewrite ?Hd)..| | | | |].
  - split; [done|]. split; [|done]. intros v Hv.
    assert (v = new \/ v = old) as [->| ->] by (repeat case_match; set_solver); [|done].
    apply elem_of_cons in Hnew as [->|?]; [by left|by apply Hlr].
  - unfold action_ok. simpl. case_decide as Hph; [|done]. rewrite (proj2 (Z.leb_le _ _)) by done.
    split; [|destruct (Z.leb_spec (wphase w) SYNC2); [right; left; by left|left; split; [simpl; lia|done]]].
    intros Hnd. destruct (Hok Hnd) as [Hx|?]; [|by right]. left. apply list_elem_of_singleton in Hx as ->. case_match; set_solver.
  - intros [? _]. done.
  - intros [? _]. apply (oi_globalenum _ _ _ _ _ _ _ Hinv i w Hi). split; [done|]. unfold in_sync2. by rewrite Hd.
  - intros _ [Hs _] v Hv. left. split; [|done]. split; [done|]. unfold in_sync2. by rewrite Hd.
Qed.

(** What a step leaves alone, by computation. *)
Local Ltac by_action Hd :=
  first [ done | unfold worker_run; rewrite Hp, Hd; first [done | match goal with |- context [match ?t with _ => _ end] => is_var t; by destruct t end]
        | unfold tops; by rewrite Hd | unfold cur; by rewrite Hd | unfold in_sync2; by rewrite Hd ].

(** A value is visited by ... *)
Lemma run_remember v todo new dst : doing w = Remember (v :: todo) new dst -> run_ok.
Proof.
  intros Hd. destruct Hl as [Hlr Hld]. rewrite Hd in Hld. destruct Hld as (Htodo & Hw). assert (Hw' := Hw). destruct Hw' as [Hnew Hdst].
  destruct dst as [a|]; [|done]. unfold action_ok in Hok. rewrite Hd in Hok.
  apply (visit_run (set_doing (Remember todo new (Some a)) w) v); try by_action Hd.
  - apply Htodo. by left.
  - split; [done|]. split; [|done]. intros x Hx. apply Htodo. by right.
  - intros h' Hmg Hloads Hv. unfold action_ok. simpl. case_decide; [|done]. destruct Hok as [Ha Hn]. split.
    + intros Hnd. rewrite Hloads. apply (done_or_visit h' v); [done| |done|by apply Ha].
      apply (oi_slots _ _ _ _ _ _ _ Hinv). apply (accessible_loc _ _ _ _ _ _ _ Hinv i w); [done|apply Hdst].
    + destruct Hn as [[Hs _]|Hn]; [left; split; [done|done]|]. right. apply (done_or_visit h' v); try done.
      apply elem_of_cons in Hnew as [->|?]; [by left|by apply Hlr].
Qed.

Lemma run_user v todo user : doing w = UserSync2 (v :: todo) user -> run_ok.
Proof.
  intros Hd. destruct Hl as [Hlr Hld]. rewrite Hd in Hld. destruct Hld as (Huser & Htodo).
  unfold action_ok in Hok. rewrite Hd in Hok.
  apply (visit_run (set_doing (UserSync2 todo user) w) v); try by_action Hd.
  - apply Huser, Htodo. by left.
  - split; [done|]. split; [done|]. set_solver.
  - intros h' Hmg Hloads Hv. unfold action_ok. simpl. case_decide; [|done]. destruct Hok as [? Ha]. split; [done|].
    intros x Hx. apply (done_or_visit h' v); try done; [by apply Huser|by apply Ha].
Qed.

Lemma run_worker v todo : doing w = WorkerSync2 (v :: todo) -> run_ok.
Proof.
  intros Hd. destruct Hl as [Hlr Hld]. rewrite Hd in Hld. unfold action_ok in Hok. rewrite Hd in Hok.
  apply (visit_run (set_doing (WorkerSync2 todo) w) v); try by_action Hd.
  - apply Hlr, Hld. by left.
  - split; [done|]. simpl. set_solver.
  - intros h' Hmg Hloads Hv. unfold action_ok. simpl. case_decide; [|done]. destruct Hok as [? Ha]. split; [done|].
    intros x Hx. apply (done_or_visit h' v); try done; [by apply Hlr|by apply Ha].
Qed.

Lemma run_globals v todo : doing w = GlobalSync2 todo (Some v) -> run_ok.
Proof.
  intros Hd. destruct Hl as [Hlr Hld]. rewrite Hd in Hld. destruct Hld as [Htodo Hlv]. unfold action_ok in Hok. rewrite Hd in Hok.
  apply (visit_run (set_doing (GlobalSync2 todo None) w) v); try by_action Hd.
  - by apply Hlv.
  - intros h' Hmg Hloads Hv. unfold action_ok. simpl. case_decide; [|done]. destruct Hok as (? & ? & Hr & Ha). do 2 (split; [done|]). split.
    + intros x Hx. apply change_nonwhite; [done|by apply Hlr|by apply Hr].
    + intros a Hin. apply (slot_done_visit h' v); try done; [by left|by apply Ha].
Qed.

Lemma run_obj v second top obj todo : doing w = TraceObj second top obj todo (Some v) -> run_ok.
Proof.
  intros Hd. destruct Hl as [Hlr Hld]. rewrite Hd in Hld. destruct Hld as [Htodo Hlv]. unfold action_ok in Hok. rewrite Hd in Hok.
  apply (visit_run (set_doing (TraceObj second top obj todo None) w) v); try by_action Hd.
  - by apply Hlv.
  - intros h' Hmg Hloads Hv. unfold action_ok. simpl. case_decide; [|done]. destruct Hok as (? & Ha). split; [done|].
    intros a Hin. apply (slot_done_visit h' v); try done; [|by apply Ha]. apply (uses_loc _ _ _ _ _ _ _ Hinv i w); [done|].
    unfold uses. by rewrite Hd.
Qed.

(** A value is loaded, or a list is at its end. *)
Lemma run_global_load a todo : doing w = GlobalSync2 (a :: todo) None -> run_ok.
Proof.
  intros Hd. destruct Hl as [Hlr Hld]. rewrite Hd in Hld. destruct Hld as [Htodo Hlv]. unfold action_ok in Hok. rewrite Hd in Hok.
  eapply pure_run; [unfold worker_run; by rewrite Hp, Hd|unfold tops, cur, pending; simpl; try (by rewrite ?Hd)..| | | | |].
  - split; [done|]. split; [set_solver|]. intros v [= <-]. apply (oi_slots _ _ _ _ _ _ _ Hinv). left. apply Htodo. by left.
  - unfold action_ok. simpl. case_decide; [|done]. destruct Hok as (? & ? & Hr & Ha). do 3 (split; [done|]).
    intros b Hb. apply slot_done_load, Ha, Hb.
  - intros [? Hs]. unfold in_sync2 in Hs. by rewrite Hd in Hs.
  - by intros [? Hs].
  - by intros _ [? Hs].
Qed.

Lemma run_obj_load a second top obj todo : doing w = TraceObj second top obj (a :: todo) None -> run_ok.
Proof.
  intros Hd. assert (Hu := uses_loc _ _ _ _ _ _ _ Hinv i w). unfold uses in Hu. rewrite Hd in Hu.
  destruct Hl as [Hlr Hld]. rewrite Hd in Hld. destruct Hld as [Htodo Hlv]. unfold action_ok in Hok. rewrite Hd in Hok.
  assert (Hsc : scanned (set_doing (TraceObj second top obj todo (Some (sh_load h a))) w) <-> scanned w)
    by (unfold scanned, in_sync2; by rewrite Hd).
  eapply pure_run; [unfold worker_run; by rewrite Hp, Hd|unfold tops, cur, pending; simpl; try (by rewrite ?Hd)..| | | | |].
  - split; [done|]. split; [set_solver|]. intros v [= <-]. apply (oi_slots _ _ _ _ _ _ _ Hinv), Hu; [done|]. apply Htodo. by left.
  - unfold action_ok. simpl. case_decide; [|done]. destruct Hok as (? & Ha). split; [done|].
    intros b Hb. apply slot_done_load, Ha, Hb.
  - by rewrite Hsc.
  - rewrite Hsc. by apply (oi_globalenum _ _ _ _ _ _ _ Hinv i w).
  - rewrite Hsc. intros _ Hs v Hv. by left.
Qed.

Lemma run_user_end user : doing w = UserSync2 [] user -> run_ok.
Proof.
  intros Hd. destruct Hl as [Hlr Hld]. rewrite Hd in Hld. destruct Hld as [Huser _]. unfold action_ok in Hok. rewrite Hd in Hok.
  case_decide; [|done]. destruct Hok as [Hph Hdone].
  assert (Hsc : scanned w) by (split; [lia|unfold in_sync2; by rewrite Hd]).
  eapply pure_run; [by_action Hd|unfold tops, cur, pending; simpl; try (by rewrite ?Hd)..| | | | |].
  - split; [|done]. intros v [Hv|Hv]%elem_of_app; [by apply Huser|by apply Hlr].
  - unfold action_ok. simpl. by case_decide.
  - intros _. split; [|done]. simpl. lia.
  - intros _. by apply (oi_globalenum _ _ _ _ _ _ _ Hinv i w).
  - intros _ _ v [Hv|Hv]%elem_of_app; [|by left]. right. left. destruct (Hdone v Hv) as [?%elem_of_nil|?]; done.
Qed.

Lemma run_worker_end : doing w = WorkerSync2 [] -> run_ok.
Proof.
  intros Hd. destruct Hl as [Hlr Hld]. unfold action_ok in Hok. rewrite Hd in Hok.
  case_decide; [|done]. destruct Hok as [Hph Hdone].
  assert (Hnw : forall v, v ∈ roots w -> white h v = false) by (intros v Hv; by destruct (Hdone v Hv) as [?%elem_of_nil|?]).
  apply (pure_run (set_doing (if globalenum w then GlobalSync2 globals None else Mutator) w)); try done.
  - by_action Hd.
  - unfold tops. rewrite Hd. simpl. by destruct (globalenum w).
  - unfold cur. rewrite Hd. simpl. by destruct (globalenum w).
  - split; [done|]. simpl. by destruct (globalenum w).
  - unfold action_ok. simpl. case_decide; [|done]. destruct (globalenum w); [|done].
    do 2 (split; [done|]). split; [done|]. intros a Ha _. by left.
  - intros [_ Hs]. unfold in_sync2 in Hs. by rewrite Hd in Hs.
  - intros [_ Hs]. unfold in_sync2 in Hs. simpl in *. by destruct (globalenum w).
  - intros _ _ v Hv. right. left. by apply Hnw.
Qed.

Lemma run_globals_end : doing w = GlobalSync2 [] None -> run_ok.
Proof.
  intros Hd. destruct Hl as [Hlr Hld]. unfold action_ok in Hok. rewrite Hd in Hok.
  case_decide; [|done]. destruct Hok as (Hph & Hge & Hnw & Hdone).
  exists h, (clear_globalenum (set_doing Mutator w)). split; [unfold worker_run; by rewrite Hp, Hd|]. exists (upd gr i (gr i)), dirty.
  apply (inv_update h (clear_globalenum (set_doing Mutator w)) (gr i)); try done.
  - apply marks_grow_refl, Hinv.
  - apply (stacks_same h ws gr i w); try apply Hinv; try done; [unfold tops; by rewrite Hd|unfold cur; by rewrite Hd|by right].
  - unfold action_ok. simpl. by case_decide.
  - intros [? _]. by split.
  - intros x Hx. by apply (oi_unused _ _ _ _ _ _ _ Hinv).
  - congruence.
  - right. split; [lia|]. intros a Ha Hnd. destruct (Hdone a Ha Hnd) as [?%elem_of_nil|[?|?]]; done.
  - intros _ _ v Hv. right. left. by apply Hnw.
Qed.

Lemma run_trace second top : doing w = Tracing second top -> run_ok.
Proof.
  intros Hd. unfold action_ok in Hok. rewrite Hd in Hok. case_decide; [|done].
  assert (Hsc : scanned w) by (split; [lia|unfold in_sync2; by rewrite Hd]).
  assert (Hg := oi_good _ _ _ _ _ _ _ Hinv). assert (Hs := oi_stacks _ _ _ _ _ _ _ Hinv).
  assert (Hr : forall v, v ∈ roots w -> lv un v) by apply Hl.
  destruct (decide (top = 0)) as [->|Htop].
  - destruct (trace_end_stacks globals h ws gr i w second Hs Hg Hi Hd) as (w' & Hrun & Hw' & Hst). exists h, w'. split; [done|].
    do 2 eexists. apply (inv_update h w' (gr i)); rewrite ?Hw'; try done; try (by destruct second).
    + by rewrite Hw' in Hst.
    + unfold action_ok. destruct second; simpl; by case_decide.
    + intros _. split; [destruct second; simpl; lia|by destruct second].
    + intros _. destruct second; by apply (oi_globalenum _ _ _ _ _ _ _ Hinv i w).
    + intros x Hx. by apply (oi_unused _ _ _ _ _ _ _ Hinv).
    + congruence.
    + left. by destruct second.
    + intros _ _ v Hv. left. split; [done|]. by destruct second.
  - destruct (pop_stacks globals h ws gr i w second top Hs Hg Hi Hd Htop) as (Hrun & Hin & Hst).
    destruct (set_next_grow h (slot_of top) 0 Hg) as [Hmg Hw]. destruct (set_next_law h (slot_of top) 0 Hg) as (_ & _ & Hm & _).
    do 2 eexists. split; [exact Hrun|]. do 2 eexists. apply (inv_update _ _ (gr i) Hmg); try done.
    + intros a. apply set_next_load.
    + unfold action_ok. simpl. case_decide; [|done]. split; [done|]. intros a Ha _. by left.
    + intros _. split; [simpl; lia|done].
    + intros _. by apply (oi_globalenum _ _ _ _ _ _ _ Hinv i w).
    + intros x Hx. rewrite Hm. by apply (oi_unused _ _ _ _ _ _ _ Hinv).
    + intros x _. rewrite Hm. congruence.
    + by left.
    + intros _ _ v Hv. by left.
Qed.

Lemma run_obj_end second top obj : doing w = TraceObj second top obj [] None -> run_ok.
Proof.
  intros Hd. unfold action_ok in Hok. rewrite Hd in Hok. case_decide; [|done]. destruct Hok as [Hph Hdone].
  assert (Hsc : scanned w) by (split; [lia|unfold in_sync2; by rewrite Hd]).
  destruct (trace_obj_stacks h ws gr i w second top obj [] None) as (g' & Hgi & Hst); [apply Hinv..|done|done|done|].
  exists h, (set_doing (Tracing second top) w). split; [by_action Hd|]. do 2 eexists.
  apply (inv_update h (set_doing (Tracing second top) w) g'); try done.
  - apply marks_grow_refl, Hinv.
  - apply live_same with (set_doing (Tracing second top) w); [done..|]. split; [apply Hl|done].
  - unfold action_ok. simpl. by case_decide.
  - intros _. split; [simpl; lia|done].
  - intros _. by apply (oi_globalenum _ _ _ _ _ _ _ Hinv i w).
  - intros x Hx. by apply (oi_unused _ _ _ _ _ _ _ Hinv).
  - congruence.
  - intros x Hx Hn. split; [done|]. rewrite Hgi in Hx. apply elem_of_cons in Hx as [->|?]; [|done].
    intros a Ha Hnd. destruct (Hdone a Ha Hnd) as [?%elem_of_nil|[?|?]]; done.
  - by left.
  - intros _ _ v Hv. by left.
Qed.
End Update.
End Steps.
