(* ===== verification/OnTheFlyStores.v ===== *)
(** * Marking while the program runs: assignments and allocation

    The steps that change fields keep the invariant of OnTheFlyTri.v. *)
From Stdlib Require Import ZArith Lia.
From stdpp Require Import base option list relations.
From S2P Require Import Prelude Alloc Trace TraceSpec OnTheFly OnTheFlyInv OnTheFlyTri OnTheFlySteps.

Local Open Scope Z_scope.

Section Stores.
Context {H : Type} `{SharedHeap H} (globals : list Z) (readonly : Z -> bool).
Hypothesis globals_location : forall a, a ∈ globals -> location a.
Hypothesis globals_apart : forall a x, a ∈ globals -> object x -> a ∉ fields x.
Notation inv := (otf_inv globals readonly).
Notation live := (worker_live globals readonly).

Lemma loc_location un a : loc globals un a -> location a.
Proof. intros [Ha|(x & Ho & _ & Ha)]; [by apply globals_location|by apply fields_location with x]. Qed.

(** A heap that differs in the fields only. *)
Record same_marks (h h' : H) : Prop := {
  sm_good : good h';
  sm_target x : object x -> target h' x = target h x;
  sm_marked x : object x -> marked h' x = marked h x;
  sm_next s : mk_next h' s = mk_next h s
}.

Lemma same_marks_grow h h' : same_marks h h' -> marks_grow h h'.
Proof. intros [Hg Ht Hm _]. split; [done..|]. intros x Ho. by rewrite Hm. Qed.

Lemma same_white h h' v : same_marks h h' -> v = 0 \/ object v -> white h' v = white h v.
Proof. intros [_ Ht Hm _] [->|Ho]; [done|]. unfold white. by rewrite Ht, Hm. Qed.

Lemma same_stacks h h' ws gr i w w' : stacks_inv h ws gr -> same_marks h h' -> ws !! i = Some w ->
  tops w' = tops w -> cur w' = cur w -> pending w' = pending w -> (visits w' = false -> visits w = false) \/ pending w = None ->
  stacks_inv h' (<[i := w']> ws) (upd gr i (gr i)).
Proof.
  intros Hs Hsm Hi Ht Hc Hp Htr. assert (Hmg := same_marks_grow _ _ Hsm).
  apply (stacks_update h h' ws gr i w); try done.
  - apply (worker_stacks_frame h); [done|intros; apply Hsm|]. destruct (si_stacks _ _ _ Hs i w Hi) as [(xss & Hl & Heq) Hpd Htd]. split.
    + exists xss. rewrite Ht, Hc. unfold pend. by rewrite Hp.
    + by rewrite Hp.
    + intros Hv. rewrite Hp. destruct Htr as [Htr|]; [by apply Htd, Htr|done].
  - apply (si_nodup _ _ _ Hs).
  - by left.
  - intros x Ho Hw. rewrite (sm_next _ _ Hsm). apply (si_clear _ _ _ Hs); [done|]. rewrite <- (same_white h h'); auto.
  - intros j x _ _. apply Hsm.
Qed.

Section Store.
Context (h : H) (ws : list mark_worker) (un : list Z) (gr : nat -> list Z) (dirty : Z -> Prop) (i : nat) (w : mark_worker) (a new : Z).
Hypothesis Hinv : inv h ws un gr dirty.
Hypothesis Hi : ws !! i = Some w.
Hypothesis Hp : pending w = None.
Hypothesis Hd : doing w = Remember [] new (Some a).
Let h' := sh_store a new h.
Let w' := set_doing Mutator w.
Let ws' := <[i := w']> ws.
Let gr' := upd gr i (gr i).
Let dirty' b := dirty b \/ b = a /\ barriers_on ws.

Lemma store_facts : loc globals un a /\ readonly a = false /\ lv un new /\ (new = 0 \/ new ∈ roots w) /\
  (SYNC1 <= wphase w -> (~ dirty a -> white h (sh_load h a) = false) /\ (scanned w \/ white h new = false)).
Proof.
  destruct (oi_live _ _ _ _ _ _ _ Hinv i w Hi) as [Hlr Hld]. rewrite Hd in Hld. destruct Hld as (_ & Hn & Hacc & Hro).
  assert (Hnew : new = 0 \/ new ∈ roots w) by (by apply elem_of_cons in Hn).
  split; [by apply (accessible_loc _ _ _ _ _ _ _ Hinv i w)|]. split; [done|]. split; [destruct Hnew as [?|?]; [by left|by apply Hlr]|].
  split; [done|]. intros Hph. assert (Hok := oi_action _ _ _ _ _ _ _ Hinv i w Hi). unfold action_ok in Hok. rewrite Hd in Hok.
  rewrite decide_True in Hok by done. destruct Hok as [H1 H2]. split.
  - intros Hc. destruct (H1 Hc) as [?%elem_of_nil|?]; done.
  - destruct H2 as [?|[?%elem_of_nil|?]]; [by left|done|by right].
Qed.

Lemma store_heap : same_marks h h' /\ forall b, location b -> sh_load h' b = if decide (a = b) then new else sh_load h b.
Proof.
  destruct store_facts as (Ha & _ & Hnew & _). destruct (store_law h a new) as (Hg & Ht & Hm & Hn & Hl);
    [apply Hinv|by apply (loc_location un)|destruct Hnew; tauto|]. split; [by split|done].
Qed.
Let Hsm : same_marks h h' := proj1 store_heap.

Lemma store_load b : loc globals un b -> sh_load h' b = if decide (a = b) then new else sh_load h b.
Proof. intros Hb. by apply store_heap, (loc_location un). Qed.

Lemma store_white v : lv un v -> white h' v = white h v.
Proof. intros Hv. apply (same_white h h' v Hsm). destruct Hv; tauto. Qed.

Lemma store_slots b : loc globals un b -> lv un (sh_load h' b).
Proof. intros Hb. rewrite store_load by done. case_decide; [apply store_facts|by apply (oi_slots _ _ _ _ _ _ _ Hinv)]. Qed.

Lemma store_barriers : barriers_on ws' <-> barriers_on ws.
Proof. by apply (barriers_on_insert ws i w). Qed.
Lemma store_flagged : flagged ws' <-> flagged ws.
Proof. by apply (flagged_insert ws i w). Qed.

Lemma store_scanned j wj : ws' !! j = Some wj -> exists wj0, ws !! j = Some wj0 /\ (scanned wj <-> scanned wj0) /\
  wphase wj = wphase wj0 /\ globalenum wj = globalenum wj0 /\ roots wj = roots wj0.
Proof.
  intros Hj. apply lookup_insert_cases in Hj as [[-> ->]|[_ Hj]]; [|by exists wj].
  exists w. split; [done|]. split; [unfold scanned, in_sync2; by rewrite Hd|done].
Qed.

(** The others' actions. *)
Lemma store_action j wj : no_race ws i w -> j <> i -> ws !! j = Some wj -> action_ok globals h' dirty' wj.
Proof.
  intros Hrace Hne Hj. destruct store_facts as (Ha & Hro & Hnew & Hnr & Hph).
  destruct (decide (SYNC1 <= wphase wj)) as [Hpj|Hpj].
  2:{ pose proof (oi_action _ _ _ _ _ _ _ Hinv j wj Hj) as Hok. unfold action_ok in Hok |- *. rewrite decide_False in Hok by done. by rewrite decide_False. }
  apply (action_ok_mono _ _ _ _ _ _ _ Hinv _ _ j); [done|by apply same_marks_grow|]. intros b Hu Hnd.
  assert (Hb : loc globals un b) by (by apply (uses_loc _ _ _ _ _ _ _ Hinv j wj)).
  rewrite store_load by done. destruct (decide (a = b)) as [<-|Hab]; [right|left; split; [|done]; intros ?; apply Hnd; by left].
  rewrite store_white by done. destruct (barriers_on_dec ws) as [Hon|Hoff]; [destruct Hnd; by right|].
  destruct (decide (SYNC1 <= wphase w)) as [Hpw|Hpw].
  - destruct (Hph Hpw) as [_ [[Hs _]|?]]; [|done]. destruct Hoff. apply (oi_sync2 _ _ _ _ _ _ _ Hinv i w Hi). unfold SYNC1, SYNC2 in Hs |- *. lia.
  - exfalso. apply Hoff. pose proof (oi_action _ _ _ _ _ _ _ Hinv j wj Hj) as Hok. unfold action_ok in Hok. rewrite decide_True in Hok by done.
    assert (Hnas : ~ assigning wj a) by (apply (Hrace ltac:(lia) a ltac:(unfold assigning; by rewrite Hd) j wj Hne Hj Hpj)).
    unfold uses in Hu. unfold assigning in Hnas. apply (oi_sync2 _ _ _ _ _ _ _ Hinv j wj Hj). unfold SYNC1, SYNC2 in Hok |- *.
    destruct (doing wj) as [|? ? [|]|? ? [|]| | | |?|?]; try done; lia.
Qed.

Lemma store_safe v : barriers_on ws -> lv un v -> safe globals h dirty gr ws v -> safe globals h' dirty' gr' ws' v.
Proof.
  intros Hon Hv. destruct store_facts as (Ha & Hro & Hnew & Hnr & Hph).
  assert (Hpw : SYNC1 <= wphase w) by (by apply (Hon i)).
  apply (safe_mono _ _ _ _ _ _ _ Hinv); [by apply same_marks_grow| | | |done].
  - intros b Hb Hc Hw _. rewrite store_load by done. destruct (decide (a = b)) as [<-|Hab].
    + destruct (Hph Hpw) as [Hx _]. rewrite Hx in Hw; done.
    + split; [|done]. intros [?|[-> _]]; done.
  - intros x Ho Hu Hw Hw'. rewrite (same_white h h' x Hsm) in Hw' by tauto. congruence.
  - intros b [(j & x & Hx & Hb)|[Hb Hf]] _ _; [left|right; split; [done|by apply store_flagged]]. exists j, x. split; [|done].
    unfold gr', upd. by case_decide; subst.
Qed.

Lemma store_safe_load b : barriers_on ws -> safe_inv globals h ws un gr dirty -> loc globals un b ->
  (a <> b -> safe globals h dirty gr ws (sh_load h b)) -> safe globals h' dirty' gr' ws' (sh_load h' b).
Proof.
  intros Hon Hsi Hb Hs. destruct store_facts as (Ha & Hro & Hnew & Hnr & Hph). rewrite store_load by done.
  case_decide as Hab; [|apply store_safe; [done|by apply (oi_slots _ _ _ _ _ _ _ Hinv)|by apply Hs]].
  destruct (Hph ltac:(by apply (Hon i))) as [_ [Hsc|Hw]].
  - destruct Hnr as [Hn0|Hr]; [intros Hw'; by rewrite Hn0 in Hw'|]. apply store_safe; [done..|]. by apply (sf_roots _ _ _ _ _ _ Hsi i w).
  - intros Hw'. rewrite store_white in Hw' by done. congruence.
Qed.

Lemma store_safe_inv : barriers_on ws -> safe_inv globals h ws un gr dirty -> safe_inv globals h' ws' un gr' dirty'.
Proof.
  intros Hon Hsi. assert (Hgr : forall x, (forall j, x ∉ gr' j) -> forall j, x ∉ gr j).
  { intros x Hx j Hj. apply (Hx j). unfold gr', upd. by case_decide; subst. }
  split.
  - intros b Hdb Hb. apply store_safe_load; [done..|]. intros Hab. apply (sf_dirty _ _ _ _ _ _ Hsi); [|done].
    destruct Hdb as [?|[-> _]]; done.
  - intros x b Ho Hu Hw Hg Hb. apply store_safe_load; [done..|right; by exists x|]. intros Hab.
    apply (sf_black _ _ _ _ _ _ Hsi x b); [done..| |by apply Hgr|done]. by rewrite <- (same_white h h' x Hsm) by tauto.
  - intros b Hf Hb. apply store_safe_load; [done..|by left|]. intros Hab. apply (sf_globals _ _ _ _ _ _ Hsi); [|done].
    by rewrite <- store_flagged.
  - intros j wj v Hj Hs Hv. destruct (store_scanned j wj Hj) as (wj0 & Hj0 & Hsc & _ & _ & Hr). rewrite Hr in Hv.
    apply store_safe; [done|by apply (wl_roots _ _ _ _ (oi_live _ _ _ _ _ _ _ Hinv j wj0 Hj0))|].
    apply (sf_roots _ _ _ _ _ _ Hsi j wj0); [done|by apply Hsc|done].
Qed.

Lemma store_early : ~ barriers_on ws -> early_inv readonly h ws un gr dirty -> early_inv readonly h' ws' un gr' dirty'.
Proof.
  intros Hoff [H1 H2 H3 H4]. destruct store_facts as (_ & Hro & _). split.
  - intros b [?|[_ ?]]; [by apply (H1 b)|done].
  - by apply store_flagged.
  - intros x Ho Ht Hm. rewrite (sm_target _ _ Hsm) in Ht by done. rewrite (sm_marked _ _ Hsm) in Hm by done.
    destruct (H3 x Ho Ht Hm) as [j Hj]. exists j. unfold gr', upd. by case_decide; subst.
  - intros x b Ho Hu Ht Hb. rewrite (sm_target _ _ Hsm) in Ht by done. destruct (H4 x b Ho Hu Ht Hb) as [Hr Hw]. split; [done|].
    assert (Hl : loc globals un b) by (right; by exists x). rewrite store_load by done. case_decide as Hab; [congruence|].
    rewrite store_white; [done|]. by apply (oi_slots _ _ _ _ _ _ _ Hinv).
Qed.

Lemma run_store : no_race ws i w -> run_ok globals readonly h ws un i w.
Proof.
  intros Hrace. exists h', w'. split; [unfold worker_run; by rewrite Hp, Hd|]. exists gr', dirty'.
  fold ws'. split.
  - apply Hsm.
  - apply (same_stacks h h' ws gr i w); [apply Hinv|done|done|unfold tops|unfold cur|done|by right]; by rewrite Hd.
  - intros x Hx. destruct (oi_unused _ _ _ _ _ _ _ Hinv x Hx) as [? ?]. by rewrite (sm_marked _ _ Hsm).
  - apply store_slots.
  - intros j wj Hj. apply lookup_insert_cases in Hj as [[-> ->]|[_ Hj]]; [|by apply (oi_live _ _ _ _ _ _ _ Hinv j)].
    split; [apply (oi_live _ _ _ _ _ _ _ Hinv i w Hi)|done].
  - intros j wj Hj. apply lookup_insert_cases in Hj as [[-> ->]|[Hne Hj]]; [unfold action_ok; by case_decide|by apply (store_action j)].
  - intros j wj Hj Hph. apply store_barriers. destruct (store_scanned j wj Hj) as (wj0 & Hj0 & _ & Hpe & _).
    apply (oi_sync2 _ _ _ _ _ _ _ Hinv j wj0 Hj0). by rewrite <- Hpe.
  - intros j wj Hj Hph k wk Hk. destruct (store_scanned j wj Hj) as (wj0 & Hj0 & _ & Hpe & _).
    destruct (store_scanned k wk Hk) as (wk0 & Hk0 & Hsc & _). apply Hsc.
    apply (oi_mark _ _ _ _ _ _ _ Hinv j wj0 Hj0) with k; [by rewrite <- Hpe|done].
  - intros j wj Hj Hs. destruct (store_scanned j wj Hj) as (wj0 & Hj0 & Hsc & _ & -> & _).
    apply (oi_globalenum _ _ _ _ _ _ _ Hinv j wj0 Hj0). by apply Hsc.
  - intros b. destruct (oi_dirty _ _ _ _ _ _ _ Hinv b) as [?|Hc]; [left; by left|].
    destruct (decide (b = a)) as [Hab|Hab]; [|right; by intros [?|[? _]]].
    destruct (barriers_on_dec ws); [left; right; done|right; by intros [?|[_ ?]]].
  - intros Hoff. rewrite store_barriers in Hoff. apply store_early; [done|by apply (oi_early _ _ _ _ _ _ _ Hinv)].
  - intros Hon. rewrite store_barriers in Hon. apply store_safe_inv; [done|by apply (oi_safe _ _ _ _ _ _ _ Hinv)].
Qed.
End Store.

(** The fields of a new object. *)
Lemma init_heap h l : good h -> (forall a v, (a, v) ∈ l -> location a /\ (v = 0 \/ object v)) ->
  let h' := foldr (fun '(a, v) h => sh_store a v h) h l in
  same_marks h h' /\ forall b, location b -> (b ∉ l.*1 -> sh_load h' b = sh_load h b) /\ (b ∈ l.*1 -> sh_load h' b ∈ l.*2).
Proof.
  intros Hg. induction l as [|[a v] l IH]; intros Hl; cbn [foldr].
  - split; [by split|]. intros b Hb. split; [done|]. intros Hn. by apply elem_of_nil in Hn.
  - destruct IH as [Hsm Hload]; [intros; apply Hl; by right|]. destruct (Hl a v) as [Ha Hv]; [by left|].
    set (h1 := foldr _ h l) in *. destruct (store_law h1 a v) as (Hg' & Ht & Hm & Hn & Hld); [apply Hsm|done..|].
    split.
    + split; [done|intros x Ho; rewrite Ht by done; by apply Hsm|intros x Ho; rewrite Hm by done; by apply Hsm|].
      intros s. rewrite Hn. apply Hsm.
    + intros b Hb. destruct (Hload b Hb) as [H1 H2]. rewrite Hld by done. csimpl. rewrite !elem_of_cons. split.
      * intros Hn'. rewrite decide_False by (intros ->; tauto). apply H1. tauto.
      * case_decide as Hab; [by left|]. intros [->|Hbl]; [done|right; by apply H2].
Qed.

Section Alloc.
Context (h : H) (ws : list mark_worker) (un : list Z) (gr : nat -> list Z) (dirty : Z -> Prop) (i : nat) (w : mark_worker) (x : Z) (vs : list Z).
Hypothesis Hinv : inv h ws un gr dirty.
Hypothesis Hi : ws !! i = Some w.
Hypothesis Hd : doing w = Mutator.
Hypothesis Hx : x ∈ un.
Hypothesis Htarget : target h x = (wphase w <? SYNC2).
Hypothesis Hlen : length vs = length (fields x).
Hypothesis Hvs : vs ⊆ 0 :: roots w.
Let h' := foldr (fun '(a, v) h => sh_store a v h) h (zip (fields x) vs).
Let w' := set_roots (x :: roots w) w.
Let ws' := <[i := w']> ws.
Let un' := filter (fun y => y <> x) un.
Let gr' := upd gr i (gr i).
Let dirty' b := dirty b /\ b ∉ fields x.

Lemma alloc_values v : v ∈ vs -> lv un v /\ (v = 0 \/ v ∈ roots w).
Proof.
  intros Hv. assert (Hc : v = 0 \/ v ∈ roots w) by (by apply elem_of_cons, Hvs). split; [|done].
  destruct Hc as [->|Hr]; [by left|by apply (wl_roots _ _ _ _ (oi_live _ _ _ _ _ _ _ Hinv i w Hi))].
Qed.

Lemma alloc_object : object x /\ marked h x = false.
Proof. by apply (oi_unused _ _ _ _ _ _ _ Hinv). Qed.

Lemma alloc_heap : same_marks h h' /\ forall b, location b ->
  (b ∉ fields x -> sh_load h' b = sh_load h b) /\ (b ∈ fields x -> sh_load h' b ∈ vs).
Proof.
  destruct (init_heap h (zip (fields x) vs)) as [Hsm Hl]; [apply Hinv| |].
  - intros a v Hav. split.
    + apply (fields_location x); [apply alloc_object|]. by apply elem_of_zip_l in Hav.
    + apply elem_of_zip_r in Hav. destruct (alloc_values v Hav) as [[?|?] _]; tauto.
  - split; [exact Hsm|]. intros b Hb. destruct (Hl b Hb) as [H1 H2]. rewrite fst_zip in H1, H2 by lia. rewrite snd_zip in H2 by lia. done.
Qed.
Let Hsm : same_marks h h' := proj1 alloc_heap.

Lemma alloc_apart b : loc globals un b -> b ∉ fields x.
Proof.
  destruct alloc_object as [Ho _]. intros [Hb|(y & Hoy & Hy & Hb)] Hbx; [by apply (globals_apart b x)|].
  assert (y = x) as -> by (by apply (fields_apart y x b)). done.
Qed.

Lemma alloc_load b : loc globals un b -> sh_load h' b = sh_load h b.
Proof. intros Hb. pose proof (proj2 alloc_heap) as Hl. apply Hl; [by apply (loc_location un)|by apply alloc_apart]. Qed.

Lemma alloc_un y : y ∉ un' -> y = x \/ y ∉ un.
Proof. unfold un'. rewrite list_elem_of_filter. intros Hn. destruct (decide (y = x)); [by left|right]. tauto. Qed.

Lemma alloc_loc b : loc globals un' b -> b ∈ fields x \/ loc globals un b.
Proof.
  intros [Hb|(y & Ho & Hy & Hb)]; [right; by left|]. destruct (alloc_un y Hy) as [->|?]; [by left|right; right; by exists y].
Qed.

Lemma alloc_lv v : lv un v -> lv un' v.
Proof.
  intros [->|[Ho Hv]]; [by left|right]. split; [done|]. unfold un'. rewrite list_elem_of_filter. tauto.
Qed.

Lemma alloc_white v : lv un v -> white h' v = white h v.
Proof. intros Hv. apply (same_white h h' v Hsm). destruct Hv; tauto. Qed.

Lemma alloc_scanned j wj : ws' !! j = Some wj -> exists wj0, ws !! j = Some wj0 /\ (scanned wj <-> scanned wj0) /\
  wphase wj = wphase wj0 /\ globalenum wj = globalenum wj0.
Proof. intros Hj. apply lookup_insert_cases in Hj as [[-> ->]|[_ Hj]]; [by exists w|by exists wj]. Qed.

(** Unless it is subject to the collection, its worker has answered SYNC2. *)
Lemma alloc_new : white h' x = false -> SYNC2 <= wphase w /\ scanned w.
Proof.
  destruct alloc_object as [Ho Hm]. rewrite (same_white h h' x Hsm) by tauto. unfold white. rewrite Hm, andb_true_r.
  assert (x =? 0 = false) as -> by (apply Z.eqb_neq; intros Hx0; apply object_0; by rewrite <- Hx0). cbn. rewrite Htarget, Z.ltb_ge.
  intros Hph. split; [done|]. split; [done|]. unfold in_sync2. by rewrite Hd.
Qed.

Lemma alloc_live_mono j wj : ws !! j = Some wj -> live un' wj.
Proof.
  intros Hj. destruct (oi_live _ _ _ _ _ _ _ Hinv j wj Hj) as [H1 H2]. split; [intros v Hv; by apply alloc_lv, H1|].
  destruct (doing wj); try done; destruct H2 as [H2 H3]; split; try done.
  - by apply alloc_lv.
  - intros v Hv. by apply alloc_lv, H2.
  - intros v Hv. by apply alloc_lv, H2.
  - intros v Hv. by apply alloc_lv, H3.
  - intros v Hv. by apply alloc_lv, H3.
Qed.

Lemma alloc_safe v : lv un v -> safe globals h dirty gr ws v -> safe globals h' dirty' gr' ws' v.
Proof.
  intros Hv. apply (safe_mono _ _ _ _ _ _ _ Hinv); [by apply same_marks_grow| | | |done].
  - intros b Hb Hc _ _. split; [by intros [? _]|by apply alloc_load].
  - intros y Ho _ Hw Hw'. rewrite (same_white h h' y Hsm) in Hw' by tauto. congruence.
  - intros b [(j & y & Hy & Hb)|[Hb Hf]] _ _; [left|right; split; [done|by apply (flagged_insert ws i w)]].
    exists j, y. split; [|done]. unfold gr', upd. by case_decide; subst.
Qed.

Lemma alloc_safe_inv : safe_inv globals h ws un gr dirty -> safe_inv globals h' ws' un' gr' dirty'.
Proof.
  intros Hsi. assert (Hslots := oi_slots _ _ _ _ _ _ _ Hinv).
  assert (Hgr : forall y, (forall j, y ∉ gr' j) -> forall j, y ∉ gr j).
  { intros y Hy j Hj. apply (Hy j). unfold gr', upd. by case_decide; subst. }
  split.
  - intros b [Hdb Hnb] Hb. destruct (alloc_loc b Hb) as [?|Hl]; [done|]. rewrite alloc_load by done.
    apply alloc_safe; [by apply Hslots|by apply (sf_dirty _ _ _ _ _ _ Hsi)].
  - intros y b Ho Hu Hw Hg Hb. destruct (alloc_un y Hu) as [->|Hyu].
    + destruct (alloc_new Hw) as [_ Hs]. pose proof (proj2 alloc_heap) as Hl.
      destruct (alloc_values (sh_load h' b)) as [Hlv [->|Hr]]; [apply Hl; [by apply (fields_location x)|done]|done|].
      apply alloc_safe; [done|]. by apply (sf_roots _ _ _ _ _ _ Hsi i w).
    + assert (Hl : loc globals un b) by (right; by exists y). rewrite alloc_load by done. apply alloc_safe; [by apply Hslots|].
      apply (sf_black _ _ _ _ _ _ Hsi y b); [done..| |by apply Hgr|done]. by rewrite <- (same_white h h' y Hsm) by tauto.
  - intros b Hf Hb. assert (Hl : loc globals un b) by (by left). rewrite alloc_load by done. apply alloc_safe; [by apply Hslots|].
    apply (sf_globals _ _ _ _ _ _ Hsi); [|done]. intros Hf'. apply Hf. by apply (flagged_insert ws i w).
  - intros j wj v Hj Hs Hv.
    assert (Hold : forall wj0, ws !! j = Some wj0 -> scanned wj0 -> v ∈ roots wj0 -> safe globals h' dirty' gr' ws' v).
    { intros wj0 Hj0 Hs0 Hv0. apply alloc_safe; [by apply (wl_roots _ _ _ _ (oi_live _ _ _ _ _ _ _ Hinv j wj0 Hj0))|].
      by apply (sf_roots _ _ _ _ _ _ Hsi j wj0). }
    apply lookup_insert_cases in Hj as [[-> ->]|[_ Hj]]; [|by apply (Hold wj)].
    cbn [roots w' set_roots] in Hv. apply elem_of_cons in Hv as [->|Hv]; [|by apply (Hold w)]. intros Hw.
    destruct alloc_object as [Ho _]. rewrite (same_white h h' x Hsm) in Hw by tauto. apply white_target in Hw as [Hw _].
    rewrite Htarget, Z.ltb_lt in Hw. destruct Hs as [Hs _]. cbn [wphase w' set_roots] in Hs. lia.
Qed.

Lemma alloc_early : ~ barriers_on ws -> early_inv readonly h ws un gr dirty -> early_inv readonly h' ws' un' gr' dirty'.
Proof.
  intros Hoff [H1 H2 H3 H4]. split.
  - intros b [? _]. by apply (H1 b).
  - by apply (flagged_insert ws i w).
  - intros y Ho Ht Hm. rewrite (sm_target _ _ Hsm) in Ht by done. rewrite (sm_marked _ _ Hsm) in Hm by done.
    destruct (H3 y Ho Ht Hm) as [j Hj]. exists j. unfold gr', upd. by case_decide; subst.
  - intros y b Ho Hu Ht Hb. rewrite (sm_target _ _ Hsm) in Ht by done. destruct (alloc_un y Hu) as [->|Hyu].
    + rewrite Htarget, Z.ltb_ge in Ht. destruct Hoff. apply (oi_sync2 _ _ _ _ _ _ _ Hinv i w Hi). unfold SYNC1, SYNC2 in Ht |- *. lia.
    + destruct (H4 y b Ho Hyu Ht Hb) as [Hr Hw]. split; [done|].
      assert (Hl : loc globals un b) by (right; by exists y). rewrite alloc_load, alloc_white; [done|by apply (oi_slots _ _ _ _ _ _ _ Hinv)|done].
Qed.

Lemma alloc_inv : inv h' ws' un' gr' dirty'.
Proof.
  split.
  - apply Hsm.
  - apply (same_stacks h h' ws gr i w); [apply Hinv|done..|by left].
  - intros y Hy. unfold un' in Hy. apply list_elem_of_filter in Hy as [_ Hy]. destruct (oi_unused _ _ _ _ _ _ _ Hinv y Hy) as [? ?].
    by rewrite (sm_marked _ _ Hsm).
  - intros b Hb. destruct (alloc_loc b Hb) as [Hbx|Hl].
    + pose proof (proj2 alloc_heap) as Hld. apply alloc_lv, alloc_values, Hld; [|done]. apply (fields_location x); [apply alloc_object|done].
    + rewrite alloc_load by done. by apply alloc_lv, (oi_slots _ _ _ _ _ _ _ Hinv).
  - intros j wj Hj. apply lookup_insert_cases in Hj as [[-> ->]|[_ Hj]]; [|by apply (alloc_live_mono j)].
    destruct (alloc_live_mono i w Hi) as [H1 _]. split; [|cbn; by rewrite Hd].
    intros v [->|Hv]%elem_of_cons; [right; split; [apply alloc_object|]|by apply H1]. unfold un'. rewrite list_elem_of_filter. tauto.
  - intros j wj Hj. apply lookup_insert_cases in Hj as [[-> ->]|[Hne Hj]]; [unfold action_ok; cbn; rewrite Hd; by case_decide|].
    apply (action_ok_mono _ _ _ _ _ _ _ Hinv _ _ j); [done|by apply same_marks_grow|]. intros b Hu Hnd. left.
    assert (Hb : loc globals un b) by (by apply (uses_loc _ _ _ _ _ _ _ Hinv j wj)).
    split; [|by apply alloc_load]. intros Hdb. apply Hnd. split; [done|by apply alloc_apart].
  - intros j wj Hj Hph. apply (barriers_on_insert ws i w); [done..|]. destruct (alloc_scanned j wj Hj) as (wj0 & Hj0 & _ & Hpe & _).
    apply (oi_sync2 _ _ _ _ _ _ _ Hinv j wj0 Hj0). by rewrite <- Hpe.
  - intros j wj Hj Hph k wk Hk. destruct (alloc_scanned j wj Hj) as (wj0 & Hj0 & _ & Hpe & _).
    destruct (alloc_scanned k wk Hk) as (wk0 & Hk0 & Hsc & _). apply Hsc.
    apply (oi_mark _ _ _ _ _ _ _ Hinv j wj0 Hj0) with k; [by rewrite <- Hpe|done].
  - intros j wj Hj Hs. destruct (alloc_scanned j wj Hj) as (wj0 & Hj0 & Hsc & _ & ->).
    apply (oi_globalenum _ _ _ _ _ _ _ Hinv j wj0 Hj0). by apply Hsc.
  - intros b. unfold dirty'. destruct (oi_dirty _ _ _ _ _ _ _ Hinv b), (decide (b ∈ fields x)); tauto.
  - intros Hoff. unfold ws' in Hoff. rewrite (barriers_on_insert ws i w) in Hoff by done. apply alloc_early; [done|by apply (oi_early _ _ _ _ _ _ _ Hinv)].
  - intros Hon. unfold ws' in Hon. rewrite (barriers_on_insert ws i w) in Hon by done. apply alloc_safe_inv. by apply (oi_safe _ _ _ _ _ _ _ Hinv).
Qed.
End Alloc.
End Stores.
