(* ===== verification/OnTheFlyReach.v ===== *)
(** * Marking while the program runs: whole collections

    All steps of OnTheFly.v together, from the state in which a collection
    starts. *)
From Stdlib Require Import ZArith Lia.
From stdpp Require Import base option list relations.
From S2P Require Import Prelude Alloc Trace TraceSpec OnTheFly OnTheFlyInv OnTheFlyTri OnTheFlySteps OnTheFlyStores.

Local Open Scope Z_scope.

Section Reach.
Context {H : Type} `{SharedHeap H} (globals : list Z) (readonly : Z -> bool).
Hypothesis globals_location : forall a, a ∈ globals -> location a.
Hypothesis globals_apart : forall a x, a ∈ globals -> object x -> a ∉ fields x.
Notation inv := (otf_inv globals readonly).
Notation live := (worker_live globals readonly).

(** With every barrier on and no roots enumerated, nothing is black. *)
Lemma all_on h ws un gr dirty : early_inv readonly h ws un gr dirty -> (forall i w, ws !! i = Some w -> ~ scanned w) ->
  safe_inv globals h ws un gr dirty.
Proof.
  intros [H1 H2 H3 H4] Hns. split.
  - intros a Hd. by destruct (H1 a).
  - intros x a Ho Hu Hw Hg Ha Hw'. destruct (target h x) eqn:Ht; [|destruct (H4 x a Ho Hu Ht Ha); congruence].
    destruct (marked h x) eqn:Hm; [destruct (H3 x Ho Ht Hm) as [j Hj]; by destruct (Hg j)|].
    unfold white in Hw. rewrite Ht, Hm in Hw. assert (x =? 0 = false) as E by (apply Z.eqb_neq; intros ->; by apply object_0).
    by rewrite E in Hw.
  - done.
  - intros i w v Hi Hs. by destruct (Hns i w Hi).
Qed.

(** Workers that differ in nothing that matters to what is safe. *)
Record same_safe (ws ws' : list mark_worker) (gr gr' : nat -> list Z) : Prop := {
  ss_gray j x : x ∈ gr' j <-> x ∈ gr j;
  ss_flagged : flagged ws' <-> flagged ws;
  ss_worker j wj : ws' !! j = Some wj -> exists wj0, ws !! j = Some wj0 /\ (scanned wj <-> scanned wj0) /\
    roots wj = roots wj0 /\ globalenum wj = globalenum wj0
}.

Lemma same_early h ws ws' un gr gr' dirty : same_safe ws ws' gr gr' ->
  early_inv readonly h ws un gr dirty -> early_inv readonly h ws' un gr' dirty.
Proof.
  intros [Hg Hf _] [E1 E2 E3 E4]. split; [done|by apply Hf| |done]. intros x Ho Htx Hm. destruct (E3 x Ho Htx Hm) as [j Hj].
  exists j. by rewrite Hg.
Qed.

Lemma same_safe_inv h ws ws' un gr gr' dirty : same_safe ws ws' gr gr' ->
  safe_inv globals h ws un gr dirty -> safe_inv globals h ws' un gr' dirty.
Proof.
  intros [Hg Hf Hw] [S1 S2 S3 S4].
  assert (Hsafe : forall v, safe globals h dirty gr ws v -> safe globals h dirty gr' ws' v).
  { intros v Hv Hwv. apply (prot_mono (white h) (sh_load h) dirty (gslot globals gr ws)); [| |by apply Hv|done].
    - intros a Ha Hcl _ _. split; [|done]. destruct Ha as [(j & x & Hx & Ha)|[Ha Hfl]]; [left; exists j, x; by rewrite Hg|right].
      split; [done|by apply Hf].
    - intros x a Hx _ Hcl _ _. split; [done|]. split; [done|]. left. by eapply prot_white. }
  split.
  - intros a Hd Ha. by apply Hsafe, S1.
  - intros x a Ho Hu Hwx Hn Ha. apply Hsafe, (S2 x); try done. intros j. rewrite <- Hg. apply Hn.
  - intros a Hfl Ha. apply Hsafe, S3; [by rewrite <- Hf|done].
  - intros j wj v Hj Hs Hv. destruct (Hw j wj Hj) as (wj0 & Hj0 & Hs0 & Hr0 & _). rewrite Hr0 in Hv.
    apply Hsafe, (S4 j wj0); [done|by apply Hs0|done].
Qed.

Section State.
Context (h : H) (ws : list mark_worker) (un : list Z) (gr : nat -> list Z) (dirty : Z -> Prop).
Hypothesis Hinv : inv h ws un gr dirty.

Lemma live_roots i w v : ws !! i = Some w -> v ∈ roots w -> lv un v.
Proof. intros Hi. apply (wl_roots _ _ _ _ (oi_live _ _ _ _ _ _ _ Hinv i w Hi)). Qed.

(** Whatever a worker is at, the next step succeeds. *)
Lemma run_step i w : ws !! i = Some w -> doing w <> Mutator \/ pending w <> None ->
  (pending w = None -> forall new a, doing w = Remember [] new (Some a) -> no_race ws i w) ->
  run_ok globals readonly h ws un i w.
Proof.
  intros Hi Hb Hrace. destruct (pending w) as [[x s]|] eqn:Hp; [by eapply run_link|].
  destruct Hb as [Hb|]; [|done]. pose proof (wl_doing _ _ _ _ (oi_live _ _ _ _ _ _ _ Hinv i w Hi)) as Hl.
  destruct (doing w) as [|old new dst|[|v todo] new dst|[|v todo] user|[|v todo]|[|a todo] [v|]|second top|second top obj [|a todo] [v|]] eqn:Hd;
    try done.
  - by eapply run_barrier.
  - destruct dst as [a|]; [eapply run_store; try done; by eapply Hrace|by destruct Hl as (_ & _ & [])].
  - by eapply run_remember.
  - by eapply run_user_end.
  - by eapply run_user.
  - by eapply run_worker_end.
  - by eapply run_worker.
  - by eapply run_globals.
  - by eapply run_globals_end.
  - by eapply run_globals.
  - by eapply run_global_load.
  - by eapply run_trace.
  - by eapply run_obj.
  - by eapply run_obj_end.
  - by eapply run_obj.
  - by eapply run_obj_load.
Qed.

(** A worker in ML code drops roots, or gets others that are safe. *)
Lemma roots_inv i w r : ws !! i = Some w -> doing w = Mutator -> (forall v, v ∈ r -> lv un v) ->
  (barriers_on ws -> scanned w -> forall v, v ∈ r -> v ∈ roots w \/ safe globals h dirty gr ws v) ->
  inv h (<[i := set_roots r w]> ws) un (upd gr i (gr i)) dirty.
Proof.
  intros Hi Hd Hr Hs. apply (pure_inv globals readonly h ws un gr dirty i w Hinv Hi); try done.
  - by left.
  - split; [done|]. cbn. by rewrite Hd.
  - unfold action_ok. cbn. rewrite Hd. by case_decide.
  - apply (oi_globalenum _ _ _ _ _ _ _ Hinv i w Hi).
  - intros Hon Hsc v Hv. destruct (Hs Hon Hsc v Hv); [left|]; tauto.
Qed.

Lemma accessible_safe i w a : ws !! i = Some w -> accessible globals w a -> barriers_on ws -> scanned w ->
  safe globals h dirty gr ws (sh_load h a).
Proof.
  intros Hi Ha Hon Hs. assert (Hsi := oi_safe _ _ _ _ _ _ _ Hinv Hon). destruct Ha as [Ha|(x & Hx & Hx0 & Ha)].
  - by apply (global_safe _ _ _ _ _ _ _ Hinv).
  - destruct (wl_roots _ _ _ _ (oi_live _ _ _ _ _ _ _ Hinv i w Hi) x Hx) as [|[Ho Hu]]; [done|].
    apply (load_safe _ _ _ _ _ _ _ Hinv x); [done..| |done]. by apply (sf_roots _ _ _ _ _ _ Hsi i w).
Qed.

Lemma load_inv i w a : ws !! i = Some w -> doing w = Mutator -> accessible globals w a ->
  inv h (<[i := set_roots (sh_load h a :: roots w) w]> ws) un (upd gr i (gr i)) dirty.
Proof.
  intros Hi Hd Ha. apply roots_inv; [done..| |].
  - intros v [->|Hv]%elem_of_cons; [|by apply (wl_roots _ _ _ _ (oi_live _ _ _ _ _ _ _ Hinv i w Hi))].
    apply (oi_slots _ _ _ _ _ _ _ Hinv). by apply (accessible_loc _ _ _ _ _ _ _ Hinv i w).
  - intros Hon Hs v [->|Hv]%elem_of_cons; [right; by apply (accessible_safe i w)|by left].
Qed.

Lemma write_inv i w a new : ws !! i = Some w -> doing w = Mutator -> accessible globals w a -> readonly a = false -> new ∈ 0 :: roots w ->
  inv h (<[i := set_doing (Barrier (sh_load h a) new (Some a)) w]> ws) un (upd gr i (gr i)) dirty.
Proof.
  intros Hi Hd Ha Hro Hn. assert (Hsc : scanned (set_doing (Barrier (sh_load h a) new (Some a)) w) <-> scanned w)
    by (unfold scanned, in_sync2; by rewrite Hd).
  apply (pure_inv globals readonly h ws un gr dirty i w Hinv Hi); try done.
  - unfold tops. by rewrite Hd.
  - unfold cur. by rewrite Hd.
  - left. unfold visits. by rewrite Hd.
  - split; [apply (oi_live _ _ _ _ _ _ _ Hinv i w Hi)|]. split; [|done]. apply (oi_slots _ _ _ _ _ _ _ Hinv). by apply (accessible_loc _ _ _ _ _ _ _ Hinv i w).
  - unfold action_ok. cbn. case_decide; [|done]. intros _. left. by left.
  - by rewrite Hsc.
  - rewrite Hsc. by apply (oi_globalenum _ _ _ _ _ _ _ Hinv i w Hi).
  - rewrite Hsc. intros _ Hs v Hv. by left.
Qed.

Lemma moved_user_inv i j w wj user : i <> j -> ws !! i = Some w -> ws !! j = Some wj -> doing w = Mutator -> user ⊆ roots wj ->
  wphase w < SYNC2 \/ SYNC2 < wphase w -> inv h (<[i := set_roots (user ++ roots w) w]> ws) un (upd gr i (gr i)) dirty.
Proof.
  intros Hij Hi Hj Hd Hu Hph. apply roots_inv; [done..| |].
  - intros v [Hv|Hv]%elem_of_app; [by apply (live_roots j wj), Hu|by apply (live_roots i w)].
  - intros Hon [Hs _] v [Hv|Hv]%elem_of_app; [right|by left]. apply (sf_roots _ _ _ _ _ _ (oi_safe _ _ _ _ _ _ _ Hinv Hon) j wj); [done| |by apply Hu].
    apply (oi_mark _ _ _ _ _ _ _ Hinv i w Hi) with j; [lia|done].
Qed.

Lemma enumerate_inv i j w wj user : ws !! i = Some w -> ws !! j = Some wj -> doing w = Mutator -> user ⊆ roots wj ->
  wphase w = SYNC2 -> inv h (<[i := set_doing (UserSync2 user user) w]> ws) un (upd gr i (gr i)) dirty.
Proof.
  intros Hi Hj Hd Hu Hph. assert (Hsc : scanned (set_doing (UserSync2 user user) w) <-> scanned w)
    by (unfold scanned, in_sync2; by rewrite Hd).
  apply (pure_inv globals readonly h ws un gr dirty i w Hinv Hi); try done.
  - unfold tops. by rewrite Hd.
  - unfold cur. by rewrite Hd.
  - left. unfold visits. by rewrite Hd.
  - split; [apply (oi_live _ _ _ _ _ _ _ Hinv i w Hi)|]. split; [|done]. intros v Hv. by apply (live_roots j wj), Hu.
  - unfold action_ok. cbn. rewrite Hph, decide_True by done. split; [done|]. intros v Hv. by left.
  - by rewrite Hsc.
  - rewrite Hsc. by apply (oi_globalenum _ _ _ _ _ _ _ Hinv i w Hi).
  - rewrite Hsc. intros _ Hs v Hv. by left.
Qed.

(** A handshake. *)
Lemma phase_inv i w w' : ws !! i = Some w -> tops w' = tops w -> cur w' = cur w -> pending w' = pending w ->
  (visits w' = false -> visits w = false) \/ pending w = None -> globalenum w' = globalenum w -> roots w' = roots w ->
  live un w' -> action_ok globals h dirty w' -> (scanned w' <-> scanned w) ->
  (SYNC1 <= wphase w -> SYNC1 <= wphase w') -> (SYNC1 < wphase w' -> barriers_on ws) ->
  (SYNC2 < wphase w' -> forall j wj, ws !! j = Some wj -> scanned wj) ->
  inv h (<[i := w']> ws) un (upd gr i (gr i)) dirty.
Proof.
  intros Hi Ht Hc Hp Htr Hge Hr Hl Hact Hsc H1 H2 H3. set (ws' := <[i := w']> ws).
  assert (Hss : same_safe ws ws' gr (upd gr i (gr i))).
  { split; [intros j x; unfold upd; by case_decide; subst|by apply (flagged_insert ws i w)|].
    intros j wj Hj. apply lookup_insert_cases in Hj as [[-> ->]|[_ Hj]]; [by exists w|by exists wj]. }
  assert (Hon : barriers_on ws -> barriers_on ws').
  { intros Hon j wj Hj. apply lookup_insert_cases in Hj as [[-> ->]|[_ Hj]]; [by apply H1, (Hon i)|by apply (Hon j)]. }
  split; try apply Hinv.
  - apply (stacks_same h ws gr i w); [apply Hinv..|done|done|done|done|done].
  - intros j wj Hj. apply lookup_insert_cases in Hj as [[-> ->]|[_ Hj]]; [done|by apply (oi_live _ _ _ _ _ _ _ Hinv j)].
  - intros j wj Hj. apply lookup_insert_cases in Hj as [[-> ->]|[_ Hj]]; [done|by apply (oi_action _ _ _ _ _ _ _ Hinv j)].
  - intros j wj Hj Hph. apply Hon. apply lookup_insert_cases in Hj as [[-> ->]|[_ Hj]]; [by apply H2|by apply (oi_sync2 _ _ _ _ _ _ _ Hinv j wj)].
  - intros j wj Hj Hph k wk Hk. destruct (ss_worker _ _ _ _ Hss k wk Hk) as (wk0 & Hk0 & Hs & _). apply Hs.
    apply lookup_insert_cases in Hj as [[-> ->]|[_ Hj]]; [by apply (H3 Hph k)|by apply (oi_mark _ _ _ _ _ _ _ Hinv j wj Hj Hph k)].
  - intros j wj Hj Hs. destruct (ss_worker _ _ _ _ Hss j wj Hj) as (wj0 & Hj0 & Hs0 & _ & ->).
    apply (oi_globalenum _ _ _ _ _ _ _ Hinv j wj0 Hj0). by apply Hs0.
  - intros Hoff. apply (same_early h ws ws' un gr); [done|]. apply (oi_early _ _ _ _ _ _ _ Hinv). tauto.
  - intros Hon'. destruct (barriers_on_dec ws) as [Hb|Hb]; [by apply (same_safe_inv h ws ws' un gr), (oi_safe _ _ _ _ _ _ _ Hinv)|].
    apply all_on; [by apply (same_early h ws ws' un gr), (oi_early _ _ _ _ _ _ _ Hinv)|]. intros j wj Hj Hs.
    destruct (ss_worker _ _ _ _ Hss j wj Hj) as (wj0 & Hj0 & Hs0 & _). pose proof (proj1 Hs0 Hs) as [Hsp _].
    apply Hb, (oi_sync2 _ _ _ _ _ _ _ Hinv j wj0 Hj0). unfold SYNC1, SYNC2 in *. lia.
Qed.

Lemma action_phase w p : SYNC1 <= wphase w -> SYNC1 <= p <= PREMARK -> (SYNC2 <= wphase w <-> SYNC2 <= p) ->
  (SYNC2 < wphase w -> SYNC2 < p) -> (wphase w = SYNC2 -> in_sync2 w = false) ->
  action_ok globals h dirty w -> action_ok globals h dirty (set_phase p w).
Proof.
  intros Hw Hp H2 H3 Hs Hok. unfold action_ok in *. cbn [set_phase wphase]. rewrite decide_True in Hok by lia. rewrite decide_True by lia.
  unfold scanned in *. unfold in_sync2 in *. cbn [set_phase wphase doing roots globalenum].
  destruct (doing w) as [|old new [a|]|todo new [a|]|todo user|todo|todo l|second top|second top obj todo l]; try done.
  - destruct Hok as [? [[? ?]|?]]; split; try done; [left; split; [by apply H2|done]|by right].
  - destruct Hok as [? ?]. split; [|done]. split; [apply H2; lia|lia].
  - destruct Hok as [Hps _]. by specialize (Hs Hps).
  - destruct Hok as [Hps _]. by specialize (Hs Hps).
  - by apply H3.
  - destruct Hok as [? ?]. split; [by apply H3|done].
Qed.

(** The phase changes in the middle of any action. *)
Lemma announce_inv i w p : ws !! i = Some w -> (wphase w < SYNC1 /\ p < SYNC1 \/ SYNC1 <= wphase w /\ SYNC1 <= p) ->
  (SYNC2 <= wphase w <-> SYNC2 <= p) -> action_ok globals h dirty (set_phase p w) -> (SYNC1 < p -> barriers_on ws) ->
  (SYNC2 < p -> forall j wj, ws !! j = Some wj -> scanned wj) ->
  inv h (<[i := set_phase p w]> ws) un (upd gr i (gr i)) dirty.
Proof.
  intros Hi H1 H2 Hact H3 H4. apply (phase_inv i w); try done.
  - by left.
  - destruct (oi_live _ _ _ _ _ _ _ Hinv i w Hi) as [L1 L2]. by split.
  - unfold scanned, in_sync2. cbn. by rewrite H2.
  - cbn. lia.
Qed.
End State.

(** *** One step *)
Definition coll_inv (s : collection H) : Prop :=
  exists gr dirty, inv (cheap s) (workers s) (unused s) gr dirty.

(** A worker gives up roots while another one changes. *)
Lemma taken_roots h ws un gr gr' dirty dirty' i j w' wj r : inv h (<[i := w']> ws) un gr dirty ->
  inv h ws un gr' dirty' -> i <> j -> ws !! j = Some wj -> doing wj = Mutator -> r ⊆ roots wj ->
  inv h (<[j := set_roots r wj]> (<[i := w']> ws)) un (upd gr j (gr j)) dirty.
Proof.
  intros Hinv' Hinv Hij Hj Hd Hr. apply roots_inv; [done|by rewrite list_lookup_insert_ne|done| |].
  - intros v Hv. by apply (live_roots _ _ _ _ _ Hinv j wj), Hr.
  - intros _ _ v Hv. left. by apply Hr.
Qed.

(** What a worker without an action to finish has on its stacks. *)
Local Ltac by_doing Hd :=
  first [ by unfold tops; cbn; rewrite Hd | by unfold cur; cbn; rewrite Hd | by left; unfold visits; rewrite Hd ].

Lemma coll_step s s' : coll_inv s -> otf_step globals readonly false false s s' -> coll_inv s'.
Proof.
  intros (gr & dirty & Hinv) Hstep.
  destruct Hstep as [s i w h w' Hi Hrace Hrun|s i w a Hi Hd Ha|s i w r Hi Hd Hr|s i w x vs Hi Hd Hx Ht Hlen Hvs|s i w a new Hi Hd Ha Hro Hn
    |s i w a new Hcas Hi Hd Ha Hro Hn|s i j w wj r user Hij Hi Hj Hd Hdj Hr Hu Hph|s i j w wj r user Hij Hi Hj Hd Hdj Hr Hu Hph
    |s i w Hi Hph|s i w Hi Hph Hd|s i w Hi Hph Hall|s i w Hi Hph Hd|s i w Hi Hph Hall|s i w Hi Hph Hd|s i w Hi Hph Htr];
    unfold coll_inv; cbn [cheap workers unused];
    assert (Hok := oi_action _ _ _ _ _ _ _ Hinv i w Hi).
  - destruct (run_step _ _ _ _ _ Hinv i w Hi) as (h1 & w1 & Hrun1 & gr' & dirty' & Hinv'); [|intros; by apply Hrace|].
    + destruct (doing w) eqn:Hd; try (by left). right. intros Hp. unfold worker_run in Hrun. by rewrite Hp, Hd in Hrun.
    + assert (h1 = h /\ w1 = w') as [-> ->] by (rewrite Hrun in Hrun1; by injection Hrun1). by exists gr', dirty'.
  - do 2 eexists. by apply load_inv.
  - do 2 eexists. apply roots_inv; [done..|intros v Hv; by apply (live_roots _ _ _ _ _ Hinv i w), Hr|intros _ _ v Hv; left; by apply Hr].
  - do 2 eexists. by apply (alloc_inv globals readonly globals_location globals_apart).
  - do 2 eexists. by apply write_inv.
  - done.
  - do 2 eexists. rewrite list_insert_insert_ne by done.
    eapply taken_roots; [eapply (moved_user_inv _ _ _ _ _ Hinv i j); done|exact Hinv|done..].
  - do 2 eexists. rewrite list_insert_insert_ne by done.
    eapply taken_roots; [eapply (enumerate_inv _ _ _ _ _ Hinv i j); done|exact Hinv|done..].
  - do 2 eexists. apply (announce_inv _ _ _ _ _ Hinv i w PRESYNC1); rewrite ?Hph; try done; [left; done|].
    unfold action_ok in *. by rewrite Hph in Hok.
  - do 2 eexists. apply (phase_inv _ _ _ _ _ Hinv i w); try done; [by left|..].
    + destruct (oi_live _ _ _ _ _ _ _ Hinv i w Hi) as [L1 L2]. by split.
    + unfold action_ok. cbn. by rewrite Hd.
    + unfold scanned, in_sync2. cbn. rewrite Hph. done.
  - do 2 eexists. apply (announce_inv _ _ _ _ _ Hinv i w PRESYNC2); rewrite ?Hph; try done; [by right|].
    apply action_phase; rewrite ?Hph; done.
  - do 2 eexists. apply (phase_inv _ _ _ _ _ Hinv i w); try done; try by_doing Hd.
    + split; [apply (oi_live _ _ _ _ _ _ _ Hinv i w Hi)|by intros v].
    + unfold action_ok. cbn. split; [done|]. intros v Hv. by left.
    + unfold scanned, in_sync2. cbn. rewrite Hph. split; [by intros [_ ?]|by intros [? _]].
    + intros _. apply (oi_sync2 _ _ _ _ _ _ _ Hinv i w Hi). by rewrite Hph.
  - do 2 eexists. apply (announce_inv _ _ _ _ _ Hinv i w PREMARK); rewrite ?Hph; try done; [by right| |].
    + apply action_phase; rewrite ?Hph; try done. intros _. by apply (Hall i).
    + intros _ j wj Hj. pose proof (Hall j wj Hj) as [Hs _]. unfold SYNC1, SYNC2 in *. lia.
  - do 2 eexists. apply (phase_inv _ _ _ _ _ Hinv i w); try done; try by_doing Hd.
    + split; [apply (oi_live _ _ _ _ _ _ _ Hinv i w Hi)|done].
    + unfold scanned, in_sync2. cbn. by rewrite Hph, Hd.
    + intros _. apply (oi_sync2 _ _ _ _ _ _ _ Hinv i w Hi). by rewrite Hph.
    + intros _. apply (oi_mark _ _ _ _ _ _ _ Hinv i w Hi). by rewrite Hph.
  - do 2 eexists. apply (announce_inv _ _ _ _ _ Hinv i w PREMARK); rewrite ?Hph; try done; [by right| | |].
    + apply action_phase; rewrite ?Hph; try done.
    + intros _. apply (oi_sync2 _ _ _ _ _ _ _ Hinv i w Hi). by rewrite Hph.
    + intros _. apply (oi_mark _ _ _ _ _ _ _ Hinv i w Hi). by rewrite Hph.
Qed.
End Reach.
