(* ===== verification/OnTheFlyThms.v ===== *)
(** * Marking while the program runs: the theorems

    When [sml_heap_mark_finish] finds nothing left to trace, everything that
    the program can still reach is marked. *)
From Stdlib Require Import ZArith Lia.
From stdpp Require Import base option list relations.
From S2P Require Import Prelude Alloc Trace TraceSpec OnTheFly OnTheFlyInv OnTheFlyTri OnTheFlySteps OnTheFlyStores OnTheFlyReach.

Local Open Scope Z_scope.

Section Theorems.
Context {H : Type} `{SharedHeap H} (globals : list Z) (readonly : Z -> bool).
Hypothesis globals_location : forall a, a ∈ globals -> location a.
Hypothesis globals_apart : forall a x, a ∈ globals -> object x -> a ∉ fields x.
Notation step := (otf_step globals readonly false false).
Notation inv := (otf_inv globals readonly).

(** Before a collection: nothing is marked, the stacks are empty and all
    workers run ML code.  What is not subject to the collection has constant
    fields, to objects of that kind. *)
Record otf_init (s : collection H) : Prop := {
  in_good : good (cheap s);
  in_worker i w : workers s !! i = Some w -> wphase w = ASYNC /\ doing w = Mutator /\ pending w = None /\
    walloc w = Allocator 0 0 /\ forall v, v ∈ roots w -> lv (unused s) v;
  in_flagged : flagged (workers s);
  in_unused x : x ∈ unused s -> object x;
  in_marked x : object x -> marked (cheap s) x = false;
  in_slots x : object x -> mk_next (cheap s) (slot_of x) = 0;
  in_values a : loc globals (unused s) a -> lv (unused s) (sh_load (cheap s) a);
  in_constant x a : object x -> x ∉ unused s -> target (cheap s) x = false -> a ∈ fields x ->
    readonly a = true /\ white (cheap s) (sh_load (cheap s) a) = false
}.

Lemma otf_init_inv s : otf_init s -> inv (cheap s) (workers s) (unused s) (fun _ => []) (fun _ => False).
Proof.
  intros [I1 I2 I3 I4 I5 I6 I7 I8].
  assert (Hoff : ~ barriers_on (workers s)).
  { destruct I3 as (i & w & Hi & _). intros Hon. specialize (Hon i w Hi). destruct (I2 i w Hi) as [Hp _]. rewrite Hp in Hon. done. }
  assert (Hns : forall i w, workers s !! i = Some w -> ~ SYNC1 < wphase w) by (intros i w Hi; destruct (I2 i w Hi) as [-> _]; done).
  split; try done.
  - split; try done.
    + intros i w Hi. destruct (I2 i w Hi) as (Hp & Hd & Hpd & Hal & _). split; [|by rewrite Hpd|done].
      exists [[]; []]. unfold tops, pend, cur. rewrite Hd, Hpd, Hal. split; [by forall2_split|done].
    + intros i. constructor.
    + intros i j x Hx. by apply elem_of_nil in Hx.
    + intros i x Hx. by apply elem_of_nil in Hx.
    + intros x Ho _. by apply I6.
  - intros x Hx. split; [by apply I4|by apply I5, I4].
  - intros i w Hi. destruct (I2 i w Hi) as (Hp & Hd & Hpd & Hal & Hr). split; [done|by rewrite Hd].
  - intros i w Hi. destruct (I2 i w Hi) as (Hp & Hd & _). unfold action_ok. by rewrite Hp, Hd.
  - intros i w Hi Hph. by destruct (Hns i w Hi).
  - intros i w Hi Hph. destruct (Hns i w Hi). unfold SYNC1, SYNC2 in *. lia.
  - intros i w Hi [Hph _]. destruct (Hns i w Hi). unfold SYNC1, SYNC2 in *. lia.
  - intros a. right. by intros [].
  - intros _. split; [intros a; by intros []|done| |done]. intros x Ho _ Hm. by rewrite I5 in Hm.
Qed.

Lemma coll_reachable s0 s : otf_init s0 -> rtc step s0 s -> coll_inv globals readonly s.
Proof.
  intros Hi Hs. assert (Hinv : coll_inv globals readonly s0) by (do 2 eexists; by apply otf_init_inv).
  clear Hi. induction Hs as [s|s s1 s2 Hst _ IH]; [done|]. apply IH. by apply (coll_step globals readonly globals_location globals_apart s).
Qed.

(** ** What remains when every worker has answered *)
Section Answered.
Context (h : H) (ws : list mark_worker) (un : list Z) (gr : nat -> list Z) (dirty : Z -> Prop).
Hypothesis Hinv : inv h ws un gr dirty.

(** After its answer a worker only remembers. *)
Lemma traced_doing i w : ws !! i = Some w -> traced w ->
  match doing w with
  | Mutator | Barrier _ _ _ => pending w = None
  | Remember _ _ _ => forall x s, pending w = Some (x, s) -> x <> 0
  | _ => False
  end.
Proof.
  intros Hi [Hph Htr]. pose proof (oi_action _ _ _ _ _ _ _ Hinv i w Hi) as Hok. unfold action_ok in Hok. rewrite Hph in Hok.
  rewrite decide_True in Hok by done. unfold tracing in Htr.
  destruct (si_stacks _ _ _ (oi_stacks _ _ _ _ _ _ _ Hinv) i w Hi) as [(xss & _ & Hgi) _ Hidle]. unfold visits in Hidle.
  destruct (doing w) as [|? ? [|]|? ? [|]|todo user|todo|todo l| |] eqn:Hd; try done; try (by apply Hidle).
  - intros x s Hp. assert (Hx : x ∈ gr i) by (rewrite Hgi; unfold pend; rewrite Hp; by left).
    destruct (si_gray _ _ _ (oi_stacks _ _ _ _ _ _ _ Hinv) i x Hx) as [Ho _]. intros ->. by apply object_0.
  - destruct Hok as [[_ Hp] _]. done.
  - by destruct Hok.
  - by destruct Hok.
Qed.

Lemma run_answered i w h' w' : ws !! i = Some w -> traced w -> worker_run globals h w = Ok (h', w') ->
  wphase w' = wphase w /\ root_set (walloc w') = root_set (walloc w) /\
  (remembered_set (walloc w) <> 0 -> remembered_set (walloc w') <> 0).
Proof.
  intros Hi Ht Hrun. pose proof (traced_doing i w Hi Ht) as Hd. unfold worker_run in Hrun.
  destruct (pending w) as [[x s]|] eqn:Hp.
  - destruct (doing w) as [| |todo new dst| | | | |] eqn:Hdw; try done.
    res_inv. unfold set_stack_top. rewrite Hdw. cbn. split; [done|]. split; [done|]. intros _. by apply (Hd x s).
  - destruct (doing w) as [| |[|v todo] new [a|]| | | | |] eqn:Hdw; try done; unfold visit_value in Hrun;
      try (destruct (mk_visit h v) as [[slot h1]| | |]; try done; cbn [mbind res_bind] in Hrun); by injection Hrun as <- <-.
Qed.

(** Nothing is left: no object is gray, so what is safe is marked. *)
Lemma all_done : (forall i w, ws !! i = Some w -> traced w /\ walloc w = Allocator 0 0 /\ pending w = None) ->
  barriers_on ws /\ (forall i, gr i = []) /\ ~ flagged ws /\ forall v, safe globals h dirty gr ws v -> white h v = false.
Proof.
  intros Hall.
  assert (Hgr : forall i, gr i = []).
  { intros i. destruct (ws !! i) as [w|] eqn:Hi; [|by apply (si_none _ _ _ (oi_stacks _ _ _ _ _ _ _ Hinv))].
    destruct (Hall i w Hi) as (Ht & Hal & Hp). pose proof (traced_doing i w Hi Ht) as Hd.
    destruct (si_stacks _ _ _ (oi_stacks _ _ _ _ _ _ _ Hinv) i w Hi) as [(xss & Hl & ->) _ _].
    unfold pend, cur, tops in *. rewrite Hp. rewrite Hal in Hl. destruct (doing w); try done; forall2_inv;
      repeat match goal with E : linked_stack _ _ _ |- _ => apply linked_0 in E as -> end; done. }
  assert (Hfl : ~ flagged ws).
  { intros (i & w & Hi & Hg). destruct (Hall i w Hi) as (Ht & _). pose proof (traced_doing i w Hi Ht) as Hd. destruct Ht as [Hph _].
    rewrite (oi_globalenum _ _ _ _ _ _ _ Hinv i w Hi) in Hg; [done|]. split; [by rewrite Hph|]. unfold in_sync2. by destruct (doing w). }
  split; [intros i w Hi; destruct (Hall i w Hi) as [[-> _] _]; done|]. split; [done|]. split; [done|].
  intros v Hs. apply not_true_iff_false. intros Hw. specialize (Hs Hw). clear Hw.
  assert (Hno : forall a, ~ gslot globals gr ws a).
  { intros a [(i & x & Hx & _)|[_ Hf]]; [rewrite Hgr in Hx; by apply elem_of_nil in Hx|done]. }
  induction Hs as [a Ha|x a _ IH]; [by apply (Hno a)|done].
Qed.
End Answered.

(** A worker that has answered keeps its stacks, and those of the others do
    not get empty either. *)
Definition all_traced (s : collection H) : Prop := forall i w, workers s !! i = Some w -> traced w.
Definition quiet (s s' : collection H) : Prop := step s s' /\ all_traced s.

Lemma quiet_kept s s' i w : coll_inv globals readonly s -> quiet s s' -> workers s !! i = Some w ->
  exists w', workers s' !! i = Some w' /\ (remembered_set (walloc w) <> 0 -> remembered_set (walloc w') <> 0).
Proof.
  intros (gr & dirty & Hinv) [Hst Ht] Hi.
  assert (Hup : forall j wj wj', workers s !! j = Some wj -> (remembered_set (walloc wj) <> 0 -> remembered_set (walloc wj') <> 0) ->
    exists w', <[j := wj']> (workers s) !! i = Some w' /\ (remembered_set (walloc w) <> 0 -> remembered_set (walloc w') <> 0)).
  { intros j wj wj' Hj Hk. destruct (decide (j = i)) as [->|Hne].
    - exists wj'. rewrite list_lookup_insert_eq by (by eapply lookup_lt_Some). split; [done|]. by assert (wj = w) as -> by congruence.
    - exists w. by rewrite list_lookup_insert_ne. }
  destruct Hst; cbn [workers] in *; try (by eapply Hup); try done.
  - eapply Hup; [done|]. eapply (run_answered _ _ _ _ _ Hinv); [done|by apply (Ht i0)|done].
  - destruct (decide (j = i)) as [->|Hne]; destruct (decide (i0 = i)) as [->|Hne']; try done.
    + rewrite list_lookup_insert_ne, list_lookup_insert_eq by (done || by eapply lookup_lt_Some). eexists. split; [done|].
      cbn. by assert (wj = w) as -> by congruence.
    + rewrite list_lookup_insert_eq by (rewrite length_insert; by eapply lookup_lt_Some). eexists. split; [done|].
      cbn. by assert (w0 = w) as -> by congruence.
    + exists w. by rewrite !list_lookup_insert_ne.
  - match goal with Hq : wphase _ = SYNC2 |- _ => rename Hq into Hph end.
    destruct (Ht i0 w0) as [Hph' _]; [done|]. rewrite Hph in Hph'. done.
Qed.

Lemma quiet_empty s s' i w w' : coll_inv globals readonly s -> rtc quiet s s' -> workers s !! i = Some w -> workers s' !! i = Some w' ->
  remembered_set (walloc w') = 0 -> remembered_set (walloc w) = 0.
Proof.
  intros Hs Hq Hi Hi' Hz. revert w Hi. induction Hq as [s|s s1 s2 Hst _ IH]; intros w Hi; [congruence|].
  destruct (quiet_kept s s1 i w Hs Hst Hi) as (w1 & Hi1 & Hk).
  destruct (Z.eq_dec (remembered_set (walloc w)) 0) as [|Hne]; [done|]. destruct (Hk Hne). apply (IH) in Hi1; [done| |done].
  destruct Hst as [Hst _]. by apply (coll_step globals readonly globals_location globals_apart s).
Qed.

(** The root set of a worker that has answered is empty. *)
Definition roots_traced (s : collection H) : Prop :=
  forall i w, workers s !! i = Some w -> traced w -> root_set (walloc w) = 0.

Lemma run_phase h w h' w' : worker_run globals h w = Ok (h', w') -> wphase w' = wphase w.
Proof.
  unfold worker_run, visit_value, set_stack_top. intros Hrun. repeat case_match; try done; res_inv; try done;
    repeat case_match; try done; res_inv; done.
Qed.

Lemma visit_value_worker h v w h' w' : visit_value h v w = Ok (h', w') -> exists p, w' = set_pending p w.
Proof. unfold visit_value. intros Hrun. apply res_bind_ok in Hrun as ([slot h1] & _ & Hrun). injection Hrun as _ <-. by eexists. Qed.

Lemma run_tracing h w h' w' : tracing w = true -> pending w = None \/ visits w = true -> worker_run globals h w = Ok (h', w') ->
  tracing w' = true \/ walloc w' = Allocator 0 0.
Proof.
  unfold worker_run, tracing at 1, visits. intros Ht Hp Hrun.
  destruct (doing w) as [| | | | | |second top|second top obj [|a todo] [v|]] eqn:Hd; try done;
    destruct (pending w) as [[x sl]|]; try (by destruct Hp);
    try (by apply visit_value_worker in Hrun as [p ->]; left);
    try (apply res_bind_ok in Hrun as (? & _ & Hrun); injection Hrun as _ <-; left; unfold tracing, set_stack_top; by rewrite Hd);
    try (by injection Hrun as _ <-; left).
  destruct (top =? 0).
  - injection Hrun as _ <-. destruct second; [by right|by left].
  - do 3 apply res_bind_ok in Hrun as (? & _ & Hrun). injection Hrun as _ <-. by left.
Qed.

Lemma roots_insert (ws : list mark_worker) i w' : (forall j w, ws !! j = Some w -> traced w -> root_set (walloc w) = 0) ->
  (traced w' -> root_set (walloc w') = 0) -> forall j w, <[i := w']> ws !! j = Some w -> traced w -> root_set (walloc w) = 0.
Proof. intros Hws Hw j w Hj. apply lookup_insert_cases in Hj as [[-> ->]|[_ Hj]]; [done|by apply (Hws j)]. Qed.

Lemma step_roots s s' : coll_inv globals readonly s -> roots_traced s -> step s s' -> roots_traced s'.
Proof.
  intros (gr & dirty & Hinv) Hr Hst. unfold roots_traced in *.
  assert (Hsame : forall i w w', workers s !! i = Some w -> (traced w' -> traced w) -> walloc w' = walloc w -> traced w' -> root_set (walloc w') = 0)
    by (intros i w w' Hi Ht -> Hw; apply (Hr i w); tauto).
  destruct Hst as [s i w h w' Hi Hrace Hrun|s i w a Hi Hd Ha|s i w r Hi Hd Hsub|s i w x vs Hi Hd Hx Ht Hlen Hvs|s i w a new Hi Hd Ha Hro Hn
    |s i w a new Hcas Hi Hd Ha Hro Hn|s i j w wj r user Hij Hi Hj Hd Hdj Hsub Hu Hph|s i j w wj r user Hij Hi Hj Hd Hdj Hsub Hu Hph
    |s i w Hi Hph|s i w Hi Hph Hd|s i w Hi Hph Hall|s i w Hi Hph Hd|s i w Hi Hph Hall|s i w Hi Hph Hd|s i w Hi Hph Htr];
    cbn [workers] in *; try apply roots_insert; try done; try (apply (Hsame i w); done);
    try (by intros [Hph' _]); try (apply (Hsame i w); [done|intros [Hph' _]; split; [done|unfold tracing; by rewrite Hd]|done]).
  - intros [Hph Htr]. assert (Hpw := run_phase (cheap s) w h w' Hrun). rewrite Hph in Hpw.
    destruct (tracing w) eqn:Htw.
    + destruct (run_tracing (cheap s) w h w' Htw) with (2 := Hrun) as [?|Hal]; [|congruence|by rewrite Hal].
      destruct (pending w) eqn:Hp; [right|by left]. destruct (si_stacks _ _ _ (oi_stacks _ _ _ _ _ _ _ Hinv) i w Hi) as [_ _ Hidle].
      destruct (visits w); [done|]. rewrite Hidle in Hp; done.
    + destruct (run_answered _ _ _ _ _ Hinv i w h w' Hi) as (_ & -> & _); [done|done|]. by apply (Hr i w).
  - apply roots_insert; [done|]. by apply (Hsame j wj).
  - apply roots_insert; [done|]. by apply (Hsame j wj).
  - by intros [_ Htr].
Qed.

(** *** Reachable objects *)
Inductive reachable (s : collection H) : Z -> Prop :=
| reach_root i w x : workers s !! i = Some w -> x ∈ roots w -> reachable s x
| reach_global a : a ∈ globals -> reachable s (sh_load (cheap s) a)
| reach_field x a : reachable s x -> object x -> a ∈ fields x -> reachable s (sh_load (cheap s) a).

Lemma reachable_done s x : coll_inv globals readonly s ->
  (forall i w, workers s !! i = Some w -> traced w /\ walloc w = Allocator 0 0 /\ pending w = None) ->
  reachable s x -> lv (unused s) x /\ white (cheap s) x = false.
Proof.
  intros (gr & dirty & Hinv) Hall. destruct (all_done _ _ _ _ _ Hinv Hall) as (Hon & Hgr & Hfl & Hdone).
  assert (Hslots := oi_slots _ _ _ _ _ _ _ Hinv).
  destruct (oi_safe _ _ _ _ _ _ _ Hinv Hon) as [_ S2 S3 S4]. induction 1 as [i w x Hi Hx|a Ha|x a Hx [Hlv Hw] Ho Ha].
  - split; [by apply (live_roots _ _ _ _ _ _ _ Hinv i w)|]. apply Hdone, (S4 i w); [done| |done]. destruct (Hall i w Hi) as [Ht _].
    pose proof (traced_doing _ _ _ _ _ Hinv i w Hi Ht) as Hd. destruct Ht as [Hph _]. split; [by rewrite Hph|].
    unfold in_sync2. by destruct (doing w).
  - split; [apply Hslots; by left|]. by apply Hdone, S3.
  - destruct Hlv as [->|[_ Hu]]; [by destruct object_0|]. split; [apply Hslots; right; by exists x|].
    apply Hdone, (S2 x); try done. intros i. rewrite Hgr. apply not_elem_of_nil.
Qed.

(** What [sml_heap_mark_finish] makes sure of: all workers have answered, and
    each remembered set has been seen empty since; and that no worker is
    between the two halves of [remember]. *)
Lemma mark_finish_done s0 s x : otf_init s0 -> rtc step s0 s -> all_traced s ->
  (forall i w, workers s !! i = Some w -> pending w = None) ->
  (forall i w, workers s !! i = Some w -> exists s' w', rtc quiet s s' /\ workers s' !! i = Some w' /\ remembered_set (walloc w') = 0) ->
  reachable s x -> object x -> target (cheap s) x = true -> marked (cheap s) x = true.
Proof.
  intros Hi Hrun Hans Hpend Hlook Hx Ho Ht.
  assert (Hinv : coll_inv globals readonly s) by (by apply (coll_reachable s0)).
  assert (Hroots : roots_traced s).
  { assert (Hr0 : roots_traced s0) by (intros i w Hw _; destruct (in_worker _ Hi i w Hw) as (_ & _ & _ & -> & _); done).
    assert (Hinv0 : coll_inv globals readonly s0) by (by apply (coll_reachable s0 s0 Hi)).
    clear Hi Hans Hpend Hlook Hx Ht Hinv. induction Hrun as [s|s s1 s2 Hst _ IH]; [done|]. apply IH.
    - by apply (step_roots s).
    - by apply (coll_step globals readonly globals_location globals_apart s). }
  destruct (reachable_done s x Hinv) as [_ Hw]; [|done|].
  - intros i w Hw. split; [by apply (Hans i)|]. split; [|by apply (Hpend i)]. destruct (Hlook i w Hw) as (s' & w' & Hq & Hw' & Hz).
    apply (quiet_empty s s' i w w' Hinv Hq Hw Hw') in Hz. pose proof (Hroots i w Hw (Hans i w Hw)) as Hrt.
    destruct (walloc w) as [r m]. cbn in *. by subst.
  - unfold white in Hw. rewrite Ht in Hw. assert (x =? 0 = false) as E by (apply Z.eqb_neq; intros ->; by apply object_0).
    rewrite E in Hw. cbn in Hw. by apply negb_false_iff in Hw.
Qed.

(** No step of a worker fails. *)
Lemma worker_never_fails s0 s i w : otf_init s0 -> rtc step s0 s -> workers s !! i = Some w -> doing w <> Mutator ->
  exists h' w', worker_run globals (cheap s) w = Ok (h', w').
Proof.
  intros Hi Hrun Hw Hd. destruct (coll_reachable s0 s Hi Hrun) as (gr & dirty & Hinv).
  assert (Hcase : (exists new a, pending w = None /\ doing w = Remember [] new (Some a)) \/
    forall new a, pending w = None -> doing w <> Remember [] new (Some a)).
  { destruct (pending w) eqn:Hp; [by right|]. destruct (doing w) as [| |[|v todo] new [a|]| | | | |]; try (by right). left. by exists new, a. }
  destruct Hcase as [(new & a & Hp & Hd')|Hns].
  - exists (sh_store a new (cheap s)), (set_doing Mutator w). unfold worker_run. by rewrite Hp, Hd'.
  - destruct (run_step globals readonly globals_location _ _ _ _ _ Hinv i w Hw) as (h' & w' & Hr & _); [by left| |by exists h', w'].
    intros Hp new a Hd'. by destruct (Hns new a Hp).
Qed.
End Theorems.
