(* ===== verification/OnTheFlyHeap.v ===== *)
(** * Marking while the program runs: the heap

    The bitmaps, the malloc segments and the memory of Trace.v implement the
    class [SharedHeap].  With them the theorems of OnTheFlyThms.v are about
    [visit], [object_stack_slot], [sml_obj_enum_ptr] and the accesses of the
    code. *)
From Stdlib Require Import ZArith Lia.
From stdpp Require Import base option list gmap relations.
From S2P Require Import Prelude Alloc Memory Object Malloc Trace TraceSpec TraceThms Barrier OnTheFly.

Local Open Scope Z_scope.

Definition shared_heap : Type := mem * marks.

Section Heap.
(** The memory at the start, the addresses of the objects, the layouts of
    the segments, and the addresses of pointers that may be assigned to. *)
Context (m0 : mem) (Obj : Z -> Prop) (lay : Z -> nat) (Loc : Z -> Prop).

Definition heap_fields (x : Z) : list Z := match sml_obj_enum_ptr m0 x with Ok ps => ps | _ => [] end.

Record heap_shape : Prop := {
  hs_objects : objects_ok m0 Obj lay;
  hs_word x : Obj x -> 0 <= x < 2 ^ 64;
  hs_enum x : Obj x -> is_skip m0 x = false -> exists ps, sml_obj_enum_ptr m0 x = Ok ps;
  hs_write a : Loc a -> write_ok m0 Obj a;
  hs_apart a b : Loc a -> Loc b -> a = b \/ a + 8 <= b \/ b + 8 <= a;
  hs_fields x a : Obj x -> a ∈ heap_fields x -> Loc a;
  hs_disjoint x y a : Obj x -> Obj y -> a ∈ heap_fields x -> a ∈ heap_fields y -> x = y
}.
Hypothesis Hshape : heap_shape.

(** The headers and bitmaps do not change. *)
Definition same_shape (m : mem) : Prop :=
  forall x, Obj x -> OBJ_HEADER m x = OBJ_HEADER m0 x /\ sml_obj_enum_ptr m x = sml_obj_enum_ptr m0 x.
Record heap_good (h : shared_heap) : Prop := {
  hg_objects : objects_ok h.1 Obj lay;
  hg_shape : same_shape h.1;
  hg_marks : marks_ok h.1 Obj lay h.2
}.

Definition heap_visit (h : shared_heap) (x : Z) : res (option stack_slot * shared_heap) :=
  '(r, g) ← visit h.1 h.2 x; Ok (r, (h.1, g)).

Lemma slot_header m x : OBJ_HEADER m x = OBJ_HEADER m0 x -> object_slot m lay x = object_slot m0 lay x.
Proof. intros Hx. unfold object_slot, is_large, OBJ_TOTAL_SIZE, OBJ_NUM_BITMAPS, OBJ_TYPE, OBJ_SIZE. by rewrite Hx. Qed.

Lemma write_same m a : same_shape m -> Loc a -> write_ok m Obj a.
Proof.
  intros Hm Ha. destruct (hs_write Hshape a Ha) as [W1 W2 W3]. split; [done| |].
  - intros x Hx. destruct (Hm x Hx) as [Hh _]. specialize (W2 x Hx). unfold OBJ_BITMAP, OBJ_NUM_BITMAPS, OBJ_TYPE, OBJ_SIZE in *.
    by rewrite Hh.
  - intros x b ps Hx Hps Hb. destruct (Hm x Hx) as [_ He]. rewrite He in Hps. by apply (W3 x b ps).
Qed.

Definition shared_heap_stacks : MarkStacks shared_heap.
Proof.
  refine {| mk_visit := heap_visit; mk_slot := fun h => object_stack_slot h.1 h.2; mk_next := fun h => slot_next h.2;
            mk_set_next := fun s v h => (h.1, set_slot s v h.2); good := heap_good; object := Obj;
            target := fun h => is_target h.1 lay h.2; marked := fun h => is_marked h.1 lay h.2; slot_of := object_slot m0 lay |}.
  - apply (ob_0 _ _ _ (hs_objects Hshape)).
  - intros [m g] x [G1 G2 G3] Hx. cbn [fst snd] in *.
    destruct (visit_concrete m Obj lay G1 g x G3 Hx) as (g' & Hv & Hg' & Hm & Ht & Hn).
    exists (m, g'). unfold heap_visit. cbn [fst snd]. rewrite Hv. cbn [mbind res_bind]. split.
    + case_match eqn:E; [|done]. apply andb_true_iff in E as [E _]. apply andb_true_iff in E as [E _]. apply negb_true_iff, Z.eqb_neq in E.
      destruct Hx as [|Hx]; [done|]. rewrite slot_header; [done|]. by apply G2.
    + split; [by split|]. done.
  - intros [m g] x [G1 G2 G3] Hx Ht. cbn [fst snd] in *. rewrite (slot_concrete m Obj lay G1 g x G3 Hx Ht). rewrite slot_header; [done|]. by apply G2.
  - intros [m g] x y [G1 G2 G3] Hx Hy Htx Hty Hs. cbn [fst snd] in *.
    rewrite <- (slot_header m x), <- (slot_header m y) in Hs by (by apply G2).
    apply (object_slot_inj m Obj lay G1); try done.
    + unfold is_target in Htx. by apply andb_true_iff in Htx as [?%negb_true_iff _].
    + unfold is_target in Hty. by apply andb_true_iff in Hty as [?%negb_true_iff _].
  - intros [m g] s v [G1 G2 [M1 M2]]. cbn [fst snd] in *. split; [split; [done..|split; [exact M1|exact M2]]|].
    split; [done|]. split; [done|]. intros s'. unfold slot_next. cbn. case_decide as Heq; [subst; by rewrite lookup_insert_eq|by rewrite lookup_insert_ne].
Defined.

Definition shared_heap_instance : SharedHeap shared_heap.
Proof.
  refine {| shared_stacks := shared_heap_stacks; sh_enum := fun h => sml_obj_enum_ptr h.1; sh_load := fun h => load64 h.1;
            sh_store := fun a v h => (store64 h.1 a v, h.2); fields := heap_fields; location := Loc |}.
  - intros [m g] x r h' a. unfold mk_visit. cbn. unfold heap_visit. cbn. intros Hv.
    apply res_bind_ok in Hv as ([r' g'] & _ & Hv). by injection Hv as <- <-.
  - done.
  - apply (hs_fields Hshape).
  - apply (hs_disjoint Hshape).
  - intros [m g] x [G1 G2 G3] Hx Ht. cbn in *. destruct (G2 x Hx) as [Hh He]. rewrite He.
    assert (Hs : is_skip m0 x = false).
    { unfold is_target in Ht. apply andb_true_iff in Ht as [Ht%negb_true_iff _]. unfold is_skip in *. by rewrite <- Hh. }
    destruct (hs_enum Hshape x Hx Hs) as [ps Hps]. unfold heap_fields. by rewrite Hps.
  - intros [m g] a v [G1 G2 G3] Ha Hv. cbn in *. assert (Hw := write_same m a G2 Ha).
    assert (Hv64 : 0 <= v < 2 ^ 64) by (destruct Hv as [->|Hv]; [lia|by apply (hs_word Hshape)]).
    split; [split|split; [|split; [|split]]]; cbn.
    + by apply (objects_written m Obj lay a v).
    + intros x Hx. rewrite (header_same m Obj a v), (enum_same m Obj a v) by done. by apply G2.
    + by apply (marks_written m Obj lay a v).
    + intros y Hy. by apply (target_same m Obj lay a v).
    + intros y Hy. by apply (marked_same m Obj lay a v).
    + done.
    + intros b Hb. case_decide as Hab; [subst; by apply load_store64|].
      apply load64_other. destruct (hs_apart Hshape a b Ha Hb) as [?|[?|?]]; [done|lia..].
Defined.
End Heap.
