(* ===== verification/OnTheFlyRuns.v ===== *)
(** * Marking while the program runs: running it

    The steps of OnTheFly.v as a function, runs of it on a small heap, and
    the properties of whole collections. *)
From Stdlib Require Import ZArith Lia.
From stdpp Require Import base option list gmap relations.
From S2P Require Import Prelude Alloc Memory Object ObjectThms Malloc Trace TraceSpec TraceThms Barrier.
From S2P Require Import OnTheFly OnTheFlyInv OnTheFlyTri OnTheFlyReach OnTheFlyThms OnTheFlyHeap.

Local Open Scope Z_scope.

(** ** Schedules *)
Inductive choice :=
| Act (i : nat)
| Load (i : nat) (a : Z)
| Drop (i : nat) (r : list Z)
| Write (i : nat) (a new : Z)
| Cas (i : nat) (a new : Z)
| Handshake (i : nat).

Section Exec.
Context {H : Type} `{SharedHeap H} (globals : list Z) (readonly : Z -> bool) (racy cas : bool).

Definition is_mutator (w : mark_worker) : bool := match doing w with Mutator => true | _ => false end.
Definition accessible_b (w : mark_worker) (a : Z) : bool :=
  existsb (Z.eqb a) globals || existsb (fun x => negb (x =? 0) && existsb (Z.eqb a) (fields x)) (roots w).
Definition all_workers (p : mark_worker -> bool) (s : collection H) : bool := forallb p (workers s).
Definition put (i : nat) (w : mark_worker) (s : collection H) : collection H := Collection (cheap s) (<[i := w]> (workers s)) (unused s).
Definition guard_that {A} (b : bool) (o : option A) : option A := if b then o else None.

Definition handshake (i : nat) (w : mark_worker) (s : collection H) : option (collection H) :=
  if wphase w =? ASYNC then Some (put i (set_phase PRESYNC1 w) s)
  else if wphase w =? PRESYNC1 then guard_that (is_mutator w) (Some (put i (set_phase SYNC1 w) s))
  else if wphase w =? SYNC1 then guard_that (all_workers (fun wj => SYNC1 <=? wphase wj) s) (Some (put i (set_phase PRESYNC2 w) s))
  else if wphase w =? PRESYNC2 then guard_that (is_mutator w) (Some (put i (set_doing (WorkerSync2 (roots w)) (set_phase SYNC2 w)) s))
  else if wphase w =? SYNC2 then
    guard_that (all_workers (fun wj => (SYNC2 <=? wphase wj) && negb (in_sync2 wj)) s) (Some (put i (set_phase PREMARK w) s))
  else if wphase w =? PREMARK then
    guard_that (is_mutator w) (Some (put i (set_doing (Tracing false (root_set (walloc w))) (set_phase MARK w)) s))
  else None.

Definition choose (c : choice) (s : collection H) : option (collection H) :=
  match c with
  | Act i => w ← workers s !! i;
      guard_that (racy || (SYNC1 <=? wphase w))
        match worker_run globals (cheap s) w with
        | Ok (h, w') => Some (Collection h (<[i := w']> (workers s)) (unused s))
        | _ => None
        end
  | Load i a => w ← workers s !! i;
      guard_that (is_mutator w && accessible_b w a) (Some (put i (set_roots (sh_load (cheap s) a :: roots w) w) s))
  | Drop i r => w ← workers s !! i;
      guard_that (is_mutator w && forallb (fun x => existsb (Z.eqb x) (roots w)) r) (Some (put i (set_roots r w) s))
  | Write i a new => w ← workers s !! i;
      guard_that (is_mutator w && accessible_b w a && negb (readonly a) && existsb (Z.eqb new) (0 :: roots w))
        (Some (put i (set_doing (Barrier (sh_load (cheap s) a) new (Some a)) w) s))
  | Cas i a new => w ← workers s !! i;
      guard_that (cas && is_mutator w && accessible_b w a && negb (readonly a) && existsb (Z.eqb new) (0 :: roots w))
        (Some (Collection (sh_store a new (cheap s))
                 (<[i := set_doing (Barrier (sh_load (cheap s) a) new None) w]> (workers s)) (unused s)))
  | Handshake i => w ← workers s !! i; handshake i w s
  end.

(** Worker [i] until it is in ML code again; a script of choices and of
    workers to finish. *)
Fixpoint finish (fuel : nat) (i : nat) (s : collection H) : option (collection H) :=
  match fuel with
  | O => None
  | S fuel =>
      w ← workers s !! i;
      if is_mutator w then Some s else s ← choose (Act i) s; finish fuel i s
  end.
Fixpoint run_script (script : list (choice + nat)) (s : collection H) : option (collection H) :=
  match script with
  | [] => Some s
  | inl c :: script => s ← choose c s; run_script script s
  | inr i :: script => s ← finish 3000 i s; run_script script s
  end.

Lemma guard_that_Some {A} b (o : option A) a : guard_that b o = Some a -> b = true /\ o = Some a.
Proof. by destruct b. Qed.

Lemma is_mutator_true w : is_mutator w = true -> doing w = Mutator.
Proof. unfold is_mutator. by destruct (doing w). Qed.

Lemma existsb_elem x l : existsb (Z.eqb x) l = true -> x ∈ l.
Proof. intros (y & Hy & ->%Z.eqb_eq)%existsb_exists. by apply list_elem_of_In. Qed.

Lemma accessible_b_true w a : accessible_b w a = true -> accessible globals w a.
Proof.
  unfold accessible_b. intros [Ha|(x & Hx & Ha)%existsb_exists]%orb_true_iff; [left; by apply existsb_elem|right].
  apply andb_true_iff in Ha as [Hx0%negb_true_iff%Z.eqb_neq Ha]. exists x. split; [by apply list_elem_of_In|]. split; [done|].
  by apply existsb_elem.
Qed.

Lemma all_workers_true p s i w : all_workers p s = true -> workers s !! i = Some w -> p w = true.
Proof.
  unfold all_workers. rewrite forallb_forall. intros Ha Hi. apply Ha, list_elem_of_In. by eapply list_elem_of_lookup_2.
Qed.

Lemma handshake_sound i w s s' : workers s !! i = Some w -> handshake i w s = Some s' -> otf_step globals readonly racy cas s s'.
Proof.
  intros Hi. unfold handshake.
  destruct (Z.eqb_spec (wphase w) ASYNC) as [E1|_]; [intros [= <-]; by apply enter_presync1|].
  destruct (Z.eqb_spec (wphase w) PRESYNC1) as [E2|_]; [intros [Hm%is_mutator_true [= <-]]%guard_that_Some; by apply answer_sync1|].
  destruct (Z.eqb_spec (wphase w) SYNC1) as [E3|_].
  { intros [Ha [= <-]]%guard_that_Some. apply enter_presync2; [done..|]. intros j wj Hj.
    pose proof (all_workers_true _ _ _ _ Ha Hj) as Hw. by apply Z.leb_le. }
  destruct (Z.eqb_spec (wphase w) PRESYNC2) as [E4|_]; [intros [Hm%is_mutator_true [= <-]]%guard_that_Some; by apply answer_sync2|].
  destruct (Z.eqb_spec (wphase w) SYNC2) as [E5|_].
  { intros [Ha [= <-]]%guard_that_Some. apply enter_premark; [done..|]. intros j wj Hj.
    pose proof (all_workers_true _ _ _ _ Ha Hj) as [Hw ?%negb_true_iff]%andb_true_iff. split; [by apply Z.leb_le|done]. }
  destruct (Z.eqb_spec (wphase w) PREMARK) as [E6|_]; [intros [Hm%is_mutator_true [= <-]]%guard_that_Some; by apply answer_mark|done].
Qed.

Lemma choose_sound c s s' : choose c s = Some s' -> otf_step globals readonly racy cas s s'.
Proof.
  destruct c as [i|i a|i r|i a new|i a new|i]; cbn [choose]; intros (w & Hi & Hx)%bind_Some;
    try (by eapply handshake_sound); apply guard_that_Some in Hx as [Hg Hx]; rewrite ?andb_true_iff in Hg.
  - destruct (worker_run globals (cheap s) w) as [[h w']| | |] eqn:Hrun; try done. injection Hx as <-.
    apply run_action with w; [done| |done]. intros -> Hph. apply Z.leb_le in Hg. lia.
  - destruct Hg as [Hm%is_mutator_true Ha%accessible_b_true]. injection Hx as <-. by apply load_field.
  - destruct Hg as [Hm%is_mutator_true Ha]. injection Hx as <-. apply drop_roots; [done..|]. intros x Hr.
    rewrite forallb_forall in Ha. apply list_elem_of_In in Hr. by apply existsb_elem, Ha.
  - destruct Hg as [[[Hm%is_mutator_true Ha%accessible_b_true] Hro%negb_true_iff] Hn%existsb_elem]. injection Hx as <-. by apply call_sml_write.
  - destruct Hg as [[[[Hc Hm%is_mutator_true] Ha%accessible_b_true] Hro%negb_true_iff] Hn%existsb_elem]. injection Hx as <-. by apply call_sml_cmpswap.
Qed.

Lemma finish_sound fuel i : forall s s', finish fuel i s = Some s' -> rtc (otf_step globals readonly racy cas) s s'.
Proof.
  induction fuel as [|fuel IH]; intros s s' Hr; [done|]. apply bind_Some in Hr as (w & _ & Hr).
  destruct (is_mutator w); [by injection Hr as <-|]. apply bind_Some in Hr as (s1 & H1 & Hr).
  eapply rtc_l; [by apply choose_sound with (Act i)|by apply IH].
Qed.

Lemma run_script_sound script : forall s s', run_script script s = Some s' -> rtc (otf_step globals readonly racy cas) s s'.
Proof.
  induction script as [|[c|i] script IH]; intros s s' Hr; [by injection Hr as <-|..]; apply bind_Some in Hr as (s1 & H1 & Hr).
  - eapply rtc_l; [by apply choose_sound with c|by apply IH].
  - etrans; [by apply finish_sound with 3000%nat i|by apply IH].
Qed.

(** A script runs to a state that passes a check. *)
Definition passes (script : list (choice + nat)) (check : collection H -> bool) (s : collection H) : bool :=
  match run_script script s with Some s => check s | None => false end.
Lemma passes_sound script check s : passes script check s = true ->
  exists s', rtc (otf_step globals readonly racy cas) s s' /\ check s' = true.
Proof.
  unfold passes. destruct (run_script script s) as [s'|] eqn:Hs; [|done]. intros Hc. exists s'.
  split; [by apply run_script_sound with script|done].
Qed.
End Exec.

(** ** A heap to run *)
Module OnTheFlySample.
(** Three arrays of 513 pointers, too large for a block; the first refers to
    the second and this one to the third. *)
Definition a1 : Z := 65536.
Definition a2 : Z := 131072.
Definition a3 : Z := 196608.
Definition m : mem :=
  let array m a p := store64 (store32 m (a - 4) (OBJ_HEADER_WORD OBJTYPE_BOXED_ARRAY 4104)) a p in
  array (array (array (fun _ => 0) a1 a2) a2 a3) a3 0.
Definition Obj (x : Z) : Prop := x = a1 \/ x = a2 \/ x = a3.
Definition lay (_ : Z) : nat := 0.
Definition g0 : marks :=
  Marks ∅ (<[OBJ_TO_MALLOC_SEGMENT a1 := MallocSegment 1 0]>
          (<[OBJ_TO_MALLOC_SEGMENT a2 := MallocSegment 1 0]>
          (<[OBJ_TO_MALLOC_SEGMENT a3 := MallocSegment 1 0]> ∅))) ∅.
Definition Loc (a : Z) : Prop := exists x, Obj x /\ a ∈ heap_fields m x.

Lemma sample_cases (P : Z -> Prop) : P a1 -> P a2 -> P a3 -> forall x, Obj x -> P x.
Proof. intros H1 H2 H3 x [->|[->| ->]]; done. Qed.

(** What is true of all fields, by computation. *)
Lemma fields_all (P : Z -> Z -> bool) :
  forallb (P a1) (heap_fields m a1) && forallb (P a2) (heap_fields m a2) && forallb (P a3) (heap_fields m a3) = true ->
  forall x a, Obj x -> a ∈ heap_fields m x -> P x a = true.
Proof.
  intros [[H1 H2]%andb_true_iff H3]%andb_true_iff x a Hx. revert a.
  apply (sample_cases (fun x => forall a, a ∈ heap_fields m x -> P x a = true)); [..|done]; intros a Ha; apply list_elem_of_In in Ha.
  - rewrite forallb_forall in H1. by apply H1.
  - rewrite forallb_forall in H2. by apply H2.
  - rewrite forallb_forall in H3. by apply H3.
Qed.

Lemma fields_at x a : Obj x -> a ∈ heap_fields m x -> x <= a < x + 4104 /\ a mod 8 = 0.
Proof.
  intros Hx Ha. assert (Hp : (x <=? a) && (a <? x + 4104) && (a mod 8 =? 0) = true).
  { apply (fields_all (fun x a => (x <=? a) && (a <? x + 4104) && (a mod 8 =? 0))); [vm_compute; reflexivity|done..]. }
  apply andb_true_iff in Hp as [[Hp1%Z.leb_le Hp2%Z.ltb_lt]%andb_true_iff Hp3%Z.eqb_eq]. lia.
Qed.

Lemma values_ok x a : Obj x -> a ∈ heap_fields m x -> load64 m a = 0 \/ Obj (load64 m a).
Proof.
  intros Hx Ha. assert (Hp : (load64 m a =? 0) || (load64 m a =? a1) || (load64 m a =? a2) || (load64 m a =? a3) = true).
  { apply (fields_all (fun _ a => (load64 m a =? 0) || (load64 m a =? a1) || (load64 m a =? a2) || (load64 m a =? a3)) ltac:(vm_compute; reflexivity) x a); done. }
  rewrite !orb_true_iff, !Z.eqb_eq in Hp. unfold Obj. tauto.
Qed.

Lemma all_large_objects x : Obj x -> is_large m x = true.
Proof. revert x. apply sample_cases; vm_compute; reflexivity. Qed.
Lemma all_arrays x : Obj x -> OBJ_TYPE m x = OBJTYPE_BOXED_ARRAY /\ is_skip m x = false.
Proof. revert x. apply sample_cases; split; vm_compute; reflexivity. Qed.
Lemma all_enum x : Obj x -> sml_obj_enum_ptr m x = Ok (heap_fields m x).
Proof. revert x. apply sample_cases; vm_compute; reflexivity. Qed.

Lemma sample_objects : objects_ok m Obj lay.
Proof.
  split.
  - intros [H|[H|H]]; discriminate H.
  - intros x Hx _ Hl. rewrite all_large_objects in Hl by done. discriminate Hl.
  - intros x Hx _. unfold obj_pointers. rewrite all_enum by done. eexists. split; [reflexivity|].
    intros y (a & -> & Ha)%list_elem_of_fmap. by apply (values_ok x).
Qed.

Lemma sample_marks : marks_ok m Obj lay g0.
Proof.
  split.
  - intros x Hx _ Hl. rewrite all_large_objects in Hl by done. discriminate Hl.
  - intros x Hx _ _. exists (MallocSegment 1 0). split; [|by left]. revert x Hx. apply sample_cases; reflexivity.
Qed.

Lemma aligned8 x : Obj x -> x mod 8 = 0 /\ 0 <= x < 2 ^ 64.
Proof. revert x. apply sample_cases; unfold a1, a2, a3; split; done || lia. Qed.

Lemma far x y : Obj x -> Obj y -> x = y \/ x + 8192 <= y \/ y + 8192 <= x.
Proof. unfold Obj, a1, a2, a3. lia. Qed.

Lemma shape : heap_shape m Obj lay Loc.
Proof.
  split.
  - apply sample_objects.
  - intros x Hx. by apply aligned8.
  - intros x Hx _. eexists. by apply all_enum.
  - intros a (x & Hx & Ha). destruct (fields_at x a Hx Ha) as [Hb Hm]. split.
    + intros y Hy. pose proof (far x y Hx Hy). pose proof (aligned8 x Hx). lia.
    + intros y Hy Ht. destruct (all_arrays y Hy) as [E _]. rewrite E in Ht. discriminate Ht.
    + intros y b ps Hy Hps Hbp. rewrite all_enum in Hps by done. injection Hps as <-. destruct (fields_at y b Hy Hbp) as [_ Hm'].
      mod_lia.
  - intros a b (x & Hx & Ha) (y & Hy & Hb). destruct (fields_at x a Hx Ha), (fields_at y b Hy Hb). mod_lia.
  - intros x a Hx Ha. by exists x.
  - intros x y a Hx Hy Ha Hb. destruct (fields_at x a Hx Ha), (fields_at y a Hy Hb). pose proof (far x y Hx Hy). lia.
Qed.

#[global] Instance sample_heap : SharedHeap shared_heap := shared_heap_instance m Obj lay Loc shape.

(** Two workers; both see the first array. *)
Definition start (r0 r1 : list Z) : collection shared_heap :=
  Collection (m, g0)
    [Worker ASYNC true r0 (Allocator 0 0) None Mutator; Worker ASYNC false r1 (Allocator 0 0) None Mutator] [].
Definition rw (_ : Z) : bool := false.

Lemma lv_Obj v : v = 0 \/ Obj v -> lv [] v.
Proof. intros [->|Hv]; [by left|right; split; [exact Hv|apply not_elem_of_nil]]. Qed.

Lemma start_init r0 r1 : (forall v, v ∈ r0 ++ r1 -> v = 0 \/ Obj v) -> otf_init [] rw (start r0 r1).
Proof.
  intros Hr. split; cbn.
  - split; [apply sample_objects|by intros x Hx|apply sample_marks].
  - intros [|[|i]] w Hi; [injection Hi as <-|injection Hi as <-|done]; do 4 (split; [done|]); intros v Hv; apply lv_Obj, Hr, elem_of_app; tauto.
  - by eexists 0%nat, _.
  - intros x Hx. by apply elem_of_nil in Hx.
  - apply (sample_cases (fun x => is_marked m lay g0 x = false)); vm_compute; reflexivity.
  - done.
  - intros a [Ha|(x & Hx & _ & Ha)]; [by apply elem_of_nil in Ha|]. by apply lv_Obj, (values_ok x).
  - intros x a Hx _ Ht. exfalso. revert x Hx Ht.
    apply (sample_cases (fun x => is_target m lay g0 x = false -> False)); vm_compute; discriminate.
Qed.

(** The first two handshakes, and the beginning of the third. *)
Definition handshakes : list (choice + nat) :=
  [inl (Handshake 0); inl (Handshake 1); inl (Handshake 0); inl (Handshake 1); inl (Handshake 0); inl (Handshake 1)].
Definition scan (i : nat) : list (choice + nat) := [inl (Handshake i); inr i].
End OnTheFlySample.

(** ** Collections that are over too early *)
Module OnTheFlyRaces.
Import OnTheFlySample.

(** All workers have answered, nothing is left on their stacks, and [x] is
    not marked. *)
Definition lost (s : collection shared_heap) (x : Z) : bool :=
  all_workers (fun w => (wphase w =? MARK) && negb (tracing w) && (root_set (walloc w) =? 0) && (remembered_set (walloc w) =? 0)) s &&
  is_target m lay g0 x && is_target (cheap s).1 lay (cheap s).2 x && negb (is_marked (cheap s).1 lay (cheap s).2 x).
Definition sees (s : collection shared_heap) (i : nat) (r : Z) : bool :=
  match workers s !! i with Some w => existsb (Z.eqb r) (roots w) | None => false end.

Definition lost_object (s : collection shared_heap) (x : Z) : Prop :=
  all_traced s /\ (forall i w, workers s !! i = Some w -> walloc w = Allocator 0 0) /\
  reachable [] s x /\ object x /\ target (cheap s) x = true /\ marked (cheap s) x = false.

Lemma sees_sound s i r : sees s i r = true -> reachable [] s r.
Proof.
  unfold sees. destruct (workers s !! i) as [w|] eqn:Hi; [|done]. intros Hr%existsb_elem. by apply (reach_root [] s i w).
Qed.

Lemma lost_sound s x : lost s x = true -> Obj x -> reachable [] s x -> lost_object s x.
Proof.
  unfold lost. intros [[[Ha _]%andb_true_iff Ht]%andb_true_iff Hm%negb_true_iff]%andb_true_iff Ho Hr.
  assert (Hw : forall i w, workers s !! i = Some w -> traced w /\ walloc w = Allocator 0 0).
  { intros i w Hi. pose proof (all_workers_true _ _ _ _ Ha Hi) as Hw. cbn beta in Hw. rewrite !andb_true_iff, negb_true_iff, !Z.eqb_eq in Hw.
    destruct Hw as [[[H1 H2] H3] H4]. split; [by split|]. destruct (walloc w). cbn in *. by subst. }
  split; [intros i w Hi; by apply (Hw i)|]. split; [intros i w Hi; by apply (Hw i)|]. done.
Qed.

(** Worker 1 is in [remember], between [visit] and the assignment of
    [remembered_set], while worker 0 traces the rest. *)
Definition remember_run : list (choice + nat) :=
  handshakes ++ scan 0 ++ scan 1 ++ [inl (Load 1 a1); inl (Handshake 0); inl (Handshake 1)] ++ scan 1 ++
  [inl (Write 1 a1 0); inl (Act 1); inl (Act 1)] ++ scan 0.

(** Worker 1 has done the compare-and-swap, and not yet the barrier. *)
Definition cmpswap_run : list (choice + nat) :=
  handshakes ++ scan 0 ++ scan 1 ++ [inl (Load 1 a1); inl (Handshake 0); inl (Handshake 1)] ++ scan 1 ++
  [inl (Cas 1 a1 0)] ++ scan 0.

(** Worker 0 assigns without a barrier after worker 1, whose barrier is on,
    has loaded the old value of the same field; worker 0 then enumerates its
    roots and loads the field before worker 1 overwrites it. *)
Definition sync1_run : list (choice + nat) :=
  [inl (Write 0 a1 0); inr 0%nat; inl (Handshake 1); inl (Handshake 1); inl (Write 1 (a1 + 8) 0); inl (Write 0 (a1 + 8) a3);
   inr 0%nat; inl (Drop 0 [a1]); inl (Handshake 0); inl (Handshake 0); inl (Handshake 0); inl (Handshake 1)] ++ scan 0 ++
  [inl (Load 0 (a1 + 8)); inr 1%nat] ++ scan 1 ++ [inl (Handshake 0); inl (Handshake 1)] ++ scan 0 ++ scan 1.

Lemma start_ok r0 r1 : forallb (fun v => (v =? 0) || (v =? a1) || (v =? a2) || (v =? a3)) (r0 ++ r1) = true -> otf_init [] rw (start r0 r1).
Proof.
  intros Hr. apply start_init. intros v Hv. rewrite forallb_forall in Hr. apply list_elem_of_In in Hv. specialize (Hr v Hv).
  rewrite !orb_true_iff, !Z.eqb_eq in Hr. unfold Obj. tauto.
Qed.

Lemma sync1_race : exists s0 s, otf_init [] rw s0 /\ rtc (otf_step [] rw true false) s0 s /\ lost_object s a3.
Proof.
  destruct (passes_sound [] rw true false sync1_run (fun s => lost s a3 && sees s 0 a3) (start [a1; a3] [a1])) as (s & Hs & Hc);
    [vm_compute; reflexivity|]. apply andb_true_iff in Hc as [Hl Hr].
  exists (start [a1; a3] [a1]), s. split; [by apply start_ok|]. split; [exact Hs|].
  apply lost_sound; [done|right; by right|by apply sees_sound in Hr].
Qed.

Lemma cmpswap_race : exists s0 s, otf_init [] rw s0 /\ rtc (otf_step [] rw false true) s0 s /\
  (forall i w, workers s !! i = Some w -> pending w = None) /\ lost_object s a2.
Proof.
  destruct (passes_sound [] rw false true cmpswap_run
    (fun s => lost s a2 && sees s 1 a2 && all_workers (fun w => match pending w with None => true | _ => false end) s)
    (start [a1] [a1])) as (s & Hs & Hc); [vm_compute; reflexivity|]. apply andb_true_iff in Hc as [[Hl Hr]%andb_true_iff Hp].
  exists (start [a1] [a1]), s. split; [by apply start_ok|]. split; [exact Hs|]. split.
  - intros i w Hi. pose proof (all_workers_true _ _ _ _ Hp Hi) as Hw. cbn beta in Hw. by destruct (pending w).
  - apply lost_sound; [done|right; by left|by apply sees_sound in Hr].
Qed.

Lemma remember_lost : exists s0 s, otf_init [] rw s0 /\ rtc (otf_step [] rw false false) s0 s /\ lost_object s a3.
Proof.
  destruct (passes_sound [] rw false false remember_run (fun s => lost s a3 && sees s 1 a2 && (sh_load (cheap s) a2 =? a3))
    (start [a1] [a1])) as (s & Hs & Hc); [vm_compute; reflexivity|]. apply andb_true_iff in Hc as [[Hl Hr]%andb_true_iff Hld%Z.eqb_eq].
  exists (start [a1] [a1]), s. split; [by apply start_ok|]. split; [exact Hs|].
  apply lost_sound; [done|right; by right|]. rewrite <- Hld. apply sees_sound in Hr. apply (reach_field [] s a2); [done|right; by left|].
  assert (Hf : existsb (Z.eqb a2) (heap_fields m a2) = true) by (vm_compute; reflexivity). by apply existsb_elem.
Qed.

(** A collection without races: all arrays are marked. *)
Definition good_run : list (choice + nat) :=
  handshakes ++ scan 0 ++ scan 1 ++ [inl (Load 1 a1); inl (Handshake 0); inl (Handshake 1); inl (Write 1 a1 0); inr 1%nat] ++ scan 1 ++ scan 0.
End OnTheFlyRaces.

(** ** Properties *)





(** C36. [remember] marks an object before it puts it on the remembered set.  If
    a worker is preempted between the two, the others skip the object since
    it is marked, and [sml_heap_mark_finish] finds all sets empty: an object
    that is reachable is not marked, although all steps are those of the
    code. *)
Theorem remember_race : exists s0 s : collection shared_heap,
  otf_init [] OnTheFlySample.rw s0 /\ rtc (otf_step [] OnTheFlySample.rw false false) s0 s /\
  OnTheFlyRaces.lost_object s OnTheFlySample.a3.
Proof. exact OnTheFlyRaces.remember_lost. Qed.
