(* ===== verification/ReclaimThms.v ===== *)
(** * Reclamation: theorems *)
From Stdlib Require Import ZArith Lia.
From stdpp Require Import base option list gmap.
From S2P Require Import Prelude Bits Layout Segment SegmentFacts Alloc AllocFacts AllocThms Memory Object Malloc Reclaim ReclaimFacts Trace TraceSpec TraceThms.

Local Open Scope Z_scope.

Section Thms.
Context (i : nat) (l : segment_layout) (Hi : the_layouts !! i = Some l).
Let Hl : layout_ok l := layouts_ok i l Hi.

(** The blocks of the segment at [a] that were not marked. *)
Definition unmarked_blocks (w : world) (a : Z) (n : nat) : list nat :=
  match segs w !! a with
  | Some seg => filter (fun k => cbits l (words seg) k = false) (seq n (blocks l - n))
  | None => []
  end.

Lemma fates_perm fate_of w xs : going fate_of w ToFilled xs ++ going fate_of w ToPartial xs ++ going fate_of w ToFree xs ≡ₚ xs.
Proof.
  induction xs as [|a xs IH]; [done|]. unfold going in *. rewrite !filter_cons. etrans; [|apply perm_skip, IH].
  destruct (fate_at fate_of w a); repeat case_decide; try done; cbn [app]; solve_Permutation.
Qed.

Lemma going_in fate_of w f xs a : a ∈ going fate_of w f xs <-> a ∈ xs /\ fate_at fate_of w a = f.
Proof. unfold going. rewrite list_elem_of_filter. tauto. Qed.

Lemma collected_avail w w' a snap f seg seg' n : segs w !! a = Some seg -> segs w' !! a = Some seg' -> collected i l snap f seg seg' ->
  free_blocks l (words seg') n = unmarked_blocks w a n.
Proof.
  intros Hs Hs' Hc. unfold unmarked_blocks, free_blocks. rewrite Hs. apply filter_ext_in. intros k Hk%elem_of_seq.
  rewrite (co_bits _ _ _ _ _ _ Hc) by lia. done.
Qed.

Lemma free_block_left seg seg' snap f : collected i l snap f seg seg' -> unmarked l seg <> 0%nat -> next_free l (words seg') 0 <> None.
Proof.
  intros Hc Hu Hn. rewrite next_free_None in Hn. apply Hu. apply count_false_0. intros k Hk.
  rewrite <- (co_bits _ _ _ _ _ _ Hc) by lia. apply Hn. lia.
Qed.

Lemma unmarked_none seg : unmarked l seg = 0%nat ->
  filter (fun k => cbits l (words seg) k = false) (seq 0 (blocks l - 0)) = [].
Proof.
  intros Hu. apply filter_none, Forall_forall. intros k Hk%elem_of_seq Hc. unfold unmarked in Hu.
  replace (blocks l) with (k + (1 + (blocks l - k - 1)))%nat in Hu by lia. rewrite !count_false_app in Hu.
  cbn [count_false Nat.add] in Hu. rewrite Hc in Hu. lia.
Qed.

Lemma unmarked_all seg : unmarked l seg = blocks l ->
  length (filter (fun k => cbits l (words seg) k = false) (seq 0 (blocks l - 0))) = blocks l.
Proof.
  intros Hall. unfold unmarked in Hall. rewrite count_false_all in Hall. rewrite (filter_ext_in _ (fun _ => True)).
  - rewrite filter_true, length_seq. lia.
  - intros k Hk%elem_of_seq. split; [done|]. intros _. apply Hall. lia.
Qed.

Section Reclaimed.
Context (w w' : world) (p : alloc_ptr) (sh sh' : subheap) (free free' : list Z).
Context (Htc : to_collect i l w p sh) (Hrec : subheap_reclaimed i l w w' p sh sh' free free').
(** A segment that had a free block still has one: marks are on objects. *)
Hypothesis Hpart : forall a seg, a ∈ partial sh -> segs w !! a = Some seg -> unmarked l seg <> 0%nat.

Lemma in_partial a : a ∈ partial sh' -> exists seg seg' snap, segs w !! a = Some seg /\ seg_at w' i l a seg' /\
  collected i l snap ToPartial seg seg' /\ unmarked l seg <> 0%nat.
Proof.
  rewrite (sr_to_partial _ _ _ _ _ _ _ _ _ Hrec), elem_of_app, !going_in. intros [[Ha Hf]|[Ha Hf]].
  - destruct (sr_partial _ _ _ _ _ _ _ _ _ Hrec a Ha) as (seg & seg' & H1 & H2 & H3). rewrite Hf in H3.
    exists seg, seg', (BLOCK_BASE l). do 3 (split; [done|]). by apply (Hpart a).
  - destruct (sr_filled _ _ _ _ _ _ _ _ _ Hrec a Ha) as (seg & seg' & H1 & H2 & H3). rewrite Hf in H3.
    exists seg, seg', (BLOCK_LIMIT l). do 3 (split; [done|]). unfold fate_at in Hf. rewrite H1 in Hf. unfold fate_filled in Hf.
    case_decide as Hd; [done|]. tauto.
Qed.

Lemma in_filled a : a ∈ filled sh' -> exists seg seg', segs w !! a = Some seg /\ seg_at w' i l a seg' /\
  collected i l (BLOCK_LIMIT l) ToFilled seg seg'.
Proof.
  rewrite (sr_to_filled _ _ _ _ _ _ _ _ _ Hrec), going_in. intros [Ha Hf].
  destruct (sr_filled _ _ _ _ _ _ _ _ _ Hrec a Ha) as (seg & seg' & H1 & H2 & H3). rewrite Hf in H3. by exists seg, seg'.
Qed.

Lemma in_free a : a ∈ free' -> a ∈ free \/ exists seg seg' snap, segs w !! a = Some seg /\ seg_at w' i l a seg' /\
  collected i l snap ToFree seg seg'.
Proof.
  rewrite (sr_to_free _ _ _ _ _ _ _ _ _ Hrec), !elem_of_app, !going_in. intros [Ha|[[Ha Hf]|[Ha Hf]]]; [by left|right..].
  - destruct (sr_partial _ _ _ _ _ _ _ _ _ Hrec a Ha) as (seg & seg' & H1 & H2 & H3). rewrite Hf in H3. by exists seg, seg', (BLOCK_BASE l).
  - destruct (sr_filled _ _ _ _ _ _ _ _ _ Hrec a Ha) as (seg & seg' & H1 & H2 & H3). rewrite Hf in H3. by exists seg, seg', (BLOCK_LIMIT l).
Qed.

Lemma segments_perm : filled sh' ++ partial sh' ++ free' ≡ₚ filled sh ++ partial sh ++ free.
Proof.
  rewrite (sr_to_filled _ _ _ _ _ _ _ _ _ Hrec), (sr_to_partial _ _ _ _ _ _ _ _ _ Hrec), (sr_to_free _ _ _ _ _ _ _ _ _ Hrec).
  rewrite <- (fates_perm (fate_filled l) w (filled sh)) at 4. rewrite <- (fates_perm (fate_partial l) w (partial sh)) at 3.
  rewrite (going_partial_none l w (partial sh)) by
    (intros a Ha; destruct (tc_partial _ _ _ _ _ Htc a Ha) as (seg & [Hs _] & _); congruence).
  cbn [app]. solve_Permutation.
Qed.

Lemma free_still_idle : Forall (idle_at w) free -> NoDup (ptr_seg p ++ filled sh ++ partial sh ++ free) -> Forall (idle_at w') free'.
Proof.
  rewrite !Forall_forall. intros Hf Hnd a Ha. destruct (in_free a Ha) as [Hin|(seg & seg' & snap & H1 & (H2 & H3 & H4 & H5) & H6)].
  - destruct (Hf a Hin) as (Hal & seg & Hs & Hidle). split; [done|]. exists seg. split; [|done].
    destruct (sr_only _ _ _ _ _ _ _ _ _ Hrec) as (_ & _ & _ & Hon). rewrite Hon; [done|].
    apply NoDup_app in Hnd as (_ & Hd1 & Hnd). apply NoDup_app in Hnd as (_ & Hd2 & Hnd). apply NoDup_app in Hnd as (_ & Hd3 & _).
    rewrite !not_elem_of_app. split; [|split]; intros Hx; [by apply (Hd3 a)|apply (Hd1 a Hx)|apply (Hd2 a Hx)]; rewrite ?elem_of_app; tauto.
  - split; [done|]. exists seg'. split; [done|]. by apply (collected_idle i l Hi snap seg).
Qed.

Lemma reclaimed_sub_ok : Forall (idle_at w) free -> NoDup (ptr_seg p ++ filled sh ++ partial sh ++ free) -> sub_ok w' i l p sh' free'.
Proof.
  intros Hf Hnd. split.
  - apply Hrec.
  - apply Forall_forall. intros a Ha. destruct (in_filled a Ha) as (seg & seg' & _ & H & _). by exists seg'.
  - apply Forall_forall. intros a Ha. destruct (in_partial a Ha) as (seg & seg' & snap & H1 & H2 & H3 & H4). exists seg'.
    split; [done|]. split; [apply H3|]. by apply (free_block_left seg seg' snap ToPartial).
  - by apply free_still_idle.
  - by rewrite segments_perm.
Qed.

Lemma avail_after a : a ∈ partial sh' -> avail_seg w' l a = map (block_addr l a) (unmarked_blocks w a 0).
Proof.
  intros Ha. destruct (in_partial a Ha) as (seg & seg' & snap & H1 & [H2 _] & H3 & H4). unfold avail_seg. rewrite H2. f_equal.
  by apply (collected_avail w w' a snap ToPartial seg).
Qed.

Lemma avail_ptr_after : avail_ptr w' l p =
  match ap_b p with Some (a, b) => map (block_addr l a) (unmarked_blocks w a (BITPTR_INDEX b 8)) | None => [] end.
Proof.
  unfold avail_ptr. destruct (ap_b p) as [[a b]|] eqn:Hb; [|done].
  destruct (sr_current _ _ _ _ _ _ _ _ _ Hrec a) as (seg & seg' & H1 & [H2 _] & H3); [unfold ptr_seg; rewrite Hb; by left|].
  rewrite H2. f_equal. eapply collected_avail; [exact H1|exact H2|exact H3].
Qed.

(** An object in use: it was allocated and is not known to be garbage. *)
Definition in_use (a : Z) (k : nat) : Prop :=
  exists seg, segs w !! a = Some seg /\ (k < blocks l)%nat /\
    (a ∈ filled sh \/ bits (words seg) 8 k = true \/ exists n, ap_b p = Some (a, BITPTR 8 n) /\ (k < n)%nat) /\
    (bits (words seg) 8 k = true \/ block_addr l a k < a + allocptr_snapshot seg -> cbits l (words seg) k = true).

Lemma ptr_apart a : a ∈ ptr_seg p -> a ∉ filled sh /\ a ∉ partial sh.
Proof.
  intros Ha. assert (Hnd := tc_nodup _ _ _ _ _ Htc). apply NoDup_app in Hnd as (_ & Hd & _).
  specialize (Hd a Ha). rewrite elem_of_app in Hd. tauto.
Qed.

Lemma filled_apart a : a ∈ filled sh -> a ∉ partial sh.
Proof.
  assert (Hnd := tc_nodup _ _ _ _ _ Htc). apply NoDup_app in Hnd as (_ & _ & Hnd).
  apply NoDup_app in Hnd as (_ & Hd & _). apply Hd.
Qed.

(** In a segment that does not stay filled, what is in use is marked. *)
Lemma use_marked a k seg : in_use a k -> segs w !! a = Some seg ->
  a ∈ partial sh \/ a ∈ filled sh /\ fate_filled l seg <> ToFilled -> cbits l (words seg) k = true.
Proof.
  intros (seg0 & Hs0 & Hk & Hu & Hm) Hs Hf. rewrite Hs in Hs0. injection Hs0 as <-. apply Hm.
  destruct Hu as [Hfl|[Hb|(n & Hn & _)]]; [|by left|].
  - right. destruct Hf as [Hpa|[_ Hf]]; [by apply filled_apart in Hfl|]. unfold fate_filled in Hf. case_decide as Hd; [done|].
    destruct (blocks_fit i l Hi k Hk) as [_ Hfit]. pose proof (lo_limit _ Hl) as [Hlim _]. pose proof (blocksize_pos i l Hi).
    unfold block_addr, BLOCK_LIMIT in *.
    enough (BLOCK_BASE l + Z.of_nat k * blocksize_bytes l < block_limit l) by lia.
    rewrite Hlim. unfold BLOCK_BASE, blocks in *. nia.
  - destruct (ptr_apart a) as [H1 H2]; [unfold ptr_seg; rewrite Hn; by left|]. tauto.
Qed.

Lemma fate_member a seg f : segs w !! a = Some seg -> f <> ToFilled ->
  a ∈ going (fate_partial l) w f (partial sh) \/ a ∈ going (fate_filled l) w f (filled sh) ->
  a ∈ partial sh \/ a ∈ filled sh /\ fate_filled l seg <> ToFilled.
Proof.
  intros Hs Hf. rewrite !going_in. intros [[Ha _]|[Ha Hfa]]; [by left|right]. split; [done|]. unfold fate_at in Hfa.
  rewrite Hs in Hfa. congruence.
Qed.

Lemma in_use_kept a k : in_use a k -> aligned a -> block_addr l a k ∉ avail w' l p sh' /\ (a ∈ free' -> a ∈ free).
Proof.
  intros Huse Hal. assert (Huse' := Huse). destruct Huse' as (seg & Hs & Hk & Hu & Hm). split.
  - unfold avail. rewrite elem_of_app, avail_ptr_after. intros [Hx|Hx].
    + destruct (ap_b p) as [[b bp]|] eqn:Hb; [|by apply elem_of_nil in Hx].
      apply list_elem_of_fmap in Hx as (j & Heq & Hj).
      destruct (tc_ptr _ _ _ _ _ Htc) as [_ Hp]. rewrite Hb in Hp. destruct Hp as (segb & n & (Hsb & _ & _ & Halb) & Hn & -> & _).
      unfold unmarked_blocks in Hj. rewrite Hsb, list_elem_of_filter, elem_of_seq, BITPTR_INDEX_BITPTR in Hj. destruct Hj as [Hcj Hj].
      destruct (block_addr_inj i l Hi a b k j) as [-> ->]; [done|done|lia|lia|done|]. rewrite Hs in Hsb. injection Hsb as <-.
      destruct (ptr_apart b) as [H1 H2]; [unfold ptr_seg; rewrite Hb; by left|].
      destruct Hu as [?|[Hbit|(n' & Hn' & Hlt)]]; [done|rewrite Hm in Hcj by (by left); done|].
      apply (f_equal (fun o : option (Z * bitptr) => match o with Some (_, b) => BITPTR_INDEX b 8 | None => 0%nat end)) in Hn'.
      rewrite !BITPTR_INDEX_BITPTR in Hn'. lia.
    + apply list_elem_of_In, in_concat in Hx as (ks & Hks & Hx). apply list_elem_of_In, list_elem_of_fmap in Hks as (b & -> & Hb).
      apply list_elem_of_In in Hx. rewrite avail_after in Hx by done. apply list_elem_of_fmap in Hx as (j & Heq & Hj).
      destruct (in_partial b Hb) as (segb & segb' & snap & Hsb & (_ & _ & _ & Halb) & _).
      unfold unmarked_blocks in Hj. rewrite Hsb, list_elem_of_filter, elem_of_seq in Hj. destruct Hj as [Hcj Hj].
      destruct (block_addr_inj i l Hi a b k j) as [-> ->]; [done|done|lia|lia|done|].
      rewrite (use_marked b j segb) in Hcj; [done|done|done|]. apply (fate_member b segb ToPartial); [done..|].
      rewrite (sr_to_partial _ _ _ _ _ _ _ _ _ Hrec), elem_of_app in Hb. done.
  - intros Ha. destruct (in_free a Ha) as [|(seg0 & seg' & snap & Hs0 & _ & Hco)]; [done|].
    rewrite Hs in Hs0. injection Hs0 as <-. rewrite (sr_to_free _ _ _ _ _ _ _ _ _ Hrec), elem_of_app, elem_of_app in Ha.
    destruct Ha as [|Ha]; [done|exfalso]. destruct (co_fate _ _ _ _ _ _ Hco) as [_ Hall]. unfold unmarked in Hall. rewrite count_false_all in Hall.
    specialize (Hall k ltac:(lia)). rewrite (use_marked a k seg) in Hall; [done|done|done|]. by apply (fate_member a seg ToFree).
Qed.
End Reclaimed.
End Thms.

(** ** Marking and reclaiming together *)
Section Cycle.
Context (m : mem) (Obj : Z -> Prop) (lay : Z -> nat) (Hobj : objects_ok m Obj lay).
Context (g' : marks) (i : nat) (l : segment_layout) (Hi : the_layouts !! i = Some l).
Context (w w' : world) (p : alloc_ptr) (sh sh' : subheap) (free free' : list Z).
Context (Htc : to_collect i l w p sh) (Hrec : subheap_reclaimed i l w w' p sh sh' free free').
Hypothesis Hsegs : segs w = mark_segs g'.
Hypothesis Hpart : forall a seg, a ∈ partial sh -> segs w !! a = Some seg -> unmarked l seg <> 0%nat.
(** The snapshot of the current segment was not taken behind the pointer. *)
Hypothesis Hsnap : forall a b seg, ap_b p = Some (a, b) -> segs w !! a = Some seg -> a + allocptr_snapshot seg <= ap_p p.

Definition in_subheap (x : Z) : Prop :=
  Obj x /\ is_skip m x = false /\ is_large m x = false /\ lay (segment_addr x) = i /\
  segment_addr x ∈ ptr_seg p ++ filled sh ++ partial sh.

Lemma in_subheap_block x : in_subheap x -> exists k seg, x = block_addr l (segment_addr x) k /\ (k < blocks l)%nat /\
  aligned (segment_addr x) /\ segs w !! segment_addr x = Some seg /\ seg_at w i l (segment_addr x) seg /\
  is_target m lay g' x = bits (words seg) 8 k || negb (segment_addr x + allocptr_snapshot seg <=? x) /\
  is_marked m lay g' x = cbits l (words seg) k.
Proof.
  intros (Hx & Hskip & Hlarge & Hlay & Hin). destruct (ob_small _ _ _ Hobj x Hx Hskip Hlarge) as (l0 & k & Hp).
  assert (Hp' := Hp). destruct Hp' as (Hl0 & Hk & Ha & Hxa). rewrite Hlay, Hi in Hl0. injection Hl0 as <-.
  destruct (placed_spec lay x l k Hp) as (Hlx & Hix & _).
  assert (exists seg, seg_at w i l (segment_addr x) seg) as [seg Hseg].
  { destruct Htc as [[_ Hptr] Hpa Hfi _]. rewrite !elem_of_app in Hin. destruct Hin as [Hin|[Hin|Hin]].
    - unfold ptr_seg in Hin. destruct (ap_b p) as [[b bp]|]; [|by apply elem_of_nil in Hin]. apply list_elem_of_singleton in Hin as ->.
      destruct Hptr as (seg & n & H & _). by exists seg.
    - destruct (Hfi _ Hin) as (seg & H & _). by exists seg.
    - destruct (Hpa _ Hin) as (seg & H & _). by exists seg. }
  exists k, seg. do 3 (split; [done|]). split; [apply Hseg|]. split; [done|].
  unfold is_target, is_marked. rewrite Hskip, Hlarge, <- Hsegs, (proj1 Hseg), Hlx, Hix. done.
Qed.

Lemma target_in_use x : in_subheap x -> is_target m lay g' x = true -> is_marked m lay g' x = true ->
  exists k, x = block_addr l (segment_addr x) k /\ aligned (segment_addr x) /\ in_use l w p sh (segment_addr x) k.
Proof.
  intros Hin Ht Hm. destruct (in_subheap_block x Hin) as (k & seg & Hx & Hk & Ha & Hs & Hseg & Hit & Him). rewrite Hit in Ht. rewrite Him in Hm.
  exists k. split; [done|]. split; [done|]. exists seg. split; [done|]. split; [done|]. split; [|done].
  destruct Hin as (_ & _ & _ & _ & Hin). rewrite !elem_of_app in Hin.
  destruct (bits (words seg) 8 k) eqn:Hb; [by right; left|]. cbn [orb] in Ht. apply negb_true_iff, Z.leb_gt in Ht.
  destruct Hin as [Hin|[Hin|Hin]]; [|by left|].
  - right. right. unfold ptr_seg in Hin. destruct (ap_b p) as [[b bp]|] eqn:Hab; [|by apply elem_of_nil in Hin].
    apply list_elem_of_singleton in Hin as Hba. rewrite Hba in *. destruct (tc_ptr _ _ _ _ _ Htc) as [_ Hptr]. rewrite Hab in Hptr.
    destruct Hptr as (seg' & n & Hseg' & Hn & -> & Hap). exists n. split; [done|].
    specialize (Hsnap b _ seg eq_refl Hs). rewrite Hap in Hsnap. rewrite Hx in Ht. unfold block_addr in *.
    pose proof (blocksize_pos i l Hi). nia.
  - exfalso. destruct (tc_partial _ _ _ _ _ Htc _ Hin) as (seg' & [Hs' _] & _ & Hsn). rewrite Hs in Hs'. injection Hs' as <-.
    rewrite Hsn in Ht. rewrite Hx in Ht at 1. unfold block_addr in Ht. pose proof (blocksize_pos i l Hi). nia.
Qed.

Lemma marked_kept x : in_subheap x -> is_target m lay g' x = true -> is_marked m lay g' x = true ->
  x ∉ avail w' l p sh' /\ (segment_addr x ∈ free' -> segment_addr x ∈ free).
Proof.
  intros Hin Ht Hm. destruct (target_in_use x Hin Ht Hm) as (k & Hx & Ha & Huse).
  destruct (in_use_kept i l Hi w w' p sh sh' free free' Htc Hrec Hpart (segment_addr x) k Huse Ha) as [H1 H2]. by rewrite <- Hx in H1.
Qed.

Lemma garbage_freed x : in_subheap x -> is_marked m lay g' x = false -> segment_addr x ∈ partial sh ->
  x ∈ avail w' l p sh' \/ segment_addr x ∈ free'.
Proof.
  intros Hin Hm Hp. destruct (in_subheap_block x Hin) as (k & seg & Hx & Hk & Ha & Hs & Hseg & _ & Him). rewrite Him in Hm.
  destruct (fate_at (fate_partial l) w (segment_addr x)) eqn:Hf.
  - exfalso. unfold fate_at, fate_partial in Hf. rewrite Hs in Hf. by case_decide.
  - left. assert (Hin' : segment_addr x ∈ partial sh').
    { rewrite (sr_to_partial _ _ _ _ _ _ _ _ _ Hrec), elem_of_app, !going_in. by left. }
    unfold avail. apply elem_of_app. right. apply list_elem_of_In, in_concat. exists (avail_seg w' l (segment_addr x)). split.
    + apply list_elem_of_In, list_elem_of_fmap. by exists (segment_addr x).
    + apply list_elem_of_In. erewrite avail_after by done. apply list_elem_of_fmap. exists k. split; [done|].
      unfold unmarked_blocks. rewrite Hs, list_elem_of_filter, elem_of_seq. split; [done|lia].
  - right. rewrite (sr_to_free _ _ _ _ _ _ _ _ _ Hrec), !elem_of_app, !going_in. tauto.
Qed.
End Cycle.

(** ** A subheap to reclaim: a partial segment with one marked object, and a
    filled one in which nothing is marked. *)
Module ReclaimSample.
Import Sample.
Definition zeros : list Z := replicate segment_words 0.
Definition collect : nat := 8 + words0 l6 + words1 l6.
Definition copy (ws : list Z) : list Z := match copy_collect_bitmap l6 ws with Ok ws => ws | _ => [] end.
Definition w1 : world :=
  World (<[32768 := Segment (Some 6%nat) (BLOCK_BASE l6) 0 (copy (set_bits zeros (BITPTR collect 0)))]>
        (<[65536 := Segment (Some 6%nat) (BLOCK_LIMIT l6) 0 (copy zeros)]> ∅)) (pool w0) PREASYNC 0.
Definition sh1 : subheap := Subheap [65536] [32768].
Definition h1 : heap := set_subheap 6 sh1 h0.

Lemma copied_ok ws : words_ok ws -> seg_ok l6 (copy ws) /\ forall k, cbits l6 (copy ws) k = cbits l6 ws k.
Proof.
  intros Hok. pose proof (layouts_ok 6 l6 l6_ok) as Hl. pose proof (layout_meta 6 l6 l6_ok) as Hsz.
  destruct (copy_collect_bitmap_spec l6 Hl Hsz ws Hok) as (ws' & Hrun & Hs & _ & Hsame). unfold copy. rewrite Hrun.
  split; [done|]. intros k. apply bits_ext, Hsame. right. lia.
Qed.

Lemma zeros_ok : words_ok zeros.
Proof. split; [apply length_replicate|by apply Forall_replicate]. Qed.

Lemma marks_ok : words_ok (set_bits zeros (BITPTR collect 0)).
Proof. apply set_bits_words; [apply zeros_ok|apply (Nat.ltb_lt _ _); vm_compute; reflexivity]. Qed.

Lemma marks_are : forall k, (k < 64)%nat ->
  cbits l6 (set_bits zeros (BITPTR collect 0)) k = (k =? 0)%nat /\ cbits l6 zeros k = false.
Proof.
  assert (H : forallb (fun k => eqb (cbits l6 (set_bits zeros (BITPTR collect 0)) k) (k =? 0)%nat && negb (cbits l6 zeros k)) (seq 0 64) = true)
    by (vm_compute; reflexivity).
  intros k Hk. rewrite forallb_forall in H. specialize (H k). rewrite in_seq, andb_true_iff, eqb_true_iff, negb_true_iff in H. apply H. lia.
Qed.

Lemma sizes : (blocks l6 = 62 /\ 32 * words0 l6 = 64)%nat.
Proof. vm_compute. split; reflexivity. Qed.

Lemma ready1 : to_collect 6 l6 w1 (init_alloc_ptr 9) sh1.
Proof.
  destruct sizes as [Hb Hw]. split.
  - split; reflexivity.
  - intros a ->%list_elem_of_singleton. eexists. split; [split; [reflexivity|split; [reflexivity|split; [apply copied_ok, marks_ok|done]]]|].
    split; [|reflexivity]. intros k Hk. cbn [words]. destruct (copied_ok _ marks_ok) as [_ ->].
    destruct (marks_are k) as [-> _]; [lia|]. apply Nat.eqb_neq. lia.
  - intros a ->%list_elem_of_singleton. eexists. split; [split; [reflexivity|split; [reflexivity|split; [apply copied_ok, zeros_ok|done]]]|].
    intros k Hk. cbn [words]. destruct (copied_ok _ zeros_ok) as [_ ->]. apply marks_are. lia.
  - apply (bool_decide_unpack _). vm_compute. exact I.
Qed.

Lemma still_free a seg : a ∈ partial sh1 -> segs w1 !! a = Some seg -> unmarked l6 seg <> 0%nat.
Proof.
  intros ->%list_elem_of_singleton Hs. injection Hs as <-.
  apply (bool_decide_unpack _). vm_compute. exact I.
Qed.
End ReclaimSample.

(** ** Properties *)

(** [reclaim_subheap] gives every segment of the subheap a place again: the
    subheap and the free list are well-formed, no segment is lost, what the
    subheap can hand out are exactly the unmarked blocks of the partial
    segments, and of the current one behind the allocation pointer, and a
    segment is given back only when all its blocks are unmarked. *)
Theorem reclaim_subheap_correct i l w h p sh free : the_layouts !! i = Some l ->
  hptr h !! i = Some p -> subheaps h !! i = Some sh -> to_collect i l w p sh ->
  (forall a seg, a ∈ partial sh -> segs w !! a = Some seg -> unmarked l seg <> 0%nat) ->
  Forall (idle_at w) free -> NoDup (ptr_seg p ++ filled sh ++ partial sh ++ free) ->
  exists w' sh' free' st, reclaim_subheap w h i free = Ok (w', set_subheap i sh' h, free', st) /\
    sub_ok w' i l p sh' free' /\
    filled sh' ++ partial sh' ++ free' ≡ₚ filled sh ++ partial sh ++ free /\
    (forall b, b ∉ partial sh ++ ptr_seg p ++ filled sh -> segs w' !! b = segs w !! b) /\
    avail w' l p sh' =
      match ap_b p with Some (a, b) => map (block_addr l a) (unmarked_blocks l w a (BITPTR_INDEX b 8)) | None => [] end ++
      concat (map (fun a => map (block_addr l a) (unmarked_blocks l w a 0)) (partial sh')) /\
    (forall a, a ∈ free' -> a ∈ free \/ length (unmarked_blocks l w a 0) = blocks l).
Proof.
  intros Hi Hp Hsh Htc Hpart Hfree Hnd.
  destruct (reclaim_subheap_spec i l Hi w h p sh free Hp Hsh Htc) as (w' & sh' & free' & st & Hrun & Hrec).
  exists w', sh', free', st. split; [done|]. split; [by eapply reclaimed_sub_ok|]. split; [by eapply segments_perm|].
  split; [apply Hrec|]. split.
  - unfold avail. erewrite avail_ptr_after by done. do 2 f_equal. apply map_ext_in. intros a Ha%list_elem_of_In. by eapply avail_after.
  - intros a Ha. eapply in_free in Ha as [|(seg & seg' & snap & H1 & _ & H3)]; [by left| |done]. right.
    unfold unmarked_blocks. rewrite H1. by apply unmarked_all, (co_fate _ _ _ _ _ _ H3).
Qed.

Lemma reclaim_subheap_correct_witness :
  let w := ReclaimSample.w1 in let l := Sample.l6 in let sh := ReclaimSample.sh1 in let p := init_alloc_ptr 9 in
  exists w' sh' free' st, reclaim_subheap w ReclaimSample.h1 6 [] = Ok (w', set_subheap 6 sh' ReclaimSample.h1, free', st) /\
    sub_ok w' 6 l p sh' free' /\
    filled sh' ++ partial sh' ++ free' ≡ₚ filled sh ++ partial sh ++ [] /\
    (forall b, b ∉ partial sh ++ ptr_seg p ++ filled sh -> segs w' !! b = segs w !! b) /\
    avail w' l p sh' =
      match ap_b p with Some (a, b) => map (block_addr l a) (unmarked_blocks l w a (BITPTR_INDEX b 8)) | None => [] end ++
      concat (map (fun a => map (block_addr l a) (unmarked_blocks l w a 0)) (partial sh')) /\
    (forall a, a ∈ free' -> a ∈ [] \/ length (unmarked_blocks l w a 0) = blocks l).
Proof.
  refine (reclaim_subheap_correct 6 Sample.l6 ReclaimSample.w1 ReclaimSample.h1 (init_alloc_ptr 9) ReclaimSample.sh1 []
    Sample.l6_ok eq_refl eq_refl ReclaimSample.ready1 ReclaimSample.still_free (Forall_nil_2 _) _).
  apply (bool_decide_unpack _). vm_compute. exact I.
Defined.


(** Reclaiming a subpool: [partial_marked] is emptied, every segment is
    filled, partial or free afterwards according to its marks, what a partial
    segment can hand out are its unmarked blocks, and the free segments are
    as good as new. *)
Theorem reclaim_subpool_correct i l w sp free : the_layouts !! i = Some l -> subpool_to_collect i l w sp ->
  (forall a seg, a ∈ partial_marked sp -> segs w !! a = Some seg -> unmarked l seg <> 0%nat) ->
  exists w' sp' free', reclaim_subpool w sp free = Ok (w', sp', free') /\
    partial_marked sp' = [] /\
    pool_filled sp' ++ pool_partial sp' ++ free' ≡ₚ pool_filled sp ++ partial_marked sp ++ pool_partial sp ++ free /\
    (forall b, b ∉ partial_marked sp ++ pool_filled sp -> segs w' !! b = segs w !! b) /\
    (forall a, a ∈ pool_filled sp' -> unmarked_blocks l w a 0 = []) /\
    (forall a, a ∈ pool_partial sp' -> a ∈ pool_partial sp \/
       partial_ok w' i l a /\ avail_seg w' l a = map (block_addr l a) (unmarked_blocks l w a 0)) /\
    (forall a, a ∈ free' -> a ∈ free \/ idle_at w' a /\ length (unmarked_blocks l w a 0) = blocks l).
Proof.
  intros Hi Htc Hpart. destruct (reclaim_subpool_spec i l Hi w sp free Htc) as (w' & sp' & free' & Hrun & Hrec).
  destruct Hrec as [Honly Hma Hfi Hnone Hfl Hpa Hfr]. exists w', sp', free'. split; [done|]. split; [done|]. split; [|split; [apply Honly|split; [|split]]].
  - rewrite Hfl, Hpa, Hfr. rewrite <- (fates_perm (fate_pool l) w (pool_filled sp)) at 4.
    rewrite <- (fates_perm (fate_partial l) w (partial_marked sp)) at 3.
    rewrite (going_partial_none l w (partial_marked sp)) by
      (intros a Ha; destruct (st_marked _ _ _ _ Htc a Ha) as (seg & [Hs _] & _); congruence). cbn [app]. solve_Permutation.
  - intros a Ha. rewrite Hfl, going_in in Ha. destruct Ha as [Ha Hf]. destruct (Hfi a Ha) as (seg & seg' & H1 & _).
    unfold fate_at in Hf. rewrite H1 in Hf. unfold fate_pool, fate_partial in Hf. case_decide as Hz; [|by case_decide].
    unfold unmarked_blocks. rewrite H1. by apply unmarked_none.
  - intros a Ha. rewrite Hpa, !elem_of_app, !going_in in Ha. destruct Ha as [Ha|Ha]; [by left|right].
    assert (exists seg seg', segs w !! a = Some seg /\ seg_at w' i l a seg' /\ collected i l (BLOCK_BASE l) ToPartial seg seg' /\ unmarked l seg <> 0%nat)
      as (seg & seg' & H1 & H2 & H3 & H4).
    { destruct Ha as [[Ha Hf]|[Ha Hf]].
      - destruct (Hma a Ha) as (seg & seg' & H1 & H2 & H3). rewrite Hf in H3. exists seg, seg'. do 3 (split; [done|]). by apply (Hpart a).
      - destruct (Hfi a Ha) as (seg & seg' & H1 & H2 & H3). rewrite Hf in H3. exists seg, seg'. do 3 (split; [done|]).
        unfold fate_at in Hf. rewrite H1 in Hf. unfold fate_pool in Hf. by case_decide. }
    split; [exists seg'; split; [done|]; split; [apply H3|by apply (free_block_left i l seg seg' (BLOCK_BASE l) ToPartial)]|].
    unfold avail_seg. rewrite (proj1 H2). f_equal. by apply (collected_avail i l w w' a (BLOCK_BASE l) ToPartial seg seg' 0 H1 (proj1 H2)).
  - intros a Ha. rewrite Hfr, !elem_of_app, !going_in in Ha. destruct Ha as [Ha|Ha]; [by left|right].
    assert (exists seg seg', segs w !! a = Some seg /\ seg_at w' i l a seg' /\ collected i l (BLOCK_BASE l) ToFree seg seg')
      as (seg & seg' & H1 & (H2 & _ & _ & H5) & H3).
    { destruct Ha as [[Ha Hf]|[Ha Hf]]; [destruct (Hma a Ha) as (seg & seg' & H1 & H2 & H3)|destruct (Hfi a Ha) as (seg & seg' & H1 & H2 & H3)];
        rewrite Hf in H3; by exists seg, seg'. }
    split; [split; [done|]; exists seg'; split; [done|]; by apply (collected_idle i l Hi (BLOCK_BASE l) seg)|].
    unfold unmarked_blocks. rewrite H1. by apply unmarked_all, (co_fate _ _ _ _ _ _ H3).
Qed.

Lemma reclaim_subpool_correct_witness :
  let w := ReclaimSample.w1 in let l := Sample.l6 in let sp := Subpool [65536] [] [32768] in
  exists w' sp' free', reclaim_subpool w sp [] = Ok (w', sp', free') /\
    partial_marked sp' = [] /\
    pool_filled sp' ++ pool_partial sp' ++ free' ≡ₚ pool_filled sp ++ partial_marked sp ++ pool_partial sp ++ [] /\
    (forall b, b ∉ partial_marked sp ++ pool_filled sp -> segs w' !! b = segs w !! b) /\
    (forall a, a ∈ pool_filled sp' -> unmarked_blocks l w a 0 = []) /\
    (forall a, a ∈ pool_partial sp' -> a ∈ pool_partial sp \/
       partial_ok w' 6 l a /\ avail_seg w' l a = map (block_addr l a) (unmarked_blocks l w a 0)) /\
    (forall a, a ∈ free' -> a ∈ [] \/ idle_at w' a /\ length (unmarked_blocks l w a 0) = blocks l).
Proof.
  apply (reclaim_subpool_correct 6 Sample.l6 ReclaimSample.w1 (Subpool [65536] [] [32768]) [] Sample.l6_ok).
  - destruct ReclaimSample.ready1 as [_ Hp Hf _]. split.
    + intros a Ha. destruct (Hp a Ha) as (seg & H1 & H2 & _). by exists seg.
    + exact Hf.
    + apply (bool_decide_unpack _). vm_compute. exact I.
  - exact ReclaimSample.still_free.
Defined.

(** ** Two small objects, of which the first is reachable *)
Module CycleSample.
Import Sample ReclaimSample.

Definition seg_ok_b (l : segment_layout) (ws : list Z) : bool :=
  (length ws =? segment_words)%nat && forallb (fun x => (0 <=? x) && (x <? 2 ^ 32)) ws &&
  forallb (fun k => bits ws 8 k) (seq (blocks l) (32 * words0 l - blocks l)) &&
  forallb (fun q => eqb (bits ws (8 + words0 l) q) (full (ws !!! (8 + q)%nat))) (seq 0 (words0 l)) &&
  forallb (fun q => bits ws (8 + words0 l) q) (seq (words0 l) (32 * words1 l - words0 l)).

Lemma seg_ok_b_ok l ws : seg_ok_b l ws = true -> seg_ok l ws.
Proof.
  unfold seg_ok_b. rewrite !andb_true_iff, Nat.eqb_eq, !forallb_forall. intros [[[[H1 H2] H3] H4] H5]. split.
  - split; [done|]. apply Forall_forall. intros x Hx%list_elem_of_In. specialize (H2 x Hx).
    rewrite andb_true_iff, Z.leb_le, Z.ltb_lt in H2. exact H2.
  - intros k Hk. apply H3, in_seq. lia.
  - intros q Hq. apply eqb_true_iff, H4, in_seq. lia.
  - intros q Hq. apply H5, in_seq. lia.
Qed.

Definition x : Z := Eval vm_compute in block_addr l6 32768 0.
Definition y : Z := Eval vm_compute in block_addr l6 32768 1.
Definition m : mem :=
  let string m a := store32 m (a - 4) (OBJ_HEADER_WORD OBJTYPE_UNBOXED_VECTOR 400) in string (string (fun _ => 0) x) y.
Definition Obj (a : Z) : Prop := a = x \/ a = y.
Definition lay (_ : Z) : nat := 6.
Definition g0 : marks :=
  Marks (<[32768 := Segment (Some 6%nat) (BLOCK_BASE l6) 0
            (clear_collect_bitmap l6 (copy (set_bits (set_bits zeros (BITPTR collect 0)) (BITPTR collect 1))))]> ∅) ∅ ∅.
Definition g1 : marks := match mark_phase m 3 g0 0 [x] [] [] with Ok (g, _) => g | _ => g0 end.
Definition w : world := World (mark_segs g1) (pool w0) PREASYNC 0.
Definition sh : subheap := Subheap [] [32768].
Definition h : heap := set_subheap 6 sh h0.

Lemma cycle_objects : objects_ok m Obj lay.
Proof.
  split.
  - intros [H|H]; discriminate H.
  - intros a [->| ->] _ _; [exists l6, 0%nat|exists l6, 1%nat]; split; try reflexivity; (split; [|split; [done|reflexivity]]); vm_compute; lia.
  - intros a [->| ->] _; exists []; (split; [vm_compute; reflexivity|intros b Hb; by apply elem_of_nil in Hb]).
Qed.

Lemma cycle_marks0 : TraceThms.marks_ok m Obj lay g0.
Proof.
  split; intros a [->| ->] _ Hl; try (vm_compute in Hl; discriminate Hl); eexists; (split; [reflexivity|split; [reflexivity|]]);
    cbn [words]; apply sok_words with l6, seg_ok_b_ok; vm_compute; reflexivity.
Qed.

Lemma run1 : mark_phase m 3 g0 0 [x] [] [] = Ok (g1, Allocator 0 0).
Proof. unfold g1. vm_compute. reflexivity. Qed.

Definition seg1 : segment := default fresh_segment (segs w !! 32768).
Lemma seg1_at : seg_at w 6 l6 32768 seg1.
Proof.
  split; [vm_compute; reflexivity|]. split; [vm_compute; reflexivity|]. split; [|done]. apply seg_ok_b_ok. vm_compute. reflexivity.
Qed.

Lemma ready : to_collect 6 l6 w (init_alloc_ptr 9) sh.
Proof.
  split.
  - split; reflexivity.
  - intros a ->%list_elem_of_singleton. exists seg1. split; [apply seg1_at|]. split; [|vm_compute; reflexivity].
    assert (H : forallb (fun k => negb (cbits l6 (words seg1) k)) (seq 62 2) = true) by (vm_compute; reflexivity).
    intros k Hk. rewrite forallb_forall in H. apply negb_true_iff, H, in_seq. destruct sizes as [Hb Hw]. lia.
  - intros a Ha. by apply elem_of_nil in Ha.
  - apply (bool_decide_unpack _). vm_compute. exact I.
Qed.

Lemma block_left a seg : a ∈ partial sh -> segs w !! a = Some seg -> unmarked l6 seg <> 0%nat.
Proof.
  intros ->%list_elem_of_singleton Hs. destruct seg1_at as [Hs1 _]. rewrite Hs1 in Hs. injection Hs as <-.
  apply (bool_decide_unpack _). vm_compute. exact I.
Qed.
End CycleSample.

