(* ===== verification/HeapThms.v ===== *)
(** * The heap of a thread: theorems *)
From Stdlib Require Import ZArith Lia SpecFloat.
From stdpp Require Import base option list gmap.
From S2P Require Import Prelude Bits Layout Segment SegmentFacts SegList Alloc AllocFacts AllocThms Memory Malloc Reclaim ReclaimFacts Heap ReclaimThms.

Local Open Scope Z_scope.

(** ** Reclaiming all subheaps *)

(** The segments that a subheap of [h] uses. *)
Definition used (h : heap) (i : nat) : list Z :=
  match hptr h !! i, subheaps h !! i with
  | Some p, Some sh => ptr_seg p ++ filled sh ++ partial sh
  | _, _ => []
  end.

(** A heap at the end of marking. *)
Record heap_to_collect (w : world) (h : heap) : Prop := {
  hc_sub i l : the_layouts !! i = Some l -> exists p sh, hptr h !! i = Some p /\ subheaps h !! i = Some sh /\
    to_collect i l w p sh /\ forall a seg, a ∈ partial sh -> segs w !! a = Some seg -> unmarked l seg <> 0%nat;
  hc_apart i j a : a ∈ used h i -> a ∈ used h j -> i = j
}.

Lemma sub_ok_frame w w' i l p sh fl fl' : sub_ok w i l p sh fl ->
  (forall a, a ∈ ptr_seg p ++ filled sh ++ partial sh -> segs w' !! a = segs w !! a) ->
  Forall (idle_at w') fl' -> NoDup fl' -> (forall a, a ∈ ptr_seg p ++ filled sh ++ partial sh -> a ∉ fl') ->
  sub_ok w' i l p sh fl'.
Proof.
  intros [Hp Hf Hpa _ Hnd] Hsame Hidle Hndf Hd. rewrite Forall_forall in Hf, Hpa. setoid_rewrite elem_of_app in Hsame. setoid_rewrite elem_of_app in Hsame. split.
  - apply (ptr_ok_frame w); auto.
  - apply Forall_forall. intros a Ha. destruct (Hf a Ha) as [seg [Hs H]]. exists seg. split; [|done]. rewrite Hsame; tauto.
  - apply Forall_forall. intros a Ha. destruct (Hpa a Ha) as (seg & [Hs H1] & H2). exists seg. split; [|done]. split; [|done]. rewrite Hsame; tauto.
  - done.
  - rewrite !app_assoc in Hnd |- *. apply NoDup_app in Hnd as (Hnd & _). apply NoDup_app. split; [done|]. split; [|done].
    intros a Ha. apply Hd. by rewrite app_assoc.
Qed.

Lemma to_collect_frame i l w w' p sh : to_collect i l w p sh ->
  (forall a, a ∈ ptr_seg p ++ filled sh ++ partial sh -> segs w' !! a = segs w !! a) -> to_collect i l w' p sh.
Proof.
  intros [Hp H1 H2 H3] Hsame. setoid_rewrite elem_of_app in Hsame. setoid_rewrite elem_of_app in Hsame.
  split; [apply (ptr_ok_frame w); auto|intros a Ha..|done].
  - destruct (H1 a Ha) as (seg & [Hs H4] & H5). exists seg. split; [|done]. split; [|done]. by rewrite Hsame by tauto.
  - destruct (H2 a Ha) as (seg & [Hs H4] & H5). exists seg. split; [|done]. split; [|done]. by rewrite Hsame by tauto.
Qed.

Lemma sub_free_nodup w i l p sh fl : sub_ok w i l p sh fl ->
  NoDup fl /\ forall a, a ∈ ptr_seg p ++ filled sh ++ partial sh -> a ∉ fl.
Proof.
  intros Hs. pose proof (sub_nodup _ _ _ _ _ _ Hs) as Hnd. rewrite !app_assoc in Hnd.
  apply NoDup_app in Hnd as (_ & Hd & Hf). split; [done|]. intros a Ha. apply Hd. by rewrite <- app_assoc.
Qed.

(** What the reclamation of one subheap does to its segments. *)
Section One.
Context (i : nat) (l : segment_layout) (Hl : the_layouts !! i = Some l).
Context (w w' : world) (p : alloc_ptr) (sh sh' : subheap) (free free' : list Z).
Context (Htc : to_collect i l w p sh) (Hrec : subheap_reclaimed i l w w' p sh sh' free free').
Hypothesis Hpart : forall a seg, a ∈ partial sh -> segs w !! a = Some seg -> unmarked l seg <> 0%nat.

Lemma one_same a : a ∉ ptr_seg p ++ filled sh ++ partial sh -> segs w' !! a = segs w !! a.
Proof. intros Ha. apply (sr_only _ _ _ _ _ _ _ _ _ Hrec). rewrite !elem_of_app in *. tauto. Qed.

Lemma one_freed a : a ∈ free' -> a ∈ free \/ a ∈ ptr_seg p ++ filled sh ++ partial sh.
Proof.
  intros Ha. assert (Hin : a ∈ filled sh ++ partial sh ++ free)
    by (rewrite <- (segments_perm i l w w' p sh sh' free free' Htc Hrec), !elem_of_app; tauto).
  rewrite !elem_of_app in *. tauto.
Qed.

Lemma one_stays a : NoDup (ptr_seg p ++ filled sh ++ partial sh ++ free) ->
  a ∈ ptr_seg p ++ filled sh' ++ partial sh' -> a ∈ ptr_seg p ++ filled sh ++ partial sh.
Proof.
  intros Hnd. assert (Hperm := segments_perm i l w w' p sh sh' free free' Htc Hrec). rewrite !elem_of_app.
  intros [|Ha]; [by left|]. assert (Hin : a ∈ filled sh ++ partial sh ++ free) by (rewrite <- Hperm, !elem_of_app; tauto).
  destruct (decide (a ∈ free)) as [Hf|Hf]; [|rewrite !elem_of_app in Hin; tauto]. exfalso.
  assert (Hnd2 : NoDup (filled sh' ++ partial sh' ++ free')) by (rewrite Hperm; by apply NoDup_app in Hnd as (_ & _ & ?)).
  rewrite app_assoc in Hnd2. apply NoDup_app in Hnd2 as (_ & Hd2 & _). apply (Hd2 a); [by rewrite elem_of_app|].
  rewrite (sr_to_free _ _ _ _ _ _ _ _ _ Hrec), elem_of_app. by left.
Qed.

(** The blocks to hand out, by the marks of [w0]. *)
Lemma one_avail w0 : (forall a, a ∈ ptr_seg p ++ filled sh ++ partial sh -> segs w !! a = segs w0 !! a) ->
  avail w' l p sh' = match ap_b p with Some (a, b) => map (block_addr l a) (unmarked_blocks l w0 a (BITPTR_INDEX b 8)) | None => [] end ++
    concat (map (fun a => map (block_addr l a) (unmarked_blocks l w0 a 0)) (partial sh')).
Proof.
  intros Hsegs. unfold avail. rewrite (avail_ptr_after i l w w' p sh sh' free free' Hrec).
  assert (Hum : forall a k, a ∈ ptr_seg p ++ filled sh ++ partial sh -> unmarked_blocks l w a k = unmarked_blocks l w0 a k)
    by (intros a k Ha; unfold unmarked_blocks; by rewrite Hsegs).
  f_equal.
  - unfold ptr_seg in Hum. destruct (ap_b p) as [[a b]|]; [|done]. rewrite Hum; [done|]. by left.
  - f_equal. apply map_ext_in. intros a Ha%list_elem_of_In. rewrite (avail_after i l w w' p sh sh' free free' Hrec Hpart) by done.
    rewrite Hum; [done|].
    rewrite (sr_to_partial _ _ _ _ _ _ _ _ _ Hrec), elem_of_app, !going_in in Ha. rewrite !elem_of_app. tauto.
Qed.
End One.

Section All.
Context (w0 : world) (h0 : heap) (Hh : heap_to_collect w0 h0).

(** Subheap [i] has been reclaimed: [free] are the free segments so far. *)
Definition done_sub (w : world) (h : heap) (free : list Z) (i : nat) : Prop :=
  exists l p sh, the_layouts !! i = Some l /\ hptr h !! i = Some p /\ subheaps h !! i = Some sh /\
    sub_ok w i l p sh free /\ (forall a, a ∈ ptr_seg p ++ filled sh ++ partial sh -> a ∈ used h0 i) /\
    avail w l p sh = match ap_b p with Some (a, b) => map (block_addr l a) (unmarked_blocks l w0 a (BITPTR_INDEX b 8)) | None => [] end ++
      concat (map (fun a => map (block_addr l a) (unmarked_blocks l w0 a 0)) (partial sh)).

Record reclaimed_upto (n : nat) (w : world) (h : heap) (free : list Z) : Prop := {
  ru_pool : pool w = pool w0 /\ current_phase w = current_phase w0 /\ gc_requests w = gc_requests w0;
  ru_heap : hptr h = hptr h0 /\ count h = count h0 /\ length (subheaps h) = length (subheaps h0);
  ru_done i : (i < n)%nat -> done_sub w h free i;
  ru_rest i : (n <= i)%nat -> subheaps h !! i = subheaps h0 !! i /\ forall a, a ∈ used h0 i -> segs w !! a = segs w0 !! a;
  ru_free : Forall (idle_at w) free /\ NoDup free /\ forall a, a ∈ free -> exists j, (j < n)%nat /\ a ∈ used h0 j
}.

Lemma avail_frame w w' l p sh : (forall a, a ∈ ptr_seg p ++ filled sh ++ partial sh -> segs w' !! a = segs w !! a) ->
  avail w' l p sh = avail w l p sh.
Proof.
  intros Hsame. setoid_rewrite elem_of_app in Hsame. setoid_rewrite elem_of_app in Hsame. unfold avail. f_equal.
  - unfold avail_ptr, ptr_seg in *. destruct (ap_b p) as [[a b]|]; [|done]. rewrite Hsame; [done|]. left. by left.
  - f_equal. apply map_ext_in. intros a Ha%list_elem_of_In. unfold avail_seg. by rewrite Hsame by tauto.
Qed.

Lemma used_at h i p sh : hptr h !! i = Some p -> subheaps h !! i = Some sh -> used h i = ptr_seg p ++ filled sh ++ partial sh.
Proof. intros H1 H2. unfold used. by rewrite H1, H2. Qed.

(** A subheap done before stays so while another one, [n], is reclaimed. *)
Lemma done_sub_frame w h free w' sh' free' i n : done_sub w h free i -> i <> n ->
  (forall a, a ∉ used h0 n -> segs w' !! a = segs w !! a) -> Forall (idle_at w') free' -> NoDup free' ->
  (forall a, a ∈ free' -> a ∈ free \/ a ∈ used h0 n) -> done_sub w' (set_subheap n sh' h) free' i.
Proof.
  intros (l & p & sh & H1 & H2 & H3 & H4 & H5 & H6) Hne Hon Hidle Hnd Hfree.
  assert (Hapart : forall a, a ∈ ptr_seg p ++ filled sh ++ partial sh -> a ∉ used h0 n)
    by (intros a Ha%H5 Hx; by pose proof (hc_apart _ _ Hh i n a Ha Hx)).
  assert (Hsame : forall a, a ∈ ptr_seg p ++ filled sh ++ partial sh -> segs w' !! a = segs w !! a)
    by (intros a Ha; apply Hon; by apply Hapart).
  exists l, p, sh. split; [done|]. split; [done|]. split; [cbn; by rewrite list_lookup_insert_ne|].
  split; [|split; [done|by rewrite (avail_frame w w')]].
  apply (sub_ok_frame w w' i l p sh free free'); try done.
  intros a Ha [Hf|Hx]%Hfree; [by apply (sub_free_nodup _ _ _ _ _ _ H4) in Ha|by apply (Hapart a)].
Qed.

(** The subheap that is reclaimed next. *)
Lemma next_to_collect n l w h free : the_layouts !! n = Some l -> reclaimed_upto n w h free ->
  exists p sh, hptr h !! n = Some p /\ subheaps h !! n = Some sh /\ used h0 n = ptr_seg p ++ filled sh ++ partial sh /\
    to_collect n l w p sh /\ (forall a seg, a ∈ partial sh -> segs w !! a = Some seg -> unmarked l seg <> 0%nat) /\
    (forall a, a ∈ used h0 n -> segs w !! a = segs w0 !! a) /\ NoDup (ptr_seg p ++ filled sh ++ partial sh ++ free).
Proof.
  intros Hl [_ (Hptrs & _) _ Hrest (_ & Hndf & Hfree)].
  destruct (hc_sub _ _ Hh n l Hl) as (p & sh & Hp & Hsh & Htc & Hpart).
  destruct (Hrest n ltac:(lia)) as [Hshn Hsegs]. pose proof (used_at h0 n p sh Hp Hsh) as Hu.
  exists p, sh. split; [by rewrite Hptrs|]. split; [by rewrite Hshn|]. split; [done|]. rewrite Hu in Hsegs |- *. split_and!.
  - by apply (to_collect_frame n l w0 w).
  - intros a seg Ha Hs. apply (Hpart a); [done|]. rewrite <- Hsegs; [done|]. rewrite !elem_of_app. tauto.
  - done.
  - rewrite !app_assoc. apply NoDup_app. rewrite <- !app_assoc. split; [apply Htc|]. split; [|done].
    intros a Ha (j & Hj & Haj)%Hfree. rewrite <- Hu in Ha. pose proof (hc_apart _ _ Hh n j a Ha Haj). lia.
Qed.

Lemma reclaim_heap_next n w h free stats t : (n < NUM_SUBHEAPS)%nat -> reclaimed_upto n w h free ->
  exists w' h' free' stats' t', reclaim_heap_step (w, h, free, stats, t) n = Ok (w', h', free', stats', t') /\
    reclaimed_upto (S n) w' h' free' /\ length stats' = S (length stats) /\ freelist h' = freelist h.
Proof.
  intros Hn Hru. destruct (layout_of_index n Hn) as [l Hl].
  destruct (next_to_collect n l w h free Hl Hru) as (p & sh & Hp & Hsh & Hu & Htc & Hpart & Hsegs & Hnd).
  pose proof Hru as [Hpool (Hptrs & Hcount & Hlen) Hdone Hrest [Hidle [Hndf Hfree]]].
  destruct (reclaim_subheap_spec n l Hl w h p sh free Hp Hsh Htc) as (w' & sh' & free' & st & Hrun & Hrec).
  unfold reclaim_heap_step. rewrite Hrun. cbn [mbind res_bind]. eexists _, _, _, _, _. split; [reflexivity|].
  split; [|split; [rewrite length_app; cbn; lia|done]].
  assert (Hsub := reclaimed_sub_ok n l Hl w w' p sh sh' free free' Htc Hrec Hpart Hidle Hnd).
  destruct (sub_free_nodup _ _ _ _ _ _ Hsub) as [Hndf' _]. pose proof (sub_free _ _ _ _ _ _ Hsub) as Hidle'.
  assert (Hon : forall a, a ∉ used h0 n -> segs w' !! a = segs w !! a) by (rewrite Hu; by apply (one_same n l w w' p sh sh' free free')).
  assert (Hfree' : forall a, a ∈ free' -> a ∈ free \/ a ∈ used h0 n) by (rewrite Hu; by apply (one_freed n l w w' p sh sh' free free')).
  split.
  - destruct (sr_only _ _ _ _ _ _ _ _ _ Hrec) as (H1 & H2 & H3 & _). destruct Hpool as (H4 & H5 & H6). by rewrite H1, H2, H3.
  - cbn [set_subheap hptr count subheaps]. by rewrite length_insert.
  - intros i Hi. destruct (decide (i = n)) as [->|Hne]; [|apply (done_sub_frame w h free); try done; apply Hdone; lia].
    exists l, p, sh'. split; [done|]. split; [done|].
    split; [cbn; apply list_lookup_insert_eq; by apply lookup_lt_Some in Hsh|]. split; [done|]. rewrite Hu in Hsegs |- *.
    split; [intros a; by apply (one_stays n l w w' p sh sh' free free')|by apply (one_avail n l w w' p sh sh' free free')].
  - intros i Hi. destruct (Hrest i ltac:(lia)) as [H1 H2]. split; [cbn; by rewrite list_lookup_insert_ne by lia|]. intros a Ha.
    rewrite <- H2 by done. apply Hon. intros Hx. pose proof (hc_apart _ _ Hh n i a Hx Ha). lia.
  - split; [done|]. split; [done|].
    intros a Ha. destruct (Hfree' a Ha) as [Hf|Hx]; [|exists n; split; [lia|done]]. destruct (Hfree a Hf) as (j & Hj & ?). exists j. split; [lia|done].
Qed.

Lemma reclaim_heap_all k : forall n w h free stats t, (n + k = NUM_SUBHEAPS)%nat -> reclaimed_upto n w h free ->
  exists w' h' free' stats' t', foldl (fun st i => st ← st; reclaim_heap_step st i) (Ok (w, h, free, stats, t)) (seq n k) = Ok (w', h', free', stats', t') /\
    reclaimed_upto NUM_SUBHEAPS w' h' free' /\ length stats' = (length stats + k)%nat /\ freelist h' = freelist h.
Proof.
  induction k as [|k IH]; intros n w h free stats t Hn Hr.
  - exists w, h, free, stats, t. replace NUM_SUBHEAPS with n by lia. split; [done|]. split; [done|]. split; [lia|done].
  - destruct (reclaim_heap_next n w h free stats t ltac:(lia) Hr) as (w1 & h1 & free1 & stats1 & t1 & Hrun & Hr1 & Hl1 & Hf1).
    destruct (IH (S n) w1 h1 free1 stats1 t1 ltac:(lia) Hr1) as (w' & h' & free' & stats' & t' & Hrun' & Hr' & Hl' & Hf').
    exists w', h', free', stats', t'. cbn [seq foldl mbind res_bind]. rewrite Hrun. split; [exact Hrun'|]. split; [done|].
    split; [lia|congruence].
Qed.
End All.

Lemma reclaim_counts_room undefined d n : forall ls stats rs i c, map fst (reclaim_counts undefined d n ls stats rs) !! i = Some c ->
  1 <= extension_room c.
Proof.
  induction ls as [|l ls IH]; intros stats rs i c; [done|]. destruct stats as [|st stats], rs as [|r rs]; try done.
  destruct i as [|i]; cbn [reclaim_counts map lookup list_lookup]; [|apply IH]. intros [= <-]. unfold reclaim_count. cbn [fst extension_room].
  case_match; [lia|]. apply Z.leb_gt in H. lia.
Qed.

Lemma reclaim_counts_length undefined d n ls : forall stats rs, length stats = length ls -> length rs = length ls ->
  length (reclaim_counts undefined d n ls stats rs) = length ls.
Proof.
  induction ls as [|l ls IH]; intros [|st stats] [|r rs]; try done. cbn. intros [= H1] [= H2]. by rewrite IH.
Qed.

Lemma pushed_to_collect w l h : heap_to_collect w h -> heap_to_collect (push_freelist l w) (set_freelist [] h).
Proof.
  intros [H1 H2]. split; [|exact H2]. intros i li Hi. destruct (H1 i li Hi) as (p & sh & H3 & H4 & [Ha Hb Hc Hd] & H5).
  exists p, sh. split; [exact H3|]. split; [exact H4|]. split; [split; [exact Ha|exact Hb|exact Hc|exact Hd]|exact H5].
Qed.

(** ** Properties *)


(** The subheaps of a new heap are empty. *)
Lemma new_ptr_ok w i l : the_layouts !! i = Some l -> ptr_ok w i l (init_alloc_ptr (Z.of_nat i + BLOCKSIZE_MIN_LOG2)).
Proof.
  intros Hi. split; [|done]. unfold init_alloc_ptr. cbn [ap_blocksize]. rewrite <- (layout_log2 i l Hi), Z.shiftl_mul_pow2, Z.mul_1_l.
  - by rewrite (proj1 (lo_blocksize _ (layouts_ok i l Hi))).
  - pose proof (proj2 (lo_blocksize _ (layouts_ok i l Hi))). lia.
Qed.

Lemma layout_bound i l : the_layouts !! i = Some l -> (i < NUM_SUBHEAPS)%nat.
Proof. intros Hi. apply lookup_lt_Some in Hi. exact Hi. Qed.

Lemma new_hptr i : (i < NUM_SUBHEAPS)%nat ->
  map (fun i => init_alloc_ptr (Z.of_nat i + BLOCKSIZE_MIN_LOG2)) (seq 0 NUM_SUBHEAPS) !! i = Some (init_alloc_ptr (Z.of_nat i + BLOCKSIZE_MIN_LOG2)).
Proof. intros Hi. rewrite list_lookup_fmap_Some. exists i. split; [done|]. apply lookup_seq. lia. Qed.

Module HeapSample.
Import Sample ReclaimSample.
Definition f : full_heap := FullHeap h1 [] (replicate NUM_SUBHEAPS (Ratios d05 d01)) (HeapCount (of_Z 0) (of_Z 0) (of_Z 0)).

Lemma subheap_other i : i <> 6%nat -> (i < NUM_SUBHEAPS)%nat -> subheaps h1 !! i = Some (Subheap [] []).
Proof.
  intros Hi Hlt. unfold h1, set_subheap. cbn [subheaps h0]. rewrite list_lookup_insert_ne by done. by apply lookup_replicate_2.
Qed.

Lemma used_other i : i <> 6%nat -> used h1 i = [].
Proof.
  intros Hi. unfold used. destruct (decide (i < NUM_SUBHEAPS)%nat) as [Hlt|Hge].
  - rewrite subheap_other by done. change (hptr h1) with ptrs. unfold ptrs. by rewrite new_hptr.
  - destruct (hptr h1 !! i) eqn:H; [|done]. apply lookup_lt_Some in H. by destruct Hge.
Qed.

Lemma collectable : heap_to_collect w1 (fh_heap f).
Proof.
  split.
  - intros i l Hi. assert (Hlt := layout_bound i l Hi). exists (init_alloc_ptr (Z.of_nat i + BLOCKSIZE_MIN_LOG2)).
    destruct (decide (i = 6%nat)) as [->|Hne].
    + exists sh1. rewrite l6_ok in Hi. injection Hi as <-. split; [reflexivity|]. split; [reflexivity|]. split; [exact ready1|exact still_free].
    + exists (Subheap [] []). split; [exact (new_hptr i Hlt)|]. split; [by apply subheap_other|].
      split; [|intros a seg Ha; by apply elem_of_nil in Ha]. split; [by apply new_ptr_ok|intros a Ha; by apply elem_of_nil in Ha..|constructor].
  - intros i j a Hia Hja. destruct (decide (i = 6%nat)) as [->|]; [|rewrite used_other in Hia by done; by apply elem_of_nil in Hia].
    destruct (decide (j = 6%nat)) as [->|]; [done|rewrite used_other in Hja by done; by apply elem_of_nil in Hja].
Qed.
End HeapSample.


(** When nothing was allocated since the last collection, the speed of
    allocation is 0.0 / 0: not a number.  It stays so in every later
    collection, and what is to be converted to [unsigned int] is not a
    number either, which C leaves undefined. *)
Theorem allocspeed_not_a_number undefined d l stat r : num_blocks_alloced stat = 0 ->
  allocspeed_ratio (snd (reclaim_count undefined d 0 l stat r)) = S754_nan /\
  forall d' n l' stat', allocspeed_ratio (snd (reclaim_count undefined d' n l' stat' (snd (reclaim_count undefined d 0 l stat r)))) = S754_nan /\
    to_uint undefined (dmul d' S754_nan) = undefined S754_nan.
Proof.
  intros Hz. assert (H1 : allocspeed_ratio (snd (reclaim_count undefined d 0 l stat r)) = S754_nan).
  { unfold reclaim_count. cbn [snd allocspeed_ratio]. rewrite Hz.
    change (ddiv (of_Z 0) (of_Z 0)) with S754_nan. unfold dsub, dmul, dadd. by destruct (allocspeed_ratio r). }
  split; [done|]. intros d' n l' stat'. split.
  - set (r1 := snd _) in *. unfold reclaim_count. cbn [snd allocspeed_ratio]. by rewrite H1.
  - unfold dmul. by destruct d'.
Qed.

Lemma allocspeed_not_a_number_witness :
  let stat := StatReclaim 0 0 0 0 0 in let r := Ratios d05 d01 in
  allocspeed_ratio (snd (reclaim_count (fun _ => 0) d01 0 Sample.l6 stat r)) = S754_nan /\
  forall d' n l' stat', allocspeed_ratio (snd (reclaim_count (fun _ => 0) d' n l' stat' (snd (reclaim_count (fun _ => 0) d01 0 Sample.l6 stat r)))) = S754_nan /\
    to_uint (fun _ => 0) (dmul d' S754_nan) = 0.
Proof. apply (allocspeed_not_a_number (fun _ => 0) d01 Sample.l6 (StatReclaim 0 0 0 0 0) (Ratios d05 d01) eq_refl). Defined.

(** [init_memory] keeps an aligned range of the mapping that is large enough,
    and gives back exactly the rest of it. *)
Theorem init_memory_correct pagesize p max_size : SEGMENT_SIZE mod pagesize = 0 -> 0 < p -> 0 <= max_size ->
  exists mem, init_memory pagesize p max_size = Ok mem /\
    let size := mem_count mem * SEGMENT_SIZE in
    aligned (mem_begin mem) /\ alloced mem = 0 /\ max_size <= size < max_size + SEGMENT_SIZE /\
    (forall a, p <= a < p + size + SEGMENT_SIZE ->
       mem_begin mem <= a < mem_begin mem + size \/ exists r, r ∈ released_pages p max_size /\ r.1 <= a < r.1 + r.2) /\
    (forall r, r ∈ released_pages p max_size -> p <= r.1 /\ 0 < r.2 /\ r.1 + r.2 <= p + size + SEGMENT_SIZE /\
       (r.1 + r.2 <= mem_begin mem \/ mem_begin mem + size <= r.1)).
Proof.
  intros Hpage Hp Hmax. unfold init_memory. rewrite Hpage. cbn [negb Z.eqb]. eexists. split; [reflexivity|].
  cbn [mem_begin mem_count alloced]. unfold released_pages. change (SEGMENT_SIZE - 1) with (Z.ones 15). rewrite Z.land_ones by lia.
  change (2 ^ 15) with SEGMENT_SIZE. destruct (CEILING_spec max_size SEGMENT_SIZE) as (k & Hk & Hb); [done|]. rewrite Hk in *.
  rewrite Z.div_mul by done. assert (HS : 0 < SEGMENT_SIZE) by done. pose proof (Z.mod_pos_bound p SEGMENT_SIZE HS).
  set (gap := p mod SEGMENT_SIZE) in *. destruct (Z.eqb_spec gap 0) as [Hg|Hg].
  - split; [by split|]. split; [done|]. split; [lia|]. split.
    + intros a Ha. destruct (Z.lt_ge_cases a (p + k * SEGMENT_SIZE)); [left; lia|right].
      exists (p + k * SEGMENT_SIZE, SEGMENT_SIZE). split; [by left|]. cbn [fst snd]. lia.
    + intros r ->%list_elem_of_singleton. cbn [fst snd]. lia.
  - assert (Hd : aligned (p + (SEGMENT_SIZE - gap))).
    { split; [lia|]. replace (p + (SEGMENT_SIZE - gap)) with ((p - gap) + 1 * SEGMENT_SIZE) by lia. rewrite Z.mod_add by lia.
      unfold gap. rewrite Zminus_mod_idemp_r, Z.sub_diag. done. }
    split; [done|]. split; [done|]. split; [lia|]. split.
    + intros a Ha. destruct (Z.lt_ge_cases a (p + (SEGMENT_SIZE - gap))).
      * right. exists (p, SEGMENT_SIZE - gap). split; [by left|]. cbn [fst snd]. lia.
      * destruct (Z.lt_ge_cases a (p + (SEGMENT_SIZE - gap) + k * SEGMENT_SIZE)); [left; lia|right].
        exists (p + (SEGMENT_SIZE - gap) + k * SEGMENT_SIZE, gap). split; [right; by left|]. cbn [fst snd]. lia.
    + intros r Hr. rewrite !elem_of_cons, elem_of_nil in Hr. destruct Hr as [->|[->|[]]]; cbn [fst snd]; lia.
Qed.

Lemma init_memory_correct_witness : exists mem, init_memory 4096 (5 * 4096) 100000 = Ok mem /\
    let size := mem_count mem * SEGMENT_SIZE in
    aligned (mem_begin mem) /\ alloced mem = 0 /\ 100000 <= size < 100000 + SEGMENT_SIZE /\
    (forall a, 5 * 4096 <= a < 5 * 4096 + size + SEGMENT_SIZE ->
       mem_begin mem <= a < mem_begin mem + size \/ exists r, r ∈ released_pages (5 * 4096) 100000 /\ r.1 <= a < r.1 + r.2) /\
    (forall r, r ∈ released_pages (5 * 4096) 100000 -> 5 * 4096 <= r.1 /\ 0 < r.2 /\ r.1 + r.2 <= 5 * 4096 + size + SEGMENT_SIZE /\
       (r.1 + r.2 <= mem_begin mem \/ mem_begin mem + size <= r.1)).
Proof. apply (init_memory_correct 4096 (5 * 4096) 100000); [reflexivity|lia|lia]. Defined.

(** A new heap has no segments. *)
Lemma new_heap_ready w sp a i l init : the_layouts !! i = Some l -> pool_ok i l w sp -> partial_ok w i l a -> a ∉ pool_members w sp ->
  (forall j c, map fst init.1 !! j = Some c -> 0 <= extension_room c) -> length init.1 = NUM_SUBHEAPS ->
  exists c, ready i l w (fh_heap (init_heap init)) (Subheap [] []) c sp a.
Proof.
  intros Hi Hpool Hpa Ha Hc Hlen. assert (Hlt := layout_bound i l Hi).
  assert (exists c, map fst init.1 !! i = Some c) as [c Hci].
  { destruct (map fst init.1 !! i) as [c|] eqn:H; [by exists c|]. apply lookup_ge_None in H. rewrite length_map in H. lia. }
  exists c. split; try done.
  - by apply lookup_replicate_2.
  - by apply (Hc i).
  - apply NoDup_singleton.
  - intros b Hb. apply list_elem_of_singleton in Hb. by subst.
Qed.

(** [sml_heap_worker_init] puts the contexts and the allocator of a new
    worker into one block of a fresh segment, where they fit; the heap of the
    new allocator is well-formed, continues behind that block, and is empty
    otherwise.  It fails only when the pool has no segment. *)
Theorem sml_heap_worker_init_correct size_alloc align_alloc init m w extra sp i l :
  let offset := CEILING extra align_alloc in let allocsize := OBJ_HEADER_SIZE + offset + size_alloc in
  0 < align_alloc -> 0 <= extra -> 0 <= size_alloc -> 4 < allocsize <= BLOCKSIZE_MAX ->
  i = Z.to_nat (CEIL_LOG2 allocsize - BLOCKSIZE_MIN_LOG2) -> the_layouts !! i = Some l -> pool_ok i l w sp ->
  (forall j c, map fst init.1 !! j = Some c -> 0 <= extension_room c) -> length init.1 = NUM_SUBHEAPS ->
  exists r m' w', sml_heap_worker_init size_alloc align_alloc init m w extra = Ok (r, m', w') /\
    match r with
    | None => m' = m /\ w' = w /\ pool_partial sp = [] /\ pool_freelist (pool w) = [] /\
        mem_count (pool_memory (pool w)) <= alloced (pool_memory (pool w))
    | Some (memory, alloc, f) => exists a,
        memory :: available i l w' (fh_heap f) = avail_seg w' l a /\
        heap_ok i l w' (fh_heap f) /\ fh_malloc f = [] /\
        alloc = memory + offset /\ extra <= offset /\ alloc + size_alloc <= memory - OBJ_HEADER_SIZE + blocksize_bytes l /\
        load32 m' (memory - 4) = allocsize /\
        (forall j, (j < NUM_SUBHEAPS)%nat -> j <> i -> subheaps (fh_heap f) !! j = Some (Subheap [] []) /\
           hptr (fh_heap f) !! j = Some (init_alloc_ptr (Z.of_nat j + BLOCKSIZE_MIN_LOG2)))
    end.
Proof.
  intros offset allocsize Hal Hex Hsz Has Hidx Hi Hpool Hc Hlen. unfold sml_heap_worker_init.
  fold offset. fold allocsize. change BLOCKSIZE_MAX with 4096 in Has.
  pose proof (CEIL_LOG2_spec allocsize ltac:(lia)) as [Hlo Hhi]. set (e := CEIL_LOG2 allocsize) in *.
  assert (He : 3 <= e <= 12).
  { split.
    - destruct (Z.le_gt_cases 3 e) as [|Hlt]; [done|]. exfalso. assert (2 ^ e <= 2 ^ 2) by (apply Z.pow_le_mono_r; lia). lia.
    - destruct (Z.le_gt_cases e 12) as [|Hgt]; [done|]. exfalso. assert (2 ^ 12 <= 2 ^ (e - 1)) by (apply Z.pow_le_mono_r; lia). lia. }
  change BLOCKSIZE_MIN_LOG2 with 3 in *. change BLOCKSIZE_MAX_LOG2 with 12.
  rewrite (proj2 (Z.leb_le 3 e)), (proj2 (Z.leb_le e 12)) by lia. cbn [andb assert_that mbind res_bind].
  rewrite <- Hidx. assert (Hei : e = Z.of_nat i + 3) by lia.
  destruct (get_segment_from_pool_spec i l Hi w sp DUMMY_PHASE Hpool) as ([r w1] & Hget & _ & _ & Hr). rewrite Hget. cbn [mbind res_bind].
  cbn [fst snd] in Hr. destruct r as [a|].
  - destruct Hr as (sp' & _ & Hpa & Hpool' & Ha & _).
    destruct (new_heap_ready w1 sp' a i l init Hi Hpool' Hpa Ha Hc Hlen) as [c Hready].
    assert (Hbs : ap_blocksize (init_alloc_ptr e) = blocksize_bytes l) by (rewrite Hei; apply (new_ptr_ok w i l Hi)).
    destruct (find_in_segment i l Hi w1 _ (init_alloc_ptr e) _ c sp' a DUMMY_PHASE Hready Hbs) as (k & h' & w2 & Hrun & Hok & _ & Hav1 & Hav).
    destruct (set_alloc_ptr w1 (init_alloc_ptr e) a DUMMY_PHASE) as [[p1 w3]| | |]; try discriminate Hrun. cbn [mbind res_bind] in *.
    destruct (find_bitmap_ptr w3 p1) as [[obj p2]| | |]; try discriminate Hrun. cbn [mbind res_bind] in *.
    destruct (assert_that _) as [u| | |]; try discriminate Hrun. cbn [mbind res_bind] in *. injection Hrun as -> <- <-. cbn [deref mbind res_bind].
    eexists _, _, _. split; [reflexivity|]. exists a. cbn [fh_heap fh_malloc].
    split; [rewrite Hav1; etrans; [exact Hav|apply app_nil_r]|]. split; [done|]. split; [done|]. split; [done|].
    destruct (CEILING_spec extra align_alloc Hal) as (q & _ & Hq). fold offset in Hq. split; [lia|].
    assert (Hb : blocksize_bytes l = 2 ^ e).
    { rewrite (proj1 (lo_blocksize _ (layouts_ok i l Hi))), (layout_log2 i l Hi), Hei. done. }
    split; [rewrite Hb; unfold allocsize in *; unfold OBJ_HEADER_SIZE in *; lia|]. split; [apply load_store32; lia|].
    intros j Hj Hne. split; [by apply lookup_replicate_2|]. cbn [hptr set_ptr init_heap fh_heap]. rewrite list_lookup_insert_ne by done. by apply new_hptr.
  - destruct Hr as (-> & H1 & H2 & _ & H3). eexists _, _, _. split; [reflexivity|]. done.
Qed.

Module WorkerSample.
Import Sample.
Definition init := init_subheap_count_init (fun _ => 0) 4.
Lemma counts_ok : forall j c, map fst init.1 !! j = Some c -> 0 <= extension_room c.
Proof.
  assert (H : forallb (fun c => 0 <=? extension_room c) (map fst init.1) = true) by (vm_compute; reflexivity).
  intros j c Hj. rewrite forallb_forall in H. apply Z.leb_le, H, list_elem_of_In. by eapply list_elem_of_lookup_2.
Qed.
Lemma pool0 : pool_ok 6 l6 w0 (Subpool [] [] []).
Proof. destruct h0_ok as (p & sh & c & sp & H). destruct H as [_ _ _ _ _ H _]. assert (sp = Subpool [] [] []) as <-; [|exact H].
  pose proof (po_sub _ _ _ _ H) as Hs. injection Hs as <-. reflexivity.
Qed.
End WorkerSample.

Lemma sml_heap_worker_init_correct_witness : exists r m' w',
  sml_heap_worker_init 400 8 WorkerSample.init (fun _ => 0) Sample.w0 100 = Ok (r, m', w') /\
    match r with
    | None => m' = (fun _ => 0) /\ w' = Sample.w0 /\ pool_partial (Subpool [] [] []) = [] /\ pool_freelist (pool Sample.w0) = [] /\
        mem_count (pool_memory (pool Sample.w0)) <= alloced (pool_memory (pool Sample.w0))
    | Some (memory, alloc, f) => exists a,
        memory :: available 6 Sample.l6 w' (fh_heap f) = avail_seg w' Sample.l6 a /\
        heap_ok 6 Sample.l6 w' (fh_heap f) /\ fh_malloc f = [] /\
        alloc = memory + 104 /\ 100 <= 104 /\ alloc + 400 <= memory - OBJ_HEADER_SIZE + blocksize_bytes Sample.l6 /\
        load32 m' (memory - 4) = 508 /\
        (forall j, (j < NUM_SUBHEAPS)%nat -> j <> 6%nat -> subheaps (fh_heap f) !! j = Some (Subheap [] []) /\
           hptr (fh_heap f) !! j = Some (init_alloc_ptr (Z.of_nat j + BLOCKSIZE_MIN_LOG2)))
    end.
Proof.
  apply (sml_heap_worker_init_correct 400 8 WorkerSample.init (fun _ => 0) Sample.w0 100 (Subpool [] [] []) 6 Sample.l6);
    [done|done|done|split; reflexivity || discriminate|reflexivity|exact Sample.l6_ok|exact WorkerSample.pool0|exact WorkerSample.counts_ok|reflexivity].
Defined.

(** ** The end of a worker *)
Definition killable (w : world) (h : heap) (i : nat) : Prop :=
  exists p sh sp, hptr h !! i = Some p /\ subheaps h !! i = Some sh /\ subpools (pool w) !! i = Some sp /\
    (ap_p p = 0 <-> ap_b p = None).

Record killed_upto (n : nat) (w0 w : world) (h0 h : heap) : Prop := {
  ku_world : segs w = segs w0 /\ pool_freelist (pool w) = pool_freelist (pool w0) /\ pool_memory (pool w) = pool_memory (pool w0);
  ku_heap : freelist h = freelist h0;
  ku_done i : (i < n)%nat -> exists sp sp', subpools (pool w0) !! i = Some sp /\ subpools (pool w) !! i = Some sp' /\
    pool_filled sp' ≡ₚ used h0 i ++ pool_filled sp /\ pool_partial sp' = pool_partial sp /\ partial_marked sp' = partial_marked sp;
  ku_rest i : (n <= i)%nat -> hptr h !! i = hptr h0 !! i /\ subheaps h !! i = subheaps h0 !! i /\ subpools (pool w) !! i = subpools (pool w0) !! i
}.

Lemma kill_next n w0 w h0 h : (forall i, (i < NUM_SUBHEAPS)%nat -> killable w0 h0 i) -> (n < NUM_SUBHEAPS)%nat -> killed_upto n w0 w h0 h ->
  exists w' h', kill_step (w, h) n = Ok (w', h') /\ killed_upto (S n) w0 w' h0 h'.
Proof.
  intros Hk Hn [(Hs & Hf & Hm) Hfl Hdone Hrest]. destruct (Hk n Hn) as (p & sh & sp & Hp & Hsh & Hsp & Hnull).
  destruct (Hrest n ltac:(lia)) as (H1 & H2 & H3). unfold kill_step. rewrite H2, Hsh, H1, Hp, H3, Hsp. cbn [deref mbind res_bind].
  assert (exists l1, (if ap_p p =? 0 then Ok (filled sh) else a ← ALLOC_PTR_TO_SEGMENT p; Ok (filled sh ++ [a])) = Ok l1 /\ l1 ≡ₚ ptr_seg p ++ filled sh)
    as (l1 & Hl1 & Hperm).
  { unfold ptr_seg, ALLOC_PTR_TO_SEGMENT. destruct (Z.eqb_spec (ap_p p) 0) as [Hz|Hz].
    - rewrite (proj1 Hnull Hz). by exists (filled sh).
    - destruct (ap_b p) as [[a b]|]; [|by destruct Hz; apply Hnull]. cbn [deref mbind res_bind]. eexists. split; [reflexivity|].
      by rewrite <- Permutation_cons_append. }
  rewrite Hl1. cbn [mbind res_bind]. eexists _, _. split; [reflexivity|].
  pose proof (lookup_lt_Some _ _ _ Hsp) as Hlt. rewrite <- H3 in Hsp. pose proof (lookup_lt_Some _ _ _ Hsp) as Hlt'. split.
  - done.
  - done.
  - intros i Hi. cbn [pool set_subpools set_pool subpools]. destruct (decide (i = n)) as [->|Hne].
    + exists sp. eexists. split; [congruence|]. split; [by apply list_lookup_insert_eq|]. cbn [pool_filled pool_partial partial_marked].
      split; [|done]. rewrite (used_at h0 n p sh) by done. by rewrite Hperm, <- !app_assoc.
    + rewrite list_lookup_insert_ne by done. apply Hdone. lia.
  - intros i Hi. cbn [pool set_subpools set_pool subpools hptr subheaps set_ptr set_subheap]. rewrite !list_lookup_insert_ne by lia. apply Hrest. lia.
Qed.

Lemma kill_all k : forall n w0 w h0 h, (forall i, (i < NUM_SUBHEAPS)%nat -> killable w0 h0 i) -> (n + k = NUM_SUBHEAPS)%nat -> killed_upto n w0 w h0 h ->
  exists w' h', foldl (fun st i => st ← st; kill_step st i) (Ok (w, h)) (seq n k) = Ok (w', h') /\ killed_upto NUM_SUBHEAPS w0 w' h0 h'.
Proof.
  induction k as [|k IH]; intros n w0 w h0 h Hk Hn Hu.
  - exists w, h. replace NUM_SUBHEAPS with n by lia. done.
  - destruct (kill_next n w0 w h0 h Hk ltac:(lia) Hu) as (w1 & h1 & Hrun & Hu1). cbn [seq foldl mbind res_bind]. rewrite Hrun. by apply IH; [|lia|].
Qed.

(** When a worker ends no segment is lost: the segments of each of its
    subheaps are with the filled ones of the pool, its free segments are on
    the free list, its large objects on the list of the pool. *)
Theorem sml_heap_worker_kill_correct w f malloc_subpool : (forall i, (i < NUM_SUBHEAPS)%nat -> killable w (fh_heap f) i) ->
  exists w', sml_heap_worker_kill w f malloc_subpool = Ok (w', fh_malloc f ++ malloc_subpool) /\
    segs w' = segs w /\ pool_freelist (pool w') = freelist (fh_heap f) ++ pool_freelist (pool w) /\
    (forall i, (i < NUM_SUBHEAPS)%nat -> exists sp sp', subpools (pool w) !! i = Some sp /\ subpools (pool w') !! i = Some sp' /\
       pool_filled sp' ≡ₚ used (fh_heap f) i ++ pool_filled sp /\ pool_partial sp' = pool_partial sp /\ partial_marked sp' = partial_marked sp).
Proof.
  intros Hk. destruct (kill_all NUM_SUBHEAPS 0 w w (fh_heap f) (fh_heap f) Hk eq_refl) as (w' & h' & Hrun & [(H1 & H2 & _) H3 H4 _]).
  { split; try done. intros i Hi. lia. }
  unfold sml_heap_worker_kill. rewrite Hrun. cbn [mbind res_bind]. eexists. split; [reflexivity|]. split; [done|].
  split; [cbn; by rewrite H3, H2|done].
Qed.

Lemma sml_heap_worker_kill_correct_witness : exists w',
  sml_heap_worker_kill ReclaimSample.w1 HeapSample.f [8] = Ok (w', fh_malloc HeapSample.f ++ [8]) /\
    segs w' = segs ReclaimSample.w1 /\ pool_freelist (pool w') = freelist (fh_heap HeapSample.f) ++ pool_freelist (pool ReclaimSample.w1) /\
    (forall i, (i < NUM_SUBHEAPS)%nat -> exists sp sp', subpools (pool ReclaimSample.w1) !! i = Some sp /\ subpools (pool w') !! i = Some sp' /\
       pool_filled sp' ≡ₚ used (fh_heap HeapSample.f) i ++ pool_filled sp /\ pool_partial sp' = pool_partial sp /\ partial_marked sp' = partial_marked sp).
Proof.
  apply sml_heap_worker_kill_correct. intros i Hi. exists (init_alloc_ptr (Z.of_nat i + BLOCKSIZE_MIN_LOG2)).
  exists (if decide (i = 6%nat) then ReclaimSample.sh1 else Subheap [] []), (Subpool [] [] []).
  split; [exact (new_hptr i Hi)|]. split; [|split; [by apply lookup_replicate_2|done]].
  case_decide as Hd; [subst; reflexivity|by apply HeapSample.subheap_other].
Defined.
