(* ===== verification/SplayTree.v ===== *)
(** * Splay trees: the abstract specification

    Binary trees, one-hole contexts and the transformation rules that the
    comment before [splay] in src/src/runtime/splay.c gives, with what they
    preserve.  SplayHeap.v shows that the pointer code follows them. *)
From Stdlib Require Import ZArith Lia.
From stdpp Require Import base option list relations sorting.
From S2P Require Import Prelude.

Local Open Scope Z_scope.

(** [enum direction]; [DIR] is the sign bit of a comparison result. *)
Inductive direction := RIGHT | LEFT.
#[export] Instance direction_eq_dec : EqDecision direction.
Proof. solve_decision. Defined.

Definition DIR (cmp : Z) : direction := if cmp <? 0 then LEFT else RIGHT.
Definition OPP (dir : direction) : direction :=
  match dir with RIGHT => LEFT | LEFT => RIGHT end.

Lemma OPP_involutive d : OPP (OPP d) = d.
Proof. by destruct d. Qed.
Lemma OPP_ne d : OPP d <> d.
Proof. by destruct d. Qed.
#[export] Hint Rewrite OPP_involutive : runtime.
#[export] Hint Resolve OPP_ne not_eq_sym : runtime.

Section Trees.
Context {E : Type}.
Implicit Types (d s : direction) (e : E).

Inductive tree :=
| Leaf
| Node (l : tree) (e : E) (r : tree).

Definition sub d (t : tree) : tree :=
  match t, d with
  | Leaf, _ => Leaf
  | Node l _ _, LEFT => l
  | Node _ _ r, RIGHT => r
  end.

(** [mk d e a b] has [a] on side [d] and [b] on the other side. *)
Definition mk d e (a b : tree) : tree :=
  match d with LEFT => Node a e b | RIGHT => Node b e a end.

Fixpoint inorder (t : tree) : list E :=
  match t with
  | Leaf => []
  | Node l e r => inorder l ++ e :: inorder r
  end.

Fixpoint postorder (t : tree) : list E :=
  match t with
  | Leaf => []
  | Node l e r => postorder l ++ postorder r ++ [e]
  end.

Definition tsize (t : tree) : nat := length (inorder t).

(** A context of side [LEFT] is the [L[]] of the comment (its hole is at the
    right end), one of side [RIGHT] is [R[]]; outermost frame first. *)
Definition context := list (E * tree).

Fixpoint fill s (cs : context) (t : tree) : tree :=
  match cs with
  | [] => t
  | (e, u) :: cs' => mk s e u (fill s cs' t)
  end.

Definition frame_elems s (f : E * tree) : list E :=
  match s with
  | LEFT => inorder f.2 ++ [f.1]
  | RIGHT => f.1 :: inorder f.2
  end.

Fixpoint cinorder s (cs : context) : list E :=
  match cs with
  | [] => []
  | f :: cs' =>
      match s with
      | LEFT => frame_elems s f ++ cinorder s cs'
      | RIGHT => cinorder s cs' ++ frame_elems s f
      end
  end.

Record zipper := Zip { zl : context; zt : tree; zr : context }.

Definition zinorder (z : zipper) : list E :=
  cinorder LEFT (zl z) ++ inorder (zt z) ++ cinorder RIGHT (zr z).

(** Link the frame [f] into the context of side [s]. *)
Definition zlink s (f : E * tree) (z : zipper) (t : tree) : zipper :=
  match s with
  | LEFT => Zip (zl z ++ [f]) t (zr z)
  | RIGHT => Zip (zl z) t (zr z ++ [f])
  end.

(** ** The transformation rules

    [c e] is the result of comparing the key with [e].  With [d := LEFT] the
    constructors are L1, L2 and LN; with [d := RIGHT] they are R1, R2, RN. *)
Variable c : E -> Z.

Inductive splay_rule : zipper -> zipper -> Prop :=
| rule_1 d L R n m A B C :
    c n <> 0 -> DIR (c n) = d -> c m <> 0 -> DIR (c m) = d -> A <> Leaf ->
    splay_rule (Zip L (mk d n (mk d m A B) C) R)
               (zlink (OPP d) (m, mk d n B C) (Zip L Leaf R) A)
| rule_2 d L R n m A B C :
    c n <> 0 -> DIR (c n) = d -> (c m = 0 \/ DIR (c m) <> d) ->
    splay_rule (Zip L (mk d n (mk d m A B) C) R)
               (zlink (OPP d) (n, C) (Zip L Leaf R) (mk d m A B))
| rule_N d L R n m B C :
    c n <> 0 -> DIR (c n) = d -> c m <> 0 -> DIR (c m) = d ->
    splay_rule (Zip L (mk d n (mk d m Leaf B) C) R)
               (Zip L (mk d m Leaf (mk d n B C)) R).

(** The loop ends at a root equal to the key or without a child towards it. *)
Definition terminal (t : tree) : Prop :=
  match t with
  | Leaf => False
  | Node _ e _ => c e = 0 \/ sub (DIR (c e)) t = Leaf
  end.

(** What a whole list of elements looks like when it is sorted relative to
    the key: first the smaller, then at most one equal, then the larger. *)
Definition key_sorted : list E -> Prop :=
  StronglySorted (fun x y => 0 < c x \/ c y < 0).

Definition smaller (l : list E) : list E := filter (fun e => 0 < c e) l.
Definition larger (l : list E) : list E := filter (fun e => c e < 0) l.
Definition matching (l : list E) : list E := filter (fun e => c e = 0) l.
Definition lookup_key (l : list E) : option E := head (matching l).

End Trees.
Arguments tree : clear implicits.
Arguments context : clear implicits.
Arguments zipper : clear implicits.

Section TreeFacts.
Context {E : Type}.
Implicit Types (d s : direction) (e : E) (t u : tree E) (cs : context E) (z : zipper E).

Lemma sub_mk_same d e a b : sub d (mk d e a b) = (a : tree E).
Proof. by destruct d. Qed.
Lemma sub_mk_opp d e a b : sub (OPP d) (mk d e a b) = (b : tree E).
Proof. by destruct d. Qed.
Lemma mk_OPP d e a b : mk (OPP d) e a b = (mk d e b a : tree E).
Proof. by destruct d. Qed.

Lemma fill_snoc s cs e u t : fill s (cs ++ [(e, u)]) t = fill s cs (mk s e u t).
Proof. induction cs as [|[e' u'] cs IH]; simpl; [done|]. by rewrite IH. Qed.

Lemma cinorder_snoc s cs f :
  cinorder s (cs ++ [f]) =
  match s with
  | LEFT => cinorder s cs ++ frame_elems s f
  | RIGHT => frame_elems s f ++ cinorder s cs
  end.
Proof.
  induction cs as [|g cs IH]; destruct s; simpl; rewrite ?app_nil_r; try done;
    rewrite IH; by rewrite <- ?app_assoc.
Qed.

Lemma inorder_fill s cs t :
  inorder (fill s cs t) =
  match s with
  | LEFT => cinorder s cs ++ inorder t
  | RIGHT => inorder t ++ cinorder s cs
  end.
Proof.
  induction cs as [|[e u] cs IH]; destruct s; simpl; rewrite ?app_nil_r; try done;
    rewrite IH; rewrite <- ?app_assoc; simpl; try done.
Qed.

Lemma tsize_pos_node l e r : (0 < tsize (Node l e r : tree E))%nat.
Proof. unfold tsize; simpl. rewrite length_app; simpl; lia. Qed.

Lemma tsize_node l e r : tsize (Node l e r : tree E) = S (tsize l + tsize r).
Proof. unfold tsize; simpl. rewrite length_app; simpl; lia. Qed.

Lemma tsize_mk d e a b : tsize (mk d e a b : tree E) = S (tsize a + tsize b).
Proof. destruct d; simpl; rewrite tsize_node; lia. Qed.

Lemma postorder_perm t : postorder t ≡ₚ inorder t.
Proof.
  induction t as [|l IHl e r IHr]; simpl; [done|].
  rewrite IHl, IHr. by rewrite <- Permutation_cons_append.
Qed.

(** ** Consequences of the rules *)
Section Rules.
Variable c : E -> Z.

Lemma splay_rule_inorder z z' :
  splay_rule c z z' -> zinorder z' = zinorder z.
Proof.
  destruct 1 as [[] ? ? ? ? ? ? ?|[] ? ? ? ? ? ? ?|[] ? ? ? ? ? ?];
    unfold zinorder; simpl; rewrite ?cinorder_snoc; simpl;
    by repeat (rewrite <- app_assoc || rewrite <- app_comm_cons).
Qed.

Lemma splay_rules_inorder z z' :
  rtc (splay_rule c) z z' -> zinorder z' = zinorder z.
Proof.
  induction 1 as [|z1 z2 z3 H _ IH]; [done|].
  rewrite IH. by apply splay_rule_inorder.
Qed.

(** Everything linked to the left is smaller than the key and everything
    linked to the right is larger. *)
Definition split_ok z : Prop :=
  Forall (fun e => 0 < c e) (cinorder LEFT (zl z)) /\
  Forall (fun e => c e < 0) (cinorder RIGHT (zr z)).

Lemma key_sorted_app_cons l1 e l2 :
  key_sorted c (l1 ++ e :: l2) ->
  (0 < c e -> Forall (fun x => 0 < c x) l1) /\
  (c e < 0 -> Forall (fun x => c x < 0) l2) /\
  (c e = 0 -> Forall (fun x => 0 < c x) l1 /\ Forall (fun x => c x < 0) l2).
Proof.
  unfold key_sorted. induction l1 as [|x l1 IH]; simpl; intros H.
  - inversion H as [|? ? _ HF]; subst. rewrite Forall_forall in HF.
    repeat split; try done; intros; apply Forall_forall; intros y Hy;
      specialize (HF y Hy); lia.
  - inversion H as [|? ? Hs HF]; subst. destruct (IH Hs) as (IH1 & IH2 & IH3).
    rewrite Forall_app, Forall_cons in HF. destruct HF as (_ & HF & _).
    repeat split; intros; try (apply IH2; done); try (by apply IH3).
    + constructor; [lia|]. by apply IH1.
    + constructor; [lia|]. by apply IH3.
Qed.

Lemma DIR_LEFT n : DIR n = LEFT <-> n < 0.
Proof. unfold DIR. destruct (Z.ltb_spec n 0); split; try done; lia. Qed.
Lemma DIR_RIGHT n : DIR n = RIGHT <-> 0 <= n.
Proof. unfold DIR. destruct (Z.ltb_spec n 0); split; try done; lia. Qed.

Lemma key_sorted_app l1 l2 :
  key_sorted c (l1 ++ l2) -> key_sorted c l1 /\ key_sorted c l2.
Proof.
  unfold key_sorted. intros H. split.
  - by eapply StronglySorted_app_1_l.
  - by eapply StronglySorted_app_1_r.
Qed.

Lemma splay_rule_split z z' :
  splay_rule c z z' -> key_sorted c (zinorder z) -> split_ok z -> split_ok z'.
Proof.
  intros Hr Hs [HL HR].
  assert (Ht : key_sorted c (inorder (zt z))).
  { unfold zinorder in Hs. apply key_sorted_app in Hs as [_ Hs].
    by apply key_sorted_app in Hs as [Hs _]. }
  destruct Hr as [d L R n m A B C Hn Hd Hm Hdm HA|d L R n m A B C Hn Hd Hm|];
    [| |done]; destruct d; unfold split_ok in *; simpl in *;
    rewrite ?cinorder_snoc; simpl;
    (apply DIR_LEFT in Hd || apply DIR_RIGHT in Hd);
    try (apply DIR_LEFT in Hdm || apply DIR_RIGHT in Hdm).
  - rewrite app_comm_cons, app_assoc in Ht.
    destruct (key_sorted_app_cons _ _ _ Ht) as (H1 & _).
    split; [|done]. rewrite Forall_app. split; [done|].
    apply Forall_app. split; [apply H1; lia|]. constructor; [lia|done].
  - rewrite <- app_assoc, <- app_comm_cons in Ht.
    destruct (key_sorted_app_cons _ _ _ Ht) as (_ & H1 & _).
    split; [done|]. constructor; [lia|].
    apply Forall_app. split; [apply H1; lia|done].
  - destruct (key_sorted_app_cons _ _ _ Ht) as (H1 & _).
    split; [|done]. rewrite !Forall_app. split; [done|].
    split; [apply H1; lia|]. constructor; [lia|done].
  - destruct (key_sorted_app_cons _ _ _ Ht) as (_ & H1 & _).
    split; [done|]. constructor; [lia|]. apply Forall_app. split; [apply H1; lia|done].
Qed.

Lemma splay_rules_split z z' :
  rtc (splay_rule c) z z' -> key_sorted c (zinorder z) -> split_ok z -> split_ok z'.
Proof.
  induction 1 as [|z1 z2 z3 H _ IH]; [done|]. intros Hs Ho.
  apply IH; [by rewrite (splay_rule_inorder _ _ H)|]. by eapply splay_rule_split.
Qed.

(** ** Partitioning a sorted list *)
Lemma smaller_app l1 l2 : smaller c (l1 ++ l2) = smaller c l1 ++ smaller c l2.
Proof. apply filter_app. Qed.
Lemma larger_app l1 l2 : larger c (l1 ++ l2) = larger c l1 ++ larger c l2.
Proof. apply filter_app. Qed.
Lemma matching_app l1 l2 : matching c (l1 ++ l2) = matching c l1 ++ matching c l2.
Proof. apply filter_app. Qed.
Lemma all_smaller l : Forall (fun e => 0 < c e) l ->
  smaller c l = l /\ larger c l = [] /\ matching c l = [].
Proof.
  intros H. repeat split; [by apply filter_all|apply filter_none|apply filter_none];
    eapply Forall_impl; try exact H; simpl; lia.
Qed.
Lemma all_larger l : Forall (fun e => c e < 0) l ->
  smaller c l = [] /\ larger c l = l /\ matching c l = [].
Proof.
  intros H. repeat split; [apply filter_none|by apply filter_all|apply filter_none];
    eapply Forall_impl; try exact H; simpl; lia.
Qed.

(** Where a splayed zipper puts the three parts of a sorted list. *)
Lemma splay_partition z l e r :
  zt z = Node l e r -> key_sorted c (zinorder z) -> split_ok z -> terminal c (zt z) ->
  smaller c (zinorder z) =
    cinorder LEFT (zl z) ++ inorder l ++ (if decide (0 < c e) then [e] else []) /\
  matching c (zinorder z) = (if decide (c e = 0) then [e] else []) /\
  larger c (zinorder z) =
    (if decide (c e < 0) then [e] else []) ++ inorder r ++ cinorder RIGHT (zr z).
Proof.
  unfold zinorder. intros Ht Hs [HL HR] Hterm. rewrite Ht in *.
  destruct (all_smaller _ HL) as (S1 & S2 & S3). destruct (all_larger _ HR) as (R1 & R2 & R3).
  rewrite !smaller_app, !larger_app, !matching_app, S1, S2, S3, R1, R2, R3. simpl.
  rewrite !smaller_app, !larger_app, !matching_app, !app_nil_r. simpl.
  assert (Hs' : key_sorted c (inorder l ++ e :: inorder r)).
  { apply key_sorted_app in Hs as [_ Hs]. by apply key_sorted_app in Hs as [Hs _]. }
  destruct (key_sorted_app_cons _ _ _ Hs') as (H1 & H2 & H3).
  assert (Hl : Forall (fun x => 0 < c x) (inorder l)).
  { simpl in Hterm. destruct (Z.lt_trichotomy (c e) 0) as [Hn|[Hn|Hn]].
    - rewrite (proj2 (DIR_LEFT _) Hn) in Hterm. destruct Hterm as [|Hterm]; [lia|].
      simpl in Hterm. by rewrite Hterm.
    - by apply H3.
    - by apply H1. }
  assert (Hr : Forall (fun x => c x < 0) (inorder r)).
  { simpl in Hterm. destruct (Z.lt_trichotomy (c e) 0) as [Hn|[Hn|Hn]].
    - by apply H2.
    - by apply H3.
    - rewrite (proj2 (DIR_RIGHT (c e))) in Hterm by lia. destruct Hterm as [|Hterm]; [lia|].
      simpl in Hterm. by rewrite Hterm. }
  destruct (all_smaller _ Hl) as (L1 & L2 & L3). destruct (all_larger _ Hr) as (Q1 & Q2 & Q3).
  change (e :: inorder r) with ([e] ++ inorder r).
  rewrite !smaller_app, !larger_app, !matching_app, L1, L2, L3, Q1, Q2, Q3.
  unfold smaller, larger, matching. rewrite !filter_cons, !filter_nil, !app_nil_r.
  split_and!; repeat case_decide; simpl; rewrite ?app_nil_r; done || lia.
Qed.
End Rules.
End TreeFacts.
#[export] Hint Rewrite @sub_mk_same @sub_mk_opp @mk_OPP : runtime.
