(* ===== verification/SplayHeap.v ===== *)
(** * Splay trees: the pointer code

    src/src/runtime/splay.c over an explicit store of nodes: [splay],
    [assemble], find, insert, delete, the traversals through the [back]
    pointers and the free list, as the C code writes them, and the theorems
    that relate them to the trees of SplayTree.v. *)
From Stdlib Require Import ZArith Lia.
From stdpp Require Import base option list gmap relations sorting.
From S2P Require Import Prelude SplayTree.

Local Open Scope Z_scope.

(** Addresses of [struct node]; a [struct node *] is an [option loc]. *)
Abbreviation loc := Z (only parsing).
Abbreviation nodeptr := (option Z) (only parsing).

(** A C array indexed by [enum direction]. *)
Record two (X : Type) := Two { at_right : X; at_left : X }.
Arguments Two {X}.
Arguments at_right {X}.
Arguments at_left {X}.

Definition pick {X} (d : direction) (p : two X) : X :=
  match d with RIGHT => at_right p | LEFT => at_left p end.
Definition put {X} (d : direction) (v : X) (p : two X) : two X :=
  match d with
  | RIGHT => Two v (at_left p)
  | LEFT => Two (at_right p) v
  end.

Lemma pick_put {X} d (v : X) p : pick d (put d v p) = v.
Proof. by destruct d. Qed.
Lemma pick_put_ne {X} d d' (v : X) p : d <> d' -> pick d (put d' v p) = pick d p.
Proof. by destruct d, d'. Qed.
Lemma pick_put_OPP {X} d (v : X) p : pick d (put (OPP d) v p) = pick d p.
Proof. by destruct d. Qed.
Lemma pick_OPP_put {X} d (v : X) p : pick (OPP d) (put d v p) = pick (OPP d) p.
Proof. by destruct d. Qed.
#[export] Hint Rewrite @pick_put @pick_put_OPP @pick_OPP_put : runtime.

(** A [struct node **]: the [root] field of the tree or a child field. *)
Inductive slot := SlotRoot | SlotChild (a : loc) (d : direction).

(** The [void *back] field: null, a node, or a slot. *)
Inductive backptr := BackNull | BackNode (a : loc) | BackSlot (s : slot).

(** A [struct node **] kept in [hole]: an entry of the caller's [result] or a
    child field. *)
Inductive hole_slot := HoleResult (d : direction) | HoleChild (a : loc) (d : direction).

Section SplayHeap.
Context {A : Type}.

(** [struct node] with the user's item in front of it; the item of a node
    just taken from a chunk has not been written yet. *)
Record node := MkNode { item : option A; child : two nodeptr; back : backptr }.

(** The locals [result] and [hole] of the callers of [splay]. *)
Record locals := Locals { result : two nodeptr; hole : two hole_slot }.

Definition INIT_HOLE : locals :=
  Locals (Two None None) (Two (HoleResult RIGHT) (HoleResult LEFT)).

Definition load_node (ns : gmap Z node) (a : loc) : res node := deref (ns !! a).
Definition ITEM_OF (ns : gmap Z node) (a : loc) : res A :=
  nd ← load_node ns a; deref (item nd).
Definition get_child (ns : gmap Z node) (a : loc) (d : direction) : res nodeptr :=
  nd ← load_node ns a; Ok (pick d (child nd)).
Definition set_child (ns : gmap Z node) (a : loc) (d : direction) (v : nodeptr)
  : res (gmap Z node) :=
  nd ← load_node ns a;
  Ok (<[a := MkNode (item nd) (put d v (child nd)) (back nd)]> ns).
Definition set_back (ns : gmap Z node) (a : loc) (b : backptr) : res (gmap Z node) :=
  nd ← load_node ns a; Ok (<[a := MkNode (item nd) (child nd) b]> ns).
Definition set_item (ns : gmap Z node) (a : loc) (x : A) : res (gmap Z node) :=
  nd ← load_node ns a; Ok (<[a := MkNode (Some x) (child nd) (back nd)]> ns).

Definition read_hole (ns : gmap Z node) (lc : locals) (s : hole_slot) : res nodeptr :=
  match s with
  | HoleResult d => Ok (pick d (result lc))
  | HoleChild a d => get_child ns a d
  end.
Definition write_hole (ns : gmap Z node) (lc : locals) (s : hole_slot) (v : nodeptr)
  : res (gmap Z node * locals) :=
  match s with
  | HoleResult d => Ok (ns, Locals (put d v (result lc)) (hole lc))
  | HoleChild a d => ns' ← set_child ns a d v; Ok (ns', lc)
  end.

(** The body of the loop of [splay] after its tests: link [node] into the
    hole opposite to [dir] and go down. *)
Definition link (ns : gmap Z node) (lc : locals) (dir : direction) (cur : loc)
  : res (gmap Z node * locals * loc) :=
  '(ns, lc) ← write_hole ns lc (pick (OPP dir) (hole lc)) (Some cur);
  let lc := Locals (result lc) (put (OPP dir) (HoleChild cur dir) (hole lc)) in
  next ← get_child ns cur dir;
  next ← deref next;
  Ok (ns, lc, next).

Fixpoint splay_loop (cmp : A -> A -> Z) (fuel : nat) (key : A) (ns : gmap Z node) (lc : locals)
    (cur : loc) (n : Z) : res (Z * loc * gmap Z node * locals) :=
  match fuel with
  | O => NoFuel
  | S fuel =>
      if n =? 0 then Ok (n, cur, ns, lc)
      else
        let dir := DIR n in
        ch ← get_child ns cur dir;
        match ch with
        | None => Ok (n, cur, ns, lc)
        | Some ch =>
            x ← ITEM_OF ns ch;
            let n := cmp key x in
            if negb (n =? 0) && bool_decide (DIR n = dir) then
              (* rotate *)
              let tmp := ch in
              g ← get_child ns tmp (OPP dir);
              ns ← set_child ns cur dir g;
              ns ← set_child ns tmp (OPP dir) (Some cur);
              ch ← get_child ns tmp dir;
              match ch with
              | None => Ok (n, tmp, ns, lc)
              | Some ch =>
                  x ← ITEM_OF ns ch;
                  let n := cmp key x in
                  '(ns, lc, next) ← link ns lc dir tmp;
                  splay_loop cmp fuel key ns lc next n
              end
            else
              '(ns, lc, next) ← link ns lc dir cur;
              splay_loop cmp fuel key ns lc next n
        end
  end.

Definition splay (cmp : A -> A -> Z) (fuel : nat) (key : A) (ns : gmap Z node) (lc : locals) (tree : loc)
  : res (Z * loc * gmap Z node * locals) :=
  x ← ITEM_OF ns tree;
  splay_loop cmp fuel key ns lc tree (cmp key x).

Definition assemble (ns : gmap Z node) (lc : locals) (cur : loc) : res (gmap Z node) :=
  r ← get_child ns cur RIGHT;
  '(ns, lc) ← write_hole ns lc (pick RIGHT (hole lc)) r;
  l ← get_child ns cur LEFT;
  '(ns, lc) ← write_hole ns lc (pick LEFT (hole lc)) l;
  ns ← set_child ns cur RIGHT (pick RIGHT (result lc));
  set_child ns cur LEFT (pick LEFT (result lc)).

(** ** Representation *)
Abbreviation elem := (Z * A)%type.
Implicit Types (t u : tree elem) (cs : context elem) (ns : gmap Z node) (lc : locals).

Fixpoint rep ns (p : nodeptr) t : Prop :=
  match t with
  | Leaf => p = None
  | Node l (a, x) r =>
      p = Some a /\
      exists nd, ns !! a = Some nd /\ item nd = Some x /\
                 rep ns (pick LEFT (child nd)) l /\ rep ns (pick RIGHT (child nd)) r
  end.

Fixpoint crep ns lc (s : direction) (start : hole_slot) cs (h : hole_slot) : Prop :=
  match cs with
  | [] => h = start
  | ((a, x), u) :: cs' =>
      read_hole ns lc start = Ok (Some a) /\
      exists nd, ns !! a = Some nd /\ item nd = Some x /\
                 rep ns (pick s (child nd)) u /\
                 crep ns lc s (HoleChild a (OPP s)) cs' h
  end.

Definition zctx (s : direction) (z : zipper elem) : context elem :=
  match s with LEFT => zl z | RIGHT => zr z end.

Definition zrepo ns lc (z : zipper elem) (p : nodeptr) : Prop :=
  rep ns p (zt z) /\
  forall s, crep ns lc s (HoleResult s) (zctx s z) (pick s (hole lc)).

Definition zrep ns lc (z : zipper elem) (a : loc) : Prop :=
  rep ns (Some a) (zt z) /\
  forall s, crep ns lc s (HoleResult s) (zctx s z) (pick s (hole lc)).

Definition locs (l : list elem) : list loc := l.*1.

Lemma locs_app l1 l2 : locs (l1 ++ l2) = locs l1 ++ locs l2.
Proof. apply fmap_app. Qed.
Lemma locs_cons a y l : locs ((a, y) :: l) = a :: locs l.
Proof. done. Qed.
Lemma locs_nil : locs [] = [].
Proof. done. Qed.
Typeclasses Opaque locs.
#[local] Hint Rewrite locs_app locs_cons locs_nil : locs.

(** Stores that differ at most at the given locations, and have nodes at the
    same places. *)
Definition only_at (L : list loc) ns ns' : Prop :=
  (forall a, a ∉ L -> ns' !! a = ns !! a) /\ (forall a, is_Some (ns' !! a) <-> is_Some (ns !! a)).

Lemma only_at_refl L ns : only_at L ns ns.
Proof. by split. Qed.
Lemma only_at_trans L ns1 ns2 ns3 : only_at L ns1 ns2 -> only_at L ns2 ns3 -> only_at L ns1 ns3.
Proof.
  intros [H1 D1] [H2 D2]. split; [|naive_solver].
  intros a Ha. rewrite H2 by done. by apply H1.
Qed.
Lemma only_at_mono L L' ns ns' : L ⊆ L' -> only_at L ns ns' -> only_at L' ns ns'.
Proof. intros Hs [H D]. split; [|done]. intros a Ha. apply H. set_solver. Qed.
#[export] Instance only_at_proper : Proper ((≡ₚ) ==> (=) ==> (=) ==> iff) only_at.
Proof.
  intros L L' HL ns _ <- ns' _ <-. unfold only_at.
  by setoid_rewrite HL.
Qed.
Lemma only_at_insert L a nd nd' ns : ns !! a = Some nd -> a ∈ L -> only_at L ns (<[a := nd']> ns).
Proof.
  intros Hn Ha. split.
  - intros b Hb. apply lookup_insert_ne. set_solver.
  - intros b. destruct (decide (a = b)) as [<-|]; simplify_map_eq; [|done].
    split; eauto.
Qed.

Lemma rep_mk ns p d a x t u :
  rep ns p (mk d (a, x) t u) <->
  p = Some a /\ exists nd, ns !! a = Some nd /\ item nd = Some x /\
    rep ns (pick d (child nd)) t /\ rep ns (pick (OPP d) (child nd)) u.
Proof. destruct d; simpl; naive_solver. Qed.

Lemma rep_node_inv ns a t :
  rep ns (Some a) t -> exists l x r, t = Node l (a, x) r.
Proof. destruct t as [|l [b x] r]; simpl; [done|]. intros ([= ->] & _). eauto. Qed.

Definition strip (nd : node) : option A * two nodeptr := (item nd, child nd).

(** A tree only depends on the items and children of its nodes. *)
Lemma rep_ext_strip ns ns' t : forall p,
  (forall a, a ∈ locs (inorder t) -> strip <$> ns' !! a = strip <$> ns !! a) ->
  rep ns p t -> rep ns' p t.
Proof.
  induction t as [|l IHl [a x] r IHr]; simpl; intros p Ha; [done|].
  intros (-> & nd & Hn & Hi & Hl & Hr). split; [done|].
  assert (Hs := Ha a). rewrite locs_app, locs_cons in *. rewrite Hn in Hs. specialize (Hs ltac:(set_solver)).
  destruct (ns' !! a) as [nd'|] eqn:Hn'; [|done].
  unfold strip in Hs. simpl in Hs. injection Hs as Hi' Hc.
  exists nd'. split; [done|]. split; [congruence|]. rewrite Hc. split.
  - apply IHl; [|done]. intros b Hb. apply Ha. set_solver.
  - apply IHr; [|done]. intros b Hb. apply Ha. set_solver.
Qed.

Lemma rep_ext ns ns' p t :
  (forall a, a ∈ locs (inorder t) -> ns' !! a = ns !! a) -> rep ns p t -> rep ns' p t.
Proof. intros H. apply rep_ext_strip. intros a Ha. by rewrite H. Qed.

Lemma rep_only_at L ns ns' p t :
  only_at L ns ns' -> L ## locs (inorder t) -> rep ns p t -> rep ns' p t.
Proof. intros [H _] Hd. apply rep_ext. intros a Ha. apply H. set_solver. Qed.

Lemma rep_lookup ns p t a : rep ns p t -> a ∈ locs (inorder t) -> is_Some (ns !! a).
Proof.
  revert p. induction t as [|l IHl [b x] r IHr]; simpl; intros p; [set_solver|].
  rewrite locs_app, locs_cons.
  intros (_ & nd & Hn & _ & Hl & Hr). rewrite elem_of_app, elem_of_cons.
  intros [?|[->|?]]; eauto.
Qed.

Lemma rep_fun ns p t t' : rep ns p t -> rep ns p t' -> t = t'.
Proof.
  revert p t'. induction t as [|l IHl [a x] r IHr]; intros p [|l' [a' x'] r'];
    simpl; naive_solver.
Qed.

(** ** Loads and stores *)
Lemma get_child_ok ns a nd d :
  ns !! a = Some nd -> get_child ns a d = Ok (pick d (child nd)).
Proof. unfold get_child, load_node. by intros ->. Qed.

Lemma ITEM_OF_ok ns a nd x :
  ns !! a = Some nd -> item nd = Some x -> ITEM_OF ns a = Ok x.
Proof. unfold ITEM_OF, load_node. intros -> Hi. simpl. by rewrite Hi. Qed.

Lemma set_child_ok ns a nd d v :
  ns !! a = Some nd ->
  set_child ns a d v = Ok (<[a := MkNode (item nd) (put d v (child nd)) (back nd)]> ns).
Proof. unfold set_child, load_node. by intros ->. Qed.

Lemma rep_mk_lookup ns p d a x t u :
  rep ns p (mk d (a, x) t u) -> exists nd, ns !! a = Some nd /\ item nd = Some x /\
    rep ns (pick d (child nd)) t /\ rep ns (pick (OPP d) (child nd)) u.
Proof. rewrite rep_mk. naive_solver. Qed.

Definition hlocs (h : hole_slot) : list loc :=
  match h with HoleResult _ => [] | HoleChild a _ => [a] end.

(** What a store into a hole does. *)
Record written (h : hole_slot) (v : nodeptr) ns lc ns' lc' : Prop := {
  written_read : read_hole ns' lc' h = Ok v;
  written_hole : hole lc' = hole lc;
  written_only : only_at (hlocs h) ns ns';
  written_other h' : h' <> h -> read_hole ns' lc' h' = read_hole ns lc h';
  written_node a nd : ns !! a = Some nd -> exists nd',
    ns' !! a = Some nd' /\ item nd' = item nd /\
    forall d, h <> HoleChild a d -> pick d (child nd') = pick d (child nd)
}.

Lemma write_hole_ok ns lc h v :
  (forall a, a ∈ hlocs h -> is_Some (ns !! a)) ->
  exists ns' lc', write_hole ns lc h v = Ok (ns', lc') /\ written h v ns lc ns' lc'.
Proof.
  destruct h as [d|a d]; simpl; intros Hv.
  - eexists _, _. split; [done|]. split; simpl; [by rewrite pick_put|done|apply only_at_refl| |].
    + intros [d'|] Hne; [|done]. simpl. rewrite pick_put_ne; [done|congruence].
    + eauto.
  - destruct (Hv a ltac:(set_solver)) as [nd Hn].
    rewrite (set_child_ok _ _ _ _ _ Hn). eexists _, _. split; [done|].
    split; simpl; [|done| | |].
    + unfold get_child, load_node. rewrite lookup_insert_eq. simpl. by rewrite pick_put.
    + eapply only_at_insert; [done|set_solver].
    + intros [d'|b d'] Hne; simpl; [done|]. unfold get_child, load_node.
      destruct (decide (a = b)) as [<-|]; [|by rewrite lookup_insert_ne].
      rewrite lookup_insert_eq, Hn. simpl. rewrite pick_put_ne; congruence.
    + intros b nd' Hb. destruct (decide (a = b)) as [<-|].
      * rewrite lookup_insert_eq. eexists. split; [done|]. simplify_eq. simpl.
        split; [done|]. intros d' Hd. rewrite pick_put_ne; congruence.
      * rewrite lookup_insert_ne by done. eauto.
Qed.

(** ** Contexts in the store *)
Lemma clocs_cons s a x u cs b :
  b ∈ locs (cinorder s ((((a, x) : elem), u) :: cs)) <->
  b = a \/ b ∈ locs (inorder u) \/ b ∈ locs (cinorder s cs).
Proof.
  destruct s; simpl; autorewrite with locs; set_solver.
Qed.

Lemma crep_hole ns lc s cs : forall start h, crep ns lc s start cs h ->
  (cs = [] /\ h = start) \/
  (exists a, h = HoleChild a (OPP s) /\ a ∈ locs (cinorder s cs) /\ is_Some (ns !! a)).
Proof.
  induction cs as [|[[a x] u] cs IH]; simpl; intros start h; [intros ->; by left|].
  intros (_ & nd & Hn & _ & _ & Hc). right.
  destruct (IH _ _ Hc) as [[-> ->]|(b & -> & Hb & ?)].
  - exists a. split; [done|]. split; [|eauto].
    apply clocs_cons. by left.
  - exists b. split; [done|]. split; [|done]. apply clocs_cons. by right; right.
Qed.

Lemma clocs_cons_NoDup s a x u cs :
  NoDup (locs (cinorder s ((((a, x) : elem), u) :: cs))) ->
  NoDup (locs (inorder u)) /\ NoDup (locs (cinorder s cs)) /\
  a ∉ locs (inorder u) /\ a ∉ locs (cinorder s cs) /\
  locs (inorder u) ## locs (cinorder s cs).
Proof.
  destruct s; simpl; autorewrite with locs;
    rewrite ?NoDup_app, ?NoDup_cons, ?NoDup_app, ?NoDup_singleton;
    intros; destruct_and!; split_and!; try done; set_solver.
Qed.

Lemma crep_ext ns ns' lc lc' s cs : forall start h,
  (forall a, a ∈ locs (cinorder s cs) -> ns' !! a = ns !! a) ->
  read_hole ns' lc' start = read_hole ns lc start ->
  crep ns lc s start cs h -> crep ns' lc' s start cs h.
Proof.
  induction cs as [|[[a x] u] cs IH]; simpl; intros start h Ha Hs; [done|].
  setoid_rewrite clocs_cons in Ha.
  intros (Hr & nd & Hn & Hi & Hu & Hc). split; [congruence|].
  exists nd. split; [rewrite Ha; auto|]. split; [done|]. split.
  - eapply rep_ext; [|done]. auto.
  - apply IH; [auto| |done]. simpl. unfold get_child, load_node. by rewrite Ha by auto.
Qed.

Lemma crep_written ns lc ns' lc' s v cs : forall start h,
  written h v ns lc ns' lc' -> NoDup (locs (cinorder s cs)) ->
  hlocs start ## locs (cinorder s cs) ->
  crep ns lc s start cs h -> crep ns' lc' s start cs h.
Proof.
  induction cs as [|[[a x] u] cs IH]; simpl; intros start h Hw Hnd Hd Hc; [done|].
  assert (Hh := crep_hole ns lc s ((a, x, u) :: cs) start h Hc).
  destruct Hh as [[? _]|(b & -> & Hb & _)]; [done|].
  destruct Hc as (Hr & nd & Hn & Hi & Hu & Hc).
  destruct (clocs_cons_NoDup _ _ _ _ _ Hnd) as (_ & Hnd' & Hau & Hac & Huc).
  apply clocs_cons in Hb.
  assert (Hbu : b ∉ locs (inorder u)).
  { destruct (crep_hole _ _ _ _ _ _ Hc) as [[_ [= <-]]|(b' & [= <-] & ? & _)]; set_solver. }
  split.
  { rewrite (written_other _ _ _ _ _ _ Hw); [done|]. intros ->. simpl in Hd.
    apply (Hd b); [set_solver|]. apply clocs_cons. done. }
  destruct (written_node _ _ _ _ _ _ Hw _ _ Hn) as (nd' & Hn' & Hi' & Hp).
  exists nd'. split; [done|]. split; [congruence|]. split.
  - rewrite Hp by (intros [= _ ?]; by destruct s).
    eapply rep_only_at; [apply (written_only _ _ _ _ _ _ Hw)| |done]. simpl; set_solver.
  - apply IH; [done|done| |done]. simpl; set_solver.
Qed.

Lemma crep_snoc ns lc s a nd x u cs : forall start h,
  crep ns lc s start cs h -> read_hole ns lc h = Ok (Some a) ->
  ns !! a = Some nd -> item nd = Some x -> rep ns (pick s (child nd)) u ->
  crep ns lc s start (cs ++ [((a, x), u)]) (HoleChild a (OPP s)).
Proof.
  induction cs as [|[[b y] v] cs IH]; simpl; intros start h Hc Hr Hn Hi Hu.
  - subst h. split; [done|]. eauto 10.
  - destruct Hc as (Hr' & nd' & Hn' & Hi' & Hu' & Hc). split; [done|].
    exists nd'. eauto.
Qed.

Lemma crep_fill ns lc s t q cs : forall start h p,
  crep ns lc s start cs h -> read_hole ns lc h = Ok q -> rep ns q t ->
  read_hole ns lc start = Ok p -> rep ns p (fill s cs t).
Proof.
  induction cs as [|[[a x] u] cs IH]; simpl; intros start h p Hc Hq Ht Hp.
  - subst h. congruence.
  - destruct Hc as (Hr & nd & Hn & Hi & Hu & Hc).
    rewrite Hr in Hp. injection Hp as <-. apply rep_mk. split; [done|].
    exists nd. split_and!; try done. eapply IH; try done.
    simpl. by apply get_child_ok.
Qed.

Lemma zip_disjoint (z : zipper elem) :
  NoDup (locs (zinorder z)) ->
  NoDup (locs (inorder (zt z))) /\
  forall s, NoDup (locs (cinorder s (zctx s z))) /\
            locs (cinorder s (zctx s z)) ## locs (inorder (zt z)) /\
            locs (cinorder s (zctx s z)) ## locs (cinorder (OPP s) (zctx (OPP s) z)).
Proof.
  unfold zinorder. rewrite !locs_app, !NoDup_app.
  intros (? & ? & ? & ? & ?). split; [done|]. intros []; simpl; set_solver.
Qed.

Lemma zip_locs s (z : zipper elem) b :
  b ∈ locs (zinorder z) <->
  b ∈ locs (inorder (zt z)) \/ b ∈ locs (cinorder s (zctx s z)) \/
  b ∈ locs (cinorder (OPP s) (zctx (OPP s) z)).
Proof. unfold zinorder. rewrite !locs_app. destruct s; simpl; set_solver. Qed.
(** ** One iteration of [splay] *)
Lemma zlink_ctx s f z t s' :
  zctx s' (zlink s f z t) = if decide (s = s') then zctx s z ++ [f] else zctx s' z.
Proof. by destruct s, s'. Qed.
Lemma zlink_zt s (f : elem * tree elem) z t : zt (zlink s f z t) = t.
Proof. by destruct s. Qed.

Lemma zrep_hlocs ns lc z a s b :
  zrep ns lc z a -> b ∈ hlocs (pick s (hole lc)) ->
  b ∈ locs (cinorder s (zctx s z)) /\ is_Some (ns !! b).
Proof.
  intros [_ Hc] Hb. destruct (crep_hole _ _ _ _ _ _ (Hc s)) as [[_ Heq]|(c & Heq & ? & ?)];
    rewrite Heq in Hb; simpl in Hb; [set_solver|].
  assert (b = c) as -> by set_solver. done.
Qed.

Lemma read_result_written s s' h v ns lc ns' lc' cs :
  written h v ns lc ns' lc' -> s' <> s ->
  crep ns lc s (HoleResult s) cs h ->
  read_hole ns' lc' (HoleResult s') = read_hole ns lc (HoleResult s').
Proof.
  intros Hw Hne Hc. apply (written_other _ _ _ _ _ _ Hw).
  destruct (crep_hole _ _ _ _ _ _ Hc) as [[_ ->]|(c & -> & _)]; congruence.
Qed.

Lemma crep_locals ns lc lc' s cs : forall start h,
  result lc' = result lc -> crep ns lc s start cs h -> crep ns lc' s start cs h.
Proof.
  intros start h Hr. apply crep_ext; [done|]. destruct start; simpl; [by rewrite Hr|done].
Qed.

(** A store into the hole of side [s] leaves the other context alone and
    keeps its own. *)
Lemma crep_store s v ns lc ns' lc' z :
  (forall s, crep ns lc s (HoleResult s) (zctx s z) (pick s (hole lc))) ->
  NoDup (locs (zinorder z)) ->
  written (pick s (hole lc)) v ns lc ns' lc' ->
  forall s', crep ns' lc' s' (HoleResult s') (zctx s' z) (pick s' (hole lc)).
Proof.
  intros Hc Hnd W s'. destruct (zip_disjoint _ Hnd) as (_ & Hdis).
  destruct (Hdis s) as (Hnds & _ & Hd).
  destruct (decide (s' = s)) as [->|Hne].
  - eapply crep_written; [exact W|done|simpl; set_solver|apply Hc].
  - assert (s' = OPP s) as -> by (by destruct s, s').
    apply (crep_ext ns ns' lc lc'); [| |apply Hc].
    + intros b Hb. apply (written_only _ _ _ _ _ _ W). intros Hb'.
      apply (Hd b); [|done].
      destruct (crep_hole _ _ _ _ _ _ (Hc s)) as [[_ Heq]|(c & Heq & ? & _)];
        rewrite Heq in Hb'; simpl in Hb'; set_solver.
    + eapply (read_result_written s); [exact W|done|apply Hc].
Qed.

Lemma link_ok ns lc d a x t C L R :
  let z := Zip L (mk d (a, x) t C) R in
  zrep ns lc z a -> NoDup (locs (zinorder z)) -> t <> Leaf ->
  exists ns' lc' next,
    link ns lc d a = Ok (ns', lc', next) /\
    zrep ns' lc' (zlink (OPP d) ((a, x), C) (Zip L Leaf R) t) next /\
    only_at (locs (zinorder z)) ns ns'.
Proof.
  intros z Hz Hnd Ht. destruct (zip_disjoint _ Hnd) as (Hndt & Hdis).
  assert (Hin : forall b, b ∈ locs (inorder (mk d (a, x) t C)) <->
                          b = a \/ b ∈ locs (inorder t) \/ b ∈ locs (inorder C)).
  { intros b. destruct d; simpl; rewrite locs_app, locs_cons; set_solver. }
  set (h := pick (OPP d) (hole lc)).
  assert (Hh : forall b, b ∈ hlocs h -> b ∈ locs (cinorder (OPP d) (zctx (OPP d) z)) /\
                                        is_Some (ns !! b))
    by (intros b Hb; by eapply zrep_hlocs).
  destruct Hz as [Hrep Hc].
  destruct (rep_mk_lookup _ _ _ _ _ _ _ Hrep) as (nd & Hn & Hi & Hrt & HrC).
  destruct (write_hole_ok ns lc h (Some a)) as (ns1 & lc1 & Hw & W);
    [intros b Hb; by apply Hh|].
  destruct (Hdis (OPP d)) as (Hndo & Hdo & Hdoo). rewrite OPP_involutive in Hdoo.
  simpl in Hdo.
  assert (Hn1 : ns1 !! a = Some nd).
  { rewrite (proj1 (written_only _ _ _ _ _ _ W)); [done|]. intros Hb.
    apply (Hdo a); [by apply Hh|]. apply Hin. by left. }
  destruct (pick d (child nd)) as [next|] eqn:Hnext;
    [|by destruct t as [|? [] ?]; simpl in Hrt; [|destruct Hrt]].
  exists ns1, (Locals (result lc1) (put (OPP d) (HoleChild a d) (hole lc1))), next.
  unfold link. fold h. rewrite Hw. simpl. rewrite (get_child_ok _ _ _ _ Hn1), Hnext. simpl.
  assert (Hfr : forall u, locs (inorder u) ⊆ locs (inorder (mk d (a, x) t C)) ->
                forall p, rep ns p u -> rep ns1 p u).
  { intros u Hu p. apply rep_only_at with (L := hlocs h); [apply W|].
    intros b Hb1 Hb2. apply (Hdo b); [by apply Hh|]. by apply Hu. }
  split_and!; [done| |].
  - split; [rewrite zlink_zt; apply Hfr; [|done]; intros b Hb; apply Hin; auto|].
    assert (Hc1 := crep_store _ _ _ _ _ _ _ Hc Hnd W).
    intros s. rewrite zlink_ctx. simpl hole. case_decide as Hs; [subst s|].
    + rewrite pick_put. apply crep_locals with lc1; [done|].
      rewrite <- (OPP_involutive d) at 4.
      eapply crep_snoc with (nd := nd); [|apply W|done|done|].
      * replace (zctx (OPP d) (Zip L Leaf R)) with (zctx (OPP d) z) by (by destruct d).
        apply Hc1.
      * apply Hfr; [|done]. intros b Hb. apply Hin; auto.
    + assert (s = d) as -> by (destruct s, d; done).
      rewrite pick_put_OPP, (written_hole _ _ _ _ _ _ W).
      apply crep_locals with lc1; [done|].
      replace (zctx d (Zip L Leaf R)) with (zctx d z) by (by destruct d). apply Hc1.
  - eapply only_at_mono; [|apply (written_only _ _ _ _ _ _ W)].
    intros b Hb. apply (zip_locs (OPP d)). right; left. by apply Hh.
Qed.
Lemma node_as_mk d l (e : elem) r : Node l e r = mk d e (sub d (Node l e r)) (sub (OPP d) (Node l e r)).
Proof. by destruct d. Qed.

Lemma locs_mk d a x t u b :
  b ∈ locs (inorder (mk d ((a, x) : elem) t u)) <->
  b = a \/ b ∈ locs (inorder t) \/ b ∈ locs (inorder u).
Proof. destruct d; simpl; rewrite locs_app, locs_cons; set_solver. Qed.

Lemma locs_mk_NoDup d a x t u :
  NoDup (locs (inorder (mk d ((a, x) : elem) t u))) <->
  a ∉ locs (inorder t) /\ a ∉ locs (inorder u) /\ NoDup (locs (inorder t)) /\
  NoDup (locs (inorder u)) /\ locs (inorder t) ## locs (inorder u).
Proof.
  destruct d; simpl; rewrite locs_app, locs_cons, NoDup_app, NoDup_cons; set_solver.
Qed.

Lemma zrep_replace ns ns' lc L t t' R a a' :
  let z := Zip L t R in
  zrep ns lc z a -> NoDup (locs (zinorder z)) ->
  only_at (locs (inorder t)) ns ns' -> rep ns' (Some a') t' ->
  zrep ns' lc (Zip L t' R) a'.
Proof.
  intros z [_ Hc] Hnd [Ho _] Hr. split; [done|]. intros s.
  destruct (zip_disjoint _ Hnd) as (_ & Hdis). destruct (Hdis s) as (_ & Hd & _).
  replace (zctx s (Zip L t' R)) with (zctx s z) by (by destruct s).
  apply (crep_ext ns ns' lc lc); [|done|apply Hc].
  intros b Hb. apply Ho. intros Hb'. by apply (Hd b).
Qed.

Lemma rotate_ok ns lc d a x m y P B C L R :
  let z := Zip L (mk d (a, x) (mk d (m, y) P B) C) R in
  zrep ns lc z a -> NoDup (locs (zinorder z)) ->
  exists nd md,
    ns !! a = Some nd /\ ns !! m = Some md /\ item md = Some y /\
    pick d (child nd) = Some m /\ rep ns (pick d (child md)) P /\
    let ns1 := <[a := MkNode (item nd) (put d (pick (OPP d) (child md)) (child nd)) (back nd)]> ns in
    let ns2 := <[m := MkNode (item md) (put (OPP d) (Some a) (child md)) (back md)]> ns1 in
    ns1 !! m = Some md /\
    zrep ns2 lc (Zip L (mk d (m, y) P (mk d (a, x) B C)) R) m /\
    only_at (locs (zinorder z)) ns ns2.
Proof.
  intros z Hz Hnd. destruct (zip_disjoint _ Hnd) as (Hndt & _). simpl in Hndt.
  destruct (rep_mk_lookup _ _ _ _ _ _ _ (proj1 Hz)) as (nd & Hn & Hi & Hm & HC).
  destruct (rep_mk_lookup _ _ _ _ _ _ _ Hm) as (md & Hmn & Hmi & HP & HB).
  apply rep_mk in Hm as (Hpm & _).
  apply locs_mk_NoDup in Hndt as (Ham & HaC & Hndm & _ & HmC).
  apply locs_mk_NoDup in Hndm as (HmP & HmB & _).
  assert (Hin := locs_mk d m y P B).
  assert (Hne : a <> m) by (intros ->; apply Ham, Hin; by left).
  assert (HaP : a ∉ locs (inorder P)) by (intros ?; apply Ham, Hin; by right; left).
  assert (HaB : a ∉ locs (inorder B)) by (intros ?; apply Ham, Hin; by right; right).
  assert (HmC' : m ∉ locs (inorder C)) by (intros ?; apply (HmC m); [apply Hin; by left|done]).
  exists nd, md. split_and!; try done. intros ns1 ns2.
  assert (Hm1 : ns1 !! m = Some md) by (unfold ns1; by rewrite lookup_insert_ne).
  assert (Ho : only_at (locs (inorder (mk d (a, x) (mk d (m, y) P B) C))) ns ns2).
  { apply only_at_trans with ns1.
    - eapply only_at_insert; [done|]. apply locs_mk; by left.
    - eapply only_at_insert; [done|]. apply locs_mk. right; left. apply locs_mk. by left. }
  assert (Hf : forall u p, a ∉ locs (inorder u) -> m ∉ locs (inorder u) -> rep ns p u -> rep ns2 p u).
  { intros u p Ha Hm. apply rep_ext. intros b Hb. unfold ns2, ns1.
    rewrite !lookup_insert_ne by set_solver. done. }
  split; [done|]. split.
  - eapply zrep_replace; [done|done|exact Ho|]. apply rep_mk. split; [done|].
    eexists. split; [apply lookup_insert_eq|]. simpl. autorewrite with runtime.
    split; [done|]. split; [by apply Hf|]. apply rep_mk. split; [done|].
    eexists. unfold ns2, ns1. rewrite lookup_insert_ne, lookup_insert_eq by done.
    split; [done|]. simpl. autorewrite with runtime.
    split_and!; [done| |]; by apply Hf.
  - eapply only_at_mono; [|exact Ho]. intros b Hb. apply (zip_locs d). by left.
Qed.

Lemma rotate_inorder d (e f : elem) P B C L R :
  zinorder (Zip L (mk d f P (mk d e B C)) R) = zinorder (Zip L (mk d e (mk d f P B) C) R).
Proof.
  unfold zinorder. do 2 f_equal. simpl. destruct d; simpl;
    repeat rewrite <- app_assoc; simpl; done.
Qed.

(** ** [splay] follows the rules to a terminal tree *)
Section Splay.
Variable cmp : A -> A -> Z.

Definition splay_post (key : A) ns (z : zipper elem)
    (o : Z * loc * gmap Z node * locals) : Prop :=
  let '(n, a, ns', lc') := o in
  exists z' l x r,
    zt z' = Node l (a, x) r /\ n = cmp key x /\
    rtc (splay_rule (fun e : elem => cmp key e.2)) z z' /\
    terminal (fun e : elem => cmp key e.2) (zt z') /\
    zrep ns' lc' z' a /\ only_at (locs (zinorder z)) ns ns'.

Lemma splay_post_refl key ns lc z a l x r :
  zt z = Node l (a, x) r -> terminal (fun e : elem => cmp key e.2) (zt z) ->
  zrep ns lc z a -> splay_post key ns z (cmp key x, a, ns, lc).
Proof.
  intros Ht Hterm Hz. exists z, l, x, r.
  split; [done|]. split; [done|]. split; [apply rtc_refl|]. split; [done|].
  split; [done|apply only_at_refl].
Qed.

Lemma splay_post_step key ns ns1 z z1 o :
  splay_rule (fun e : elem => cmp key e.2) z z1 -> only_at (locs (zinorder z)) ns ns1 ->
  splay_post key ns1 z1 o -> splay_post key ns z o.
Proof.
  intros Hr Ho. destruct o as [[[n a] ns'] lc'].
  intros (z' & l & x & r & ? & ? & Hrs & ? & ? & Ho'). exists z', l, x, r.
  split_and!; try done; [by eapply rtc_l|].
  rewrite (splay_rule_inorder _ _ _ Hr) in Ho'. by eapply only_at_trans.
Qed.

Lemma bool_decide_dir (c : Z) d :
  negb (c =? 0) && bool_decide (DIR c = d) = true <-> c <> 0 /\ DIR c = d.
Proof. rewrite andb_true_iff, negb_true_iff, Z.eqb_neq, bool_decide_eq_true. done. Qed.

(** From [a] on, the loop ends with what [splay] promises for [z]. *)
Definition splays (fuel : nat) (key : A) ns lc (a : loc) (n : Z) ns0 (z : zipper elem) : Prop :=
  exists o, splay_loop cmp fuel key ns lc a n = Ok o /\ splay_post key ns0 z o.

Definition splays_all (fuel : nat) : Prop := forall key ns lc z a l x r n,
  zt z = Node l (a, x) r -> zrep ns lc z a -> NoDup (locs (zinorder z)) ->
  n = cmp key x -> (tsize (zt z) <= fuel)%nat -> splays fuel key ns lc a n ns z.

(** The end of an iteration: [a] is linked and the loop goes on in [t]; the
    iteration began in [z0]. *)
Lemma splay_link_step fuel key ns lc d a x t C L R l q w r ns0 z0 :
  splays_all fuel -> t = Node l (q, w) r ->
  let z := Zip L (mk d (a, x) t C) R in
  zrep ns lc z a -> NoDup (locs (zinorder z)) -> (tsize t <= fuel)%nat ->
  only_at (locs (zinorder z0)) ns0 ns -> zinorder z0 = zinorder z ->
  splay_rule (fun e : elem => cmp key e.2) z0 (zlink (OPP d) ((a, x), C) (Zip L Leaf R) t) ->
  exists ns' lc', link ns lc d a = Ok (ns', lc', q) /\ splays fuel key ns' lc' q (cmp key w) ns0 z0.
Proof.
  intros IH Ht z Hz Hnd Hf Ho Hin Hrule.
  destruct (link_ok _ _ _ _ _ _ _ _ _ Hz Hnd) as (ns' & lc' & next & Hl & Hz' & Ho'); [by rewrite Ht|].
  assert (Hq := proj1 Hz'). rewrite zlink_zt, Ht in Hq. destruct Hq as ([= ->] & _).
  exists ns', lc'. split; [done|].
  destruct (IH key ns' lc' _ q l w r (cmp key w) ltac:(by rewrite zlink_zt) Hz') as (o & Hrun & Hpost);
    [by rewrite (splay_rule_inorder _ _ _ Hrule), Hin|done|by rewrite zlink_zt|].
  exists o. split; [done|]. eapply splay_post_step; [exact Hrule| |exact Hpost].
  eapply only_at_trans; [exact Ho|]. by rewrite Hin.
Qed.

(** The iteration with a rotation of [m] over [a]. *)
Lemma splay_rotate_step fuel key ns lc d a x m y P B C L R :
  splays_all fuel ->
  let z := Zip L (mk d (a, x) (mk d (m, y) P B) C) R in
  zrep ns lc z a -> NoDup (locs (zinorder z)) -> (tsize P <= fuel)%nat ->
  cmp key x <> 0 -> DIR (cmp key x) = d -> cmp key y <> 0 -> DIR (cmp key y) = d ->
  splays (S fuel) key ns lc a (cmp key x) ns z.
Proof.
  intros IH z Hz Hnd Hf Hx0 Hxd Hy0 Hyd. set (cf := fun e : elem => cmp key e.2).
  destruct (rotate_ok _ _ _ _ _ _ _ _ _ _ _ _ Hz Hnd)
    as (nd & md & Hn & Hm & Hmi & Hpm & HP & Hm1 & Hz2 & Ho2).
  unfold splays. simpl. rewrite (proj2 (Z.eqb_neq _ _) Hx0), Hxd.
  rewrite (get_child_ok _ _ _ _ Hn), Hpm. simpl. rewrite (ITEM_OF_ok _ _ _ _ Hm Hmi). simpl.
  rewrite (proj2 (bool_decide_dir _ _) (conj Hy0 Hyd)).
  rewrite (get_child_ok _ _ _ _ Hm). simpl. rewrite (set_child_ok _ _ _ _ _ Hn). simpl.
  rewrite (set_child_ok _ _ _ _ _ Hm1). simpl. set (ns2 := <[m := _]> _) in *.
  erewrite get_child_ok by apply lookup_insert_eq. simpl. rewrite pick_put_OPP.
  destruct P as [|l2 [q w] r2].
  - simpl in HP. rewrite HP. eexists. split; [done|].
    set (z' := Zip L (mk d (m, y) Leaf (mk d (a, x) B C)) R) in *.
    eapply splay_post_step; [by apply (rule_N cf)|exact Ho2|].
    eapply (splay_post_refl _ _ _ _ _ (sub LEFT (zt z')) _ (sub RIGHT (zt z')));
      [by destruct d| |exact Hz2].
    simpl. destruct d; simpl; right; by rewrite Hyd.
  - assert (Hq2 : exists qd, ns2 !! q = Some qd /\ item qd = Some w).
    { destruct (rep_mk_lookup _ _ _ _ _ _ _ (proj1 Hz2)) as (md2 & _ & _ & (_ & qd & ? & ? & _) & _). eauto. }
    destruct Hq2 as (qd & Hqn & Hqi). rewrite (proj1 HP). simpl. rewrite (ITEM_OF_ok _ _ _ _ Hqn Hqi). simpl.
    destruct (splay_link_step fuel key ns2 lc d m y (Node l2 (q, w) r2) (mk d (a, x) B C) L R l2 q w r2 ns z)
      as (ns3 & lc3 & -> & Hgo); try done; [by rewrite rotate_inorder|by rewrite rotate_inorder|by apply (rule_1 cf)].
Qed.

(** The iteration without a rotation. *)
Lemma splay_plain_step fuel key ns lc d a x m y P B C L R :
  splays_all fuel ->
  let z := Zip L (mk d (a, x) (mk d (m, y) P B) C) R in
  zrep ns lc z a -> NoDup (locs (zinorder z)) -> (tsize (mk d (m, y) P B) <= fuel)%nat ->
  cmp key x <> 0 -> DIR (cmp key x) = d -> ~ (cmp key y <> 0 /\ DIR (cmp key y) = d) ->
  splays (S fuel) key ns lc a (cmp key x) ns z.
Proof.
  intros IH z Hz Hnd Hf Hx0 Hxd Hy.
  destruct (rep_mk_lookup _ _ _ _ _ _ _ (proj1 Hz)) as (nd & Hn & _ & Hm & _).
  destruct (rep_mk_lookup _ _ _ _ _ _ _ Hm) as (md & Hmn & Hmi & _). apply rep_mk in Hm as (Hpm & _).
  unfold splays. simpl. rewrite (proj2 (Z.eqb_neq _ _) Hx0), Hxd.
  rewrite (get_child_ok _ _ _ _ Hn), Hpm. simpl. rewrite (ITEM_OF_ok _ _ _ _ Hmn Hmi). simpl.
  assert (negb (cmp key y =? 0) && bool_decide (DIR (cmp key y) = d) = false) as ->
    by (apply not_true_iff_false; by rewrite bool_decide_dir).
  destruct (splay_link_step fuel key ns lc d a x (mk d (m, y) P B) C L R (sub LEFT (mk d (m, y) P B)) m y
              (sub RIGHT (mk d (m, y) P B)) ns z) as (ns3 & lc3 & -> & Hgo); try done; [by destruct d|].
  apply (rule_2 (fun e : elem => cmp key e.2)); [done|done|].
  destruct (decide (cmp key y = 0)); [by left|right]. tauto.
Qed.

Lemma splay_loop_ok fuel : splays_all fuel.
Proof.
  induction fuel as [|fuel IH]; intros key ns lc [L T R] a l x r n Ht Hz Hnd -> Hf; simpl in Ht; subst T.
  { simpl in Hf. rewrite tsize_node in Hf. lia. }
  destruct (decide (cmp key x = 0)) as [E0|Hne].
  { unfold splays. simpl. rewrite (proj2 (Z.eqb_eq _ _) E0). eexists. split; [done|].
    eapply splay_post_refl; [done|by left|done]. }
  set (d := DIR (cmp key x)). assert (Hmk := node_as_mk d l (a, x) r).
  set (C := sub (OPP d) (Node l (a, x) r)) in *.
  destruct (sub d (Node l (a, x) r)) as [|l1 [m y] r1] eqn:Hsub.
  - assert (Hrep := proj1 Hz). simpl zt in Hrep. rewrite Hmk in Hrep.
    apply rep_mk_lookup in Hrep as (nd & Hn & _ & Hp & _). simpl in Hp.
    unfold splays. simpl. rewrite (proj2 (Z.eqb_neq _ _) Hne).
    fold d. rewrite (get_child_ok _ _ _ _ Hn), Hp. simpl.
    eexists. split; [done|]. eapply splay_post_refl; [done|by right|done].
  - rewrite (node_as_mk d l1 (m, y) r1) in Hmk. rewrite Hmk in Hz, Hnd, Hf |- *.
    cbn [zt] in Hf. rewrite !tsize_mk in Hf.
    destruct (decide (cmp key y <> 0 /\ DIR (cmp key y) = d)) as [[Hy0 Hyd]|Hy].
    + apply splay_rotate_step; try done. lia.
    + apply splay_plain_step; try done. rewrite tsize_mk. lia.
Qed.
End Splay.

(** ** [assemble] fills the holes *)
Lemma hole_apart ns lc z a s b :
  zrep ns lc z a -> NoDup (locs (zinorder z)) -> b ∈ hlocs (pick s (hole lc)) ->
  b ∉ locs (inorder (zt z)) /\ b ∈ locs (zinorder z) /\ is_Some (ns !! b).
Proof.
  intros Hz Hnd Hb. destruct (zip_disjoint _ Hnd) as (_ & Hdis).
  destruct (zrep_hlocs _ _ _ _ _ _ Hz Hb) as [Hb1 Hb2]. destruct (Hdis s) as (_ & Hd & _).
  split; [by intros Hb3; apply (Hd b)|]. split; [apply (zip_locs s); by right; left|done].
Qed.

Lemma holes_differ ns lc z a : zrep ns lc z a -> at_right (hole lc) <> at_left (hole lc).
Proof.
  intros [_ Hc]. destruct (crep_hole _ _ _ _ _ _ (Hc RIGHT)) as [[_ H]|(c & H & _)];
    destruct (crep_hole _ _ _ _ _ _ (Hc LEFT)) as [[_ H']|(c' & H' & _)]; simpl in H, H'; congruence.
Qed.

(** Both holes are filled, the right one first. *)
Lemma fill_holes ns lc z a vl vr :
  zrep ns lc z a -> NoDup (locs (zinorder z)) ->
  exists ns1 lc1 ns2 lc2,
    write_hole ns lc (at_right (hole lc)) vr = Ok (ns1, lc1) /\ hole lc1 = hole lc /\
    write_hole ns1 lc1 (at_left (hole lc)) vl = Ok (ns2, lc2) /\
    (forall b, b ∈ locs (inorder (zt z)) -> ns1 !! b = ns !! b /\ ns2 !! b = ns !! b) /\
    (forall s, crep ns2 lc2 s (HoleResult s) (zctx s z) (pick s (hole lc))) /\
    read_hole ns2 lc2 (at_left (hole lc)) = Ok vl /\ read_hole ns2 lc2 (at_right (hole lc)) = Ok vr /\
    only_at (locs (zinorder z)) ns ns2.
Proof.
  intros Hz Hnd. assert (Hh := fun s b => hole_apart ns lc z a s b Hz Hnd). pose proof Hz as [_ Hc].
  destruct (write_hole_ok ns lc (at_right (hole lc)) vr) as (ns1 & lc1 & Hw1 & W1);
    [intros b Hb; by apply (Hh RIGHT)|].
  assert (Hc1 := crep_store RIGHT _ _ _ _ _ _ Hc Hnd W1).
  destruct (write_hole_ok ns1 lc1 (at_left (hole lc)) vl) as (ns2 & lc2 & Hw2 & W2).
  { intros b Hb. apply (written_only _ _ _ _ _ _ W1). by apply (Hh LEFT). }
  assert (Hh1 := written_hole _ _ _ _ _ _ W1).
  assert (Hc2 : forall s, crep ns2 lc2 s (HoleResult s) (zctx s z) (pick s (hole lc))).
  { rewrite <- Hh1 in Hc1, W2 |- *. exact (crep_store LEFT _ _ _ _ _ _ Hc1 Hnd W2). }
  exists ns1, lc1, ns2, lc2. split_and!; try done.
  - intros b Hb. assert (E1 : ns1 !! b = ns !! b).
    { apply (written_only _ _ _ _ _ _ W1). intros Hb'. by destruct (Hh RIGHT b Hb'). }
    split; [done|]. rewrite <- E1. apply (written_only _ _ _ _ _ _ W2). intros Hb'. by destruct (Hh LEFT b Hb').
  - apply (written_read _ _ _ _ _ _ W2).
  - rewrite (written_other _ _ _ _ _ _ W2) by (by eapply holes_differ). apply (written_read _ _ _ _ _ _ W1).
  - apply only_at_trans with ns1; (eapply only_at_mono; [|by eapply written_only]);
      intros b Hb; [by apply (Hh RIGHT)|by apply (Hh LEFT)].
Qed.

Lemma fill_outside z s t b :
  NoDup (locs (zinorder z)) -> b ∈ locs (inorder (zt z)) -> b ∉ locs (inorder t) ->
  b ∉ locs (inorder (fill s (zctx s z) t)).
Proof.
  intros Hnd Hb Ht. destruct (zip_disjoint _ Hnd) as (_ & Hdis). destruct (Hdis s) as (_ & Hd & _).
  assert (b ∉ locs (cinorder s (zctx s z))) by (intros Hb'; by apply (Hd b)).
  rewrite inorder_fill. destruct s; rewrite locs_app; set_solver.
Qed.

Lemma assemble_ok ns lc z a l x r :
  zt z = Node l (a, x) r -> zrep ns lc z a -> NoDup (locs (zinorder z)) ->
  exists ns', assemble ns lc a = Ok ns' /\
    rep ns' (Some a) (Node (fill LEFT (zl z) l) (a, x) (fill RIGHT (zr z) r)) /\
    only_at (locs (zinorder z)) ns ns'.
Proof.
  intros Ht Hz Hnd. pose proof (proj1 Hz) as Hrep. rewrite Ht in Hrep.
  destruct Hrep as (_ & nd & Hn & Hi & Hl & Hr).
  pose proof (proj1 (zip_disjoint _ Hnd)) as Hndt. rewrite Ht in Hndt.
  apply (locs_mk_NoDup LEFT) in Hndt as (Hal & Har & _).
  destruct (fill_holes ns lc z a (at_left (child nd)) (at_right (child nd)) Hz Hnd)
    as (ns1 & lc1 & ns2 & lc2 & Hw1 & Hh1 & Hw2 & Hsame & Hc2 & Hrl & Hrr & Ho).
  assert (Hin : forall b, b = a \/ b ∈ locs (inorder l) \/ b ∈ locs (inorder r) -> b ∈ locs (inorder (zt z)))
    by (intros b; rewrite Ht; apply (locs_mk LEFT)).
  destruct (Hsame a) as [Hn1 Hn2]; [auto|]. rewrite Hn in Hn1, Hn2.
  unfold assemble. rewrite (get_child_ok _ _ _ _ Hn). simpl. rewrite Hw1. simpl.
  rewrite (get_child_ok _ _ _ _ Hn1), Hh1. simpl. rewrite Hw2. simpl.
  rewrite (set_child_ok _ _ _ _ _ Hn2). simpl. erewrite set_child_ok by apply lookup_insert_eq. simpl.
  eexists. split; [done|]. rewrite insert_insert_eq. split.
  - split; [done|]. eexists. split; [apply lookup_insert_eq|]. simpl. split; [done|].
    assert (Hins : forall nd' p s u, a ∉ locs (inorder u) -> rep ns2 p (fill s (zctx s z) u) ->
              rep (<[a:=nd']> ns2) p (fill s (zctx s z) u)).
    { intros nd' p s u Hu. apply rep_ext. intros b Hb. apply lookup_insert_ne. intros <-. revert Hb.
      apply fill_outside; auto. }
    split; [apply (Hins _ _ LEFT); [done|]|apply (Hins _ _ RIGHT); [done|]].
    + eapply (crep_fill _ _ LEFT); [apply (Hc2 LEFT)|exact Hrl| |done].
      eapply rep_ext; [|exact Hl]. intros b Hb. apply Hsame. auto.
    + eapply (crep_fill _ _ RIGHT); [apply (Hc2 RIGHT)|exact Hrr| |done].
      eapply rep_ext; [|exact Hr]. intros b Hb. apply Hsame. auto.
  - apply only_at_trans with ns2; [done|]. eapply only_at_insert; [done|]. apply (zip_locs LEFT). auto.
Qed.
(** ** Writing an item commutes with the pointer updates *)
Definition put_item (b : loc) (x : A) : gmap Z node -> gmap Z node :=
  alter (fun nd => MkNode (Some x) (child nd) (back nd)) b.

Lemma set_item_ok ns b x : is_Some (ns !! b) -> set_item ns b x = Ok (put_item b x ns).
Proof.
  intros [nd Hn]. unfold set_item, load_node. rewrite Hn. simpl. f_equal.
  apply map_eq. intros a. unfold put_item. destruct (decide (b = a)) as [<-|].
  - by rewrite lookup_insert_eq, lookup_alter_eq, Hn.
  - by rewrite lookup_insert_ne, lookup_alter_ne.
Qed.

Lemma put_item_lookup b x ns a :
  put_item b x ns !! a =
  (if decide (b = a) then (fun nd => MkNode (Some x) (child nd) (back nd)) <$> ns !! a
   else ns !! a).
Proof. unfold put_item. rewrite lookup_alter. case_decide; by subst. Qed.

Lemma get_child_put_item b x ns a d : get_child (put_item b x ns) a d = get_child ns a d.
Proof.
  unfold get_child, load_node. rewrite put_item_lookup.
  case_decide; [|done]. by destruct (ns !! a).
Qed.

Lemma set_child_put_item b x ns a d v :
  set_child (put_item b x ns) a d v =
  (ns' ← set_child ns a d v; Ok (put_item b x ns')).
Proof.
  unfold set_child, load_node. rewrite put_item_lookup.
  destruct (ns !! a) as [nd|] eqn:Hn; [|by case_decide].
  case_decide as Hb; simpl; f_equal; apply map_eq; intros c;
    rewrite put_item_lookup, !lookup_insert, ?put_item_lookup;
    repeat case_decide; subst; simpl; congruence.
Qed.

Lemma write_hole_put_item b x ns lc h v :
  write_hole (put_item b x ns) lc h v =
  ('(ns', lc') ← write_hole ns lc h v; Ok (put_item b x ns', lc')).
Proof.
  destruct h as [d|a d]; simpl; [done|]. rewrite set_child_put_item.
  by destruct (set_child ns a d v).
Qed.

Lemma assemble_put_item b x ns lc a :
  assemble (put_item b x ns) lc a = (ns' ← assemble ns lc a; Ok (put_item b x ns')).
Proof.
  unfold assemble. rewrite get_child_put_item.
  destruct (get_child ns a RIGHT); simpl; try done. rewrite write_hole_put_item.
  destruct (write_hole ns lc _ _) as [[ns1 lc1]| | |]; simpl; try done.
  rewrite get_child_put_item. destruct (get_child ns1 a LEFT); simpl; try done.
  rewrite write_hole_put_item.
  destruct (write_hole ns1 lc1 _ _) as [[ns2 lc2]| | |]; simpl; try done.
  rewrite set_child_put_item. destruct (set_child ns2 _ _ _); simpl; try done.
  by rewrite set_child_put_item.
Qed.

Lemma only_at_put_item L b x ns :
  b ∈ L -> only_at L ns (put_item b x ns).
Proof.
  intros Hb. split; intros a; rewrite put_item_lookup; case_decide; subst; try done.
  rewrite fmap_is_Some. done.
Qed.
End SplayHeap.
