(* ===== verification/SplayOps.v ===== *)
(** * Splay trees: the operations

    The [sml_tree_*] functions of src/src/runtime/splay.c with their node
    allocator (chunks and the free list). *)
From Stdlib Require Import ZArith Lia.
From stdpp Require Import base option list gmap relations sorting.
From S2P Require Import Prelude Bits SplayTree SplayHeap.

Local Open Scope Z_scope.

(** What the comparison functions given to [sml_tree_new] promise. *)
Class ItemOrder {A : Type} (cmp : A -> A -> Z) : Prop := {
  cmp_antisym x y : Z.sgn (cmp x y) = - Z.sgn (cmp y x);
  cmp_lt_trans x y z : cmp x y < 0 -> cmp y z < 0 -> cmp x z < 0;
  cmp_eq_compat x y z : cmp x y = 0 -> Z.sgn (cmp x z) = Z.sgn (cmp y z)
}.

(** ** Sizes (LP64: [sizeof(void * )] is 8) *)
Definition NODE_ALIGN : Z := 8.
Definition sizeof_struct_node : Z := 24.
Definition NODE_OFFSET (item_size : Z) : Z := CEILING item_size NODE_ALIGN.
Definition NODE_SIZE (item_size : Z) : Z := NODE_OFFSET item_size + sizeof_struct_node.
Definition SIZEOF_NODE (item_size : Z) : Z := CEILING (NODE_SIZE item_size) item_size.

Definition sizeof_chunk_footer : Z := 16.
Definition CHUNK_OFFSET : Z := 4096 / sizeof_chunk_footer - 1.
Definition CHUNK_SIZE : Z := CHUNK_OFFSET * sizeof_chunk_footer.
Definition sizeof_chunk : Z := CHUNK_SIZE + sizeof_chunk_footer.

(** [struct chunk]: the address of [begin] and the footer's [free]; the list
    [tree->chunk] follows the [next] fields. *)
Record chunk := Chunk { chunk_begin : Z; chunk_free : Z }.
Definition CHUNK_END (c : chunk) : Z := chunk_begin c + CHUNK_SIZE.
Definition CHUNK_REST (c : chunk) : Z := CHUNK_END c - chunk_free c.

Section Ops.
Context {A : Type} (cmp : A -> A -> Z).

(** [struct sml_tree] together with the nodes it owns and the number of
    calls of [xmalloc] so far. *)
Record sml_tree := SmlTree {
  item_size : Z; alloc_size : Z;
  root : nodeptr;
  chunks : list chunk;
  freelist : nodeptr;
  nodes : gmap Z (@node A);
  mallocs : nat
}.

Definition set_root (r : nodeptr) (t : sml_tree) : sml_tree :=
  SmlTree (item_size t) (alloc_size t) r (chunks t) (freelist t) (nodes t) (mallocs t).
Definition set_nodes (ns : gmap Z node) (t : sml_tree) : sml_tree :=
  SmlTree (item_size t) (alloc_size t) (root t) (chunks t) (freelist t) ns (mallocs t).
Definition set_freelist (f : nodeptr) (t : sml_tree) : sml_tree :=
  SmlTree (item_size t) (alloc_size t) (root t) (chunks t) f (nodes t) (mallocs t).
Definition set_chunks (cs : list chunk) (k : nat) (t : sml_tree) : sml_tree :=
  SmlTree (item_size t) (alloc_size t) (root t) cs (freelist t) (nodes t) k.

Definition sml_tree_new (size : Z) : res sml_tree :=
  assert_that (SIZEOF_NODE size <=? CHUNK_SIZE);;
  Ok (SmlTree size (SIZEOF_NODE size) None [] None ∅ 0).

(** [xmalloc k] is the address that the [k]-th call returns. *)
Variable xmalloc : nat -> Z.

Definition chunk_alloc (cs : list chunk) (k : nat) (len : Z) : res (Z * list chunk * nat) :=
  assert_that (len <? CHUNK_SIZE);;
  let need_new := match cs with [] => true | c :: _ => CHUNK_REST c <? len end in
  let '(cs, k) := if need_new then (Chunk (xmalloc k) (xmalloc k) :: cs, S k) else (cs, k) in
  match cs with
  | c :: cs' => Ok (chunk_free c, Chunk (chunk_begin c) (chunk_free c + len) :: cs', k)
  | [] => Fault
  end.

(** A node just carved out of a chunk: nothing has been written to it. *)
Definition fresh_node : @node A := MkNode None (Two None None) BackNull.

Definition node_of_back (b : backptr) : res nodeptr :=
  match b with
  | BackNull => Ok None
  | BackNode a => Ok (Some a)
  | BackSlot _ => Fault
  end.

Definition node_alloc (t : sml_tree) : res (loc * sml_tree) :=
  match freelist t with
  | Some a =>
      nd ← load_node (nodes t) a;
      f ← node_of_back (back nd);
      Ok (a, set_freelist f t)
  | None =>
      '(p, cs, k) ← chunk_alloc (chunks t) (mallocs t) (alloc_size t);
      let a := p + NODE_OFFSET (item_size t) in
      Ok (a, set_nodes (<[a := fresh_node]> (nodes t)) (set_chunks cs k t))
  end.

Definition back_of_node (p : nodeptr) : backptr :=
  match p with None => BackNull | Some a => BackNode a end.

Definition node_reclaim (t : sml_tree) (a : loc) : res sml_tree :=
  ns ← set_back (nodes t) a (back_of_node (freelist t));
  Ok (set_freelist (Some a) (set_nodes ns t)).

(** Every loop of [splay] is bounded by the number of nodes. *)
Definition tree_fuel (ns : gmap Z (@node A)) : nat := size ns.

Definition sml_tree_find (t : sml_tree) (key : A) : res (nodeptr * sml_tree) :=
  match root t with
  | None => Ok (None, t)
  | Some r =>
      '(n, r, ns, lc) ← splay cmp (tree_fuel (nodes t)) key (nodes t) INIT_HOLE r;
      ns ← assemble ns lc r;
      Ok (if n =? 0 then Some r else None, set_root (Some r) (set_nodes ns t))
  end.

(** The common beginning of [sml_tree_insert] and [insert_node]:
    [n = tree->root ? splay(...) : 1]. *)
Definition splay_root (t : sml_tree) (key : A) : res (Z * sml_tree * locals) :=
  match root t with
  | None => Ok (1, t, INIT_HOLE)
  | Some r =>
      '(n, r, ns, lc) ← splay cmp (tree_fuel (nodes t)) key (nodes t) INIT_HOLE r;
      Ok (n, set_root (Some r) (set_nodes ns t), lc)
  end.

(** Make [a] the root with [$] on the side of [dir]. *)
Definition push_root (t : sml_tree) (a : loc) (dir : direction) : res sml_tree :=
  ns ← set_child (nodes t) a dir None;
  ns ← set_child ns a (OPP dir) (root t);
  Ok (set_root (Some a) (set_nodes ns t)).

Definition sml_tree_insert (t : sml_tree) (key : A) : res (loc * sml_tree) :=
  '(n, t, lc) ← splay_root t key;
  t ← (if negb (n =? 0) then
         '(a, t) ← node_alloc t;
         push_root t a (DIR n)
       else Ok t);
  r ← deref (root t);
  ns ← assemble (nodes t) lc r;
  ns ← set_item ns r key;
  Ok (r, set_nodes ns t).

Definition insert_node (t : sml_tree) (a : loc) : res (Z * sml_tree) :=
  key ← ITEM_OF (nodes t) a;
  '(n, t, lc) ← splay_root t key;
  t ← (if negb (n =? 0) then push_root t a (DIR n) else Ok t);
  r ← deref (root t);
  ns ← assemble (nodes t) lc r;
  Ok (n, set_nodes ns t).

Definition join (ns : gmap Z (@node A)) (a : loc) : res (nodeptr * gmap Z node) :=
  lchild ← get_child ns a LEFT;
  match lchild with
  | None => rchild ← get_child ns a RIGHT; Ok (rchild, ns)
  | Some m =>
      key ← ITEM_OF ns a;
      '(n, m, ns, lc) ← splay cmp (tree_fuel ns) key ns INIT_HOLE m;
      r ← get_child ns m RIGHT;
      assert_that (bool_decide (r = None));;
      rchild ← get_child ns a RIGHT;
      ns ← set_child ns m RIGHT rchild;
      ns ← assemble ns lc m;
      Ok (Some m, ns)
  end.

Definition sml_tree_delete (t : sml_tree) (key : A) : res (nodeptr * sml_tree) :=
  match root t with
  | None => Ok (None, t)
  | Some r =>
      '(n, r, ns, lc) ← splay cmp (tree_fuel (nodes t)) key (nodes t) INIT_HOLE r;
      if negb (n =? 0) then
        ns ← assemble ns lc r;
        Ok (None, set_root (Some r) (set_nodes ns t))
      else
        '(newroot, ns) ← join ns r;
        '(newroot, ns) ←
          match newroot with
          | Some nr => ns ← assemble ns lc nr; Ok (newroot, ns)
          | None => ns ← assemble ns lc r; join ns r
          end;
        t ← node_reclaim (set_nodes ns t) r;
        Ok (Some r, set_root newroot t)
  end.

(** ** Representation of a whole tree *)
Abbreviation elem := (Z * A)%type.
Implicit Types (t u : tree elem) (ns : gmap Z (@node A)) (T : sml_tree) (fl : list loc).

Definition items (l : list elem) : list A := l.*2.
Definition sorted_items (l : list A) : Prop := StronglySorted (fun x y => cmp x y < 0) l.

(** The free list, linked by [back]. *)
Fixpoint frep ns (p : nodeptr) fl : Prop :=
  match fl with
  | [] => p = None
  | a :: fl' =>
      p = Some a /\ exists nd q, ns !! a = Some nd /\ node_of_back (back nd) = Ok q /\ frep ns q fl'
  end.

(** Every node lies in the used part of a chunk. *)
Record alloc_inv T (ids : list nat) : Prop := {
  alloc_sizes : 0 < alloc_size T < CHUNK_SIZE;
  alloc_ids : NoDup ids /\ Forall (fun i => (i < mallocs T)%nat) ids;
  alloc_chunks : Forall2 (fun c i => chunk_begin c = xmalloc i /\
                   chunk_begin c <= chunk_free c <= CHUNK_END c) (chunks T) ids;
  alloc_nodes a : is_Some (nodes T !! a) -> exists c, c ∈ chunks T /\
                   chunk_begin c + NODE_OFFSET (item_size T) <= a /\
                   a - NODE_OFFSET (item_size T) + alloc_size T <= chunk_free c
}.

Record tree_rep T t fl : Prop := {
  trep_root : rep (nodes T) (root T) t;
  trep_free : frep (nodes T) (freelist T) fl;
  trep_nodup : NoDup (locs (inorder t) ++ fl);
  trep_alloc : exists ids, alloc_inv T ids
}.

Lemma frep_ext ns ns' p fl :
  (forall a, a ∈ fl -> ns' !! a = ns !! a) -> frep ns p fl -> frep ns' p fl.
Proof.
  revert p. induction fl as [|a fl IH]; simpl; intros p Ha; [done|].
  intros (-> & nd & q & Hn & Hq & Hf). split; [done|]. exists nd, q.
  split; [by rewrite Ha by set_solver|]. split; [done|]. apply IH; [|done].
  intros b Hb. apply Ha. set_solver.
Qed.

Lemma alloc_inv_same T T' ids :
  item_size T' = item_size T -> alloc_size T' = alloc_size T -> chunks T' = chunks T ->
  mallocs T' = mallocs T -> (forall a, is_Some (nodes T' !! a) <-> is_Some (nodes T !! a)) ->
  alloc_inv T ids -> alloc_inv T' ids.
Proof.
  intros Hi Ha Hc Hm Hd [H1 H2 H3 H4]. split; rewrite ?Hi, ?Ha, ?Hc, ?Hm; try done.
  intros a Hn. apply H4. by apply Hd.
Qed.

Lemma tree_fuel_enough ns p t :
  rep ns p t -> NoDup (locs (inorder t)) -> (tsize t <= tree_fuel ns)%nat.
Proof.
  intros Hr Hnd. unfold tsize, tree_fuel.
  replace (length (inorder t)) with (length (locs (inorder t))) by apply length_fmap.
  rewrite <- (size_dom (D := gset Z)), <- (size_list_to_set (C := gset Z)) by done.
  apply subseteq_size. intros a. rewrite elem_of_list_to_set, elem_of_dom.
  intros Ha; by eapply rep_lookup.
Qed.

Lemma sorted_key `{!ItemOrder cmp} key l :
  sorted_items (items l) -> key_sorted (fun e : elem => cmp key e.2) l.
Proof.
  unfold sorted_items, items, key_sorted.
  induction l as [|[a x] l IH]; simpl; intros H; [constructor|].
  inversion H as [|? ? Hs HF]; subst. constructor; [by apply IH|].
  rewrite Forall_fmap in HF. eapply Forall_impl; [exact HF|].
  intros [b y] Hxy. simpl in *.
  destruct (Z.lt_trichotomy (cmp key x) 0) as [Hk|[Hk|Hk]]; [right|right|by left].
  - by eapply cmp_lt_trans.
  - pose proof (cmp_eq_compat _ _ y Hk). lia.
Qed.

(** ** [splay] on a whole tree *)

(** The list [l] is split at the key into a zipper with the tree [t1] at
    [root]; [n] is the comparison result. *)
Definition split_here (key : A) (l : list elem) (n : Z) L t1 R (p : nodeptr) : Prop :=
  let c := fun e : elem => cmp key e.2 in
  zinorder (Zip L t1 R) = l /\
  ((n = 0 /\ exists t2 a x t3, t1 = Node t2 (a, x) t3 /\ p = Some a /\
      smaller c l = cinorder LEFT L ++ inorder t2 /\ matching c l = [(a, x)] /\
      larger c l = inorder t3 ++ cinorder RIGHT R) \/
   (n < 0 /\ smaller c l = cinorder LEFT L /\ matching c l = [] /\
      larger c l = inorder t1 ++ cinorder RIGHT R) \/
   (0 < n /\ smaller c l = cinorder LEFT L ++ inorder t1 /\ matching c l = [] /\
      larger c l = cinorder RIGHT R)).

Lemma splay_ok `{!ItemOrder cmp} key ns a t :
  rep ns (Some a) t -> NoDup (locs (inorder t)) -> sorted_items (items (inorder t)) ->
  exists n b ns' lc L t2 x t3 R,
    splay cmp (tree_fuel ns) key ns INIT_HOLE a = Ok (n, b, ns', lc) /\
    zrep ns' lc (Zip L (Node t2 (b, x) t3) R) b /\
    only_at (locs (inorder t)) ns ns' /\
    split_here key (inorder t) n L (Node t2 (b, x) t3) R (Some b) /\
    (0 < n -> t3 = Leaf).
Proof.
  intros Hr Hnd Hs. destruct (rep_node_inv _ _ _ Hr) as (l & x & r & ->).
  assert (Hz : zrep ns INIT_HOLE (Zip [] (Node l (a, x) r) []) a)
    by (split; [exact Hr|by intros []]).
  assert (Hzi : zinorder (Zip [] (Node l (a, x) r) []) = inorder (Node l (a, x) r))
    by (unfold zinorder; simpl; by rewrite app_nil_r).
  assert (Hi : ITEM_OF ns a = Ok x).
  { simpl in Hr. destruct Hr as (_ & nd & Hn & Hi & _). by eapply ITEM_OF_ok. }
  unfold splay. rewrite Hi. simpl.
  destruct (splay_loop_ok cmp (tree_fuel ns) key ns INIT_HOLE (Zip [] (Node l (a, x) r) []) a l x r
              (cmp key x) eq_refl Hz)
    as ([[[n b] ns'] lc] & Hrun & z' & l' & y & r' & Ht' & -> & Hrs & Hterm & Hz' & Ho);
    [by rewrite Hzi|done|by eapply tree_fuel_enough|].
  assert (Hin := splay_rules_inorder _ _ _ Hrs). rewrite Hzi in *.
  assert (Hks := sorted_key key _ Hs).
  assert (Hsp : split_ok (fun e : elem => cmp key e.2) z').
  { eapply splay_rules_split; [exact Hrs|by rewrite Hzi|by split]. }
  destruct (splay_partition _ _ _ _ _ Ht' ltac:(by rewrite Hin) Hsp Hterm) as (P1 & P2 & P3).
  rewrite Hin in P1, P2, P3. destruct z' as [L T R]. simpl in *. subst T.
  exists (cmp key y), b, ns', lc, L, l', y, r', R.
  split; [done|]. split; [done|]. split; [done|]. split.
  2:{ intros Hk. destruct Hterm as [Hk0|Hl]; simpl in *; [lia|].
      by rewrite (proj2 (DIR_RIGHT (cmp key y))) in Hl by lia. }
  split; [done|]. destruct (Z.lt_trichotomy (cmp key y) 0) as [Hk|[Hk|Hk]].
  - right; left. destruct Hterm as [|Hl]; [simpl in *; lia|]. simpl in Hl. rewrite (proj2 (DIR_LEFT _) Hk) in Hl. subst l'. simpl in *. repeat case_decide; try lia.
    by rewrite app_nil_r in P1.
  - left. split; [done|]. exists l', b, y, r'. repeat case_decide; try lia.
    rewrite app_nil_r in P1. done.
  - right; right. destruct Hterm as [|Hr']; [simpl in *; lia|].
    simpl in Hr'. rewrite (proj2 (DIR_RIGHT (cmp key y))) in Hr' by lia. subst r'. simpl in *. repeat case_decide; try lia. done.
Qed.

Lemma splay_assemble ns lc L t1 R p :
  zrepo ns lc (Zip L t1 R) p -> NoDup (locs (zinorder (Zip L t1 R))) -> t1 <> Leaf ->
  exists a ns' t', p = Some a /\ assemble ns lc a = Ok ns' /\ rep ns' (Some a) t' /\
    inorder t' = zinorder (Zip L t1 R) /\
    only_at (locs (zinorder (Zip L t1 R))) ns ns'.
Proof.
  intros [Hr Hc] Hnd Ht. destruct t1 as [|l [a x] r]; [done|].
  assert (p = Some a) as -> by (by destruct Hr).
  destruct (assemble_ok ns lc (Zip L (Node l (a, x) r) R) a l x r)
    as (ns' & Ha & Hr' & Ho); [done|by split|done|].
  exists a, ns'. eexists. split_and!; try done. simpl. rewrite !inorder_fill.
  unfold zinorder. simpl. by rewrite <- !app_assoc.
Qed.

Lemma tree_rep_same T t t' fl ns r :
  tree_rep T t fl -> only_at (locs (inorder t)) (nodes T) ns ->
  locs (inorder t') ≡ₚ locs (inorder t) -> rep ns r t' ->
  tree_rep (set_root r (set_nodes ns T)) t' fl.
Proof.
  intros [Hr Hf Hnd [ids Ha]] Ho Hp Hr'. split; simpl; [done| | |].
  - eapply frep_ext; [|exact Hf]. intros a Hin. apply Ho. apply NoDup_app in Hnd. set_solver.
  - by rewrite Hp.
  - exists ids. apply (alloc_inv_same T); [done..|apply Ho|done].
Qed.

Lemma sml_tree_find_spec `{!ItemOrder cmp} T t fl key :
  tree_rep T t fl -> sorted_items (items (inorder t)) ->
  exists o T' t', sml_tree_find T key = Ok (o, T') /\ tree_rep T' t' fl /\
    inorder t' = inorder t /\
    o = fst <$> lookup_key (fun e : elem => cmp key e.2) (inorder t).
Proof.
  intros Hrep Hs. pose proof (trep_root _ _ _ Hrep) as Hr.
  assert (Hnd := trep_nodup _ _ _ Hrep). apply NoDup_app in Hnd as (Hnd & _).
  unfold sml_tree_find. destruct (root T) as [r|] eqn:Hroot.
  - destruct (splay_ok key _ _ _ Hr Hnd Hs)
      as (n & b & ns & lc & L & t2 & x & t3 & R & Hrun & Hz & Ho & (Hin & Hsp) & _).
    rewrite Hrun. simpl.
    destruct (splay_assemble ns lc L (Node t2 (b, x) t3) R (Some b))
      as (b' & ns' & t' & [= <-] & Ha & Hr' & Hi' & Ho'); [done|by rewrite Hin|done|].
    rewrite Ha. simpl. rewrite Hin in Ho', Hi'. eexists _, _, t'. split; [done|]. split.
    { eapply tree_rep_same; try done; [by eapply only_at_trans|by rewrite Hi']. }
    split; [done|]. unfold lookup_key.
    destruct Hsp as [(-> & t4 & a & y & t5 & [= -> -> -> ->] & _ & _ & -> & _)|
                     [(Hn & _ & -> & _)|(Hn & _ & -> & _)]]; simpl; [done| |];
      destruct (Z.eqb_spec n 0); done || lia.
  - destruct t as [|? [] ?]; [|by destruct Hr]. eexists _, _, Leaf.
    split; [done|]. by rewrite <- Hroot in *.
Qed.

(** ** Allocation *)

(** Different calls of [xmalloc] return disjoint blocks. *)
Definition disjoint_blocks : Prop :=
  forall i j, i <> j -> xmalloc i + sizeof_chunk <= xmalloc j \/ xmalloc j + sizeof_chunk <= xmalloc i.

Lemma chunk_lookup T ids c :
  alloc_inv T ids -> c ∈ chunks T ->
  exists i, i ∈ ids /\ chunk_begin c = xmalloc i /\ chunk_begin c <= chunk_free c <= CHUNK_END c.
Proof.
  intros [_ _ Hf _] Hc. apply list_elem_of_lookup in Hc as [k Hc].
  destruct (Forall2_lookup_l _ _ _ _ _ Hf Hc) as (i & Hi & H).
  exists i. split; [by eapply list_elem_of_lookup_2|done].
Qed.

Lemma CHUNK_SIZE_eq : CHUNK_SIZE = 4080. Proof. done. Qed.
Lemma sizeof_chunk_eq : sizeof_chunk = 4096. Proof. done. Qed.

(** A block that starts at [p], with [p + alloc_size] inside the chunk list
    [cs], can become a node. *)
Lemma alloc_inv_insert T ids cs k ids' a nd :
  alloc_inv T ids -> NoDup ids' -> Forall (fun i => (i < k)%nat) ids' ->
  Forall2 (fun c i => chunk_begin c = xmalloc i /\
             chunk_begin c <= chunk_free c <= CHUNK_END c) cs ids' ->
  (forall c, c ∈ chunks T -> exists c', c' ∈ cs /\ chunk_begin c' = chunk_begin c /\
                                        chunk_free c <= chunk_free c') ->
  (exists c, c ∈ cs /\ chunk_begin c + NODE_OFFSET (item_size T) <= a /\
             a - NODE_OFFSET (item_size T) + alloc_size T <= chunk_free c) ->
  alloc_inv (set_nodes (<[a := nd]> (nodes T)) (set_chunks cs k T)) ids'.
Proof.
  intros [H1 _ _ H4] Hnd Hk Hf Hold Hnew. split; simpl; [done|done|done|].
  intros b Hb. destruct (decide (a = b)) as [<-|Hne]; [done|].
  rewrite lookup_insert_ne in Hb by done. destruct (H4 b Hb) as (c & Hc & Hlo & Hhi).
  destruct (Hold c Hc) as (c' & Hc' & Hbeg & Hfree). exists c'. split; [done|]. lia.
Qed.

(** The address handed out by [chunk_alloc] is not that of any node. *)
Lemma chunk_alloc_ok T ids :
  disjoint_blocks -> alloc_inv T ids ->
  exists p cs k ids',
    chunk_alloc (chunks T) (mallocs T) (alloc_size T) = Ok (p, cs, k) /\
    nodes T !! (p + NODE_OFFSET (item_size T)) = None /\
    forall nd, alloc_inv (set_nodes (<[p + NODE_OFFSET (item_size T) := nd]> (nodes T))
                                    (set_chunks cs k T)) ids'.
Proof.
  intros Hdb Hinv. pose proof Hinv as [[Hpos Hlt] [Hnd Hk] Hf Hn].
  assert (C1 := CHUNK_SIZE_eq). assert (C2 := sizeof_chunk_eq).
  unfold chunk_alloc. rewrite (proj2 (Z.ltb_lt _ _) Hlt). simpl.
  set (off := NODE_OFFSET (item_size T)) in *. set (sz := alloc_size T) in *.
  destruct (match chunks T with [] => true | c :: _ => CHUNK_REST c <? sz end) eqn:Hnew.
  - eexists _, _, _, (mallocs T :: ids). split; [done|]. split.
    + simpl. apply eq_None_not_Some. intros Hs. destruct (Hn _ Hs) as (c & Hc & Hlo & Hhi).
      destruct (chunk_lookup _ _ _ Hinv Hc) as (i & Hi & Hb & Hfree).
      rewrite Forall_forall in Hk. specialize (Hk i Hi). unfold CHUNK_END in Hfree.
      destruct (Hdb i (mallocs T)); lia.
    + intros nd. apply alloc_inv_insert with ids; try done; simpl.
      * constructor; [|done]. intros Hin. rewrite Forall_forall in Hk. specialize (Hk _ Hin). lia.
      * constructor; [lia|]. eapply Forall_impl; [exact Hk|simpl; lia].
      * constructor; [|done]. unfold CHUNK_END. simpl. lia.
      * intros c Hc. exists c. split; [set_solver|lia].
      * eexists. split; [by left|]. simpl. fold off sz. lia.
  - destruct (chunks T) as [|c cs] eqn:Hcs; [done|]. apply Z.ltb_ge in Hnew.
    unfold CHUNK_REST, CHUNK_END in Hnew.
    destruct (Forall2_cons_inv_l _ _ _ _ Hf) as (i & ids0 & (Hb & Hfr) & Hf0 & ->).
    apply NoDup_cons in Hnd as [Hi0 Hnd0].
    eexists _, _, _, (i :: ids0). split; [done|]. simpl. split.
    + apply eq_None_not_Some. intros Hs. destruct (Hn _ Hs) as (c' & Hc' & Hlo & Hhi).
      apply elem_of_cons in Hc' as [->|Hc']; [lia|].
      apply list_elem_of_lookup in Hc' as [j Hj].
      destruct (Forall2_lookup_l _ _ _ _ _ Hf0 Hj) as (i' & Hi' & Hb' & Hfree').
      apply list_elem_of_lookup_2 in Hi'. unfold CHUNK_END in *.
      destruct (Hdb i i'); [set_solver|lia..].
    + intros nd. apply alloc_inv_insert with (i :: ids0); try done; simpl.
      * by constructor.
      * constructor; [|done]. unfold CHUNK_END in *. simpl. lia.
      * rewrite Hcs. intros c' Hc'. apply elem_of_cons in Hc' as [->|Hc'].
        -- eexists. split; [by left|]. simpl. lia.
        -- exists c'. split; [set_solver|lia].
      * eexists. split; [by left|]. simpl. fold off sz. lia.
Qed.

(** [node_alloc] returns a node outside the live ones and the rest of the
    free list. *)
Lemma node_alloc_ok T ids fl (live : list loc) :
  disjoint_blocks -> alloc_inv T ids -> frep (nodes T) (freelist T) fl ->
  NoDup (live ++ fl) -> (forall a, a ∈ live -> is_Some (nodes T !! a)) ->
  exists b T1 fl1 ids1 nd,
    node_alloc T = Ok (b, T1) /\ b ∉ live /\ b ∉ fl1 /\ NoDup (live ++ fl1) /\
    nodes T1 !! b = Some nd /\ frep (nodes T1) (freelist T1) fl1 /\ alloc_inv T1 ids1 /\
    root T1 = root T /\ (forall a, a <> b -> nodes T1 !! a = nodes T !! a).
Proof.
  intros Hdb Hinv Hf Hnd Hlive. unfold node_alloc. destruct fl as [|b fl]; simpl in Hf.
  - rewrite Hf. destruct (chunk_alloc_ok T ids Hdb Hinv) as (p & cs & k & ids' & Hrun & Hfresh & Hinv').
    rewrite Hrun. simpl. eexists _, _, [], ids', fresh_node.
    split; [done|]. simpl.
    split; [intros Hb; apply Hlive in Hb; rewrite Hfresh in Hb; by destruct Hb|].
    split; [set_solver|]. split; [done|]. split; [by rewrite lookup_insert_eq|].
    split; [done|]. split; [apply Hinv'|]. split; [done|].
    intros a Ha. by rewrite lookup_insert_ne.
  - destruct Hf as (-> & nd & q & Hn & Hq & Hf). unfold load_node. rewrite Hn. simpl. rewrite Hq. simpl.
    exists b, (set_freelist q T), fl, ids, nd. split; [done|].
    apply NoDup_app in Hnd as (Hnl & Hlf & Hbf). apply NoDup_cons in Hbf as [Hbf Hnf].
    split; [set_solver|]. split; [done|]. split; [apply NoDup_app; set_solver|].
    split; [done|]. split; [done|]. split; [by apply (alloc_inv_same T)|]. done.
Qed.

(** ** Placing a node above a splayed tree *)
Lemma place_ok ns lc L t1 R p b key d nd :
  zrepo ns lc (Zip L t1 R) p -> NoDup (locs (zinorder (Zip L t1 R))) ->
  b ∉ locs (zinorder (Zip L t1 R)) -> ns !! b = Some nd -> item nd = Some key ->
  exists ns0 ns1 ns2 t',
    set_child ns b d None = Ok ns0 /\ set_child ns0 b (OPP d) p = Ok ns1 /\
    assemble ns1 lc b = Ok ns2 /\ rep ns2 (Some b) t' /\
    inorder t' = cinorder LEFT L ++ inorder (mk d (b, key) Leaf t1) ++ cinorder RIGHT R /\
    only_at (b :: locs (zinorder (Zip L t1 R))) ns ns2.
Proof.
  intros [Hr Hc] Hnd Hb Hn Hi. 
  set (nd0 := MkNode (item nd) (put d None (child nd)) (back nd)).
  set (nd1 := MkNode (item nd) (put (OPP d) p (put d None (child nd))) (back nd)).
  assert (Hs1 : set_child (<[b := nd0]> ns) b (OPP d) p = Ok (<[b := nd1]> ns)).
  { rewrite (set_child_ok _ _ nd0) by apply lookup_insert_eq. by rewrite insert_insert_eq. }
  assert (Hs0 := set_child_ok ns b nd d None Hn : _ = Ok (<[b := nd0]> ns)).
  assert (Ho : only_at [b] ns (<[b := nd1]> ns)) by (eapply only_at_insert; [done|set_solver]).
  set (z1 := Zip L (mk d (b, key) Leaf t1) R).
  assert (Hp : locs (zinorder z1) ≡ₚ b :: locs (zinorder (Zip L t1 R))).
  { unfold z1, zinorder. simpl. rewrite !locs_app.
    assert (locs (inorder (mk d (b, key) Leaf t1)) ≡ₚ b :: locs (inorder t1)) as ->.
    { destruct d; simpl; rewrite ?locs_app, ?locs_cons, ?locs_nil; [|done].
      by rewrite <- Permutation_cons_append. }
    rewrite <- app_comm_cons. by rewrite <- Permutation_middle. }
  assert (Hnew : forall a, a ∈ locs (zinorder (Zip L t1 R)) -> <[b := nd1]> ns !! a = ns !! a)
    by (intros a Ha; apply lookup_insert_ne; set_solver).
  assert (Hz1 : zrepo (<[b := nd1]> ns) lc z1 (Some b)).
  { split.
    - apply rep_mk. split; [done|]. exists nd1. split; [apply lookup_insert_eq|].
      unfold nd1. simpl. autorewrite with runtime. split_and!; try done.
      eapply rep_ext; [|exact Hr]. intros a Ha. apply Hnew. apply (zip_locs LEFT). by left.
    - intros s. replace (zctx s z1) with (zctx s (Zip L t1 R)) by (by destruct s).
      apply (crep_ext ns _ lc lc); [|done|apply Hc].
      intros a Ha. apply Hnew. apply (zip_locs s). by right; left. }
  destruct (splay_assemble _ _ _ _ _ _ Hz1) as (b' & ns' & t' & [= <-] & Ha & Hr' & Hi' & Ho').
  { fold z1. rewrite Hp. by apply NoDup_cons. } { by destruct d. }
  exists (<[b := nd0]> ns), (<[b := nd1]> ns), ns', t'. fold z1 in Ho'. rewrite Hp in Ho'.
  split; [done|]. split; [done|]. split; [done|]. split; [done|].
  split; [rewrite Hi'; unfold zinorder; simpl; done|].
  eapply only_at_trans; [|exact Ho']. eapply only_at_mono; [|exact Ho]. set_solver.
Qed.

Lemma zrepo_ext ns ns' lc z p :
  (forall a, a ∈ locs (zinorder z) -> ns' !! a = ns !! a) -> zrepo ns lc z p -> zrepo ns' lc z p.
Proof.
  intros He [Hr Hc]. split.
  - eapply rep_ext; [|exact Hr]. intros a Ha. apply He. apply (zip_locs LEFT). by left.
  - intros s. apply (crep_ext ns _ lc lc); [|done|apply Hc].
    intros a Ha. apply He. apply (zip_locs s). by right; left.
Qed.

(** The same when the item is written last, as [sml_tree_insert] does. *)
Lemma place_new_ok ns lc L t1 R p b key d :
  zrepo ns lc (Zip L t1 R) p -> NoDup (locs (zinorder (Zip L t1 R))) ->
  b ∉ locs (zinorder (Zip L t1 R)) -> is_Some (ns !! b) ->
  exists ns0 ns1 ns2 ns3 t',
    set_child ns b d None = Ok ns0 /\ set_child ns0 b (OPP d) p = Ok ns1 /\
    assemble ns1 lc b = Ok ns2 /\ set_item ns2 b key = Ok ns3 /\ rep ns3 (Some b) t' /\
    inorder t' = cinorder LEFT L ++ inorder (mk d (b, key) Leaf t1) ++ cinorder RIGHT R /\
    only_at (b :: locs (zinorder (Zip L t1 R))) ns ns3.
Proof.
  intros Hz Hnd Hb [nd Hn].
  destruct (place_ok (put_item b key ns) lc L t1 R p b key d (MkNode (Some key) (child nd) (back nd)))
    as (n0 & n1 & n2 & t' & H0 & H1 & H2 & Hr & Hi & Ho); [|done|done| |done|].
  { eapply zrepo_ext; [|exact Hz]. intros a Ha. rewrite put_item_lookup. case_decide; by subst. }
  { rewrite put_item_lookup, Hn. by case_decide. }
  rewrite set_child_put_item in H0. apply res_bind_ok in H0 as (ns0 & H0 & [= <-]).
  rewrite set_child_put_item in H1. apply res_bind_ok in H1 as (ns1 & H1 & [= <-]).
  rewrite assemble_put_item in H2. apply res_bind_ok in H2 as (ns2 & H2 & [= <-]).
  assert (Ho' : only_at (b :: locs (zinorder (Zip L t1 R))) ns (put_item b key ns2)).
  { eapply only_at_trans; [|exact Ho]. apply only_at_put_item. by left. }
  exists ns0, ns1, ns2, (put_item b key ns2), t'.
  split; [done|]. split; [done|]. split; [done|]. split; [|done].
  apply set_item_ok.
  assert (Hs : is_Some (put_item b key ns2 !! b)) by (apply Ho'; eauto).
  rewrite put_item_lookup in Hs. case_decide; [|done]. by rewrite fmap_is_Some in Hs.
Qed.

Lemma tree_rep_build T fl ids Lc ns r t' :
  frep (nodes T) (freelist T) fl -> alloc_inv T ids -> only_at Lc (nodes T) ns ->
  (forall a, a ∈ Lc -> a ∉ fl) -> NoDup (locs (inorder t') ++ fl) -> rep ns r t' ->
  tree_rep (set_root r (set_nodes ns T)) t' fl.
Proof.
  intros Hf Ha Ho Hd Hnd Hr. split; simpl; [done| |done|].
  - eapply frep_ext; [|exact Hf]. intros a Hin. apply Ho. intros Hl. by apply (Hd a).
  - exists ids. apply (alloc_inv_same T); [done..|apply Ho|done].
Qed.

Lemma splay_root_ok `{!ItemOrder cmp} T t fl key :
  tree_rep T t fl -> sorted_items (items (inorder t)) ->
  exists n ns r lc L t1 R,
    splay_root T key = Ok (n, set_root r (set_nodes ns T), lc) /\
    zrepo ns lc (Zip L t1 R) r /\ only_at (locs (inorder t)) (nodes T) ns /\
    split_here key (inorder t) n L t1 R r.
Proof.
  intros Hrep Hs. pose proof (trep_root _ _ _ Hrep) as Hr.
  assert (Hnd := trep_nodup _ _ _ Hrep). apply NoDup_app in Hnd as (Hnd & _).
  unfold splay_root. destruct (root T) as [r|] eqn:Hroot.
  - destruct (splay_ok key _ _ _ Hr Hnd Hs)
      as (n & b & ns & lc & L & t2 & x & t3 & R & Hrun & Hz & Ho & Hsp & _).
    rewrite Hrun. simpl. by exists n, ns, (Some b), lc, L, (Node t2 (b, x) t3), R.
  - destruct t as [|? [] ?]; [|by destruct Hr].
    exists 1, (nodes T), None, INIT_HOLE, [], Leaf, [].
    split; [destruct T; simpl in *; by subst|]. split; [split; [done|by intros []]|].
    split; [apply only_at_refl|]. split; [done|]. right; right. done.
Qed.

Lemma split_here_placed key l n L t1 R p b x :
  split_here key l n L t1 R p -> n <> 0 ->
  cinorder LEFT L ++ inorder (mk (DIR n) (b, x) Leaf t1) ++ cinorder RIGHT R =
    smaller (fun e => cmp key e.2) l ++ (b, x) :: larger (fun e => cmp key e.2) l /\
  matching (fun e => cmp key e.2) l = [].
Proof.
  intros [_ [(-> & _)|[(Hn & -> & -> & ->)|(Hn & -> & -> & ->)]]] Hn0; [done|..].
  - rewrite (proj2 (DIR_LEFT n)) by done. simpl. done.
  - rewrite (proj2 (DIR_RIGHT n)) by lia. simpl. by rewrite <- !app_assoc.
Qed.

Lemma rep_put_item_root ns a x y l r :
  rep ns (Some a) (Node l (a, x) r) -> NoDup (locs (inorder (Node l (a, x) r))) ->
  rep (put_item a y ns) (Some a) (Node l (a, y) r).
Proof.
  simpl. rewrite locs_app, locs_cons, NoDup_app, NoDup_cons.
  intros (_ & nd & Hn & _ & Hl & Hr) (_ & Hd & Ha & _). split; [done|]. eexists.
  rewrite put_item_lookup, Hn. rewrite decide_True by done. split; [done|]. simpl.
  split; [done|].
  split; [eapply rep_ext; [|exact Hl]|eapply rep_ext; [|exact Hr]]; intros b Hb;
    rewrite put_item_lookup, decide_False; set_solver.
Qed.

Lemma split_here_perm key l n L t1 R p : split_here key l n L t1 R p -> zinorder (Zip L t1 R) = l.
Proof. by intros [? _]. Qed.

Lemma sml_tree_insert_hit `{!ItemOrder cmp} T t fl key ns r lc L t1 R :
  splay_root T key = Ok (0, set_root r (set_nodes ns T), lc) ->
  zrepo ns lc (Zip L t1 R) r -> only_at (locs (inorder t)) (nodes T) ns ->
  split_here key (inorder t) 0 L t1 R r -> tree_rep T t fl ->
  exists b x T' t', sml_tree_insert T key = Ok (b, T') /\ tree_rep T' t' fl /\
    inorder t' = smaller (fun e => cmp key e.2) (inorder t) ++
                 (b, key) :: larger (fun e => cmp key e.2) (inorder t) /\
    matching (fun e => cmp key e.2) (inorder t) = [(b, x)].
Proof.
  intros Hrun Hz Ho Hsp Hrep. assert (Hi := split_here_perm _ _ _ _ _ _ _ Hsp).
  destruct Hsp as [_ [(_ & t2 & a & x & t3 & -> & -> & Hs & Hm & Hl)|[(? & _)|(? & _)]]]; [|lia..].
  assert (Hnd := trep_nodup _ _ _ Hrep). apply NoDup_app in Hnd as (Hnd & _).
  rewrite <- Hi in Hnd.
  destruct (assemble_ok ns lc (Zip L (Node t2 (a, x) t3) R) a t2 x t3) as (ns1 & Ha & Hr & Ho1);
    [done|by destruct Hz|done|].
  rewrite Hi in Ho1, Hnd. set (t' := Node _ (a, x) _) in Hr.
  assert (Ht' : inorder t' = inorder t).
  { rewrite <- Hi. unfold t', zinorder. simpl. rewrite !inorder_fill.
    by rewrite <- !app_assoc. }
  assert (Hin : a ∈ locs (inorder t)).
  { rewrite <- Ht'. unfold t'. simpl. rewrite locs_app, locs_cons. set_solver. }
  assert (Hr' := rep_put_item_root _ _ _ key _ _ Hr ltac:(by fold t'; rewrite Ht')).
  exists a, x. eexists _, _. split.
  { unfold sml_tree_insert. rewrite Hrun. simpl. rewrite Ha. simpl.
    rewrite set_item_ok; [done|]. apply (rep_lookup _ _ _ _ Hr). by rewrite Ht'. }
  split; [|split; [|done]].
  - apply (tree_rep_same T t _ fl (put_item a key ns1)); [done| | |done].
    + eapply only_at_trans; [exact Ho|]. eapply only_at_trans; [exact Ho1|].
      by apply only_at_put_item.
    + rewrite <- Ht'. unfold t'. simpl. by rewrite !locs_app, !locs_cons.
  - rewrite Hs, Hl. simpl. rewrite !inorder_fill. by rewrite <- !app_assoc.
Qed.

Lemma sml_tree_insert_miss `{!ItemOrder cmp} T t fl key n ns r lc L t1 R :
  disjoint_blocks -> n <> 0 ->
  splay_root T key = Ok (n, set_root r (set_nodes ns T), lc) ->
  zrepo ns lc (Zip L t1 R) r -> only_at (locs (inorder t)) (nodes T) ns ->
  split_here key (inorder t) n L t1 R r -> tree_rep T t fl ->
  exists b T' t' fl', sml_tree_insert T key = Ok (b, T') /\ tree_rep T' t' fl' /\
    inorder t' = smaller (fun e => cmp key e.2) (inorder t) ++
                 (b, key) :: larger (fun e => cmp key e.2) (inorder t) /\
    matching (fun e => cmp key e.2) (inorder t) = [].
Proof.
  intros Hdb Hn Hrun Hz Ho Hsp Hrep. assert (Hi := split_here_perm _ _ _ _ _ _ _ Hsp).
  pose proof Hrep as [Hr Hf Hnd [ids Ha]]. set (T1 := set_root r (set_nodes ns T)) in Hrun.
  assert (Hlf : forall a, a ∈ locs (inorder t) -> a ∉ fl) by (apply NoDup_app in Hnd; set_solver).
  destruct (node_alloc_ok T1 ids fl (locs (inorder t)))
    as (b & T2 & fl2 & ids2 & nd & Hal & Hbl & Hbf & Hnd2 & Hnb & Hf2 & Ha2 & Hrt & Hsame).
  { done. } { apply (alloc_inv_same T); [done..|apply Ho|done]. }
  { eapply frep_ext; [|exact Hf]. intros a Hin. apply Ho. intros Hin'. by apply (Hlf a). }
  { done. } { intros a Hin. apply Ho. by eapply rep_lookup. }
  destruct (place_new_ok (nodes T2) lc L t1 R (root T2) b key (DIR n))
    as (n0 & n1 & n2 & n3 & t' & H0 & H1 & H2 & H3 & Hr' & Hi' & Ho').
  { rewrite Hrt. eapply zrepo_ext; [|exact Hz]. intros a Hin. apply Hsame.
    rewrite Hi in Hin. by intros ->. }
  { rewrite Hi. by apply NoDup_app in Hnd as [? _]. } { by rewrite Hi. } { eauto. }
  rewrite (proj1 (split_here_placed _ _ _ _ _ _ _ b key Hsp Hn)) in Hi'.
  assert (Hp : locs (inorder t') ≡ₚ b :: locs (inorder t)).
  { assert (Hpl := proj1 (split_here_placed _ _ _ _ _ _ _ b key Hsp Hn)).
    rewrite Hi', <- Hpl, <- Hi. unfold zinorder. simpl. rewrite !locs_app.
    rewrite Permutation_app_comm. rewrite (Permutation_app_comm (locs (cinorder _ _))).
    destruct (DIR n); simpl; rewrite ?locs_app, ?locs_cons, ?locs_nil; solve_Permutation. }
  exists b. eexists _, t', fl2. split.
  { unfold sml_tree_insert. rewrite Hrun. simpl. rewrite (proj2 (Z.eqb_neq _ _) Hn). simpl.
    fold T1. rewrite Hal. simpl. unfold push_root. rewrite H0. simpl. rewrite H1. simpl.
    rewrite H2. simpl. rewrite H3. done. }
  split; [|split; [done|by eapply split_here_placed]].
  change (tree_rep (set_root (Some b) (set_nodes n3 T2)) t' fl2).
  apply (tree_rep_build T2 fl2 ids2 (b :: locs (zinorder (Zip L t1 R)))); try done.
  - rewrite Hi. apply NoDup_app in Hnd2 as (_ & Hd & _). set_solver.
  - rewrite Hp. simpl. apply NoDup_cons. split; [set_solver|done].
Qed.

(** ** Deletion *)
Lemma cinorder_nil s (cs : context elem) : cinorder s cs = [] -> cs = [].
Proof.
  destruct cs as [|[e u] cs]; [done|]. unfold cinorder. simpl.
  destruct s; simpl; destruct (inorder u); simpl; try done;
    intros H; apply (f_equal length) in H; rewrite ?length_app in H; simpl in H; lia.
Qed.

Lemma sorted_items_app_lt l1 e l2 :
  sorted_items (items (l1 ++ e :: l2)) -> Forall (fun f : elem => cmp f.2 e.2 < 0) l1.
Proof.
  unfold sorted_items, items. induction l1 as [|f l1 IH]; simpl; [constructor|].
  intros [Hs HF]%StronglySorted_inv. constructor; [|by apply IH].
  rewrite fmap_app in HF. apply Forall_app in HF as [_ HF]. by inversion HF.
Qed.

Lemma sorted_items_app l1 l2 :
  sorted_items (items (l1 ++ l2)) -> sorted_items (items l1) /\ sorted_items (items l2).
Proof.
  unfold sorted_items, items. rewrite fmap_app. intros H. split.
  - by eapply StronglySorted_app_1_l.
  - by eapply StronglySorted_app_1_r.
Qed.

Lemma all_below_key `{!ItemOrder cmp} key l :
  Forall (fun f : elem => cmp f.2 key < 0) l ->
  matching (fun e : elem => cmp key e.2) l = [] /\ larger (fun e : elem => cmp key e.2) l = [].
Proof.
  intros H. assert (Hs : Forall (fun e : elem => 0 < cmp key e.2) l).
  { eapply Forall_impl; [exact H|]. intros e He. simpl in *.
    pose proof (cmp_antisym e.2 key). lia. }
  by destruct (all_smaller _ _ Hs) as (_ & ? & ?).
Qed.

(** The pointer updates of [join] after its [splay]. *)
Lemma join_splayed ns lc L t2 b y r p :
  zrep ns lc (Zip L (Node t2 (b, y) Leaf) []) b -> rep ns p r ->
  NoDup (locs (zinorder (Zip L (Node t2 (b, y) r) []))) ->
  exists ns2 ns3 t2', let t' := Node t2' (b, y) r in
    set_child ns b RIGHT p = Ok ns2 /\ assemble ns2 lc b = Ok ns3 /\
    rep ns3 (Some b) t' /\ inorder t' = zinorder (Zip L (Node t2 (b, y) r) []) /\
    only_at (locs (zinorder (Zip L (Node t2 (b, y) r) []))) ns ns3.
Proof.
  intros Hz Hr Hnd. pose proof Hz as [(_ & bd & Hb & Hbi & Hb2 & Hb3) Hc].
  rewrite (set_child_ok _ _ _ _ _ Hb). set (ns2 := <[b := _]> ns).
  destruct (zip_disjoint _ Hnd) as [Hnt _]. simpl in Hnt.
  rewrite locs_app, locs_cons, NoDup_app, NoDup_cons in Hnt. destruct Hnt as (_ & Hd & Hbr & _).
  assert (Hnz : NoDup (locs (zinorder (Zip L (Node t2 (b, y) Leaf) [])))).
  { revert Hnd. unfold zinorder. simpl. rewrite !locs_app, !locs_cons, !locs_nil, !NoDup_app.
    rewrite !NoDup_cons. set_solver. }
  assert (Ho : forall M, only_at (M ++ b :: locs (inorder r)) ns ns2)
    by (intros M; apply only_at_insert with bd; [done|set_solver]).
  assert (Hz2 : zrep ns2 lc (Zip L (Node t2 (b, y) r) []) b).
  { eapply (zrep_replace ns); [exact Hz|exact Hnz| |].
    - apply only_at_insert with bd; [done|]. simpl. rewrite locs_app. set_solver.
    - simpl. split; [done|]. eexists. split; [apply lookup_insert_eq|]. simpl.
      split; [done|]. split; [eapply rep_ext; [|exact Hb2]|eapply rep_ext; [|exact Hr]];
        intros c Hcin; unfold ns2; apply lookup_insert_ne; set_solver. }
  destruct (assemble_ok ns2 lc (Zip L (Node t2 (b, y) r) []) b t2 y r eq_refl Hz2 Hnd) as (ns3 & Ha & Hr3 & Ho3).
  exists ns2, ns3, (fill LEFT L t2). split; [done|]. split; [exact Ha|]. split; [exact Hr3|]. split.
  - simpl. rewrite inorder_fill. unfold zinorder. simpl. by rewrite !app_nil_r, <- !app_assoc.
  - eapply only_at_trans; [|exact Ho3]. apply only_at_insert with bd; [done|].
    unfold zinorder. simpl. rewrite !locs_app, !locs_cons. set_solver.
Qed.

Lemma join_ok `{!ItemOrder cmp} ns a x l r :
  rep ns (Some a) (Node l (a, x) r) -> NoDup (locs (inorder (Node l (a, x) r))) ->
  sorted_items (items (inorder (Node l (a, x) r))) ->
  exists p ns' t', join ns a = Ok (p, ns') /\ rep ns' p t' /\
    inorder t' = inorder l ++ inorder r /\ only_at (locs (inorder l ++ inorder r)) ns ns' /\
    match l with
    | Leaf => t' = r /\ ns' = ns
    | Node _ _ _ => exists l' b y, p = Some b /\ t' = Node l' (b, y) r
    end.
Proof.
  simpl. intros (_ & nd & Hn & Hi & Hl & Hr) Hnd Hs. unfold join.
  rewrite (get_child_ok _ _ _ LEFT Hn). simpl.
  destruct l as [|l1 [m1 y1] r1].
  { simpl in Hl. rewrite Hl. simpl. rewrite (get_child_ok _ _ _ _ Hn). simpl.
    exists (at_right (child nd)), ns, r. split; [done|]. split; [done|]. split; [done|].
    split; [apply only_at_refl|done]. }
  set (l := Node l1 (m1, y1) r1) in *.
  assert (Hm : at_left (child nd) = Some m1) by apply Hl. rewrite Hm in *. clear Hm.
  rewrite locs_app, locs_cons in Hnd. apply NoDup_app in Hnd as (Hndl & Hd & Hndr).
  apply NoDup_cons in Hndr as [Har Hndr].
  assert (Hal : a ∉ locs (inorder l)) by (intros Hc; apply (Hd a Hc); by left).
  assert (Hlr : forall c, c ∈ locs (inorder r) -> c ∉ locs (inorder l))
    by (intros c Hc Hc'; apply (Hd c Hc'); by right).
  destruct (all_below_key x (inorder l)) as [Hma Hla]; [by eapply (sorted_items_app_lt _ (a, x))|].
  destruct (splay_ok x ns m1 l Hl Hndl) as (n & b & ns1 & lc & L & t2 & y & t3 & R & Hrun & Hz & Ho & Hsp & Ht3);
    [by apply (sorted_items_app _ ((a, x) :: inorder r))|].
  rewrite (ITEM_OF_ok _ _ _ _ Hn Hi). simpl. rewrite Hrun. simpl.
  destruct Hsp as [Hin Hcase]. rewrite Hma, Hla in Hcase.
  destruct Hcase as [(_ & ? & ? & ? & ? & _ & _ & _ & [=] & _)|[(_ & _ & _ & H)|(Hpos & _ & _ & HR)]].
  { apply (f_equal length) in H. simpl in H. rewrite !length_app in H. simpl in H. lia. }
  symmetry in HR. apply cinorder_nil in HR as ->. rewrite (Ht3 Hpos) in *. clear Ht3.
  assert (Ho' : forall c, c ∉ locs (inorder l) -> ns1 !! c = ns !! c) by apply Ho.
  pose proof Hz as [(_ & bd & Hb & _ & _ & Hb3) _].
  simpl in Hb3. rewrite (get_child_ok _ _ _ RIGHT Hb). simpl. rewrite Hb3. simpl.
  rewrite (get_child_ok ns1 a nd) by (by rewrite Ho'). simpl.
  assert (Hcat : zinorder (Zip L (Node t2 (b, y) r) []) = inorder l ++ inorder r).
  { rewrite <- Hin. unfold zinorder. simpl. by rewrite !app_nil_r, <- !app_assoc. }
  destruct (join_splayed ns1 lc L t2 b y r (at_right (child nd)) Hz)
    as (ns2 & ns3 & l' & H2 & H3 & Hr' & Hi' & Ho3).
  { eapply rep_ext; [|exact Hr]. intros c Hc. apply Ho'. by apply Hlr. }
  { rewrite Hcat, locs_app. apply NoDup_app. split; [done|]. split; [|done].
    intros c Hc Hc'. by apply (Hlr c). }
  rewrite Hcat in *. rewrite H2. simpl. rewrite H3. simpl. exists (Some b), ns3, (Node l' (b, y) r).
  split; [done|]. split; [done|]. split; [done|]. split; [|by exists l', b, y].
  eapply only_at_trans; [|exact Ho3]. eapply only_at_mono; [|exact Ho].
  rewrite locs_app. set_solver.
Qed.

Lemma node_reclaim_ok T fl a :
  frep (nodes T) (freelist T) fl -> a ∉ fl -> is_Some (nodes T !! a) ->
  exists ns, node_reclaim T a = Ok (set_freelist (Some a) (set_nodes ns T)) /\
    only_at [a] (nodes T) ns /\ frep ns (Some a) (a :: fl) /\
    forall b, strip <$> ns !! b = strip <$> nodes T !! b.
Proof.
  intros Hf Ha [nd Hn]. unfold node_reclaim, set_back, load_node. rewrite Hn. simpl.
  eexists. split; [done|]. split; [by apply only_at_insert with nd; [|left]|]. split.
  - split; [done|]. eexists _, (freelist T). rewrite lookup_insert_eq. split; [done|]. simpl.
    split; [by destruct (freelist T)|]. eapply frep_ext; [|exact Hf]. intros b Hb.
    apply lookup_insert_ne. set_solver.
  - intros b. rewrite lookup_insert. case_decide; [|done]. subst. by rewrite Hn.
Qed.

(** [sml_tree_delete] after a successful splay: [join], [assemble] and a
    second [join] when the root had no children. *)
Lemma delete_root_ok `{!ItemOrder cmp} ns lc L t2 a x t3 R :
  zrep ns lc (Zip L (Node t2 (a, x) t3) R) a ->
  NoDup (locs (zinorder (Zip L (Node t2 (a, x) t3) R))) ->
  sorted_items (items (zinorder (Zip L (Node t2 (a, x) t3) R))) ->
  exists p ns' t',
    ('(newroot, ns) ← join ns a;
     match newroot with
     | Some nr => ns ← assemble ns lc nr; Ok (newroot, ns)
     | None => ns ← assemble ns lc a; join ns a
     end) = Ok (p, ns') /\
    rep ns' p t' /\
    inorder t' = (cinorder LEFT L ++ inorder t2) ++ inorder t3 ++ cinorder RIGHT R /\
    only_at (locs (zinorder (Zip L (Node t2 (a, x) t3) R))) ns ns'.
Proof.
  intros Hz Hnd Hs. destruct (zip_disjoint _ Hnd) as [Hnt Hdis]. simpl zt in *.
  assert (Hst : sorted_items (items (inorder (Node t2 (a, x) t3)))).
  { unfold zinorder in Hs. apply sorted_items_app in Hs as [_ Hs].
    by apply sorted_items_app in Hs as [Hs _]. }
  destruct (join_ok ns a x t2 t3 (proj1 Hz) Hnt Hst) as (p & ns1 & tj & Hj & Hrj & Hij & Hoj & Hleaf).
  rewrite Hj. simpl. set (z := Zip L _ R) in *.
  assert (Hzj : zinorder (Zip L tj R) = (cinorder LEFT L ++ inorder t2) ++ inorder t3 ++ cinorder RIGHT R).
  { unfold zinorder. simpl. by rewrite Hij, <- !app_assoc. }
  destruct tj as [|tl [b y] tr] eqn:Htj.
  - assert (t2 = Leaf) as ->.
    { destruct t2; [done|]. apply (f_equal length) in Hij. simpl in Hij.
      rewrite !length_app in Hij. simpl in Hij. lia. }
    destruct Hleaf as [<- ->]. simpl in Hrj. subst p.
    destruct (assemble_ok ns lc z a Leaf x Leaf eq_refl Hz Hnd) as (ns2 & Ha & Hr2 & Ho2).
    rewrite Ha. simpl. simpl zl in Hr2. simpl zr in Hr2.
    assert (Hi2 : inorder (Node (fill LEFT L Leaf) (a, x) (fill RIGHT R Leaf)) = zinorder z).
    { unfold zinorder. simpl. rewrite !inorder_fill. simpl. by rewrite app_nil_r. }
    destruct (join_ok ns2 a x _ _ Hr2) as (p' & ns3 & t' & Hj' & Hr' & Hi' & Ho' & _);
      [by rewrite Hi2|by rewrite Hi2|].
    exists p', ns3, t'. split; [done|]. split; [done|]. split.
    { rewrite Hi', !inorder_fill. simpl. by rewrite !app_nil_r. }
    eapply only_at_trans; [exact Ho2|]. eapply only_at_mono; [|exact Ho'].
    rewrite <- Hi2. simpl. rewrite !locs_app, locs_cons. set_solver.
  - assert (p = Some b) as -> by apply Hrj.
    assert (Hloc : locs (zinorder z) ≡ₚ a :: locs (zinorder (Zip L (Node tl (b, y) tr) R))).
    { rewrite Hzj. assert (zinorder z = (cinorder LEFT L ++ inorder t2) ++ (a, x) :: inorder t3 ++
        cinorder RIGHT R) as -> by (unfold z, zinorder; simpl; by rewrite <- !app_assoc).
      rewrite (locs_app _ (_ :: _)), locs_cons, (locs_app _ (inorder t3 ++ _)).
      by rewrite Permutation_middle. }
    assert (Hoz : only_at (locs (inorder (zt z))) ns ns1).
    { eapply only_at_mono; [|exact Hoj]. simpl. rewrite !locs_app, locs_cons. set_solver. }
    destruct (assemble_ok ns1 lc (Zip L (Node tl (b, y) tr) R) b tl y tr eq_refl)
      as (ns2 & Ha & Hr2 & Ho2).
    { eapply (zrep_replace ns); [exact Hz|exact Hnd|exact Hoz|exact Hrj]. }
    { rewrite Hloc in Hnd. by apply NoDup_cons in Hnd as [_ ?]. }
    rewrite Ha. simpl. eexists _, ns2, _. split; [done|]. split; [exact Hr2|]. split.
    { rewrite <- Hzj. simpl. rewrite !inorder_fill. unfold zinorder. simpl.
      by rewrite <- !app_assoc. }
    apply only_at_trans with ns1.
    + eapply only_at_mono; [|exact Hoz]. intros c Hc. apply (zip_locs LEFT). by left.
    + eapply only_at_mono; [|exact Ho2]. intros c Hc. rewrite Hloc. by right.
Qed.

Lemma locs_drop_middle (l1 : list elem) a x l2 : locs (l1 ++ (a, x) :: l2) ≡ₚ a :: locs (l1 ++ l2).
Proof. rewrite !locs_app, locs_cons. by rewrite Permutation_middle. Qed.

(** What deletion leaves: the node of the key, if any, moves to the free list. *)
Definition deleted (key : A) (l l' : list elem) fl fl' (o : nodeptr) : Prop :=
  match lookup_key (fun e : elem => cmp key e.2) l with
  | Some (a, _) =>
      o = Some a /\ fl' = a :: fl /\
      l' = smaller (fun e => cmp key e.2) l ++ larger (fun e => cmp key e.2) l
  | None => o = None /\ fl' = fl /\ l' = l
  end.

Lemma sml_tree_delete_miss `{!ItemOrder cmp} T t fl key n b ns lc L t1 R r0 :
  root T = Some r0 -> n <> 0 -> t1 <> Leaf ->
  splay cmp (tree_fuel (nodes T)) key (nodes T) INIT_HOLE r0 = Ok (n, b, ns, lc) ->
  zrepo ns lc (Zip L t1 R) (Some b) -> only_at (locs (inorder t)) (nodes T) ns ->
  split_here key (inorder t) n L t1 R (Some b) -> tree_rep T t fl ->
  exists o T' t', sml_tree_delete T key = Ok (o, T') /\ tree_rep T' t' fl /\
    deleted key (inorder t) (inorder t') fl fl o.
Proof.
  intros Hroot Hn Ht1 Hrun Hz Ho Hsp Hrep. assert (Hi := split_here_perm _ _ _ _ _ _ _ Hsp).
  assert (Hnd := trep_nodup _ _ _ Hrep). apply NoDup_app in Hnd as (Hnd & _).
  unfold sml_tree_delete. rewrite Hroot, Hrun. simpl. rewrite (proj2 (Z.eqb_neq _ _) Hn). simpl.
  destruct (splay_assemble ns lc L t1 R (Some b)) as (b' & ns' & t' & [= <-] & Ha & Hr' & Hi' & Ho');
    [done|by rewrite Hi|done|]. rewrite Hi in *.
  rewrite Ha. simpl. eexists _, _, t'. split; [done|]. split.
  { eapply tree_rep_same; [done|by eapply only_at_trans|by rewrite Hi'|done]. }
  unfold deleted, lookup_key. rewrite (proj2 (split_here_placed _ _ _ _ _ _ _ 0 key Hsp Hn)).
  done.
Qed.

Lemma sml_tree_delete_hit `{!ItemOrder cmp} T t fl key a ns lc L t2 x t3 R r0 :
  root T = Some r0 -> sorted_items (items (inorder t)) ->
  splay cmp (tree_fuel (nodes T)) key (nodes T) INIT_HOLE r0 = Ok (0, a, ns, lc) ->
  zrep ns lc (Zip L (Node t2 (a, x) t3) R) a -> only_at (locs (inorder t)) (nodes T) ns ->
  split_here key (inorder t) 0 L (Node t2 (a, x) t3) R (Some a) -> tree_rep T t fl ->
  exists o T' t' fl', sml_tree_delete T key = Ok (o, T') /\ tree_rep T' t' fl' /\
    deleted key (inorder t) (inorder t') fl fl' o.
Proof.
  intros Hroot Hs Hrun Hz Ho Hsp Hrep. assert (Hi := split_here_perm _ _ _ _ _ _ _ Hsp).
  pose proof Hrep as [Hr Hf Hnd [ids Hal]].
  assert (Hlf : forall c, c ∈ locs (inorder t) -> c ∉ fl) by (apply NoDup_app in Hnd; set_solver).
  unfold sml_tree_delete. rewrite Hroot, Hrun. simpl.
  destruct (delete_root_ok ns lc L t2 a x t3 R Hz)
    as (p & ns' & t' & Hj & Hr' & Hi' & Ho'); [by rewrite Hi; apply NoDup_app in Hnd as [? _]|by rewrite Hi|].
  apply res_bind_ok in Hj as ([nr ns1] & Hj & Hm). rewrite Hj. simpl. rewrite Hm. simpl. clear Hj Hm.
  rewrite Hi in Ho'.
  destruct Hsp as [_ [(_ & ? & ? & ? & ? & [= <- <- <- <-] & _ & Hsm & Hma & Hla)|[(? & _)|(? & _)]]];
    [|lia..].
  assert (Ho2 : only_at (locs (inorder t)) (nodes T) ns') by (by eapply only_at_trans).
  assert (Hp : locs (inorder t) ≡ₚ a :: locs (inorder t')).
  { rewrite Hi', <- Hi, <- locs_drop_middle with (x := x). unfold zinorder. simpl.
    by rewrite <- !app_assoc. }
  assert (Hain : a ∈ locs (inorder t)) by (rewrite Hp; by left).
  rewrite Hp in Hnd. simpl in Hnd. apply NoDup_cons in Hnd as [Han Hnd].
  destruct (node_reclaim_ok (set_nodes ns' T) fl a) as (ns2 & Hrec & Ho3 & Hf2 & Hst); simpl.
  { eapply frep_ext; [|exact Hf]. intros c Hc. apply Ho2. intros Hc'. by apply (Hlf c). }
  { by apply Hlf. } { apply Ho2. by eapply rep_lookup. }
  change (set_nodes ns' (set_root (Some a) (set_nodes ns T))) with (set_root (Some a) (set_nodes ns' T)).
  unfold node_reclaim in *. simpl in *. apply res_bind_ok in Hrec as (ns3 & Hsb & Heq).
  rewrite Hsb. simpl. injection Heq as ->.
  eexists _, _, t', (a :: fl). split; [done|]. split; [|unfold deleted, lookup_key; rewrite Hma; simpl;
    rewrite Hsm, Hla; split; [done|]; split; [done|]; by rewrite Hi'].
  split; simpl; [|done| |].
  - eapply rep_ext_strip; [|exact Hr']. intros c _. by rewrite Hst.
  - rewrite <- Permutation_middle. apply NoDup_cons. split; [done|]. done.
  - exists ids. apply (alloc_inv_same T); [done..| |done]. intros c. simpl.
    rewrite <- (proj2 Ho2). apply Ho3.
Qed.

(** ** The operations in terms of [tree_rep] *)
Lemma sml_tree_insert_spec `{!ItemOrder cmp} T t fl key :
  disjoint_blocks -> tree_rep T t fl -> sorted_items (items (inorder t)) ->
  exists a T' t' fl', sml_tree_insert T key = Ok (a, T') /\ tree_rep T' t' fl' /\
    inorder t' = smaller (fun e => cmp key e.2) (inorder t) ++
                 (a, key) :: larger (fun e => cmp key e.2) (inorder t).
Proof.
  intros Hdb Ht Hs.
  destruct (splay_root_ok T t fl key Ht Hs) as (n & ns & r & lc & L & t1 & R & Hrun & Hz & Ho & Hsp).
  destruct (decide (n = 0)) as [->|Hn].
  - destruct (sml_tree_insert_hit _ _ _ _ _ _ _ _ _ _ Hrun Hz Ho Hsp Ht)
      as (a & x & T' & t' & Hi & Ht' & Hin & _). by exists a, T', t', fl.
  - destruct (sml_tree_insert_miss _ _ _ _ _ _ _ _ _ _ _ Hdb Hn Hrun Hz Ho Hsp Ht)
      as (a & T' & t' & fl' & Hi & Ht' & Hin & _). by exists a, T', t', fl'.
Qed.

Lemma sml_tree_delete_spec `{!ItemOrder cmp} T t fl key :
  tree_rep T t fl -> sorted_items (items (inorder t)) ->
  exists o T' t' fl', sml_tree_delete T key = Ok (o, T') /\ tree_rep T' t' fl' /\
    deleted key (inorder t) (inorder t') fl fl' o.
Proof.
  intros Hrep Hs. pose proof (trep_root _ _ _ Hrep) as Hr.
  assert (Hnd := trep_nodup _ _ _ Hrep). apply NoDup_app in Hnd as (Hnd & _).
  destruct (root T) as [r|] eqn:Hroot.
  - destruct (splay_ok key _ _ _ Hr Hnd Hs)
      as (n & b & ns & lc & L & t2 & x & t3 & R & Hrun & Hz & Ho & Hsp & _).
    destruct (decide (n = 0)) as [->|Hn].
    + by eapply sml_tree_delete_hit.
    + destruct (sml_tree_delete_miss T t fl key n b ns lc L (Node t2 (b, x) t3) R r)
        as (o & T' & t' & ?); try done. by exists o, T', t', fl.
  - destruct t as [|? [] ?]; [|by destruct Hr]. unfold sml_tree_delete. rewrite Hroot.
    by exists None, T, Leaf, fl.
Qed.
End Ops.
