(* ===== verification/SplayIter.v ===== *)
(** * Splay trees: the traversals

    [sml_tree_each], [sml_tree_reject] and [sml_tree_rebuild] of
    src/src/runtime/splay.c.  They keep their stack in the [back] fields. *)
From Stdlib Require Import ZArith Lia.
From stdpp Require Import base option list gmap relations sorting.
From S2P Require Import Prelude SplayTree SplayHeap SplayOps.

Local Open Scope Z_scope.

Section Iter.
Context {A : Type} (cmp : A -> A -> Z).
Abbreviation elem := (Z * A)%type.
Implicit Types (t u : tree elem) (ns : gmap Z (@node A)) (fl : list loc).

(** Enough for any of the traversals: every node is entered and left once,
    and [sml_tree_rebuild] may take one more step per node. *)
Definition iter_fuel ns : nat := S (3 * size ns).

(** The locations of a node with two subtrees. *)
Lemma node_locs (l r : tree elem) a x :
  NoDup (locs (inorder (Node l (a, x) r))) <->
  NoDup (locs (inorder l)) /\ NoDup (locs (inorder r)) /\ a ∉ locs (inorder l) /\ a ∉ locs (inorder r) /\
  locs (inorder l) ## locs (inorder r).
Proof.
  simpl. rewrite locs_app, locs_cons, NoDup_app, NoDup_cons. split.
  - intros (? & Hd & ? & ?). split_and!; [done..| |done|].
    + intros Hc. apply (Hd a Hc). by left.
    + intros c Hc Hc'. apply (Hd c Hc). by right.
  - intros (? & ? & ? & ? & Hd). split_and!; [done| |done..]. intros c Hc [->|Hc']%elem_of_cons; [done|].
    by apply (Hd c).
Qed.

Lemma elem_of_node_locs (l r : tree elem) a x c :
  c ∈ locs (inorder (Node l (a, x) r)) <-> c ∈ locs (inorder l) \/ c = a \/ c ∈ locs (inorder r).
Proof. simpl. rewrite locs_app, locs_cons. set_solver. Qed.

Definition with_back (T : @sml_tree A) (a : loc) (nd : @node A) (b : backptr) : sml_tree :=
  set_nodes (<[a := MkNode (item nd) (child nd) b]> (nodes T)) T.

(** ** [sml_tree_each] *)
Section Each.
Context {St : Type} (visit : A -> St -> A * St).

Definition get_back ns (a : loc) : res nodeptr :=
  nd ← load_node ns a; node_of_back (back nd).

Fixpoint each_loop (fuel : nat) ns (st : St) (cur prev : nodeptr) : res (gmap Z (@node A) * St) :=
  match fuel with
  | O => NoFuel
  | S fuel =>
      match cur, prev with
      | None, None => Ok (ns, st)
      | Some a, _ =>
          ns ← set_back ns a (back_of_node prev);
          l ← get_child ns a LEFT;
          each_loop fuel ns st l (Some a)
      | None, Some a =>
          prev ← get_back ns a;
          x ← ITEM_OF ns a;
          let '(x, st) := visit x st in
          ns ← set_item ns a x;
          r ← get_child ns a RIGHT;
          each_loop fuel ns st r prev
      end
  end.

(** The callback [visit] gets the item and may overwrite it. *)
Definition sml_tree_each (T : sml_tree) (st : St) : res (sml_tree * St) :=
  '(ns, st) ← each_loop (iter_fuel (nodes T)) (nodes T) st (root T) None;
  Ok (set_nodes ns T, st).

Fixpoint visits (l : list elem) (st : St) : list elem * St :=
  match l with
  | [] => ([], st)
  | (a, x) :: l =>
      let '(y, st) := visit x st in
      let '(l', st) := visits l st in
      ((a, y) :: l', st)
  end.

Lemma visits_app l1 l2 st :
  visits (l1 ++ l2) st =
  ((visits l1 st).1 ++ (visits l2 (visits l1 st).2).1, (visits l2 (visits l1 st).2).2).
Proof.
  revert st. induction l1 as [|[a x] l1 IH]; intros st; simpl; [by destruct (visits l2 st)|].
  destruct (visit x st) as [y st1]. rewrite IH. by destruct (visits l1 st1).
Qed.

Lemma visits_locs l st : locs (visits l st).1 = locs l.
Proof.
  revert st. induction l as [|[a x] l IH]; intros st; simpl; [done|].
  destruct (visit x st) as [y st1]. specialize (IH st1).
  destruct (visits l st1) as [l' st2]. change (a :: locs l' = a :: locs l). by f_equal.
Qed.

(** The traversal of the subtree [u]: the children are kept and the items
    become those of [l]. *)
Record visited (l : list elem) ns ns' : Prop := {
  visited_only : only_at (locs l) ns ns';
  visited_child a : child <$> ns' !! a = child <$> ns !! a;
  visited_item a y : (a, y) ∈ l -> item <$> ns' !! a = Some (Some y)
}.

Lemma visited_rep l ns ns' p t :
  visited l ns ns' -> rep ns p t -> locs l = locs (inorder t) ->
  exists t', rep ns' p t' /\ inorder t' = l.
Proof.
  intros [_ Hc Hi]. revert l p Hi. induction t as [|t1 IH1 [a x] t2 IH2]; intros l p Hi.
  { intros -> Hl. exists Leaf. split; [done|]. by destruct l. }
  intros (-> & nd & Hn & _ & H1 & H2) Hl. simpl in Hl. rewrite locs_app, locs_cons in Hl.
  unfold locs in Hl at 1. apply fmap_app_inv in Hl as (l1 & l2 & Hl1 & Hl2 & ->).
  destruct l2 as [|[b y] l2]; [done|]. simpl in Hl2. injection Hl2 as <- Hl2.
  destruct (IH1 l1 _ ltac:(intros; apply Hi; set_solver) H1 (eq_sym Hl1)) as (t1' & Hr1 & <-).
  destruct (IH2 l2 _ ltac:(intros; apply Hi; set_solver) H2 (eq_sym Hl2)) as (t2' & Hr2 & <-).
  exists (Node t1' (a, y) t2'). split; [|done].
  assert (Hca := Hc a). rewrite Hn in Hca. assert (Hia := Hi a y ltac:(set_solver)).
  destruct (ns' !! a) as [nd'|] eqn:Hn'; [|done]. simpl in *. injection Hca as Hca.
  injection Hia as Hia. split; [done|]. exists nd'. rewrite Hca. done.
Qed.

Lemma sorted_items_sublist (l1 l2 : list elem) :
  l1 `sublist_of` l2 -> sorted_items cmp (items l2) -> sorted_items cmp (items l1).
Proof.
  unfold sorted_items, items. induction 1 as [|e l1 l2 Hsub IH|e l1 l2 Hsub IH]; simpl; [done| |];
    intros [Hs HF]%StronglySorted_inv; [|by apply IH]. constructor; [by apply IH|].
  rewrite Forall_forall in HF |- *. intros y Hy. apply HF.
  eapply elem_of_submseteq; [exact Hy|]. by apply sublist_submseteq, fmap_sublist.
Qed.

Lemma visited_nil ns : visited [] ns ns.
Proof. split; [apply only_at_refl|done|]. intros a y Ha. by apply elem_of_nil in Ha. Qed.

Lemma visited_app l1 l2 ns1 ns2 ns3 :
  locs l1 ## locs l2 -> visited l1 ns1 ns2 -> visited l2 ns2 ns3 -> visited (l1 ++ l2) ns1 ns3.
Proof.
  intros Hd [O1 C1 I1] [O2 C2 I2]. split.
  - rewrite locs_app. apply only_at_trans with ns2; [apply (only_at_mono (locs l1))|apply (only_at_mono (locs l2))];
      try done; intros b Hb; apply elem_of_app; auto.
  - intros a. by rewrite C2.
  - intros a y [Hy|Hy]%elem_of_app; [|by apply I2].
    rewrite (proj1 O2); [by apply I1|]. intros Ha. apply (Hd a); [|done].
    unfold locs. apply list_elem_of_fmap. by exists (a, y).
Qed.

(** Storing back pointers does not matter. *)
Lemma visited_back ns0 ns a nd b l ns' :
  ns0 !! a = Some nd -> ns = <[a := MkNode (item nd) (child nd) b]> ns0 ->
  a ∈ locs l -> visited l ns ns' -> visited l ns0 ns'.
Proof.
  intros Hn -> Ha [O C I]. split; [| |done].
  - eapply only_at_trans; [|exact O]. by apply only_at_insert with nd.
  - intros c. rewrite C, lookup_insert. case_decide; [subst; by rewrite Hn|done].
Qed.

Lemma visited_one ns a nd y :
  ns !! a = Some nd -> visited [(a, y)] ns (<[a := MkNode (Some y) (child nd) (back nd)]> ns).
Proof.
  intros Hn. split.
  - apply only_at_insert with nd; [done|]. by left.
  - intros c. rewrite lookup_insert. case_decide; [subst; by rewrite Hn|done].
  - intros c z Hc. apply list_elem_of_singleton in Hc as [= -> ->]. by rewrite lookup_insert_eq.
Qed.

Lemma visits_node (l r : tree elem) a x y st st3 :
  visit x (visits (inorder l) st).2 = (y, st3) ->
  visits (inorder (Node l (a, x) r)) st =
    ((visits (inorder l) st).1 ++ (a, y) :: (visits (inorder r) st3).1, (visits (inorder r) st3).2).
Proof. intros Hv. simpl inorder. rewrite visits_app. simpl. rewrite Hv. by destruct (visits (inorder r) st3). Qed.

(** A node between two visited subtrees. *)
Lemma visited_node (l1 l2 : list elem) a nd b y ns ns2 ns4 :
  ns !! a = Some nd -> a ∉ locs l1 -> a ∉ locs l2 -> locs l1 ## locs l2 ->
  visited l1 (<[a := MkNode (item nd) (child nd) b]> ns) ns2 ->
  visited l2 (<[a := MkNode (Some y) (child nd) b]> ns2) ns4 ->
  ns2 !! a = Some (MkNode (item nd) (child nd) b) /\ visited (l1 ++ (a, y) :: l2) ns ns4.
Proof.
  intros Hn Ha1 Ha2 Hd V1 V2.
  assert (Hn2 : ns2 !! a = Some (MkNode (item nd) (child nd) b))
    by (rewrite (proj1 (visited_only _ _ _ V1)) by done; apply lookup_insert_eq).
  split; [done|]. eapply visited_back; [exact Hn|reflexivity|rewrite locs_app, locs_cons; set_solver|].
  eapply visited_app; [|exact V1|eapply (visited_app [(a, y)]); [|by apply (visited_one _ _ _ _ Hn2)|exact V2]].
  - rewrite locs_cons. intros c Hc [->|Hc']%elem_of_cons; [done|by apply (Hd c)].
  - by intros c ->%list_elem_of_singleton.
Qed.

Lemma each_tree u : forall f ns st p prev,
  rep ns p u -> NoDup (locs (inorder u)) ->
  exists ns', each_loop (tsize u + tsize u + f) ns st p prev =
              each_loop f ns' (visits (inorder u) st).2 None prev /\
    visited (visits (inorder u) st).1 ns ns'.
Proof.
  induction u as [|l IHl [a x] r IHr]; intros f ns st p prev Hr Hnd.
  { simpl in Hr. subst p. exists ns. split; [done|]. apply visited_nil. }
  destruct Hr as (-> & nd & Hn & Hi & Hl & Hr). apply node_locs in Hnd as (Hndl & Hndr & Hal & Har & Hlr).
  set (nd1 := MkNode (item nd) (child nd) (back_of_node prev)).
  destruct (IHl (S (tsize r + tsize r + f)) (<[a := nd1]> ns) st (pick LEFT (child nd)) (Some a)) as (ns2 & E2 & V2);
    [eapply rep_ext; [|exact Hl]; intros c Hc; apply lookup_insert_ne; by intros <-|done|].
  destruct (visit x (visits (inorder l) st).2) as [y st3] eqn:Hv.
  rewrite (visits_node _ _ _ _ _ _ _ Hv), tsize_node. cbn [fst snd].
  set (ns3 := <[a := MkNode (Some y) (child nd) (back_of_node prev)]> ns2).
  destruct (IHr f ns3 st3 (pick RIGHT (child nd)) prev) as (ns4 & E4 & V4); [|done|].
  { eapply rep_ext; [|exact Hr]. intros c Hc. unfold ns3. rewrite lookup_insert_ne by (by intros <-).
    rewrite (proj1 (visited_only _ _ _ V2)); [apply lookup_insert_ne; by intros <-|].
    rewrite visits_locs. intros Hc'. by apply (Hlr c). }
  destruct (visited_node (visits (inorder l) st).1 (visits (inorder r) st3).1 a nd (back_of_node prev) y ns ns2 ns4 Hn)
    as [Hn2 V]; rewrite ?visits_locs; try done.
  exists ns4. split; [|done].
  replace (S (tsize l + tsize r) + S (tsize l + tsize r) + f)%nat
    with (S (tsize l + tsize l + S (tsize r + tsize r + f))) by lia.
  cbn [each_loop]. unfold set_back at 1, load_node. rewrite Hn. simpl. fold nd1.
  rewrite (get_child_ok _ a nd1 LEFT) by apply lookup_insert_eq. cbn [mbind res_bind].
  change (child nd1) with (child nd). rewrite E2. cbn [each_loop]. unfold get_back, load_node. rewrite Hn2. simpl.
  assert (node_of_back (back_of_node prev) = Ok prev) as -> by (by destruct prev). simpl.
  rewrite (ITEM_OF_ok _ _ _ x Hn2 Hi). simpl. rewrite Hv.
  unfold set_item, load_node. rewrite Hn2. simpl. fold ns3.
  unfold ns3 at 1. erewrite get_child_ok by apply lookup_insert_eq. cbn [mbind res_bind child]. apply E4.
Qed.

Lemma sml_tree_each_spec xmalloc T t fl st :
  tree_rep xmalloc T t fl ->
  exists T' t', sml_tree_each T st = Ok (T', (visits (inorder t) st).2) /\
    tree_rep xmalloc T' t' fl /\ inorder t' = (visits (inorder t) st).1.
Proof.
  intros Hrep. pose proof Hrep as [Hr Hf Hnd Ha]. apply NoDup_app in Hnd as (Hnd & _).
  assert (Hfuel := tree_fuel_enough _ _ _ Hr Hnd). unfold tree_fuel in Hfuel.
  destruct (each_tree t (S (3 * size (nodes T) - (tsize t + tsize t))) (nodes T) st _ None Hr Hnd)
    as (ns' & Hrun & V).
  destruct (visited_rep _ _ _ _ _ V Hr) as (t' & Hr' & Hi'); [apply visits_locs|].
  exists (set_nodes ns' T), t'. split.
  - unfold sml_tree_each, iter_fuel.
    replace (S (3 * size (nodes T))) with
      (tsize t + tsize t + S (3 * size (nodes T) - (tsize t + tsize t)))%nat by lia.
    by rewrite Hrun.
  - split; [|done]. change (set_nodes ns' T) with (set_root (root T) (set_nodes ns' T)).
    eapply tree_rep_same; [exact Hrep| | |exact Hr'].
    + rewrite <- (visits_locs (inorder t) st). apply V.
    + by rewrite Hi', visits_locs.
Qed.
End Each.

(** ** [sml_tree_reject] *)
Section Reject.
Context {St : Type} (reject : A -> St -> bool * St).

Definition read_slot (T : @sml_tree A) (s : slot) : res nodeptr :=
  match s with
  | SlotRoot => Ok (root T)
  | SlotChild a d => get_child (nodes T) a d
  end.
Definition write_slot (T : @sml_tree A) (s : slot) (v : nodeptr) : res sml_tree :=
  match s with
  | SlotRoot => Ok (set_root v T)
  | SlotChild a d => ns ← set_child (nodes T) a d v; Ok (set_nodes ns T)
  end.
Definition back_of_slot (p : option slot) : backptr :=
  match p with None => BackNull | Some s => BackSlot s end.
Definition slot_of_back (b : backptr) : res (option slot) :=
  match b with
  | BackNull => Ok None
  | BackSlot s => Ok (Some s)
  | BackNode _ => Fault
  end.

Fixpoint reject_loop (fuel : nat) (T : sml_tree) (st : St) (cur : slot) (prev : option slot)
  : res (sml_tree * St) :=
  match fuel with
  | O => NoFuel
  | S fuel =>
      n ← read_slot T cur;
      match n, prev with
      | None, None => Ok (T, st)
      | Some a, _ =>
          ns ← set_back (nodes T) a (back_of_slot prev);
          reject_loop fuel (set_nodes ns T) st (SlotChild a LEFT) (Some cur)
      | None, Some cur =>
          a ← read_slot T cur;
          a ← deref a;
          nd ← load_node (nodes T) a;
          prev ← slot_of_back (back nd);
          x ← ITEM_OF (nodes T) a;
          let '(rej, st) := reject x st in
          if negb rej then reject_loop fuel T st (SlotChild a RIGHT) prev
          else
            T ← node_reclaim T a;
            l ← get_child (nodes T) a LEFT;
            match l with
            | None =>
                r ← get_child (nodes T) a RIGHT;
                T ← write_slot T cur r;
                reject_loop fuel T st cur prev
            | Some _ =>
                '(j, ns) ← join cmp (nodes T) a;
                T ← write_slot (set_nodes ns T) cur j;
                m ← deref j;
                reject_loop fuel T st (SlotChild m RIGHT) prev
            end
      end
  end.

(** The callback [reject] may read the item and has a state of its own. *)
Definition sml_tree_reject (T : sml_tree) (st : St) : res (sml_tree * St) :=
  reject_loop (iter_fuel (nodes T)) T st SlotRoot None.

(** The items kept and those rejected. *)
Fixpoint rejects (l : list elem) (st : St) : list elem * list elem * St :=
  match l with
  | [] => ([], [], st)
  | e :: l =>
      let '(rej, st) := reject e.2 st in
      let '(ks, rs, st) := rejects l st in
      if rej then (ks, e :: rs, st) else (e :: ks, rs, st)
  end.
Definition kept l st := (rejects l st).1.1.
Definition rejected l st := (rejects l st).1.2.
Definition reject_state l st := (rejects l st).2.

Lemma rejects_app l1 l2 st :
  rejects (l1 ++ l2) st =
  let '(k1, r1, st) := rejects l1 st in
  let '(k2, r2, st) := rejects l2 st in (k1 ++ k2, r1 ++ r2, st).
Proof.
  revert st. induction l1 as [|e l1 IH]; intros st; simpl; [by destruct (rejects l2 st) as [[]]|].
  destruct (reject e.2 st) as [rej st1]. rewrite IH.
  destruct (rejects l1 st1) as [[k1 r1] st2].
  destruct rej; by destruct (rejects l2 st2) as [[k2 r2] st3].
Qed.

Lemma rejects_perm l st : kept l st ++ rejected l st ≡ₚ l.
Proof.
  unfold kept, rejected. revert st. induction l as [|e l IH]; intros st; simpl; [done|].
  destruct (reject e.2 st) as [rej st1]. specialize (IH st1).
  destruct (rejects l st1) as [[k1 r1] st2]. simpl in *.
  destruct rej; simpl; rewrite <- IH; [by rewrite Permutation_middle|done].
Qed.

Lemma kept_sublist l st : kept l st `sublist_of` l.
Proof.
  unfold kept. revert st. induction l as [|e l IH]; intros st; simpl; [done|].
  destruct (reject e.2 st) as [rej st1]. specialize (IH st1).
  destruct (rejects l st1) as [[k1 r1] st2]. simpl in *.
  destruct rej; simpl; by constructor.
Qed.

Definition slot_locs (s : slot) : list loc :=
  match s with SlotRoot => [] | SlotChild c _ => [c] end.

(** [T'] differs from [T] in the slot [s] and the nodes of [L]. *)
Record frame (s : slot) (L : list loc) (T T' : @sml_tree A) : Prop := {
  frame_only : only_at (slot_locs s ++ L) (nodes T) (nodes T');
  frame_owner c d nd : s = SlotChild c d -> nodes T !! c = Some nd ->
    exists nd', nodes T' !! c = Some nd' /\ item nd' = item nd /\ back nd' = back nd /\
                pick (OPP d) (child nd') = pick (OPP d) (child nd);
  frame_root : s <> SlotRoot -> root T' = root T;
  frame_sizes : item_size T' = item_size T /\ alloc_size T' = alloc_size T;
  frame_alloc : chunks T' = chunks T /\ mallocs T' = mallocs T
}.

Lemma frame_trans s L T1 T2 T3 : frame s L T1 T2 -> frame s L T2 T3 -> frame s L T1 T3.
Proof.
  intros [O1 N1 R1 [] []] [O2 N2 R2 [] []]. split; [by eapply only_at_trans| | |by split; etrans|by split; etrans].
  - intros c d nd Hs Hn. destruct (N1 _ _ _ Hs Hn) as (nd1 & Hn1 & ? & ? & ?).
    destruct (N2 _ _ _ Hs Hn1) as (nd2 & ? & ? & ? & ?).
    exists nd2. split_and!; congruence.
  - intros Hs. by rewrite R2, R1.
Qed.

Lemma frame_mono s L L' T T' : L ⊆ L' -> frame s L T T' -> frame s L' T T'.
Proof. intros Hs [O N R S1 S2]. split; [|done..]. eapply only_at_mono; [|exact O]. set_solver. Qed.

(** A change that stays inside [L] is a change of any slot outside it. *)
Lemma frame_inside s s' L L' T T' :
  frame s' L' T T' -> s' <> SlotRoot -> slot_locs s' ++ L' ⊆ L -> slot_locs s ## L -> frame s L T T'.
Proof.
  intros [O _ R Hs Ha] Hs' Hsub Hdis. split; [| |by intros _; apply R|done|done].
  - eapply only_at_mono; [|exact O]. intros b Hb. apply elem_of_app. right. by apply Hsub.
  - intros c d nd -> Hn. exists nd. split; [|done]. rewrite (proj1 O); [done|].
    intros Hc. apply Hsub in Hc. apply (Hdis c); [by left|done].
Qed.

Lemma frame_nodes s L T ns f :
  only_at L (nodes T) ns -> slot_locs s ## L -> frame s L T (set_freelist f (set_nodes ns T)).
Proof.
  intros O Hdis. split; simpl; [| |done|done|done].
  - eapply only_at_mono; [|exact O]. intros b Hb. apply elem_of_app. by right.
  - intros c d nd -> Hn. exists nd. split; [|done]. rewrite (proj1 O); [done|].
    intros Hc. apply (Hdis c); [by left|done].
Qed.

Lemma write_slot_ok s L T v :
  (forall c, c ∈ slot_locs s -> is_Some (nodes T !! c)) ->
  exists T', write_slot T s v = Ok T' /\ frame s L T T' /\ read_slot T' s = Ok v /\
    freelist T' = freelist T /\ only_at (slot_locs s) (nodes T) (nodes T').
Proof.
  destruct s as [|c d]; simpl; intros Hs.
  - exists (set_root v T). split; [done|]. split; [|by repeat split].
    split; simpl; [apply only_at_refl|done..].
  - destruct (Hs c) as [nd Hn]; [by left|]. rewrite (set_child_ok _ _ _ _ _ Hn). simpl.
    eexists. split; [done|].
    assert (O : only_at [c] (nodes T) (<[c := MkNode (item nd) (put d v (child nd)) (back nd)]> (nodes T)))
      by (apply only_at_insert with nd; [done|by left]).
    split; [|split; [|split; [done|exact O]]].
    + split; simpl; [|  |done|done|done].
      * eapply only_at_mono; [|exact O]. set_solver.
      * intros c' d' nd' [= <- <-] Hn'. rewrite Hn in Hn'. injection Hn' as <-.
        eexists. rewrite lookup_insert_eq. split; [done|]. simpl. by rewrite pick_OPP_put.
    + unfold get_child, load_node. simpl. rewrite lookup_insert_eq. simpl. by rewrite pick_put.
Qed.

Lemma frame_read s L T T' v :
  only_at L (nodes T) (nodes T') -> (s = SlotRoot -> root T' = root T) -> slot_locs s ## L ->
  read_slot T s = Ok v -> read_slot T' s = Ok v.
Proof.
  intros O R Hd. destruct s as [|c d]; simpl; [by rewrite R|].
  unfold get_child, load_node. rewrite (proj1 O); [done|]. intros Hc. apply (Hd c); [by left|done].
Qed.

(** Once the subtree in the slot [s3] is done, the slot [s] holds a tree with
    the elements [ks] before those of [s3]. *)
Definition closes (s s3 : slot) (ks : list elem) (L Lr : list loc) (T3 : sml_tree) : Prop :=
  forall T4 p4 r4, frame s3 Lr T3 T4 -> read_slot T4 s3 = Ok p4 -> rep (nodes T4) p4 r4 ->
  exists p' u', read_slot T4 s = Ok p' /\ rep (nodes T4) p' u' /\
    inorder u' = ks ++ inorder r4 /\ frame s L T3 T4.

Lemma closes_same s L Lr T : Lr ⊆ L -> closes s s [] L Lr T.
Proof.
  intros Hsub T4 p4 r4 [O N R S1 S2] Hp Hr. exists p4, r4. split; [done|]. split; [done|].
  split; [done|]. split; [|done..]. eapply only_at_mono; [|exact O]. set_solver.
Qed.

Lemma closes_right s b nd y l L Lr T :
  read_slot T s = Ok (Some b) -> nodes T !! b = Some nd -> item nd = Some y ->
  rep (nodes T) (at_left (child nd)) l -> locs (inorder l) ## b :: Lr -> slot_locs s ## L ->
  b :: Lr ⊆ L -> closes s (SlotChild b RIGHT) (inorder l ++ [(b, y)]) L Lr T.
Proof.
  intros Hs Hn Hi Hl Hd Hsl Hsub T4 p4 r4 F Hp Hr. pose proof F as [O N R S1 S2].
  assert (F' : frame s L T T4) by (eapply frame_inside; done).
  destruct (N b RIGHT nd eq_refl Hn) as (nd4 & Hn4 & Hi4 & _ & Hc4).
  exists (Some b), (Node l (b, y) r4). split.
  { eapply (frame_read s (b :: Lr)); [exact O|intros _; by apply R| |exact Hs]. set_solver. }
  split; [|split; [simpl; by rewrite <- app_assoc|done]].
  split; [done|]. exists nd4. split; [done|]. split; [congruence|]. simpl in Hc4. split.
  - simpl. rewrite Hc4. eapply rep_only_at; [exact O| |exact Hl]. set_solver.
  - simpl in Hp. rewrite (get_child_ok _ _ _ RIGHT Hn4) in Hp. by injection Hp as <-.
Qed.

(** What the loop does with a node whose left subtree is done. *)
Definition after_left (s : slot) (L : list loc) (T : sml_tree) (l r : tree elem) (a : loc) (x : A)
    (fl : list loc) (rej : bool) (rp : nodeptr) (T3 : sml_tree) (s3 : slot) : Prop :=
  read_slot T3 s3 = Ok rp /\ rep (nodes T3) rp r /\
  frep (nodes T3) (freelist T3) ((if rej then [a] else []) ++ fl) /\
  frame s L T T3 /\
  closes s s3 (inorder l ++ if rej then [] else [(a, x)]) L (locs (inorder r)) T3 /\
  slot_locs s3 ## locs (inorder r) ++ (if rej then [a] else []) ++ fl.

Record ready (s : slot) (L : list loc) (T : sml_tree) (l r : tree elem) (a : loc) (x : A) (nd : @node A)
    (fl : list loc) : Prop := {
  ready_slot : read_slot T s = Ok (Some a);
  ready_node : nodes T !! a = Some nd;
  ready_rep : rep (nodes T) (Some a) (Node l (a, x) r);
  ready_free : frep (nodes T) (freelist T) fl;
  ready_nodup : NoDup (locs (inorder (Node l (a, x) r)));
  ready_slot_free : slot_locs s ## fl;
  ready_free_dis : forall c, c ∈ L -> c ∉ fl;
  ready_inside : locs (inorder (Node l (a, x) r)) ⊆ L;
  ready_slot_dis : slot_locs s ## L;
  ready_sorted : sorted_items cmp (items (inorder (Node l (a, x) r)))
}.

Lemma ready_facts s L T l r a x nd fl :
  ready s L T l r a x nd fl ->
  item nd = Some x /\ rep (nodes T) (at_left (child nd)) l /\ rep (nodes T) (at_right (child nd)) r /\
  a ∈ L /\ locs (inorder l) ⊆ L /\ locs (inorder r) ⊆ L /\
  a ∉ locs (inorder l) /\ a ∉ locs (inorder r) /\ locs (inorder l) ## locs (inorder r).
Proof.
  intros [_ Hn (_ & nd' & Hn' & Hi & Hl & Hr) _ Hnd _ _ Hin _ _]. rewrite Hn in Hn'.
  injection Hn' as <-. simpl in Hnd, Hin. rewrite locs_app, locs_cons in Hnd, Hin.
  apply NoDup_app in Hnd as (_ & Hd & Hnd). apply NoDup_cons in Hnd as [Har _].
  split; [done|]. split; [done|]. split; [done|].
  split; [apply Hin; set_solver|]. split; [set_solver|]. split; [set_solver|].
  split; [intros Hc; by destruct (Hd a Hc (list_elem_of_here _ _))|]. split; [done|].
  intros c Hc Hc'. apply (Hd c Hc). by right.
Qed.

Lemma after_left_kept s L T l r a x nd fl :
  ready s L T l r a x nd fl ->
  after_left s L T l r a x fl false (at_right (child nd)) T (SlotChild a RIGHT).
Proof.
  intros Hrd. destruct (ready_facts _ _ _ _ _ _ _ _ _ Hrd) as (Hi & Hl & Hr & Ha & HlL & HrL & Hal & Har & Hlr).
  pose proof Hrd as [Hs Hn _ Hf _ Hsf HLf _ Hsd _].
  split; [simpl; by rewrite (get_child_ok _ _ _ _ Hn)|]. split; [done|]. split; [done|].
  split; [split; eauto; apply only_at_refl|]. split.
  - eapply closes_right; try done; [|set_solver]. set_solver.
  - specialize (HLf a Ha). simpl. set_solver.
Qed.

Lemma after_left_reject_leaf s L T r a x nd fl T3 T4 :
  ready s L T Leaf r a x nd fl -> write_slot T3 s (at_right (child nd)) = Ok T4 ->
  frame s L T T3 -> frep (nodes T3) (freelist T3) (a :: fl) -> only_at [a] (nodes T) (nodes T3) ->
  after_left s L T Leaf r a x fl true (at_right (child nd)) T4 s.
Proof.
  intros Hrd Hw F3 Hf3 O3.
  destruct (ready_facts _ _ _ _ _ _ _ _ _ Hrd) as (Hi & Hl & Hr & Ha & HlL & HrL & Hal & Har & Hlr).
  pose proof Hrd as [Hs Hn _ Hf _ Hsf HLf _ Hsd _].
  destruct (write_slot_ok s L T3 (at_right (child nd))) as (T4' & Hw' & F4 & Hrd4 & Hfl4 & O4).
  { intros c Hc. apply (proj2 O3). destruct s as [|c' d]; [by apply elem_of_nil in Hc|].
    apply list_elem_of_singleton in Hc as ->. simpl in Hs. unfold get_child, load_node in Hs.
    destruct (nodes T !! c'); [eauto|done]. }
  rewrite Hw in Hw'. injection Hw' as <-.
  split; [done|]. split; [|split; [|split; [by eapply frame_trans|split; [by apply closes_same|]]]].
  - eapply rep_only_at; [exact O4| |]; [set_solver|].
    eapply rep_only_at; [exact O3| |exact Hr]. set_solver.
  - rewrite Hfl4. eapply frep_ext; [|exact Hf3]. intros c Hc. apply (proj1 O4).
    intros Hc'. apply elem_of_cons in Hc as [->|Hc]; [by apply (Hsd a)|by apply (Hsf c)].
  - simpl. set_solver.
Qed.

Lemma rep_ptr ns ns' p p' (t : tree elem) : rep ns p t -> rep ns' p' t -> p = p'.
Proof. destruct t as [|? [] ?]; simpl; naive_solver. Qed.

Lemma slot_owner s T v c : read_slot T s = Ok v -> c ∈ slot_locs s -> is_Some (nodes T !! c).
Proof.
  destruct s as [|c' d]; simpl; intros Hs Hc; [by apply elem_of_nil in Hc|].
  apply list_elem_of_singleton in Hc as ->. unfold get_child, load_node in Hs.
  destruct (nodes T !! c'); [eauto|done].
Qed.

Lemma after_left_reject_join `{!ItemOrder cmp} s L T l1 e1 r1 r a x nd fl T3 :
  ready s L T (Node l1 e1 r1) r a x nd fl ->
  frame s L T T3 -> frep (nodes T3) (freelist T3) (a :: fl) -> only_at [a] (nodes T) (nodes T3) ->
  (forall c, strip <$> nodes T3 !! c = strip <$> nodes T !! c) ->
  exists b ns4 T5, join cmp (nodes T3) a = Ok (Some b, ns4) /\
    write_slot (set_nodes ns4 T3) s (Some b) = Ok T5 /\
    after_left s L T (Node l1 e1 r1) r a x fl true (at_right (child nd)) T5 (SlotChild b RIGHT).
Proof.
  intros Hrd F3 Hf3 O3 Hst. set (l := Node l1 e1 r1) in *.
  destruct (ready_facts _ _ _ _ _ _ _ _ _ Hrd) as (Hi & Hl & Hr & Ha & HlL & HrL & Hal & Har & Hlr).
  pose proof Hrd as [Hs Hn Hrep Hf Hnd Hsf HLf _ Hsd Hsort].
  assert (Hrep3 : rep (nodes T3) (Some a) (Node l (a, x) r))
    by (eapply rep_ext_strip; [|exact Hrep]; auto).
  destruct (join_ok cmp (nodes T3) a x l r Hrep3 Hnd Hsort)
    as (j & ns4 & t' & Hj & Hr4 & Hi4 & Ho4 & l' & b & y & -> & ->).
  clearbody l. rewrite locs_app in Ho4. simpl in Hi4.
  assert (Hil : inorder l' ++ [(b, y)] = inorder l).
  { apply (app_inv_tail (inorder r)). rewrite <- app_assoc. exact Hi4. }
  assert (Hbl : b ∈ locs (inorder l)) by (rewrite <- Hil, locs_app, locs_cons; set_solver).
  assert (Hl'b : forall c, c ∈ locs (inorder l') -> c ∈ locs (inorder l) /\ c <> b).
  { intros c Hc. rewrite <- Hil, locs_app, locs_cons. split; [set_solver|]. intros ->.
    simpl in Hnd. rewrite <- Hil, !locs_app in Hnd. apply NoDup_app in Hnd as [Hnd _].
    apply NoDup_app in Hnd as (_ & Hd & _). apply (Hd b Hc). by left. }
  assert (F4 : frame s L T3 (set_nodes ns4 T3)).
  { apply (frame_nodes s L T3 ns4 (freelist T3)); [|done]. eapply only_at_mono; [|exact Ho4]. set_solver. }
  destruct (write_slot_ok s L (set_nodes ns4 T3) (Some b)) as (T5 & Hw & F5 & Hrd5 & Hfl5 & O5).
  { intros c Hc. simpl. apply (proj2 Ho4), (proj2 O3). by eapply slot_owner. }
  assert (Hr5 : rep (nodes T5) (Some b) (Node l' (b, y) r)).
  { eapply rep_only_at; [exact O5| |exact Hr4]. simpl. rewrite Hi4, locs_app. set_solver. }
  pose proof Hr5 as (_ & nd5 & Hn5 & Hi5 & Hl5 & Hrr5).
  assert (Hrr := rep_ptr _ _ _ _ _ Hr Hrr5).
  exists b, ns4, T5. split; [done|]. split; [done|].
  assert (HF : frame s L T T5) by (eapply frame_trans; [exact F3|by eapply frame_trans]).
  split; [simpl; rewrite (get_child_ok _ _ _ _ Hn5); by f_equal|]. split; [by rewrite Hrr|].
  split; [|split; [done|split]].
  - rewrite Hfl5. eapply frep_ext; [|exact Hf3]. intros c Hc. simpl.
    assert (c ∉ slot_locs s /\ c ∉ locs (inorder l) ++ locs (inorder r)) as [H1 H2].
    { apply elem_of_cons in Hc as [->|Hc]; [split; [set_solver|]; by apply not_elem_of_app|].
      split; [set_solver|]. intros Hc'. apply (HLf c); [set_solver|done]. }
    rewrite (proj1 O5) by done. by apply Ho4.
  - rewrite app_nil_r, <- Hil. eapply closes_right; try done.
    + intros c Hc Hc'. apply Hl'b in Hc as [Hc1 Hc2]. apply elem_of_cons in Hc' as [?|Hc']; [done|].
      by apply (Hlr c).
    + set_solver.
  - simpl. specialize (HLf b). set_solver.
Qed.

(** One visit of a node after its left subtree. *)
Lemma reject_node `{!ItemOrder cmp} f s s2 L T l r a x nd fl st prev :
  ready s L T l r a x nd fl -> back nd = back_of_slot prev -> read_slot T s2 = Ok None ->
  exists T3 s3,
    reject_loop (S f) T st s2 (Some s) = reject_loop f T3 (reject x st).2 s3 prev /\
    after_left s L T l r a x fl (reject x st).1 (at_right (child nd)) T3 s3.
Proof.
  intros Hrd Hb Hs2.
  destruct (ready_facts _ _ _ _ _ _ _ _ _ Hrd) as (Hi & Hl & Hr & Ha & HlL & HrL & Hal & Har & Hlr).
  pose proof Hrd as [Hs Hn _ Hf _ Hsf HLf _ Hsd _].
  cbn [reject_loop]. rewrite Hs2. cbn [mbind res_bind]. rewrite Hs. simpl. unfold load_node at 1. rewrite Hn.
  simpl. assert (Hsb : slot_of_back (back nd) = Ok prev) by (rewrite Hb; by destruct prev).
  rewrite Hsb. simpl. rewrite (ITEM_OF_ok _ _ _ x Hn Hi). simpl.
  destruct (reject x st) as [[] st']; simpl; [|by exists T, (SlotChild a RIGHT); split; [|apply after_left_kept]].
  destruct (node_reclaim_ok T fl a Hf (HLf a Ha) (mk_is_Some _ _ Hn)) as (ns3 & Hrec & O3 & Hf3 & Hst).
  rewrite Hrec. simpl. set (T3 := set_freelist (Some a) (set_nodes ns3 T)) in *.
  assert (F3 : frame s L T T3).
  { apply frame_nodes; [|done]. eapply only_at_mono; [|exact O3]. set_solver. }
  assert (Hn3 : exists nd3, ns3 !! a = Some nd3 /\ child nd3 = child nd).
  { specialize (Hst a). rewrite Hn in Hst. destruct (ns3 !! a) as [nd3|]; [|done].
    exists nd3. split; [done|]. unfold strip in Hst. simpl in Hst. by injection Hst. }
  destruct Hn3 as (nd3 & Hn3 & Hc3). rewrite (get_child_ok ns3 a nd3 LEFT Hn3). simpl. rewrite Hc3.
  destruct l as [|l1 e1 r1].
  - simpl in Hl. rewrite Hl. rewrite (get_child_ok ns3 a nd3 RIGHT Hn3). simpl. rewrite Hc3.
    destruct (write_slot_ok s L T3 (at_right (child nd))) as (T4 & Hw & _ & _).
    { intros c Hc. apply (proj2 O3). by eapply slot_owner. }
    rewrite Hw. simpl. exists T4, s. split; [done|]. by eapply after_left_reject_leaf.
  - destruct (after_left_reject_join s L T l1 e1 r1 r a x nd fl T3 Hrd F3 Hf3 O3 Hst)
      as (b & ns4 & T5 & Hj & Hw & Haf).
    destruct e1 as [b1 y1]. rewrite (proj1 Hl). simpl in Hj. rewrite Hj. simpl. rewrite Hw. simpl.
    by exists T5, (SlotChild b RIGHT).
Qed.

(** The slot [s] holds the tree [u]; the nodes of [fl] are free. *)
Record holds (s : slot) (T : @sml_tree A) (p : nodeptr) (u : tree elem) (fl : list loc) : Prop := {
  holds_slot : read_slot T s = Ok p;
  holds_rep : rep (nodes T) p u;
  holds_free : frep (nodes T) (freelist T) fl;
  holds_nodup : NoDup (locs (inorder u));
  holds_slot_dis : slot_locs s ## locs (inorder u);
  holds_slot_free : slot_locs s ## fl;
  holds_free_dis : locs (inorder u) ## fl;
  holds_sorted : sorted_items cmp (items (inorder u))
}.

Definition freed (l : list elem) (st : St) (fl : list loc) : list loc :=
  reverse (locs (rejected l st)) ++ fl.

(** The subtree [u] in the slot [s] of [T] is done: [s] holds [u'] in [T'],
    and the loop is at the empty slot [s']. *)
Record swept (s : slot) (T : @sml_tree A) (u : tree elem) (st : St) (fl : list loc)
    (T' : @sml_tree A) (s' : slot) (u' : tree elem) (p' : nodeptr) : Prop := {
  swept_end : read_slot T' s' = Ok None;
  swept_slot : read_slot T' s = Ok p';
  swept_rep : rep (nodes T') p' u';
  swept_inorder : inorder u' = kept (inorder u) st;
  swept_free : frep (nodes T') (freelist T') (freed (inorder u) st fl);
  swept_frame : frame s (locs (inorder u)) T T'
}.

Lemma holds_node s T l a x r fl p :
  holds s T p (Node l (a, x) r) fl ->
  p = Some a /\ exists nd : @node A, nodes T !! a = Some nd /\ item nd = Some x /\
    rep (nodes T) (at_left (child nd)) l /\ rep (nodes T) (at_right (child nd)) r.
Proof. intros [_ (-> & nd & ? & ? & ? & ?) _ _ _ _ _ _]. eauto 10. Qed.

(** Going down to the left. *)
Lemma holds_left s T p l a x r fl nd b :
  holds s T p (Node l (a, x) r) fl -> nodes T !! a = Some nd ->
  holds (SlotChild a LEFT) (with_back T a nd b) (at_left (child nd)) l fl /\
  frame s (locs (inorder (Node l (a, x) r))) T (with_back T a nd b).
Proof.
  intros Hh Hn. destruct (holds_node _ _ _ _ _ _ _ _ Hh) as (-> & nd' & Hn' & _ & Hl & _).
  rewrite Hn in Hn'. injection Hn' as <-. destruct Hh as [_ _ Hf Hnd Hsd Hsf Huf Hsort].
  apply node_locs in Hnd as (Hndl & _ & Hal & _).
  assert (Ha : a ∉ fl) by (intros Hc; apply (Huf a); [apply elem_of_node_locs; auto|done]).
  split; [split; try done|].
  - unfold with_back. simpl. by rewrite (get_child_ok _ _ _ _ (lookup_insert_eq _ _ _)).
  - eapply rep_ext; [|exact Hl]. intros c Hc. apply lookup_insert_ne. by intros <-.
  - eapply frep_ext; [|exact Hf]. intros c Hc. apply lookup_insert_ne. by intros <-.
  - by intros c ->%list_elem_of_singleton.
  - by intros c ->%list_elem_of_singleton.
  - intros c Hc Hc'. apply (Huf c); [apply elem_of_node_locs; auto|done].
  - apply (sorted_items_app cmp _ _ Hsort).
  - apply (frame_nodes s _ T _ (freelist T)); [|done]. apply only_at_insert with nd; [done|].
    apply elem_of_node_locs. auto.
Qed.

Lemma elem_of_freed l st fl c : c ∈ freed l st fl <-> c ∈ locs (rejected l st) \/ c ∈ fl.
Proof. unfold freed. by rewrite elem_of_app, elem_of_reverse. Qed.

(** The locations of the subtree are split between [u'] and those freed. *)
Lemma swept_locs s T u st fl T' s' u' p' :
  swept s T u st fl T' s' u' p' -> locs (inorder u) ≡ₚ locs (inorder u') ++ locs (rejected (inorder u) st).
Proof. intros H. rewrite (swept_inorder _ _ _ _ _ _ _ _ _ H), <- locs_app. unfold locs. by rewrite rejects_perm. Qed.

(** What is left of a node when its left subtree is done. *)
Lemma swept_left_dis s T p l a x r fl nd b st T2 s2 l' pl :
  holds s T p (Node l (a, x) r) fl -> swept (SlotChild a LEFT) (with_back T a nd b) l st fl T2 s2 l' pl ->
  NoDup (locs (inorder (Node l' (a, x) r))) /\
  locs (inorder (Node l' (a, x) r)) ⊆ locs (inorder (Node l (a, x) r)) /\
  (forall c, c ∈ locs (inorder (Node l' (a, x) r)) -> c ∉ freed (inorder l) st fl) /\
  slot_locs s ## freed (inorder l) st fl.
Proof.
  intros [_ _ _ Hnd Hsd Hsf Huf _] Hsw. apply node_locs in Hnd as (Hndl & Hndr & Hal & Har & Hlr).
  assert (Hpl := swept_locs _ _ _ _ _ _ _ _ _ Hsw). rewrite Hpl in Hndl.
  apply NoDup_app in Hndl as (Hndl' & Hdp & _).
  assert (Hin : forall c, c ∈ locs (inorder l') \/ c ∈ locs (rejected (inorder l) st) -> c ∈ locs (inorder l))
    by (intros c Hc; by rewrite Hpl, elem_of_app).
  assert (Hsub : locs (inorder (Node l' (a, x) r)) ⊆ locs (inorder (Node l (a, x) r)))
    by (intros c; rewrite !elem_of_node_locs; naive_solver).
  split; [|split; [done|split]].
  - apply node_locs. split_and!; [done..| |done|]; [auto|]. intros c Hc. apply Hlr. auto.
  - intros c Hc [Hc'|Hc']%elem_of_freed; [|apply (Huf c); [by apply Hsub|done]].
    apply elem_of_node_locs in Hc as [Hc|[->|Hc]]; [by apply (Hdp c)|by apply Hal; auto|].
    apply (Hlr c); auto.
  - intros c Hc [Hc'|Hc']%elem_of_freed; [|by apply (Hsf c)].
    apply (Hsd c); [done|]. apply elem_of_node_locs. auto.
Qed.

(** The left subtree is done: the node is [ready]. *)
Lemma swept_ready s T p l a x r fl nd b st T2 s2 l' pl :
  holds s T p (Node l (a, x) r) fl -> nodes T !! a = Some nd ->
  swept (SlotChild a LEFT) (with_back T a nd b) l st fl T2 s2 l' pl ->
  exists nd2 : @node A, back nd2 = b /\ at_right (child nd2) = at_right (child nd) /\
    ready s (locs (inorder (Node l' (a, x) r))) T2 l' r a x nd2 (freed (inorder l) st fl) /\
    frame s (locs (inorder (Node l (a, x) r))) (with_back T a nd b) T2.
Proof.
  intros Hh Hn Hsw. destruct (swept_left_dis _ _ _ _ _ _ _ _ _ _ _ _ _ _ _ Hh Hsw) as (HndL & Hsub & Hfd & Hsf).
  destruct (holds_node _ _ _ _ _ _ _ _ Hh) as (-> & nd' & Hn' & Hi & Hl & Hr).
  rewrite Hn in Hn'. injection Hn' as <-. pose proof Hh as [Hs _ _ Hnd Hsd _ _ Hsort].
  apply node_locs in Hnd as (_ & _ & Hal & Har & Hlr). destruct Hsw as [Hs2 Hs2l Hrl Hil Hf2 F2].
  assert (Hn1 : nodes (with_back T a nd b) !! a = Some (MkNode (item nd) (child nd) b)) by apply lookup_insert_eq.
  destruct (frame_owner _ _ _ _ F2 a LEFT _ eq_refl Hn1) as (nd2 & Hn2 & Hi2 & Hb2 & Hc2). simpl in Hi2, Hb2, Hc2.
  assert (Hin : slot_locs (SlotChild a LEFT) ++ locs (inorder l) ⊆ locs (inorder (Node l (a, x) r))).
  { intros c Hc. apply elem_of_node_locs. apply elem_of_cons in Hc. naive_solver. }
  exists nd2. split; [done|]. split; [done|]. split; [|by eapply frame_inside].
  split; try done.
  - eapply (frame_read s (locs (inorder (Node l (a, x) r))) T); [|intros ->; by apply (frame_root _ _ _ _ F2)|done|exact Hs].
    apply only_at_trans with (nodes (with_back T a nd b)); [apply only_at_insert with nd; [done|apply elem_of_node_locs; auto]|].
    eapply only_at_mono; [exact Hin|apply F2].
  - split; [done|]. exists nd2. split; [done|]. split; [congruence|]. split.
    + simpl in Hs2l. rewrite (get_child_ok _ _ _ LEFT Hn2) in Hs2l. injection Hs2l as Hpl. by rewrite <- Hpl in Hrl.
    + simpl. rewrite Hc2. eapply rep_ext; [|exact Hr]. intros c Hc.
      rewrite (proj1 (frame_only _ _ _ _ F2)); [apply lookup_insert_ne; by intros <-|].
      intros [->|Hc']%elem_of_cons; [done|]. by apply (Hlr c).
  - intros c Hc Hc'. apply (Hsd c); [done|by apply Hsub].
  - simpl in Hsort |- *. eapply sorted_items_sublist; [|exact Hsort]. apply sublist_app; [|done].
    rewrite Hil. apply kept_sublist.
Qed.

(** Going on to the right. *)
Lemma holds_right s L T l r a x nd fl rej T3 s3 :
  ready s L T l r a x nd fl -> after_left s L T l r a x fl rej (at_right (child nd)) T3 s3 ->
  holds s3 T3 (at_right (child nd)) r ((if rej then [a] else []) ++ fl).
Proof.
  intros Hrd (Hp & Hr & Hf & _ & _ & Hd).
  destruct Hrd as [_ _ _ _ Hnd _ HLf Hin _ Hsort]. apply node_locs in Hnd as (_ & Hndr & _ & Har & _).
  split; try done.
  - intros c Hc Hc'. apply (Hd c); [done|]. apply elem_of_app. by left.
  - intros c Hc Hc'. apply (Hd c); [done|]. apply elem_of_app. by right.
  - intros c Hc [Hc'|Hc']%elem_of_app.
    + destruct rej; [|by apply elem_of_nil in Hc']. by apply list_elem_of_singleton in Hc' as ->.
    + apply (HLf c); [|done]. apply Hin, elem_of_node_locs. auto.
  - simpl in Hsort. apply sorted_items_app in Hsort as [_ Hsort]. by apply (sorted_items_app cmp [(a, x)]).
Qed.

Lemma rejects_node (l r : tree elem) a x st :
  rejects (inorder (Node l (a, x) r)) st =
  let '(rej, st3) := reject x (reject_state (inorder l) st) in
  (kept (inorder l) st ++ (if rej then [] else [(a, x)]) ++ kept (inorder r) st3,
   rejected (inorder l) st ++ (if rej then [(a, x)] else []) ++ rejected (inorder r) st3,
   reject_state (inorder r) st3).
Proof.
  simpl. rewrite rejects_app. unfold kept, rejected, reject_state.
  destruct (rejects (inorder l) st) as [[k1 r1] st1]. simpl. destruct (reject x st1) as [rej st3].
  destruct (rejects (inorder r) st3) as [[k2 r2] st4]. by destruct rej.
Qed.

Lemma reject_tree `{!ItemOrder cmp} u : forall f T st s prev p fl,
  holds s T p u fl ->
  exists T' s' u' p',
    reject_loop (tsize u + tsize u + f) T st s prev =
      reject_loop f T' (reject_state (inorder u) st) s' prev /\
    swept s T u st fl T' s' u' p'.
Proof.
  induction u as [|l IHl [a x] r IHr]; intros f T st s prev p fl Hh.
  { pose proof Hh as [Hs Hr Hf _ _ _ _ _]. simpl in Hr. subst p. exists T, s, Leaf, None.
    split; [done|]. split; try done. split; eauto. apply only_at_refl. }
  destruct (holds_node _ _ _ _ _ _ _ _ Hh) as (-> & nd & Hn & Hi & _).
  destruct (holds_left _ _ _ _ _ _ _ _ _ (back_of_slot prev) Hh Hn) as [Hh1 F1].
  destruct (IHl (S (tsize r + tsize r + f)) _ st _ (Some s) _ fl Hh1) as (T2 & s2 & l' & pl & E2 & Hsw).
  destruct (swept_ready _ _ _ _ _ _ _ _ _ _ _ _ _ _ _ Hh Hn Hsw) as (nd2 & Hb2 & Hc2 & Hrd & F2).
  assert (HL2 := proj1 (proj2 (swept_left_dis _ _ _ _ _ _ _ _ _ _ _ _ _ _ _ Hh Hsw))).
  assert (Hrejs := rejects_node l r a x st). set (st2 := reject_state (inorder l) st) in *.
  destruct (reject_node (tsize r + tsize r + f) s s2 _ T2 l' r a x nd2 _ st2 prev Hrd Hb2 (swept_end _ _ _ _ _ _ _ _ _ Hsw))
    as (T3 & s3 & E3 & Haf).
  destruct (reject x st2) as [rej st3] eqn:Hrej. cbn [fst snd] in E3, Haf.
  destruct (IHr f T3 st3 s3 prev _ _ (holds_right _ _ _ _ _ _ _ _ _ _ _ _ Hrd Haf))
    as (T4 & s4 & r4 & p4 & E4 & [Hs4 Hp4 Hr4 Hi4 Hf4 F4]).
  destruct Haf as (_ & _ & _ & F3 & Hcl & _).
  destruct (Hcl T4 p4 r4 F4 Hp4 Hr4) as (p' & u' & Hp' & Hr' & Hi' & F').
  exists T4, s4, u', p'. unfold reject_state at 1. rewrite Hrejs. split.
  { rewrite tsize_node.
    replace (S (tsize l + tsize r) + S (tsize l + tsize r) + f)%nat
      with (S (tsize l + tsize l + S (tsize r + tsize r + f))) by lia.
    cbn [reject_loop]. rewrite (holds_slot _ _ _ _ _ Hh). cbn [mbind res_bind]. unfold set_back, load_node. rewrite Hn.
    cbn [mbind res_bind deref]. fold (with_back T a nd (back_of_slot prev)). by rewrite E2, E3, E4. }
  split; try done.
  - unfold kept at 1. by rewrite Hrejs, Hi', (swept_inorder _ _ _ _ _ _ _ _ _ Hsw), Hi4, <- app_assoc.
  - revert Hf4. unfold freed, rejected at 3. rewrite Hrejs. simpl. unfold freed.
    rewrite !locs_app, !reverse_app, <- !app_assoc. by destruct rej.
  - apply frame_trans with (with_back T a nd (back_of_slot prev)); [done|]. apply frame_trans with T2; [done|].
    apply frame_trans with T3; eapply frame_mono; done.
Qed.

Lemma sml_tree_reject_spec `{!ItemOrder cmp} xmalloc T t fl st :
  tree_rep xmalloc T t fl -> sorted_items cmp (items (inorder t)) ->
  exists T' t', sml_tree_reject T st = Ok (T', reject_state (inorder t) st) /\
    tree_rep xmalloc T' t' (reverse (locs (rejected (inorder t) st)) ++ fl) /\
    inorder t' = kept (inorder t) st.
Proof.
  intros [Hr Hf Hnd [ids Ha]] Hsort. assert (Hnd' := Hnd). apply NoDup_app in Hnd' as (Hndt & Hd & Hndf).
  assert (Hfuel := tree_fuel_enough _ _ _ Hr Hndt). unfold tree_fuel in Hfuel.
  destruct (reject_tree t (S (3 * size (nodes T) - (tsize t + tsize t))) T st SlotRoot None (root T) fl)
    as (T' & s' & t' & p' & E & [Hs' Hp' Hr' Hi' Hf' F]); [by split; try done; intros c ?%elem_of_nil|].
  exists T', t'. split; [|split; [|done]].
  - unfold sml_tree_reject, iter_fuel.
    replace (S (3 * size (nodes T))) with
      (tsize t + tsize t + S (3 * size (nodes T) - (tsize t + tsize t)))%nat by lia.
    rewrite E. simpl. by rewrite Hs'.
  - pose proof F as [O _ _ [Hs1 Hs2] [Ha1 Ha2]]. split; [|done| |].
    + simpl in Hp'. injection Hp' as <-. done.
    + rewrite app_assoc, reverse_Permutation, Hi', <- locs_app.
      assert (locs (kept (inorder t) st ++ rejected (inorder t) st) ≡ₚ locs (inorder t)) as ->; [|done].
      unfold locs. by rewrite rejects_perm.
    + exists ids. apply (alloc_inv_same xmalloc T); try done. apply O.
Qed.
End Reject.

(** ** [sml_tree_rebuild] *)
Section Rebuild.

Fixpoint rebuild_loop (fuel : nat) (T : @sml_tree A) (cur prev last : nodeptr) : res sml_tree :=
  match fuel with
  | O => NoFuel
  | S fuel =>
      match cur, prev with
      | None, None => Ok T
      | Some a, _ =>
          ns ← set_back (nodes T) a (back_of_node prev);
          l ← get_child ns a LEFT;
          rebuild_loop fuel (set_nodes ns T) l (Some a) last
      | None, Some a =>
          r ← get_child (nodes T) a RIGHT;
          if bool_decide (r <> None) && bool_decide (r <> last) then
            rebuild_loop fuel T r prev last
          else
            prev ← get_back (nodes T) a;
            '(n, T) ← insert_node cmp T a;
            T ← (if n =? 0 then node_reclaim T a else Ok T);
            rebuild_loop fuel T None prev (Some a)
      end
  end.

Definition sml_tree_rebuild (T : @sml_tree A) : res sml_tree :=
  rebuild_loop (iter_fuel (nodes T)) (set_root None T) (root T) None None.

(** Insertion into a sorted list, keeping the element that is there. *)
Definition ins (l : list elem) (e : elem) : list elem :=
  match matching (fun f : elem => cmp e.2 f.2) l with
  | [] => smaller (fun f : elem => cmp e.2 f.2) l ++ e :: larger (fun f : elem => cmp e.2 f.2) l
  | _ => l
  end.
Definition insert_all (es l : list elem) : list elem := foldl ins l es.

(** The elements that [insert_all] leaves out. *)
Fixpoint left_out (es l : list elem) : list elem :=
  match es with
  | [] => []
  | e :: es =>
      match matching (fun f : elem => cmp e.2 f.2) l with
      | [] => left_out es (ins l e)
      | _ => e :: left_out es l
      end
  end.

Lemma filter_sublist (P : elem -> Prop) `{!forall x, Decision (P x)} l : filter P l `sublist_of` l.
Proof.
  induction l as [|e l IH]; [done|]. rewrite filter_cons. case_decide; by constructor.
Qed.

Lemma sorted_place `{!ItemOrder cmp} key b l :
  sorted_items cmp (items l) ->
  sorted_items cmp (items (smaller (fun f : elem => cmp key f.2) l ++ (b, key) ::
                           larger (fun f : elem => cmp key f.2) l)).
Proof.
  intros Hs.
  assert (H1 := sorted_items_sublist _ _ (filter_sublist (fun f => 0 < cmp key f.2) l) Hs).
  assert (H2 := sorted_items_sublist _ _ (filter_sublist (fun f => cmp key f.2 < 0) l) Hs).
  fold (smaller (fun f : elem => cmp key f.2) l) in H1. fold (larger (fun f : elem => cmp key f.2) l) in H2.
  unfold sorted_items, items in *. rewrite fmap_app. simpl.
  assert (Hlt : forall x, x ∈ (smaller (fun f : elem => cmp key f.2) l).*2 -> cmp x key < 0).
  { intros x ([c y] & -> & Hy)%list_elem_of_fmap. apply list_elem_of_filter in Hy as [Hy _]. simpl in *.
    pose proof (cmp_antisym y key). lia. }
  assert (Hgt : forall x, x ∈ (larger (fun f : elem => cmp key f.2) l).*2 -> cmp key x < 0).
  { intros x ([c y] & -> & Hy)%list_elem_of_fmap. by apply list_elem_of_filter in Hy as [Hy _]. }
  apply StronglySorted_app. split_and!; [|done|].
  - intros x y Hx Hy. apply elem_of_cons in Hy as [->|Hy]; [by apply Hlt|].
    eapply cmp_lt_trans; [by apply Hlt|by apply Hgt].
  - constructor; [done|]. apply Forall_forall. intros y Hy. apply Hgt. done.
Qed.

Lemma sorted_ins `{!ItemOrder cmp} l e : sorted_items cmp (items l) -> sorted_items cmp (items (ins l e)).
Proof. intros Hs. unfold ins. destruct e as [b key]. case_match; [by apply sorted_place|done]. Qed.

Lemma smaller_larger_perm c (l : list elem) :
  matching c l = [] -> smaller c l ++ larger c l ≡ₚ l.
Proof.
  unfold matching, smaller, larger. induction l as [|e l IH]; [done|]. rewrite !filter_cons.
  repeat case_decide; try lia; intros Hm; try done; simpl.
  - by rewrite IH.
  - by rewrite <- Permutation_middle, IH.
Qed.

Lemma insert_all_perm es : forall l, insert_all es l ++ left_out es l ≡ₚ es ++ l.
Proof.
  induction es as [|e es IH]; intros l; simpl; [by rewrite app_nil_r|].
  change (insert_all (e :: es) l) with (insert_all es (ins l e)).
  destruct (matching _ l) eqn:Hm.
  - rewrite IH. unfold ins. rewrite Hm. rewrite <- !Permutation_middle.
    by rewrite smaller_larger_perm.
  - assert (ins l e = l) as -> by (unfold ins; by rewrite Hm).
    rewrite <- Permutation_middle. by rewrite IH.
Qed.

Lemma ins_hit e l : matching (fun f : elem => cmp e.2 f.2) l <> [] -> ins l e = l.
Proof. unfold ins. by destruct (matching _ l). Qed.
Lemma ins_miss e l : matching (fun f : elem => cmp e.2 f.2) l = [] ->
  ins l e = smaller (fun f : elem => cmp e.2 f.2) l ++ e :: larger (fun f : elem => cmp e.2 f.2) l /\
  ins l e ≡ₚ e :: l.
Proof.
  intros Hm. unfold ins. rewrite Hm. split; [done|].
  by rewrite <- Permutation_middle, smaller_larger_perm.
Qed.

Lemma insert_node_ok `{!ItemOrder cmp} xmalloc T t fl a nd x :
  tree_rep xmalloc T t fl -> sorted_items cmp (items (inorder t)) ->
  nodes T !! a = Some nd -> item nd = Some x -> a ∉ locs (inorder t) -> a ∉ fl ->
  exists n T' t', insert_node cmp T a = Ok (n, T') /\ tree_rep xmalloc T' t' fl /\
    freelist T' = freelist T /\
    only_at (a :: locs (inorder t)) (nodes T) (nodes T') /\
    inorder t' = ins (inorder t) (a, x) /\
    (n = 0 <-> matching (fun f : elem => cmp x f.2) (inorder t) <> []).
Proof.
  intros Hrep Hs Hn Hi Hat Haf. pose proof Hrep as [Hr Hf Hnd [ids Ha]].
  destruct (splay_root_ok cmp xmalloc T t fl x Hrep Hs)
    as (n & ns & r & lc & L & t1 & R & Hrun & Hz & Ho & Hsp).
  assert (Hin := split_here_perm _ _ _ _ _ _ _ _ Hsp).
  assert (Hnd' := Hnd). apply NoDup_app in Hnd' as (Hndt & Htf & _).
  unfold insert_node. rewrite (ITEM_OF_ok _ _ _ x Hn Hi). simpl. rewrite Hrun. simpl.
  destruct (Z.eqb_spec n 0) as [->|Hn0]; simpl.
  - destruct Hsp as [_ [(_ & t2 & b & y & t3 & -> & -> & _ & Hm & _)|[(? & _)|(? & _)]]]; [|lia..].
    simpl. destruct (splay_assemble ns lc L (Node t2 (b, y) t3) R (Some b))
      as (b' & ns' & t' & [= <-] & Has & Hr' & Hi' & Ho'); [done|by rewrite Hin|done|].
    rewrite Has. simpl. rewrite Hin in Ho', Hi'.
    assert (O : only_at (locs (inorder t)) (nodes T) ns') by (by eapply only_at_trans).
    eexists 0, _, t'. split; [done|]. split.
    { apply (tree_rep_same xmalloc T t t' fl ns' (Some b)); [done|done|by rewrite Hi'|done]. }
    split; [done|]. split; [eapply only_at_mono; [|exact O]; by intros c Hc; right|].
    rewrite ins_hit by (simpl; by rewrite Hm). split; [done|]. by rewrite Hm.
  - destruct (split_here_placed cmp x _ n L t1 R r a x Hsp Hn0) as [Hpl Hm].
    destruct (place_ok cmp ns lc L t1 R r a x (DIR n) nd Hz) as (n0 & n1 & n2 & t' & H0 & H1 & H2 & Hr' & Hi' & Ho');
      [by rewrite Hin|by rewrite Hin|by rewrite (proj1 Ho)|done|].
    rewrite Hin in Ho'. rewrite Hpl in Hi'. destruct (ins_miss (a, x) _ Hm) as [Hins Hperm].
    unfold push_root. simpl. rewrite H0. simpl. rewrite H1. simpl. rewrite H2. simpl.
    assert (O : only_at (a :: locs (inorder t)) (nodes T) n2).
    { eapply only_at_trans; [|exact Ho']. eapply only_at_mono; [|exact Ho]. by intros c Hc; right. }
    eexists n, _, t'. split; [done|]. split; [|split; [done|split; [done|]]].
    + apply (tree_rep_build xmalloc T fl ids (a :: locs (inorder t)) n2 (Some a)); try done.
      * intros c Hc. apply elem_of_cons in Hc as [->|Hc]; [done|by apply Htf].
      * assert (locs (inorder t') ≡ₚ a :: locs (inorder t)) as ->.
        { rewrite Hi'. simpl in Hins. rewrite <- Hins. unfold locs. by rewrite Hperm. }
        simpl. apply NoDup_cons. rewrite not_elem_of_app. done.
    + rewrite Hins. split; [done|]. simpl in Hm. rewrite Hm. done.
Qed.

(** Steps taken for a subtree. *)
Fixpoint rebuild_cost (u : tree elem) : nat :=
  match u with
  | Leaf => 0
  | Node l _ r =>
      rebuild_cost l + rebuild_cost r + 2 + match r with Leaf => 0 | Node _ _ _ => 1 end
  end.

Lemma rebuild_cost_le u : (rebuild_cost u <= 3 * tsize u)%nat.
Proof.
  induction u as [|l IHl e r IHr]; simpl; [lia|]. rewrite tsize_node.
  destruct r; lia.
Qed.

(** The state of the loop: [u] is what is left of the subtree, [t] the new
    tree. *)
Record rebuilding (xmalloc : nat -> Z) (T : sml_tree) (u t : tree elem) (p : nodeptr) (fl : list loc) : Prop := {
  rb_rest : rep (nodes T) p u;
  rb_tree : tree_rep xmalloc T t fl;
  rb_sorted : sorted_items cmp (items (inorder t));
  rb_nodup : NoDup (locs (inorder u));
  rb_dis_tree : locs (inorder u) ## locs (inorder t);
  rb_dis_free : locs (inorder u) ## fl
}.

(** A finished node goes to the new tree or to the free list. *)
Lemma rebuild_finish `{!ItemOrder cmp} xmalloc T t fl a nd x f prev last :
  tree_rep xmalloc T t fl -> sorted_items cmp (items (inorder t)) ->
  nodes T !! a = Some nd -> item nd = Some x -> back nd = back_of_node prev ->
  a ∉ locs (inorder t) -> a ∉ fl ->
  at_right (child nd) = None \/ at_right (child nd) = last ->
  exists T' t', rebuild_loop (S f) T None (Some a) last = rebuild_loop f T' None prev (Some a) /\
    tree_rep xmalloc T' t' (reverse (locs (left_out [(a, x)] (inorder t))) ++ fl) /\
    inorder t' = ins (inorder t) (a, x) /\
    only_at (a :: locs (inorder t)) (nodes T) (nodes T').
Proof.
  intros Hrep Hs Hn Hi Hb Hat Haf Hlast. set (lo := reverse (locs (left_out _ _))).
  destruct (insert_node_ok xmalloc T t fl a nd x Hrep Hs Hn Hi Hat Haf)
    as (n & T1 & t1 & Hrun & Hrep1 & Hfl1 & O1 & Hi1 & Hn1).
  cbn [rebuild_loop]. rewrite (get_child_ok _ _ _ RIGHT Hn). cbn [mbind res_bind pick].
  assert (bool_decide (at_right (child nd) <> None) && bool_decide (at_right (child nd) <> last) = false) as ->.
  { apply andb_false_iff. rewrite !bool_decide_eq_false. tauto. }
  unfold get_back at 1, load_node at 1. rewrite Hn. simpl. rewrite Hb.
  assert (node_of_back (back_of_node prev) = Ok prev) as -> by (by destruct prev). simpl.
  rewrite Hrun. simpl. destruct (Z.eqb_spec n 0) as [->|Hn0].
  - assert (Hm := proj1 Hn1 eq_refl). pose proof Hrep1 as [Hr1 Hf1 Hnd1 [ids1 Ha1]].
    destruct (node_reclaim_ok T1 fl a Hf1 Haf) as (ns2 & Hrec & O2 & Hf2 & Hst).
    { apply O1. eauto. }
    rewrite Hrec. simpl. eexists _, t1. split; [done|].
    assert (Hins : ins (inorder t) (a, x) = inorder t) by (by apply ins_hit).
    assert (lo = [a]) as -> by (unfold lo; simpl; by destruct (matching _ (inorder t))).
    split; [|split; [done|]].
    + split; simpl; [|exact Hf2| |].
      * eapply rep_ext_strip; [|exact Hr1]. intros c _. by rewrite Hst.
      * rewrite <- Permutation_middle. apply NoDup_cons. split; [|done].
        rewrite Hi1, Hins. by apply not_elem_of_app.
      * exists ids1. apply (alloc_inv_same xmalloc T1); [done..|apply O2|done].
    + apply only_at_trans with (nodes T1); [done|]. eapply only_at_mono; [|exact O2].
      intros c ->%list_elem_of_singleton. by left.
  - destruct (matching (fun f : elem => cmp x f.2) (inorder t)) as [|e0 l0] eqn:Hmm; [|by destruct Hn0; apply Hn1].
    assert (lo = []) as -> by (unfold lo; simpl; by rewrite Hmm). by exists T1, t1.
Qed.

Lemma left_out_app es1 es2 l :
  left_out (es1 ++ es2) l = left_out es1 l ++ left_out es2 (insert_all es1 l).
Proof.
  revert l. induction es1 as [|e es1 IH]; intros l; simpl; [done|]. rewrite !IH.
  change (insert_all (e :: es1) l) with (insert_all es1 (ins l e)).
  destruct (matching _ l) eqn:Hm; [done|]. rewrite ins_hit by (by rewrite Hm). done.
Qed.

Lemma insert_all_app es1 es2 l : insert_all (es1 ++ es2) l = insert_all es2 (insert_all es1 l).
Proof. apply foldl_app. Qed.

Lemma sorted_insert_all `{!ItemOrder cmp} es : forall l,
  sorted_items cmp (items l) -> sorted_items cmp (items (insert_all es l)).
Proof. induction es as [|e es IH]; intros l Hs; [done|]. by apply IH, sorted_ins. Qed.

Lemma rebuilt_locs es l :
  locs (insert_all es l) ++ reverse (locs (left_out es l)) ≡ₚ locs es ++ locs l.
Proof. rewrite reverse_Permutation, <- !locs_app. unfold locs. by rewrite insert_all_perm. Qed.

Lemma postorder_locs (t : tree elem) : locs (postorder t) ≡ₚ locs (inorder t).
Proof. unfold locs. by rewrite postorder_perm. Qed.

Lemma insert_all_from es l c :
  c ∈ locs (insert_all es l) -> c ∈ locs es \/ c ∈ locs l.
Proof.
  intros Hc. apply elem_of_app. rewrite <- rebuilt_locs. apply elem_of_app. by left.
Qed.

Definition root_or (u : tree elem) (p last : nodeptr) : nodeptr :=
  match u with Leaf => last | Node _ _ _ => p end.

(** The elements of the subtree [u] have been inserted into [t]. *)
Record rebuilt (xmalloc : nat -> Z) (T : @sml_tree A) (u t : tree elem) (fl : list loc)
    (T' : @sml_tree A) (t' : tree elem) : Prop := {
  rebuilt_tree : tree_rep xmalloc T' t' (reverse (locs (left_out (postorder u) (inorder t))) ++ fl);
  rebuilt_inorder : inorder t' = insert_all (postorder u) (inorder t);
  rebuilt_only : only_at (locs (inorder u ++ inorder t)) (nodes T) (nodes T')
}.

(** What is in neither of them stays out. *)
Lemma rebuilt_outside xmalloc T u t fl T' t' c :
  rebuilt xmalloc T u t fl T' t' -> c ∉ locs (inorder u) -> c ∉ locs (inorder t) -> c ∉ fl ->
  nodes T' !! c = nodes T !! c /\ c ∉ locs (inorder t') /\
  c ∉ reverse (locs (left_out (postorder u) (inorder t))) ++ fl.
Proof.
  intros [_ Hi O] Hu Ht Hf. split; [apply O; rewrite locs_app; by apply not_elem_of_app|].
  assert (Hp := rebuilt_locs (postorder u) (inorder t)). rewrite <- Hi, postorder_locs in Hp.
  assert (Hc : c ∉ locs (inorder u) ++ locs (inorder t)) by (by apply not_elem_of_app).
  rewrite <- Hp, not_elem_of_app in Hc. rewrite not_elem_of_app. tauto.
Qed.

Lemma rebuilt_sorted `{!ItemOrder cmp} xmalloc T u t fl T' t' :
  rebuilt xmalloc T u t fl T' t' -> sorted_items cmp (items (inorder t)) -> sorted_items cmp (items (inorder t')).
Proof. intros [_ -> _]. apply sorted_insert_all. Qed.

(** From a finished left subtree over the right one. *)
Lemma rebuild_right `{!ItemOrder cmp} xmalloc r :
  (forall f T t p prev last fl,
    rebuilding xmalloc T r t p fl -> (forall b, last = Some b -> b ∉ locs (inorder r)) ->
    exists T' t',
      rebuild_loop (rebuild_cost r + f) T p prev last = rebuild_loop f T' None prev (root_or r p last) /\
      rebuilt xmalloc T r t fl T' t') ->
  forall f T t a nd last fl,
  nodes T !! a = Some nd -> rebuilding xmalloc T r t (at_right (child nd)) fl ->
  (forall b, last = Some b -> b ∉ locs (inorder r)) ->
  let last' := root_or r (at_right (child nd)) last in
  exists T' t',
    rebuild_loop (match r with Leaf => 0 | Node _ _ _ => 1 end + (rebuild_cost r + S f)) T None (Some a) last =
      rebuild_loop (S f) T' None (Some a) last' /\
    (at_right (child nd) = None \/ at_right (child nd) = last') /\
    rebuilt xmalloc T r t fl T' t'.
Proof.
  intros IH f T t a nd last fl Hn Hrb Hlast last'.
  destruct (IH (S f) T t _ (Some a) last fl Hrb Hlast) as (T' & t' & E & Hrest).
  exists T', t'. pose proof (rb_rest _ _ _ _ _ _ Hrb) as Hr. destruct r as [|r1 [b y] r2].
  - simpl in Hr. rewrite Hr in E. split; [exact E|]. by split; [left|].
  - split; [|by split; [right|]]. unfold last'. clear last'. rewrite (proj1 Hr) in E |- *.
    rewrite <- E. set (k := (rebuild_cost _ + S f)%nat). change (1 + k)%nat with (S k).
    cbn [rebuild_loop]. rewrite (get_child_ok _ _ _ RIGHT Hn). cbn [mbind res_bind pick].
    rewrite (proj1 Hr), (bool_decide_true (Some b <> None)) by done.
    rewrite bool_decide_true; [done|]. intros <-. apply (Hlast b eq_refl), elem_of_node_locs. auto.
Qed.

(** Storing the back pointer and going down to the left. *)
Lemma rebuilding_left xmalloc T l a x r t fl nd b :
  rebuilding xmalloc T (Node l (a, x) r) t (Some a) fl -> nodes T !! a = Some nd ->
  rebuilding xmalloc (with_back T a nd b) l t (at_left (child nd)) fl.
Proof.
  intros [(_ & nd' & Hn' & _ & Hl & _) [Hr1 Hf1 Hnd1 [ids Ha]] Hs Hnd Hdt Hdf] Hn.
  rewrite Hn in Hn'. injection Hn' as <-. apply node_locs in Hnd as (Hndl & _ & Hal & _).
  assert (O : only_at [a] (nodes T) (nodes (with_back T a nd b))) by (apply only_at_insert with nd; [done|by left]).
  assert (Hin : forall c, c ∈ locs (inorder l) -> c ∈ locs (inorder (Node l (a, x) r)))
    by (intros c; rewrite elem_of_node_locs; auto).
  assert (Hau : a ∈ locs (inorder (Node l (a, x) r))) by (apply elem_of_node_locs; auto).
  split; try done; [| |intros c Hc; by apply Hdt, Hin|intros c Hc; by apply Hdf, Hin].
  - eapply rep_only_at; [exact O| |exact Hl]. by intros c ->%list_elem_of_singleton.
  - split; [| |done|].
    + eapply rep_only_at; [exact O| |exact Hr1]. intros c ->%list_elem_of_singleton. by apply Hdt.
    + eapply frep_ext; [|exact Hf1]. intros c Hc. apply O. intros ->%list_elem_of_singleton. by apply (Hdf a).
    + exists ids. apply (alloc_inv_same xmalloc T); [done..|apply O|done].
Qed.

(** The left subtree is done. *)
Lemma rebuilding_right `{!ItemOrder cmp} xmalloc T l a x r t fl nd b T2 t2 :
  rebuilding xmalloc T (Node l (a, x) r) t (Some a) fl -> nodes T !! a = Some nd ->
  rebuilt xmalloc (with_back T a nd b) l t fl T2 t2 ->
  nodes T2 !! a = Some (MkNode (item nd) (child nd) b) /\
  a ∉ locs (inorder t2) /\ a ∉ reverse (locs (left_out (postorder l) (inorder t))) ++ fl /\
  rebuilding xmalloc T2 r t2 (at_right (child nd)) (reverse (locs (left_out (postorder l) (inorder t))) ++ fl).
Proof.
  intros [(_ & nd' & Hn' & _ & _ & Hr) _ Hs Hnd Hdt Hdf] Hn Hrb.
  rewrite Hn in Hn'. injection Hn' as <-. apply node_locs in Hnd as (_ & Hndr & Hal & Har & Hlr).
  assert (Hout : forall c, c = a \/ c ∈ locs (inorder r) ->
    nodes T2 !! c = nodes (with_back T a nd b) !! c /\ c ∉ locs (inorder t2) /\
    c ∉ reverse (locs (left_out (postorder l) (inorder t))) ++ fl).
  { intros c Hc. assert (Hcu : c ∈ locs (inorder (Node l (a, x) r))) by (apply elem_of_node_locs; naive_solver).
    apply (rebuilt_outside _ _ _ _ _ _ _ _ Hrb); [|intros Hc'; by apply (Hdt c)|intros Hc'; by apply (Hdf c)].
    intros Hc'. destruct Hc as [->|Hc]; [done|by apply (Hlr c)]. }
  destruct (Hout a) as (Hna & Hta & Hfa); [auto|]. split; [rewrite Hna; apply lookup_insert_eq|].
  split; [done|]. split; [done|].
  split; [|apply Hrb|by eapply rebuilt_sorted|done|intros c Hc; apply Hout; auto..].
  eapply rep_ext; [|exact Hr]. intros c Hc. rewrite (proj1 (Hout c (or_intror Hc))).
  apply lookup_insert_ne. by intros <-.
Qed.

Lemma root_or_outside ns p last l (L : list loc) :
  rep ns p l -> (forall c, c ∈ locs (inorder l) -> c ∉ L) -> (forall b, last = Some b -> b ∉ L) ->
  forall b, root_or l p last = Some b -> b ∉ L.
Proof.
  intros Hr Hl Hlast b. destruct l as [|l1 [c y] r1]; simpl root_or; [apply Hlast|].
  rewrite (proj1 Hr). intros [= <-]. apply Hl, elem_of_node_locs. auto.
Qed.

(** The two subtrees and then the node itself. *)
Lemma rebuilt_node xmalloc T l a x r t fl nd b T2 t2 T3 t3 T4 t4 :
  nodes T !! a = Some nd ->
  let fl2 := reverse (locs (left_out (postorder l) (inorder t))) ++ fl in
  let fl3 := reverse (locs (left_out (postorder r) (inorder t2))) ++ fl2 in
  rebuilt xmalloc (with_back T a nd b) l t fl T2 t2 -> rebuilt xmalloc T2 r t2 fl2 T3 t3 ->
  tree_rep xmalloc T4 t4 (reverse (locs (left_out [(a, x)] (inorder t3))) ++ fl3) ->
  inorder t4 = ins (inorder t3) (a, x) -> only_at (a :: locs (inorder t3)) (nodes T3) (nodes T4) ->
  rebuilt xmalloc T (Node l (a, x) r) t fl T4 t4.
Proof.
  intros Hn fl2 fl3 [_ Hi2 O2] [_ Hi3 O3] Ht4 Hi4 O4.
  assert (Hf2 := insert_all_from (postorder l) (inorder t)).
  assert (Hf3 := insert_all_from (postorder r) (inorder t2)).
  rewrite <- Hi2 in Hf2. rewrite <- Hi3 in Hf3.
  setoid_rewrite (postorder_locs l) in Hf2. setoid_rewrite (postorder_locs r) in Hf3.
  assert (Hu := elem_of_node_locs l r a x).
  split.
  - simpl postorder. rewrite !left_out_app, <- Hi2, <- Hi3, !locs_app, !reverse_app, <- !app_assoc. exact Ht4.
  - simpl postorder. by rewrite !insert_all_app, <- Hi2, <- Hi3, Hi4.
  - assert (O1 : only_at [a] (nodes T) (nodes (with_back T a nd b)))
      by (apply only_at_insert with nd; [done|by left]).
    rewrite locs_app in *. apply only_at_trans with (nodes (with_back T a nd b));
      [|apply only_at_trans with (nodes T2); [|apply only_at_trans with (nodes T3)]];
      [eapply only_at_mono; [|exact O1]|eapply only_at_mono; [|exact O2]|
       eapply only_at_mono; [|exact O3]|eapply only_at_mono; [|exact O4]];
      intros c; specialize (Hf2 c); specialize (Hf3 c);
      rewrite ?elem_of_app, ?list_elem_of_singleton, ?elem_of_cons, Hu; tauto.
Qed.

Lemma rebuild_tree `{!ItemOrder cmp} xmalloc u : forall f T t p prev last fl,
  rebuilding xmalloc T u t p fl -> (forall b, last = Some b -> b ∉ locs (inorder u)) ->
  exists T' t',
    rebuild_loop (rebuild_cost u + f) T p prev last = rebuild_loop f T' None prev (root_or u p last) /\
    rebuilt xmalloc T u t fl T' t'.
Proof.
  induction u as [|l IHl [a x] r IHr]; intros f T t p prev last fl Hrb Hlast.
  { pose proof (rb_rest _ _ _ _ _ _ Hrb) as Hr. simpl in Hr. subst p. exists T, t. split; [done|].
    split; [apply Hrb|done|apply only_at_refl]. }
  pose proof (rb_rest _ _ _ _ _ _ Hrb) as (-> & nd & Hn & Hi & Hl & _).
  pose proof (rb_nodup _ _ _ _ _ _ Hrb) as (_ & _ & _ & Har & Hlr)%node_locs.
  set (nd1 := MkNode (item nd) (child nd) (back_of_node prev)).
  destruct (IHl (match r with Leaf => 0 | Node _ _ _ => 1 end + (rebuild_cost r + S f))%nat _ t _ (Some a) last fl
              (rebuilding_left _ _ _ _ _ _ _ _ _ (back_of_node prev) Hrb Hn)) as (T2 & t2 & E2 & H2).
  { intros b Hb Hc. apply (Hlast b Hb), elem_of_node_locs. auto. }
  destruct (rebuilding_right _ _ _ _ _ _ _ _ _ _ _ _ Hrb Hn H2) as (Hn2 & Hat2 & Haf2 & Hrb2).
  fold nd1 in Hn2. set (fl2 := reverse (locs (left_out (postorder l) (inorder t))) ++ fl) in *.
  destruct (rebuild_right xmalloc r IHr f T2 t2 a nd1 (root_or l (at_left (child nd)) last) fl2 Hn2 Hrb2)
    as (T3 & t3 & E3 & Hlast3 & H3).
  { eapply root_or_outside; [exact Hl|exact Hlr|]. intros b Hb Hc. apply (Hlast b Hb), elem_of_node_locs. auto. }
  destruct (rebuilt_outside _ _ _ _ _ _ _ a H3 Har Hat2 Haf2) as (Hn3 & Hat3 & Haf3). rewrite Hn2 in Hn3.
  destruct (rebuild_finish xmalloc T3 t3 _ a nd1 x f prev _ (rebuilt_tree _ _ _ _ _ _ _ H3)
              (rebuilt_sorted _ _ _ _ _ _ _ H3 (rb_sorted _ _ _ _ _ _ Hrb2)) Hn3 Hi eq_refl Hat3 Haf3 Hlast3)
    as (T4 & t4 & E4 & Ht4 & Hi4 & O4).
  exists T4, t4. split; [|by eapply rebuilt_node]. simpl rebuild_cost.
  replace (rebuild_cost l + rebuild_cost r + 2 + match r with Leaf => 0 | Node _ _ _ => 1 end + f)%nat
    with (S (rebuild_cost l + (match r with Leaf => 0 | Node _ _ _ => 1 end + (rebuild_cost r + S f)))) by lia.
  cbn [rebuild_loop]. unfold set_back at 1, load_node at 1. rewrite Hn. cbn [mbind res_bind deref].
  fold nd1. rewrite (get_child_ok _ a nd1 LEFT) by apply lookup_insert_eq. cbn [mbind res_bind].
  unfold with_back in E2. fold nd1 in E2. simpl pick. by rewrite E2, E3, E4.
Qed.

Lemma sml_tree_rebuild_spec `{!ItemOrder cmp} xmalloc T t fl :
  tree_rep xmalloc T t fl ->
  exists T' t', sml_tree_rebuild T = Ok T' /\
    tree_rep xmalloc T' t' (reverse (locs (left_out (postorder t) [])) ++ fl) /\
    inorder t' = insert_all (postorder t) [].
Proof.
  intros [Hr Hf Hnd [ids Ha]]. assert (Hnd' := Hnd). apply NoDup_app in Hnd' as (Hndt & Hd & Hndf).
  assert (Hfuel := tree_fuel_enough _ _ _ Hr Hndt). unfold tree_fuel in Hfuel.
  assert (Hcost := rebuild_cost_le t).
  destruct (rebuild_tree xmalloc t (S (3 * size (nodes T) - rebuild_cost t)) (set_root None T) Leaf
              (root T) None None fl) as (T' & t' & E & [Ht' Hi' _]).
  { split; try done; [|constructor|set_solver]. split; [done|done|done|].
    exists ids. by apply (alloc_inv_same xmalloc T). }
  { done. }
  exists T', t'. split; [|done]. unfold sml_tree_rebuild, iter_fuel.
  replace (S (3 * size (nodes T))) with (rebuild_cost t + S (3 * size (nodes T) - rebuild_cost t))%nat by lia.
  by rewrite E.
Qed.
End Rebuild.
End Iter.
