(* ===== verification/SplaySpec.v ===== *)
(** * Splay trees: what the clients of sml_tree_* rely on

    The abstract state of a tree is the list of its items in the order of
    the comparison function; every operation of src/src/runtime/splay.c is
    an operation on such lists. *)
From Stdlib Require Import ZArith Lia.
From stdpp Require Import base option list gmap relations sorting.
From S2P Require Import Prelude SplayTree SplayHeap SplayOps SplayIter.

Local Open Scope Z_scope.

Section Spec.
Context {A : Type} (cmp : A -> A -> Z) (xmalloc : nat -> Z).
Implicit Types (T : @sml_tree A) (l : list A).

Definition below (key : A) l : list A := filter (fun x => 0 < cmp key x) l.
Definition above (key : A) l : list A := filter (fun x => cmp key x < 0) l.
Definition equal_to (key : A) l : list A := filter (fun x => cmp key x = 0) l.

(** [T] represents the sorted list [l]. *)
Definition holds T l : Prop :=
  exists t fl, tree_rep xmalloc T t fl /\ items (inorder t) = l /\ sorted_items cmp l.

(** The item at the address [a]. *)
Definition points_to T (a : loc) (x : A) : Prop :=
  exists nd, nodes T !! a = Some nd /\ item nd = Some x.

Lemma items_filter (P : A -> Prop) `{!forall x, Decision (P x)} (l : list (Z * A)) :
  items (filter (fun e => P e.2) l) = filter P (items l).
Proof.
  unfold items. induction l as [|e l IH]; [done|].
  rewrite filter_cons, fmap_cons, filter_cons. case_decide; by rewrite ?fmap_cons, IH.
Qed.
Lemma items_smaller key (l : list (Z * A)) :
  items (smaller (fun e => cmp key e.2) l) = below key (items l).
Proof. exact (items_filter (fun x => 0 < cmp key x) l). Qed.
Lemma items_larger key (l : list (Z * A)) :
  items (larger (fun e => cmp key e.2) l) = above key (items l).
Proof. exact (items_filter (fun x => cmp key x < 0) l). Qed.
Lemma items_matching key (l : list (Z * A)) :
  items (matching (fun e => cmp key e.2) l) = equal_to key (items l).
Proof. exact (items_filter (fun x => cmp key x = 0) l). Qed.
Lemma items_app (l1 l2 : list (Z * A)) : items (l1 ++ l2) = items l1 ++ items l2.
Proof. apply fmap_app. Qed.

Lemma rep_item ns p (t : tree (Z * A)) a x :
  rep ns p t -> (a, x) ∈ inorder t -> exists nd, ns !! a = Some nd /\ item nd = Some x.
Proof.
  revert p. induction t as [|l IHl [b y] r IHr]; simpl; intros p; [by intros _ ?%elem_of_nil|].
  intros (_ & nd & Hn & Hi & Hl & Hr) [Hin|[[= -> ->]|Hin]%elem_of_cons]%elem_of_app; eauto.
Qed.

Lemma rep_points T t fl a x : tree_rep xmalloc T t fl -> (a, x) ∈ inorder t -> points_to T a x.
Proof. intros Hr. apply (rep_item _ _ _ _ _ (trep_root _ _ _ _ Hr)). Qed.

Lemma holds_new size :
  SIZEOF_NODE size < CHUNK_SIZE -> 0 < SIZEOF_NODE size ->
  exists T, sml_tree_new size = Ok T /\ holds T [].
Proof.
  intros H1 H2. unfold sml_tree_new. rewrite (proj2 (Z.leb_le _ _)) by lia. simpl.
  eexists. split; [done|]. exists Leaf, []. split; [|split; [done|constructor]].
  split; simpl; [done|done|constructor|]. exists []. split; simpl; [lia|split; constructor|constructor|].
  intros a [? Ha]. by rewrite lookup_empty in Ha.
Qed.

Lemma find_holds `{!ItemOrder cmp} T l key :
  holds T l ->
  exists o T', sml_tree_find cmp T key = Ok (o, T') /\ holds T' l /\
    match o with
    | Some a => exists x, points_to T' a x /\ x ∈ l /\ cmp key x = 0
    | None => equal_to key l = []
    end.
Proof.
  intros (t & fl & Ht & <- & Hs).
  destruct (sml_tree_find_spec cmp xmalloc T t fl key Ht Hs) as (o & T' & t' & Hrun & Ht' & Hi & Ho).
  exists o, T'. split; [done|]. split; [exists t', fl; by rewrite Hi|].
  unfold lookup_key in Ho. rewrite <- items_matching.
  destruct (matching _ (inorder t)) as [|[a x] m] eqn:Hm; simpl in Ho; subst o; [done|].
  assert (Hin : (a, x) ∈ matching (fun e => cmp key e.2) (inorder t)) by (rewrite Hm; by left).
  apply list_elem_of_filter in Hin as [Hx Hin]. exists x. split; [|split; [|done]].
  - eapply rep_points; [exact Ht'|by rewrite Hi].
  - apply list_elem_of_fmap. by exists (a, x).
Qed.

Lemma insert_holds `{!ItemOrder cmp} T l key :
  disjoint_blocks xmalloc -> holds T l ->
  exists a T', sml_tree_insert cmp xmalloc T key = Ok (a, T') /\ points_to T' a key /\
    holds T' (below key l ++ key :: above key l).
Proof.
  intros Hdb (t & fl & Ht & <- & Hs).
  destruct (sml_tree_insert_spec cmp xmalloc T t fl key Hdb Ht Hs) as (a & T' & t' & fl' & Hi & Ht' & Hin).
  exists a, T'. split; [done|]. split.
  - eapply rep_points; [exact Ht'|]. rewrite Hin. apply elem_of_app. right. by left.
  - exists t', fl'. split; [done|]. assert (Hso := sorted_place cmp key a (inorder t) Hs).
    rewrite <- Hin in Hso. rewrite Hin in Hso |- *.
    rewrite items_app, items_smaller in *. change (items ((a, key) :: ?l)) with (key :: items l) in *.
    rewrite items_larger in *. done.
Qed.

Lemma delete_holds `{!ItemOrder cmp} T l key :
  holds T l ->
  exists o T', sml_tree_delete cmp T key = Ok (o, T') /\
    match o with
    | Some a => holds T' (below key l ++ above key l) /\ exists x, x ∈ l /\ cmp key x = 0
    | None => holds T' l /\ equal_to key l = []
    end.
Proof.
  intros (t & fl & Ht & <- & Hs).
  destruct (sml_tree_delete_spec cmp xmalloc T t fl key Ht Hs) as (o & T' & t' & fl' & Hrun & Ht' & Hd).
  exists o, T'. split; [done|]. unfold deleted, lookup_key in Hd. rewrite <- items_matching.
  destruct (matching _ (inorder t)) as [|[a x] m] eqn:Hm; simpl in Hd.
  - destruct Hd as (-> & -> & Hi). split; [|done]. exists t', fl. by rewrite Hi.
  - destruct Hd as (-> & -> & Hi). split.
    + exists t', (a :: fl). split; [done|]. rewrite Hi, items_app, items_smaller, items_larger.
      split; [done|]. assert (Hso := sorted_place cmp key a (inorder t) Hs).
      rewrite <- items_smaller, <- items_larger, <- items_app.
      eapply sorted_items_sublist; [|exact Hso]. apply sublist_app; [done|by constructor].
    + assert (Hin : (a, x) ∈ matching (fun e => cmp key e.2) (inorder t)) by (rewrite Hm; by left).
      apply list_elem_of_filter in Hin as [Hx Hin]. exists x. split; [|done].
      apply list_elem_of_fmap. by exists (a, x).
Qed.

(** What is left of the items, and the state of the callback. *)
Section Callbacks.
Context {St : Type}.

Fixpoint keep_items (reject : A -> St -> bool * St) l (st : St) : list A * St :=
  match l with
  | [] => ([], st)
  | x :: l =>
      let '(rej, st) := reject x st in
      let '(ks, st) := keep_items reject l st in
      (if rej then ks else x :: ks, st)
  end.

Lemma keep_items_rejects reject (l : list (Z * A)) st :
  keep_items reject (items l) st = (items (kept reject l st), reject_state reject l st).
Proof.
  unfold kept, reject_state. revert st. induction l as [|[a x] l IH]; intros st; [done|].
  change (items ((a, x) :: l)) with (x :: items l). simpl.
  destruct (reject x st) as [rej st1]. rewrite IH.
  destruct (rejects reject l st1) as [[ks rs] st2]. by destruct rej.
Qed.

Lemma reject_holds `{!ItemOrder cmp} (reject : A -> St -> bool * St) T l st :
  holds T l ->
  exists T', sml_tree_reject cmp reject T st = Ok (T', (keep_items reject l st).2) /\
    holds T' (keep_items reject l st).1.
Proof.
  intros (t & fl & Ht & <- & Hs). rewrite keep_items_rejects.
  destruct (sml_tree_reject_spec cmp reject xmalloc T t fl st Ht Hs) as (T' & t' & Hrun & Ht' & Hi).
  exists T'. split; [done|]. eexists t', _. split; [exact Ht'|]. rewrite Hi. split; [done|].
  eapply sorted_items_sublist; [apply kept_sublist|exact Hs].
Qed.

(** [sml_tree_each] passes every item to the callback, in order. *)
Fixpoint map_items (visit : A -> St -> A * St) l (st : St) : list A * St :=
  match l with
  | [] => ([], st)
  | x :: l =>
      let '(y, st) := visit x st in
      let '(l', st) := map_items visit l st in
      (y :: l', st)
  end.

Lemma map_items_visits visit (l : list (Z * A)) st :
  map_items visit (items l) st = (items (visits visit l st).1, (visits visit l st).2).
Proof.
  revert st. induction l as [|[a x] l IH]; intros st; [done|].
  change (items ((a, x) :: l)) with (x :: items l). simpl.
  destruct (visit x st) as [y st1]. rewrite IH. by destruct (visits visit l st1).
Qed.

(** The items may change arbitrarily: what is left is a tree that need not be
    sorted. *)
Definition holds_unsorted T l : Prop :=
  exists t fl, tree_rep xmalloc T t fl /\ items (inorder t) = l.

Lemma each_holds (visit : A -> St -> A * St) T l st :
  holds_unsorted T l ->
  exists T', sml_tree_each visit T st = Ok (T', (map_items visit l st).2) /\
    holds_unsorted T' (map_items visit l st).1.
Proof.
  intros (t & fl & Ht & <-). rewrite map_items_visits.
  destruct (sml_tree_each_spec cmp visit xmalloc T t fl st Ht) as (T' & t' & Hrun & Ht' & Hi).
  exists T'. split; [done|]. exists t', fl. by rewrite Hi.
Qed.
End Callbacks.

(** [l'] has one item for every class of equal items of [l]. *)
Definition rebuilt_from l l' : Prop :=
  sorted_items cmp l' /\ (forall x, x ∈ l' -> x ∈ l) /\
  (forall x, x ∈ l -> exists y, y ∈ l' /\ cmp x y = 0).

Lemma cmp_refl `{!ItemOrder cmp} x : cmp x x = 0.
Proof. pose proof (cmp_antisym x x). lia. Qed.

Lemma insert_all_rebuilt `{!ItemOrder cmp} (es : list (Z * A)) : forall l : list (Z * A),
  sorted_items cmp (items l) -> rebuilt_from (items (es ++ l)) (items (insert_all cmp es l)).
Proof.
  induction es as [|e es IH]; intros l Hs.
  { split; [done|]. split; [done|]. intros x Hx. exists x. split; [done|apply cmp_refl]. }
  change (insert_all cmp (e :: es) l) with (insert_all cmp es (ins cmp l e)).
  destruct (IH (ins cmp l e)) as (H1 & H2 & H3); [by apply sorted_ins|].
  rewrite items_app in H2, H3. simpl app. change (items (e :: es ++ l)) with (e.2 :: items (es ++ l)).
  rewrite items_app. split; [done|].
  assert (Hl : forall x, x ∈ items l -> x ∈ items (ins cmp l e)).
  { destruct (matching (fun f : Z * A => cmp e.2 f.2) l) eqn:Hm.
    - destruct (ins_miss cmp e l Hm) as [_ Hp]. intros x Hx. unfold items in *. rewrite Hp. by right.
    - rewrite ins_hit; [done|by rewrite Hm]. }
  assert (He : exists y, y ∈ items (ins cmp l e) /\ cmp e.2 y = 0).
  { destruct (matching (fun f : Z * A => cmp e.2 f.2) l) as [|f m] eqn:Hm.
    - destruct (ins_miss cmp e l Hm) as [_ Hp]. exists e.2. split; [|apply cmp_refl].
      unfold items. rewrite Hp. by left.
    - assert (Hf : f ∈ matching (fun f : Z * A => cmp e.2 f.2) l) by (rewrite Hm; by left).
      apply list_elem_of_filter in Hf as [Hf Hin]. exists f.2. split; [|done].
      apply Hl, list_elem_of_fmap. by exists f. }
  split.
  - intros x Hx. apply H2, elem_of_app in Hx. rewrite elem_of_cons, elem_of_app.
    destruct Hx as [Hx|Hx]; [by right; left|].
    destruct (matching (fun f : Z * A => cmp e.2 f.2) l) eqn:Hm.
    + destruct (ins_miss cmp e l Hm) as [_ Hp]. unfold items in Hx. rewrite Hp in Hx.
      apply elem_of_cons in Hx. naive_solver.
    + rewrite ins_hit in Hx; [|by rewrite Hm]. auto.
  - intros x Hx. rewrite elem_of_cons, elem_of_app in Hx. setoid_rewrite elem_of_app in H3.
    destruct Hx as [->|[Hx|Hx]]; [|by apply H3; left|by apply H3; right; apply Hl].
    destruct He as (y & Hy & Hey). destruct (H3 y) as (z & Hz & Hyz); [by right|].
    exists z. split; [done|]. pose proof (cmp_eq_compat _ _ z Hey). lia.
Qed.

Lemma rebuild_holds `{!ItemOrder cmp} T l :
  holds_unsorted T l -> exists T' l', sml_tree_rebuild cmp T = Ok T' /\ holds T' l' /\ rebuilt_from l l'.
Proof.
  intros (t & fl & Ht & <-).
  destruct (sml_tree_rebuild_spec cmp xmalloc T t fl Ht) as (T' & t' & Hrun & Ht' & Hi).
  exists T', (items (inorder t')). split; [done|].
  destruct (insert_all_rebuilt (postorder t) [] ltac:(constructor)) as (H1 & H2 & H3).
  rewrite app_nil_r in H2, H3. rewrite <- Hi in H1, H2, H3.
  assert (Hp : items (postorder t) ≡ₚ items (inorder t)) by (unfold items; by rewrite postorder_perm).
  split; [by eexists t', _|]. setoid_rewrite Hp in H2. setoid_rewrite Hp in H3. done.
Qed.
Lemma equal_to_nil key l : equal_to key l = [] <-> forall x, x ∈ l -> cmp key x <> 0.
Proof.
  unfold equal_to. split.
  - intros H x Hx Hk. assert (Hin : x ∈ filter (fun x => cmp key x = 0) l) by (by apply list_elem_of_filter).
    rewrite H in Hin. by apply elem_of_nil in Hin.
  - intros H. apply filter_none. by apply Forall_forall.
Qed.

Lemma sorted_items_split key l `{!ItemOrder cmp} :
  sorted_items cmp l -> l = below key l ++ equal_to key l ++ above key l.
Proof.
  unfold below, equal_to, above, sorted_items. induction l as [|x l IH]; [done|].
  intros [Hs HF]%StronglySorted_inv. specialize (IH Hs). rewrite !filter_cons.
  destruct (Z.lt_trichotomy (cmp key x) 0) as [Hk|[Hk|Hk]]; repeat case_decide; try lia.
  - assert (Ha : Forall (fun y => cmp key y < 0) l).
    { eapply Forall_impl; [exact HF|]. intros y Hy. simpl in Hy. by eapply cmp_lt_trans. }
    rewrite (filter_none (fun y => 0 < cmp key y)), (filter_none (fun y => cmp key y = 0)),
      filter_all; [done|done|..]; eapply Forall_impl; try exact Ha; simpl; lia.
  - assert (Ha : Forall (fun y => cmp key y < 0) l).
    { eapply Forall_impl; [exact HF|]. intros y Hy. simpl in Hy.
      pose proof (cmp_eq_compat _ _ y Hk). lia. }
    rewrite (filter_none (fun y => 0 < cmp key y)), (filter_none (fun y => cmp key y = 0)),
      filter_all; [done|done|..]; eapply Forall_impl; try exact Ha; simpl; lia.
  - simpl. by f_equal.
Qed.

Lemma below_above_filter key l `{!ItemOrder cmp} :
  sorted_items cmp l -> below key l ++ above key l = filter (fun x => cmp key x <> 0) l.
Proof.
  intros Hs. rewrite (sorted_items_split key l Hs) at 3. rewrite !filter_app.
  rewrite (filter_all _ (below key l)), (filter_all _ (above key l)), filter_none; [done|..];
    apply Forall_forall; intros x Hx; apply list_elem_of_filter in Hx as [? _]; lia.
Qed.

Lemma below_placed key l `{!ItemOrder cmp} : below key (below key l ++ key :: above key l) = below key l.
Proof.
  unfold below at 1. rewrite filter_app, filter_cons, cmp_refl. rewrite decide_False by lia.
  rewrite filter_all, filter_none; [by rewrite app_nil_r|..];
    apply Forall_forall; intros x Hx; apply list_elem_of_filter in Hx as [? _]; lia.
Qed.
Lemma above_placed key l `{!ItemOrder cmp} : above key (below key l ++ key :: above key l) = above key l.
Proof.
  unfold above at 1. rewrite filter_app, filter_cons, cmp_refl. rewrite decide_False by lia.
  rewrite filter_none, filter_all; [done|..];
    apply Forall_forall; intros x Hx; apply list_elem_of_filter in Hx as [? _]; lia.
Qed.
End Spec.

(** Memory for chunks on which the theorems are applied. *)
Definition sample_blocks (i : nat) : Z := 4096 * (Z.of_nat i + 1).
Lemma sample_blocks_disjoint : disjoint_blocks sample_blocks.
Proof. intros i j Hne. rewrite sizeof_chunk_eq. unfold sample_blocks. lia. Qed.
