(* ===== verification/SplayCompact.v ===== *)
(** * Splay trees: compaction and release

    [sml_tree_compact] and [sml_tree_destroy] of src/src/runtime/splay.c.
    Compaction is a copying collection: the chunks of the copy are the queue
    of a breadth-first traversal, from the cursor to the end of what is
    allocated.  [chunk_destroy] removes the nodes of the freed chunks from
    the store; [xmalloc] does not return the freed memory again. *)
From Stdlib Require Import ZArith Lia.
From stdpp Require Import base option list gmap relations sorting.
From S2P Require Import Prelude SplayTree SplayHeap SplayOps.

Local Open Scope Z_scope.

Section Compact.
Context {A : Type} (xmalloc : nat -> Z).
Variables (isz asz : Z).

(** [tree->root], the nodes, the chunks from [begin] up to [newchunk], the
    list that starts at [newchunk]. *)
Record compaction := Compaction {
  c_root : nodeptr;
  c_nodes : gmap Z (@node A);
  c_front : list chunk;
  c_new : list chunk;
  c_mallocs : nat
}.

(** [*node_ref]. *)
Definition read_ref (st : compaction) (s : slot) : res nodeptr :=
  match s with SlotRoot => Ok (c_root st) | SlotChild a d => get_child (c_nodes st) a d end.
Definition write_ref (st : compaction) (s : slot) (v : nodeptr) : res compaction :=
  match s with
  | SlotRoot => Ok (Compaction v (c_nodes st) (c_front st) (c_new st) (c_mallocs st))
  | SlotChild a d =>
      ns ← set_child (c_nodes st) a d v;
      Ok (Compaction (c_root st) ns (c_front st) (c_new st) (c_mallocs st))
  end.

(** "reverse the chunk list" *)
Definition append_chunk (front old cs : list chunk) : res (list chunk * list chunk) :=
  match old, cs with
  | o :: after, c :: _ =>
      if chunk_begin c =? chunk_begin o then Ok (front, cs)
      else assert_that (bool_decide (length after = 0%nat));; Ok (front ++ [o], [c])
  | _, _ => Ok (front, cs)
  end.

Definition forward (st : compaction) (s : slot) : res compaction :=
  v ← read_ref st s;
  match v with
  | None => Ok st
  | Some oldnode =>
      '(p, cs, k) ← chunk_alloc xmalloc (c_new st) (c_mallocs st) asz;
      let newnode := p + NODE_OFFSET isz in
      nd ← load_node (c_nodes st) oldnode;
      let ns := <[newnode := nd]> (c_nodes st) in
      st1 ← write_ref (Compaction (c_root st) ns (c_front st) cs k) s (Some newnode);
      '(front, cs) ← append_chunk (c_front st) (c_new st) cs;
      Ok (Compaction (c_root st1) (c_nodes st1) front cs k)
  end.

(** The chunks from [begin], and the cursor as an index into them and an
    address. *)
Definition c_chunks (st : compaction) : list chunk := c_front st ++ c_new st.

Fixpoint compact_loop (fuel : nat) (i : nat) (p : Z) (st : compaction) : res compaction :=
  match fuel with
  | O => NoFuel
  | S fuel =>
      let node := p + NODE_OFFSET isz in
      st ← forward st (SlotChild node LEFT);
      st ← forward st (SlotChild node RIGHT);
      let p := p + asz in
      c ← deref (c_chunks st !! i);
      if chunk_free c <=? p then
        match c_chunks st !! S i with
        | None => Ok st
        | Some c => compact_loop fuel (S i) (chunk_begin c) st
        end
      else compact_loop fuel i p st
  end.

Definition in_chunk (c : chunk) (a : loc) : bool :=
  (chunk_begin c <=? a - NODE_OFFSET isz) && (a - NODE_OFFSET isz <? chunk_begin c + sizeof_chunk).
Definition chunk_destroy (cs : list chunk) (ns : gmap Z (@node A)) : gmap Z node :=
  filter (fun e => Forall (fun c => in_chunk c e.1 = false) cs) ns.
End Compact.

Definition sml_tree_compact {A} (xmalloc : nat -> Z) (t : @sml_tree A) : res sml_tree :=
  st ← forward xmalloc (item_size t) (alloc_size t) (Compaction (root t) (nodes t) [] [] (mallocs t)) SlotRoot;
  st ← match c_root st with
       | None => Ok st
       | Some _ =>
           c ← deref (head (c_new st));
           compact_loop xmalloc (item_size t) (alloc_size t) (tree_fuel (nodes t)) 0 (chunk_begin c) st
       end;
  Ok (SmlTree (item_size t) (alloc_size t) (c_root st) (c_chunks st) None
              (chunk_destroy (item_size t) (chunks t) (c_nodes st)) (c_mallocs st)).

(** The nodes that are left; the structure itself is not freed. *)
Definition sml_tree_destroy {A} (t : @sml_tree A) : gmap Z (@node A) :=
  chunk_destroy (item_size t) (chunks t) (nodes t).

(** ** The chunks of the copy as an array of nodes *)
Section Grid.
Context {A : Type} (xmalloc : nat -> Z).
Variables (isz asz : Z) (old : list chunk) (ns0 : gmap Z (@node A)).
Hypothesis Hasz : 0 < asz < CHUNK_SIZE.
Hypothesis Hblocks : disjoint_blocks xmalloc.
Implicit Types (ns : gmap Z (@node A)) (st : @compaction A) (u t : tree (Z * A)) (gr : list (chunk * nat)).

Abbreviation OFF := (NODE_OFFSET isz).

(** The nodes of a chunk that starts at [p]; the chunks with the number of
    their nodes. *)
Definition cells (p : Z) (j n : nat) : list loc := map (fun i => p + asz * Z.of_nat i + OFF) (seq j n).
Definition chunk_cells (g : chunk * nat) : list loc := cells (chunk_begin g.1) 0 g.2.
Definition filled (g : chunk * nat) : Prop := chunk_free g.1 = chunk_begin g.1 + asz * Z.of_nat g.2 /\ (0 < g.2)%nat.

(** The nodes from the cursor on. *)
Definition pending (i : nat) (p : Z) (Q : list loc) gr : Prop :=
  exists gr1 c j n gr2, gr = gr1 ++ (c, (j + n)%nat) :: gr2 /\ i = length gr1 /\ (0 < n)%nat /\
    p = chunk_begin c + asz * Z.of_nat j /\ Q = cells (chunk_begin c) j n ++ concat (map chunk_cells gr2).

(** One more node, at [b]. *)
Inductive grid_push : list (chunk * nat) -> loc -> list (chunk * nat) -> Prop :=
| push_same gr c n : filled (c, n) ->
    grid_push (gr ++ [(c, n)]) (chunk_free c + OFF) (gr ++ [(Chunk (chunk_begin c) (chunk_free c + asz), S n)])
| push_new gr p : grid_push gr (p + OFF) (gr ++ [(Chunk p (p + asz), 1%nat)]).

Lemma cells_snoc p j n : cells p j (S n) = cells p j n ++ [p + asz * Z.of_nat (j + n) + OFF].
Proof. unfold cells. by rewrite seq_S, map_app. Qed.
Lemma chunk_cells_one c p : chunk_begin c = p -> chunk_cells (c, 1%nat) = [p + OFF].
Proof. intros <-. unfold chunk_cells, cells. simpl. f_equal. lia. Qed.

Lemma pending_push i p Q gr b gr' : grid_push gr b gr' -> pending i p Q gr -> pending i p (Q ++ [b]) gr'.
Proof.
  intros Hp (gr1 & c & j & n & gr2 & Hgr & -> & Hn & -> & ->). destruct Hp as [gr0 c0 n0 Hf|gr q].
  - destruct gr2 as [|g gr3 _] using rev_ind.
    + apply app_inj_tail in Hgr as [-> [= -> ->]]. destruct Hf as [Hf _]. simpl in Hf.
      exists gr1, (Chunk (chunk_begin c) (chunk_free c + asz)), j, (S n), [].
      rewrite cells_snoc, Nat.add_succ_r. cbn [map concat]. rewrite !app_nil_r. split_and!; try done; [lia|]. do 2 f_equal. simpl. lia.
    + rewrite app_comm_cons, app_assoc in Hgr. apply app_inj_tail in Hgr as [-> <-].
      exists gr1, c, j, n, (gr3 ++ [(Chunk (chunk_begin c0) (chunk_free c0 + asz), S n0)]).
      rewrite <- app_assoc. split_and!; try done. rewrite !map_app, !concat_app. cbn [map concat]. rewrite !app_nil_r, <- !app_assoc.
      do 2 f_equal. unfold chunk_cells. cbn [fst snd chunk_begin]. rewrite cells_snoc. destruct Hf as [Hf _]. simpl in Hf. do 2 f_equal. simpl. lia.
  - subst gr. exists gr1, c, j, n, (gr2 ++ [(Chunk q (q + asz), 1%nat)]). rewrite <- app_assoc. split_and!; try done.
    rewrite map_app, concat_app. cbn [map concat]. rewrite app_nil_r, <- app_assoc. by rewrite (chunk_cells_one (Chunk q (q + asz)) q).
Qed.

Lemma pending_head i p Q gr : pending i p Q gr -> head Q = Some (p + OFF).
Proof.
  intros (gr1 & c & j & n & gr2 & _ & _ & Hn & -> & ->). destruct n as [|n]; [lia|]. done.
Qed.

(** What the end of the loop body does to the cursor. *)
Lemma pending_next i p b Q gr : Forall filled gr -> pending i p (b :: Q) gr ->
  exists c n, gr !! i = Some (c, n) /\
    if chunk_free c <=? p + asz then
      match gr !! S i with
      | Some (c', _) => pending (S i) (chunk_begin c') Q gr
      | None => Q = []
      end
    else pending i (p + asz) Q gr.
Proof.
  intros Hf (gr1 & c & j & n & gr2 & -> & -> & Hn & -> & HQ). exists c, (j + n)%nat.
  rewrite list_lookup_middle by done. split; [done|]. apply Forall_app in Hf as [_ Hf].
  apply Forall_cons in Hf as [[Hc _] Hf]. simpl in Hc. destruct n as [|n]; [lia|]. simpl in HQ. injection HQ as _ ->.
  rewrite Hc. destruct (Z.leb_spec (chunk_begin c + asz * Z.of_nat (j + S n)) (chunk_begin c + asz * Z.of_nat j + asz)) as [Hle|Hgt].
  - assert (n = 0)%nat as -> by nia. simpl. rewrite (cons_middle _ gr1), app_assoc, (lookup_app_r _ _ (S (length gr1)))
      by (rewrite length_app; simpl; lia). replace (S (length gr1) - length (gr1 ++ [(c, (j + 1)%nat)]))%nat with 0%nat
      by (rewrite length_app; simpl; lia).
    destruct gr2 as [|[c' n'] gr2]; [done|]. simpl. apply Forall_cons in Hf as [[_ Hn'] _]. simpl in Hn'.
    exists (gr1 ++ [(c, (j + 1)%nat)]), c', 0%nat, n', gr2. 
split_and!; [done|rewrite length_app; simpl; lia|done|lia|done].
  - exists gr1, c, (S j), n, gr2. split_and!; [by rewrite Nat.add_succ_comm|done|destruct n; [nia|lia]|lia|done].
Qed.

(** ** Chunks do not overlap *)
Lemma chunk_unique (T : @sml_tree A) ids c c' :
  alloc_inv xmalloc T ids -> c ∈ chunks T -> c' ∈ chunks T -> chunk_begin c = chunk_begin c' -> c = c'.
Proof.
  intros [_ [Hnd _] Hf _] [j Hj]%list_elem_of_lookup [j' Hj']%list_elem_of_lookup Hb.
  destruct (Forall2_lookup_l _ _ _ _ _ Hf Hj) as (i & Hi & Hbi & _).
  destruct (Forall2_lookup_l _ _ _ _ _ Hf Hj') as (i' & Hi' & Hbi' & _).
  destruct (decide (i = i')) as [<-|Hne].
  - rewrite (NoDup_lookup _ _ _ _ Hnd Hi Hi') in Hj. congruence.
  - destruct (Hblocks i i' Hne); rewrite sizeof_chunk_eq in *; lia.
Qed.

Lemma chunk_apart (T : @sml_tree A) ids c c' :
  alloc_inv xmalloc T ids -> c ∈ chunks T -> c' ∈ chunks T -> chunk_begin c <> chunk_begin c' ->
  chunk_begin c + sizeof_chunk <= chunk_begin c' \/ chunk_begin c' + sizeof_chunk <= chunk_begin c.
Proof.
  intros Hinv Hc Hc' Hne. destruct (chunk_lookup _ _ _ _ Hinv Hc) as (i & _ & Hb & _).
  destruct (chunk_lookup _ _ _ _ Hinv Hc') as (i' & _ & Hb' & _). rewrite Hb, Hb' in *.
  apply Hblocks. congruence.
Qed.

(** ** The state of a compaction *)
Definition whole st gr : @sml_tree A := SmlTree isz asz None (old ++ gr.*1) None (c_nodes st) (c_mallocs st).

Record comp_inv st gr (ids : list nat) : Prop := {
  ci_chunks : gr = [] /\ c_front st = [] /\ c_new st = [] \/
              exists gr0 c n, gr = gr0 ++ [(c, n)] /\ c_front st = gr0.*1 /\ c_new st = [c];
  ci_filled : Forall filled gr;
  ci_alloc : alloc_inv xmalloc (whole st gr) ids;
  ci_copied a : is_Some (c_nodes st !! a) -> is_Some (ns0 !! a) \/ exists c, c ∈ gr.*1 /\ in_chunk isz c a = true
}.

Lemma comp_chunks st gr ids : comp_inv st gr ids -> c_chunks st = gr.*1.
Proof.
  unfold c_chunks. intros [[(-> & -> & ->)|(gr0 & c & n & -> & -> & ->)] _ _ _]; [done|]. by rewrite fmap_app.
Qed.

Lemma new_chunk_fresh st gr ids c a :
  alloc_inv xmalloc (whole st gr) ids -> is_Some (c_nodes st !! a) -> chunk_begin c = xmalloc (c_mallocs st) ->
  ~ (chunk_begin c <= a - OFF < chunk_begin c + sizeof_chunk).
Proof.
  intros Hinv Ha Hb Hin. destruct (alloc_nodes _ _ _ Hinv a Ha) as (c' & Hc' & Hlo & Hhi). simpl in Hlo, Hhi.
  destruct (chunk_lookup _ _ _ _ Hinv Hc') as (i & Hi & Hb' & Hfree). unfold CHUNK_END in Hfree.
  destruct (alloc_ids _ _ _ Hinv) as [_ Hk]. rewrite Forall_forall in Hk. specialize (Hk i Hi). simpl in Hk.
  assert (Hne : i <> c_mallocs st) by lia. rewrite sizeof_chunk_eq in *. rewrite CHUNK_SIZE_eq in *.
  destruct (Hblocks i (c_mallocs st) Hne); rewrite sizeof_chunk_eq in *; lia.
Qed.

(** A new chunk with one node. *)
Lemma comp_inv_new st gr ids front root nd :
  comp_inv st gr ids ->
  front = gr.*1 ->
  let p := xmalloc (c_mallocs st) in
  c_nodes st !! (p + OFF) = None /\
  comp_inv (Compaction root (<[p + OFF := nd]> (c_nodes st)) front [Chunk p (p + asz)] (S (c_mallocs st)))
           (gr ++ [(Chunk p (p + asz), 1%nat)]) (ids ++ [c_mallocs st]).
Proof.
  intros [Hch Hfl Hinv Hcp] -> p. split.
  { apply eq_None_not_Some. intros Ha. apply (new_chunk_fresh st gr ids (Chunk p p) _ Hinv Ha); [done|]. simpl. rewrite sizeof_chunk_eq. lia. }
  pose proof Hinv as [H1 [Hnd Hk] Hf Hn]. simpl in *. split.
  - right. by eexists gr, _, _.
  - apply Forall_app. split; [done|]. constructor; [|done]. unfold filled. simpl. lia.
  - unfold whole. simpl. rewrite fmap_app. simpl. rewrite app_assoc.
    refine (alloc_inv_insert xmalloc _ _ _ _ _ _ _ Hinv _ _ _ _ _); simpl.
    + apply NoDup_app. split; [done|]. split; [|apply NoDup_singleton]. intros i Hi ->%list_elem_of_singleton.
      rewrite Forall_forall in Hk. specialize (Hk _ Hi). lia.
    + apply Forall_app. split; [eapply Forall_impl; [exact Hk|simpl; lia]|]. constructor; [lia|done].
    + apply Forall2_app; [done|]. constructor; [|done]. unfold CHUNK_END. simpl. lia.
    + intros c Hc. exists c. split; [apply elem_of_app; by left|lia].
    + eexists. split; [apply elem_of_app; right; by left|]. simpl. lia.
  - simpl. intros a Ha. rewrite fmap_app. destruct (decide (p + OFF = a)) as [<-|Hne].
    + right. eexists. split; [apply elem_of_app; right; by left|]. unfold in_chunk. simpl. rewrite sizeof_chunk_eq. lia.
    + rewrite lookup_insert_ne in Ha by done. destruct (Hcp a Ha) as [?|(c & Hc & Hin)]; [by left|right].
      exists c. split; [apply elem_of_app; by left|done].
Qed.

(** One more node in the last chunk. *)
Lemma comp_inv_same st gr0 c n ids root nd :
  comp_inv st (gr0 ++ [(c, n)]) ids -> asz <= CHUNK_REST c ->
  c_nodes st !! (chunk_free c + OFF) = None /\
  comp_inv (Compaction root (<[chunk_free c + OFF := nd]> (c_nodes st)) gr0.*1 [Chunk (chunk_begin c) (chunk_free c + asz)] (c_mallocs st))
           (gr0 ++ [(Chunk (chunk_begin c) (chunk_free c + asz), S n)]) ids.
Proof.
  intros [Hch Hfl Hinv Hcp] Hrest. unfold CHUNK_REST, CHUNK_END in Hrest. assert (C := sizeof_chunk_eq). assert (C' := CHUNK_SIZE_eq).
  assert (Hcin : c ∈ chunks (whole st (gr0 ++ [(c, n)]))).
  { simpl. rewrite fmap_app. rewrite !elem_of_app. right. right. by left. }
  destruct (chunk_lookup _ _ _ _ Hinv Hcin) as (_ & _ & _ & Hfc). split.
  - apply eq_None_not_Some. intros Ha. destruct (alloc_nodes _ _ _ Hinv _ Ha) as (c' & Hc' & Hlo & Hhi). simpl in Hlo, Hhi.
    destruct (decide (chunk_begin c = chunk_begin c')) as [Heq|Hne].
    + rewrite <- (chunk_unique _ _ _ _ Hinv Hcin Hc' Heq) in Hhi. lia.
    + destruct (chunk_lookup _ _ _ _ Hinv Hcin) as (_ & _ & _ & Hfree). destruct (chunk_lookup _ _ _ _ Hinv Hc') as (_ & _ & _ & Hfree').
      unfold CHUNK_END in *. destruct (chunk_apart _ _ _ _ Hinv Hcin Hc' Hne); lia.
  - apply Forall_app in Hfl as [Hfl Hlast]. apply Forall_singleton in Hlast as [Hfr Hpos]. simpl in Hfr, Hpos. split.
    + right. by eexists gr0, _, _.
    + apply Forall_app. split; [done|]. constructor; [|done]. unfold filled. simpl. lia.
    + pose proof Hinv as [H1 [Hnd Hk] Hf Hn]. unfold whole in *. simpl in *. rewrite fmap_app in Hf |- *. simpl in *. rewrite app_assoc in Hf |- *.
      apply Forall2_app_inv_l in Hf as (ids1 & ids2 & Hf1 & Hf2 & ->).
      apply Forall2_cons_inv_l in Hf2 as (i & ids3 & (Hb & Hfb) & Hf3 & ->). apply Forall2_nil_inv_l in Hf3 as ->.
      refine (alloc_inv_insert xmalloc _ _ _ _ _ _ _ Hinv _ _ _ _ _); simpl; [done|done|..].
      * apply Forall2_app; [done|]. constructor; [|done]. unfold CHUNK_END in *. simpl. lia.
      * rewrite fmap_app, app_assoc. simpl. intros c' [Hc'|Hc'%list_elem_of_singleton]%elem_of_app.
        -- exists c'. split; [apply elem_of_app; by left|lia].
        -- subst c'. eexists. split; [apply elem_of_app; right; by left|]. simpl. lia.
      * eexists. split; [apply elem_of_app; right; by left|]. simpl. unfold CHUNK_END in *. lia.
    + simpl. intros a Ha. rewrite fmap_app in *. simpl in *. destruct (decide (chunk_free c + OFF = a)) as [<-|Hne].
      * right. eexists. split; [apply elem_of_app; right; by left|]. unfold in_chunk. simpl.
        unfold CHUNK_END in Hfc. lia.
      * rewrite lookup_insert_ne in Ha by done. destruct (Hcp a Ha) as [?|(c' & Hc' & Hin)]; [by left|right].
        apply elem_of_app in Hc' as [Hc'|Hc'].
        -- exists c'. split; [apply elem_of_app; by left|done].
        -- apply list_elem_of_singleton in Hc' as ->. eexists. split; [apply elem_of_app; right; by left|exact Hin].
Qed.

Lemma copy_alloc st gr ids : comp_inv st gr ids ->
  exists p cs k front new gr' ids',
    chunk_alloc xmalloc (c_new st) (c_mallocs st) asz = Ok (p, cs, k) /\
    append_chunk (c_front st) (c_new st) cs = Ok (front, new) /\ grid_push gr (p + OFF) gr' /\
    c_nodes st !! (p + OFF) = None /\
    forall root nd, comp_inv (Compaction root (<[p + OFF := nd]> (c_nodes st)) front new k) gr' ids'.
Proof.
  intros Hci. unfold chunk_alloc. rewrite (proj2 (Z.ltb_lt _ _)) by lia. simpl.
  destruct (ci_chunks _ _ _ Hci) as [(-> & Hfr & ->)|(gr0 & c & n & -> & Hfr & ->)].
  - destruct (comp_inv_new st [] ids [] (c_root st) fresh_node Hci eq_refl) as [Hfresh _].
    eexists _, _, _, _, _, _, _. split; [done|]. rewrite Hfr. split; [done|]. split; [apply push_new|]. split; [done|].
    intros root nd. by apply (comp_inv_new st [] ids [] root nd).
  - destruct (Z.ltb_spec (CHUNK_REST c) asz) as [Hfull|Hroom].
    + destruct (comp_inv_new st _ ids _ (c_root st) fresh_node Hci eq_refl) as [Hfresh _].
      eexists _, _, _, _, _, _, _. split; [done|]. simpl.
      assert (Hne : xmalloc (c_mallocs st) <> chunk_begin c).
      { intros Heq. destruct (ci_alloc _ _ _ Hci) as [_ [_ Hk] Hf _]. simpl in *. rewrite fmap_app in Hf.
        assert (Hin : c ∈ old ++ gr0.*1 ++ [(c, n)].*1) by (rewrite !elem_of_app; right; right; by left).
        destruct (chunk_lookup _ _ _ c (ci_alloc _ _ _ Hci)) as (i & Hi & Hb & _); [by rewrite <- fmap_app in Hin|].
        rewrite Forall_forall in Hk. specialize (Hk i Hi). rewrite Hb in Heq.
        destruct (Hblocks (c_mallocs st) i); [lia|rewrite sizeof_chunk_eq in *; lia..]. }
      rewrite (proj2 (Z.eqb_neq _ _)) by done. rewrite Hfr. split; [done|]. split; [apply push_new|]. split; [done|].
      intros root nd. apply (comp_inv_new st _ ids); [done|]. by rewrite fmap_app.
    + destruct (comp_inv_same st gr0 c n ids (c_root st) fresh_node Hci Hroom) as [Hfresh _].
      eexists _, _, _, _, _, _, _. split; [done|]. simpl. rewrite Z.eqb_refl. rewrite Hfr. split; [done|].
      split; [apply push_same|]. 2: split; [done|]. 2: intros root nd; by apply comp_inv_same.
      destruct Hci as [_ Hfl _ _]. apply Forall_app in Hfl as [_ Hl]. apply Forall_cons in Hl as [Hl _]. exact Hl.
Qed.

(** ** Copying a node *)

(** The tree without its addresses. *)
Fixpoint shape (t : tree (Z * A)) : tree A :=
  match t with Leaf => Leaf | Node l e r => Node (shape l) e.2 (shape r) end.

(** A copied node whose children are still those of the original. *)
Record waiting_node := WaitingNode { w_loc : loc; w_item : A; w_left : tree (Z * A); w_right : tree (Z * A) }.
Definition waiting (O : list loc) ns (w : waiting_node) : Prop :=
  exists nd, ns !! w_loc w = Some nd /\ item nd = Some (w_item w) /\ ~ w_loc w ∈ O /\
    rep ns (pick LEFT (child nd)) (w_left w) /\ rep ns (pick RIGHT (child nd)) (w_right w) /\
    locs (inorder (w_left w)) ⊆ O /\ locs (inorder (w_right w)) ⊆ O.
Definition work (W : list waiting_node) : nat := sum_list_with (fun w => S (tsize (w_left w) + tsize (w_right w))) W.

(** The copies made by one call of [forward] for the subtree [u]. *)
Definition target u (E : list waiting_node) (p : nodeptr) : Prop :=
  match u with
  | Leaf => E = [] /\ p = None
  | Node l (_, x) r => exists b, E = [WaitingNode b x l r] /\ p = Some b
  end.

Lemma target_work u E p : target u E p -> work E = tsize u.
Proof.
  destruct u as [|l [a x] r]; simpl; [by intros [-> _]|]. intros (b & -> & _). unfold work. simpl. rewrite tsize_node. lia.
Qed.

Lemma comp_inv_nodes st gr ids root ns :
  (forall a, is_Some (ns !! a) <-> is_Some (c_nodes st !! a)) -> comp_inv st gr ids ->
  comp_inv (Compaction root ns (c_front st) (c_new st) (c_mallocs st)) gr ids.
Proof.
  intros Hd [H1 H2 H3 H4]. split; [done|done|by eapply alloc_inv_same; [..|exact H3]|]. simpl. intros a Ha. by apply H4, Hd.
Qed.

Lemma waiting_frame O ns ns' w :
  (forall a, a ∈ O -> ns' !! a = ns !! a) -> ns' !! w_loc w = ns !! w_loc w -> waiting O ns w -> waiting O ns' w.
Proof.
  intros HO Hw (nd & Hn & Hi & Hb & Hl & Hr & Hlo & Hro). exists nd. rewrite Hw. split_and!; try done;
    (eapply rep_ext; [|eassumption]); intros a Ha; apply HO; [by apply Hlo|by apply Hro].
Qed.

(** [forward] of a reference that is not null. *)
Lemma forward_node st gr ids s oldnode (O : list loc) :
  comp_inv st gr ids -> read_ref st s = Ok (Some oldnode) -> oldnode ∈ O ->
  (forall a, a ∈ O -> is_Some (c_nodes st !! a)) ->
  match s with SlotRoot => True | SlotChild b _ => is_Some (c_nodes st !! b) end ->
  exists b nd st1 gr' ids' front new k, c_nodes st !! oldnode = Some nd /\ c_nodes st !! b = None /\ grid_push gr b gr' /\
    let st0 := Compaction (c_root st) (<[b := nd]> (c_nodes st)) (c_front st) (c_new st) (c_mallocs st) in
    write_ref st0 s (Some b) = Ok st1 /\
    forward xmalloc isz asz st s = Ok (Compaction (c_root st1) (c_nodes st1) front new k) /\
    comp_inv (Compaction (c_root st1) (c_nodes st1) front new k) gr' ids'.
Proof.
  intros Hci Hread Hin HO Hs. destruct (HO _ Hin) as [nd Hn].
  destruct (copy_alloc st gr ids Hci) as (p & cs & k & front & new & gr' & ids' & Hrun & Happ & Hpush & Hfresh & Hinv).
  set (b := p + OFF) in *. set (ns := <[b := nd]> (c_nodes st)).
  destruct s as [|c d].
  - exists b, nd, (Compaction (Some b) ns (c_front st) (c_new st) (c_mallocs st)), gr', ids', front, new, k.
    split; [done|]. split; [done|]. split; [done|]. split; [done|]. unfold forward. rewrite Hread. cbn [mbind res_bind]. rewrite Hrun. cbn [mbind res_bind]. unfold load_node. rewrite Hn.
    cbn [deref mbind res_bind write_ref]. rewrite Happ. split; [done|]. apply Hinv.
  - destruct Hs as [cd Hc]. assert (Hcn : ns !! c = Some cd) by (unfold ns; rewrite lookup_insert_ne; congruence).
    set (ns1 := <[c := MkNode (item cd) (put d (Some b) (child cd)) (back cd)]> ns).
    exists b, nd, (Compaction (c_root st) ns1 (c_front st) (c_new st) (c_mallocs st)), gr', ids', front, new, k.
    split; [done|]. split; [done|]. split; [done|]. split; [simpl; fold ns; by rewrite (set_child_ok ns c cd)|]. unfold forward. rewrite Hread. cbn [mbind res_bind]. rewrite Hrun. cbn [mbind res_bind]. unfold load_node. rewrite Hn.
    cbn [deref mbind res_bind write_ref c_root c_nodes c_front c_new c_mallocs]. fold b. fold ns. rewrite (set_child_ok ns c cd) by done.
    cbn [mbind res_bind c_root c_nodes]. rewrite Happ. split; [done|].
    apply (comp_inv_nodes (Compaction (c_root st) ns front new k)); [|apply Hinv]. simpl. intros a. unfold ns1.
    destruct (decide (c = a)) as [<-|Hne]; [|by rewrite lookup_insert_ne].
    rewrite lookup_insert_eq, Hcn. split; eauto.
Qed.

Lemma forward_child st gr ids b d nd u (O : list loc) :
  comp_inv st gr ids -> (forall a, a ∈ O -> is_Some (c_nodes st !! a)) -> c_nodes st !! b = Some nd -> ~ b ∈ O ->
  rep (c_nodes st) (pick d (child nd)) u -> locs (inorder u) ⊆ O ->
  exists st' gr' ids' E nd', forward xmalloc isz asz st (SlotChild b d) = Ok st' /\ comp_inv st' gr' ids' /\ c_root st' = c_root st /\
    (forall a, a <> b -> is_Some (c_nodes st !! a) -> c_nodes st' !! a = c_nodes st !! a) /\
    c_nodes st' !! b = Some nd' /\ item nd' = item nd /\ pick (OPP d) (child nd') = pick (OPP d) (child nd) /\
    target u E (pick d (child nd')) /\ Forall (waiting O (c_nodes st')) E /\
    (forall w, w ∈ E -> c_nodes st !! w_loc w = None) /\
    (forall a, is_Some (c_nodes st' !! a) -> is_Some (c_nodes st !! a) \/ a ∈ map w_loc E) /\
    (forall i p Q, pending i p Q gr -> pending i p (Q ++ map w_loc E) gr').
Proof.
  intros Hci HO Hb HbO Hr Hu. assert (Hread : read_ref st (SlotChild b d) = Ok (pick d (child nd))) by (by apply get_child_ok).
  destruct u as [|l [a x] r].
  - simpl in Hr. exists st, gr, ids, [], nd. unfold forward. rewrite Hread, Hr. split_and!; try done.
    + by intros w ?%elem_of_nil.
    + intros a Ha. by left.
    + intros i p Q. by rewrite app_nil_r.
  - simpl in Hr. destruct Hr as (Hp & an & Han & Hi & Hl & Hrr). rewrite Hp in Hread.
    simpl in Hu. rewrite locs_app, locs_cons in Hu.
    assert (HaO : a ∈ O) by (apply Hu, elem_of_app; right; by left).
    destruct (forward_node st gr ids (SlotChild b d) a O Hci Hread HaO HO) as
      (c & nd1 & st1 & gr' & ids' & front & new & k & Hn1 & Hfresh & Hpush & Hw & Hrun & Hinv); [by exists nd|].
    rewrite Han in Hn1. simplify_eq. assert (Hcb : c <> b) by congruence.
    simpl in Hw. rewrite (set_child_ok _ b nd) in Hw by (by rewrite lookup_insert_ne). simpl in Hw. injection Hw as <-.
    assert (HOn : forall a, a <> b -> is_Some (c_nodes st !! a) ->
      <[b := MkNode (item nd) (put d (Some c) (child nd)) (back nd)]> (<[c := nd1]> (c_nodes st)) !! a = c_nodes st !! a).
    { intros a' Ha' Hs. rewrite !lookup_insert_ne; [done|intros ->; rewrite Hfresh in Hs; by destruct Hs|congruence]. }
    assert (HOk : forall a, a ∈ O ->
      <[b := MkNode (item nd) (put d (Some c) (child nd)) (back nd)]> (<[c := nd1]> (c_nodes st)) !! a = c_nodes st !! a).
    { intros a' Ha'. apply HOn; [by intros ->|by apply HO]. }
    eexists _, gr', ids', [WaitingNode c x l r], _. split; [exact Hrun|]. split; [exact Hinv|]. split; [done|]. simpl.
    split; [exact HOn|]. split; [by rewrite lookup_insert_eq|]. simpl.
    split; [done|]. split; [by rewrite pick_OPP_put|]. split; [exists c; by rewrite pick_put|]. split_and!.
    + constructor; [|done]. exists nd1. simpl. rewrite lookup_insert_ne, lookup_insert_eq by congruence. split_and!; try done.
      * intros HcO. apply HO in HcO as [? HcO]. congruence.
      * eapply rep_ext; [|exact Hl]. intros a' Ha'. apply HOk, Hu, elem_of_app. by left.
      * eapply rep_ext; [|exact Hrr]. intros a' Ha'. apply HOk, Hu, elem_of_app. right. by right.
      * intros a' Ha'. apply Hu, elem_of_app. by left.
      * intros a' Ha'. apply Hu, elem_of_app. right. by right.
    + intros w ->%list_elem_of_singleton. done.
    + intros a' Ha'. destruct (decide (a' = c)) as [->|Hne]; [right; by left|left].
      destruct (decide (a' = b)) as [->|Hne']; [by exists nd|]. by rewrite !lookup_insert_ne in Ha' by congruence.
    + intros i p Q HQ. simpl. by apply (pending_push i p Q gr).
Qed.

(** ** The loop *)
Definition copy_of ns (w : waiting_node) (t : tree (Z * A)) : Prop :=
  rep ns (Some (w_loc w)) t /\ shape t = Node (shape (w_left w)) (w_item w) (shape (w_right w)).
Definition all_locs (ts : list (tree (Z * A))) : list loc := concat (map (fun t => locs (inorder t)) ts).

Lemma all_locs_cons t ts : all_locs (t :: ts) = locs (inorder t) ++ all_locs ts.
Proof. done. Qed.
Lemma all_locs_app ts ts' : all_locs (ts ++ ts') = all_locs ts ++ all_locs ts'.
Proof. unfold all_locs. by rewrite map_app, concat_app. Qed.

(** From [st] to [st'], the nodes of [W] have become the trees [ts]. *)
Record traversed st (W : list waiting_node) st' (ts : list (tree (Z * A))) : Prop := {
  tv_root : c_root st' = c_root st;
  tv_frame a : ~ a ∈ map w_loc W -> is_Some (c_nodes st !! a) -> c_nodes st' !! a = c_nodes st !! a;
  tv_copies : Forall2 (copy_of (c_nodes st')) W ts;
  tv_nodup : NoDup (all_locs ts);
  tv_new a : a ∈ all_locs ts -> a ∈ map w_loc W \/ c_nodes st !! a = None;
  tv_dom a : is_Some (c_nodes st' !! a) -> is_Some (c_nodes st !! a) \/ a ∈ all_locs ts
}.

Lemma traversed_nil st : traversed st [] st [].
Proof. split; [done|done|constructor|constructor|by intros a ?%elem_of_nil|by left]. Qed.

Lemma target_copy ns u E p ts : target u E p -> Forall2 (copy_of ns) E ts ->
  exists t, rep ns p t /\ shape t = shape u /\ locs (inorder t) = all_locs ts.
Proof.
  destruct u as [|l [a x] r]; simpl.
  - intros [-> ->] ->%Forall2_nil_inv_l. by exists Leaf.
  - intros (b & -> & ->) (t & ts' & [Hr Hs] & ->%Forall2_nil_inv_l & ->)%Forall2_cons_inv_l.
    exists t. split; [done|]. split; [done|]. unfold all_locs. simpl. by rewrite app_nil_r.
Qed.

Lemma copies_locs ns E ts a : Forall2 (copy_of ns) E ts -> a ∈ map w_loc E -> a ∈ all_locs ts.
Proof.
  induction 1 as [|w t E ts [Hr Hs] _ IH]; [by intros ?%elem_of_nil|]. rewrite all_locs_cons, elem_of_app. simpl.
  intros [->|Ha]%elem_of_cons; [left|right; by apply IH]. destruct t as [|l [b x] r]; [done|]. destruct Hr as ([= ->] & _).
  simpl. rewrite locs_app, locs_cons. apply elem_of_app. right. by left.
Qed.

Lemma target_nodup u E p : target u E p -> NoDup (map w_loc E).
Proof.
  destruct u as [|l [a x] r]; simpl; [intros [-> _]; constructor|]. intros (b & -> & _). apply NoDup_singleton.
Qed.

Lemma kept_some st st' b nd' a :
  (forall a, a <> b -> is_Some (c_nodes st !! a) -> c_nodes st' !! a = c_nodes st !! a) -> c_nodes st' !! b = Some nd' ->
  c_nodes st' !! a = None -> c_nodes st !! a = None.
Proof.
  intros Hk Hb Hn. destruct (decide (a = b)) as [->|Hne]; [congruence|].
  destruct (c_nodes st !! a) eqn:E; [|done]. rewrite (Hk a Hne) in Hn by done. congruence.
Qed.

(** Both children of [w] have been forwarded: [E1] and [E2] are the copies. *)
Record scanned (O : list loc) st (w : waiting_node) st2 (E1 E2 : list waiting_node) (nd2 : @node A) : Prop := {
  sc_root : c_root st2 = c_root st;
  sc_kept a : a <> w_loc w -> is_Some (c_nodes st !! a) -> c_nodes st2 !! a = c_nodes st !! a;
  sc_node : c_nodes st2 !! w_loc w = Some nd2;
  sc_item : item nd2 = Some (w_item w);
  sc_left : target (w_left w) E1 (pick LEFT (child nd2));
  sc_right : target (w_right w) E2 (pick RIGHT (child nd2));
  sc_waiting : Forall (waiting O (c_nodes st2)) (E1 ++ E2);
  sc_fresh a : a ∈ map w_loc (E1 ++ E2) -> c_nodes st !! a = None;
  sc_nodup : NoDup (map w_loc (E1 ++ E2));
  sc_dom a : is_Some (c_nodes st2 !! a) -> is_Some (c_nodes st !! a) \/ a ∈ map w_loc (E1 ++ E2)
}.

Lemma fresh_locs (ns : gmap Z (@node A)) (E : list waiting_node) a :
  (forall w, w ∈ E -> ns !! w_loc w = None) -> a ∈ map w_loc E -> ns !! a = None.
Proof. intros Hf (v & -> & Hv)%list_elem_of_fmap. by apply Hf. Qed.

Lemma waiting_some O ns W a : Forall (waiting O ns) W -> a ∈ map w_loc W -> is_Some (ns !! a).
Proof.
  rewrite Forall_forall. intros HW (v & -> & Hv)%list_elem_of_fmap. destruct (HW v Hv) as (vn & ? & _). eauto.
Qed.

(** The two calls of [forward] in the loop. *)
Lemma scan_children st gr ids O w :
  comp_inv st gr ids -> (forall a, a ∈ O -> is_Some (c_nodes st !! a)) -> waiting O (c_nodes st) w ->
  exists st1 st2 gr2 ids2 E1 E2 nd2,
    forward xmalloc isz asz st (SlotChild (w_loc w) LEFT) = Ok st1 /\
    forward xmalloc isz asz st1 (SlotChild (w_loc w) RIGHT) = Ok st2 /\
    comp_inv st2 gr2 ids2 /\
    (forall i p Q, pending i p Q gr -> pending i p (Q ++ map w_loc (E1 ++ E2)) gr2) /\
    scanned O st w st2 E1 E2 nd2.
Proof.
  intros Hci HO (nd & Hn & Hi & HbO & Hl & Hr & HlO & HrO). set (b := w_loc w) in *.
  destruct (forward_child st gr ids b LEFT nd (w_left w) O Hci HO Hn HbO Hl HlO)
    as (st1 & gr1 & ids1 & E1 & nd1 & Hrun1 & Hci1 & Hr1 & Hk1 & Hn1 & Hi1 & Hc1 & Ht1 & HE1 & Hf1 & Hd1 & Hp1).
  assert (HO1 : forall a, a ∈ O -> c_nodes st1 !! a = c_nodes st !! a) by (intros a Ha; apply Hk1; [by intros ->|by apply HO]).
  change (pick RIGHT (child nd1) = pick RIGHT (child nd)) in Hc1.
  destruct (forward_child st1 gr1 ids1 b RIGHT nd1 (w_right w) O Hci1)
    as (st2 & gr2 & ids2 & E2 & nd2 & Hrun2 & Hci2 & Hr2 & Hk2 & Hn2 & Hi2 & Hc2 & Ht2 & HE2 & Hf2 & Hd2 & Hp2); [|done|done| |done|].
  { intros a Ha. rewrite HO1 by done. by apply HO. }
  { rewrite Hc1. eapply rep_ext; [|exact Hr]. intros a Ha. by apply HO1, HrO. }
  change (pick LEFT (child nd2) = pick LEFT (child nd1)) in Hc2.
  assert (Hb1 : forall a, a ∈ map w_loc E1 -> is_Some (c_nodes st1 !! a) /\ a <> b).
  { intros a Ha. split; [by eapply waiting_some|]. intros ->. rewrite (fresh_locs _ _ _ Hf1 Ha) in Hn. done. }
  exists st1, st2, gr2, ids2, E1, E2, nd2. split; [done|]. split; [done|]. split; [done|].
  split; [intros i p Q HQ; rewrite map_app, app_assoc; by apply Hp2, Hp1|].
  split; [congruence| |done|congruence|by rewrite Hc2|done| | | |].
  - intros a Hne Hs. by rewrite Hk2, Hk1 by (try rewrite Hk1; done).
  - apply Forall_app. split; [|done]. rewrite Forall_forall in HE1 |- *. intros v Hv.
    destruct (Hb1 (w_loc v)) as [Hs Hne]; [by apply list_elem_of_fmap_2|].
    apply (waiting_frame O (c_nodes st1)); [|by apply Hk2|by apply HE1].
    intros a Ha. apply Hk2; [by intros ->|rewrite HO1 by done; by apply HO].
  - rewrite map_app. intros a [Ha|Ha]%elem_of_app; [by eapply fresh_locs|].
    apply (fresh_locs _ _ _ Hf2) in Ha. by apply (kept_some st st1 b nd1).
  - rewrite map_app. apply NoDup_app. split; [by eapply target_nodup|]. split; [|by eapply target_nodup].
    intros a Ha Ha2. apply (fresh_locs _ _ _ Hf2) in Ha2. apply Hb1 in Ha as [[? Ha] _]. congruence.
  - rewrite map_app. setoid_rewrite elem_of_app. intros a Ha. apply Hd2 in Ha as [Ha|Ha]; [|by auto].
    apply Hd1 in Ha as [Ha|Ha]; auto.
Qed.

Section Scanned.
Context O st w (W : list waiting_node) st2 E1 E2 nd2 (Hsc : scanned O st w st2 E1 E2 nd2).
Hypothesis Hb : is_Some (c_nodes st !! w_loc w).
Hypothesis HW : Forall (waiting O (c_nodes st)) W.
Hypothesis HwW : w_loc w ∉ map w_loc W.

Lemma queue_other a : a ∈ map w_loc W -> a <> w_loc w /\ a ∉ map w_loc (E1 ++ E2).
Proof.
  intros Ha. split; [by intros ->|]. intros Hf%(sc_fresh _ _ _ _ _ _ _ Hsc).
  apply (waiting_some _ _ _ _ HW) in Ha as [? Ha]. congruence.
Qed.

Lemma head_outside : w_loc w ∉ map w_loc (W ++ E1 ++ E2).
Proof.
  rewrite map_app. intros [H|H%(sc_fresh _ _ _ _ _ _ _ Hsc)]%elem_of_app; [done|].
  destruct Hb as [? Hs]. congruence.
Qed.

(** The queue without [w] and with the copies at its end. *)
Lemma scanned_queue : (forall a, a ∈ O -> is_Some (c_nodes st !! a)) -> w_loc w ∉ O -> NoDup (map w_loc W) ->
  Forall (waiting O (c_nodes st2)) (W ++ E1 ++ E2) /\ NoDup (map w_loc (W ++ E1 ++ E2)) /\
  S (work (W ++ E1 ++ E2)) = work (w :: W).
Proof.
  intros HO HbO Hnd. split; [|split].
  - apply Forall_app. split; [|apply Hsc].
    pose proof HW as HWv. rewrite Forall_forall in HWv |- *. intros v Hv.
    assert (Hvl : w_loc v ∈ map w_loc W) by (by apply list_elem_of_fmap_2).
    apply (waiting_frame O (c_nodes st)); [| |by apply HWv].
    + intros a Ha. apply (sc_kept _ _ _ _ _ _ _ Hsc); [by intros ->|by apply HO].
    + apply (sc_kept _ _ _ _ _ _ _ Hsc); [by apply queue_other|]. destruct (HWv v Hv) as (vn & ? & _). eauto.
  - rewrite map_app. apply NoDup_app. split; [done|]. split; [|apply Hsc]. intros a Ha. by apply queue_other.
  - pose proof (target_work _ _ _ (sc_left _ _ _ _ _ _ _ Hsc)). pose proof (target_work _ _ _ (sc_right _ _ _ _ _ _ _ Hsc)).
    unfold work in *. rewrite !sum_list_with_app. simpl. lia.
Qed.

(** The trees of the new queue give those of the old one. *)
Lemma scanned_traversed st' ts2 : traversed st2 (W ++ E1 ++ E2) st' ts2 -> exists ts, traversed st (w :: W) st' ts.
Proof.
  intros [Tr Tf Tc Tn Tw Td]. pose proof Hsc as [Hroot Hk Hn2 Hi2 Hl Hr _ Hf _ Hd].
  apply Forall2_app_inv_l in Tc as (ts & ts' & Tc & Tc' & ->).
  apply Forall2_app_inv_l in Tc' as (tsl & tsr & Tl & Tr' & ->).
  destruct (target_copy _ _ _ _ tsl Hl Tl) as (tl & Hrl & Hsl & Hll).
  destruct (target_copy _ _ _ _ tsr Hr Tr') as (tr & Hrr & Hsr & Hlr).
  assert (Hp : all_locs (Node tl (w_loc w, w_item w) tr :: ts) ≡ₚ w_loc w :: all_locs (ts ++ tsl ++ tsr)).
  { rewrite all_locs_cons, !all_locs_app, <- Hll, <- Hlr. cbn [inorder]. rewrite locs_app, locs_cons.
    rewrite <- Permutation_middle, <- app_comm_cons. constructor. rewrite (Permutation_app_comm (all_locs ts)). done. }
  assert (HE : forall a, a ∈ map w_loc (E1 ++ E2) -> a ∈ all_locs (ts ++ tsl ++ tsr)).
  { intros a. rewrite map_app, !all_locs_app, !elem_of_app. intros [Ha|Ha]; right; [left|right]; by eapply copies_locs. }
  exists (Node tl (w_loc w, w_item w) tr :: ts). split.
  - congruence.
  - simpl. intros a Ha Hs. apply not_elem_of_cons in Ha as [Hne HaW]. rewrite Tf, Hk; try done; rewrite ?Hk; try done.
    rewrite map_app. intros [H|H%Hf]%elem_of_app; [done|]. rewrite H in Hs. by destruct Hs.
  - constructor; [|done]. split; simpl; [|by rewrite Hsl, Hsr]. split; [done|]. exists nd2.
    rewrite Tf by (try exact head_outside; by exists nd2). done.
  - rewrite Hp. apply NoDup_cons. split; [|done]. intros [H|H]%Tw; [by apply head_outside|congruence].
  - setoid_rewrite Hp. intros a [->|Ha]%elem_of_cons; [left; by left|]. apply Tw in Ha as [H|H].
    + rewrite map_app in H. apply elem_of_app in H as [H|H]; [left; by right|right; by apply Hf].
    + right. destruct (decide (a = w_loc w)) as [->|Hne]; [congruence|]. apply eq_None_not_Some. intros Hs.
      rewrite (Hk a Hne Hs) in H. rewrite H in Hs. by destruct Hs.
  - setoid_rewrite Hp. intros a [Ha|Ha]%Td; [|right; by right]. apply Hd in Ha as [Ha|Ha]; [by left|].
    right. right. by apply HE.
Qed.
End Scanned.

(** One round of the loop, up to the cursor. *)
Lemma scan_node st gr ids i p O w W :
  comp_inv st gr ids -> (forall a, a ∈ O -> is_Some (c_nodes st !! a)) -> pending i p (map w_loc (w :: W)) gr ->
  Forall (waiting O (c_nodes st)) (w :: W) -> NoDup (map w_loc (w :: W)) ->
  exists st1 st2 gr2 ids2 W2,
    forward xmalloc isz asz st (SlotChild (w_loc w) LEFT) = Ok st1 /\ forward xmalloc isz asz st1 (SlotChild (w_loc w) RIGHT) = Ok st2 /\
    comp_inv st2 gr2 ids2 /\ (forall a, a ∈ O -> is_Some (c_nodes st2 !! a)) /\ pending i p (w_loc w :: map w_loc W2) gr2 /\
    Forall (waiting O (c_nodes st2)) W2 /\ NoDup (map w_loc W2) /\ (S (work W2) = work (w :: W))%nat /\
    forall st' ts2, traversed st2 W2 st' ts2 -> exists ts, traversed st (w :: W) st' ts.
Proof.
  intros Hci HO Hpend [Hw HW]%Forall_cons [HwW HndW]%NoDup_cons.
  destruct (scan_children st gr ids O w Hci HO Hw) as (st1 & st2 & gr2 & ids2 & E1 & E2 & nd2 & Hrun1 & Hrun2 & Hci2 & Hp & Hsc).
  pose proof Hw as (nd & Hn & _ & HbO & _). assert (Hb : is_Some (c_nodes st !! w_loc w)) by eauto.
  destruct (scanned_queue O st w W st2 E1 E2 nd2 Hsc HW HwW HO HbO HndW) as (HW2 & Hnd2 & Hwork).
  exists st1, st2, gr2, ids2, (W ++ E1 ++ E2). split_and!; try done.
  - intros a Ha. rewrite (sc_kept _ _ _ _ _ _ _ Hsc); [by apply HO|by intros ->|by apply HO].
  - rewrite map_app. by apply (Hp i p (map w_loc (w :: W))).
  - intros st' ts2. by apply (scanned_traversed O st w W st2 E1 E2 nd2 Hsc Hb).
Qed.

Lemma compact_loop_ok O : forall fuel i p st gr ids W,
  comp_inv st gr ids -> (forall a, a ∈ O -> is_Some (c_nodes st !! a)) -> pending i p (map w_loc W) gr ->
  Forall (waiting O (c_nodes st)) W -> NoDup (map w_loc W) -> (work W <= fuel)%nat ->
  exists st' gr' ids' ts, compact_loop xmalloc isz asz fuel i p st = Ok st' /\ comp_inv st' gr' ids' /\ traversed st W st' ts.
Proof.
  induction fuel as [|fuel IH]; intros i p st gr ids W Hci HO Hpend HW Hnd Hfuel.
  { pose proof (pending_head _ _ _ _ Hpend) as Hh. destruct W as [|w W]; [done|]. unfold work in Hfuel. simpl in Hfuel. lia. }
  pose proof (pending_head _ _ _ _ Hpend) as Hh. destruct W as [|w W]; [done|]. simpl in Hh. injection Hh as Hh.
  destruct (scan_node st gr ids i p O w W Hci HO Hpend HW Hnd)
    as (st1 & st2 & gr2 & ids2 & W2 & Hrun1 & Hrun2 & Hci2 & HO2 & Hpend2 & HW2 & Hnd2 & Hwork & Hfin).
  simpl. rewrite <- Hh, Hrun1. cbn [mbind res_bind]. rewrite Hrun2. cbn [mbind res_bind].
  rewrite (comp_chunks _ _ _ Hci2), !list_lookup_fmap.
  destruct (pending_next i p _ _ gr2 (ci_filled _ _ _ Hci2) Hpend2) as (c & n & -> & Hcur). simpl.
  assert (Hw2 : (work W2 <= fuel)%nat) by lia.
  destruct (chunk_free c <=? p + asz).
  - destruct (gr2 !! S i) as [[c' n']|]; simpl.
    + destruct (IH _ _ _ _ _ _ Hci2 HO2 Hcur HW2 Hnd2 Hw2) as (st' & gr' & ids' & ts2 & Hrun & Hci' & Htv).
      destruct (Hfin _ _ Htv) as [ts Hts]. by exists st', gr', ids', ts.
    + assert (W2 = []) as -> by (by destruct W2). destruct (Hfin _ _ (traversed_nil st2)) as [ts Hts].
      by exists st2, gr2, ids2, ts.
  - destruct (IH _ _ _ _ _ _ Hci2 HO2 Hcur HW2 Hnd2 Hw2) as (st' & gr' & ids' & ts2 & Hrun & Hci' & Htv).
    destruct (Hfin _ _ Htv) as [ts Hts]. by exists st', gr', ids', ts.
Qed.
End Grid.

(** ** The whole compaction *)
Section Whole.
Context {A : Type} (xmalloc : nat -> Z).
Hypothesis Hblocks : disjoint_blocks xmalloc.
Implicit Types (T : @sml_tree A) (t : tree (Z * A)).

(** After the chunks [cs] have been freed. *)
Lemma chunk_destroy_lookup isz cs (ns : gmap Z (@node A)) a :
  chunk_destroy isz cs ns !! a = if decide (Forall (fun c => in_chunk isz c a = false) cs) then ns !! a else None.
Proof.
  unfold chunk_destroy. rewrite map_lookup_filter. destruct (ns !! a) as [nd|]; simpl; [|by case_decide].
  repeat case_guard; repeat case_decide; tauto.
Qed.

(** The copies stay, the old nodes go. *)
Lemma destroy_ok T (st : @compaction A) gr ids :
  comp_inv xmalloc (item_size T) (alloc_size T) (chunks T) (nodes T) st gr ids ->
  let T' := SmlTree (item_size T) (alloc_size T) (c_root st) (c_chunks st) None
              (chunk_destroy (item_size T) (chunks T) (c_nodes st)) (c_mallocs st) in
  (exists ids', alloc_inv xmalloc T' ids') /\
  forall a, is_Some (c_nodes st !! a) -> nodes T !! a = None -> nodes T' !! a = c_nodes st !! a.
Proof.
  intros Hci T'. pose proof (ci_alloc _ _ _ _ _ _ _ _ Hci) as Hal. pose proof Hal as [H1 [Hnd Hk] Hf Hn]. simpl in *.
  apply Forall2_app_inv_l in Hf as (ids1 & ids2 & Hf1 & Hf2 & ->). split.
  - exists ids2. split; simpl; [done| | |].
    + apply NoDup_app in Hnd as (_ & _ & ?). by apply Forall_app in Hk as [_ ?].
    + by rewrite (comp_chunks _ _ _ _ _ _ _ _ Hci).
    + intros a. rewrite chunk_destroy_lookup. case_decide as Hout; [|by intros [? ?]]. intros Ha.
      destruct (Hn a Ha) as (c & [Hc|Hc]%elem_of_app & Hlo & Hhi).
      * exfalso. rewrite Forall_forall in Hout. specialize (Hout c Hc).
        apply list_elem_of_lookup in Hc as [j Hj]. destruct (Forall2_lookup_l _ _ _ _ _ Hf1 Hj) as (k & _ & _ & Hfree).
        unfold in_chunk, CHUNK_END in *. rewrite sizeof_chunk_eq in *. rewrite CHUNK_SIZE_eq in *. lia.
      * exists c. by rewrite (comp_chunks _ _ _ _ _ _ _ _ Hci).
  - intros a Ha Hno. simpl. rewrite chunk_destroy_lookup. rewrite decide_True; [done|]. apply Forall_forall. intros c Hc.
    destruct (ci_copied _ _ _ _ _ _ _ _ Hci a Ha) as [[? ?]|(c' & Hc' & Hin)]; [congruence|].
    apply list_elem_of_lookup in Hc as [j Hj], Hc' as [j' Hj'].
    destruct (Forall2_lookup_l _ _ _ _ _ Hf1 Hj) as (i & Hi & Hb & _). destruct (Forall2_lookup_l _ _ _ _ _ Hf2 Hj') as (i' & Hi' & Hb' & _).
    apply list_elem_of_lookup_2 in Hi, Hi'. assert (Hne : i <> i').
    { intros ->. apply NoDup_app in Hnd as (_ & Hd & _). by apply (Hd i'). }
    unfold in_chunk in *. destruct (Hblocks i i' Hne); lia.
Qed.

Lemma shape_inorder t : items (inorder t) = inorder (shape t).
Proof.
  unfold items. induction t as [|l IHl e r IHr]; [done|]. simpl. by rewrite fmap_app, fmap_cons, IHl, IHr.
Qed.

Definition compact_start T : @compaction A := Compaction (root T) (nodes T) [] [] (mallocs T).
Definition compact_finish T (st : @compaction A) : @sml_tree A :=
  SmlTree (item_size T) (alloc_size T) (c_root st) (c_chunks st) None
    (chunk_destroy (item_size T) (chunks T) (c_nodes st)) (c_mallocs st).

(** [t'] is the copy of [t] in [st], apart from the nodes of [T]. *)
Record copy_made T t (st : @compaction A) (t' : tree (Z * A)) : Prop := {
  cm_inv : exists gr ids, comp_inv xmalloc (item_size T) (alloc_size T) (chunks T) (nodes T) st gr ids;
  cm_rep : rep (c_nodes st) (c_root st) t';
  cm_shape : shape t' = shape t;
  cm_nodup : NoDup (locs (inorder t'));
  cm_fresh a : a ∈ locs (inorder t') -> nodes T !! a = None;
  cm_dom a : is_Some (c_nodes st !! a) -> is_Some (nodes T !! a) \/ a ∈ locs (inorder t')
}.

Lemma start_inv T ids : alloc_inv xmalloc T ids ->
  comp_inv xmalloc (item_size T) (alloc_size T) (chunks T) (nodes T) (compact_start T) [] ids.
Proof.
  intros Hal. split; [by left|constructor| |intros a Ha; by left].
  unfold whole. simpl. rewrite app_nil_r. by eapply alloc_inv_same; [..|exact Hal].
Qed.

(** Freeing the old chunks leaves exactly the copy. *)
Lemma copy_made_ok T t st t' ids : alloc_inv xmalloc T ids -> copy_made T t st t' ->
  tree_rep xmalloc (compact_finish T st) t' [] /\
  forall a, is_Some (nodes (compact_finish T st) !! a) <-> a ∈ locs (inorder t').
Proof.
  intros Hal [(gr & ids' & Hci) Hr _ Hnd Hfr Hd].
  destruct (destroy_ok T st gr ids' Hci) as [[ids2 Hinv] Hkeep].
  assert (Hk : forall a, a ∈ locs (inorder t') -> nodes (compact_finish T st) !! a = c_nodes st !! a)
    by (intros a Ha; apply Hkeep; [by apply (rep_lookup _ _ _ _ Hr)|by apply Hfr]).
  split.
  - split; [|done|by rewrite app_nil_r|by exists ids2]. by eapply rep_ext.
  - intros a. split; [|intros Ha; rewrite Hk by done; by apply (rep_lookup _ _ _ _ Hr)].
    simpl. rewrite chunk_destroy_lookup. case_decide as Hout; [|by intros [? ?]]. intros Hs.
    destruct (Hd a Hs) as [Ha|]; [exfalso|done]. rewrite Forall_forall in Hout.
    destruct (alloc_nodes _ _ _ Hal a Ha) as (c & Hc & Hlo & Hhi). specialize (Hout c Hc).
    destruct (chunk_lookup _ _ _ _ Hal Hc) as (_ & _ & _ & Hfree).
    assert (Hasz : 0 < alloc_size T < CHUNK_SIZE) by apply Hal.
    unfold in_chunk, CHUNK_END in *. rewrite sizeof_chunk_eq, CHUNK_SIZE_eq in *. lia.
Qed.

(** The call of [forward] for the root: one chunk with one node. *)
Lemma forward_root T l a x r ids : rep (nodes T) (root T) (Node l (a, x) r) -> alloc_inv xmalloc T ids ->
  exists p k ids1 nd, let b := p + NODE_OFFSET (item_size T) in
    let st1 := Compaction (Some b) (<[b := nd]> (nodes T)) [] [Chunk p (p + alloc_size T)] k in
    nodes T !! a = Some nd /\ nodes T !! b = None /\
    forward xmalloc (item_size T) (alloc_size T) (compact_start T) SlotRoot = Ok st1 /\
    comp_inv xmalloc (item_size T) (alloc_size T) (chunks T) (nodes T) st1 [(Chunk p (p + alloc_size T), 1%nat)] ids1.
Proof.
  intros Hr Hal. pose proof Hr as (Hroot & _). assert (Hasz : 0 < alloc_size T < CHUNK_SIZE) by apply Hal.
  destruct (forward_node xmalloc (item_size T) (alloc_size T) (chunks T) (nodes T) Hasz Hblocks (compact_start T) [] ids
              SlotRoot a (locs (inorder (Node l (a, x) r))) (start_inv T ids Hal)) as
    (b & nd & st1 & gr & ids1 & front & new & k & Hn & Hfresh & Hpush & Hw & Hrun & Hci);
    [by simpl; rewrite Hroot|by apply (locs_mk LEFT); left|intros b Hb; by eapply rep_lookup|done|].
  simpl in Hn, Hfresh, Hw. injection Hw as <-. simpl in Hrun, Hci.
  inversion Hpush as [gr0 c n Hfill Hg|g p]; [by destruct gr0|]. subst g gr b. simpl in Hci.
  destruct (ci_chunks _ _ _ _ _ _ _ _ Hci) as [(Habs & _)|(gr0 & c & n & Hg & Hfr & Hnew)]; [done|].
  destruct gr0 as [|g0 gr0]; [|by destruct gr0]. injection Hg as <- <-. simpl in Hfr, Hnew. subst front new.
  by exists p, k, ids1, nd.
Qed.

Lemma compact_loop_copies T l a x r ids st1 p : rep (nodes T) (root T) (Node l (a, x) r) ->
  NoDup (locs (inorder (Node l (a, x) r))) -> alloc_inv xmalloc T ids ->
  forward xmalloc (item_size T) (alloc_size T) (compact_start T) SlotRoot = Ok st1 ->
  head (c_new st1) = Some p ->
  exists st' t', compact_loop xmalloc (item_size T) (alloc_size T) (tree_fuel (nodes T)) 0 (chunk_begin p) st1 = Ok st' /\
    copy_made T (Node l (a, x) r) st' t'.
Proof.
  intros Hr Hnd Hal Hrun Hhead. assert (Hasz : 0 < alloc_size T < CHUNK_SIZE) by apply Hal.
  pose proof (tree_fuel_enough _ _ _ Hr Hnd) as Hfu. rewrite tsize_node in Hfu.
  destruct (forward_root T l a x r ids Hr Hal) as (q & k & ids1 & nd & Hn & Hfresh & Hrun' & Hci1).
  rewrite Hrun in Hrun'. injection Hrun' as ->. simpl in Hhead. injection Hhead as <-.
  pose proof Hr as (_ & nd' & Hn' & Hi & Hl & Hrr). rewrite Hn in Hn'. injection Hn' as <-.
  set (b := q + NODE_OFFSET (item_size T)) in *. set (O := locs (inorder (Node l (a, x) r))).
  set (st1 := Compaction (Some b) _ _ _ _) in *.
  assert (HO : forall c, c ∈ O -> is_Some (nodes T !! c)) by (intros c Hc; by apply (rep_lookup _ _ _ _ Hr)).
  assert (Hframe : forall c, is_Some (nodes T !! c) -> c_nodes st1 !! c = nodes T !! c)
    by (intros c [? Hc]; apply lookup_insert_ne; congruence).
  destruct (compact_loop_ok xmalloc _ _ (chunks T) (nodes T) Hasz Hblocks O (tree_fuel (nodes T)) 0 q st1 _ ids1
              [WaitingNode b x l r] Hci1) as (st' & gr' & ids' & ts & Hloop & Hci' & [Tr Tf Tc Tn Tw Td]).
  { intros c Hc. rewrite Hframe by auto. auto. }
  { exists [], (Chunk q (q + alloc_size T)), 0%nat, 1%nat, []. split_and!; try done; [lia|simpl; lia|].
    unfold cells. simpl. f_equal. lia. }
  { constructor; [|done]. exists nd. simpl. rewrite lookup_insert_eq.
    split_and!; try done; [intros HbO; apply HO in HbO as [? ?]; congruence|..].
    - eapply rep_ext; [|exact Hl]. intros c Hc. apply Hframe. by apply (rep_lookup _ _ _ _ Hl).
    - eapply rep_ext; [|exact Hrr]. intros c Hc. apply Hframe. by apply (rep_lookup _ _ _ _ Hrr).
    - intros c Hc. apply (locs_mk LEFT). auto.
    - intros c Hc. apply (locs_mk LEFT). auto. }
  { apply NoDup_singleton. } { unfold work. simpl. lia. }
  assert (Hb : b ∈ all_locs ts) by (eapply copies_locs; [exact Tc|by left]).
  apply Forall2_cons_inv_l in Tc as (t' & ts' & [Hrt Hst] & Hts & ->). apply Forall2_nil_inv_l in Hts as ->.
  unfold all_locs in *. simpl in Tn, Tw, Td, Tr, Hb. rewrite app_nil_r in Tn, Tw, Td, Hb.
  exists st', t'. split; [done|]. split; [by exists gr', ids'|by rewrite Tr|done|done|..].
  - intros c Hc. destruct (nodes T !! c) eqn:E; [|done]. exfalso. assert (Hs : is_Some (nodes T !! c)) by eauto.
    destruct (Tw c Hc) as [->%list_elem_of_singleton|Hno]; [congruence|].
    rewrite lookup_insert_ne in Hno by congruence. congruence.
  - intros c [Hs|]%Td; [|by right]. destruct (decide (b = c)) as [<-|Hne]; [by right|]. left. by rewrite lookup_insert_ne in Hs.
Qed.

Lemma compact_spec T t fl : tree_rep xmalloc T t fl ->
  exists T' t', sml_tree_compact xmalloc T = Ok T' /\ tree_rep xmalloc T' t' [] /\ shape t' = shape t /\
    (forall a, is_Some (nodes T' !! a) <-> a ∈ locs (inorder t')).
Proof.
  intros [Hr Hf Hnd [ids Hal]]. apply NoDup_app in Hnd as [Hnd _].
  assert (H : exists st t', sml_tree_compact xmalloc T = Ok (compact_finish T st) /\ copy_made T t st t').
  { unfold sml_tree_compact. fold (compact_start T). destruct t as [|l [a x] r].
    - simpl in Hr. exists (compact_start T), Leaf. split.
      + unfold forward, compact_finish. simpl. rewrite Hr. simpl. rewrite Hr. simpl. by rewrite Hr.
      + split; simpl; [exists [], ids; by apply start_inv|done|done|constructor|by intros a ?%elem_of_nil|by left].
    - destruct (forward_root T l a x r ids Hr Hal) as (p & k & ids1 & nd & _ & _ & Hrun & _). rewrite Hrun. cbn [mbind res_bind c_root c_new head deref].
      destruct (compact_loop_copies T l a x r ids _ _ Hr Hnd Hal Hrun eq_refl) as (st' & t' & -> & Hcm). by exists st', t'. }
  destruct H as (st & t' & Hrun & Hcm). destruct (copy_made_ok T t st t' ids Hal Hcm) as [Hrep Hd].
  exists (compact_finish T st), t'. split; [done|]. split; [done|]. split; [apply Hcm|done].
Qed.

(** All memory of the nodes is freed. *)
Lemma sml_tree_destroy_correct T t fl : tree_rep xmalloc T t fl -> sml_tree_destroy T = ∅.
Proof.
  intros [_ _ _ [ids Hal]]. apply map_eq. intros a. unfold sml_tree_destroy. rewrite chunk_destroy_lookup, lookup_empty.
  case_decide as Hout; [|done]. apply eq_None_not_Some. intros Ha. rewrite Forall_forall in Hout.
  destruct (alloc_nodes _ _ _ Hal a Ha) as (c & Hc & Hlo & Hhi). specialize (Hout c Hc).
  destruct (chunk_lookup _ _ _ _ Hal Hc) as (_ & _ & _ & Hfree). destruct Hal as [H1 _ _ _]. unfold in_chunk, CHUNK_END in *.
  rewrite sizeof_chunk_eq, CHUNK_SIZE_eq in *. lia.
Qed.

Lemma nodes_size T t : NoDup (locs (inorder t)) -> (forall a, is_Some (nodes T !! a) <-> a ∈ locs (inorder t)) ->
  size (nodes T) = tsize t.
Proof.
  intros Hnd Hd. rewrite <- (size_dom (D := gset Z)).
  assert (dom (nodes T) = list_to_set (locs (inorder t))) as ->.
  { apply set_eq. intros a. by rewrite elem_of_dom, elem_of_list_to_set. }
  rewrite size_list_to_set by done. unfold tsize, locs. by rewrite length_fmap.
Qed.
End Whole.
