(* ===== verification/SplayThms.v ===== *)
(** * Splay trees: the properties of src/src/runtime/splay.c *)
From Stdlib Require Import ZArith Lia.
From stdpp Require Import base option list gmap relations sorting.
From S2P Require Import Prelude SplayTree SplayHeap SplayOps SplayIter SplaySpec SplayCompact.

Local Open Scope Z_scope.

(** ** A concrete tree: the one of the test code at the end of splay.c *)
Definition int_cmp (x y : Z) : Z := x - y.
#[export] Instance int_cmp_order : ItemOrder int_cmp.
Proof. unfold int_cmp. split; intros; lia. Qed.


Definition insert_list (xs : list Z) (T : sml_tree) : res sml_tree :=
  foldl (fun m x => T ← m; '(_, T) ← sml_tree_insert int_cmp sample_blocks T x; Ok T) (Ok T) xs.

Definition or_empty (m : res (@sml_tree Z)) : sml_tree :=
  match m with Ok T => T | _ => SmlTree 4 32 None [] None ∅ 0 end.

Definition empty_tree : sml_tree := or_empty (sml_tree_new 4).
Definition demo_tree : sml_tree := or_empty (insert_list [3; 1; 5; 2] empty_tree).

Lemma empty_holds : holds int_cmp sample_blocks empty_tree [].
Proof.
  destruct (holds_new int_cmp sample_blocks 4 eq_refl eq_refl) as (T & HT & H).
  injection HT as <-. exact H.
Qed.

Lemma insert_list_holds xs : forall T l, holds int_cmp sample_blocks T l ->
  exists T', insert_list xs T = Ok T' /\
    holds int_cmp sample_blocks T' (foldl (fun l x => below int_cmp x l ++ x :: above int_cmp x l) l xs).
Proof.
  induction xs as [|x xs IH]; intros T l HT; [by exists T|].
  destruct (insert_holds int_cmp sample_blocks T l x sample_blocks_disjoint HT) as (a & T1 & Hrun & _ & H1).
  destruct (IH T1 _ H1) as (T2 & Hrun2 & H2). exists T2. split; [|done].
  unfold insert_list in *. simpl. by rewrite Hrun.
Qed.

Lemma demo_holds : holds int_cmp sample_blocks demo_tree [1; 2; 3; 5].
Proof.
  destruct (insert_list_holds [3; 1; 5; 2] empty_tree [] empty_holds) as (T & Hrun & H).
  unfold demo_tree. rewrite Hrun. exact H.
Qed.

(** ** Properties *)

(** C24. [sml_tree_insert] terminates, returns the address of the item and leaves
    the items of the tree with [key] in place of an equal one, if any. *)
Theorem sml_tree_insert_correct {A} (cmp : A -> A -> Z) (Hcmp : ItemOrder cmp) xmalloc T l key
    (Hblocks : disjoint_blocks xmalloc) (HT : holds cmp xmalloc T l) :
  exists a T', sml_tree_insert cmp xmalloc T key = Ok (a, T') /\ points_to T' a key /\
    holds cmp xmalloc T' (below cmp key l ++ key :: above cmp key l).
Proof. by apply insert_holds. Qed.

Lemma sml_tree_insert_correct_witness :
  exists a T', sml_tree_insert int_cmp sample_blocks demo_tree 4 = Ok (a, T') /\ points_to T' a 4 /\
    holds int_cmp sample_blocks T' [1; 2; 3; 4; 5].
Proof. exact (sml_tree_insert_correct int_cmp _ sample_blocks demo_tree _ 4 sample_blocks_disjoint demo_holds). Defined.

(** [sml_tree_find] returns the item equal to [key] if there is one and keeps
    the items, although it reshapes the tree. *)
Theorem sml_tree_find_correct {A} (cmp : A -> A -> Z) (Hcmp : ItemOrder cmp) xmalloc T l key
    (HT : holds cmp xmalloc T l) :
  exists o T', sml_tree_find cmp T key = Ok (o, T') /\ holds cmp xmalloc T' l /\
    match o with
    | Some a => exists x, points_to T' a x /\ x ∈ l /\ cmp key x = 0
    | None => forall x, x ∈ l -> cmp key x <> 0
    end.
Proof.
  destruct (find_holds cmp xmalloc T l key HT) as (o & T' & Hrun & HT' & Ho).
  exists o, T'. split; [done|]. split; [done|]. destruct o; [done|].
  intros x Hx Hk. unfold equal_to in Ho. assert (x ∈ filter (fun x => cmp key x = 0) l)
    by (by apply list_elem_of_filter). rewrite Ho in *. by eapply not_elem_of_nil.
Qed.

Lemma sml_tree_find_correct_witness :
  exists o T', sml_tree_find int_cmp demo_tree 3 = Ok (o, T') /\ holds int_cmp sample_blocks T' [1; 2; 3; 5] /\
    match o with
    | Some a => exists x, points_to T' a x /\ x ∈ [1; 2; 3; 5] /\ int_cmp 3 x = 0
    | None => forall x, x ∈ [1; 2; 3; 5] -> int_cmp 3 x <> 0
    end.
Proof. exact (sml_tree_find_correct int_cmp _ sample_blocks demo_tree _ 3 demo_holds). Defined.

(** C25. [sml_tree_delete] removes exactly the item equal to [key] and returns
    null if and only if there is none. *)
Theorem sml_tree_delete_correct {A} (cmp : A -> A -> Z) (Hcmp : ItemOrder cmp) xmalloc T l key
    (HT : holds cmp xmalloc T l) :
  exists o T', sml_tree_delete cmp T key = Ok (o, T') /\
    holds cmp xmalloc T' (filter (fun x => cmp key x <> 0) l) /\
    (o = None <-> forall x, x ∈ l -> cmp key x <> 0).
Proof.
  pose proof HT as (t & fl & _ & _ & Hs).
  destruct (delete_holds cmp xmalloc T l key HT) as (o & T' & Hrun & Ho).
  exists o, T'. split; [done|]. destruct o as [a|].
  - destruct Ho as [HT' (x & Hx & Hk)]. split; [|split; [done|]; intros Hall; by apply Hall in Hx].
    by rewrite <- (below_above_filter cmp key l).
  - destruct Ho as [HT' He]. rewrite equal_to_nil in He. split; [|done].
    by rewrite filter_all by (by apply Forall_forall).
Qed.

Lemma sml_tree_delete_correct_witness :
  exists o T', sml_tree_delete int_cmp demo_tree 3 = Ok (o, T') /\
    holds int_cmp sample_blocks T' [1; 2; 5] /\
    (o = None <-> forall x, x ∈ [1; 2; 3; 5] -> int_cmp 3 x <> 0).
Proof. exact (sml_tree_delete_correct int_cmp _ sample_blocks demo_tree _ 3 demo_holds). Defined.

(** After an insertion, [sml_tree_find] returns the inserted item for an
    equal key, and deleting that key gives back the other items. *)
Theorem sml_tree_insert_roundtrip {A} (cmp : A -> A -> Z) (Hcmp : ItemOrder cmp) xmalloc T l key
    (Hblocks : disjoint_blocks xmalloc) (HT : holds cmp xmalloc T l)
    (Hnew : forall x, x ∈ l -> cmp key x <> 0) :
  exists a T1 b T2 o T3,
    sml_tree_insert cmp xmalloc T key = Ok (a, T1) /\
    sml_tree_find cmp T1 key = Ok (Some b, T2) /\ points_to T2 b key /\
    sml_tree_delete cmp T2 key = Ok (Some o, T3) /\ holds cmp xmalloc T3 l.
Proof.
  pose proof HT as (t & fl & _ & _ & Hs).
  destruct (insert_holds cmp xmalloc T l key Hblocks HT) as (a & T1 & Hi & _ & HT1).
  assert (Honly : forall x, x ∈ below cmp key l ++ key :: above cmp key l -> cmp key x = 0 -> x = key).
  { intros x Hx Hk. apply elem_of_app in Hx as [Hx|[->|Hx]%elem_of_cons]; [|done|];
      apply list_elem_of_filter in Hx as [? ?]; lia. }
  assert (Hkey : key ∈ below cmp key l ++ key :: above cmp key l)
    by (apply elem_of_app; right; by left).
  destruct (find_holds cmp xmalloc T1 _ key HT1) as (o & T2 & Hf & HT2 & Ho).
  destruct o as [b|]; [|exfalso; rewrite equal_to_nil in Ho; by apply (Ho key Hkey), cmp_refl].
  destruct Ho as (x & Hp & Hx & Hk). rewrite (Honly x Hx Hk) in Hp.
  destruct (delete_holds cmp xmalloc T2 _ key HT2) as (o & T3 & Hd & Ho).
  destruct o as [o|]; [|exfalso; destruct Ho as [_ Ho]; rewrite equal_to_nil in Ho;
    by apply (Ho key Hkey), cmp_refl].
  exists a, T1, b, T2, o, T3. do 4 (split; [done|]). destruct Ho as [Ho _].
  rewrite (below_placed cmp), (above_placed cmp) in Ho by done.
  rewrite (below_above_filter cmp key l Hs), filter_all in Ho; [done|]. by apply Forall_forall.
Qed.

Lemma sml_tree_insert_roundtrip_witness :
  exists a T1 b T2 o T3,
    sml_tree_insert int_cmp sample_blocks demo_tree 4 = Ok (a, T1) /\
    sml_tree_find int_cmp T1 4 = Ok (Some b, T2) /\ points_to T2 b 4 /\
    sml_tree_delete int_cmp T2 4 = Ok (Some o, T3) /\ holds int_cmp sample_blocks T3 [1; 2; 3; 5].
Proof.
  apply (sml_tree_insert_roundtrip int_cmp _ sample_blocks demo_tree _ 4 sample_blocks_disjoint demo_holds).
  intros x Hx. rewrite !elem_of_cons, elem_of_nil in Hx. unfold int_cmp. lia.
Defined.

(** [sml_tree_reject] offers every item to the callback exactly once, in
    order, and leaves those it keeps. *)
Theorem sml_tree_reject_correct {A St} (cmp : A -> A -> Z) (Hcmp : ItemOrder cmp)
    (reject : A -> St -> bool * St) xmalloc T l st (HT : holds cmp xmalloc T l) :
  exists T', sml_tree_reject cmp reject T st = Ok (T', (keep_items reject l st).2) /\
    holds cmp xmalloc T' (keep_items reject l st).1.
Proof. by apply reject_holds. Qed.

(** The callback of the test code, counting its calls. *)
Definition reject3 (x : Z) (n : nat) : bool * nat := (negb (x mod 3 =? 0), S n).

Lemma sml_tree_reject_correct_witness :
  exists T', sml_tree_reject int_cmp reject3 demo_tree 0%nat = Ok (T', 4%nat) /\
    holds int_cmp sample_blocks T' [3].
Proof. exact (sml_tree_reject_correct int_cmp _ reject3 sample_blocks demo_tree _ 0%nat demo_holds). Defined.

(** [sml_tree_each] visits every item exactly once, in order, whatever the
    callback does to the items. *)
Theorem sml_tree_each_correct {A St} (visit : A -> St -> A * St) xmalloc T l st
    (HT : holds_unsorted xmalloc T l) :
  exists T', sml_tree_each visit T st = Ok (T', (map_items visit l st).2) /\
    holds_unsorted xmalloc T' (map_items visit l st).1.
Proof. by apply (each_holds (fun _ _ => 0)). Qed.

(** The callback [modify] of the test code, logging the items. *)
Definition modify (x : Z) (log : list Z) : Z * list Z := (5 - x + 1, log ++ [x]).

Lemma sml_tree_each_correct_witness :
  exists T', sml_tree_each modify demo_tree [] = Ok (T', [1; 2; 3; 5]) /\
    holds_unsorted sample_blocks T' [5; 4; 3; 1].
Proof.
  refine (sml_tree_each_correct modify sample_blocks demo_tree [1; 2; 3; 5] [] _).
  destruct demo_holds as (t & fl & Ht & Hi & _). by exists t, fl.
Defined.

(** [sml_tree_rebuild] terminates on a tree whose items were overwritten in
    any way; it puts them in order and drops equal ones. *)
Theorem sml_tree_rebuild_correct {A} (cmp : A -> A -> Z) (Hcmp : ItemOrder cmp) xmalloc T l
    (HT : holds_unsorted xmalloc T l) :
  exists T' l', sml_tree_rebuild cmp T = Ok T' /\ holds cmp xmalloc T' l' /\ rebuilt_from cmp l l'.
Proof. by apply rebuild_holds. Qed.

Lemma sml_tree_rebuild_correct_witness :
  exists T' l', sml_tree_rebuild int_cmp demo_tree = Ok T' /\ holds int_cmp sample_blocks T' l' /\
    rebuilt_from int_cmp [1; 2; 3; 5] l'.
Proof.
  refine (sml_tree_rebuild_correct int_cmp _ sample_blocks demo_tree [1; 2; 3; 5] _).
  destruct demo_holds as (t & fl & Ht & Hi & _). by exists t, fl.
Defined.


Definition demo_root : Z := match root demo_tree with Some a => a | None => 0 end.


(** C39. [sml_tree_compact] terminates and keeps the items; what is left are one
    node for each item, in new memory, and no free nodes. *)
Theorem sml_tree_compact_correct {A} (cmp : A -> A -> Z) xmalloc T l
    (Hblocks : disjoint_blocks xmalloc) (HT : holds cmp xmalloc T l) :
  exists T', sml_tree_compact xmalloc T = Ok T' /\ holds cmp xmalloc T' l /\ freelist T' = None /\
    size (nodes T') = length l.
Proof.
  destruct HT as (t & fl & Ht & <- & Hs).
  destruct (compact_spec xmalloc Hblocks T t fl Ht) as (T' & t' & Hrun & Ht' & Hsh & Hd).
  assert (Hi : items (inorder t') = items (inorder t)) by (by rewrite !shape_inorder, Hsh).
  exists T'. split; [done|]. split; [exists t', []; by rewrite Hi|]. destruct Ht' as [_ Hf Hnd _]. split; [exact Hf|].
  rewrite app_nil_r in Hnd. rewrite (nodes_size T' t' Hnd Hd). unfold tsize. rewrite <- Hi. unfold items. by rewrite length_fmap.
Qed.

Lemma sml_tree_compact_correct_witness :
  exists T', sml_tree_compact sample_blocks demo_tree = Ok T' /\ holds int_cmp sample_blocks T' [1; 2; 3; 5] /\
    freelist T' = None /\ size (nodes T') = 4%nat.
Proof. exact (sml_tree_compact_correct int_cmp sample_blocks demo_tree _ sample_blocks_disjoint demo_holds). Defined.
