(* ===== verification/ItemTree.v ===== *)
(** * Ordered trees of items: the interface of splay.h

    callback.c, finalize.c and livecheck.c keep their data in the trees of
    src/src/runtime/splay.h.  [ItemTree] has the operations they call and
    the loads and stores through the pointers to items that these return;
    [ItemTreeSpec] says what the operations promise, in terms of the items
    with their addresses in the order of the comparison function.  The
    splay trees of splay.c are an instance. *)
From Stdlib Require Import ZArith Lia.
From stdpp Require Import base option list gmap relations sorting.
From S2P Require Import Prelude SplayTree SplayHeap SplayOps SplayIter SplaySpec.

Local Open Scope Z_scope.

Class ItemTree (A T : Type) := {
  tree_find : T -> A -> res (nodeptr * T);
  tree_insert : T -> A -> res (loc * T);
  tree_each {St : Type} : (A -> St -> A * St) -> T -> St -> res (T * St);
  tree_reject {St : Type} : (A -> St -> bool * St) -> T -> St -> res (T * St);
  tree_rebuild : T -> res T;
  tree_load : T -> loc -> res A;
  tree_store : T -> loc -> A -> res T
}.

Section Keys.
Context {A : Type} (cmp : A -> A -> Z).

Definition key_in (key : A) (l : list (Z * A)) : list (Z * A) := matching (fun e => cmp key e.2) l.
Definition key_placed (key : A) (a : loc) (l : list (Z * A)) : list (Z * A) :=
  smaller (fun e => cmp key e.2) l ++ (a, key) :: larger (fun e => cmp key e.2) l.
End Keys.

Class ItemTreeSpec (A T : Type) (cmp : A -> A -> Z) `{!ItemTree A T, !ItemOrder cmp} := {
  contents : T -> list (Z * A) -> Prop;
  contents_sorted t l : contents t l -> sorted_items cmp (items l);
  contents_nodup t l : contents t l -> NoDup (locs l);
  find_contents t l key : contents t l ->
    exists t', tree_find t key = Ok (fst <$> head (key_in cmp key l), t') /\ contents t' l;
  insert_contents t l key : contents t l ->
    exists a t', tree_insert t key = Ok (a, t') /\ contents t' (key_placed cmp key a l);
  each_contents {St} (visit : A -> St -> A * St) t l st : contents t l ->
    (forall x st, cmp x (visit x st).1 = 0) ->
    exists t', tree_each visit t st = Ok (t', (visits visit l st).2) /\ contents t' (visits visit l st).1;
  reject_contents {St} (reject : A -> St -> bool * St) t l st : contents t l ->
    exists t', tree_reject reject t st = Ok (t', reject_state reject l st) /\ contents t' (kept reject l st);
  rebuild_contents t l : contents t l -> exists t', tree_rebuild t = Ok t' /\ contents t' l;
  load_contents t l a x : contents t l -> (a, x) ∈ l -> tree_load t a = Ok x;
  store_contents t l1 l2 a x y : contents t (l1 ++ (a, x) :: l2) -> cmp x y = 0 ->
    exists t', tree_store t a y = Ok t' /\ contents t' (l1 ++ (a, y) :: l2)
}.

(** ** What sorted lists give the clients *)
Section Sorted.
Context {A : Type} (cmp : A -> A -> Z) `{!ItemOrder cmp}.
Implicit Types l : list (Z * A).

Lemma sorted_middle l1 a x y l2 : cmp x y = 0 ->
  sorted_items cmp (items (l1 ++ (a, x) :: l2)) -> sorted_items cmp (items (l1 ++ (a, y) :: l2)).
Proof.
  intros Hxy. unfold sorted_items, items. rewrite !fmap_app, !fmap_cons. simpl.
  rewrite !StronglySorted_app. intros (H1 & H2 & H3). apply StronglySorted_inv in H3 as [H3 HF].
  split_and!; [|done|].
  - intros z w Hz Hw. specialize (H1 z). apply elem_of_cons in Hw as [->|Hw]; [|apply H1; [done|by right]].
    specialize (H1 x Hz (list_elem_of_here _ _)). pose proof (cmp_antisym z x). pose proof (cmp_antisym z y).
    pose proof (cmp_eq_compat x y z Hxy). lia.
  - constructor; [done|]. eapply Forall_impl; [exact HF|]. intros z Hz. simpl in *.
    pose proof (cmp_eq_compat x y z Hxy). lia.
Qed.

Lemma sorted_perm_unique l1 l2 :
  sorted_items cmp (items l1) -> sorted_items cmp (items l2) -> l1 ≡ₚ l2 -> l1 = l2.
Proof.
  unfold sorted_items, items. revert l2. induction l1 as [|e l1 IH]; intros l2 H1 H2 Hp.
  { by apply Permutation_nil_l in Hp. }
  destruct l2 as [|f l2]; [by apply Permutation_nil_r in Hp|].
  rewrite !fmap_cons in *. apply StronglySorted_inv in H1 as [H1 F1], H2 as [H2 F2].
  rewrite Forall_forall in F1, F2.
  assert (e = f) as ->; [|f_equal; apply IH; [done..|by eapply Permutation.Permutation_cons_inv]].
  assert (He : e ∈ f :: l2) by (rewrite <- Hp; by left).
  assert (Hf : f ∈ e :: l1) by (rewrite Hp; by left).
  apply elem_of_cons in He as [->|He], Hf as [Hf|Hf]; [done..|by subst|].
  apply (list_elem_of_fmap_2 snd) in He, Hf. specialize (F1 _ Hf). specialize (F2 _ He).
  pose proof (cmp_antisym e.2 f.2). lia.
Qed.

Lemma left_out_nothing es : forall l,
  sorted_items cmp (items l) ->
  NoDup (locs (es ++ l)) -> (forall e f, e ∈ es ++ l -> f ∈ es ++ l -> cmp e.2 f.2 = 0 -> e = f) ->
  left_out cmp es l = [].
Proof.
  induction es as [|e es IH]; intros l Hs Hnd Hu; [done|]. simpl.
  assert (Hm : matching (fun f : Z * A => cmp e.2 f.2) l = []).
  { apply filter_none, Forall_forall. intros f Hf Hc.
    assert (e = f) as <- by (apply Hu; [by left|right; apply elem_of_app; by right|done]).
    unfold locs in Hnd. rewrite <- app_comm_cons, fmap_cons, fmap_app in Hnd. apply NoDup_cons in Hnd as [Hn _]. apply Hn.
    apply elem_of_app. right. by apply list_elem_of_fmap_2. }
  rewrite Hm. destruct (ins_miss cmp e l Hm) as [_ Hp].
  apply IH; [by apply sorted_ins|..].
  - assert (Hq : es ++ ins cmp l e ≡ₚ (e :: es) ++ l) by (rewrite Hp; by rewrite <- Permutation_middle).
    unfold locs in *. by rewrite Hq.
  - assert (Hq : es ++ ins cmp l e ≡ₚ (e :: es) ++ l) by (rewrite Hp; by rewrite <- Permutation_middle).
    setoid_rewrite Hq. done.
Qed.

Lemma sorted_unique l e f :
  sorted_items cmp (items l) -> e ∈ l -> f ∈ l -> cmp e.2 f.2 = 0 -> e = f.
Proof.
  unfold sorted_items, items. induction l as [|g l IH]; [by intros _ ?%elem_of_nil|].
  rewrite fmap_cons. intros [Hs HF]%StronglySorted_inv. rewrite Forall_forall in HF.
  intros [->|He]%elem_of_cons [->|Hf]%elem_of_cons Hc; [done|..|by apply IH].
  - apply (list_elem_of_fmap_2 snd) in Hf. apply HF in Hf. lia.
  - apply (list_elem_of_fmap_2 snd) in He. apply HF in He. pose proof (cmp_antisym e.2 g.2). lia.
Qed.

Lemma insert_all_same es l :
  sorted_items cmp (items l) -> NoDup (locs l) -> es ≡ₚ l -> insert_all cmp es [] = l.
Proof.
  intros Hs Hnd Hp.
  assert (Hn : sorted_items cmp (items ([] : list (Z * A)))) by constructor.
  apply sorted_perm_unique; [by apply sorted_insert_all|done|].
  pose proof (insert_all_perm cmp es []) as H. rewrite left_out_nothing, !app_nil_r in H; [by rewrite H|done|..].
  - rewrite app_nil_r. unfold locs in *. by rewrite Hp.
  - rewrite app_nil_r. setoid_rewrite Hp. intros e f. by apply sorted_unique.
Qed.

(** A list without the key, and the places around it. *)
Lemma key_placed_perm key a l : key_in cmp key l = [] -> key_placed cmp key a l ≡ₚ (a, key) :: l.
Proof. intros Hm. unfold key_placed. rewrite <- Permutation_middle. by rewrite smaller_larger_perm. Qed.

Lemma key_in_elem key l a x : sorted_items cmp (items l) -> (a, x) ∈ l -> cmp key x = 0 ->
  head (key_in cmp key l) = Some (a, x).
Proof.
  intros Hs Hx Hk. assert (Hin : (a, x) ∈ key_in cmp key l) by (by apply list_elem_of_filter).
  destruct (key_in cmp key l) as [|f r] eqn:E; [by apply elem_of_nil in Hin|]. simpl. f_equal.
  assert (Hf : f ∈ key_in cmp key l) by (rewrite E; by left). apply list_elem_of_filter in Hf as [Hf Hfl].
  apply (sorted_unique l); [done..|]. simpl. pose proof (cmp_antisym f.2 key).
  pose proof (cmp_eq_compat key x f.2 Hk). pose proof (cmp_antisym f.2 x). lia.
Qed.

Lemma key_in_none key l : key_in cmp key l = [] <-> forall a x, (a, x) ∈ l -> cmp key x <> 0.
Proof.
  unfold key_in, matching. split.
  - intros H a x Hx Hk. assert (Hin : (a, x) ∈ filter (fun e : Z * A => cmp key e.2 = 0) l) by (by apply list_elem_of_filter).
    rewrite H in Hin. by apply elem_of_nil in Hin.
  - intros H. apply filter_none, Forall_forall. intros [a x] Hx. by apply H in Hx.
Qed.
End Sorted.

(** Stores through a pointer to an item. *)
Section Stores.
Context {A T : Type} {cmp : A -> A -> Z} `{ItemTreeSpec A T cmp}.
Implicit Types l : list (Z * A).

Definition item_set (a : loc) (y : A) l : list (Z * A) := map (fun e => if decide (e.1 = a) then (a, y) else e) l.

Lemma item_set_other a y l : a ∉ locs l -> item_set a y l = l.
Proof.
  unfold item_set. induction l as [|[b x] l IH]; [done|]. rewrite locs_cons, not_elem_of_cons. intros [Hb Hl].
  simpl. rewrite IH by done. by rewrite decide_False.
Qed.

Lemma item_set_middle a x y l1 l2 :
  NoDup (locs (l1 ++ (a, x) :: l2)) -> item_set a y (l1 ++ (a, x) :: l2) = l1 ++ (a, y) :: l2.
Proof.
  rewrite locs_app, locs_cons. intros (_ & Hd & Ha)%NoDup_app. apply NoDup_cons in Ha as [Ha _].
  unfold item_set. rewrite map_app, map_cons. simpl. rewrite decide_True by done. f_equal; [|f_equal];
    apply item_set_other; [|done]. intros Hx. apply (Hd a Hx). by left.
Qed.

Lemma elem_of_item_set a y l b z :
  (b, z) ∈ item_set a y l <-> (b = a /\ z = y /\ a ∈ locs l) \/ (b <> a /\ (b, z) ∈ l).
Proof.
  unfold item_set, locs. rewrite !list_elem_of_fmap. split.
  - intros ([c x] & Hc & Hin). simpl in Hc. case_decide; simplify_eq; [left|by right].
    split_and!; [done..|]. by exists (a, x).
  - intros [(-> & -> & [c x] & -> & Hin)|[Hne Hin]]; [exists (c, x)|exists (b, z)]; simpl; split; try done.
    + by rewrite decide_True.
    + by rewrite decide_False.
Qed.

Lemma store_item t l a x y : contents t l -> (a, x) ∈ l -> cmp x y = 0 ->
  exists t', tree_store t a y = Ok t' /\ contents t' (item_set a y l).
Proof.
  intros Ht Hin Hc. assert (Hnd := contents_nodup t l Ht). apply list_elem_of_split in Hin as (l1 & l2 & ->).
  rewrite (item_set_middle a x) by done. by apply (store_contents t l1 l2 a x).
Qed.

(** Insertion of an item with a new key. *)
Lemma sorted_around key l : sorted_items cmp (items l) -> key_in cmp key l = [] ->
  smaller (fun e => cmp key e.2) l ++ larger (fun e => cmp key e.2) l = l.
Proof.
  intros Hs Hk. apply (sorted_perm_unique cmp); [|done|by apply smaller_larger_perm].
  eapply sorted_items_sublist; [|by apply (sorted_place cmp key 0 l)].
  apply sublist_app; [done|by constructor].
Qed.

Lemma new_item_fresh t l key a : contents t (key_placed cmp key a l) -> key_in cmp key l = [] -> a ∉ locs l.
Proof.
  intros Ht Hk. assert (Hnd := contents_nodup _ _ Ht). unfold locs in *. rewrite (key_placed_perm _ _ _ _ Hk) in Hnd.
  rewrite fmap_cons in Hnd. by apply NoDup_cons in Hnd as [? _].
Qed.
End Stores.

(** ** Callbacks that may fail

    Nothing after a failure counts. *)
Section Failing.
Context {A T St : Type} `{!ItemTree A T}.

Definition failing {B} (b : B) (f : St -> res (B * St)) (st : res St) : B * res St :=
  match st ≫= f with
  | Ok (c, st) => (c, Ok st)
  | Fault => (b, Fault)
  | Fatal => (b, Fatal)
  | NoFuel => (b, NoFuel)
  end.

Definition each_res (visit : A -> St -> res St) (t : T) (st : St) : res (T * St) :=
  '(t, st) ← tree_each (fun x => failing x (fun st => st ← visit x st; Ok (x, st))) t (Ok st);
  st ← st; Ok (t, st).
Definition reject_res (reject : A -> St -> res (bool * St)) (t : T) (st : St) : res (T * St) :=
  '(t, st) ← tree_reject (fun x => failing false (reject x)) t (Ok st);
  st ← st; Ok (t, st).

(** The same on the list of items. *)
Definition visit_all (visit : A -> St -> res St) (l : list A) (st : St) : res St :=
  foldl (fun st x => st ← st; visit x st) (Ok st) l.

Lemma visit_all_cons (visit : A -> St -> res St) x l st :
  visit_all visit (x :: l) st = (st ← visit x st; visit_all visit l st).
Proof.
  unfold visit_all. simpl. destruct (visit x st); simpl; [done|..]; induction l; simpl; done.
Qed.

Fixpoint reject_all (reject : A -> St -> res (bool * St)) (l : list (Z * A)) (st : St) : res (list (Z * A) * St) :=
  match l with
  | [] => Ok ([], st)
  | e :: l =>
      '(rej, st) ← reject e.2 st;
      '(ks, st) ← reject_all reject l st;
      Ok (if rej : bool then ks else e :: ks, st)
  end.
End Failing.

Section FailingSpec.
Context {A T : Type} {cmp : A -> A -> Z} `{ItemTreeSpec A T cmp} {St : Type}.

Lemma each_res_contents (visit : A -> St -> res St) t l st st' :
  contents t l -> visit_all visit (items l) st = Ok st' ->
  exists t', each_res visit t st = Ok (t', st') /\ contents t' l.
Proof.
  intros Ht Hv. unfold each_res.
  set (f := fun x : A => failing x (fun st => st ← visit x st; Ok (x, st))).
  assert (Hsame : forall x st, (f x st).1 = x).
  { intros x s. unfold f, failing. destruct s as [s| | |]; simpl; [|done..]. by destruct (visit x s). }
  destruct (each_contents f t l (Ok st) Ht) as (t' & -> & Hc).
  { intros x s. rewrite Hsame. pose proof (cmp_antisym x x). lia. }
  assert (Hl : forall (l : list (Z * A)) s, (visits f l s).1 = l).
  { clear -Hsame. induction l as [|[a x] l IH]; intros s; [done|]. simpl. specialize (Hsame x s).
    destruct (f x s) as [y s1]. simpl in Hsame. subst y. specialize (IH s1).
    destruct (visits f l s1). simpl in *. by subst. }
  rewrite Hl in Hc. exists t'. split; [|done]. cbn [mbind res_bind].
  assert ((visits f l (Ok st)).2 = visit_all visit (items l) st) as ->; [|by rewrite Hv].
  unfold visit_all. generalize (Ok st). clear. induction l as [|[a x] l IH]; intros s; [done|].
  simpl. destruct (f x s) as [y s1] eqn:E. specialize (IH s1). destruct (visits f l s1). simpl in *. rewrite IH.
  f_equal. revert E. unfold f, failing. destruct s as [s| | |]; simpl; [|by intros [= _ <-]..].
  by destruct (visit x s); intros [= _ <-].
Qed.

Lemma reject_res_contents (reject : A -> St -> res (bool * St)) t l st ks st' :
  contents t l -> reject_all reject l st = Ok (ks, st') ->
  exists t', reject_res reject t st = Ok (t', st') /\ contents t' ks.
Proof.
  intros Ht Hr. unfold reject_res.
  set (f := fun x : A => failing false (reject x)).
  destruct (reject_contents f t l (Ok st) Ht) as (t' & -> & Hc).
  assert (Hk : rejects f l (Ok st) = (ks, rejected f l (Ok st), Ok st')).
  { clear -Hr. unfold rejected. revert st ks Hr. induction l as [|e l IH]; intros st ks; simpl; [by intros [= <- <-]|].
    intros ([rej s1] & H1 & Hr)%res_bind_ok. apply res_bind_ok in Hr as ([ks' s2] & H2 & [= <- <-]).
    assert (f e.2 (Ok st) = (rej, Ok s1)) as -> by (unfold f, failing; simpl; by rewrite H1).
    specialize (IH _ _ H2). destruct (rejects f l (Ok s1)) as [[k r] s]. simplify_eq. by destruct rej. }
  exists t'. unfold reject_state, kept in *. rewrite Hk in *. done.
Qed.
End FailingSpec.

(** ** The splay trees of splay.c *)
Section Splay.
Context {A : Type} (cmp : A -> A -> Z) (xmalloc : nat -> Z).

Definition item_tree : ItemTree A (@sml_tree A) := {|
  tree_find t key := sml_tree_find cmp t key;
  tree_insert t key := sml_tree_insert cmp xmalloc t key;
  tree_each St visit t st := sml_tree_each visit t st;
  tree_reject St reject t st := sml_tree_reject cmp reject t st;
  tree_rebuild t := sml_tree_rebuild cmp t;
  tree_load t a := ITEM_OF (nodes t) a;
  tree_store t a x := ns ← set_item (nodes t) a x; Ok (set_nodes ns t)
|}.

Context `{!ItemOrder cmp} (Hblocks : disjoint_blocks xmalloc).

(** [T] has exactly the items [l]. *)
Definition splay_contents (T : sml_tree) (l : list (Z * A)) : Prop :=
  exists t fl, tree_rep xmalloc T t fl /\ inorder t = l /\ sorted_items cmp (items l).

Lemma splay_contents_new size T :
  SIZEOF_NODE size < CHUNK_SIZE -> 0 < SIZEOF_NODE size -> sml_tree_new size = Ok T -> splay_contents T [].
Proof.
  intros H1 H2. unfold sml_tree_new. rewrite (proj2 (Z.leb_le _ _)) by lia. simpl. intros [= <-].
  exists Leaf, []. split; [|split; [done|constructor]].
  split; simpl; [done|done|constructor|]. exists []. split; simpl; [lia|split; constructor|constructor|].
  intros a [? Ha]. by rewrite lookup_empty in Ha.
Qed.

Lemma visits_sorted {St} (visit : A -> St -> A * St) (l : list (Z * A)) st :
  (forall x st, cmp x (visit x st).1 = 0) ->
  sorted_items cmp (items l) -> sorted_items cmp (items (visits visit l st).1).
Proof.
  intros Hv. unfold sorted_items, items. revert st. induction l as [|[a x] l IH]; intros st; [done|].
  intros [Hs HF]%StronglySorted_inv. simpl. specialize (Hv x st) as Hx.
  destruct (visit x st) as [y s1]. simpl in Hx. specialize (IH s1 Hs).
  assert (Hall : Forall (fun z => cmp y z < 0) (visits visit l s1).1.*2).
  { clear -Hv HF Hx ItemOrder0. revert s1 HF. induction l as [|[b z] l IHl]; intros s1 HF; [constructor|].
    simpl in *. apply Forall_cons in HF as [Hz HF]. specialize (Hv z s1).
    destruct (visit z s1) as [w s2]. specialize (IHl s2 HF). simpl in Hv.
    destruct (visits visit l s2). simpl in *. constructor; [|done].
    pose proof (cmp_eq_compat x y w Hx). pose proof (cmp_eq_compat z w x Hv).
    pose proof (cmp_antisym x z). pose proof (cmp_antisym x w). lia. }
  destruct (visits visit l s1). simpl in *. by constructor.
Qed.

Lemma rep_set_item ns p (t : tree (Z * A)) a x y :
  rep ns p t -> NoDup (locs (inorder t)) -> (a, x) ∈ inorder t ->
  exists t', rep (put_item a y ns) p t' /\
    forall l1 l2, inorder t = l1 ++ (a, x) :: l2 -> inorder t' = l1 ++ (a, y) :: l2.
Proof.
  intros Hr Hnd Hin.
  set (f := fun e : Z * A => (e.1, if decide (e.1 = a) then y else e.2)).
  assert (Hrep : exists t', rep (put_item a y ns) p t' /\ inorder t' = f <$> inorder t).
  { clear Hin Hnd. revert p Hr. induction t as [|l IHl [b z] r IHr]; simpl; intros p; [by exists Leaf|].
    intros (-> & nd & Hn & Hi & Hl & Hr). apply IHl in Hl as (l' & Hl & El). apply IHr in Hr as (r' & Hr & Er).
    exists (Node l' (f (b, z)) r'). split; [|simpl; by rewrite El, Er, fmap_app].
    unfold f. simpl. split; [done|]. destruct (decide (b = a)) as [->|Hne]; eexists;
      rewrite put_item_lookup, Hn.
    - by rewrite decide_True.
    - rewrite decide_False by congruence. done. }
  destruct Hrep as (t' & Hr' & Hi). exists t'. split; [done|]. intros l1 l2 E. rewrite Hi, E, fmap_app, fmap_cons.
  rewrite E in Hnd. rewrite locs_app, locs_cons in Hnd. apply NoDup_app in Hnd as (_ & Hd & Ha).
  apply NoDup_cons in Ha as [Ha _].
  assert (Hid : forall l, a ∉ locs l -> f <$> l = l).
  { clear. induction l as [|[b z] l IH]; [done|]. rewrite locs_cons, not_elem_of_cons. intros [Hb Hl].
    rewrite fmap_cons, IH by done. unfold f. simpl. by rewrite decide_False by congruence. }
  rewrite !Hid; [|done|].
  - unfold f. simpl. by rewrite decide_True.
  - intros Hx. apply (Hd a Hx). by left.
Qed.

#[refine] Instance item_tree_spec : @ItemTreeSpec A sml_tree cmp item_tree _ :=
  {| contents := splay_contents |}.
Proof.
  - by intros t l (? & ? & ? & ? & ?).
  - intros T l (t & fl & [_ _ Hnd _] & <- & _). by apply NoDup_app in Hnd as [? _].
  - intros T l key (t & fl & Ht & <- & Hs).
    destruct (sml_tree_find_spec cmp xmalloc T t fl key Ht Hs) as (o & T' & t' & Hrun & Ht' & Hi & ->).
    exists T'. split; [exact Hrun|]. exists t', fl. by rewrite Hi.
  - intros T l key (t & fl & Ht & <- & Hs).
    destruct (sml_tree_insert_spec cmp xmalloc T t fl key Hblocks Ht Hs) as (a & T' & t' & fl' & Hi & Ht' & Hin).
    exists a, T'. split; [exact Hi|]. exists t', fl'. split; [done|]. split; [exact Hin|]. by apply sorted_place.
  - intros St visit T l st (t & fl & Ht & <- & Hs) Hv.
    destruct (sml_tree_each_spec cmp visit xmalloc T t fl st Ht) as (T' & t' & Hrun & Ht' & Hi).
    exists T'. split; [exact Hrun|]. exists t', fl. split; [done|]. split; [done|]. by apply visits_sorted.
  - intros St reject T l st (t & fl & Ht & <- & Hs).
    destruct (sml_tree_reject_spec cmp reject xmalloc T t fl st Ht Hs) as (T' & t' & Hrun & Ht' & Hi).
    exists T'. split; [exact Hrun|]. eexists t', _. split; [exact Ht'|]. split; [exact Hi|].
    eapply sorted_items_sublist; [apply kept_sublist|exact Hs].
  - intros T l (t & fl & Ht & <- & Hs).
    destruct (sml_tree_rebuild_spec cmp xmalloc T t fl Ht) as (T' & t' & Hrun & Ht' & Hi).
    exists T'. split; [exact Hrun|]. eexists t', _. split; [exact Ht'|]. split; [|done]. rewrite Hi.
    apply (insert_all_same cmp); [done| |apply postorder_perm].
    destruct Ht as [_ _ Hnd _]. by apply NoDup_app in Hnd as [? _].
  - intros T l a x (t & fl & Ht & <- & Hs) Hin.
    destruct (rep_points xmalloc T t fl a x Ht Hin) as (nd & Hn & Hi). by apply ITEM_OF_ok with nd.
  - intros T l1 l2 a x y (t & fl & Ht & Hl & Hs) Hc.
    pose proof Ht as [Hr Hf Hnd Ha]. assert (Hin : (a, x) ∈ inorder t) by (rewrite Hl; apply elem_of_app; right; by left).
    assert (Hloc : a ∈ locs (inorder t)) by (by apply (list_elem_of_fmap_2 fst) in Hin).
    assert (Hnd' := Hnd). apply NoDup_app in Hnd' as (Hndt & _).
    destruct (rep_set_item _ _ _ _ _ y Hr Hndt Hin) as (t' & Hr' & Hi). specialize (Hi _ _ Hl).
    eexists. split; [simpl; rewrite set_item_ok by (by eapply rep_lookup); simpl; reflexivity|].
    exists t', fl. split; [|split; [done|by apply (sorted_middle cmp _ _ x)]].
    change (set_nodes (put_item a y (nodes T)) T) with (set_root (root T) (set_nodes (put_item a y (nodes T)) T)).
    eapply tree_rep_same; [exact Ht| | |exact Hr'].
    + split; intros b; rewrite put_item_lookup; case_decide; subst; try done.
      by destruct (nodes T !! b).
    + rewrite Hi, Hl. by rewrite !locs_app, !locs_cons.
Defined.
End Splay.
