(* ===== verification/Finalize.v ===== *)
(** * Finalizers

    src/src/runtime/finalize.c: the set of objects with a finalizer, kept in
    an ordered tree, and [sml_run_finalizer], which the collector calls
    between marking and reclamation.  A finalizer is a C function: the model
    records its calls. *)
From Stdlib Require Import ZArith Lia.
From stdpp Require Import base option list gmap sorting.
From S2P Require Import Prelude SplayTree SplayHeap SplayOps SplayIter ItemTree Memory Object Trace TraceSpec TraceThms.

Local Open Scope Z_scope.

(** [voidp_cmp]: the same function in finalize.c, callback.c and
    livecheck.c. *)
Definition voidp_cmp (m n : Z) : Z := if m <? n then -1 else if n <? m then 1 else 0.

#[export] Instance voidp_cmp_order : ItemOrder voidp_cmp.
Proof.
  unfold voidp_cmp. split; intros; repeat match goal with |- context [?a <? ?b] => destruct (Z.ltb_spec a b) end;
    repeat match goal with H : context [?a <? ?b] |- _ => destruct (Z.ltb_spec a b) end; lia.
Qed.
Lemma voidp_cmp_0 m n : voidp_cmp m n = 0 <-> m = n.
Proof. unfold voidp_cmp. destruct (Z.ltb_spec m n), (Z.ltb_spec n m); lia. Qed.

(** An order on a projection of the items. *)
#[export] Instance order_on {A B} (f : A -> B) (cmp : B -> B -> Z) `{!ItemOrder cmp} :
  ItemOrder (fun x y => cmp (f x) (f y)).
Proof.
  split; intros.
  - apply cmp_antisym.
  - by apply (cmp_lt_trans _ (f y)).
  - by apply cmp_eq_compat.
Qed.

(** [struct finalizer]; the function is an address, perhaps null. *)
Record finalizer_item := Finalizer { fin_obj : Z; fin_finalizer : Z }.

Definition finalizer_cmp (final1 final2 : finalizer_item) : Z := voidp_cmp (fin_obj final1) (fin_obj final2).
#[export] Instance finalizer_cmp_order : ItemOrder finalizer_cmp.
Proof. apply order_on, _. Qed.

(** The calls of finalizers: the function and the object. *)
Definition calls := list (Z * Z).
Definition call (final : finalizer_item) (log : calls) : calls :=
  if fin_finalizer final =? 0 then log else log ++ [(fin_finalizer final, fin_obj final)].

Section Finalize.
Context {T : Type} `{!ItemTree finalizer_item T}.

Definition each_destroy (final : finalizer_item) (log : calls) : res calls := Ok (call final log).

(** [sml_finalize_destroy] before it frees the tree. *)
Definition sml_finalize_destroy (finalizer_set : T) (log : calls) : res (T * calls) :=
  each_res each_destroy finalizer_set log.

(** [garbage] is what the uninitialised field of [key] holds. *)
Definition sml_set_finalizer (garbage obj finalizer : Z) (finalizer_set : T) : res T :=
  let key := Finalizer obj garbage in
  '(item, finalizer_set) ← tree_find finalizer_set key;
  '(item, finalizer_set) ←
    match item with
    | Some item => Ok (item, finalizer_set)
    | None => tree_insert finalizer_set key
    end;
  x ← tree_load finalizer_set item;
  tree_store finalizer_set item (Finalizer (fin_obj x) finalizer).

Section Run.
Variables (m : mem) (g : marks).

(** [sml_heap_check_alive] of the object that the item refers to. *)
Definition each_run (final : finalizer_item) (log : calls) : res (bool * calls) :=
  alive ← is_alive m g (fin_obj final);
  Ok (if alive : bool then (false, log) else (true, call final log)).

Definition sml_run_finalizer (finalizer_set : T) (log : calls) : res (T * calls) :=
  '(finalizer_set, log) ← reject_res each_run finalizer_set log;
  finalizer_set ← tree_rebuild finalizer_set;
  Ok (finalizer_set, log).
End Run.
End Finalize.

(** ** The set as a map from objects to finalizers *)
Section Spec.
Context {T : Type} `{ItemTreeSpec finalizer_item T finalizer_cmp}.
Implicit Types (t : T) (F : gmap Z Z) (l : list (Z * finalizer_item)).

Definition lists_map l F : Prop := forall o f, F !! o = Some f <-> exists a, (a, Finalizer o f) ∈ l.
Definition finalizers t F : Prop := exists l, contents t l /\ lists_map l F.

Lemma lists_map_fun l F a b o f f' : lists_map l F -> (a, Finalizer o f) ∈ l -> (b, Finalizer o f') ∈ l -> f = f'.
Proof. intros Hl Ha Hb. assert (F !! o = Some f /\ F !! o = Some f') as [? ?] by (split; apply Hl; eauto). congruence. Qed.

Lemma fin_key o f x : finalizer_cmp (Finalizer o f) x = 0 <-> fin_obj x = o.
Proof. unfold finalizer_cmp. rewrite voidp_cmp_0. naive_solver. Qed.

Lemma set_item_map l1 l2 a o f f' F :
  sorted_items finalizer_cmp (items (l1 ++ (a, Finalizer o f) :: l2)) ->
  lists_map (l1 ++ (a, Finalizer o f) :: l2) F -> lists_map (l1 ++ (a, Finalizer o f') :: l2) (<[o := f']> F).
Proof.
  intros Hs Hl o' f1.
  assert (Hother : forall b f2, (b, Finalizer o f2) ∈ l1 ++ l2 -> False).
  { intros b f2 Hb. unfold sorted_items, items in Hs. rewrite fmap_app, fmap_cons in Hs.
    apply StronglySorted_app in Hs as (H1 & _ & H2). apply StronglySorted_inv in H2 as [_ H2].
    rewrite Forall_forall in H2. simpl in *.
    apply elem_of_app in Hb as [Hb|Hb]; apply (list_elem_of_fmap_2 snd) in Hb; simpl in Hb.
    - specialize (H1 _ _ Hb (list_elem_of_here _ _)). rewrite (proj2 (fin_key o f2 (Finalizer o f)) eq_refl) in H1. lia.
    - specialize (H2 _ Hb). rewrite (proj2 (fin_key o f (Finalizer o f2)) eq_refl) in H2. lia. }
  destruct (decide (o = o')) as [<-|Hne].
  - rewrite lookup_insert_eq. split.
    + intros [= <-]. exists a. apply elem_of_app. right. by left.
    + intros (b & [Hb|[[= -> ->]|Hb]%elem_of_cons]%elem_of_app); [|done|];
        exfalso; apply (Hother b f1), elem_of_app; auto.
  - rewrite lookup_insert_ne by done. rewrite (Hl o' f1). split; intros (b & Hb); exists b;
      apply elem_of_app; apply elem_of_app in Hb as [Hb|Hb]; auto; right; apply elem_of_cons in Hb as [Hb|Hb];
      solve [by simplify_eq|by right].
Qed.

Lemma new_item_map l a o f F : F !! o = None -> lists_map l F -> key_in finalizer_cmp (Finalizer o f) l = [] ->
  lists_map (key_placed finalizer_cmp (Finalizer o f) a l) (<[o := f]> F).
Proof.
  intros Ho Hl Hk o' f1. setoid_rewrite (key_placed_perm _ _ _ _ Hk). setoid_rewrite elem_of_cons.
  destruct (decide (o = o')) as [<-|Hne].
  - rewrite lookup_insert_eq. split; [intros [= <-]; exists a; by left|].
    intros (b & [[= -> ->]|Hb]); [done|]. apply (key_in_none finalizer_cmp) with (a := b) (x := Finalizer o f1) in Hk;
      [|done]. by rewrite fin_key in Hk.
  - rewrite lookup_insert_ne, (Hl o' f1) by done. split; intros (b & Hb); exists b; [by right|].
    destruct Hb as [Hb|]; [by simplify_eq|done].
Qed.

Lemma set_finalizer_ok garbage o f t F : finalizers t F ->
  exists t', sml_set_finalizer garbage o f t = Ok t' /\ finalizers t' (<[o := f]> F).
Proof.
  intros (l & Ht & Hl). unfold sml_set_finalizer. set (key := Finalizer o garbage).
  destruct (find_contents t l key Ht) as (t1 & -> & Ht1). cbn [mbind res_bind].
  destruct (key_in finalizer_cmp key l) as [|[a x] r] eqn:Hk; simpl.
  - destruct (insert_contents t1 l key Ht1) as (a & t2 & -> & Ht2). cbn [mbind res_bind].
    assert (Hin : (a, key) ∈ key_placed finalizer_cmp key a l) by (apply elem_of_app; right; by left).
    rewrite (load_contents _ _ _ _ Ht2 Hin). cbn [mbind res_bind]. change (fin_obj key) with o.
    destruct (store_contents t2 _ _ a key (Finalizer o f) Ht2) as (t3 & -> & Ht3); [by apply fin_key|].
    exists t3. split; [done|]. eexists. split; [exact Ht3|].
    assert (Ho : F !! o = None).
    { destruct (F !! o) as [f'|] eqn:Ho; [|done]. apply Hl in Ho as (b & Hb).
      apply (key_in_none finalizer_cmp) with (a := b) (x := Finalizer o f') in Hk; [|done].
      exfalso. by apply Hk, fin_key. }
    rewrite <- (insert_insert_eq F o f garbage).
    apply (set_item_map _ _ a o garbage); [by apply (contents_sorted t2)|by apply new_item_map].
  - assert (Hin : (a, x) ∈ key_in finalizer_cmp key l) by (rewrite Hk; by left).
    apply list_elem_of_filter in Hin as [Hc Hin]. simpl in Hc. apply fin_key in Hc.
    change (fst <$> head ((a, x) :: r)) with (Some a). cbn [mbind res_bind].
    rewrite (load_contents _ _ _ _ Ht1 Hin). cbn [mbind res_bind].
    assert (Hin' := Hin). apply list_elem_of_split in Hin' as (l1 & l2 & ->). rewrite Hc.
    destruct x as [o' f']. simpl in Hc. subst o'.
    destruct (store_contents t1 _ _ a (Finalizer o f') (Finalizer o f) Ht1) as (t2 & -> & Ht2); [by apply fin_key|].
    exists t2. split; [done|]. eexists. split; [exact Ht2|]. apply (set_item_map _ _ _ _ f'); [|done].
    by apply (contents_sorted t1).
Qed.

(** *** Running *)
Variables (m : mem) (g : marks) (alive : Z -> bool).

Definition dead_calls l : calls :=
  map (fun e => (fin_finalizer e.2, fin_obj e.2)) (filter (fun e => alive (fin_obj e.2) = false /\ fin_finalizer e.2 <> 0) l).

Lemma each_run_ok x log : is_alive m g (fin_obj x) = Ok (alive (fin_obj x)) ->
  each_run m g x log = Ok (if alive (fin_obj x) then (false, log) else (true, call x log)).
Proof. intros Ha. unfold each_run. by rewrite Ha. Qed.

Lemma reject_all_run l log :
  (forall e, e ∈ l -> is_alive m g (fin_obj e.2) = Ok (alive (fin_obj e.2))) ->
  reject_all (each_run m g) l log = Ok (filter (fun e => alive (fin_obj e.2) = true) l, log ++ dead_calls l).
Proof.
  revert log. induction l as [|e l IH]; intros log Ha; [by rewrite app_nil_r|]. simpl.
  rewrite each_run_ok by (apply Ha; by left). cbn [mbind res_bind]. unfold dead_calls in *. rewrite !filter_cons.
  destruct (alive (fin_obj e.2)); cbn [mbind res_bind].
  - rewrite IH by (intros; apply Ha; by right). cbn [mbind res_bind].
    rewrite decide_True by done. rewrite decide_False by naive_solver. done.
  - rewrite IH by (intros; apply Ha; by right). cbn [mbind res_bind]. rewrite decide_False by done. unfold call.
    destruct (Z.eqb_spec (fin_finalizer e.2) 0).
    + by rewrite decide_False by naive_solver.
    + rewrite decide_True by done. simpl. by rewrite <- app_assoc.
Qed.

Lemma run_finalizer_ok t F log :
  finalizers t F -> (forall o f, F !! o = Some f -> is_alive m g o = Ok (alive o)) ->
  exists t' new, sml_run_finalizer m g t log = Ok (t', log ++ new) /\
    finalizers t' (filter (fun e => alive e.1 = true) F) /\
    NoDup new /\ (forall f o, (f, o) ∈ new <-> F !! o = Some f /\ f <> 0 /\ alive o = false).
Proof.
  intros (l & Ht & Hl) Ha. unfold sml_run_finalizer.
  assert (Hr := reject_all_run l log).
  destruct (reject_res_contents (each_run m g) t l log _ _ Ht (Hr ltac:(
    intros [a [o f]] Hin; apply (Ha o f), Hl; eauto))) as (t1 & -> & Ht1). cbn [mbind res_bind].
  destruct (rebuild_contents t1 _ Ht1) as (t2 & -> & Ht2). cbn [mbind res_bind].
  exists t2, (dead_calls l). split; [done|]. split; [|split].
  - eexists. split; [exact Ht2|]. intros o f. rewrite map_lookup_filter_Some, (Hl o f).
    setoid_rewrite list_elem_of_filter. naive_solver.
  - unfold dead_calls. apply NoDup_fmap_2_strong.
    + intros [a [o f]] [b [o' f']] [_ H1]%list_elem_of_filter [_ H2]%list_elem_of_filter [= -> ->].
      apply (sorted_unique finalizer_cmp l); [by apply (contents_sorted t)|done..|]. by apply fin_key.
    + apply NoDup_filter. apply (NoDup_fmap_1 fst), (contents_nodup t l Ht).
  - intros f o. unfold dead_calls. rewrite list_elem_of_fmap. setoid_rewrite list_elem_of_filter.
    rewrite (Hl o f). split.
    + intros ([a [o' f']] & [= -> ->] & [Hd Hf] & Hin). eauto.
    + intros ((a & Hin) & Hf & Hd). by exists (a, Finalizer o f).
Qed.
End Spec.
