(* ===== verification/FinalizeThms.v ===== *)
(** * Finalizers: the properties of src/src/runtime/finalize.c *)
From Stdlib Require Import ZArith Lia.
From stdpp Require Import base option list gmap sorting.
From S2P Require Import Prelude SplayTree SplayHeap SplayOps SplayIter SplaySpec ItemTree Memory Object Trace TraceSpec TraceThms Finalize.

Local Open Scope Z_scope.

Module FinalizeSample.
(** The objects of [TraceSample]; only the first is a root, and the first
    and the third have finalizers. *)

#[global] Instance tree : ItemTree finalizer_item (@sml_tree finalizer_item) := item_tree finalizer_cmp sample_blocks.
#[global] Instance tree_spec : ItemTreeSpec finalizer_item sml_tree finalizer_cmp :=
  item_tree_spec finalizer_cmp sample_blocks sample_blocks_disjoint.

Definition or_none (t : res (@sml_tree finalizer_item)) : sml_tree :=
  match t with Ok t => t | _ => SmlTree 16 48 None [] None ∅ 0 end.
Definition t0 : sml_tree := or_none (sml_tree_new 16).
Definition t1 : sml_tree := or_none (sml_set_finalizer 55 TraceSample.a3 9 t0).
Definition t2 : sml_tree := or_none (sml_set_finalizer 66 TraceSample.a1 7 t1).
Definition F : gmap Z Z := <[TraceSample.a1 := 7]> (<[TraceSample.a3 := 9]> ∅).

Lemma t0_ok : finalizers t0 ∅.
Proof.
  exists []. split; [|intros o f; split; [done|intros (a & Ha); by apply elem_of_nil in Ha]].
  by apply (splay_contents_new finalizer_cmp sample_blocks 16).
Qed.
Lemma t2_ok : finalizers t2 F.
Proof.
  destruct (set_finalizer_ok 55 TraceSample.a3 9 t0 ∅ t0_ok) as (t & H1 & Ht).
  destruct (set_finalizer_ok 66 TraceSample.a1 7 t _ Ht) as (t' & H2 & Ht'). unfold t2, t1. rewrite H1. simpl or_none.
  rewrite H2. exact Ht'.
Qed.
Lemma F_objects o f : F !! o = Some f -> TraceSample.Obj o.
Proof. unfold F, TraceSample.Obj. rewrite !lookup_insert_Some, lookup_empty. naive_solver. Qed.
End FinalizeSample.

(** ** Properties *)

(** [sml_set_finalizer] gives [o] the finalizer [f] instead of the one it may
    have, and leaves the other objects alone. *)
Theorem sml_set_finalizer_correct `{ItemTreeSpec finalizer_item T finalizer_cmp} garbage o f (t : T) F :
  finalizers t F ->
  exists t', sml_set_finalizer garbage o f t = Ok t' /\ finalizers t' (<[o := f]> F).
Proof. apply set_finalizer_ok. Qed.

Lemma sml_set_finalizer_correct_witness : exists t',
  sml_set_finalizer 0 TraceSample.a1 8 FinalizeSample.t2 = Ok t' /\
  finalizers t' (<[TraceSample.a1 := 8]> FinalizeSample.F).
Proof. apply sml_set_finalizer_correct, FinalizeSample.t2_ok. Defined.

(** C12. After the mark phase, [sml_run_finalizer] calls the finalizers of exactly
    the objects subject to the collection that are not reachable, each one
    once, and these objects alone leave the set. *)
Theorem finalizes_unreachable `{ItemTreeSpec finalizer_item T finalizer_cmp}
    m Obj lay (Hobj : objects_ok m Obj lay) us fuel g user roots globals callbacks (t : T) F log :
  NoDup us -> (forall x, Obj x <-> x ∈ us) -> (length us < fuel)%nat ->
  mark_stack m Obj lay Hobj g 0 [] -> (forall x, Obj x -> is_marked m lay g x = false) ->
  user = 0 \/ Obj user -> object_children m user = [] ->
  (forall x, x ∈ roots ++ globals ++ callbacks -> x = 0 \/ Obj x) ->
  finalizers t F -> (forall o f, F !! o = Some f -> Obj o) ->
  let unreachable o := is_target m lay g o = true /\ ~ live m Obj lay g (user :: roots ++ globals ++ callbacks) o in
  exists g' t' F' new,
    mark_phase m fuel g user roots globals callbacks = Ok (g', Allocator 0 0) /\
    sml_run_finalizer m g' t log = Ok (t', log ++ new) /\
    NoDup new /\ (forall f o, (f, o) ∈ new <-> F !! o = Some f /\ f <> 0 /\ unreachable o) /\
    finalizers t' F' /\ (forall o f, F' !! o = Some f <-> F !! o = Some f /\ ~ unreachable o).
Proof.
  intros Hnd Hus Hf Hok Hun Huser Hleaf Hroots Ht HF unreachable.
  destruct (mark_phase_spec m Obj lay Hobj us fuel g user roots globals callbacks Hnd Hus Hf Hok Hun Huser Hleaf Hroots)
    as (g' & Hrun & Hg & Htg & Hm & _).
  set (alive o := (o =? 0) || negb (is_target m lay g' o) || is_marked m lay g' o).
  destruct (run_finalizer_ok m g' alive t F log Ht) as (t' & new & Hr & Ht' & Hnew & Hcalls).
  { intros o f Ho. apply (is_alive_spec m Obj lay Hobj); [done|]. right. by eapply HF. }
  assert (Ha : forall o f, F !! o = Some f -> alive o = false <-> unreachable o).
  { intros o f Ho. assert (Hx : Obj o) by (by eapply HF). unfold alive, unreachable.
    assert (o <> 0) by (intros ->; by apply (ob_0 m Obj lay Hobj)).
    rewrite <- (Hm o Hx), (Htg o Hx). rewrite !orb_false_iff, negb_false_iff, not_true_iff_false.
    rewrite Z.eqb_neq. tauto. }
  exists g', t', (filter (fun e => alive e.1 = true) F), new. split; [done|]. split; [done|]. split; [done|]. split; [|split; [done|]].
  - intros f o. rewrite Hcalls. split; intros (Ho & ? & ?); (split; [done|]; split; [done|]); by apply (Ha o f Ho).
  - intros o f. rewrite map_lookup_filter_Some. simpl. rewrite <- not_false_iff_true.
    split; intros [Ho Hn]; (split; [done|]); contradict Hn; by apply (Ha o f Ho).
Qed.

Lemma finalizes_unreachable_witness : exists g' t' F' new,
  mark_phase TraceSample.m 4 TraceSample.g0 0 [TraceSample.a1; 0] [] [] = Ok (g', Allocator 0 0) /\
  sml_run_finalizer TraceSample.m g' FinalizeSample.t2 [] = Ok (t', [] ++ new) /\ NoDup new /\
  (forall f o, (f, o) ∈ new <-> FinalizeSample.F !! o = Some f /\ f <> 0 /\
     is_target TraceSample.m TraceSample.lay TraceSample.g0 o = true /\
     ~ live TraceSample.m TraceSample.Obj TraceSample.lay TraceSample.g0 (0 :: [TraceSample.a1; 0] ++ [] ++ []) o) /\
  finalizers t' F' /\
  (forall o f, F' !! o = Some f <-> FinalizeSample.F !! o = Some f /\
     ~ (is_target TraceSample.m TraceSample.lay TraceSample.g0 o = true /\
        ~ live TraceSample.m TraceSample.Obj TraceSample.lay TraceSample.g0 (0 :: [TraceSample.a1; 0] ++ [] ++ []) o)).
Proof.
  apply (finalizes_unreachable TraceSample.m TraceSample.Obj TraceSample.lay TraceSample.objects TraceSample.us).
  - apply TraceSample.us_ok.
  - apply TraceSample.us_ok.
  - vm_compute. lia.
  - exact TraceSample.stack0.
  - exact TraceSample.nothing_marked.
  - by left.
  - vm_compute. reflexivity.
  - intros x Hx. unfold TraceSample.Obj. rewrite !elem_of_app, !elem_of_cons, !elem_of_nil in Hx. tauto.
  - exact FinalizeSample.t2_ok.
  - exact FinalizeSample.F_objects.
Defined.

(** In the sample, the third object is finalized and the first is not. *)
Example sample_calls :
  (g ← mark_phase TraceSample.m 4 TraceSample.g0 0 [TraceSample.a1; 0] [] [];
   r ← sml_run_finalizer TraceSample.m g.1 FinalizeSample.t2 []; Ok r.2) = Ok [(9, TraceSample.a3)].
Proof. vm_compute. reflexivity. Qed.

(** [sml_finalize_destroy] calls every finalizer that is not null, in the
    order of the objects. *)
Theorem sml_finalize_destroy_correct `{ItemTreeSpec finalizer_item T finalizer_cmp} (t : T) l log :
  contents t l ->
  exists t', sml_finalize_destroy t log =
    Ok (t', log ++ map (fun x => (fin_finalizer x, fin_obj x)) (filter (fun x => fin_finalizer x <> 0) (items l))).
Proof.
  intros Ht. destruct (each_res_contents each_destroy t l log
    (log ++ map (fun x => (fin_finalizer x, fin_obj x)) (filter (fun x => fin_finalizer x <> 0) (items l))) Ht)
    as (t' & Hr & _); [|by exists t'].
  unfold visit_all, items. clear. revert log. induction l as [|[a x] l IH]; intros log; [by rewrite app_nil_r|].
  rewrite fmap_cons. simpl. unfold each_destroy at 2, call. rewrite filter_cons.
  destruct (Z.eqb_spec (fin_finalizer x) 0).
  - rewrite decide_False by lia. apply IH.
  - rewrite decide_True by lia. rewrite IH. simpl. by rewrite <- app_assoc.
Qed.
