(* ===== verification/Callback.v ===== *)
(** * Callbacks

    src/src/runtime/callback.c: the table of callback closures, an ordered
    tree whose items of one code address are also linked, and the heap of
    trampoline code.  Two callbacks are the same if they have the same code
    address and structurally equal environments.  [count] is an [int]; the
    model is exact below 2^31 callbacks of one code address. *)
From Stdlib Require Import ZArith Lia.
From stdpp Require Import base option list gmap sorting.
From S2P Require Import Prelude SplayTree SplayHeap SplayOps SplayIter ItemTree Memory Object ObjectThms Finalize.

Local Open Scope Z_scope.

(** [struct callback_item]; [next] is the address of an item or null. *)
Record callback_item := CallbackItem {
  cb_trampoline : Z;
  cb_env : Z;
  cb_codeaddr : Z;
  count : Z;
  next : nodeptr
}.
Definition set_next (p : nodeptr) (x : callback_item) : callback_item :=
  CallbackItem (cb_trampoline x) (cb_env x) (cb_codeaddr x) (count x) p.

Definition callback_cmp (item1 item2 : callback_item) : Z :=
  let ret := voidp_cmp (cb_codeaddr item1) (cb_codeaddr item2) in
  if negb (ret =? 0) then ret else count item1 - count item2.

Section Callbacks.
Context {T : Type} `{!ItemTree callback_item T}.
Variables (m : mem) (sml_intinf_cmp : Z -> Z -> Z) (fuel : nat).

(** The loop of [sml_find_callback]: the item found, or the last one and the
    new [key.count]. *)
Fixpoint find_env (n : nat) (env : Z) (t : T) (found : loc) (key_count : Z) : res (loc + loc * Z) :=
  match n with
  | O => NoFuel
  | S n =>
      x ← tree_load t found;
      eq ← sml_obj_equal m sml_intinf_cmp fuel env (cb_env x);
      if eq : bool then Ok (inl found)
      else
        match next x with
        | None => Ok (inr (found, key_count + 1))
        | Some found => find_env n env t found (key_count + 1)
        end
  end.

(** The item after [sml_tree_insert]. *)
Definition new_callback (key : callback_item) (last : nodeptr) (env : Z) (t : T) : res (loc * T) :=
  '(item, t) ← tree_insert t key;
  t ← match last with
      | Some found => x ← tree_load t found; tree_store t found (set_next (Some item) x)
      | None => Ok t
      end;
  x ← tree_load t item;
  t ← tree_store t item (CallbackItem 0 env (cb_codeaddr key) (count x) None);
  Ok (item, t).

(** [garbage] is what the uninitialised fields of [key] hold. *)
Definition sml_find_callback (n : nat) (garbage codeaddr env : Z) (t : T) : res (loc * T) :=
  let key c := CallbackItem garbage garbage codeaddr c None in
  '(found, t) ← tree_find t (key 0);
  match found with
  | None => new_callback (key 0) None env t
  | Some found =>
      r ← find_env n env t found 0;
      match r with
      | inl found => Ok (found, t)
      | inr (found, c) => new_callback (key c) (Some found) env t
      end
  end.

(** [trace_each]; [fn] is given the environment in the slot, which it
    leaves there. *)
Context {St : Type} (fn : Z -> St -> res St).

Fixpoint trace_chain (n : nat) (t : T) (cb : nodeptr) (st : St) : res St :=
  match cb, n with
  | None, _ => Ok st
  | Some _, O => NoFuel
  | Some a, S n => x ← tree_load t a; st ← fn (cb_env x) st; trace_chain n t (next x) st
  end.
Definition trace_each (n : nat) (t : T) (item : callback_item) (st : St) : res St :=
  st ← fn (cb_env item) st; trace_chain n t (next item) st.
Definition sml_callback_enum_ptr (n : nat) (t : T) (st : St) : res (T * St) := each_res (trace_each n t) t st.
End Callbacks.

(** ** Trampolines

    [mmap] is given the number of its earlier calls; null is [MAP_FAILED]. *)
Definition TRAMPOLINE_SIZE : Z := 80.
Record code_heap := CodeHeap { heap_base : Z; heap_end : Z; mmaps : nat }.
Definition trampoline_heap : code_heap := CodeHeap 0 0 0.

Section Code.
Variables (getpagesize : Z) (mmap : nat -> option Z).

Definition sml_alloc_code (h : code_heap) : res (Z * code_heap) :=
  h ← (if heap_end h - heap_base h <? TRAMPOLINE_SIZE then
         match mmap (mmaps h) with
         | None => Fatal
         | Some p => Ok (CodeHeap p (p + getpagesize) (S (mmaps h)))
         end
       else Ok h);
  Ok (heap_base h, CodeHeap (heap_base h + TRAMPOLINE_SIZE) (heap_end h) (mmaps h)).

Fixpoint alloc_codes (n : nat) (h : code_heap) : res (list Z * code_heap) :=
  match n with
  | O => Ok ([], h)
  | S n => '(p, h) ← sml_alloc_code h; '(ps, h) ← alloc_codes n h; Ok (p :: ps, h)
  end.
End Code.

(** ** The order *)
Ltac lexicographic :=
  repeat match goal with
  | |- context [voidp_cmp ?a ?b =? 0] => destruct (Z.eqb_spec (voidp_cmp a b) 0); cbn [negb] in *
  | H : context [voidp_cmp ?a ?b =? 0] |- _ => destruct (Z.eqb_spec (voidp_cmp a b) 0); cbn [negb] in *
  end; lia.
#[export] Instance callback_cmp_order : ItemOrder callback_cmp.
Proof.
  unfold callback_cmp. split; cbn zeta; intros.
  - pose proof (cmp_antisym (cb_codeaddr x) (cb_codeaddr y)). lexicographic.
  - pose proof (cmp_lt_trans (cb_codeaddr x) (cb_codeaddr y) (cb_codeaddr z)).
    pose proof (cmp_eq_compat (cb_codeaddr x) (cb_codeaddr y) (cb_codeaddr z)).
    pose proof (cmp_antisym (cb_codeaddr x) (cb_codeaddr z)). pose proof (cmp_eq_compat (cb_codeaddr y) (cb_codeaddr z) (cb_codeaddr x)).
    pose proof (cmp_antisym (cb_codeaddr x) (cb_codeaddr y)). lexicographic.
  - pose proof (cmp_eq_compat (cb_codeaddr x) (cb_codeaddr y) (cb_codeaddr z)). lexicographic.
Qed.
Lemma callback_key x y : callback_cmp x y = 0 <-> cb_codeaddr x = cb_codeaddr y /\ count x = count y.
Proof.
  unfold callback_cmp. destruct (Z.eqb_spec (voidp_cmp (cb_codeaddr x) (cb_codeaddr y)) 0) as [H|H]; simpl.
  - rewrite voidp_cmp_0 in H. lia.
  - rewrite voidp_cmp_0 in H. split; [|tauto]. intros H0. exfalso. apply H. by apply voidp_cmp_0.
Qed.
