(* ===== verification/CallbackThms.v ===== *)
(** * Callbacks: the properties of src/src/runtime/callback.c

    The abstract state is, for every code address, the list of its callbacks
    in the order of their creation. *)
From Stdlib Require Import ZArith Lia.
From stdpp Require Import base option list gmap sorting.
From S2P Require Import Prelude SplayTree SplayHeap SplayOps SplayIter SplaySpec ItemTree Memory Object ObjectThms Finalize Callback.

Local Open Scope Z_scope.

Abbreviation entry := (Z * callback_item)%type.
Implicit Types l g : list entry.

(** The items of one code address, and the links between them. *)
Definition group (c : Z) l : list entry := filter (fun e => cb_codeaddr e.2 = c) l.

Fixpoint chain (n : Z) g : Prop :=
  match g with
  | [] => True
  | e :: g => count e.2 = n /\ next e.2 = fst <$> head g /\ chain (n + 1) g
  end.

(** The callbacks of a code address: the address of the item and the
    environment. *)
Definition table (l : list entry) (c : Z) : list (Z * Z) := map (fun e => (e.1, cb_env e.2)) (group c l).

(** ** Chains and groups *)
Lemma chain_count n g e : chain n g -> e ∈ g -> n <= count e.2 < n + Z.of_nat (length g).
Proof.
  revert n. induction g as [|f g IH]; intros n; [by intros _ ?%elem_of_nil|].
  simpl. intros (Hn & _ & Hg) [->|He]%elem_of_cons; [lia|]. specialize (IH _ Hg He). lia.
Qed.

Lemma chain_snoc n g a x b y :
  chain n (g ++ [(a, x)]) -> count y = n + Z.of_nat (length g) + 1 -> next y = None ->
  chain n (g ++ [(a, set_next (Some b) x); (b, y)]).
Proof.
  revert n. induction g as [|e g IH]; intros n; simpl.
  - intros (Hn & _ & _) Hc Hy. split_and!; simpl; [done..|lia|done|done].
  - intros (Hn & He & Hg) Hc Hy. split; [done|]. split; [rewrite He; by destruct g|].
    apply IH; [done|lia|done].
Qed.

Lemma elem_of_group c l e : e ∈ group c l <-> cb_codeaddr e.2 = c /\ e ∈ l.
Proof. unfold group. by rewrite list_elem_of_filter. Qed.

Lemma group_item_set c a y l :
  (forall x, (a, x) ∈ l -> cb_codeaddr x = cb_codeaddr y) -> group c (item_set a y l) = item_set a y (group c l).
Proof.
  unfold group, item_set. induction l as [|[b x] l IH]; intros Hc; [done|]. simpl.
  specialize (IH (fun x Hx => Hc x (list_elem_of_further _ _ _ Hx))). rewrite !filter_cons. simpl.
  destruct (decide (b = a)) as [->|Hne]; simpl.
  - rewrite (Hc x) by (by left). destruct (decide (cb_codeaddr y = c)); simpl; rewrite IH; [|done].
    by rewrite decide_True.
  - destruct (decide (cb_codeaddr x = c)); simpl; rewrite IH; [|done]. by rewrite decide_False.
Qed.

Lemma group_item_set_other c a y l : a ∉ locs (group c l) ->
  (forall x, (a, x) ∈ l -> cb_codeaddr x = cb_codeaddr y) -> group c (item_set a y l) = group c l.
Proof. intros Ha Hc. rewrite group_item_set by done. by apply item_set_other. Qed.

Lemma group_locs c l a : NoDup (locs l) -> (forall x, (a, x) ∈ l -> cb_codeaddr x <> c) -> a ∉ locs (group c l).
Proof.
  intros _ Hx ([b x] & -> & Hin)%list_elem_of_fmap. apply elem_of_group in Hin as [Hc Hin]. by apply (Hx x).
Qed.

Lemma group_subset c l : locs (group c l) ⊆ locs l.
Proof. unfold locs. intros a (e & -> & [_ He]%elem_of_group)%list_elem_of_fmap. by apply list_elem_of_fmap_2. Qed.
Lemma group_nodup c l : NoDup (locs l) -> NoDup (locs (group c l)).
Proof.
  unfold group. induction l as [|e l IH]; [done|]. intros [He Hnd]%NoDup_cons. rewrite filter_cons.
  case_decide; [|by apply IH]. apply NoDup_cons. split; [|by apply IH].
  intros Hin. by apply He, (group_subset c).
Qed.

Lemma locs_functional l a x y : NoDup (locs l) -> (a, x) ∈ l -> (a, y) ∈ l -> x = y.
Proof.
  induction l as [|[b z] l IH]; [by intros _ ?%elem_of_nil|]. rewrite locs_cons. intros [Hb Hnd]%NoDup_cons.
  intros Hx Hy. apply elem_of_cons in Hx as [Hx|Hx], Hy as [Hy|Hy]; [congruence|..|by apply IH]; simplify_eq;
    exfalso; apply Hb; [by apply (list_elem_of_fmap_2 fst) in Hy|by apply (list_elem_of_fmap_2 fst) in Hx].
Qed.

Section Table.
Context {T : Type} `{ItemTreeSpec callback_item T callback_cmp}.

(** [t] holds [l], and every group of it is linked. *)
Definition callback_set (t : T) l : Prop := contents t l /\ forall c, chain 0 (group c l).

Definition key_of (garbage codeaddr n : Z) : callback_item := CallbackItem garbage garbage codeaddr n None.

Lemma first_of_group garbage c t l : callback_set t l ->
  fst <$> head (key_in callback_cmp (key_of garbage c 0) l) = fst <$> head (group c l).
Proof.
  intros [Ht Hc]. specialize (Hc c). destruct (group c l) as [|[a x] g] eqn:Hg.
  - rewrite (proj2 (key_in_none callback_cmp _ l)); [done|]. intros a x Hx Hk. apply callback_key in Hk as [Hk _].
    simpl in Hk. assert (Hin : (a, x) ∈ group c l) by (by apply elem_of_group). rewrite Hg in Hin.
    by apply elem_of_nil in Hin.
  - destruct Hc as (Hn & _). assert (Hin : (a, x) ∈ group c l) by (rewrite Hg; by left).
    apply elem_of_group in Hin as [Hx Hin].
    rewrite (key_in_elem callback_cmp _ l a x); [done|by apply (contents_sorted t)|done|by apply callback_key].
Qed.

Lemma new_key garbage c t l : callback_set t l ->
  key_in callback_cmp (key_of garbage c (Z.of_nat (length (group c l)))) l = [].
Proof.
  intros [Ht Hc]. apply key_in_none. intros a x Hx Hk. apply callback_key in Hk as [Hk Hn]. simpl in Hk, Hn.
  assert (Hin : (a, x) ∈ group c l) by (by apply elem_of_group).
  apply (chain_count _ _ _ (Hc c)) in Hin. simpl in Hin. lia.
Qed.

(** The group of the new key grows at its end. *)
Lemma group_placed garbage c a t l : callback_set t l ->
  let key := key_of garbage c (Z.of_nat (length (group c l))) in
  group c (key_placed callback_cmp key a l) = group c l ++ [(a, key)] /\
  (forall c', c' <> c -> group c' (key_placed callback_cmp key a l) = group c' l).
Proof.
  intros Hcs key. pose proof (new_key garbage c t l Hcs) as Hk. destruct Hcs as [Ht Hc].
  pose proof (sorted_around key l (contents_sorted t l Ht) Hk) as Hl.
  set (s := smaller _ l) in Hl. set (r := larger _ l) in Hl. unfold key_placed. fold s r.
  assert (Hr : group c r = []).
  { apply filter_none, Forall_forall. intros [b x] [Hlt Hx]%list_elem_of_filter Hcx. simpl in *.
    assert (Hin : (b, x) ∈ group c l) by (by apply elem_of_group).
    apply (chain_count _ _ _ (Hc c)) in Hin. revert Hlt. unfold callback_cmp, key. simpl in *.
    rewrite Hcx, (proj2 (voidp_cmp_0 c c)) by done. simpl. lia. }
  split.
  - rewrite <- Hl. unfold group in *. rewrite !filter_app, filter_cons, Hr. simpl.
    by rewrite decide_True, app_nil_r.
  - intros c' Hne. rewrite <- Hl. unfold group. rewrite !filter_app, filter_cons. simpl. by rewrite decide_False.
Qed.

Lemma last_default {B} (e : B) (es : list B) d d' : List.last (e :: es) d = List.last (e :: es) d'.
Proof. revert e. induction es as [|f es IH]; intros e; [done|]. apply (IH f). Qed.

Section Find.
Variables (m : mem) (intinf_cmp : Z -> Z -> Z) (fuel : nat) (same : Z -> bool) (env : Z).

(** The walk along the links, from the item at the head of [g]. *)
Lemma find_env_ok t l g : contents t l -> forall n k e,
  (forall f, f ∈ e :: g -> f ∈ l /\ sml_obj_equal m intinf_cmp fuel env (cb_env f.2) = Ok (same (cb_env f.2))) ->
  chain k (e :: g) -> (length g < n)%nat ->
  find_env m intinf_cmp fuel n env t e.1 k = Ok
    match find (fun f => same (cb_env f.2)) (e :: g) with
    | Some f => inl f.1
    | None => inr ((List.last (e :: g) e).1, k + Z.of_nat (length (e :: g)))
    end.
Proof.
  intros Ht. induction g as [|f g IH]; intros [|n] k e Hf (Hn & Hnext & Hg) Hlt; simpl in Hlt; try lia.
  - simpl. destruct (Hf e ltac:(by left)) as [Hin He]. destruct e as [a x]. rewrite (load_contents t l a x) by done.
    cbn [mbind res_bind snd]. simpl in He. rewrite He. cbn [mbind res_bind snd fst]. simpl in Hnext. rewrite Hnext.
    by destruct (same (cb_env x)).
  - cbn [find_env]. destruct (Hf e ltac:(by left)) as [Hin He]. destruct e as [a x]. rewrite (load_contents t l a x) by done.
    cbn [mbind res_bind snd fst]. simpl in He. rewrite He. cbn [mbind res_bind]. simpl in Hnext. rewrite Hnext.
    cbn [find snd]. destruct (same (cb_env x)); [done|]. cbn iota.
    rewrite (IH n (k + 1) f); [|intros f' Hf'; apply Hf; by right|done|lia].
    change (if same (cb_env f.2) then Some f else find (fun f => same (cb_env f.2)) g)
      with (find (fun f => same (cb_env f.2)) (f :: g)).
    destruct (find _ (f :: g)); [done|]. do 2 f_equal. f_equal; [|simpl length; lia].
    change (List.last ((a, x) :: f :: g) (a, x)) with (List.last (f :: g) (a, x)).
    by rewrite (last_default f g f (a, x)).
Qed.
End Find.

(** The new callback [a], perhaps behind the last one of its group. *)
Definition new_entry (c env : Z) (n : nat) : callback_item := CallbackItem 0 env c (Z.of_nat n) None.

Lemma fill_new garbage c env k t l g a :
  let key := key_of garbage c (Z.of_nat k) in
  contents t l -> (a, key) ∈ l -> group c l = g ++ [(a, key)] -> a ∉ locs g ->
  exists t' l',
    (x ← tree_load t a; t ← tree_store t a (CallbackItem 0 env (cb_codeaddr key) (count x) None); Ok (a, t)) = Ok (a, t') /\
    contents t' l' /\ group c l' = g ++ [(a, new_entry c env k)] /\ (forall c', c' <> c -> group c' l' = group c' l).
Proof.
  intros key Ht Hin Hg Ha. rewrite (load_contents _ _ _ _ Ht Hin). cbn [mbind res_bind].
  destruct (store_item t l a key (new_entry c env k) Ht Hin) as (t' & Hst & Ht'); [by apply callback_key|].
  change (CallbackItem 0 env (cb_codeaddr key) (count key) None) with (new_entry c env k).
  rewrite Hst. cbn [mbind res_bind]. exists t', (item_set a (new_entry c env k) l). split; [done|]. split; [done|].
  assert (Hcode : forall x, (a, x) ∈ l -> cb_codeaddr x = c).
  { intros x Hx. assert (x = key) as ->; [|done]. eapply locs_functional; [by apply (contents_nodup t)|done..]. }
  split.
  - rewrite group_item_set, Hg by done. rewrite (item_set_middle a key); [done|]. rewrite <- Hg.
    by apply group_nodup, (contents_nodup t).
  - intros c' Hne. apply group_item_set_other; [|done].
    apply group_locs; [by apply (contents_nodup t)|]. intros x Hx. rewrite (Hcode x Hx). done.
Qed.

Lemma new_callback_first garbage c env t l : callback_set t l -> group c l = [] ->
  exists a t' l', new_callback (key_of garbage c 0) None env t = Ok (a, t') /\ callback_set t' l' /\
    ~ a ∈ locs l /\ group c l' = [(a, new_entry c env 0)] /\ (forall c', c' <> c -> group c' l' = group c' l).
Proof.
  intros Hcs Hg. pose proof (new_key garbage c t l Hcs) as Hk. rewrite Hg in Hk. unfold new_callback.
  destruct (insert_contents t l (key_of garbage c 0) (proj1 Hcs)) as (a & t1 & -> & Ht1). cbn [mbind res_bind].
  pose proof (new_item_fresh _ _ _ _ Ht1 Hk) as Ha.
  pose proof (group_placed garbage c a t l Hcs) as [Gc Go]. rewrite Hg in Gc, Go.
  destruct (fill_new garbage c env 0 t1 _ [] a Ht1) as (t2 & l2 & Hrun & Ht2 & G1 & G2).
  { apply elem_of_app. right. by left. } { exact Gc. } { by apply not_elem_of_nil. }
  exists a, t2, l2. split; [exact Hrun|].
  assert (Go' : forall c', c' <> c -> group c' l2 = group c' l) by (intros c' Hne; rewrite G2 by done; by apply Go).
  split; [split; [done|]|done]. intros c'. destruct (decide (c' = c)) as [->|Hne]; [by rewrite G1|].
  rewrite Go' by done. apply Hcs.
Qed.

Lemma new_callback_last garbage c env t l g a0 x0 : callback_set t l -> group c l = g ++ [(a0, x0)] ->
  let n := length (group c l) in
  exists a t' l', new_callback (key_of garbage c (Z.of_nat n)) (Some a0) env t = Ok (a, t') /\ callback_set t' l' /\
    ~ a ∈ locs l /\ group c l' = g ++ [(a0, set_next (Some a) x0); (a, new_entry c env n)] /\
    (forall c', c' <> c -> group c' l' = group c' l).
Proof.
  intros Hcs Hg n. pose proof (new_key garbage c t l Hcs) as Hk. fold n in Hk. unfold new_callback.
  set (key := key_of garbage c (Z.of_nat n)) in *.
  destruct (insert_contents t l key (proj1 Hcs)) as (a & t1 & -> & Ht1). cbn [mbind res_bind].
  pose proof (new_item_fresh _ _ _ _ Ht1 Hk) as Ha.
  pose proof (group_placed garbage c a t l Hcs) as [Gc Go]. fold n in Gc, Go. fold key in Gc, Go.
  assert (Hin0 : (a0, x0) ∈ group c l) by (rewrite Hg; apply elem_of_app; right; by left).
  apply elem_of_group in Hin0 as [Hc0 Hin0]. simpl in Hc0.
  assert (Hin1 : (a0, x0) ∈ key_placed callback_cmp key a l) by (rewrite (key_placed_perm _ _ _ _ Hk); by right).
  assert (Hne0 : a0 <> a) by (intros ->; apply Ha; by apply (list_elem_of_fmap_2 fst) in Hin0).
  rewrite (load_contents _ _ _ _ Ht1 Hin1). cbn [mbind res_bind].
  destruct (store_item t1 _ a0 x0 (set_next (Some a) x0) Ht1 Hin1) as (t2 & -> & Ht2); [by apply callback_key|].
  cbn [mbind res_bind]. set (l1 := item_set a0 _ _) in Ht2.
  assert (Hcode : forall x, (a0, x) ∈ key_placed callback_cmp key a l -> cb_codeaddr x = c).
  { intros x Hx. assert (x = x0) as ->; [|done]. eapply locs_functional; [by apply (contents_nodup t1)|done..]. }
  assert (Hndg : NoDup (locs (group c (key_placed callback_cmp key a l)))) by (by apply group_nodup, (contents_nodup t1)).
  rewrite Gc, Hg, <- app_assoc in Hndg. simpl in Hndg.
  assert (G1 : group c l1 = (g ++ [(a0, set_next (Some a) x0)]) ++ [(a, key)]).
  { unfold l1. rewrite group_item_set by (intros x Hx; by rewrite (Hcode x Hx)). rewrite Gc, Hg, <- app_assoc. simpl.
    by rewrite (item_set_middle a0 x0), <- app_assoc. }
  assert (Go1 : forall c', c' <> c -> group c' l1 = group c' l).
  { intros c' Hne. unfold l1. rewrite group_item_set_other; [by apply Go| |intros x Hx; by rewrite (Hcode x Hx)].
    apply group_locs; [by apply (contents_nodup t1)|]. intros x Hx. by rewrite (Hcode x Hx). }
  destruct (fill_new garbage c env n t2 l1 (g ++ [(a0, set_next (Some a) x0)]) a Ht2) as (t3 & l2 & Hrun & Ht3 & G2 & Go2).
  { apply elem_of_item_set. right. split; [done|]. apply elem_of_app. right. by left. }
  { exact G1. }
  { assert (Hga := group_subset c l). rewrite Hg in Hga. rewrite !locs_app, !locs_cons in *. intros Hx. by apply Ha, Hga. }
  exists a, t3, l2. split; [exact Hrun|].
  assert (Go' : forall c', c' <> c -> group c' l2 = group c' l) by (intros c' Hne; rewrite Go2 by done; by apply Go1).
  rewrite <- app_assoc in G2. split; [split; [done|]|done]. intros c'.
  destruct (decide (c' = c)) as [->|Hne]; [|rewrite Go' by done; apply Hcs].
  rewrite G2. apply chain_snoc; [|simpl|done].
  - rewrite <- Hg. apply Hcs.
  - unfold n. rewrite Hg, length_app. simpl. lia.
Qed.
(** *** [sml_find_callback] *)
Lemma table_group l l' c : group c l' = group c l -> table l' c = table l c.
Proof. unfold table. by intros ->. Qed.

Lemma find_callback_ok m icmp fuel same n garbage c env t l :
  callback_set t l ->
  (forall f, f ∈ group c l -> sml_obj_equal m icmp fuel env (cb_env f.2) = Ok (same (cb_env f.2))) ->
  (length (group c l) <= n)%nat ->
  exists a t' l', sml_find_callback m icmp fuel n garbage c env t = Ok (a, t') /\ callback_set t' l' /\
    match find (fun f => same (cb_env f.2)) (group c l) with
    | Some f => a = f.1 /\ l' = l
    | None => ~ a ∈ locs l /\ table l' c = table l c ++ [(a, env)] /\ forall c', c' <> c -> table l' c' = table l c'
    end.
Proof.
  intros Hcs Heq Hn. unfold sml_find_callback.
  destruct (find_contents t l (key_of garbage c 0) (proj1 Hcs)) as (t1 & Hf & Ht1). unfold key_of in Hf. rewrite Hf.
  cbn [mbind res_bind]. pose proof (first_of_group garbage c t l Hcs) as Hh. unfold key_of in Hh. rewrite Hh. clear Hf Hh.
  assert (Hcs1 : callback_set t1 l) by (split; [done|apply Hcs]).
  destruct (group c l) as [|e g] eqn:Hg; simpl fmap; cbn iota.
  - destruct (new_callback_first garbage c env t1 l Hcs1 Hg) as (a & t2 & l2 & Hrun & Hcs2 & Ha & G & Go).
    exists a, t2, l2. split; [exact Hrun|]. split; [done|]. simpl. split; [done|]. unfold table. rewrite Hg, G.
    split; [done|]. intros c' Hne. by rewrite Go.
  - assert (Hc := proj2 Hcs c). rewrite Hg in Hc.
    rewrite (find_env_ok m icmp fuel same env t1 l g Ht1 n 0 e); [|intros f Hf; split; [|by apply Heq]|done|simpl in Hn; lia].
    2: { rewrite <- Hg in Hf. by apply elem_of_group in Hf as [_ Hf]. }
    cbn [mbind res_bind]. destruct (find _ (e :: g)) as [f|]; [by exists f.1, t1, l|].
    destruct (exists_last (l := e :: g) ltac:(done)) as (g0 & [a0 x0] & Hl). rewrite Hl, last_last.
    rewrite Hl in Hg. destruct (new_callback_last garbage c env t1 l g0 a0 x0 Hcs1 Hg) as (a & t2 & l2 & Hrun & Hcs2 & Ha & G & Go).
    rewrite Hg in Hrun. exists a, t2, l2. split; [exact Hrun|]. split; [done|]. split; [done|].
    unfold table. rewrite G, Hg, !map_app. simpl. rewrite <- app_assoc. split; [done|]. intros c' Hne. by rewrite Go.
Qed.

Lemma table_locs l c a e : (a, e) ∈ table l c -> a ∈ locs l.
Proof. intros ([b x] & [= -> ->] & Hin)%list_elem_of_fmap. apply (group_subset c). by apply (list_elem_of_fmap_2 fst) in Hin. Qed.

(** *** Enumeration *)
Definition suffix_envs g : list Z := map (fun e => cb_env e.2) g.

Lemma trace_chain_ok {St} (fn : Z -> St -> res St) t l g : contents t l -> forall n k st,
  g ⊆ l -> chain k g -> (length g <= n)%nat ->
  trace_chain fn n t (fst <$> head g) st = visit_all fn (suffix_envs g) st.
Proof.
  intros Ht. induction g as [|[a x] g IH]; intros n k st Hsub Hc Hn; [by destruct n|].
  destruct n as [|n]; simpl in Hn; [lia|]. destruct Hc as (_ & Hx & Hc). simpl.
  rewrite (load_contents t l a x) by (done || apply Hsub; by left). cbn [mbind res_bind].
  simpl in Hx. rewrite Hx. change (suffix_envs ((a, x) :: g)) with (cb_env x :: suffix_envs g).
  rewrite visit_all_cons. destruct (fn (cb_env x) st) as [st'| | |]; [|done..]. cbn [mbind res_bind].
  apply (IH n (k + 1)); [|done|lia]. intros f Hf. apply Hsub. by right.
Qed.
Definition record (env : Z) (log : list Z) : res (list Z) := Ok (log ++ [env]).

Lemma visit_all_record vs log : visit_all record vs log = Ok (log ++ vs).
Proof.
  revert log. induction vs as [|v vs IH]; intros log; [by rewrite app_nil_r|].
  rewrite visit_all_cons. simpl. rewrite IH. by rewrite <- app_assoc.
Qed.

Lemma chain_suffix n g1 g2 : chain n (g1 ++ g2) -> chain (n + Z.of_nat (length g1)) g2.
Proof.
  revert n. induction g1 as [|e g1 IH]; intros n; simpl; [by rewrite Z.add_0_r|].
  intros (_ & _ & Hc). apply IH in Hc. by replace (n + Z.of_nat (S (length g1))) with (n + 1 + Z.of_nat (length g1)) by lia.
Qed.

(** An item is visited with those behind it in its group. *)
Lemma trace_each_ok t l a x n log : callback_set t l -> (a, x) ∈ l -> (length l <= n)%nat ->
  exists g2, g2 ⊆ l /\ trace_each record n t x log = Ok (log ++ cb_env x :: suffix_envs g2).
Proof.
  intros [Ht Hc] Hin Hn. specialize (Hc (cb_codeaddr x)).
  assert (Hg : (a, x) ∈ group (cb_codeaddr x) l) by (by apply elem_of_group).
  assert (Hlen : (length (group (cb_codeaddr x) l) <= length l)%nat) by apply length_filter.
  assert (Hsub : group (cb_codeaddr x) l ⊆ l) by (intros e He; by apply elem_of_group in He as [_ He]).
  apply list_elem_of_split in Hg as (g1 & g2 & Hg). rewrite Hg in *. apply chain_suffix in Hc as (_ & Hx & Hc).
  exists g2. split; [intros e He; apply Hsub, elem_of_app; right; by right|].
  unfold trace_each. change (record (cb_env x) log) with (Ok (log ++ [cb_env x])). cbn [mbind res_bind]. simpl in Hx. rewrite Hx. rewrite length_app in Hlen. simpl in Hlen.
  rewrite (trace_chain_ok record t l g2 Ht n (0 + Z.of_nat (length g1) + 1)); [|intros e He; apply Hsub, elem_of_app; right; by right|done|lia].
  rewrite visit_all_record. by rewrite <- app_assoc.
Qed.

Lemma enum_ok t l l' n log : callback_set t l -> l' ⊆ l -> (length l <= n)%nat ->
  exists new, visit_all (trace_each record n t) (items l') log = Ok (log ++ new) /\
    (forall e, e ∈ l' -> cb_env e.2 ∈ new) /\ (forall v, v ∈ new -> exists e, e ∈ l /\ v = cb_env e.2).
Proof.
  intros Hcs Hsub Hn. revert log. induction l' as [|[a x] l' IH]; intros log.
  { exists []. rewrite app_nil_r. split; [done|]. split; [by intros e ?%elem_of_nil|by intros v ?%elem_of_nil]. }
  change (items ((a, x) :: l')) with (x :: items l'). rewrite visit_all_cons.
  destruct (trace_each_ok t l a x n log Hcs) as (g2 & Hg2 & ->); [apply Hsub; by left|done|]. cbn [mbind res_bind].
  destruct (IH (fun e He => Hsub e (list_elem_of_further _ _ _ He)) (log ++ cb_env x :: suffix_envs g2)) as (new & -> & H1 & H2).
  exists ((cb_env x :: suffix_envs g2) ++ new). rewrite <- app_assoc. split; [done|]. split.
  - intros e [->|He]%elem_of_cons; [by left|]. apply elem_of_app. right. by apply H1.
  - intros v [[->|Hv]%elem_of_cons|Hv]%elem_of_app; [| |by apply H2].
    + exists (a, x). split; [apply Hsub; by left|done].
    + apply list_elem_of_fmap in Hv as (e & -> & He). exists e. split; [by apply Hg2|done].
Qed.
End Table.

(** ** Trampolines *)
Section CodeSpec.
Variables (getpagesize : Z) (mmap : nat -> option Z).
Hypothesis Hpage : TRAMPOLINE_SIZE <= getpagesize.
Hypothesis Hsome : forall i, is_Some (mmap i).
Hypothesis Happart : forall i j p q, i <> j -> mmap i = Some p -> mmap j = Some q ->
  p + getpagesize <= q \/ q + getpagesize <= p.

Definition in_page (i : nat) (p : Z) : Prop :=
  exists q, mmap i = Some q /\ q <= p /\ p + TRAMPOLINE_SIZE <= q + getpagesize.
Definition apart (p q : Z) : Prop := p + TRAMPOLINE_SIZE <= q \/ q + TRAMPOLINE_SIZE <= p.

(** The last page is used up to [base]. *)
Definition heap_ok (h : code_heap) : Prop :=
  match mmaps h with
  | O => heap_base h = 0 /\ heap_end h = 0
  | S i => exists q, mmap i = Some q /\ q <= heap_base h <= heap_end h /\ heap_end h = q + getpagesize
  end.
Definition unused (h : code_heap) (p : Z) : Prop :=
  exists i, in_page i p /\ ((mmaps h <= i)%nat \/ (S i = mmaps h /\ heap_base h <= p)).

Lemma alloc_code_ok h : heap_ok h ->
  exists p h', sml_alloc_code getpagesize mmap h = Ok (p, h') /\ heap_ok h' /\ unused h p /\
    forall p', unused h' p' -> unused h p' /\ apart p p'.
Proof.
  intros Hh. unfold sml_alloc_code, heap_ok, unused, in_page, apart in *. revert Hpage. unfold TRAMPOLINE_SIZE. intros Hp.
  destruct (Z.ltb_spec (heap_end h - heap_base h) 80) as [Hlt|Hge].
  - destruct (Hsome (mmaps h)) as [q Hq]. rewrite Hq. cbn [mbind res_bind]. eexists _, _. split; [done|]. simpl.
    split; [exists q; split; [done|lia]|]. split; [exists (mmaps h); split; [exists q; split; [done|lia]|by left]|].
    intros p' (i & (q' & Hq' & Hb) & Hi). split; [exists i; split; [by exists q'|left; lia]|].
    destruct (decide (i = mmaps h)) as [->|Hne]; [simplify_eq; lia|]. pose proof (Happart i (mmaps h) q' q Hne Hq' Hq). lia.
  - cbn [mbind res_bind]. eexists _, _. split; [done|]. simpl. destruct (mmaps h) as [|k] eqn:Hk; [lia|].
    destruct Hh as (q & Hq & Hb & He). split; [exists q; split; [done|lia]|].
    split; [exists k; split; [exists q; split; [done|lia]|right; lia]|].
    intros p' (i & (q' & Hq' & Hb') & Hi).
    split; [exists i; split; [by exists q'|]; lia|].
    destruct (decide (i = k)) as [->|Hne]; [simplify_eq; lia|]. pose proof (Happart i k q' q Hne Hq' Hq). lia.
Qed.

Lemma alloc_codes_ok n : forall h, heap_ok h ->
  exists ps h', alloc_codes getpagesize mmap n h = Ok (ps, h') /\ length ps = n /\
    (forall p, p ∈ ps -> unused h p) /\ ForallOrdPairs apart ps.
Proof.
  induction n as [|n IH]; intros h Hh.
  { exists [], h. split; [done|]. split; [done|]. split; [by intros p ?%elem_of_nil|constructor]. }
  destruct (alloc_code_ok h Hh) as (p & h1 & Hrun & Hh1 & Hp & Hu). destruct (IH h1 Hh1) as (ps & h2 & Hrun2 & Hlen & Hps & Hap).
  exists (p :: ps), h2. simpl. rewrite Hrun. cbn [mbind res_bind]. rewrite Hrun2. split; [done|]. split; [simpl; by rewrite Hlen|].
  split; [intros x [->|Hx]%elem_of_cons; [done|]; by apply Hu, Hps|].
  constructor; [|done]. apply Forall_forall. intros x Hx. by apply Hu, Hps.
Qed.
End CodeSpec.

Module CallbackSample.

#[global] Instance tree : ItemTree callback_item (@sml_tree callback_item) := item_tree callback_cmp sample_blocks.
#[global] Instance tree_spec : ItemTreeSpec callback_item sml_tree callback_cmp :=
  item_tree_spec callback_cmp sample_blocks sample_blocks_disjoint.

Definition callback_closures : @sml_tree callback_item :=
  match sml_tree_new 40 with Ok t => t | _ => SmlTree 40 64 None [] None ∅ 0 end.
Lemma callbacks0 : callback_set callback_closures [].
Proof. split; [|done]. by apply (splay_contents_new callback_cmp sample_blocks 40). Qed.

(** Equality on the objects of [EqualSample]. *)
Definition icmp (_ _ : Z) : Z := 1.
Definition eqb (a b : Z) : bool := match sml_obj_equal EqualSample.m icmp 2 a b with Ok r => r | _ => false end.
Lemma eqb_ok a b : EqualSample.P a -> EqualSample.P b -> obj_eq EqualSample.m icmp a b <-> eqb a b = true.
Proof.
  intros Ha Hb. unfold eqb.
  destruct (sml_obj_equal_spec EqualSample.m icmp EqualSample.P EqualSample.rank EqualSample.wf 2 a b Ha Hb)
    as (r & -> & Hr); [| |by rewrite Hr]; unfold EqualSample.rank; case_match; lia.
Qed.
Lemma euclidean a b c : EqualSample.P a -> EqualSample.P b -> EqualSample.P c ->
  obj_eq EqualSample.m icmp a b -> obj_eq EqualSample.m icmp a c -> obj_eq EqualSample.m icmp b c.
Proof.
  intros Ha Hb Hc. rewrite !eqb_ok by done. revert Ha Hb Hc. rewrite !EqualSample.P_cases.
  intros [->|[->|[->| ->]]] [->|[->|[->| ->]]] [->|[->|[->| ->]]]; vm_compute; congruence.
Qed.
End CallbackSample.

(** ** Properties *)
Section Equality.
Variables (m : mem) (icmp : Z -> Z -> Z) (P : Z -> Prop) (rank : Z -> nat) (fuel : nat).

(** The environments are objects of finite depth. *)
Definition envs_ok l : Prop := forall c a e, (a, e) ∈ table l c -> P e /\ (rank e < fuel)%nat.
(** No two callbacks of a code address have equal environments. *)
Definition separated l : Prop :=
  forall c a b e f, (a, e) ∈ table l c -> (b, f) ∈ table l c -> obj_eq m icmp e f -> a = b.

Lemma find_callback_equal `{ItemTreeSpec callback_item T callback_cmp} n garbage c env (t : T) l :
  wf_objects m P rank -> callback_set t l -> envs_ok l -> P env -> (rank env < fuel)%nat -> (length (table l c) <= n)%nat ->
  exists a t' l', sml_find_callback m icmp fuel n garbage c env t = Ok (a, t') /\ callback_set t' l' /\
    ((exists e, (a, e) ∈ table l c /\ obj_eq m icmp env e /\ l' = l) \/
     ((forall b e, (b, e) ∈ table l c -> ~ obj_eq m icmp env e) /\ ~ a ∈ locs l /\
      table l' c = table l c ++ [(a, env)] /\ forall c', c' <> c -> table l' c' = table l c')).
Proof.
  intros Hwf Hcs Henv HP Hr Hn.
  set (same e := match sml_obj_equal m icmp fuel env e with Ok b => b | _ => false end).
  assert (Hs : forall f, f ∈ group c l -> sml_obj_equal m icmp fuel env (cb_env f.2) = Ok (same (cb_env f.2)) /\
    (same (cb_env f.2) = true <-> obj_eq m icmp env (cb_env f.2))).
  { intros f Hf. destruct (Henv c f.1 (cb_env f.2)) as [He Hre]; [apply list_elem_of_fmap; by exists f|].
    destruct (sml_obj_equal_spec m icmp P rank Hwf fuel env (cb_env f.2) HP He Hr Hre) as (r & Hrun & Hb).
    unfold same. by rewrite Hrun. }
  destruct (find_callback_ok m icmp fuel same n garbage c env t l Hcs) as (a & t' & l' & Hrun & Hcs' & Hcase).
  { intros f Hf. by apply Hs. } { unfold table in Hn. by rewrite length_map in Hn. }
  exists a, t', l'. split; [done|]. split; [done|]. destruct (find _ (group c l)) as [f|] eqn:Hf.
  - left. apply List.find_some in Hf as [Hin Hsf]. apply list_elem_of_In in Hin. destruct Hcase as [-> ->].
    exists (cb_env f.2). split; [apply list_elem_of_fmap; by exists f|]. split; [by apply Hs|done].
  - right. split; [|done]. intros b e ([b' x] & [= -> ->] & Hin)%list_elem_of_fmap He.
    apply list_elem_of_In in Hin. apply (List.find_none _ _ Hf) in Hin as Hx. apply list_elem_of_In in Hin.
    apply (Hs (b', x) Hin) in He. simpl in *. congruence.
Qed.

Lemma separated_new l l' c a env :
  (forall a b c, P a -> P b -> P c -> obj_eq m icmp a b -> obj_eq m icmp a c -> obj_eq m icmp b c) ->
  separated l -> envs_ok l -> P env ->
  (forall b e, (b, e) ∈ table l c -> ~ obj_eq m icmp env e) ->
  table l' c = table l c ++ [(a, env)] -> (forall c', c' <> c -> table l' c' = table l c') -> separated l'.
Proof.
  intros Heu Hsep Henv HP Hno Hc Ho c' a1 a2 e1 e2. destruct (decide (c' = c)) as [->|Hne]; [|rewrite Ho by done; by apply Hsep].
  rewrite Hc, !elem_of_app, !list_elem_of_singleton. intros [H1|[= -> ->]] [H2|[= -> ->]] He; [by eapply Hsep|..|done].
  - exfalso. destruct (Henv c a1 e1 H1). apply (Hno a1 e1 H1). apply (Heu e1); [done..|apply eq_same].
  - exfalso. by apply (Hno a2 e2 H2).
Qed.

Lemma table_functional l c1 c2 a e1 e2 : NoDup (locs l) -> (a, e1) ∈ table l c1 -> (a, e2) ∈ table l c2 -> c1 = c2 /\ e1 = e2.
Proof.
  intros Hnd ([a1 x] & [= <- ->] & H1)%list_elem_of_fmap ([a2 y] & [= <- ->] & H2)%list_elem_of_fmap.
  apply elem_of_group in H1 as [Hx H1], H2 as [Hy H2]. simpl in *.
  assert (x = y) as -> by (by eapply locs_functional). by subst.
Qed.

Hypothesis Hwf : wf_objects m P rank.
Hypothesis Heuclid : forall a b c, P a -> P b -> P c -> obj_eq m icmp a b -> obj_eq m icmp a c -> obj_eq m icmp b c.
Let eq_sym a b : P a -> P b -> obj_eq m icmp a b -> obj_eq m icmp b a.
Proof. intros Ha Hb H. by apply (Heuclid a); [..|apply eq_same]. Qed.

Lemma find_callback_step `{ItemTreeSpec callback_item T callback_cmp} n garbage c env (t : T) l :
  callback_set t l -> envs_ok l -> separated l -> P env -> (rank env < fuel)%nat -> (length (table l c) <= n)%nat ->
  exists a t' l' f, sml_find_callback m icmp fuel n garbage c env t = Ok (a, t') /\ callback_set t' l' /\
    envs_ok l' /\ separated l' /\ (a, f) ∈ table l' c /\ P f /\ obj_eq m icmp env f /\
    forall c', table l c' ⊆ table l' c' /\ (length (table l' c') <= S (length (table l c')))%nat.
Proof.
  intros Hcs Henv Hsep HP Hr Hn.
  destruct (find_callback_equal n garbage c env t l Hwf Hcs Henv HP Hr Hn)
    as (a & t' & l' & Hrun & Hcs' & [(e & Hin & He & ->)|(Hno & Ha & Hc & Ho)]).
  - exists a, t', l, e. do 4 (split; [done|]). split; [done|]. split; [by eapply Henv|]. split; [done|]. intros c'. split; [done|lia].
  - exists a, t', l', env. split; [done|]. split; [done|].
    assert (Hsub : forall c', table l c' ⊆ table l' c' /\ (length (table l' c') <= S (length (table l c')))%nat).
    { intros c'. destruct (decide (c' = c)) as [->|Hne]; [|rewrite Ho by done; split; [done|lia]].
      rewrite Hc, length_app. simpl. split; [set_solver|lia]. }
    split. { intros c' b e. destruct (decide (c' = c)) as [->|Hne]; [|rewrite Ho by done; apply Henv].
      rewrite Hc, elem_of_app, list_elem_of_singleton. intros [Hb|[= -> ->]]; [by eapply Henv|done]. }
    split; [by eapply separated_new|].
    split; [rewrite Hc; apply elem_of_app; right; by left|]. split; [done|]. split; [apply eq_same|done].
Qed.

Lemma two_callbacks `{ItemTreeSpec callback_item T callback_cmp} n garbage c1 e1 c2 e2 (t : T) l :
  callback_set t l -> envs_ok l -> separated l -> (forall c, (length (table l c) < n)%nat) ->
  P e1 -> P e2 -> (rank e1 < fuel)%nat -> (rank e2 < fuel)%nat ->
  exists a1 t1 a2 t2 l2,
    sml_find_callback m icmp fuel n garbage c1 e1 t = Ok (a1, t1) /\
    sml_find_callback m icmp fuel n garbage c2 e2 t1 = Ok (a2, t2) /\
    callback_set t2 l2 /\ envs_ok l2 /\ separated l2 /\ (a1 = a2 <-> c1 = c2 /\ obj_eq m icmp e1 e2).
Proof.
  intros Hcs Henv Hsep Hn P1 P2 R1 R2.
  destruct (find_callback_step n garbage c1 e1 t l Hcs Henv Hsep P1 R1)
    as (a1 & t1 & l1 & f1 & Hrun1 & Hcs1 & Henv1 & Hsep1 & Hin1 & Pf1 & He1 & Hl1); [specialize (Hn c1); lia|].
  destruct (find_callback_step n garbage c2 e2 t1 l1 Hcs1 Henv1 Hsep1 P2 R2)
    as (a2 & t2 & l2 & f2 & Hrun2 & Hcs2 & Henv2 & Hsep2 & Hin2 & Pf2 & He2 & Hl2).
  { specialize (Hn c2). destruct (Hl1 c2) as [_ Hlen]. lia. }
  apply (Hl2 c1) in Hin1. exists a1, t1, a2, t2, l2. do 5 (split; [done|]). split.
  - intros <-. destruct (table_functional l2 c1 c2 a1 f1 f2) as [-> ->]; [apply (contents_nodup t2), Hcs2|done|done|].
    split; [done|]. apply (Heuclid f2); [done..|by apply eq_sym|by apply eq_sym].
  - intros [-> He]. apply (Hsep2 c2 a1 a2 f1 f2); [done|done|]. apply (Heuclid e2); [done..| |done].
    apply eq_sym; [done..|]. by apply (Heuclid e1).
Qed.
End Equality.

(** C13. [sml_find_callback] returns the same item for two callbacks exactly if
    they have the same code address and structurally equal environments, and
    keeps the table free of duplicates. *)
Theorem callback_identity `{ItemTreeSpec callback_item T callback_cmp} m icmp P rank fuel n garbage c1 e1 c2 e2 (t : T) l :
  wf_objects m P rank ->
  (forall a b c, P a -> P b -> P c -> obj_eq m icmp a b -> obj_eq m icmp a c -> obj_eq m icmp b c) ->
  callback_set t l -> envs_ok P rank fuel l -> separated m icmp l -> (forall c, (length (table l c) < n)%nat) ->
  P e1 -> P e2 -> (rank e1 < fuel)%nat -> (rank e2 < fuel)%nat ->
  exists a1 t1 a2 t2 l2,
    sml_find_callback m icmp fuel n garbage c1 e1 t = Ok (a1, t1) /\
    sml_find_callback m icmp fuel n garbage c2 e2 t1 = Ok (a2, t2) /\
    callback_set t2 l2 /\ envs_ok P rank fuel l2 /\ separated m icmp l2 /\
    (a1 = a2 <-> c1 = c2 /\ obj_eq m icmp e1 e2).
Proof. intros Hwf Heu. by apply two_callbacks. Qed.

Lemma callback_identity_witness : exists a1 t1 a2 t2 l2,
  sml_find_callback EqualSample.m CallbackSample.icmp 2 1 5 1000 64 CallbackSample.callback_closures = Ok (a1, t1) /\
  sml_find_callback EqualSample.m CallbackSample.icmp 2 1 5 1000 96 t1 = Ok (a2, t2) /\
  callback_set t2 l2 /\ envs_ok EqualSample.P EqualSample.rank 2 l2 /\ separated EqualSample.m CallbackSample.icmp l2 /\
  (a1 = a2 <-> 1000 = 1000 /\ obj_eq EqualSample.m CallbackSample.icmp 64 96).
Proof.
  apply (callback_identity EqualSample.m CallbackSample.icmp EqualSample.P EqualSample.rank 2 1 5 1000 64 1000 96
           CallbackSample.callback_closures []).
  - exact EqualSample.wf.
  - exact CallbackSample.euclidean.
  - exact CallbackSample.callbacks0.
  - intros c a e H. by apply elem_of_nil in H.
  - intros c a b e f H. by apply elem_of_nil in H.
  - intros c. vm_compute. lia.
  - apply EqualSample.P_cases. tauto.
  - apply EqualSample.P_cases. tauto.
  - vm_compute. lia.
  - vm_compute. lia.
Defined.

(** A collection visits the environment of every callback, and nothing
    else. *)
Theorem sml_callback_enum_ptr_correct `{ItemTreeSpec callback_item T callback_cmp} n (t : T) l log :
  callback_set t l -> (length l <= n)%nat ->
  exists t' new, sml_callback_enum_ptr record n t log = Ok (t', log ++ new) /\ callback_set t' l /\
    forall e, e ∈ new <-> exists c a, (a, e) ∈ table l c.
Proof.
  intros Hcs Hn. destruct (enum_ok t l l n log Hcs) as (new & Hv & H1 & H2); [done|done|].
  destruct (each_res_contents (trace_each record n t) t l log _ (proj1 Hcs) Hv) as (t' & Hrun & Ht').
  exists t', new. split; [exact Hrun|]. split; [split; [done|apply Hcs]|]. intros e. split.
  - intros He. destruct (H2 e He) as ([a x] & Hin & ->). exists (cb_codeaddr x), a.
    apply list_elem_of_fmap. exists (a, x). by rewrite elem_of_group.
  - intros (c & a & ([b x] & [= -> ->] & Hin)%list_elem_of_fmap). apply elem_of_group in Hin as [_ Hin].
    by apply (H1 (b, x)).
Qed.

Lemma sml_callback_enum_ptr_correct_witness : exists (t : @sml_tree callback_item) l a,
  table l 1000 = [(a, 64)] /\
  exists t' new, sml_callback_enum_ptr record (length l) t [7] = Ok (t', [7] ++ new) /\
    callback_set t' l /\ forall e, e ∈ new <-> exists c a, (a, e) ∈ table l c.
Proof.
  destruct (find_callback_ok EqualSample.m CallbackSample.icmp 2 (CallbackSample.eqb 64) 0 5 1000 64 _ [] CallbackSample.callbacks0)
    as (a & t & l & _ & Hcs & _ & Htab & _).
  { intros f Hf. by apply elem_of_nil in Hf. } { simpl. lia. }
  exists t, l, a. split; [exact Htab|]. by apply sml_callback_enum_ptr_correct.
Defined.

(** The trampolines that [sml_alloc_code] hands out lie in the pages of
    [mmap] and do not overlap. *)
Theorem sml_alloc_code_apart getpagesize mmap n :
  TRAMPOLINE_SIZE <= getpagesize -> (forall i, is_Some (mmap i)) ->
  (forall i j p q, i <> j -> mmap i = Some p -> mmap j = Some q -> p + getpagesize <= q \/ q + getpagesize <= p) ->
  exists ps h, alloc_codes getpagesize mmap n trampoline_heap = Ok (ps, h) /\ length ps = n /\
    (forall p, p ∈ ps -> exists i, in_page getpagesize mmap i p) /\ ForallOrdPairs apart ps.
Proof.
  intros H1 H2 H3. destruct (alloc_codes_ok getpagesize mmap H1 H2 H3 n trampoline_heap) as (ps & h & Hrun & Hlen & Hps & Hap); [done|].
  exists ps, h. split; [done|]. split; [done|]. split; [|done]. intros p Hp. destruct (Hps p Hp) as (i & Hi & _). by exists i.
Qed.

Lemma sml_alloc_code_apart_witness : exists ps h,
  alloc_codes 4096 (fun i => Some (4096 * Z.of_nat i)) 100 trampoline_heap = Ok (ps, h) /\ length ps = 100%nat /\
  (forall p, p ∈ ps -> exists i, in_page 4096 (fun i => Some (4096 * Z.of_nat i)) i p) /\ ForallOrdPairs apart ps.
Proof.
  apply (sml_alloc_code_apart 4096 (fun i => Some (4096 * Z.of_nat i)) 100).
  - vm_compute. discriminate.
  - intros i. by exists (4096 * Z.of_nat i).
  - intros i j p q Hne [= <-] [= <-]. lia.
Defined.
