(* ===== verification/Livecheck.v ===== *)
(** * The object tracer for debugging

    src/src/runtime/livecheck.c: a naive traversal of the heap that keeps
    the objects it has reached in an ordered tree, each with the slot and
    the object through which it was reached first. *)
From Stdlib Require Import ZArith Lia.
From stdpp Require Import base option list sorting.
From S2P Require Import Prelude SplayTree SplayHeap SplayOps SplayIter ItemTree Memory Object Finalize.

Local Open Scope Z_scope.

(** The [parent] field: null, [&global_root], or an item. *)
Inductive parent_ptr := ParentNull | ParentGlobal | ParentItem (a : loc).

(** [struct sml_livecheck_obj]. *)
Record livecheck_obj := LivecheckObj { lc_obj : Z; lc_at : Z; lc_next : nodeptr; lc_parent : parent_ptr }.

Definition livecheck_obj_cmp (s1 s2 : livecheck_obj) : Z := voidp_cmp (lc_obj s1) (lc_obj s2).
#[export] Instance livecheck_obj_cmp_order : ItemOrder livecheck_obj_cmp.
Proof. apply order_on, _. Qed.

Section Livecheck.
Context {T : Type} `{!ItemTree livecheck_obj T}.
Variable m : mem.

(** [struct sml_livecheck]. *)
Record livecheck := Livecheck { top : nodeptr; parent : parent_ptr; tree : T }.

Definition find_key (obj : Z) : livecheck_obj := LivecheckObj obj 0 None ParentNull.

(** A slot is its address and the object in it. *)
Definition livecheck_mark (slot : Z * Z) (s : livecheck) : res livecheck :=
  let obj := slot.2 in
  if obj =? 0 then Ok s
  else
    '(found, t) ← tree_find (tree s) (find_key obj);
    match found with
    | Some _ => Ok (Livecheck (top s) (parent s) t)
    | None =>
        '(i, t) ← tree_insert t (find_key obj);
        x ← tree_load t i;
        t ← tree_store t i (LivecheckObj (lc_obj x) slot.1 (top s) (parent s));
        Ok (Livecheck (Some i) (parent s) t)
    end.

Definition mark_slots (slots : list (Z * Z)) (s : livecheck) : res livecheck := visit_all livecheck_mark slots s.

Definition set_parent (p : parent_ptr) (s : livecheck) : livecheck := Livecheck (top s) p (tree s).

(** [while (s->top)]. *)
Fixpoint trace_loop (fuel : nat) (s : livecheck) : res livecheck :=
  match top s, fuel with
  | None, _ => Ok s
  | Some _, O => NoFuel
  | Some a, S fuel =>
      x ← tree_load (tree s) a;
      let s := Livecheck (lc_next x) (ParentItem a) (tree s) in
      s ← (if Z.land (OBJ_HEADER m (lc_obj x)) OBJ_FLAG_SKIP =? 0 then
             ps ← sml_obj_enum_ptr m (lc_obj x); mark_slots (map (fun p => (p, load64 m p)) ps) s
           else Ok s);
      trace_loop fuel s
  end.

(** The slots of [sml_global_enum_ptr], [sml_callback_enum_ptr] and, if a
    user thread is given, of [sml_stack_enum_ptr]. *)
Definition livecheck_trace (fuel : nat) (globals callbacks : list (Z * Z)) (stack : option (list (Z * Z))) (s : livecheck) : res livecheck :=
  s ← mark_slots globals (set_parent ParentGlobal s);
  s ← mark_slots callbacks s;
  s ← match stack with Some slots => mark_slots slots (set_parent ParentNull s) | None => Ok s end;
  trace_loop fuel s.

(** [sml_livecheck] on a new tree. *)
Definition sml_livecheck (fuel : nat) (globals callbacks : list (Z * Z)) (stack : option (list (Z * Z))) (t : T) : res livecheck :=
  livecheck_trace fuel globals callbacks stack (Livecheck None ParentNull t).

Definition livecheck_find (s : livecheck) (obj : Z) : res (nodeptr * livecheck) :=
  '(i, t) ← tree_find (tree s) (find_key obj); Ok (i, Livecheck (top s) (parent s) t).

Definition sml_livecheck_at (s : livecheck) (obj : Z) : res (Z * livecheck) :=
  '(i, s) ← livecheck_find s obj;
  match i with None => Ok (0, s) | Some i => x ← tree_load (tree s) i; Ok (lc_at x, s) end.

(** [i->parent->obj]; [global_root.obj] is null. *)
Definition sml_livecheck_parent (s : livecheck) (obj : Z) : res (Z * livecheck) :=
  '(i, s) ← livecheck_find s obj;
  match i with
  | None => Ok (0, s)
  | Some i =>
      x ← tree_load (tree s) i;
      match lc_parent x with
      | ParentNull => Fault
      | ParentGlobal => Ok (0, s)
      | ParentItem a => y ← tree_load (tree s) a; Ok (lc_obj y, s)
      end
  end.

(** The addresses that [sml_livecheck_print_parents] prints. *)
Fixpoint print_loop (fuel : nat) (t : T) (i : parent_ptr) : res (list Z) :=
  match i, fuel with
  | ParentNull, _ => Ok []
  | _, O => NoFuel
  | ParentGlobal, S _ => Ok [0]
  | ParentItem a, S fuel => x ← tree_load t a; out ← print_loop fuel t (lc_parent x); Ok (lc_obj x :: out)
  end.
Definition sml_livecheck_print_parents (fuel : nat) (s : livecheck) (obj : Z) : res (list Z * livecheck) :=
  '(i, s) ← livecheck_find s obj;
  out ← print_loop fuel (tree s) (match i with Some a => ParentItem a | None => ParentNull end);
  Ok (out, s).

(** The objects that [sml_livecheck_each] calls its argument with. *)
Definition sml_livecheck_each (s : livecheck) : res (T * list Z) :=
  tree_each (fun x objs => (x, objs ++ [lc_obj x])) (tree s) [].
End Livecheck.
Arguments livecheck T : clear implicits.

(** ** Reachability *)
Section Spec.
Context {T : Type} `{ItemTreeSpec livecheck_obj T livecheck_obj_cmp}.
Variables (m : mem) (roots : list (Z * Z)).
Implicit Types (l : list (Z * livecheck_obj)) (s : livecheck T).

Definition skipped (o : Z) : bool := negb (Z.land (OBJ_HEADER m o) OBJ_FLAG_SKIP =? 0).
Definition points_from (o p : Z) : Prop := skipped o = false /\ exists ps, sml_obj_enum_ptr m o = Ok ps /\ p ∈ ps.

Inductive reachable : Z -> Prop :=
| reach_root p o : (p, o) ∈ roots -> o <> 0 -> reachable o
| reach_field o p : reachable o -> points_from o p -> load64 m p <> 0 -> reachable (load64 m p).

Definition objects l : list Z := map (fun e => lc_obj e.2) l.

(** How an object was reached: from a root, or through a field of its parent. *)
Definition reached_by l (x : livecheck_obj) : Prop :=
  match lc_parent x with
  | ParentItem a => exists y, (a, y) ∈ l /\ points_from (lc_obj y) (lc_at x) /\ load64 m (lc_at x) = lc_obj x
  | _ => (lc_at x, lc_obj x) ∈ roots
  end.

(** The list of the objects to trace, linked by [next]. *)
Fixpoint linked l (p : nodeptr) (W : list Z) : Prop :=
  match W with
  | [] => p = None
  | a :: W => p = Some a /\ exists x, (a, x) ∈ l /\ linked l (lc_next x) W
  end.

Lemma linked_mono l l' p W : l ⊆ l' -> linked l p W -> linked l' p W.
Proof.
  intros Hl. revert p. induction W as [|a W IH]; intros p; simpl; [done|]. intros (-> & x & Hx & HW).
  split; [done|]. exists x. split; [by apply Hl|by apply IH].
Qed.

Lemma lc_key o x : livecheck_obj_cmp (find_key o) x = 0 <-> lc_obj x = o.
Proof. unfold livecheck_obj_cmp. rewrite voidp_cmp_0. simpl. split; congruence. Qed.

Lemma objects_nodup t l : contents t l -> NoDup (objects l).
Proof.
  intros Ht. pose proof (contents_sorted t l Ht) as Hs. pose proof (contents_nodup t l Ht) as Hn.
  apply NoDup_fmap_2_strong; [|by eapply NoDup_fmap_1]. intros e f He Hf Heq.
  apply (sorted_unique livecheck_obj_cmp l); [done..|]. apply voidp_cmp_0. done.
Qed.

Lemma elem_of_objects l o : o ∈ objects l <-> exists a x, (a, x) ∈ l /\ lc_obj x = o.
Proof.
  unfold objects. rewrite list_elem_of_fmap. split.
  - intros ([a x] & -> & Hx). by exists a, x.
  - intros (a & x & Hx & <-). by exists (a, x).
Qed.

Lemma not_marked l o : key_in livecheck_obj_cmp (find_key o) l = [] <-> o ∉ objects l.
Proof.
  rewrite key_in_none, elem_of_objects. setoid_rewrite lc_key. split; [intros Hn (a & x & Hx & Ho)|intros Hn a x Hx Ho];
    [by apply (Hn a x)|apply Hn; by exists a, x].
Qed.

Lemma reached_by_mono l l' x : l ⊆ l' -> reached_by l x -> reached_by l' x.
Proof.
  unfold reached_by. intros Hl. destruct (lc_parent x); [done..|]. intros (y & Hy & ?). exists y. split; [by apply Hl|done].
Qed.

(** What holds between the calls of [livecheck_mark]: the items are
    reachable objects, the objects in [W] are to be traced. *)
Record lc_inv s l (W : list Z) : Prop := {
  lc_tree : contents (tree s) l;
  lc_work : linked l (top s) W;
  lc_live a x : (a, x) ∈ l -> reachable (lc_obj x) /\ reached_by l x
}.

(** The items [l'] of a later state extend [l], with the new ones in [W']. *)
Record lc_grows l W l' W' : Prop := {
  grows_items : l ⊆ l';
  grows_work : W ⊆ W';
  grows_new a x : (a, x) ∈ l' -> (a, x) ∈ l \/ a ∈ W';
  grows_length : (length l' + length W = length l + length W')%nat
}.

Lemma lc_grows_refl l W : lc_grows l W l W.
Proof. split; [done|done|by left|done]. Qed.
Lemma lc_grows_trans l1 W1 l2 W2 l3 W3 : lc_grows l1 W1 l2 W2 -> lc_grows l2 W2 l3 W3 -> lc_grows l1 W1 l3 W3.
Proof.
  intros [I1 S1 N1 L1] [I2 S2 N2 L2]. split; [by etrans|by etrans| |lia].
  intros a x [Hx|?]%N2; [|by right]. apply N1 in Hx as [?|?]; [by left|right; by apply S2].
Qed.

(** A slot that may be marked with the parent [p]. *)
Definition good_slot l (p : parent_ptr) (slot : Z * Z) : Prop :=
  slot.2 <> 0 -> reachable slot.2 /\ forall n, reached_by l (LivecheckObj slot.2 slot.1 n p).

Lemma good_slot_mono l l' p slot : l ⊆ l' -> good_slot l p slot -> good_slot l' p slot.
Proof. intros Hl Hs Hn. apply Hs in Hn as [? Hr]. split; [done|]. intros n. by eapply reached_by_mono. Qed.

(** One new item. *)
Lemma mark_new s l W o at_ :
  lc_inv s l W -> good_slot l (parent s) (at_, o) -> o <> 0 -> o ∉ objects l ->
  exists i t t' l', tree_insert (tree s) (find_key o) = Ok (i, t) /\ tree_load t i = Ok (find_key o) /\
    tree_store t i (LivecheckObj o at_ (top s) (parent s)) = Ok t' /\
    lc_inv (Livecheck (Some i) (parent s) t') l' (i :: W) /\ lc_grows l W l' (i :: W) /\ o ∈ objects l'.
Proof.
  intros [Ht HW Hlive] Hslot Ho Hnew. apply Hslot in Ho as [Hr Hby]. apply not_marked in Hnew.
  set (y := LivecheckObj o at_ (top s) (parent s)).
  destruct (insert_contents _ l (find_key o) Ht) as (i & t & Hi & Ht').
  pose proof (new_item_fresh _ _ _ _ Ht' Hnew) as Hfresh.
  pose proof (key_placed_perm _ (find_key o) i l Hnew) as Hp.
  set (l1 := key_placed livecheck_obj_cmp (find_key o) i l) in *.
  assert (Hin : (i, find_key o) ∈ l1) by (rewrite Hp; by left).
  destruct (store_item _ _ i (find_key o) y Ht' Hin) as (t' & Hs & Hc); [by apply lc_key|].
  assert (Hmem : forall b z, (b, z) ∈ item_set i y l1 <-> (b = i /\ z = y) \/ (b, z) ∈ l).
  { intros b z. rewrite elem_of_item_set. unfold locs. setoid_rewrite Hp. rewrite elem_of_cons, fmap_cons, elem_of_cons.
    split; [intros [(-> & -> & _)|(? & [[= ??]|?])]; by auto|].
    intros [[-> ->]|Hz]; [left; by auto|]. right. split; [|by right].
    intros ->. apply Hfresh. by apply (list_elem_of_fmap_2 fst) in Hz. }
  assert (Hsub : l ⊆ item_set i y l1) by (intros [b z] Hz; apply Hmem; by right).
  exists i, t, t', (item_set i y l1). split_and!; [done| |done|..].
  - by apply (load_contents _ l1).
  - split; simpl; [done| |].
    + split; [done|]. exists y. split; [apply Hmem; by left|]. by eapply linked_mono.
    + intros b z [[-> ->]|Hz]%Hmem; [split; [done|]; eapply reached_by_mono; [done|apply Hby]|].
      apply Hlive in Hz as [? ?]. split; [done|by eapply reached_by_mono].
  - split; [done|by apply list_subseteq_cons| |].
    + intros b z [[-> _]|Hz]%Hmem; [right; by left|by left].
    + unfold item_set. rewrite length_map, Hp. simpl. lia.
  - apply elem_of_objects. exists i, y. split; [apply Hmem; by left|done].
Qed.

Lemma mark_ok s l W slot : lc_inv s l W -> good_slot l (parent s) slot ->
  exists s' l' W', livecheck_mark slot s = Ok s' /\ parent s' = parent s /\ lc_inv s' l' W' /\ lc_grows l W l' W' /\
    (slot.2 <> 0 -> slot.2 ∈ objects l').
Proof.
  intros Hi Hslot. unfold livecheck_mark. destruct slot as [at_ o]; simpl in *.
  destruct (Z.eqb_spec o 0) as [->|Ho].
  { exists s, l, W. split_and!; [done..|apply lc_grows_refl|done]. }
  destruct (find_contents _ l (find_key o) (lc_tree _ _ _ Hi)) as (t & -> & Ht). cbn [mbind res_bind].
  set (s1 := Livecheck (top s) (parent s) t).
  assert (Hi1 : lc_inv s1 l W) by (destruct Hi; by split).
  destruct (key_in livecheck_obj_cmp (find_key o) l) as [|[a x] r] eqn:E; simpl.
  - destruct (mark_new s1 l W o at_ Hi1 Hslot Ho) as (i & t1 & t2 & l' & Hins & Hload & Hstore & Hinv & Hg & Hin);
      [by apply not_marked|]. simpl in Hins. rewrite Hins. cbn [mbind res_bind]. rewrite Hload. cbn [mbind res_bind].
    simpl in Hstore. simpl. rewrite Hstore. cbn [mbind res_bind]. by exists (Livecheck (Some i) (parent s) t2), l', (i :: W).
  - exists s1, l, W. split_and!; [done..|apply lc_grows_refl|]. intros _.
    destruct (decide (o ∈ objects l)) as [?|Hn]; [done|]. apply not_marked in Hn. congruence.
Qed.

Lemma mark_slots_ok slots : forall s l W, lc_inv s l W -> Forall (good_slot l (parent s)) slots ->
  exists s' l' W', mark_slots slots s = Ok s' /\ parent s' = parent s /\ lc_inv s' l' W' /\ lc_grows l W l' W' /\
    Forall (fun slot => slot.2 <> 0 -> slot.2 ∈ objects l') slots.
Proof.
  unfold mark_slots. induction slots as [|slot slots IH]; intros s l W Hi HF.
  { exists s, l, W. split_and!; [done..|apply lc_grows_refl|done]. }
  apply Forall_cons in HF as [Hslot HF]. rewrite visit_all_cons.
  destruct (mark_ok s l W slot Hi Hslot) as (s1 & l1 & W1 & -> & Hp & Hi1 & Hg1 & Hin). cbn [mbind res_bind].
  destruct (IH s1 l1 W1 Hi1) as (s2 & l2 & W2 & -> & Hp2 & Hi2 & Hg2 & HF2).
  { rewrite Hp. eapply Forall_impl; [exact HF|]. intros x. by apply good_slot_mono, (grows_items _ _ _ _ Hg1). }
  exists s2, l2, W2. split_and!; [done|congruence|done|by eapply lc_grows_trans|]. constructor; [|done].
  intros Hne. apply Hin in Hne. apply elem_of_objects in Hne as (a & x & Hx & <-).
  apply elem_of_objects. exists a, x. split; [by apply (grows_items _ _ _ _ Hg2)|done].
Qed.

(** ** The main loop *)
Definition closed l (o : Z) : Prop := forall p, points_from o p -> load64 m p <> 0 -> load64 m p ∈ objects l.
Definition traced l (W : list Z) : Prop := forall a x, (a, x) ∈ l -> a ∈ W \/ closed l (lc_obj x).

Lemma objects_mono l l' : l ⊆ l' -> objects l ⊆ objects l'.
Proof. intros Hl o (a & x & Hx & <-)%elem_of_objects. apply elem_of_objects. exists a, x. split; [by apply Hl|done]. Qed.

Hypothesis Hheap : forall o, reachable o -> skipped o = false -> exists ps, sml_obj_enum_ptr m o = Ok ps.

(** One object: its fields are marked. *)
Lemma trace_object s l W a x :
  lc_inv s l W -> (a, x) ∈ l -> parent s = ParentItem a ->
  exists s' l' W',
    (if Z.land (OBJ_HEADER m (lc_obj x)) OBJ_FLAG_SKIP =? 0 then
       ps ← sml_obj_enum_ptr m (lc_obj x); mark_slots (map (fun p => (p, load64 m p)) ps) s
     else Ok s) = Ok s' /\ lc_inv s' l' W' /\ lc_grows l W l' W' /\ closed l' (lc_obj x).
Proof.
  intros Hi Hx Hpar. destruct (lc_live _ _ _ Hi a x Hx) as [Hr _].
  destruct (Z.land (OBJ_HEADER m (lc_obj x)) OBJ_FLAG_SKIP =? 0) eqn:Eskip.
  - assert (Hs : skipped (lc_obj x) = false) by (unfold skipped; by rewrite Eskip).
    destruct (Hheap _ Hr Hs) as (ps & Hps). rewrite Hps. cbn [mbind res_bind].
    destruct (mark_slots_ok (map (fun p => (p, load64 m p)) ps) s l W Hi) as (s1 & l1 & W1 & -> & _ & Hi1 & Hg & HF).
    { rewrite Forall_forall. intros [p o] (p' & [= -> ->] & Hp)%list_elem_of_fmap Hne. simpl in *.
      assert (Hpf : points_from (lc_obj x) p') by (split; [done|by exists ps]).
      split; [by apply (reach_field (lc_obj x))|]. intros n. unfold reached_by. simpl. rewrite Hpar.
      by exists x. }
    exists s1, l1, W1. split_and!; [done..|]. intros p [_ (ps' & Hps' & Hp)] Hne. rewrite Hps in Hps'. simplify_eq.
    rewrite Forall_forall in HF. apply (HF (p, load64 m p)); [|done].
    apply list_elem_of_fmap. by exists p.
  - exists s, l, W. split_and!; [done..|apply lc_grows_refl|]. intros p [Hs _]. unfold skipped in Hs. by rewrite Eskip in Hs.
Qed.

Lemma trace_loop_ok (us : list Z) : (forall o, reachable o -> o ∈ us) ->
  forall fuel s l W, lc_inv s l W -> traced l W -> (length us + length W < fuel + length l)%nat ->
  exists s' l', trace_loop m fuel s = Ok s' /\ lc_inv s' l' [] /\ l ⊆ l' /\ traced l' [].
Proof.
  intros Hus fuel. induction fuel as [|fuel IH]; intros s l W Hi Ht Hlen.
  all: destruct W as [|a W].
  1, 3: pose proof (lc_work _ _ _ Hi) as Hw; simpl in Hw; exists s, l; simpl; rewrite Hw; done.
  { exfalso. assert (Hle : (length (objects l) <= length us)%nat).
    { apply submseteq_length, NoDup_submseteq; [eapply objects_nodup, lc_tree, Hi|].
      intros o (b & y & Hy & <-)%elem_of_objects. by apply Hus, (lc_live _ _ _ Hi b). }
    unfold objects in Hle. rewrite length_map in Hle. simpl in Hlen. lia. }
  pose proof (lc_work _ _ _ Hi) as (Htop & x & Hx & Hw). simpl. rewrite Htop.
  rewrite (load_contents _ l a x (lc_tree _ _ _ Hi) Hx). cbn [mbind res_bind].
  set (s1 := Livecheck (lc_next x) (ParentItem a) (tree s)).
  assert (Hi1 : lc_inv s1 l W) by (destruct Hi; by split).
  destruct (trace_object s1 l W a x Hi1 Hx eq_refl) as (s2 & l2 & W2 & -> & Hi2 & Hg & Hcl). cbn [mbind res_bind].
  destruct (IH s2 l2 W2 Hi2) as (s3 & l3 & H3 & Hi3 & Hsub & Ht3).
  - intros b y [Hy|?]%(grows_new _ _ _ _ Hg); [|by left].
    assert (y = x \/ b <> a) as [->|Hne]; [|by right|].
    { destruct (decide (b = a)) as [->|]; [left|by right].
      assert (Hnd := contents_nodup _ _ (lc_tree _ _ _ Hi)).
      pose proof (load_contents _ l a x (lc_tree _ _ _ Hi) Hx). pose proof (load_contents _ l a y (lc_tree _ _ _ Hi) Hy). congruence. }
    destruct (Ht b y Hy) as [[->|Hb]%elem_of_cons|Hc]; [done|left; by apply (grows_work _ _ _ _ Hg)|right].
    intros p Hp Hne'. eapply objects_mono; [apply (grows_items _ _ _ _ Hg)|]. by apply Hc.
  - pose proof (grows_length _ _ _ _ Hg). simpl in Hlen. lia.
  - exists s3, l3. split_and!; [done..| |done]. etrans; [apply (grows_items _ _ _ _ Hg)|done].
Qed.
End Spec.
