(* ===== verification/LivecheckThms.v ===== *)
(** * Properties of the object tracer

    [Livecheck] has the lemmas; here are the theorems, with a small heap on
    which they are applied. *)
From Stdlib Require Import ZArith Lia.
From stdpp Require Import base option list sorting.
From S2P Require Import Prelude SplayTree SplayHeap SplayOps SplayIter SplaySpec ItemTree Memory Object ObjectThms ObjectTyping Finalize Livecheck.

Local Open Scope Z_scope.

Section Thms.
Context {T : Type} `{ItemTreeSpec livecheck_obj T livecheck_obj_cmp}.
Variable m : mem.

Lemma marked_roots roots s l W slots :
  lc_inv m roots s l W -> slots ⊆ roots -> (parent s = ParentGlobal \/ parent s = ParentNull) ->
  exists s' l' W', mark_slots slots s = Ok s' /\ parent s' = parent s /\ lc_inv m roots s' l' W' /\ lc_grows l W l' W' /\
    Forall (fun slot => slot.2 <> 0 -> slot.2 ∈ objects l') slots.
Proof.
  intros Hi Hsub Hp. apply mark_slots_ok; [done|]. apply Forall_forall. intros [p o] Hin%Hsub Hne. simpl in *. split.
  - by eapply reach_root.
  - intros n. unfold reached_by. simpl. by destruct Hp as [-> | ->].
Qed.

(** The whole of [livecheck_trace] on a new tree. *)
Lemma livecheck_runs globals callbacks stack t us fuel :
  let roots := globals ++ callbacks ++ default [] stack in
  contents t [] -> (forall o, reachable m roots o -> skipped m o = false -> exists ps, sml_obj_enum_ptr m o = Ok ps) ->
  (forall o, reachable m roots o -> o ∈ us) -> (length us < fuel)%nat ->
  exists s l, sml_livecheck m fuel globals callbacks stack t = Ok s /\ contents (tree s) l /\
    (forall a x, (a, x) ∈ l -> reached_by m roots l x) /\ (forall o, o ∈ objects l <-> reachable m roots o).
Proof.
  intros roots Ht Hheap Hus Hfuel. unfold sml_livecheck, livecheck_trace.
  set (s0 := set_parent ParentGlobal (Livecheck None ParentNull t)).
  assert (Hi0 : lc_inv m roots s0 [] []) by (split; [done|done|by intros a x ?%elem_of_nil]).
  destruct (marked_roots roots s0 [] [] globals Hi0) as (s1 & l1 & W1 & -> & Hp1 & Hi1 & Hg1 & HF1);
    [intros x ?; apply elem_of_app; by left|by left|]. cbn [mbind res_bind].
  destruct (marked_roots roots s1 l1 W1 callbacks Hi1) as (s2 & l2 & W2 & -> & Hp2 & Hi2 & Hg2 & HF2);
    [intros x ?; unfold roots; rewrite !elem_of_app; by auto|left; by rewrite Hp1|]. cbn [mbind res_bind].
  assert (Hst : exists s3 l3 W3,
    match stack with Some slots => mark_slots slots (set_parent ParentNull s2) | None => Ok s2 end = Ok s3 /\
    lc_inv m roots s3 l3 W3 /\ lc_grows l2 W2 l3 W3 /\ Forall (fun slot => slot.2 <> 0 -> slot.2 ∈ objects l3) (default [] stack)).
  { destruct stack as [slots|].
    - assert (Hi2' : lc_inv m roots (set_parent ParentNull s2) l2 W2) by (destruct Hi2; by split).
      destruct (marked_roots roots _ l2 W2 slots Hi2') as (s3 & l3 & W3 & -> & _ & Hi3 & Hg3 & HF3);
        [intros x ?; unfold roots; rewrite !elem_of_app; by auto|by right|]. by exists s3, l3, W3.
    - exists s2, l2, W2. split_and!; [done..|apply lc_grows_refl|constructor]. }
  destruct Hst as (s3 & l3 & W3 & -> & Hi3 & Hg3 & HF3). cbn [mbind res_bind].
  assert (Hg23 := lc_grows_trans _ _ _ _ _ _ Hg1 Hg2). assert (Hg := lc_grows_trans _ _ _ _ _ _ Hg23 Hg3).
  destruct (trace_loop_ok m roots Hheap us Hus fuel s3 l3 W3 Hi3) as (s & l & -> & Hi & Hsub & Htr).
  { intros a x [Hx%elem_of_nil|?]%(grows_new _ _ _ _ Hg); [done|by left]. }
  { pose proof (grows_length _ _ _ _ Hg). simpl in *. lia. }
  exists s, l. split; [done|]. split; [apply Hi|]. split; [intros a x Hx; by apply (lc_live _ _ _ _ _ Hi a)|].
  intros o. split; [intros (a & x & Hx & <-)%elem_of_objects; by apply (lc_live _ _ _ _ _ Hi a)|].
  induction 1 as [p o Hroot Hne|o p Hr IH Hpf Hne].
  - rewrite !Forall_forall in *. unfold roots in Hroot. rewrite !elem_of_app in Hroot. destruct Hroot as [Hx|[Hx|Hx]].
    + apply (objects_mono l1); [etrans; [apply (grows_items _ _ _ _ Hg2)|etrans; [apply (grows_items _ _ _ _ Hg3)|done]]|]. by apply (HF1 (p, o)).
    + apply (objects_mono l2); [etrans; [apply (grows_items _ _ _ _ Hg3)|done]|]. by apply (HF2 (p, o)).
    + apply (objects_mono l3); [done|]. by apply (HF3 (p, o)).
  - apply elem_of_objects in IH as (a & x & Hx & <-). destruct (Htr a x Hx) as [Ha%elem_of_nil|Hc]; [done|]. by apply Hc.
Qed.

Lemma livecheck_find_ok s l o : contents (tree s) l ->
  exists i t, livecheck_find s o = Ok (i, Livecheck (top s) (parent s) t) /\ contents t l /\
    match i with Some a => exists x, (a, x) ∈ l /\ lc_obj x = o | None => o ∉ objects l end.
Proof.
  intros Ht. unfold livecheck_find. destruct (find_contents _ l (find_key o) Ht) as (t & -> & Ht'). cbn [mbind res_bind].
  eexists _, t. split; [done|]. split; [done|]. destruct (key_in livecheck_obj_cmp (find_key o) l) as [|[a x] r] eqn:E; simpl.
  - by apply not_marked.
  - assert (Hin : (a, x) ∈ key_in livecheck_obj_cmp (find_key o) l) by (rewrite E; by left).
    apply list_elem_of_filter in Hin as [Hk Hin]. exists x. split; [done|]. by apply lc_key.
Qed.

(** C28. The objects that the tracer reports are the objects reachable from the
    global variables, the callbacks and the stack, each once, if the fuel
    exceeds their number; for each of them [sml_livecheck_at] has a slot
    that holds the object: a root, or a field of a reachable object. *)
Theorem sml_livecheck_correct globals callbacks stack t us fuel :
  let roots := globals ++ callbacks ++ default [] stack in
  contents t [] -> (forall o, reachable m roots o -> skipped m o = false -> exists ps, sml_obj_enum_ptr m o = Ok ps) ->
  (forall o, reachable m roots o -> o ∈ us) -> (length us < fuel)%nat ->
  exists s t' objs, sml_livecheck m fuel globals callbacks stack t = Ok s /\
    sml_livecheck_each s = Ok (t', objs) /\ NoDup objs /\ (forall o, o ∈ objs <-> reachable m roots o) /\
    forall o, reachable m roots o -> exists p s', sml_livecheck_at s o = Ok (p, s') /\
      ((p, o) ∈ roots \/ load64 m p = o /\ exists q, reachable m roots q /\ points_from m q p).
Proof.
  intros roots Ht Hheap Hus Hfuel.
  destruct (livecheck_runs globals callbacks stack t us fuel Ht Hheap Hus Hfuel) as (s & l & Hrun & Hc & Hby & Hobjs).
  destruct (each_contents (fun x objs => (x, objs ++ [lc_obj x])) (tree s) l [] Hc) as (t' & He & _).
  { intros x st. simpl. apply voidp_cmp_0. done. }
  assert (Hv : forall (l : list (Z * livecheck_obj)) acc,
    (visits (fun x objs => (x, objs ++ [lc_obj x])) l acc).2 = acc ++ objects l).
  { clear. induction l as [|[a x] l IH]; intros acc; simpl; [by rewrite app_nil_r|].
    specialize (IH (acc ++ [lc_obj x])). destruct (visits _ l (acc ++ [lc_obj x])). simpl in *. by rewrite IH, <- app_assoc. }
  rewrite Hv in He. simpl in He. exists s, t', (objects l). split_and!; [done|exact He|by eapply objects_nodup|done|].
  intros o Ho. unfold sml_livecheck_at. destruct (livecheck_find_ok s l o Hc) as (i & t1 & -> & Ht1 & Hi). cbn [mbind res_bind].
  destruct i as [a|]; [|exfalso; by apply Hi, Hobjs]. destruct Hi as (x & Hx & <-). simpl. rewrite (load_contents t1 l a x Ht1 Hx).
  cbn [mbind res_bind]. eexists _, _. split; [done|]. specialize (Hby a x Hx). unfold reached_by in Hby.
  destruct (lc_parent x) as [| |b]; [by left..|]. destruct Hby as (y & Hy & Hp & Hl). right. split; [done|].
  exists (lc_obj y). split; [apply Hobjs, elem_of_objects; by exists b, y|done].
Qed.
End Thms.

Module LivecheckSample.
#[global] Instance tree : ItemTree livecheck_obj (@sml_tree livecheck_obj) := item_tree livecheck_obj_cmp sample_blocks.
#[global] Instance tree_spec : ItemTreeSpec livecheck_obj sml_tree livecheck_obj_cmp :=
  item_tree_spec livecheck_obj_cmp sample_blocks sample_blocks_disjoint.

Definition tree0 : @sml_tree livecheck_obj :=
  match sml_tree_new 40 with Ok t => t | _ => SmlTree 40 64 None [] None ∅ 0 end.
Lemma contents0 : contents tree0 [].
Proof. by apply (splay_contents_new livecheck_obj_cmp sample_blocks 40). Qed.

(** The array at 64 points to the string at 1024; a stack slot holds the
    array. *)
Definition m : mem := bytes TypingSample.h2.
Lemma reach o : reachable m [(40, 64)] o -> o = 64 \/ o = 1024.
Proof.
  assert (E1 : sml_obj_enum_ptr m 64 = Ok [64]) by reflexivity.
  assert (E2 : sml_obj_enum_ptr m 1024 = Ok []) by reflexivity.
  assert (E3 : load64 m 64 = 1024) by reflexivity.
  induction 1 as [p o [= -> ->]%list_elem_of_singleton _|o p _ [-> | ->] (_ & ps & Hps & Hp) _].
  - by left.
  - rewrite E1 in Hps. injection Hps as <-. apply list_elem_of_singleton in Hp as ->. right. exact E3.
  - rewrite E2 in Hps. injection Hps as <-. by apply elem_of_nil in Hp.
Qed.
End LivecheckSample.

Lemma sml_livecheck_correct_witness :
  exists s t' objs, sml_livecheck LivecheckSample.m 3 [] [] (Some [(40, 64)]) LivecheckSample.tree0 = Ok s /\
    sml_livecheck_each s = Ok (t', objs) /\ NoDup objs /\
    (forall o, o ∈ objs <-> reachable LivecheckSample.m ([] ++ [] ++ [(40, 64)]) o) /\
    forall o, reachable LivecheckSample.m ([] ++ [] ++ [(40, 64)]) o -> exists p s', sml_livecheck_at s o = Ok (p, s') /\
      ((p, o) ∈ ([] : list (Z * Z)) ++ [] ++ [(40, 64)] \/
       load64 LivecheckSample.m p = o /\ exists q, reachable LivecheckSample.m ([] ++ [] ++ [(40, 64)]) q /\ points_from LivecheckSample.m q p).
Proof.
  apply (sml_livecheck_correct LivecheckSample.m [] [] (Some [(40, 64)]) LivecheckSample.tree0 [64; 1024]).
  - exact LivecheckSample.contents0.
  - intros o [-> | ->]%LivecheckSample.reach _; [exists [64]|exists []]; reflexivity.
  - intros o [-> | ->]%LivecheckSample.reach; [left|right; left].
  - simpl. lia.
Defined.

(** [sml_livecheck_parent] of an object that was found on the stack follows
    a null pointer: the parent of such an object is not [&global_root]. *)
Example livecheck_parent_of_stack_object :
  (s ← sml_livecheck LivecheckSample.m 3 [] [] (Some [(40, 64)]) LivecheckSample.tree0;
   sml_livecheck_parent s 64) = Fault /\
  (s ← sml_livecheck LivecheckSample.m 3 [] [] (Some [(40, 64)]) LivecheckSample.tree0;
   '(o, _) ← sml_livecheck_parent s 1024; Ok o) = Ok 64.
Proof. split; vm_compute; reflexivity. Qed.
