(* ===== verification/Exn.v ===== *)
(** * Exceptions

    src/src/runtime/exn.c: the personality routine that the unwinder of the
    Itanium C++ ABI calls for the frames of ML code, and the search of a
    landing pad in the exception tables that LLVM writes.  The unwinder
    itself is not part of the program: its calls are the arguments of
    [sml_personality], its answers the fields of [context]. *)
From Stdlib Require Import ZArith Lia.
From stdpp Require Import base option list.
From S2P Require Import Prelude Bits Memory Object.

Local Open Scope Z_scope.

Definition LANG_SMLSHARP : Z :=
  Z.lor (Z.lor (Z.lor (Z.shiftl 83 24) (Z.shiftl 77 16)) (Z.shiftl 76 8)) 35.
Definition VENDOR_SMLSHARP : Z := Z.shiftl LANG_SMLSHARP 32.
Definition EXNCLASS_SMLSHARP : Z := Z.lor VENDOR_SMLSHARP LANG_SMLSHARP.

Definition DW_EH_PE_omit : Z := 0xff.
Definition DW_EH_PE_uleb128 : Z := 0x01.
Definition DW_EH_PE_udata4 : Z := 0x03.

(** [struct exception]; of the ABI's header only the class matters. *)
Record exception := Exception {
  exn_obj : Z;
  handler_addr : Z;
  exception_class : Z;
  num_cleanup : Z
}.
(** [offsetof(struct exception, header)] and the size. *)
Definition UE_TO_EXCEPTION (ue : Z) : Z := ue - 16.
Definition sizeof_exception : Z := 64.

Definition set_handler_addr (a : Z) (e : exception) : exception :=
  Exception (exn_obj e) a (exception_class e) (num_cleanup e).
Definition set_num_cleanup (n : Z) (e : exception) : exception :=
  Exception (exn_obj e) (handler_addr e) (exception_class e) (u32 n).

(** [struct _Unwind_Context]: the answers of [_Unwind_GetLanguageSpecificData],
    [_Unwind_GetRegionStart] and [_Unwind_GetIP]. *)
Record context := Context { lsda : Z; region_start : Z; context_ip : Z }.

(** ** ML exceptions *)
Section Messages.
Variable m : mem.
Definition FLAG_MSG_IN_ARG : Z := 1.
Definition MASK_MSG_INDEX : Z := 0xfffffffe.

(** [e->tag] is a pointer to a pointer to the tag: the name, then
    [msg_index]; [e->arg] is the third field. *)
Definition exn_msg (e : Z) : Z :=
  let index := load32 m (load64 m (load64 m e) + 8) in
  if index =? 0 then 0
  else
    let base := if negb (Z.land index FLAG_MSG_IN_ARG =? 0) then load64 m (e + 16) else e in
    load64 m (base + Z.land index MASK_MSG_INDEX).

(** [sml_raise] up to [_Unwind_RaiseException]; if that returns, the program
    stops. *)
Definition sml_raise (arg : Z) : res exception :=
  assert_that (sizeof_exception <=? OBJ_SIZE m arg);;
  let exn_obj := load64 m arg in
  assert_that (negb (exn_obj =? 0));;
  Ok (Exception exn_obj 0 EXNCLASS_SMLSHARP 0).

(** ** The exception table *)

(** A shift by 64 or more is undefined. *)
Fixpoint uleb128_loop (fuel : nat) (src result shift : Z) : res (Z * Z) :=
  match fuel with
  | O => NoFuel
  | S fuel =>
      let c := m src in
      assert_that (shift <? 64);;
      let result := Z.lor result (u64 (Z.shiftl (Z.land c 0x7f) shift)) in
      if Z.land c 0x80 =? 0 then Ok (result, src + 1)
      else uleb128_loop fuel (src + 1) result (shift + 7)
  end.
Definition read_uleb128 (src : Z) : res (Z * Z) := uleb128_loop 11 src 0 0.
Definition read_udata4 (src : Z) : Z * Z := (load32 m src, src + 4).

Definition CATCH : Z := 0x1.
Definition CLEANUP : Z := 0x2.

(** [addr] is not set if there is no table. *)
Record landing_pad := LandingPad { lpad_type : Z; lpad_addr : option Z }.
Definition no_lpad : landing_pad := LandingPad 0 None.

(** [start], [len] and [lpad] of an entry. *)
Definition read_call_site (encoding src : Z) : res (Z * Z * Z * Z) :=
  if encoding =? DW_EH_PE_uleb128 then
    '(start, src) ← read_uleb128 src;
    '(len, src) ← read_uleb128 src;
    '(lpad, src) ← read_uleb128 src;
    Ok (start, len, lpad, src)
  else
    let '(start, src) := read_udata4 src in
    let '(len, src) := read_udata4 src in
    let '(lpad, src) := read_udata4 src in
    Ok (start, len, lpad, src).

Fixpoint search_call_sites (fuel : nat) (encoding lpstart actiontab ip src : Z) : res landing_pad :=
  if actiontab <=? src then Ok (LandingPad CATCH (Some 0))
  else
    match fuel with
    | O => NoFuel
    | S fuel =>
        '(start, len, lpad, src) ← read_call_site encoding src;
        let action := m src in
        let src := src + 1 in
        let start := u64 (start + lpstart) in
        if 0x80 <=? action then Fatal
        else if ip <? start then Ok (LandingPad CATCH (Some 0))
        else if ip <? u64 (start + len) then
          let type :=
            if lpad =? 0 then 0
            else if action =? 0 then CLEANUP
            else if m (actiontab + action) =? 0 then CATCH
            else Z.lor CLEANUP CATCH in
          Ok (LandingPad type (Some (u64 (lpad + lpstart))))
        else search_call_sites fuel encoding lpstart actiontab ip src
    end.

Definition search_lpad (c : context) : res landing_pad :=
  let src := lsda c in
  if src =? 0 then Ok no_lpad
  else if negb (m src =? DW_EH_PE_omit) then Fatal
  else
    let lpstart := region_start c in
    '(_, src) ← (if negb (m (src + 1) =? DW_EH_PE_omit) then read_uleb128 (src + 2) else Ok (0, src + 2));
    let encoding := m src in
    if negb (encoding =? DW_EH_PE_udata4) && negb (encoding =? DW_EH_PE_uleb128) then Fatal
    else
      '(tablen, src) ← read_uleb128 (src + 1);
      let actiontab := src + tablen in
      if tablen =? 0 then Ok no_lpad
      else search_call_sites (Z.to_nat tablen) encoding lpstart actiontab (u64 (context_ip c - 1)) src.

(** ** The personality routine *)
Inductive reason_code := URC_FATAL_PHASE1_ERROR | URC_FATAL_PHASE2_ERROR | URC_HANDLER_FOUND | URC_CONTINUE_UNWIND | URC_INSTALL_CONTEXT.
Definition UA_SEARCH_PHASE : Z := 1.
Definition UA_CLEANUP_PHASE : Z := 2.
Definition UA_HANDLER_FRAME : Z := 4.
Definition UA_FORCE_UNWIND : Z := 8.

(** What the routine leaves in the context: the landing pad, [ret1] and
    [ret2]. *)
Record landing := Landing { land_addr : Z; land_ret1 : Z; land_ret2 : Z }.

Definition has (flags f : Z) : bool := negb (Z.land flags f =? 0).

(** The end of [sml_personality]; [terminate] stops the program. *)
Definition install (lpad_addr : Z) (ret1 ret2 : Z) (e : exception) : res (reason_code * exception * option landing) :=
  if lpad_addr =? 0 then Fatal
  else Ok (URC_INSTALL_CONTEXT, e, Some (Landing lpad_addr ret1 ret2)).

(** [ue] is the address of the ABI's header, [e] the structure around it if
    the exception is one of ML's.  That a foreign exception is deleted is not
    recorded. *)
Definition sml_personality (version actions exnclass ue : Z) (e : exception) (c : context)
  : res (reason_code * exception * option landing) :=
  let ours := exnclass =? EXNCLASS_SMLSHARP in
  if negb (version =? 1) then Ok (URC_FATAL_PHASE1_ERROR, e, None)
  else if has actions UA_SEARCH_PHASE then
    lpad ← search_lpad c;
    if has (lpad_type lpad) CATCH then
      e ← (if ours : bool then addr ← deref (lpad_addr lpad); Ok (set_handler_addr addr e) else Ok e);
      Ok (URC_HANDLER_FOUND, e, None)
    else
      let e := if has (lpad_type lpad) CLEANUP && ours then set_num_cleanup (num_cleanup e + 1) e else e in
      Ok (URC_CONTINUE_UNWIND, e, None)
  else if negb (has actions UA_CLEANUP_PHASE) then Ok (URC_FATAL_PHASE2_ERROR, e, None)
  else if has actions UA_HANDLER_FRAME then
    if ours then install (handler_addr e) 0 (UE_TO_EXCEPTION ue) e
    else
      lpad ← search_lpad c;
      addr ← deref (lpad_addr lpad);
      install addr 0 0 e
  else if ours && (num_cleanup e =? 0) then Ok (URC_CONTINUE_UNWIND, e, None)
  else
    lpad ← search_lpad c;
    if negb (has (lpad_type lpad) CLEANUP) then
      assert_that (lpad_type lpad =? 0);;
      Ok (URC_CONTINUE_UNWIND, e, None)
    else
      addr ← deref (lpad_addr lpad);
      if ours then install addr ue (UE_TO_EXCEPTION ue) (set_num_cleanup (num_cleanup e - 1) e)
      else install addr ue 0 e.
End Messages.
