(* ===== verification/ExnThms.v ===== *)
(** * Exceptions: the properties of src/src/runtime/exn.c *)
From Stdlib Require Import ZArith Lia.
From stdpp Require Import base option list.
From S2P Require Import Prelude Bits Memory Object Exn.

Local Open Scope Z_scope.

(** ** Encoded data in memory *)
Definition bytes_at (m : mem) (p : Z) (bs : list Z) : Prop := forall i b, bs !! i = Some b -> m (p + Z.of_nat i) = b.

Lemma bytes_at_app m p bs1 bs2 :
  bytes_at m p (bs1 ++ bs2) <-> bytes_at m p bs1 /\ bytes_at m (p + Z.of_nat (length bs1)) bs2.
Proof.
  unfold bytes_at. split.
  - intros H. split; intros i b Hi.
    + apply H. by apply lookup_app_l_Some.
    + rewrite <- Z.add_assoc, <- Nat2Z.inj_add. apply H. by rewrite lookup_app_r, Nat.add_sub' by lia.
  - intros [H1 H2] i b [Hi|[Hlen Hi]]%lookup_app_Some; [by apply H1|].
    replace (p + Z.of_nat i) with (p + Z.of_nat (length bs1) + Z.of_nat (i - length bs1)) by lia. by apply H2.
Qed.
Lemma bytes_at_cons m p b bs : bytes_at m p (b :: bs) <-> m p = b /\ bytes_at m (p + 1) bs.
Proof.
  rewrite (bytes_at_app m p [b] bs). simpl. split; intros [H1 H2]; (split; [|done]).
  - specialize (H1 0%nat b eq_refl). by rewrite Z.add_0_r in H1.
  - intros [|i] x Hx; [|done]. injection Hx as <-. by rewrite Z.add_0_r.
Qed.

(** [n] bytes, the least significant one first. *)
Fixpoint encode_le (n : nat) (v : Z) : list Z :=
  match n with O => [] | S n => v mod 256 :: encode_le n (v / 256) end.
Lemma length_encode_le n v : length (encode_le n v) = n.
Proof. revert v. induction n as [|n IH]; intros v; [done|]. simpl. by rewrite IH. Qed.
Lemma load_encoded m n : forall p v, bytes_at m p (encode_le n v) -> 0 <= v < 2 ^ (8 * Z.of_nat n) -> load m p n = v.
Proof.
  induction n as [|n IH]; intros p v H Hv; [simpl in *; lia|]. cbn [encode_le] in H. apply bytes_at_cons in H as [H1 H2].
  cbn [load]. rewrite H1, (IH (p + 1) (v / 256) H2); [pose proof (Z.div_mod v 256); lia|].
  replace (8 * Z.of_nat (S n)) with (8 + 8 * Z.of_nat n) in Hv by lia. rewrite Z.pow_add_r in Hv by lia.
  change (2 ^ 8) with 256 in Hv. split; [apply Z.div_pos; lia|]. apply Z.div_lt_upper_bound; lia.
Qed.

(** *** ULEB128 *)
Fixpoint encode_uleb128 (n : nat) (v : Z) : list Z :=
  match n with
  | O => []
  | S n => if v <? 128 then [v] else (v mod 128 + 128) :: encode_uleb128 n (v / 128)
  end.
Definition uleb128 (v : Z) : list Z := encode_uleb128 10 v.

Lemma encode_uleb128_S n v :
  encode_uleb128 (S n) v = if v <? 128 then [v] else (v mod 128 + 128) :: encode_uleb128 n (v / 128).
Proof. done. Qed.

Lemma lor_shifted r c k : 0 <= k -> 0 <= r < 2 ^ k -> Z.lor r (c * 2 ^ k) = r + c * 2 ^ k.
Proof.
  intros Hk Hr. assert (Hl : Z.land r (c * 2 ^ k) = 0); [|pose proof (Z.add_lor_land r (c * 2 ^ k)); lia].
  apply Z.bits_inj'. intros i Hi. rewrite Z.land_spec, Z.bits_0. destruct (Z.ltb_spec i k).
  - by rewrite Z.mul_pow2_bits_low, andb_false_r by lia.
  - rewrite <- (Z.mod_small r (2 ^ k)) by lia. by rewrite Z.mod_pow2_bits_high by lia.
Qed.

Lemma uleb128_byte b : 0 <= b < 128 -> Z.land b 0x7f = b /\ Z.land b 0x80 = 0 /\
  Z.land (b + 128) 0x7f = b /\ Z.land (b + 128) 0x80 = 128.
Proof.
  intros Hb. change 0x7f with (Z.ones 7). rewrite !Z.land_ones by lia. change (2 ^ 7) with 128.
  rewrite Z.mod_small by lia. replace (b + 128) with (b + 1 * 128) by lia. rewrite Z.mod_add, Z.mod_small by lia.
  change 0x80 with (2 ^ 7) at 1 2. split_and!; try done.
  - apply Z.bits_inj'. intros i Hi. rewrite Z.land_spec, Z.pow2_bits_eqb, Z.bits_0 by lia.
    destruct (Z.eqb_spec 7 i) as [<-|]; [|by rewrite andb_false_r]. rewrite andb_true_r, Z.testbit_false by lia.
    change (2 ^ 7) with 128. by rewrite Z.div_small by lia.
  - apply Z.bits_inj'. intros i Hi. rewrite Z.land_spec. change 128 with (2 ^ 7). rewrite Z.pow2_bits_eqb by lia.
    destruct (Z.eqb_spec 7 i) as [<-|]; [|by rewrite andb_false_r]. rewrite andb_true_r, Z.testbit_true by lia.
    change (2 ^ 7) with 128. rewrite Z.div_add by lia. by rewrite Z.div_small by lia.
Qed.

Lemma uleb128_loop_ok m n : forall f p v r k, bytes_at m p (encode_uleb128 (S n) v) -> (n < f)%nat ->
  0 <= v < 2 ^ (7 * Z.of_nat (S n)) -> 0 <= k -> 0 <= r < 2 ^ k -> v * 2 ^ k < 2 ^ 64 -> v = 0 /\ k = 0 \/ 0 < v ->
  uleb128_loop m f p r k = Ok (r + v * 2 ^ k, p + Z.of_nat (length (encode_uleb128 (S n) v))).
Proof.
  induction n as [|n IH]; intros [|f] p v r k H Hf Hv Hk Hr Hlt Hv0; try lia.
  all: assert (Hk64 : k < 64) by (destruct Hv0 as [[_ ->]|Hv0]; [lia|]; apply (Z.pow_lt_mono_r_iff 2); nia).
  all: assert (0 < 2 ^ k) by (apply Z.pow_pos_nonneg; lia).
  all: cbn [uleb128_loop]; rewrite (proj2 (Z.ltb_lt _ _) Hk64); cbn [assert_that mbind res_bind].
  - change (2 ^ (7 * Z.of_nat 1)) with 128 in Hv. cbn [encode_uleb128] in *.
    rewrite (proj2 (Z.ltb_lt v 128)) in * by lia. apply bytes_at_cons in H as [H _]. rewrite H.
    destruct (uleb128_byte v Hv) as (-> & -> & _ & _). simpl. rewrite Z.shiftl_mul_pow2 by lia.
    unfold u64. rewrite Z.mod_small by nia. by rewrite lor_shifted.
  - rewrite (encode_uleb128_S (S n) v) in *. destruct (Z.ltb_spec v 128) as [Hlt128|Hge].
    + apply bytes_at_cons in H as [H _]. rewrite H. destruct (uleb128_byte v ltac:(lia)) as (-> & -> & _ & _). simpl.
      rewrite Z.shiftl_mul_pow2 by lia. unfold u64. rewrite Z.mod_small by nia. by rewrite lor_shifted.
    + apply bytes_at_cons in H as [H Hrest]. rewrite H.
      destruct (uleb128_byte (v mod 128) ltac:(apply Z.mod_pos_bound; lia)) as (_ & _ & -> & ->).
      change (128 =? 0) with false. cbn iota. pose proof (Z.div_mod v 128 ltac:(lia)) as Hdm.
      pose proof (Z.mod_pos_bound v 128 ltac:(lia)) as Hmb.
      rewrite Z.shiftl_mul_pow2 by lia. unfold u64. rewrite Z.mod_small by nia. rewrite lor_shifted by lia.
      rewrite (IH f (p + 1) (v / 128)); [|exact Hrest|lia| |lia| | |].
      * rewrite Z.pow_add_r by lia. change (2 ^ 7) with 128. f_equal. f_equal; [nia|]. cbn [length]. lia.
      * replace (7 * Z.of_nat (S (S n))) with (7 + 7 * Z.of_nat (S n)) in Hv by lia. rewrite Z.pow_add_r in Hv by lia.
        change (2 ^ 7) with 128 in Hv. split; [apply Z.div_pos; lia|apply Z.div_lt_upper_bound; lia].
      * rewrite Z.pow_add_r by lia. change (2 ^ 7) with 128. nia.
      * rewrite Z.pow_add_r by lia. change (2 ^ 7) with 128. nia.
      * right. lia.
Qed.

Lemma read_uleb128_ok m p v : bytes_at m p (uleb128 v) -> 0 <= v < 2 ^ 64 ->
  read_uleb128 m p = Ok (v, p + Z.of_nat (length (uleb128 v))).
Proof.
  intros H Hv. unfold read_uleb128, uleb128. rewrite (uleb128_loop_ok m 9 11 p v 0 0 H); try lia. by rewrite Z.mul_1_r.
Qed.

(** ** Exception tables *)
Record call_site := CallSite { cs_start : Z; cs_len : Z; cs_lpad : Z; cs_action : Z }.

Definition encode_field (encoding v : Z) : list Z := if encoding =? DW_EH_PE_uleb128 then uleb128 v else encode_le 4 v.
Definition encode_site (encoding : Z) (s : call_site) : list Z :=
  encode_field encoding (cs_start s) ++ encode_field encoding (cs_len s) ++ encode_field encoding (cs_lpad s) ++ [cs_action s].
Definition encode_sites (encoding : Z) (sites : list call_site) : list Z := concat (map (encode_site encoding) sites).

(** A table: the encoding and offset of the type table, if any, the encoding
    of the call sites, the call sites, and the bytes of the actions. *)
Record table := Table { ttype : option (Z * Z); encoding : Z; sites : list call_site; actions : list Z }.
Definition encode_table (t : table) : list Z :=
  [DW_EH_PE_omit] ++ match ttype t with None => [DW_EH_PE_omit] | Some (enc, off) => enc :: uleb128 off end ++
  [encoding t] ++ uleb128 (Z.of_nat (length (encode_sites (encoding t) (sites t)))) ++
  encode_sites (encoding t) (sites t) ++ actions t.

Definition field_limit (encoding : Z) : Z := if encoding =? DW_EH_PE_uleb128 then 2 ^ 64 else 2 ^ 32.
Record site_ok (lpstart : Z) (t : table) (s : call_site) : Prop := {
  so_start : 0 <= cs_start s < field_limit (encoding t);
  so_len : 0 <= cs_len s < field_limit (encoding t);
  so_lpad : 0 <= cs_lpad s < field_limit (encoding t);
  so_action : 0 <= cs_action s < 128;
  so_action_bytes : cs_action s <> 0 -> (Z.to_nat (cs_action s) < length (actions t))%nat;
  so_range : lpstart + cs_start s + cs_len s < 2 ^ 64;
  so_pad : lpstart + cs_lpad s < 2 ^ 64
}.
Record table_ok (lpstart : Z) (t : table) : Prop := {
  to_encoding : encoding t = DW_EH_PE_udata4 \/ encoding t = DW_EH_PE_uleb128;
  to_ttype enc off : ttype t = Some (enc, off) -> enc <> DW_EH_PE_omit /\ 0 <= off < 2 ^ 64;
  to_sites : Forall (site_ok lpstart t) (sites t);
  to_sorted : StronglySorted (fun s1 s2 => cs_start s1 <= cs_start s2) (sites t);
  to_length : Z.of_nat (length (encode_sites (encoding t) (sites t))) < 2 ^ 64
}.

(** What a call site means. *)
Definition pad_of (lpstart : Z) (t : table) (s : call_site) : landing_pad :=
  LandingPad
    (if cs_lpad s =? 0 then 0
     else if cs_action s =? 0 then CLEANUP
     else if actions t !!! Z.to_nat (cs_action s) =? 0 then CATCH
     else Z.lor CLEANUP CATCH)
    (Some (lpstart + cs_lpad s)).
Definition covers (off : Z) (s : call_site) : bool := (cs_start s <=? off) && (off <? cs_start s + cs_len s).

Section Tables.
Variables (m : mem) (lpstart : Z) (t : table).
Hypothesis Hlp : 0 <= lpstart.

Lemma read_site_ok src s : encoding t = DW_EH_PE_udata4 \/ encoding t = DW_EH_PE_uleb128 -> site_ok lpstart t s ->
  bytes_at m src (encode_site (encoding t) s) ->
  exists src', read_call_site m (encoding t) src = Ok (cs_start s, cs_len s, cs_lpad s, src') /\ m src' = cs_action s /\
    src' + 1 = src + Z.of_nat (length (encode_site (encoding t) s)).
Proof.
  intros Henc [H1 H2 H3 _ _ _ _] Hb. unfold encode_site in *. rewrite !bytes_at_app in Hb.
  destruct Hb as (B1 & B2 & B3 & B4). apply bytes_at_cons in B4 as [B4 _].
  unfold encode_field, field_limit, read_call_site in *. destruct Henc as [He|He]; rewrite He in *; simpl Z.eqb in *; cbn iota in *.
  - unfold read_udata4, load32. rewrite ?length_encode_le in B2, B3, B4. change (Z.of_nat 4) with 4 in *.
    rewrite ?length_encode_le in B3, B4. change (Z.of_nat 4) with 4 in *.
    rewrite (load_encoded m 4 _ _ B1 H1), (load_encoded m 4 _ _ B2 H2), (load_encoded m 4 _ _ B3 H3).
    eexists. split; [done|]. split; [exact B4|]. rewrite !length_app, !length_encode_le. simpl. lia.
  - rewrite (read_uleb128_ok _ _ _ B1 H1). cbn [mbind res_bind]. rewrite (read_uleb128_ok _ _ _ B2 H2). cbn [mbind res_bind].
    rewrite (read_uleb128_ok _ _ _ B3 H3). cbn [mbind res_bind]. eexists. split; [done|]. split; [exact B4|].
    rewrite !length_app. simpl. lia.
Qed.

Lemma search_sites_ok ip actiontab : 0 <= ip ->
  encoding t = DW_EH_PE_udata4 \/ encoding t = DW_EH_PE_uleb128 -> bytes_at m actiontab (actions t) ->
  forall ss fuel src, Forall (site_ok lpstart t) ss -> StronglySorted (fun s1 s2 => cs_start s1 <= cs_start s2) ss ->
  bytes_at m src (encode_sites (encoding t) ss) -> actiontab = src + Z.of_nat (length (encode_sites (encoding t) ss)) ->
  (length ss <= fuel)%nat ->
  search_call_sites m fuel (encoding t) lpstart actiontab ip src =
    Ok match find (covers (ip - lpstart)) ss with
       | Some s => pad_of lpstart t s
       | None => LandingPad CATCH (Some 0)
       end.
Proof.
  intros Hip Henc Hact. induction ss as [|s ss IH]; intros fuel src Hss Hsort Hb Hend Hf.
  { simpl in Hend. destruct fuel; simpl; rewrite (proj2 (Z.leb_le _ _)) by lia; done. }
  destruct fuel as [|fuel]; simpl in Hf; [lia|]. apply Forall_cons in Hss as [Hs Hss].
  apply StronglySorted_inv in Hsort as [Hsort Hle]. unfold encode_sites in Hb, Hend. rewrite map_cons in Hb, Hend.
  simpl concat in Hb, Hend. apply bytes_at_app in Hb as [Hb1 Hb2]. rewrite length_app in Hend.
  destruct (read_site_ok src s Henc Hs Hb1) as (src' & Hread & Haction & Hsrc'). destruct Hs as [H1 H2 H3 H4 H5 H6 H7].
  cbn [search_call_sites]. assert (Hlen : (0 < length (encode_site (encoding t) s))%nat).
  { unfold encode_site. rewrite !length_app. simpl. lia. }
  rewrite (proj2 (Z.leb_gt _ _)) by lia. rewrite Hread. cbn [mbind res_bind]. rewrite Haction.
  rewrite (proj2 (Z.leb_gt _ _)) by lia. unfold u64. rewrite !(Z.mod_small (cs_start s + lpstart)) by lia.
  rewrite (Z.mod_small (cs_start s + lpstart + cs_len s)), (Z.mod_small (cs_lpad s + lpstart)) by lia.
  cbn [find]. unfold covers at 1. destruct (Z.ltb_spec ip (cs_start s + lpstart)) as [Hlt|Hge].
  - rewrite (proj2 (Z.leb_gt _ _)) by lia. simpl. destruct (find _ ss) as [s'|] eqn:Hf'; [|done]. exfalso.
    apply List.find_some in Hf' as [Hin Hc]. apply list_elem_of_In in Hin. rewrite Forall_forall in Hle. specialize (Hle s' Hin).
    unfold covers in Hc. apply andb_true_iff in Hc as [Hc _]. apply Z.leb_le in Hc. lia.
  - rewrite (proj2 (Z.leb_le (cs_start s) _)) by lia. simpl andb.
    destruct (Z.ltb_spec ip (cs_start s + lpstart + cs_len s)), (Z.ltb_spec (ip - lpstart) (cs_start s + cs_len s)); try lia.
    + unfold pad_of. rewrite (Z.add_comm lpstart). do 2 f_equal. destruct (Z.eqb_spec (cs_lpad s) 0); [done|].
      destruct (Z.eqb_spec (cs_action s) 0) as [|Hne]; [done|]. destruct (lookup_lt_is_Some_2 _ _ (H5 Hne)) as [b Hbb].
      rewrite (list_lookup_total_correct _ _ _ Hbb). specialize (Hact _ _ Hbb). rewrite Z2Nat.id in Hact by lia. by rewrite Hact.
    + rewrite Hsrc'. apply IH; [done|done|exact Hb2| |lia]. unfold encode_sites in *. lia.
Qed.

Lemma length_sites enc ss : (length ss <= length (encode_sites enc ss))%nat.
Proof.
  unfold encode_sites. induction ss as [|s ss IH]; [done|]. simpl. rewrite length_app. unfold encode_site at 1.
  rewrite !length_app. simpl. lia.
Qed.

Lemma search_lpad_ok c : region_start c = lpstart -> 0 < context_ip c < 2 ^ 64 -> lsda c <> 0 ->
  bytes_at m (lsda c) (encode_table t) -> table_ok lpstart t ->
  search_lpad m c = Ok
    match sites t with
    | [] => no_lpad
    | _ => match find (covers (context_ip c - 1 - lpstart)) (sites t) with
           | Some s => pad_of lpstart t s
           | None => LandingPad CATCH (Some 0)
           end
    end.
Proof.
  intros Hr Hip Hl Hb [Henc Htt Hss Hsort Hlen]. unfold search_lpad, encode_table in *. rewrite (proj2 (Z.eqb_neq _ _) Hl).
  rewrite !bytes_at_app in Hb. destruct Hb as (B1 & B2 & B3 & B4 & B5 & B6). apply bytes_at_cons in B1 as [B1 _].
  rewrite B1. change (negb (DW_EH_PE_omit =? DW_EH_PE_omit)) with false. cbn iota. 
  change (Z.of_nat (length [DW_EH_PE_omit])) with 1 in *. change (Z.of_nat (length [encoding t])) with 1 in *.
  rewrite Hr.
  assert (Hsrc : (if negb (m (lsda c + 1) =? DW_EH_PE_omit) then read_uleb128 m (lsda c + 2) else Ok (0, lsda c + 2)) =
    Ok (match ttype t with None => 0 | Some (_, off) => off end,
        lsda c + 1 + Z.of_nat (length match ttype t with None => [DW_EH_PE_omit] | Some (enc, off) => enc :: uleb128 off end))).
  { destruct (ttype t) as [[enc off]|].
    - destruct (Htt enc off eq_refl) as [He Ho]. apply bytes_at_cons in B2 as [B2 B2']. rewrite B2, (proj2 (Z.eqb_neq _ _) He).
      cbn [negb]. replace (lsda c + 2) with (lsda c + 1 + 1) by lia. rewrite (read_uleb128_ok _ _ _ B2' Ho). cbn [length].
      do 2 f_equal. lia.
    - apply bytes_at_cons in B2 as [B2 _]. rewrite B2. cbn [negb length Z.eqb]. do 2 f_equal. lia. }
  rewrite Hsrc. cbn [mbind res_bind]. apply bytes_at_cons in B3 as [B3 _]. rewrite B3.
  replace (negb (encoding t =? DW_EH_PE_udata4) && negb (encoding t =? DW_EH_PE_uleb128)) with false
    by (by destruct Henc as [-> | ->]).
  rewrite (read_uleb128_ok _ _ _ B4) by lia. cbn [mbind res_bind]. destruct (sites t) as [|s ss] eqn:Hs; [done|].
  assert (Hpos : (0 < length (encode_sites (encoding t) (s :: ss)))%nat) by (pose proof (length_sites (encoding t) (s :: ss)); simpl in *; lia).
  rewrite (proj2 (Z.eqb_neq _ _)) by lia. unfold u64. rewrite Z.mod_small by lia.
  rewrite <- Hs in *. apply search_sites_ok; try done; [lia|]. rewrite Nat2Z.id. apply length_sites.
Qed.
End Tables.

(** ** The two phases of the unwinder

    The order of the calls of the personality routine is the one that the
    Itanium C++ ABI prescribes: [UA_SEARCH_PHASE] for every frame until one
    has a handler, then [UA_CLEANUP_PHASE] for the same frames again, with
    [UA_HANDLER_FRAME] for the last of them.  A landing pad that cleans up
    resumes unwinding when it is done. *)
Section Unwinding.
Variables (m : mem) (ue : Z).

Fixpoint search_phase (frames : list context) (e : exception) : res (option nat * exception) :=
  match frames with
  | [] => Ok (None, e)
  | c :: frames =>
      '(r, e, _) ← sml_personality m 1 UA_SEARCH_PHASE EXNCLASS_SMLSHARP ue e c;
      match r with
      | URC_HANDLER_FOUND => Ok (Some O, e)
      | URC_CONTINUE_UNWIND => '(h, e) ← search_phase frames e; Ok (option_map S h, e)
      | _ => Fatal
      end
  end.

Fixpoint cleanup_phase (h : nat) (frames : list context) (e : exception) : res (list landing * exception) :=
  match h, frames with
  | _, [] => Fault
  | O, c :: _ =>
      '(_, e, l) ← sml_personality m 1 (Z.lor UA_CLEANUP_PHASE UA_HANDLER_FRAME) EXNCLASS_SMLSHARP ue e c;
      l ← deref l; Ok ([l], e)
  | S h, c :: frames =>
      '(_, e, l) ← sml_personality m 1 UA_CLEANUP_PHASE EXNCLASS_SMLSHARP ue e c;
      '(ls, e) ← cleanup_phase h frames e;
      Ok (match l with Some l => l :: ls | None => ls end, e)
  end.

(** The pads that the tables give: their kind and address, null only when
    the address is not in the table. *)
Definition pad_ok (p : landing_pad) : Prop :=
  lpad_type p = 0 \/
  lpad_type p ∈ [CLEANUP; CATCH; Z.lor CLEANUP CATCH] /\ exists a, lpad_addr p = Some a /\ a <> 0.
Definition catches (p : landing_pad) : bool := has (lpad_type p) CATCH.
Definition cleans (p : landing_pad) : bool := has (lpad_type p) CLEANUP.
Definition pad_addr (p : landing_pad) : Z := default 0 (lpad_addr p).

Definition cleanups (ps : list landing_pad) : list landing_pad := filter (fun p => cleans p = true) ps.

Lemma search_frame c p e : search_lpad m c = Ok p -> pad_ok p ->
  sml_personality m 1 UA_SEARCH_PHASE EXNCLASS_SMLSHARP ue e c = Ok
    (if catches p then (URC_HANDLER_FOUND, set_handler_addr (pad_addr p) e, None)
     else (URC_CONTINUE_UNWIND, if cleans p then set_num_cleanup (num_cleanup e + 1) e else e, None)).
Proof.
  intros Hp Hok. unfold sml_personality. change (negb (1 =? 1)) with false.
  change (has UA_SEARCH_PHASE UA_SEARCH_PHASE) with true. change (EXNCLASS_SMLSHARP =? EXNCLASS_SMLSHARP) with true.
  cbn iota. rewrite Hp. cbn [mbind res_bind]. unfold catches, cleans, pad_addr. rewrite andb_true_r.
  destruct (has (lpad_type p) CATCH) eqn:Hc; [|done].
  destruct Hok as [Ht|[_ (a & Ha & _)]]; [by rewrite Ht in Hc|]. by rewrite Ha.
Qed.

(** The frames before the handler, in the search phase. *)
Lemma search_before fs ps rest e : Forall2 (fun c p => search_lpad m c = Ok p) fs ps ->
  Forall pad_ok ps -> Forall (fun p => catches p = false) ps ->
  num_cleanup e + Z.of_nat (length (cleanups ps)) < 2 ^ 32 -> 0 <= num_cleanup e ->
  search_phase (fs ++ rest) e =
    ('(h, e) ← search_phase rest (Exception (exn_obj e) (handler_addr e) (exception_class e)
       (num_cleanup e + Z.of_nat (length (cleanups ps))));
     Ok (option_map (Nat.add (length fs)) h, e)).
Proof.
  intros Hps. revert e. induction Hps as [|c p fs ps Hp Hps IH]; intros e Hok Hnc Hlt H0.
  { simpl. rewrite Z.add_0_r. destruct e. simpl. destruct (search_phase rest _) as [[[h|] e]| | |]; done. }
  apply Forall_cons in Hok as [Hok1 Hok], Hnc as [Hnc1 Hnc]. cbn [app search_phase].
  rewrite (search_frame c p e Hp Hok1), Hnc1. cbn [mbind res_bind]. unfold cleanups in *. rewrite filter_cons in *.
  destruct (cleans p); cbn [decide] in *.
  - rewrite decide_True in * by done. cbn [length] in *. rewrite IH; [|done|done|..]; cbn [set_num_cleanup num_cleanup].
    + unfold set_num_cleanup, u32. cbn [exn_obj handler_addr exception_class num_cleanup]. rewrite Z.mod_small by lia.
      replace (num_cleanup e + 1 + Z.of_nat (length (filter (fun p => cleans p = true) ps)))
        with (num_cleanup e + Z.of_nat (S (length (filter (fun p => cleans p = true) ps)))) by lia.
      destruct (search_phase rest _) as [[[h|] e']| | |]; done.
    + unfold u32. rewrite Z.mod_small; lia.
    + unfold u32. apply Z.mod_pos_bound. lia.
  - rewrite decide_False in * by done. rewrite IH by done.
    destruct (search_phase rest _) as [[[h|] e']| | |]; done.
Qed.

Definition land_at (ret1 ret2 : Z) (p : landing_pad) : landing := Landing (pad_addr p) ret1 ret2.

Lemma cleanup_frame c p e : search_lpad m c = Ok p -> pad_ok p -> catches p = false ->
  0 <= num_cleanup e < 2 ^ 32 -> (cleans p = true -> num_cleanup e <> 0) ->
  sml_personality m 1 UA_CLEANUP_PHASE EXNCLASS_SMLSHARP ue e c = Ok
    (if cleans p then
       (URC_INSTALL_CONTEXT, Exception (exn_obj e) (handler_addr e) (exception_class e) (num_cleanup e - 1),
        Some (land_at ue (UE_TO_EXCEPTION ue) p))
     else (URC_CONTINUE_UNWIND, e, None)).
Proof.
  intros Hp Hok Hc He Hn. unfold sml_personality. change (negb (1 =? 1)) with false.
  change (has UA_CLEANUP_PHASE UA_SEARCH_PHASE) with false. change (EXNCLASS_SMLSHARP =? EXNCLASS_SMLSHARP) with true.
  change (negb (has UA_CLEANUP_PHASE UA_CLEANUP_PHASE)) with false. change (has UA_CLEANUP_PHASE UA_HANDLER_FRAME) with false.
  cbn iota. cbn [andb]. rewrite Hp. cbn [mbind res_bind]. unfold catches, cleans, land_at, pad_addr in *.
  destruct (Z.eqb_spec (num_cleanup e) 0) as [H0|H0].
  { destruct (has (lpad_type p) CLEANUP); [by destruct (Hn eq_refl)|done]. }
  destruct Hok as [Ht|[Hin (a & Ha & Hne)]]; [by rewrite Ht|].
  rewrite !elem_of_cons, elem_of_nil in Hin. destruct Hin as [Ht|[Ht|[Ht|[]]]]; rewrite Ht in *; try done.
  change (has CLEANUP CLEANUP) with true. cbn [negb]. rewrite Ha. cbn [deref mbind res_bind]. unfold install.
  rewrite (proj2 (Z.eqb_neq _ _) Hne). unfold set_num_cleanup, u32. rewrite Z.mod_small by lia. done.
Qed.

Lemma cleanup_before fs ps c e : Forall2 (fun c p => search_lpad m c = Ok p) fs ps ->
  Forall pad_ok ps -> Forall (fun p => catches p = false) ps ->
  num_cleanup e = Z.of_nat (length (cleanups ps)) -> num_cleanup e < 2 ^ 32 -> handler_addr e <> 0 ->
  forall rest, cleanup_phase (length fs) (fs ++ c :: rest) e =
    Ok (map (land_at ue (UE_TO_EXCEPTION ue)) (cleanups ps) ++ [Landing (handler_addr e) 0 (UE_TO_EXCEPTION ue)],
        Exception (exn_obj e) (handler_addr e) (exception_class e) 0).
Proof.
  intros Hps. revert e. induction Hps as [|c' p fs ps Hp Hps IH]; intros e Hok Hnc Hn Hlt Hh rest.
  { simpl in Hn. cbn [length app cleanup_phase cleanups]. unfold sml_personality. change (negb (1 =? 1)) with false.
    change (has (Z.lor UA_CLEANUP_PHASE UA_HANDLER_FRAME) UA_SEARCH_PHASE) with false.
    change (EXNCLASS_SMLSHARP =? EXNCLASS_SMLSHARP) with true.
    change (negb (has (Z.lor UA_CLEANUP_PHASE UA_HANDLER_FRAME) UA_CLEANUP_PHASE)) with false.
    change (has (Z.lor UA_CLEANUP_PHASE UA_HANDLER_FRAME) UA_HANDLER_FRAME) with true. cbn iota. unfold install.
    rewrite (proj2 (Z.eqb_neq _ _) Hh). destruct e. simpl in *. by subst. }
  apply Forall_cons in Hok as [Hok1 Hok], Hnc as [Hnc1 Hnc]. cbn [length app cleanup_phase].
  unfold cleanups in *. rewrite filter_cons in *.
  rewrite (cleanup_frame c' p e Hp Hok1 Hnc1); [|lia|intros Hcl; rewrite decide_True in Hn by done; simpl in Hn; lia].
  cbn [mbind res_bind]. destruct (cleans p); cbn [decide] in *.
  - rewrite decide_True in * by done. cbn [length] in Hn. rewrite IH; simpl; [done|done|done|lia|lia|done].
  - rewrite decide_False in * by done. rewrite IH; done.
Qed.
End Unwinding.

Module ExnSample.
(** Two tables, in the two encodings; the first function has a cleanup and a
    handler, the second a handler that also cleans up. *)
Definition t1 : table := Table None DW_EH_PE_udata4 [CallSite 0 16 300 0; CallSite 16 16 0 0; CallSite 32 300 200 1] [0; 0].
Definition t2 : table := Table (Some (0, 70000)) DW_EH_PE_uleb128 [CallSite 0 200 500 3] [0; 0; 1; 3].
Definition ue : Z := 4016.
Definition arg : Z := UE_TO_EXCEPTION ue.
Definition m : mem :=
  store_bytes (store_bytes (store64 (store32 (fun _ => 0) (arg - 4) 64) arg 7777) 1000 (encode_table t1)) 2000 (encode_table t2).

Lemma bytes_checked p bs : forallb (fun i => m (p + Z.of_nat i) =? nth i bs 0) (seq 0 (length bs)) = true -> bytes_at m p bs.
Proof.
  intros H i b Hi. rewrite forallb_forall in H. specialize (H i). rewrite Z.eqb_eq in H. rewrite H.
  - by apply nth_lookup_Some with (d := 0) in Hi.
  - apply in_seq. apply lookup_lt_Some in Hi. lia.
Qed.
Lemma bytes1 : bytes_at m 1000 (encode_table t1).
Proof. apply bytes_checked. vm_compute. reflexivity. Qed.
Lemma table1 : table_ok 50000 t1.
Proof.
  split; [by left|done|..].
  - repeat constructor; vm_compute; congruence || (intros; lia).
  - repeat constructor; vm_compute; congruence.
  - vm_compute. reflexivity.
Qed.

(** The frames: a cleanup, one without a table, a handler. *)
Definition frames : list context := [Context 1000 50000 50005; Context 0 60000 60001; Context 2000 70000 70100].
Definition pads : list landing_pad := [LandingPad CLEANUP (Some 50300); no_lpad; LandingPad 3 (Some 70500)].
Lemma pads_found : Forall2 (fun c p => search_lpad m c = Ok p) frames pads.
Proof. repeat constructor; vm_compute; reflexivity. Qed.
End ExnSample.

(** ** Properties *)

(** [read_uleb128] returns every 64-bit number from its encoding, and the
    address behind it. *)
Theorem read_uleb128_roundtrip m p v : bytes_at m p (uleb128 v) -> 0 <= v < 2 ^ 64 ->
  read_uleb128 m p = Ok (v, p + Z.of_nat (length (uleb128 v))).
Proof. apply read_uleb128_ok. Qed.

Lemma read_uleb128_roundtrip_witness :
  read_uleb128 (store_bytes (fun _ => 0) 10 (uleb128 (2 ^ 64 - 1))) 10 = Ok (2 ^ 64 - 1, 20).
Proof.
  apply (read_uleb128_roundtrip _ 10 (2 ^ 64 - 1)); [|done].
  intros i b Hi. by apply store_bytes_at.
Defined.

(** [search_lpad] finds what an exception table written by LLVM says about
    the call: nothing for an empty table, the landing pad of the call site
    that covers the call instruction, and termination if there is none. *)
Theorem search_lpad_correct m t c :
  0 <= region_start c -> 0 < context_ip c < 2 ^ 64 -> lsda c <> 0 ->
  bytes_at m (lsda c) (encode_table t) -> table_ok (region_start c) t ->
  search_lpad m c = Ok
    match sites t with
    | [] => no_lpad
    | _ => match find (covers (context_ip c - 1 - region_start c)) (sites t) with
           | Some s => pad_of (region_start c) t s
           | None => LandingPad CATCH (Some 0)
           end
    end.
Proof. intros Hr Hip Hl Hb Ht. by apply (search_lpad_ok m (region_start c) t). Qed.

Lemma search_lpad_correct_witness :
  search_lpad ExnSample.m (Context 1000 50000 50332) = Ok (LandingPad CATCH (Some 50200)).
Proof.
  rewrite (search_lpad_correct ExnSample.m ExnSample.t1); [reflexivity|done|done|done|exact ExnSample.bytes1|exact ExnSample.table1].
Defined.

(** C14. Raising an exception runs, in the order of the frames, exactly the
    cleanups of the frames inside of the first one with a handler, each with
    the exception, and then that handler; the counter of the search phase,
    by which the cleanup phase skips frames, is down to zero at the end. *)
Theorem two_phase_unwinding m arg fs ps c p rest :
  sizeof_exception <= OBJ_SIZE m arg -> load64 m arg <> 0 ->
  Forall2 (fun c p => search_lpad m c = Ok p) fs ps -> search_lpad m c = Ok p ->
  Forall pad_ok ps -> pad_ok p -> Forall (fun p => catches p = false) ps -> catches p = true ->
  Z.of_nat (length ps) < 2 ^ 32 ->
  let ue := arg + 16 in
  exists e0 e1 e2, sml_raise m arg = Ok e0 /\
    search_phase m ue (fs ++ c :: rest) e0 = Ok (Some (length fs), e1) /\
    cleanup_phase m ue (length fs) (fs ++ c :: rest) e1 =
      Ok (map (land_at ue arg) (cleanups ps) ++ [Landing (pad_addr p) 0 arg], e2) /\
    exn_obj e2 = load64 m arg /\ num_cleanup e2 = 0.
Proof.
  intros Hsize Hobj Hps Hp Hok Hokp Hnc Hc Hlen ue. unfold sml_raise.
  rewrite (proj2 (Z.leb_le _ _) Hsize), (proj2 (Z.eqb_neq _ _) Hobj). cbn [assert_that negb mbind res_bind].
  assert (Hcl : (length (cleanups ps) <= length ps)%nat) by apply length_filter.
  eexists _, _, _. split; [reflexivity|]. split; [|split].
  - rewrite (search_before m ue fs ps (c :: rest)); [|done|done|done|simpl; lia|done]. cbn [search_phase].
    rewrite (search_frame m ue c p _ Hp Hokp), Hc. cbn [mbind res_bind option_map]. rewrite Nat.add_0_r. reflexivity.
  - assert (Hue : UE_TO_EXCEPTION ue = arg) by (unfold UE_TO_EXCEPTION, ue; lia).
    rewrite (cleanup_before m ue fs ps c); [|done|done|done|simpl; lia|simpl; lia|].
    2: { destruct Hokp as [Ht|[_ (a & Ha & Hne)]]; [unfold catches in Hc; by rewrite Ht in Hc|]. simpl.
      unfold pad_addr. by rewrite Ha. }
    rewrite Hue. reflexivity.
  - done.
Qed.

Lemma two_phase_unwinding_witness : exists e0 e1 e2,
  sml_raise ExnSample.m ExnSample.arg = Ok e0 /\
  search_phase ExnSample.m (ExnSample.arg + 16) ExnSample.frames e0 = Ok (Some 2%nat, e1) /\
  cleanup_phase ExnSample.m (ExnSample.arg + 16) 2 ExnSample.frames e1 =
    Ok ([Landing 50300 ExnSample.ue ExnSample.arg; Landing 70500 0 ExnSample.arg], e2) /\
  exn_obj e2 = load64 ExnSample.m ExnSample.arg /\ num_cleanup e2 = 0.
Proof.
  pose proof ExnSample.pads_found as H. do 2 (apply Forall2_cons in H as [? H]). apply Forall2_cons in H as [? _].
  apply (two_phase_unwinding ExnSample.m ExnSample.arg (take 2 ExnSample.frames) (take 2 ExnSample.pads)
    (Context 2000 70000 70100) (LandingPad 3 (Some 70500)) []).
  - vm_compute. discriminate.
  - vm_compute. discriminate.
  - repeat constructor; assumption.
  - assumption.
  - apply Forall_cons. split; [|apply Forall_singleton; by left]. right. split; [left|by exists 50300].
  - right. split; [right; right; left|by exists 70500].
  - repeat constructor.
  - reflexivity.
  - vm_compute. reflexivity.
Defined.

(** In a forced unwinding, which has no search phase, the assertion of
    [sml_personality] fails at a frame with a handler and no cleanup. *)
Theorem forced_unwind_fails m exnclass ue e c a :
  exnclass <> EXNCLASS_SMLSHARP -> search_lpad m c = Ok (LandingPad CATCH a) ->
  sml_personality m 1 (Z.lor UA_CLEANUP_PHASE UA_FORCE_UNWIND) exnclass ue e c = Fault.
Proof.
  intros Hne Hp. unfold sml_personality. rewrite (proj2 (Z.eqb_neq _ _) Hne).
  change (has (Z.lor UA_CLEANUP_PHASE UA_FORCE_UNWIND) UA_SEARCH_PHASE) with false.
  change (has (Z.lor UA_CLEANUP_PHASE UA_FORCE_UNWIND) UA_CLEANUP_PHASE) with true.
  change (has (Z.lor UA_CLEANUP_PHASE UA_FORCE_UNWIND) UA_HANDLER_FRAME) with false.
  cbn [negb andb Z.eqb Pos.eqb]. by rewrite Hp.
Qed.

Lemma forced_unwind_fails_witness :
  sml_personality ExnSample.m 1 (Z.lor UA_CLEANUP_PHASE UA_FORCE_UNWIND) 0 4016 (Exception 0 0 0 0) (Context 1000 50000 50332) = Fault.
Proof. apply (forced_unwind_fails ExnSample.m 0 4016 _ _ (Some 50200)); [done|]. vm_compute. reflexivity. Defined.
