(* ===== verification/Prim.v ===== *)
(** * Primitives of the Basis Library

    src/src/runtime/prim.c: comparison of bytes, formatting of integers, the
    names of system errors, and the primitives for files that do more than
    call the system.  Strings are lists of bytes without the terminating
    zero; system calls are arguments.  The IntInf primitives are in IntInf.v. *)
From Stdlib Require Import ZArith Lia Ascii String.
From stdpp Require Import base option list gmap.
From S2P Require Import Prelude Bits Memory Object.

Local Open Scope Z_scope.

(** A C string literal. *)
Definition bytes_of (s : string) : list Z := map (fun c => Z.of_nat (nat_of_ascii c)) (list_ascii_of_string s).

(** ** [sml_memcmp] *)
Section Memcmp.
Variable m : mem.

(** [while (len > 0)]. *)
Fixpoint memcmp_loop (len : nat) (s1 s2 : Z) : Z :=
  match len with
  | O => 0
  | S len => if m s1 =? m s2 then memcmp_loop len (s1 + 1) (s2 + 1) else m s1 - m s2
  end.
Definition sml_memcmp (s1 i1 s2 i2 len : Z) : Z :=
  let s1 := s1 + i1 in
  let s2 := s2 + i2 in
  if s1 =? s2 then 0 else memcmp_loop (Z.to_nat len) s1 s2.
End Memcmp.

(** ** Integers *)
Definition digit : list Z := bytes_of "0123456789ABCDEF".

(** [buf[--index] = c]; an index below zero is outside of the buffer. *)
Definition put_char (c : Z) (buf : list Z) (index : nat) : res (list Z * nat) :=
  match index with
  | O => Fault
  | S index => assert_that (index <? length buf)%nat;; Ok (<[index := c]> buf, index)
  end.

Fixpoint fmt_loop (fuel : nat) (value radix : Z) (buf : list Z) (index : nat) : res (list Z * nat) :=
  match fuel with
  | O => NoFuel
  | S fuel =>
      if 0 <? value then
        c ← deref (digit !! Z.to_nat (value mod radix));
        '(buf, index) ← put_char c buf index;
        fmt_loop fuel (value / radix) radix buf index
      else Ok (buf, index)
  end.
Definition fmt (value radix : Z) (buf : list Z) (index : nat) : res (list Z * nat) :=
  if value =? 0 then put_char 48 buf index else fmt_loop 33 value radix buf index.

(** [sizeof(unsigned int) * CHAR_BIT + sizeof("~")]. *)
Definition sizeof_buf : nat := 34.

Definition fmt_int (value radix : Z) : res (list Z) :=
  let n := if value <? 0 then u32 (0 - u32 value) else u32 value in
  '(buf, i) ← fmt n radix (repeat 0 sizeof_buf) sizeof_buf;
  '(buf, i) ← (if value <? 0 then put_char 126 buf i else Ok (buf, i));
  Ok (drop i buf).

(** ** Classes of floating-point numbers

    [fpclassify] and [signbit]. *)
Inductive fp_class := FP_INFINITE | FP_NAN | FP_NORMAL | FP_SUBNORMAL | FP_ZERO.
Definition IEEEREAL_CLASS (c : fp_class) : Z :=
  match c with FP_NAN => 2 | FP_INFINITE => 3 | FP_ZERO => 4 | FP_SUBNORMAL => 5 | FP_NORMAL => 6 end.
Definition FPCLASS (c : fp_class) (signbit : bool) : Z :=
  if signbit then - IEEEREAL_CLASS c else IEEEREAL_CLASS c.

(** ** System errors

    The entries of [sys_errors] in order: the macro and the name. *)
Definition sys_error_entries : list (string * string) :=
  [("EACCES", "acces"); ("EAGAIN", "again"); ("EBADF", "badf"); ("EBADMSG", "badmsg"); ("EBUSY", "busy");
   ("ECANCELED", "canceled"); ("ECHILD", "child"); ("EDEADLK", "deadlk"); ("EDOM", "dom"); ("EEXIST", "exist");
   ("EFAULT", "fault"); ("EFBIG", "fbig"); ("EINPROGRESS", "inprogress"); ("EINTR", "intr"); ("EINVAL", "inval");
   ("EIO", "io"); ("EISDIR", "isdir"); ("ELOOP", "loop"); ("EMFILE", "mfile"); ("EMLINK", "mlink");
   ("EMSGSIZE", "msgsize"); ("ENAMETOOLONG", "nametoolong"); ("ENFILE", "nfile"); ("ENODEV", "nodev");
   ("ENOENT", "noent"); ("ENOEXEC", "noexec"); ("ENOLCK", "nolck"); ("ENOMEM", "nomem"); ("ENOSPC", "nospc");
   ("ENOSYS", "nosys"); ("ENOTDIR", "notdir"); ("ENOTEMPTY", "notempty"); ("ENOTSUP", "notsup"); ("ENOTTY", "notty");
   ("ENXIO", "nxio"); ("EPERM", "perm"); ("EPIPE", "pipe"); ("ERANGE", "range"); ("EROFS", "rofs");
   ("ESPIPE", "spipe"); ("ESRCH", "srch"); ("E2BIG", "toobig"); ("EXDEV", "xdev")]%string.

(** [isdigit], and [atoi] of a string that begins with a digit. *)
Definition isdigit (c : Z) : bool := (48 <=? c) && (c <=? 57).
Fixpoint atoi (s : list Z) (acc : Z) : Z :=
  match s with
  | c :: s => if isdigit c then atoi s (10 * acc + (c - 48)) else acc
  | [] => acc
  end.

Section Errors.
(** The value of a macro of errno.h, if it is defined. *)
Variable errno_h : string -> option Z.

Definition sys_errors : list (Z * list Z) :=
  omap (fun '(macro, name) => errnum ← errno_h macro; Some (errnum, bytes_of name)) sys_error_entries.

Definition prim_GenericOS_errorName (errnum : Z) : res (list Z) :=
  match find (fun e => e.1 =? errnum) sys_errors with
  | Some e => Ok e.2
  | None => fmt_int errnum 10
  end.
Definition prim_GenericOS_syserror (errorname : list Z) : Z :=
  if isdigit (hd 0 errorname) then atoi errorname 0
  else
    match find (fun e => bool_decide (errorname = e.2)) sys_errors with
    | Some e => e.1
    | None => -1
    end.
End Errors.

(** ** Files *)
Record fcntl_h := Fcntl { O_RDONLY : Z; O_WRONLY : Z; O_RDWR : Z; O_TRUNC : Z; O_CREAT : Z; O_APPEND : Z; O_BINARY : option Z }.

(** [prim_GenericOS_open]: the flags for [open], or none ([EINVAL]). *)
Definition open_flags (f : fcntl_h) (fmode : list Z) : option Z :=
  let binary s := Z.lor s (default 0 (O_BINARY f)) in
  let at_ i := nth i fmode 0 in
  match
    (if at_ O =? 114 then Some (O_RDONLY f, 0)
     else if at_ O =? 119 then Some (O_WRONLY f, Z.lor (O_TRUNC f) (O_CREAT f))
     else if at_ O =? 97 then Some (O_WRONLY f, Z.lor (O_APPEND f) (O_CREAT f))
     else None)
  with
  | None => None
  | Some (flags, subflags) =>
      let '(subflags, str) := if at_ 1%nat =? 98 then (binary subflags, 2%nat) else (subflags, 1%nat) in
      let '(flags, str) := if at_ str =? 43 then (O_RDWR f, S str) else (flags, str) in
      let subflags := if at_ str =? 98 then binary subflags else subflags in
      Some (Z.lor flags subflags)
  end.

(** The checks before [read] and [write], and the arguments of these. *)
Definition prim_GenericOS_read (m : mem) (fd buf offset len : Z) : res (Z * Z * Z) :=
  assert_that ((OBJ_TYPE m buf =? OBJTYPE_UNBOXED_ARRAY) || (OBJ_TYPE m buf =? OBJTYPE_UNBOXED_VECTOR));;
  assert_that (u32 (offset + len) <=? OBJ_SIZE m buf);;
  Ok (fd, buf + offset, len).

(** [prim_GenericOS_readlink]: [readlink n] is the content of a buffer of
    [n] bytes after the call, none if that failed; [buf] has 128 bytes. *)
Section Readlink.
Variable readlink : nat -> option (list Z).

Definition readlink_to_buf (len : nat) : res (option (list Z)) := assert_that (len <=? 128)%nat;; Ok (readlink len).

Fixpoint readlink_loop (fuel : nat) (buf : option (list Z)) (len : nat) : res (option (list Z)) :=
  match fuel, buf with
  | _, None => Ok None
  | O, _ => NoFuel
  | S fuel, Some bs =>
      if (len <=? length bs)%nat then buf ← readlink_to_buf len; readlink_loop fuel buf (2 * len)
      else Ok buf
  end.
Definition prim_GenericOS_readlink (fuel : nat) : res (option (list Z)) :=
  buf ← readlink_to_buf 128;
  match buf with
  | None => Ok None
  | Some bs => if (length bs <? 128)%nat then Ok buf else readlink_loop fuel buf 128
  end.
End Readlink.

(** [prim_GenericOS_getcwd]: [getcwd size] is the path, or whether [errno] is
    [ERANGE]. *)
Section Getcwd.
Variable getcwd : nat -> list Z + bool.
Fixpoint getcwd_loop (fuel size : nat) : res (option (list Z) * nat) :=
  match fuel with
  | O => NoFuel
  | S fuel =>
      match getcwd size with
      | inl pwd => Ok (Some pwd, size)
      | inr erange => if negb erange then Ok (None, size) else getcwd_loop fuel (size + 256)
      end
  end.
Definition prim_GenericOS_getcwd (fuel : nat) : res (option (list Z) * nat) := getcwd_loop fuel 256.
End Getcwd.

(** ** [prim_GenericOS_poll] with [select] *)
Definition SML_POLLIN : Z := 1.
Definition SML_POLLOUT : Z := 2.
Definition SML_POLLPRI : Z := 4.

Record fd_sets := FdSets { infds : gset Z; outfds : gset Z; prifds : gset Z }.

Section Poll.
Variable FD_SETSIZE : Z.
(** [select]: the result and the sets it leaves; no timeout is to wait. *)
Variable select : Z -> fd_sets -> option (Z * Z) -> Z * fd_sets.

Definition FD_SET (fd : Z) (s : gset Z) : res (gset Z) :=
  assert_that ((0 <=? fd) && (fd <? FD_SETSIZE));; Ok ({[fd]} ∪ s).
Definition FD_ISSET (fd : Z) (s : gset Z) : res bool :=
  assert_that ((0 <=? fd) && (fd <? FD_SETSIZE));; Ok (bool_decide (fd ∈ s)).
Definition has_event (ev bit : Z) : bool := negb (Z.land ev bit =? 0).

(** The first loop, for one descriptor. *)
Definition poll_request (s : fd_sets) (nfds fd ev : Z) : res (fd_sets * Z) :=
  i ← (if has_event ev SML_POLLIN then FD_SET fd (infds s) else Ok (infds s));
  o ← (if has_event ev SML_POLLOUT then FD_SET fd (outfds s) else Ok (outfds s));
  p ← (if has_event ev SML_POLLPRI then FD_SET fd (prifds s) else Ok (prifds s));
  let setfd := if has_event ev SML_POLLIN || has_event ev SML_POLLOUT || has_event ev SML_POLLPRI then fd else 0 in
  Ok (FdSets i o p, if setfd <? nfds then nfds else setfd).
Fixpoint poll_requests (s : fd_sets) (nfds : Z) (fds : list (Z * Z)) : res (fd_sets * Z) :=
  match fds with
  | [] => Ok (s, nfds)
  | (fd, ev) :: fds => '(s, nfds) ← poll_request s nfds fd ev; poll_requests s nfds fds
  end.

(** The second loop. *)
Definition poll_answer (s : fd_sets) (fd : Z) : res Z :=
  i ← FD_ISSET fd (infds s);
  o ← FD_ISSET fd (outfds s);
  p ← FD_ISSET fd (prifds s);
  Ok (Z.lor (Z.lor (if negb i then SML_POLLIN else 0) (if negb o then SML_POLLOUT else 0)) (if negb p then SML_POLLPRI else 0)).
Fixpoint poll_answers (s : fd_sets) (fds : list Z) : res (list Z) :=
  match fds with
  | [] => Ok []
  | fd :: fds => ev ← poll_answer s fd; evs ← poll_answers s fds; Ok (ev :: evs)
  end.

(** The result of [select] and the new contents of the array of events. *)
Definition prim_GenericOS_poll (fdary evary : list Z) (timeout_sec timeout_usec : Z) : res (Z * list Z) :=
  assert_that (length fdary =? length evary)%nat;;
  '(s, nfds) ← poll_requests (FdSets ∅ ∅ ∅) 0 (zip fdary evary);
  let timeout := if (timeout_sec <? 0) || (timeout_usec <? 0) then None else Some (timeout_sec, timeout_usec) in
  let '(err, s) := select (nfds + 1) s timeout in
  if err <? 0 then Ok (err, evary)
  else evs ← poll_answers s fdary; Ok (err, evs).
End Poll.
