(* ===== verification/PrimThms.v ===== *)
(** * Primitives: the properties of src/src/runtime/prim.c *)
From Stdlib Require Import ZArith Lia Ascii String.
From stdpp Require Import base option list gmap.
From S2P Require Import Prelude Bits Memory Object Prim.

Local Open Scope Z_scope.

(** ** [sml_memcmp] *)

(** Lexicographic order of lists of bytes. *)
Fixpoint lex (l1 l2 : list Z) : comparison :=
  match l1, l2 with
  | x :: l1, y :: l2 => match x ?= y with Eq => lex l1 l2 | c => c end
  | [], [] => Eq
  | [], _ => Lt
  | _, [] => Gt
  end.

Lemma memcmp_loop_lex m n : forall s1 s2,
  (memcmp_loop m n s1 s2 ?= 0) = lex (load_bytes m s1 n) (load_bytes m s2 n).
Proof.
  assert (Hcons : forall s k, load_bytes m s (S k) = m s :: load_bytes m (s + 1) k).
  { intros s k. unfold load_bytes. cbn [seq map]. rewrite Z.add_0_r, <- seq_shift, map_map. f_equal.
    apply map_ext. intros i. f_equal. lia. }
  induction n as [|n IH]; intros s1 s2; [done|]. rewrite !Hcons. cbn [memcmp_loop lex].
  destruct (Z.eqb_spec (m s1) (m s2)) as [->|Hne]; [by rewrite Z.compare_refl|].
  destruct (Z.compare_spec (m s1) (m s2)); destruct (Z.compare_spec (m s1 - m s2) 0); try done; lia.
Qed.

(** ** Integers *)
Definition digit_value (c : Z) : Z := if c <=? 57 then c - 48 else c - 55.
Definition is_digit (radix c : Z) : Prop := c ∈ digit /\ digit_value c < radix.
Definition number (radix : Z) (ds : list Z) : Z := fold_left (fun a c => a * radix + digit_value c) ds 0.

(** The syntax of ML: a tilde for the sign. *)
Definition parse_int (radix : Z) (s : list Z) : Z :=
  match s with
  | c :: ds => if c =? 126 then - number radix ds else number radix s
  | [] => 0
  end.

Lemma digit_lookup n : 0 <= n < 16 -> exists c, digit !! Z.to_nat n = Some c /\ digit_value c = n /\ c <> 126 /\ (n <> 0 -> c <> 48).
Proof.
  intros Hn. assert (H : forall k, (k < 16)%nat ->
    exists c, digit !! k = Some c /\ digit_value c = Z.of_nat k /\ c <> 126 /\ (Z.of_nat k <> 0 -> c <> 48)).
  { intros k Hk. do 16 (destruct k as [|k]; [eexists; split; [vm_compute; reflexivity|vm_compute; split; [done|split; congruence]]|]). lia. }
  destruct (H (Z.to_nat n)) as (c & Hc & Hv & H1 & H2); [lia|]. rewrite Z2Nat.id in * by lia. eauto.
Qed.

Lemma number_snoc radix ds c : number radix (ds ++ [c]) = number radix ds * radix + digit_value c.
Proof. unfold number. by rewrite fold_left_app. Qed.

(** What [fmt] puts in front of the buffer. *)
Record formatted (radix v : Z) (ds : list Z) : Prop := {
  fm_value : number radix ds = v;
  fm_digits : Forall (is_digit radix) ds;
  fm_head : v <> 0 -> hd 0 ds <> 48;
  fm_tilde : Forall (fun c => c <> 126) ds
}.

Lemma fmt_loop_ok radix : 2 <= radix <= 16 -> forall fuel v k buf index,
  0 <= v < radix ^ Z.of_nat k -> (k < fuel)%nat -> (k <= index)%nat -> (index <= length buf)%nat ->
  exists buf' i ds, fmt_loop fuel v radix buf index = Ok (buf', i) /\ length buf' = length buf /\
    (length ds <= k)%nat /\ index = (i + length ds)%nat /\ drop i buf' = ds ++ drop index buf /\
    (ds = [] <-> v = 0) /\ formatted radix v ds.
Proof.
  intros Hradix. induction fuel as [|fuel IH]; intros v k buf index Hv Hf Hk Hi; [lia|]. cbn [fmt_loop].
  destruct (Z.ltb_spec 0 v) as [Hpos|Hz].
  - destruct k as [|k]; [change (radix ^ Z.of_nat 0) with 1 in Hv; lia|].
    destruct (digit_lookup (v mod radix)) as (c & Hc & Hcv & Htilde & Hnz).
    { pose proof (Z.mod_pos_bound v radix). lia. }
    rewrite Hc. cbn [deref mbind res_bind]. destruct index as [|index]; [lia|]. cbn [put_char].
    rewrite (proj2 (Nat.ltb_lt _ _)) by lia. cbn [assert_that mbind res_bind].
    destruct (IH (v / radix) k (<[index:=c]> buf) index) as (buf' & i & ds & Hrun & Hlen & Hds & Hidx & Hdrop & Hne & [F1 F2 F3 F4]).
    { rewrite Nat2Z.inj_succ, Z.pow_succ_r in Hv by lia. split; [apply Z.div_pos; lia|apply Z.div_lt_upper_bound; lia]. }
    { lia. } { lia. } { rewrite length_insert. lia. }
    rewrite length_insert in Hlen.
    exists buf', i, (ds ++ [c]). split; [done|]. split; [done|]. rewrite length_app. split; [simpl; lia|].
    split; [simpl; lia|]. split; [|split; [destruct ds; split; [done|lia|done|lia]|]].
    + rewrite Hdrop, <- app_assoc. f_equal. simpl. rewrite (drop_S _ c); [|apply list_lookup_insert_eq; lia].
      by rewrite drop_insert_lt by lia.
    + split.
      * rewrite number_snoc, F1, Hcv. pose proof (Z.div_mod v radix). lia.
      * apply Forall_app. split; [done|]. apply Forall_singleton. split; [by eapply list_elem_of_lookup_2|].
        rewrite Hcv. apply Z.mod_pos_bound. lia.
      * intros _. destruct ds as [|d ds].
        -- simpl. apply Hnz. assert (v / radix = 0) by (by apply Hne). pose proof (Z.div_mod v radix). lia.
        -- simpl. apply F3. intros H0. by apply Hne in H0.
      * apply Forall_app. split; [done|]. by apply Forall_singleton.
  - assert (v = 0) as -> by lia. exists buf, index, []. split; [done|]. split; [done|]. simpl.
    split; [lia|]. split; [lia|]. split; [done|]. split; [done|]. split; [done|constructor|done|constructor].
Qed.

Lemma fmt_ok radix v buf index : 2 <= radix <= 16 -> 0 <= v < 2 ^ 32 -> (32 <= index)%nat -> (index <= length buf)%nat ->
  exists buf' i ds, fmt v radix buf index = Ok (buf', i) /\ length buf' = length buf /\
    (1 <= length ds <= 32)%nat /\ index = (i + length ds)%nat /\ drop i buf' = ds ++ drop index buf /\ formatted radix v ds.
Proof.
  intros Hradix Hv Hi Hlen. unfold fmt. destruct (Z.eqb_spec v 0) as [->|Hne].
  - destruct index as [|index]; [lia|]. unfold put_char. rewrite (proj2 (Nat.ltb_lt _ _)) by lia. cbn [assert_that mbind res_bind].
    exists (<[index:=48]> buf), index, [48]. split; [done|]. rewrite length_insert. split; [done|]. split; [simpl; lia|].
    split; [simpl; lia|]. split.
    + rewrite (drop_S _ 48); [|apply list_lookup_insert_eq; lia]. by rewrite drop_insert_lt by lia.
    + split; [done| |done|by apply Forall_singleton]. apply Forall_singleton. split; [vm_compute; left|].
      change (digit_value 48) with 0. lia.
  - destruct (fmt_loop_ok radix Hradix 33 v 32 buf index) as (buf' & i & ds & Hrun & Hl & Hds & Hidx & Hdrop & Hnil & F); try lia.
    exists buf', i, ds. split; [done|]. split; [done|]. split; [|done]. split; [|done].
    destruct ds; [by rewrite (proj1 Hnil) in Hne|simpl; lia].
Qed.

Lemma fmt_int_ok radix v : 2 <= radix <= 16 -> - 2 ^ 31 <= v < 2 ^ 31 ->
  exists ds, fmt_int v radix = Ok (if v <? 0 then 126 :: ds else ds) /\ (1 <= length ds <= 32)%nat /\ formatted radix (Z.abs v) ds.
Proof.
  intros Hradix Hv. unfold fmt_int.
  assert (Hn : (if v <? 0 then u32 (0 - u32 v) else u32 v) = Z.abs v).
  { unfold u32. destruct (Z.ltb_spec v 0).
    - rewrite Zminus_mod_idemp_r. rewrite Z.mod_small; lia.
    - rewrite Z.mod_small; lia. }
  rewrite Hn. destruct (fmt_ok radix (Z.abs v) (repeat 0 sizeof_buf) sizeof_buf) as (buf & i & ds & Hrun & Hlen & Hds & Hidx & Hdrop & F);
    [done|lia|vm_compute; lia|vm_compute; lia|].
  exists ds. rewrite Hrun. cbn [mbind res_bind]. change (drop sizeof_buf (repeat 0 sizeof_buf)) with ([] : list Z) in Hdrop.
  rewrite app_nil_r in Hdrop. unfold sizeof_buf in *. rewrite repeat_length in Hlen.
  destruct (v <? 0); [|cbn [mbind res_bind]; by rewrite Hdrop].
  destruct i as [|i]; [lia|]. cbn [put_char]. rewrite Hlen, (proj2 (Nat.ltb_lt _ _)) by lia. cbn [assert_that mbind res_bind].
  split; [|done]. f_equal. rewrite (drop_S _ 126); [|apply list_lookup_insert_eq; lia]. rewrite drop_insert_lt by lia.
  by rewrite Hdrop.
Qed.

Lemma formatted_parse radix v ds : formatted radix (Z.abs v) ds -> ds <> [] -> parse_int radix (if v <? 0 then 126 :: ds else ds) = v.
Proof.
  intros [F1 _ _ F4] Hne. destruct (Z.ltb_spec v 0); simpl; [lia|]. destruct ds as [|c ds]; [done|].
  apply Forall_cons in F4 as [F4 _]. unfold parse_int. rewrite (proj2 (Z.eqb_neq _ _) F4). lia.
Qed.

(** *** [atoi] of the decimal digits *)
Lemma is_digit_10 c : is_digit 10 c -> isdigit c = true /\ digit_value c = c - 48.
Proof.
  intros [Hin Hlt]. assert (H : Forall (fun c => digit_value c < 10 -> isdigit c = true /\ digit_value c = c - 48) digit).
  { unfold digit. vm_compute. repeat constructor; intros; (done || congruence). }
  rewrite Forall_forall in H. by apply H.
Qed.
Lemma atoi_number ds : forall acc, Forall (is_digit 10) ds ->
  atoi ds acc = fold_left (fun a c => a * 10 + digit_value c) ds acc.
Proof.
  induction ds as [|c ds IH]; intros acc; [done|]. intros [Hc Hds]%Forall_cons. destruct (is_digit_10 c Hc) as [H1 H2].
  cbn [atoi fold_left]. rewrite H1, H2. replace (10 * acc + (c - 48)) with (acc * 10 + (c - 48)) by lia. by apply IH.
Qed.

(** ** System errors *)
Section Errors.
Variable errno_h : string -> option Z.

Lemma names_distinct : NoDup (map (fun e => bytes_of e.2) sys_error_entries) /\
  Forall (fun e => isdigit (hd 0 (bytes_of e.2)) = false) sys_error_entries.
Proof. split; apply (bool_decide_unpack _); vm_compute; exact I. Qed.

Lemma sys_errors_name e : e ∈ sys_errors errno_h -> isdigit (hd 0 e.2) = false.
Proof.
  unfold sys_errors. rewrite list_elem_of_omap. intros ([macro name] & Hin & He).
  destruct (errno_h macro); simpl in He; [|done]. injection He as <-. simpl.
  pose proof (proj2 names_distinct) as H. rewrite Forall_forall in H. by apply (H (macro, name)).
Qed.

Lemma sys_errors_distinct e f : e ∈ sys_errors errno_h -> f ∈ sys_errors errno_h -> e.2 = f.2 -> e = f.
Proof.
  unfold sys_errors. pose proof (proj1 names_distinct) as H. revert H. generalize sys_error_entries.
  intros l Hnd. rewrite !list_elem_of_omap. intros ([m1 n1] & H1 & He) ([m2 n2] & H2 & Hf).
  destruct (errno_h m1) eqn:E1, (errno_h m2) eqn:E2; simpl in He, Hf; try done. injection He as <-. injection Hf as <-. simpl.
  intros Hn. assert (Heq : (m1, n1) = (m2, n2)); [|injection Heq as -> ->; congruence].
  eapply (NoDup_map_inj l (fun e : string * string => bytes_of e.2)); eauto.
Qed.

Lemma error_roundtrip e : 0 <= e < 2 ^ 31 ->
  exists name, prim_GenericOS_errorName errno_h e = Ok name /\ prim_GenericOS_syserror errno_h name = e.
Proof.
  intros He. unfold prim_GenericOS_errorName. destruct (find _ (sys_errors errno_h)) as [[n name]|] eqn:Hf.
  - apply List.find_some in Hf as [Hin Hn]. apply list_elem_of_In in Hin. apply Z.eqb_eq in Hn. simpl in Hn. subst n.
    exists name. split; [done|]. unfold prim_GenericOS_syserror. rewrite (sys_errors_name _ Hin : isdigit (hd 0 name) = false).
    destruct (find _ (sys_errors errno_h)) as [f|] eqn:Hf2.
    + apply List.find_some in Hf2 as [Hin2 Hn2]. apply list_elem_of_In in Hin2. apply bool_decide_eq_true in Hn2.
      by rewrite <- (sys_errors_distinct (e, name) f).
    + exfalso. apply list_elem_of_In in Hin. apply (List.find_none _ _ Hf2) in Hin. apply bool_decide_eq_false in Hin. done.
  - destruct (fmt_int_ok 10 e) as (ds & Hrun & Hlen & [F1 F2 F3 F4]); [lia|lia|]. rewrite Hrun.
    rewrite (proj2 (Z.ltb_ge e 0)) by lia. exists ds. split; [done|]. unfold prim_GenericOS_syserror.
    destruct ds as [|c ds]; [simpl in Hlen; lia|]. apply Forall_cons in F2 as [Hc Hds]. cbn [hd].
    destruct (is_digit_10 c Hc) as [-> _]. rewrite atoi_number by (by constructor). unfold number in F1. lia.
Qed.
End Errors.

(** ** [prim_GenericOS_poll] *)
Section PollSpec.
Variable FD_SETSIZE : Z.

Definition fd_ok (fd : Z) : Prop := 0 <= fd < FD_SETSIZE.

Lemma FD_SET_ok fd s : fd_ok fd -> FD_SET FD_SETSIZE fd s = Ok ({[fd]} ∪ s).
Proof. intros [H1 H2]. unfold FD_SET. by rewrite (proj2 (Z.leb_le _ _) H1), (proj2 (Z.ltb_lt _ _) H2). Qed.
Lemma FD_ISSET_ok fd s : fd_ok fd -> FD_ISSET FD_SETSIZE fd s = Ok (bool_decide (fd ∈ s)).
Proof. intros [H1 H2]. unfold FD_ISSET. by rewrite (proj2 (Z.leb_le _ _) H1), (proj2 (Z.ltb_lt _ _) H2). Qed.

(** The descriptors of which an event is requested. *)
Definition requested (bit : Z) (fds : list (Z * Z)) : gset Z :=
  list_to_set (map fst (filter (fun e => has_event e.2 bit = true) fds)).

Lemma requested_cons bit fd ev fds :
  requested bit ((fd, ev) :: fds) = (if has_event ev bit then {[fd]} else ∅) ∪ requested bit fds.
Proof. unfold requested. rewrite filter_cons. simpl. destruct (has_event ev bit); simpl; set_solver. Qed.

Lemma poll_requests_ok fds : forall s nfds, Forall (fun e => fd_ok e.1) fds -> 0 <= nfds ->
  exists n, poll_requests FD_SETSIZE s nfds fds =
    Ok (FdSets (requested SML_POLLIN fds ∪ infds s) (requested SML_POLLOUT fds ∪ outfds s) (requested SML_POLLPRI fds ∪ prifds s), n) /\
    nfds <= n /\ forall fd, fd ∈ requested SML_POLLIN fds ∪ requested SML_POLLOUT fds ∪ requested SML_POLLPRI fds -> fd <= n.
Proof.
  induction fds as [|[fd ev] fds IH]; intros s nfds Hok Hn.
  { exists nfds. simpl. destruct s. unfold requested. simpl. rewrite !(left_id_L ∅ (∪)). set_solver by lia. }
  apply Forall_cons in Hok as [Hfd Hok]. simpl in Hfd. cbn [poll_requests]. unfold poll_request.
  set (i := has_event ev SML_POLLIN). set (o := has_event ev SML_POLLOUT). set (p := has_event ev SML_POLLPRI).
  assert (Hset : forall (b : bool) x, (if b then FD_SET FD_SETSIZE fd x else Ok x) = Ok ((if b then {[fd]} else ∅) ∪ x)).
  { intros [] x; [by apply FD_SET_ok|]. by rewrite (left_id_L ∅ (∪)). }
  rewrite !Hset. cbn [mbind res_bind]. set (setfd := if i || o || p then fd else 0).
  destruct (IH (FdSets ((if i then {[fd]} else ∅) ∪ infds s) ((if o then {[fd]} else ∅) ∪ outfds s) ((if p then {[fd]} else ∅) ∪ prifds s))
              (if setfd <? nfds then nfds else setfd) Hok) as (n & -> & Hle & Hmax).
  { destruct (Z.ltb_spec setfd nfds); lia. }
  exists n. rewrite !requested_cons. fold i o p. cbn [infds outfds prifds]. split; [do 3 f_equal; set_solver|].
  split; [destruct (Z.ltb_spec setfd nfds); lia|]. intros x Hx.
  assert (Hc : x ∈ requested SML_POLLIN fds ∪ requested SML_POLLOUT fds ∪ requested SML_POLLPRI fds \/ x = fd /\ i || o || p = true).
  { destruct i, o, p; set_solver. }
  destruct Hc as [Hc|[-> Hb]]; [by apply Hmax|]. unfold setfd in Hle. rewrite Hb in Hle. destruct (Z.ltb_spec fd nfds); lia.
Qed.

Lemma poll_answers_ok s fds : Forall fd_ok fds ->
  exists evs, poll_answers FD_SETSIZE s fds = Ok evs /\
    Forall2 (fun fd ev => forall bit ready, (bit, ready) ∈ [(SML_POLLIN, infds s); (SML_POLLOUT, outfds s); (SML_POLLPRI, prifds s)] ->
      has_event ev bit = bool_decide (fd ∉ ready)) fds evs.
Proof.
  induction fds as [|fd fds IH]; [intros _; by exists []|]. intros [Hfd Hok]%Forall_cons. destruct (IH Hok) as (evs & Hrun & Hev).
  cbn [poll_answers]. unfold poll_answer. rewrite !FD_ISSET_ok by done. cbn [mbind res_bind]. rewrite Hrun. cbn [mbind res_bind].
  eexists. split; [done|]. constructor; [|done]. intros bit ready Hin. rewrite !elem_of_cons, elem_of_nil in Hin.
  rewrite !bool_decide_not.
  destruct Hin as [[= -> ->]|[[= -> ->]|[[= -> ->]|[]]]];
    destruct (bool_decide (fd ∈ infds s)), (bool_decide (fd ∈ outfds s)), (bool_decide (fd ∈ prifds s)); reflexivity.
Qed.
End PollSpec.

(** ** Properties *)

(** The sign of [sml_memcmp] is the lexicographic order of the bytes. *)
Theorem sml_memcmp_correct m s1 i1 s2 i2 len :
  (sml_memcmp m s1 i1 s2 i2 len ?= 0) =
  lex (load_bytes m (s1 + i1) (Z.to_nat len)) (load_bytes m (s2 + i2) (Z.to_nat len)).
Proof.
  unfold sml_memcmp. destruct (Z.eqb_spec (s1 + i1) (s2 + i2)) as [->|Hne]; [|apply memcmp_loop_lex].
  simpl. induction (load_bytes m (s2 + i2) (Z.to_nat len)) as [|x l IH]; [done|]. simpl. by rewrite Z.compare_refl.
Qed.

(** [fmt_int] never leaves its buffer and writes every [int] so that reading
    it back gives the same number: a tilde for negative ones, then digits
    without a leading zero. *)
Theorem fmt_int_roundtrip v radix : - 2 ^ 31 <= v < 2 ^ 31 -> 2 <= radix <= 16 ->
  exists s, fmt_int v radix = Ok s /\ parse_int radix s = v /\ (length s <= 33)%nat /\
    exists ds, s = (if v <? 0 then 126 :: ds else ds) /\ Forall (is_digit radix) ds /\ (v <> 0 -> hd 0 ds <> 48).
Proof.
  intros Hv Hradix. destruct (fmt_int_ok radix v Hradix Hv) as (ds & Hrun & Hlen & F). eexists. split; [exact Hrun|].
  split; [apply formatted_parse; [done|]; destruct ds; simpl in *; [lia|done]|].
  split; [destruct (v <? 0); simpl; lia|]. exists ds. split; [done|]. destruct F as [_ F2 F3 _]. split; [done|]. intros H. apply F3. lia.
Qed.

Lemma fmt_int_roundtrip_witness : exists s,
  fmt_int (- 2 ^ 31) 2 = Ok s /\ parse_int 2 s = - 2 ^ 31 /\ (length s <= 33)%nat /\
  exists ds, s = 126 :: ds /\ Forall (is_digit 2) ds /\ (- 2 ^ 31 <> 0 -> hd 0 ds <> 48).
Proof. apply (fmt_int_roundtrip (- 2 ^ 31) 2); lia. Defined.

(** C35. [OS.syserror] undoes [OS.errorName] for every error number, whatever
    macros of errno.h the system defines. *)
Theorem errorName_roundtrip errno_h e : 0 <= e < 2 ^ 31 ->
  exists name, prim_GenericOS_errorName errno_h e = Ok name /\ prim_GenericOS_syserror errno_h name = e.
Proof. apply error_roundtrip. Qed.

Lemma errorName_roundtrip_witness : exists name,
  prim_GenericOS_errorName (fun s => if (s =? "EINTR")%string then Some 4 else None) 4 = Ok name /\
  prim_GenericOS_syserror (fun s => if (s =? "EINTR")%string then Some 4 else None) name = 4.
Proof. apply (errorName_roundtrip _ 4). lia. Defined.

(** [prim_GenericOS_readlink] cuts the target of a link off after 128
    bytes: the loop for longer ones reads into the same buffer again and
    then stops. *)
Theorem readlink_truncates readlink target fuel : (forall n, readlink n = Some (take n target)) -> (1 < fuel)%nat ->
  prim_GenericOS_readlink readlink fuel = Ok (Some (take 128 target)).
Proof.
  intros H Hf. unfold prim_GenericOS_readlink, readlink_to_buf. cbn [assert_that mbind res_bind]. rewrite H.
  change (128 <=? 128)%nat with true. cbn [assert_that mbind res_bind].
  destruct (Nat.ltb_spec (length (take 128 target)) 128) as [|Hge]; [done|]. rewrite length_take in Hge.
  destruct fuel as [|[|fuel]]; [lia..|]. cbn [readlink_loop]. rewrite (proj2 (Nat.leb_le _ _)) by (rewrite length_take; lia).
  unfold readlink_to_buf. change (128 <=? 128)%nat with true. cbn [assert_that mbind res_bind]. rewrite H.
  rewrite (proj2 (Nat.leb_gt _ _)) by (rewrite length_take; lia). done.
Qed.

Lemma readlink_truncates_witness :
  prim_GenericOS_readlink (fun n => Some (take n (repeat 97 200))) 2 = Ok (Some (repeat 97 128)).
Proof. rewrite (readlink_truncates _ (repeat 97 200) 2); [reflexivity|done|lia]. Defined.

(** [prim_GenericOS_poll] passes exactly the requested descriptors to
    [select], with a sufficient [nfds], but reports for every descriptor the
    events that [select] has not found: the complement of the answer. *)
Theorem poll_reports_complement FD_SETSIZE select fdary evary sec usec :
  length fdary = length evary -> Forall (fd_ok FD_SETSIZE) fdary -> (forall n s t, 0 <= (select n s t).1) ->
  exists nfds s timeout, let '(err, ready) := select nfds s timeout in
    (forall fd, fd ∈ infds s ∪ outfds s ∪ prifds s -> fd < nfds) /\
    infds s = requested SML_POLLIN (zip fdary evary) /\ outfds s = requested SML_POLLOUT (zip fdary evary) /\
    prifds s = requested SML_POLLPRI (zip fdary evary) /\
    exists evs, prim_GenericOS_poll FD_SETSIZE select fdary evary sec usec = Ok (err, evs) /\
      Forall2 (fun fd ev => (has_event ev SML_POLLIN = true <-> fd ∉ infds ready) /\
        (has_event ev SML_POLLOUT = true <-> fd ∉ outfds ready) /\ (has_event ev SML_POLLPRI = true <-> fd ∉ prifds ready)) fdary evs.
Proof.
  intros Hlen Hok Hsel. unfold prim_GenericOS_poll. rewrite (proj2 (Nat.eqb_eq _ _) Hlen). cbn [assert_that mbind res_bind].
  assert (Hz : Forall (fun e => fd_ok FD_SETSIZE e.1) (zip fdary evary)).
  { apply Forall_forall. intros [fd ev] Hin. rewrite Forall_forall in Hok. apply Hok.
    apply list_elem_of_lookup in Hin as [i Hi]. apply lookup_zip_Some in Hi as [Hi _]. by eapply list_elem_of_lookup_2. }
  destruct (poll_requests_ok FD_SETSIZE (zip fdary evary) (FdSets ∅ ∅ ∅) 0 Hz) as (n & -> & Hn & Hmax); [lia|].
  cbn [mbind res_bind infds outfds prifds]. rewrite !(right_id_L ∅ (∪)).
  set (s := FdSets _ _ _).
  set (timeout := if (sec <? 0) || (usec <? 0) then None else Some (sec, usec)).
  exists (n + 1), s, timeout. pose proof (Hsel (n + 1) s timeout) as Herr. destruct (select (n + 1) s timeout) as [err ready]. simpl in Herr.
  split; [intros fd Hfd; specialize (Hmax fd Hfd); lia|]. do 3 (split; [done|]).
  rewrite (proj2 (Z.ltb_ge _ _) Herr). destruct (poll_answers_ok FD_SETSIZE ready fdary Hok) as (evs & -> & Hev).
  exists evs. split; [done|]. eapply Forall2_impl; [exact Hev|]. intros fd ev H.
  rewrite (H SML_POLLIN (infds ready)), (H SML_POLLOUT (outfds ready)), (H SML_POLLPRI (prifds ready)), !bool_decide_eq_true; [done|..];
    rewrite !elem_of_cons; tauto.
Qed.

Lemma poll_reports_complement_witness : exists (nfds : Z) (s : fd_sets) (timeout : option (Z * Z)),
  let '(err, ready) := (1, FdSets {[3]} ∅ ∅) in
  (forall fd, fd ∈ infds s ∪ outfds s ∪ prifds s -> fd < nfds) /\
  infds s = requested SML_POLLIN [(3, 1)] /\ outfds s = requested SML_POLLOUT [(3, 1)] /\
  prifds s = requested SML_POLLPRI [(3, 1)] /\
  exists evs, prim_GenericOS_poll 1024 (fun _ _ _ => (1, FdSets {[3]} ∅ ∅)) [3] [1] 0 0 = Ok (err, evs) /\
    Forall2 (fun fd ev => (has_event ev SML_POLLIN = true <-> fd ∉ infds ready) /\
      (has_event ev SML_POLLOUT = true <-> fd ∉ outfds ready) /\ (has_event ev SML_POLLPRI = true <-> fd ∉ prifds ready)) [3] evs.
Proof.
  apply (poll_reports_complement 1024 (fun _ _ _ => (1, FdSets {[3]} ∅ ∅)) [3] [1] 0 0); [done| |done].
  apply Forall_singleton. unfold fd_ok. lia.
Defined.

(** The assertion of [prim_GenericOS_read] lets a range through that leaves
    the object, since the sum of offset and length wraps around. *)
Theorem read_assertion_wraps m fd buf offset len :
  OBJ_TYPE m buf = OBJTYPE_UNBOXED_ARRAY -> 0 <= offset < 2 ^ 32 -> 0 <= len < 2 ^ 32 ->
  (exists r, prim_GenericOS_read m fd buf offset len = Ok r) <->
  offset + len <= OBJ_SIZE m buf \/ 2 ^ 32 <= offset + len <= OBJ_SIZE m buf + 2 ^ 32.
Proof.
  intros Ht Ho Hl. unfold prim_GenericOS_read. rewrite Ht. cbn [assert_that mbind res_bind orb]. rewrite Z.eqb_refl. simpl.
  assert (Hs : 0 <= OBJ_SIZE m buf < 2 ^ 28).
  { unfold OBJ_SIZE, OBJ_SIZE_MASK. change 0x0fffffff with (Z.ones 28). rewrite Z.land_ones by lia. apply Z.mod_pos_bound. lia. }
  unfold u32. destruct (Z.leb_spec ((offset + len) mod 2 ^ 32) (OBJ_SIZE m buf)); simpl.
  - split; [intros _; mod_lia|by eexists].
  - split; [by intros [r Hr]|]. mod_lia.
Qed.

Lemma read_assertion_wraps_witness :
  (exists r, prim_GenericOS_read (fun a => if a =? 99 then 0x20 else if a =? 96 then 8 else 0) 0 100 (2 ^ 32 - 8) 12 = Ok r) <->
  2 ^ 32 - 8 + 12 <= 8 \/ 2 ^ 32 <= 2 ^ 32 - 8 + 12 <= 8 + 2 ^ 32.
Proof. apply (read_assertion_wraps (fun a => if a =? 99 then 0x20 else if a =? 96 then 8 else 0)); [reflexivity|lia|lia]. Defined.

(** [prim_GenericOS_getcwd] enlarges its buffer until the path fits: with
    the documented behaviour of [getcwd] it terminates with the path. *)
Theorem getcwd_correct getcwd path fuel :
  (forall size, getcwd size = if (length path <? size)%nat then inl path else inr true) ->
  (length path < 256 * fuel)%nat ->
  exists size, prim_GenericOS_getcwd getcwd fuel = Ok (Some path, size) /\ (length path < size)%nat /\
    (256 < size -> size <= length path + 256)%nat.
Proof.
  intros Hg. unfold prim_GenericOS_getcwd.
  assert (H : forall fuel size, (length path < size + 256 * (fuel - 1))%nat -> (0 < fuel)%nat ->
    exists size', getcwd_loop getcwd fuel size = Ok (Some path, size') /\ (length path < size')%nat /\
      (size' = size \/ (size' <= length path + 256)%nat)).
  { clear fuel. induction fuel as [|fuel IH]; intros size Hlen Hf; [lia|]. cbn [getcwd_loop]. rewrite Hg.
    destruct (Nat.ltb_spec (length path) size) as [Hlt|Hge]; [exists size; split; [done|]; auto|]. cbn [negb].
    destruct (IH (size + 256)%nat) as (size' & -> & H1 & H2); [lia|lia|]. exists size'. split; [done|]. split; [done|]. right. lia. }
  intros Hf. destruct (H fuel 256%nat) as (size & Hrun & H1 & H2); [lia|lia|]. exists size. split; [done|]. split; [done|]. lia.
Qed.

Lemma getcwd_correct_witness : exists size,
  prim_GenericOS_getcwd (fun size => if (length (repeat 47 300) <? size)%nat then inl (repeat 47 300) else inr true) 2 =
    Ok (Some (repeat 47 300), size) /\ (length (repeat 47 300) < size)%nat /\ (256 < size -> size <= length (repeat 47 300) + 256)%nat.
Proof. apply (getcwd_correct _ (repeat 47 300) 2); [done|]. rewrite repeat_length. lia. Defined.
