(* ===== verification/PrimSys.v ===== *)
(** * Primitives on the operating system

    The primitives of src/src/runtime/prim.c for time and date, the status of
    files, directories, memory outside of the heap and temporary files.  The
    arrays and records of ML are in the memory of Memory.v; what they point
    to lies outside their header.  The functions of libc are arguments: each
    takes the state [W] of the system, and the memory where it is given a
    pointer, and says what it returns. *)
From Stdlib Require Import ZArith Lia Ascii String.
From stdpp Require Import base option list gmap.
From S2P Require Import Prelude Bits Memory Object ObjectThms IntInf Prim.

Local Open Scope Z_scope.

(** ** Arrays of [int] and [unsigned int] *)
Definition word_at (m : mem) (ret : Z) (i : nat) : Z := load32 m (ret + 4 * Z.of_nat i).
Definition int_at (m : mem) (ret : Z) (i : nat) : Z := s32 (word_at m ret i).

(** [ret[i] = v0; ret[i + 1] = v1; ...]: the values are cut down to 32 bits. *)
Fixpoint set_ints (m : mem) (ret : Z) (i : nat) (vs : list Z) : mem :=
  match vs with
  | [] => m
  | v :: vs => set_ints (store32 m (ret + 4 * Z.of_nat i) v) ret (S i) vs
  end.

(** The array [ret] of a primitive that fills in [n] integers. *)
Definition assert_array (m : mem) (ret n : Z) : res unit :=
  assert_that (OBJ_TYPE m ret =? OBJTYPE_UNBOXED_ARRAY);;
  assert_that (4 * n <=? OBJ_SIZE m ret).
Definition assert_string (m : mem) (str : Z) : res unit :=
  assert_that (OBJ_TYPE m str =? OBJTYPE_UNBOXED_VECTOR).

(** ** Time *)
Record timeval := Timeval { tv_sec : Z; tv_usec : Z }.

(** What [gettimeofday] returns and leaves in its argument. *)
Definition prim_Time_gettimeofday (gettimeofday : Z * timeval) (m : mem) (ret : Z) : res (Z * mem) :=
  assert_array m ret 2;;
  let '(err, tv) := gettimeofday in
  Ok (err, set_ints m ret 0 [tv_sec tv; tv_usec tv]).

Record rusage := Rusage { ru_utime : timeval; ru_stime : timeval }.

Definition prim_Timer_getTimes (getrusage : Z * rusage) (m : mem) (ret : Z) : Z * mem :=
  let '(err, r) := getrusage in
  if err =? 0 then
    (err, set_ints m ret 0 [tv_sec (ru_stime r); tv_usec (ru_stime r); tv_sec (ru_utime r); tv_usec (ru_utime r); 0; 0])
  else (err, m).

(** ** Date *)
Record tm := Tm {
  tm_sec : Z; tm_min : Z; tm_hour : Z; tm_mday : Z; tm_mon : Z; tm_year : Z; tm_wday : Z; tm_yday : Z; tm_isdst : Z
}.

Section Date.
(** Where [struct tm] of time.h has the nine fields above. *)
Variable offset : nat -> Z.
(** [localtime] or [gmtime], and [mktime], on a [time_t] of 64 bits. *)
Variables (localtime gmtime : Z -> option tm) (mktime : tm -> Z).

Definition tm_at (m : mem) (p : Z) : tm :=
  let field i := s32 (load32 m (p + offset i)) in
  Tm (field 0%nat) (field 1%nat) (field 2%nat) (field 3%nat) (field 4%nat) (field 5%nat) (field 6%nat) (field 7%nat) (field 8%nat).

Definition prim_Date_mkTime (m : mem) (time : Z) : Z :=
  let t := tm_at m time in
  let tm := Tm (tm_sec t) (tm_min t) (tm_hour t) (tm_mday t) (tm_mon t) (tm_year t) (tm_wday t) (tm_yday t) (tm_isdst t) in
  s32 (mktime tm).

Definition prim_Date_localTime (m : mem) (time ret : Z) : Z * mem :=
  match localtime time with
  | None => (-1, m)
  | Some tm =>
      (0, set_ints m ret 0 [tm_sec tm; tm_min tm; tm_hour tm; tm_mday tm; tm_mon tm; tm_year tm; tm_wday tm; tm_yday tm; tm_isdst tm])
  end.

Definition prim_Date_gmTime (m : mem) (time ret : Z) : Z * mem :=
  match gmtime time with
  | None => (-1, m)
  | Some tm =>
      (0, set_ints m ret 0 [tm_sec tm; tm_min tm; tm_hour tm; tm_mday tm; tm_mon tm; tm_year tm; tm_wday tm; tm_yday tm; tm_isdst tm])
  end.
End Date.

(** ** Files and directories *)
Record stat_buf := StatBuf { st_dev : Z; st_ino : Z; st_mode : Z; st_atime : Z; st_mtime : Z; st_size : Z }.

Definition set_stat (st : stat_buf) (m : mem) (ret : Z) : res mem :=
  assert_array m ret 6;;
  Ok (set_ints m ret 0 [st_dev st; st_ino st; st_mode st; st_atime st; st_mtime st; st_size st]).

Section Files.
Context {W : Type}.
Variables (write : W -> mem -> Z -> Z -> Z -> Z * W) (lseek : W -> Z -> Z -> Z -> Z * W).
Variables (fstat : W -> Z -> Z * stat_buf) (stat lstat : W -> mem -> Z -> Z * stat_buf).
Variable utimes : W -> mem -> Z -> timeval * timeval -> Z * W.
Variables (chdir opendir : W -> mem -> Z -> Z * W) (mkdir : W -> mem -> Z -> Z -> Z * W).
(** The address of [d_name], if there is another entry. *)
Variables (readdir : W -> Z -> option Z * W) (rewinddir : W -> Z -> W) (closedir : W -> Z -> Z * W).

Definition prim_GenericOS_write (w : W) (m : mem) (fd buf offset len : Z) : res (Z * W) :=
  assert_that ((OBJ_TYPE m buf =? OBJTYPE_UNBOXED_ARRAY) || (OBJ_TYPE m buf =? OBJTYPE_UNBOXED_VECTOR));;
  assert_that (u32 (offset + len) <=? OBJ_SIZE m buf);;
  let '(n, w) := write w m fd (buf + offset) len in
  Ok (s32 n, w).

Definition prim_GenericOS_lseek (w : W) (fd offset whence : Z) : Z * W :=
  let '(pos, w) := lseek w fd offset whence in
  (s32 pos, w).

Definition prim_GenericOS_fstat (w : W) (m : mem) (fd ret : Z) : res (Z * mem) :=
  let '(err, st) := fstat w fd in
  if err =? 0 then m ← set_stat st m ret; Ok (err, m) else Ok (err, m).
Definition prim_GenericOS_stat (w : W) (m : mem) (filename ret : Z) : res (Z * mem) :=
  let '(err, st) := stat w m filename in
  if err =? 0 then m ← set_stat st m ret; Ok (err, m) else Ok (err, m).
Definition prim_GenericOS_lstat (w : W) (m : mem) (filename ret : Z) : res (Z * mem) :=
  let '(err, st) := lstat w m filename in
  if err =? 0 then m ← set_stat st m ret; Ok (err, m) else Ok (err, m).

(** [atime] and [mtime] are [unsigned int]. *)
Definition prim_GenericOS_utime (w : W) (m : mem) (filename atime mtime : Z) : res (Z * W) :=
  assert_string m filename;;
  Ok (utimes w m filename (Timeval atime 0, Timeval mtime 0)).

Definition prim_GenericOS_chdir (w : W) (m : mem) (dirname : Z) : res (Z * W) :=
  assert_string m dirname;;
  Ok (chdir w m dirname).
Definition prim_GenericOS_mkdir (w : W) (m : mem) (dirname mode : Z) : res (Z * W) :=
  assert_string m dirname;;
  Ok (mkdir w m dirname mode).
Definition prim_GenericOS_opendir (w : W) (m : mem) (dirname : Z) : res (Z * W) :=
  assert_string m dirname;;
  Ok (opendir w m dirname).
Definition prim_GenericOS_readdir (w : W) (dirhandle : Z) : Z * W :=
  match readdir w dirhandle with
  | (None, w) => (0, w)
  | (Some d_name, w) => (d_name, w)
  end.
Definition prim_GenericOS_rewinddir (w : W) (dirhandle : Z) : W := rewinddir w dirhandle.
Definition prim_GenericOS_closedir (w : W) (dirhandle : Z) : Z * W := closedir w dirhandle.
End Files.

(** ** Objects from memory outside of the heap *)
Section Unmanaged.
Context {St : Type} (sml_alloc : St -> Z -> res (Z * St)).

Definition prim_UnmanagedMemory_import (st : St) (m : mem) (ptr len : Z) : res (Z * St * mem) :=
  '(obj, st, m) ← sml_obj_alloc sml_alloc st m OBJTYPE_UNBOXED_VECTOR len;
  Ok (obj, st, store_bytes m obj (load_bytes m ptr (Z.to_nat len))).

Definition prim_executable_path (st : St) (m : mem) : res (Z * St * mem) :=
  '(obj, st, m) ← sml_obj_alloc sml_alloc st m OBJTYPE_UNBOXED_VECTOR 1;
  Ok (obj, st, store8 m obj 0).

(** [mkstemp] replaces the last six characters of its template in place. *)
Context {W : Type}.
Variables (mkstemp : W -> mem -> Z -> Z * mem * W) (close : W -> Z -> W).

Definition prim_tmpName (st : St) (w : W) (m : mem) : res (Z * St * mem * W) :=
  '(buf, st, m) ← sml_str_new sml_alloc st m (bytes_of "/tmp/tmp.XXXXXX");
  let '(fd, m, w) := mkstemp w m buf in
  if fd =? -1 then
    '(obj, st, m) ← sml_str_new sml_alloc st m (bytes_of "");
    Ok (obj, st, m, w)
  else Ok (buf, st, m, close w fd).
End Unmanaged.

(** ** Arrays *)
Lemma set_ints_other m ret vs : forall i x, x < ret + 4 * Z.of_nat i \/ ret + 4 * Z.of_nat (i + length vs) <= x ->
  set_ints m ret i vs x = m x.
Proof.
  revert m. induction vs as [|v vs IH]; intros m i x Hx; [done|]. cbn [set_ints length] in *.
  rewrite IH by lia. apply store_other. lia.
Qed.

Lemma word_at_set_ints m ret vs : forall i k v, vs !! k = Some v -> word_at (set_ints m ret i vs) ret (i + k) = u32 v.
Proof.
  revert m. induction vs as [|v vs IH]; intros m i [|k] u Hu; try done.
  - injection Hu as ->. rewrite Nat.add_0_r. unfold word_at. cbn [set_ints].
    transitivity (load32 (store32 m (ret + 4 * Z.of_nat i) u) (ret + 4 * Z.of_nat i)); [|apply load_store_same].
    apply load_ext. intros x Hx. apply set_ints_other. lia.
  - cbn [set_ints]. rewrite <- (IH (store32 m (ret + 4 * Z.of_nat i) v) (S i) k u Hu). f_equal. lia.
Qed.

Definition is_int (x : Z) : Prop := - 2 ^ 31 <= x < 2 ^ 31.
Lemma s32_int x : is_int x -> s32 x = x.
Proof. unfold is_int, s32, u32. intros Hx. destruct (Z.ltb_spec (x mod 2 ^ 32) (2 ^ 31)); mod_lia. Qed.
Lemma s32_u32 x : is_int x -> s32 (u32 x) = x.
Proof. intros Hx. rewrite <- (s32_int x Hx) at 2. unfold s32. by rewrite (u32_small (u32 x)) by apply u32_range. Qed.

Lemma int_at_set_ints m ret vs k v : vs !! k = Some v -> is_int v -> int_at (set_ints m ret 0 vs) ret k = v.
Proof.
  intros Hv Hi. pose proof (word_at_set_ints m ret vs 0 k v Hv) as Hw. cbn [Nat.add] in Hw.
  unfold int_at. rewrite Hw. by apply s32_u32.
Qed.

Definition words_at (m : mem) (ret : Z) (n : nat) : list Z := map (word_at m ret) (seq 0 n).
Definition ints_at (m : mem) (ret : Z) (n : nat) : list Z := map (int_at m ret) (seq 0 n).

Lemma words_at_set_ints m ret vs : words_at (set_ints m ret 0 vs) ret (length vs) = map u32 vs.
Proof.
  apply list_eq. intros k. unfold words_at. rewrite !list_lookup_fmap. destruct (vs !! k) as [v|] eqn:Hk.
  - rewrite lookup_seq_lt by (by eapply lookup_lt_Some). simpl. f_equal. by apply (word_at_set_ints m ret vs 0 k v).
  - rewrite lookup_seq_ge by (by apply lookup_ge_None). done.
Qed.
Lemma ints_at_set_ints m ret vs : Forall is_int vs -> ints_at (set_ints m ret 0 vs) ret (length vs) = vs.
Proof.
  intros Hvs. unfold ints_at, int_at. rewrite <- (map_map (word_at _ ret) s32). fold (words_at (set_ints m ret 0 vs) ret (length vs)).
  rewrite words_at_set_ints, map_map. induction Hvs as [|v vs Hv _ IH]; [done|]. cbn. by rewrite IH, s32_u32.
Qed.

Lemma assert_array_ok m ret n : OBJ_TYPE m ret = OBJTYPE_UNBOXED_ARRAY -> 4 * n <= OBJ_SIZE m ret -> assert_array m ret n = Ok tt.
Proof. intros Ht Hs. unfold assert_array. rewrite Ht. cbn. by rewrite (proj2 (Z.leb_le _ _) Hs). Qed.

(** The header of an array does not change. *)
Lemma set_ints_header m ret vs : OBJ_TYPE (set_ints m ret 0 vs) ret = OBJ_TYPE m ret /\ OBJ_SIZE (set_ints m ret 0 vs) ret = OBJ_SIZE m ret.
Proof.
  assert (OBJ_HEADER (set_ints m ret 0 vs) ret = OBJ_HEADER m ret) as Hh.
  { apply load_ext. intros x Hx. apply set_ints_other. lia. }
  unfold OBJ_TYPE, OBJ_SIZE. by rewrite Hh.
Qed.

(** ** Time *)
(** The times of the process, the ones spent in the kernel first; nothing is
    written when [getrusage] fails. *)
Theorem prim_Timer_getTimes_correct (r : rusage) err m ret :
  Forall is_int [tv_sec (ru_stime r); tv_usec (ru_stime r); tv_sec (ru_utime r); tv_usec (ru_utime r)] ->
  exists m', prim_Timer_getTimes (err, r) m ret = (err, m') /\
    (err <> 0 -> m' = m) /\
    (err = 0 -> ints_at m' ret 6 = [tv_sec (ru_stime r); tv_usec (ru_stime r); tv_sec (ru_utime r); tv_usec (ru_utime r); 0; 0]) /\
    (forall x, x < ret \/ ret + 24 <= x -> m' x = m x).
Proof.
  intros Hint. unfold prim_Timer_getTimes. destruct (Z.eqb_spec err 0) as [->|Hne]; eexists; (split; [reflexivity|]); [|done].
  split; [done|]. split; [|intros x Hx; apply set_ints_other; cbn [length]; lia]. intros _. apply (ints_at_set_ints m ret [_; _; _; _; 0; 0]).
  apply (Forall_app is_int [_; _; _; _] [0; 0]). split; [done|]. repeat constructor; by vm_compute.
Qed.

(** The clock of the primitives has 32 bits: the seconds are right exactly
    until 2038. *)
Theorem gettimeofday_wraps tv m ret : OBJ_TYPE m ret = OBJTYPE_UNBOXED_ARRAY -> 8 <= OBJ_SIZE m ret -> 0 <= tv_sec tv < 2 ^ 32 ->
  exists m', prim_Time_gettimeofday (0, tv) m ret = Ok (0, m') /\
    (int_at m' ret 0 = tv_sec tv <-> tv_sec tv < 2 ^ 31) /\ (2 ^ 31 <= tv_sec tv -> int_at m' ret 0 < 0).
Proof.
  intros Ht Hs Htv. unfold prim_Time_gettimeofday. rewrite assert_array_ok by done. eexists. split; [reflexivity|].
  pose proof (word_at_set_ints m ret [tv_sec tv; tv_usec tv] 0 0 _ eq_refl) as Hw. cbn [Nat.add] in Hw.
  unfold int_at. rewrite Hw, u32_small by done. unfold s32. rewrite u32_small by done. destruct (Z.ltb_spec (tv_sec tv) (2 ^ 31)); lia.
Qed.

(** ** Date *)
Definition tm_fields (t : tm) : list Z :=
  [tm_sec t; tm_min t; tm_hour t; tm_mday t; tm_mon t; tm_year t; tm_wday t; tm_yday t; tm_isdst t].

Lemma tm_at_set_ints offset m ret t : (forall i, (i < 9)%nat -> offset i = 4 * Z.of_nat i) -> Forall is_int (tm_fields t) ->
  tm_at offset (set_ints m ret 0 (tm_fields t)) ret = t.
Proof.
  intros Hoff Hint.
  assert (H : forall i v, tm_fields t !! i = Some v -> s32 (load32 (set_ints m ret 0 (tm_fields t)) (ret + offset i)) = v).
  { intros i v Hv. rewrite Hoff by (apply lookup_lt_Some in Hv; done).
    apply int_at_set_ints; [done|]. by eapply Forall_lookup_1 in Hint. }
  unfold tm_at. destruct t. f_equal; by apply H.
Qed.

(** The record that [prim_Date_localTime] fills in is the [struct tm] that
    [prim_Date_mkTime] reads, so the time comes back when [mktime] undoes
    [localtime].  This needs the nine fields to be the first ones of [struct
    tm], in this order, which POSIX does not promise. *)
Theorem date_roundtrip offset (localtime : Z -> option tm) (mktime : tm -> Z) m time ret t :
  (forall i, (i < 9)%nat -> offset i = 4 * Z.of_nat i) ->
  localtime time = Some t -> Forall is_int (tm_fields t) -> mktime t = time -> is_int time ->
  exists m', prim_Date_localTime localtime m time ret = (0, m') /\
    tm_at offset m' ret = t /\ prim_Date_mkTime offset mktime m' ret = time /\
    (forall x, x < ret \/ ret + 36 <= x -> m' x = m x).
Proof.
  intros Hoff Hl Hint Hmk Htime. unfold prim_Date_localTime. rewrite Hl. eexists. split; [reflexivity|]. fold (tm_fields t).
  assert (Ht := tm_at_set_ints offset m ret t Hoff Hint). split; [done|]. split.
  - unfold prim_Date_mkTime. rewrite Ht. destruct t. cbn. rewrite Hmk. by apply s32_int.
  - intros x Hx. apply set_ints_other. cbn [length tm_fields]. lia.
Qed.

(** ** Files *)
Definition stat_fields (st : stat_buf) : list Z := [st_dev st; st_ino st; st_mode st; st_atime st; st_mtime st; st_size st].

Lemma set_stat_words st m ret : OBJ_TYPE m ret = OBJTYPE_UNBOXED_ARRAY -> 24 <= OBJ_SIZE m ret ->
  exists m', set_stat st m ret = Ok m' /\ words_at m' ret 6 = map u32 (stat_fields st) /\
    (forall x, x < ret \/ ret + 24 <= x -> m' x = m x).
Proof.
  intros Ht Hs. unfold set_stat. rewrite assert_array_ok by done. eexists. split; [reflexivity|]. split.
  - apply (words_at_set_ints m ret (stat_fields st)).
  - intros x Hx. apply set_ints_other. cbn [length]. lia.
Qed.

Section FileThms.
Context {W : Type} (stat : W -> mem -> Z -> Z * stat_buf) (utimes : W -> mem -> Z -> timeval * timeval -> Z * W).

(** What the library uses to tell files from each other is cut down to 32
    bits: it agrees for two files exactly if the fields agree modulo [2 ^
    32]; an error leaves the array as it is. *)
Theorem stat_tells_modulo w m f1 f2 ret err st1 st2 :
  stat w m f1 = (0, st1) -> stat w m f2 = (err, st2) -> OBJ_TYPE m ret = OBJTYPE_UNBOXED_ARRAY -> 24 <= OBJ_SIZE m ret ->
  exists m1 m2, prim_GenericOS_stat stat w m f1 ret = Ok (0, m1) /\ prim_GenericOS_stat stat w m f2 ret = Ok (err, m2) /\
    (err = 0 -> words_at m1 ret 6 = words_at m2 ret 6 <-> map u32 (stat_fields st1) = map u32 (stat_fields st2)) /\
    (err <> 0 -> m2 = m).
Proof.
  intros H1 H2 Ht Hs. unfold prim_GenericOS_stat. rewrite H1, H2. cbn [Z.eqb].
  destruct (set_stat_words st1 m ret Ht Hs) as (m1 & -> & Hm1 & _). destruct (set_stat_words st2 m ret Ht Hs) as (m2 & -> & Hm2 & _).
  destruct (Z.eqb_spec err 0) as [->|Hne]; cbn [mbind res_bind]; do 2 eexists; (split; [reflexivity|split; [reflexivity|split; [|done]]]).
  - intros _. by rewrite Hm1, Hm2.
  - done.
Qed.

(** [OS.FileSys.setTime] passes a time as an unsigned integer, and
    [OS.FileSys.modTime] reads it back as a signed one: the library gets the
    time that it has set, but a time before 1970 is recorded [2 ^ 32] seconds
    too late. *)
Theorem utime_roundtrip w w' m filename ret t st :
  is_int t -> OBJ_TYPE m filename = OBJTYPE_UNBOXED_VECTOR ->
  utimes w m filename (Timeval (u32 t) 0, Timeval (u32 t) 0) = (0, w') ->
  stat w' m filename = (0, st) -> st_mtime st = u32 t -> OBJ_TYPE m ret = OBJTYPE_UNBOXED_ARRAY -> 24 <= OBJ_SIZE m ret ->
  prim_GenericOS_utime utimes w m filename (u32 t) (u32 t) = Ok (0, w') /\
  exists m', prim_GenericOS_stat stat w' m filename ret = Ok (0, m') /\ int_at m' ret 4 = t /\ (t < 0 -> st_mtime st = t + 2 ^ 32).
Proof.
  intros Hint Hf Hu Hst Hmt Ht Hs. unfold prim_GenericOS_utime, assert_string. rewrite Hf, Hu. split; [done|].
  unfold prim_GenericOS_stat. rewrite Hst. cbn [Z.eqb]. destruct (set_stat_words st m ret Ht Hs) as (m' & -> & Hm' & _).
  exists m'. split; [done|]. split.
  - apply (f_equal (lookup 4%nat)) in Hm'. injection Hm' as Hm'. unfold int_at. rewrite Hm', Hmt. rewrite <- (s32_u32 t Hint) at 2.
    unfold u32. by rewrite Z.mod_mod.
  - intros Hneg. rewrite Hmt. unfold u32. unfold is_int in Hint. mod_lia.
Qed.
End FileThms.

(** ** Objects from memory outside of the heap *)
Lemma load_stored m a bs : load_bytes (store_bytes m a bs) a (length bs) = bs.
Proof.
  apply list_eq. intros i. unfold load_bytes. rewrite list_lookup_fmap. destruct (bs !! i) as [b|] eqn:Hb.
  - rewrite lookup_seq_lt by (by eapply lookup_lt_Some). simpl. f_equal. by apply store_bytes_at.
  - rewrite lookup_seq_ge by (by apply lookup_ge_None). done.
Qed.
Lemma load_bytes_ext m m' a n : (forall x, a <= x < a + Z.of_nat n -> m' x = m x) -> load_bytes m' a n = load_bytes m a n.
Proof. intros H. unfold load_bytes. apply map_ext_in. intros i Hi%in_seq. apply H. lia. Qed.

Section UnmanagedThms.
Context {St : Type} (sml_alloc : St -> Z -> res (Z * St)).

(** [importBytes] makes a vector with a copy of the bytes and changes
    nothing else; a length that the header cannot hold fails an assertion
    before anything is allocated. *)
Theorem import_correct st st' m ptr len obj :
  0 <= len < 2 ^ 31 -> sml_alloc st len = Ok (obj, st') -> ptr + len <= obj - 4 \/ obj + len <= ptr ->
  (2 ^ 28 <= len -> prim_UnmanagedMemory_import sml_alloc st m ptr len = Fault) /\
  (len < 2 ^ 28 ->
   exists m', prim_UnmanagedMemory_import sml_alloc st m ptr len = Ok (obj, st', m') /\
     OBJ_TYPE m' obj = OBJTYPE_UNBOXED_VECTOR /\ OBJ_SIZE m' obj = len /\
     load_bytes m' obj (Z.to_nat len) = load_bytes m ptr (Z.to_nat len) /\
     (forall x, x < obj - 4 \/ obj + len <= x -> m' x = m x)).
Proof.
  intros Hlen Halloc Hapart. unfold prim_UnmanagedMemory_import. split.
  - intros Hbig. unfold sml_obj_alloc. rewrite u32_small by (unfold is_u32; lia). change OBJ_SIZE_MASK with (Z.ones 28).
    rewrite Z.land_ones by lia. by rewrite (proj2 (Z.eqb_neq _ _)) by mod_lia.
  - intros Hsmall. destruct (sml_obj_alloc_unboxed sml_alloc st st' m len obj) as (m1 & -> & Hh & Hm1);
      [change OBJ_SIZE_MASK with (2 ^ 28 - 1); lia|done|].
    cbn [mbind res_bind]. eexists. split; [reflexivity|].
    rewrite (load_bytes_ext m m1 ptr) by (intros x Hx; apply Hm1; lia). set (bs := load_bytes m ptr (Z.to_nat len)).
    assert (Hbs : length bs = Z.to_nat len) by (unfold bs, load_bytes; by rewrite length_map, length_seq).
    destruct (Hh (store_bytes m1 obj bs)) as [Ht Hs]; [intros x Hx; apply store_bytes_other; lia|].
    split; [done|]. split; [done|]. split; [rewrite <- Hbs; apply load_stored|].
    intros x Hx. rewrite store_bytes_other by lia. apply Hm1. lia.
Qed.

Lemma str_new_small st st' m str obj : Z.of_nat (length str) + 1 <= OBJ_SIZE_MASK ->
  sml_alloc st (Z.of_nat (length str) + 1) = Ok (obj, st') ->
  exists m', sml_str_new sml_alloc st m str = Ok (obj, st', m') /\
    OBJ_TYPE m' obj = OBJTYPE_UNBOXED_VECTOR /\ OBJ_STR_SIZE m' obj = Z.of_nat (length str) /\
    load_bytes m' obj (S (length str)) = str ++ [0].
Proof.
  intros Hlen Halloc. unfold sml_str_new. rewrite u32_small, Nat2Z.id, firstn_all by (unfold is_u32; change OBJ_SIZE_MASK with 268435455 in Hlen; lia).
  destruct (sml_str_new2_correct sml_alloc st st' m str obj Hlen Halloc) as (m' & H & H1 & H2 & H3 & _). eauto.
Qed.

Context {W : Type} (mkstemp : W -> mem -> Z -> Z * mem * W) (close : W -> Z -> W).
(** [mkstemp] only assigns to the six characters at the end of the template. *)
Hypothesis mkstemp_frame : forall w m buf fd m' w', mkstemp w m buf = (fd, m', w') ->
  forall x, x < buf + 9 \/ buf + 15 <= x -> m' x = m x.

(** [prim_tmpName] hands the template to [mkstemp]: the result is a name of
    15 characters under /tmp, in the string that was allocated for the
    template, and the file is closed; on an error it is the empty string. *)
Theorem prim_tmpName_correct st st1 w m buf : sml_alloc st 16 = Ok (buf, st1) ->
  exists m1 fd m2 w', load_bytes m1 buf 16 = bytes_of "/tmp/tmp.XXXXXX" ++ [0] /\ mkstemp w m1 buf = (fd, m2, w') /\
    (fd <> -1 -> prim_tmpName sml_alloc mkstemp close st w m = Ok (buf, st1, m2, close w' fd) /\
      OBJ_STR_SIZE m2 buf = 15 /\ load_bytes m2 buf 9 = bytes_of "/tmp/tmp." /\ m2 (buf + 15) = 0) /\
    (fd = -1 -> forall obj st2, sml_alloc st1 1 = Ok (obj, st2) ->
      exists m3, prim_tmpName sml_alloc mkstemp close st w m = Ok (obj, st2, m3, w') /\ OBJ_STR_SIZE m3 obj = 0 /\ m3 obj = 0).
Proof.
  intros Halloc. destruct (str_new_small st st1 m (bytes_of "/tmp/tmp.XXXXXX") buf) as (m1 & Hr & _ & Hsz & Hbs); [by vm_compute|done|].
  destruct (mkstemp w m1 buf) as [[fd m2] w'] eqn:Hmk. pose proof (mkstemp_frame _ _ _ _ _ _ Hmk) as Hm2.
  exists m1, fd, m2, w'. split; [exact Hbs|]. split; [done|]. unfold prim_tmpName. rewrite Hr. cbn [mbind res_bind]. rewrite Hmk. split.
  - intros Hfd. rewrite (proj2 (Z.eqb_neq _ _) Hfd). split; [done|]. split; [|split].
    + transitivity (OBJ_STR_SIZE m1 buf); [|exact Hsz]. unfold OBJ_STR_SIZE, OBJ_SIZE, OBJ_HEADER. do 2 f_equal. apply load_ext. intros x Hx. apply Hm2. lia.
    + rewrite (load_bytes_ext m1) by (intros x Hx; apply Hm2; lia). by apply (f_equal (take 9)) in Hbs.
    + rewrite Hm2 by lia. apply (f_equal (lookup 15%nat)) in Hbs. by injection Hbs as Hbs.
  - intros -> obj st2 Halloc2. rewrite Z.eqb_refl.
    destruct (str_new_small st1 st2 m2 (bytes_of "") obj) as (m3 & -> & _ & Hsz3 & Hbs3); [by vm_compute|done|].
    exists m3. split; [done|]. split; [done|]. injection Hbs3 as Hbs3. by rewrite Z.add_0_r in Hbs3.
Qed.
End UnmanagedThms.

(** ** Concrete runs *)
(** An array of six integers at 64; everything else is zero. *)
Definition sample_mem : mem := fun x => if x =? 60 then 24 else if x =? 63 then 32 else 0.

(** A system that remembers one time, and whose files have the number of
    their name as inode. *)
Definition sample_utimes (w : Z) (m : mem) (filename : Z) (times : timeval * timeval) : Z * Z := (0, tv_sec times.2).
Definition sample_stat (w : Z) (m : mem) (filename : Z) : Z * stat_buf := (0, StatBuf 1 filename 33188 0 w 5).

(** Two files that differ only in the upper half of their inodes cannot be
    told apart. *)
Lemma stat_tells_modulo_witness :
  exists m1 m2, prim_GenericOS_stat sample_stat 7 sample_mem 100 64 = Ok (0, m1) /\
    prim_GenericOS_stat sample_stat 7 sample_mem (100 + 2 ^ 32) 64 = Ok (0, m2) /\ words_at m1 64 6 = words_at m2 64 6.
Proof.
  destruct (stat_tells_modulo sample_stat 7 sample_mem 100 (100 + 2 ^ 32) 64 0 (StatBuf 1 100 33188 0 7 5) (StatBuf 1 (100 + 2 ^ 32) 33188 0 7 5))
    as (m1 & m2 & H1 & H2 & Hw & _); [done..|by vm_compute|].
  exists m1, m2. split; [exact H1|]. split; [exact H2|]. apply Hw; [done|]. vm_compute. reflexivity.
Defined.

Lemma utime_roundtrip_witness :
  prim_GenericOS_utime sample_utimes 0 sample_mem 100 (u32 (-1)) (u32 (-1)) = Ok (0, 4294967295) /\
  exists m', prim_GenericOS_stat sample_stat 4294967295 sample_mem 100 64 = Ok (0, m') /\ int_at m' 64 4 = -1 /\ (-1 < 0 -> 4294967295 = -1 + 2 ^ 32).
Proof.
  apply (utime_roundtrip sample_stat sample_utimes 0 4294967295 sample_mem 100 64 (-1) (StatBuf 1 100 33188 0 4294967295 5));
    [by vm_compute..|by vm_compute].
Defined.

(** Days without months and years. *)
Definition sample_localtime (t : Z) : option tm := Some (Tm (t mod 60) (t / 60 mod 60) (t / 3600 mod 24) 0 0 0 0 (t / 86400) 0).
Definition sample_mktime (t : tm) : Z := tm_sec t + 60 * (tm_min t + 60 * (tm_hour t + 24 * tm_yday t)).
Lemma date_roundtrip_witness :
  exists m', prim_Date_localTime sample_localtime sample_mem 1000000 64 = (0, m') /\
    tm_at (fun i => 4 * Z.of_nat i) m' 64 = Tm 40 46 13 0 0 0 0 11 0 /\
    prim_Date_mkTime (fun i => 4 * Z.of_nat i) sample_mktime m' 64 = 1000000 /\
    (forall x, x < 64 \/ 64 + 36 <= x -> m' x = sample_mem x).
Proof.
  apply (date_roundtrip (fun i => 4 * Z.of_nat i) sample_localtime sample_mktime); [done|by vm_compute| |by vm_compute..].
  repeat constructor; by vm_compute.
Defined.

Lemma import_correct_witness :
  (2 ^ 28 <= 2 -> prim_UnmanagedMemory_import (fun st _ => Ok (100, st)) tt sample_mem 60 2 = Fault) /\
  (2 < 2 ^ 28 ->
   exists m', prim_UnmanagedMemory_import (fun st _ => Ok (100, st)) tt sample_mem 60 2 = Ok (100, tt, m') /\
     OBJ_TYPE m' 100 = OBJTYPE_UNBOXED_VECTOR /\ OBJ_SIZE m' 100 = 2 /\
     load_bytes m' 100 (Z.to_nat 2) = load_bytes sample_mem 60 (Z.to_nat 2) /\
     (forall x, x < 100 - 4 \/ 100 + 2 <= x -> m' x = sample_mem x)).
Proof. apply import_correct; [lia|done|lia]. Defined.

(** A [mkstemp] that always chooses the same name. *)
Definition sample_mkstemp (w : unit) (m : mem) (buf : Z) : Z * mem * unit := (3, store_bytes m (buf + 9) (bytes_of "abcdef"), w).
Lemma prim_tmpName_correct_witness :
  exists m1 fd m2 w', load_bytes m1 100 16 = bytes_of "/tmp/tmp.XXXXXX" ++ [0] /\ sample_mkstemp tt m1 100 = (fd, m2, w') /\
    (fd <> -1 -> prim_tmpName (fun st _ => Ok (100, st)) sample_mkstemp (fun w _ => w) tt tt sample_mem = Ok (100, tt, m2, w') /\
      OBJ_STR_SIZE m2 100 = 15 /\ load_bytes m2 100 9 = bytes_of "/tmp/tmp." /\ m2 (100 + 15) = 0) /\
    (fd = -1 -> forall obj st2, Ok (100, tt) = Ok (obj, st2) ->
      exists m3, prim_tmpName (fun st _ => Ok (100, st)) sample_mkstemp (fun w _ => w) tt tt sample_mem = Ok (obj, st2, m3, w') /\
        OBJ_STR_SIZE m3 obj = 0 /\ m3 obj = 0).
Proof.
  apply (prim_tmpName_correct (fun st _ => Ok (100, st)) sample_mkstemp); [|done].
  intros w m buf fd m' w' [= _ <- _] x Hx. apply (store_bytes_other m (buf + 9) (bytes_of "abcdef")). change (length (bytes_of "abcdef")) with 6%nat. lia.
Defined.
