(* ===== verification/Init.v ===== *)
(** * The initialisation of the runtime

    src/src/runtime/init.c: the size of the heap from the environment
    variable SMLSHARP_HEAPSIZE, two numbers with a unit.  A string is the
    list of its bytes before the terminating zero, a pointer into it the rest
    of the string from there.  [strtol] is that of the C library in base 10;
    [strtod] is an argument.  [long] and [size_t] have 64 bits. *)
From Stdlib Require Import ZArith Lia SpecFloat.
From stdpp Require Import base option list.
From S2P Require Import Prelude Bits Layout Segment SegList Alloc Memory Malloc Reclaim Heap Prim.

Local Open Scope Z_scope.

(** [isspace] in the C locale. *)
Definition isspace (c : Z) : bool := (c =? 32) || ((9 <=? c) && (c <=? 13)).
Fixpoint skip_space (s : list Z) : list Z :=
  match s with c :: s' => if isspace c then skip_space s' else s | [] => [] end.
Fixpoint digits (s : list Z) (acc : Z) : Z * list Z :=
  match s with
  | c :: s' => if isdigit c then digits s' (10 * acc + (c - 48)) else (acc, s)
  | [] => (acc, [])
  end.

(** The value, clipped to the range of [long], and the pointer behind it, or
    the string itself if there is no number. *)
Definition strtol (src : list Z) : Z * list Z :=
  let s := skip_space src in
  let '(neg, s) := if hd 0 s =? 45 then (true, tl s) else (false, if hd 0 s =? 43 then tl s else s) in
  if isdigit (hd 0 s) then
    let '(n, p) := digits s 0 in
    (if neg : bool then Z.max (- 2 ^ 63) (- n) else Z.min (2 ^ 63 - 1) n, p)
  else (0, src).

Definition DEFAULT_HEAPSIZE_MIN : Z := 1048576.
Definition DEFAULT_HEAPSIZE_MAX : Z := 2147483648.

Section Init.
Variables (strtod : list Z -> double * list Z) (undefined : double -> Z).

(** The unit and the pointer behind it. *)
Definition unit_of (p : list Z) : Z * list Z :=
  if hd 0 p =? 71 then (1073741824, tl p)
  else if hd 0 p =? 77 then (1048576, tl p)
  else if hd 0 p =? 107 then (1024, tl p)
  else (1, p).

Definition parse_size (src : list Z) : Z * list Z :=
  let '(n, p) := strtol src in
  let p := if n <? 0 then src else p in
  let '(f, p) := if hd 0 p =? 46 then strtod p else (S754_zero false, p) in
  let '(r, p) := unit_of p in
  (to_integer undefined 0 (2 ^ 64 - 1) (dadd (of_Z (u64 (r * n))) (dmul (of_Z r) f)), p).

(** Two pointers into one string are equal if as much is left of it. *)
Definition same_pointer (p q : list Z) : bool := (length p =? length q)%nat.

Definition parse_heapsize (src : list Z) (min_ret max_ret : Z) : Z * Z :=
  let '(min, p) := parse_size src in
  let min := if same_pointer p src then min_ret else min in
  let '(max, p) := if hd 0 p =? 58 then parse_size (tl p) else (min, p) in
  let max := if max <? min then min else max in
  if (hd 0 p =? 0) && (length p <? length src)%nat then (min, max) else (min_ret, max_ret).

(** What [sml_init] gives to [sml_heap_init]; [env] is the value of the
    environment variable. *)
Definition sml_init_heapsize (env : option (list Z)) : Z * Z :=
  let '(heapsize_min, heapsize_max) :=
    match env with
    | Some s => parse_heapsize s DEFAULT_HEAPSIZE_MIN DEFAULT_HEAPSIZE_MAX
    | None => (DEFAULT_HEAPSIZE_MIN, DEFAULT_HEAPSIZE_MAX)
    end in
  (heapsize_min, if heapsize_max <? heapsize_min then heapsize_min else heapsize_max).
End Init.

(** ** Doubles of integers *)
Lemma digits2_shift m k : digits2_pos (Pos.iter xO m k) = (k + digits2_pos m)%positive.
Proof.
  induction k as [|k IH] using Pos.peano_ind; [cbn; lia|]. rewrite Pos.iter_succ. cbn. rewrite IH. lia.
Qed.
Lemma shift_value m k : Z.pos (Pos.iter xO m k) = Z.pos m * 2 ^ Z.pos k.
Proof.
  induction k as [|k IH] using Pos.peano_ind; [cbn; lia|]. rewrite Pos.iter_succ, Pos2Z.inj_succ, Z.pow_succ_r by lia.
  change (Z.pos (xO (Pos.iter xO m k))) with (2 * Z.pos (Pos.iter xO m k)). lia.
Qed.
Lemma digits2_bound m : Z.pos m < 2 ^ Z.pos (digits2_pos m) /\ 2 ^ (Z.pos (digits2_pos m) - 1) <= Z.pos m.
Proof.
  induction m as [m IH|m IH|]; cbn [digits2_pos]; [..|by cbn]; rewrite Pos2Z.inj_succ, Z.pow_succ_r by lia; rewrite Z.sub_succ_l, Z.pow_succ_r by lia; lia.
Qed.

(** Numbers below 2^53 are represented exactly. *)
Lemma of_Z_exact m : Z.pos m < 2 ^ 53 -> exists m' e, of_Z (Z.pos m) = S754_finite false m' e /\ magnitude false m' e = Z.pos m.
Proof.
  intros Hm. destruct (digits2_bound m) as [_ Hlo].
  assert (Hd : Z.pos (digits2_pos m) <= 53).
  { destruct (Z.le_gt_cases (Z.pos (digits2_pos m)) 53); [done|]. exfalso.
    assert (2 ^ 53 <= 2 ^ (Z.pos (digits2_pos m) - 1)) by (apply Z.pow_le_mono_r; lia). lia. }
  set (d := digits2_pos m) in *.
  assert (Hexact : forall m' e, Z.pos (digits2_pos m') = 53 -> -53 <= e <= 0 ->
    binary_round_aux 53 1024 false (Z.pos m') e loc_Exact = S754_finite false m' e).
  { intros m' e Hm' He. unfold binary_round_aux, shr_fexp. cbn [Zdigits2]. rewrite Hm'.
    assert (Hf : fexp 53 1024 (53 + e) - e = 0) by (unfold fexp, emin; lia). rewrite Hf. cbn. rewrite Hm', Hf. cbn.
    by rewrite (proj2 (Z.leb_le e (1024 - 53))) by lia. }
  unfold of_Z, binary_normalize, binary_round. rewrite Z.add_0_r. fold d.
  assert (Hfe : fexp 53 1024 (Z.pos d) = Z.pos d - 53) by (unfold fexp, emin; lia). rewrite Hfe. unfold shl_align. rewrite Z.sub_0_r.
  destruct (Z.pos d - 53) as [|k|k] eqn:Hk; [|lia|].
  - exists m, 0. split; [apply Hexact; [fold d|]; lia|]. cbn. lia.
  - exists (Pos.iter xO m k), (Z.neg k). split; [apply Hexact; [rewrite digits2_shift; fold d|]; lia|].
    unfold magnitude. cbn [Z.leb Z.compare Z.opp]. rewrite shift_value. by rewrite Z.div_mul by (apply Z.pow_nonzero; lia).
Qed.

(** ** What is read *)
Section Parse.
Variables (strtod : list Z -> double * list Z) (undefined : double -> Z).

Lemma digits_app ds : forall rest acc, Forall (fun c => isdigit c = true) ds -> isdigit (hd 0 rest) = false ->
  digits (ds ++ rest) acc = (foldl (fun a c => 10 * a + (c - 48)) acc ds, rest).
Proof.
  induction ds as [|c ds IH]; intros rest acc Hds Hrest; cbn [app digits foldl].
  - destruct rest as [|c rest]; [done|]. cbn [hd] in Hrest. cbn [digits]. by rewrite Hrest.
  - apply Forall_cons in Hds as [Hc Hds]. by rewrite Hc, IH.
Qed.

Lemma isdigit_range c : isdigit c = true -> 48 <= c <= 57.
Proof. unfold isdigit. rewrite andb_true_iff, !Z.leb_le. lia. Qed.

(** The value of a non-empty string of digits. *)
Definition decimal (ds : list Z) : Z := foldl (fun a c => 10 * a + (c - 48)) 0 ds.

Lemma decimal_nonneg ds : Forall (fun c => isdigit c = true) ds -> 0 <= decimal ds.
Proof.
  unfold decimal. assert (H : forall acc, 0 <= acc -> Forall (fun c => isdigit c = true) ds -> 0 <= foldl (fun a c => 10 * a + (c - 48)) acc ds);
    [|by apply H]. induction ds as [|c ds IH]; intros acc Ha Hds; [done|]. apply Forall_cons in Hds as [Hc%isdigit_range Hds]. cbn.
  apply IH; [lia|done].
Qed.

Lemma strtol_digits ds rest : ds <> [] -> Forall (fun c => isdigit c = true) ds -> isdigit (hd 0 rest) = false -> decimal ds < 2 ^ 63 ->
  strtol (ds ++ rest) = (decimal ds, rest).
Proof.
  intros Hne Hds Hrest Hlt. destruct ds as [|c ds]; [done|]. assert (Hc := Hds). apply Forall_cons in Hc as [Hc _].
  pose proof (isdigit_range c Hc) as Hr. unfold strtol. cbn [skip_space app].
  assert (Hs : isspace c = false) by (unfold isspace; rewrite orb_false_iff, andb_false_iff, Z.eqb_neq, Z.leb_gt, Z.leb_gt; lia). rewrite Hs.
  cbn [hd tl]. rewrite (proj2 (Z.eqb_neq c 45)), (proj2 (Z.eqb_neq c 43)) by lia. cbn [hd]. rewrite Hc. change (c :: ds ++ rest) with ((c :: ds) ++ rest). rewrite digits_app by done.
  fold (decimal (c :: ds)). rewrite Z.min_r by lia. done.
Qed.

(** A unit. *)
Lemma unit_of_digit p : isdigit (hd 0 p) = true -> unit_of p = (1, p).
Proof. intros Hd%isdigit_range. unfold unit_of. by rewrite !(proj2 (Z.eqb_neq _ _)) by lia. Qed.

Lemma parse_size_ok ds p r p' : ds <> [] -> Forall (fun c => isdigit c = true) ds -> isdigit (hd 0 p) = false -> hd 0 p <> 46 ->
  unit_of p = (r, p') -> 0 < r < 2 ^ 53 -> r * decimal ds < 2 ^ 53 ->
  parse_size strtod undefined (ds ++ p) = (r * decimal ds, p').
Proof.
  intros Hne Hds Hp Hdot Hu Hr Hlt. pose proof (decimal_nonneg ds Hds) as Hn. unfold parse_size.
  rewrite strtol_digits by (done || nia). rewrite (proj2 (Z.ltb_ge (decimal ds) 0)) by done.
  rewrite (proj2 (Z.eqb_neq (hd 0 p) 46)) by done. rewrite Hu. f_equal.
  unfold u64. rewrite Z.mod_small by nia. set (n := r * decimal ds) in *.
  assert (Hz : dmul (of_Z r) (S754_zero false) = S754_zero false).
  { destruct r as [|r|]; [lia| |lia]. destruct (of_Z_exact r) as (m' & e & -> & _); [lia|done]. }
  rewrite Hz. assert (Hn0 : 0 <= n) by (unfold n; nia). destruct n as [|m|]; [done| |lia].
  destruct (of_Z_exact m) as (m' & e & Hm & Hmag); [done|]. rewrite Hm. cbn -[Z.pow]. rewrite Hmag.
  rewrite (proj2 (Z.leb_le (Z.pos m) _)) by lia. done.
Qed.
End Parse.

(** The units of SMLSHARP_HEAPSIZE. *)
Definition units : list (list Z * Z) := [([], 1); ([107], 1024); ([77], 1048576); ([71], 1073741824)].

Lemma unit_of_units unit r rest : (unit, r) ∈ units -> rest = [] \/ hd 0 rest = 58 -> unit_of (unit ++ rest) = (r, rest) /\
  isdigit (hd 0 (unit ++ rest)) = false /\ hd 0 (unit ++ rest) <> 46 /\ 0 < r < 2 ^ 53.
Proof.
  intros Hu Hr. assert (Hrest : rest = [] \/ exists l, rest = 58 :: l) by (destruct rest; naive_solver).
  unfold units in Hu. rewrite !elem_of_cons, elem_of_nil in Hu.
  destruct Hu as [[= -> ->]|[[= -> ->]|[[= -> ->]|[[= -> ->]|[]]]]]; destruct Hrest as [->|[l ->]]; done.
Qed.

(** A string of the form of two numbers with units, separated by a colon, or
    of one number, sets the two bounds, of which the second is at least the
    first; whatever the variable is, the bounds that the heap is initialised
    with are in this order. *)
Theorem parse_heapsize_correct strtod undefined ds1 u1 r1 ds2 u2 r2 min0 max0 env :
  ds1 <> [] -> ds2 <> [] -> Forall (fun c => isdigit c = true) (ds1 ++ ds2) -> (u1, r1) ∈ units -> (u2, r2) ∈ units ->
  r1 * decimal ds1 < 2 ^ 53 -> r2 * decimal ds2 < 2 ^ 53 ->
  parse_heapsize strtod undefined (ds1 ++ u1) min0 max0 = (r1 * decimal ds1, r1 * decimal ds1) /\
  parse_heapsize strtod undefined (ds1 ++ u1 ++ 58 :: ds2 ++ u2) min0 max0 =
    (r1 * decimal ds1, Z.max (r1 * decimal ds1) (r2 * decimal ds2)) /\
  (sml_init_heapsize strtod undefined env).1 <= (sml_init_heapsize strtod undefined env).2.
Proof.
  intros H1 H2 [Hd1 Hd2]%Forall_app Hu1 Hu2 Hlt1 Hlt2.
  assert (Hmax : forall a b, (if b <? a then a else b) = Z.max a b) by (intros a b; destruct (Z.ltb_spec b a); lia).
  destruct (unit_of_units u1 r1 [] Hu1) as (Hp1 & Hn1 & Hd1' & Hr1); [by left|].
  destruct (unit_of_units u2 r2 [] Hu2) as (Hp2 & Hn2 & Hd2' & Hr2); [by left|]. rewrite app_nil_r in *.
  destruct (unit_of_units u1 r1 (58 :: ds2 ++ u2) Hu1) as (Hp3 & Hn3 & Hd3 & _); [by right|].
  assert (Hlen : (0 < length ds1)%nat) by (destruct ds1; [done|simpl; lia]).
  split_and!.
  - unfold parse_heapsize. rewrite (parse_size_ok _ _ ds1 u1 r1 []) by done. unfold same_pointer. rewrite length_app.
    cbn [length hd Z.eqb]. rewrite (proj2 (Nat.eqb_neq _ _)), Hmax, Z.max_id, (proj2 (Nat.ltb_lt _ _)) by lia. done.
  - unfold parse_heapsize. rewrite (parse_size_ok _ _ ds1 _ r1 (58 :: ds2 ++ u2)) by done. unfold same_pointer. cbn [hd tl Z.eqb Pos.eqb].
    rewrite (parse_size_ok _ _ ds2 u2 r2 []) by done. rewrite !length_app. cbn [length hd Z.eqb].
    rewrite (proj2 (Nat.eqb_neq _ _)), Hmax, (proj2 (Nat.ltb_lt 0 _)) by lia. done.
  - unfold sml_init_heapsize. destruct (match env with Some _ => _ | None => _ end) as [a b]. cbn. rewrite Hmax. lia.
Qed.

(** "4M" and "4M:1G". *)
Lemma parse_heapsize_correct_witness : let strtod s := (S754_zero false, s) in
  parse_heapsize strtod (fun _ => 0) [52; 77] 0 0 = (4194304, 4194304) /\
  parse_heapsize strtod (fun _ => 0) [52; 77; 58; 49; 71] 0 0 = (4194304, 1073741824).
Proof.
  destruct (parse_heapsize_correct (fun s => (S754_zero false, s)) (fun _ => 0) [52] [77] 1048576 [49] [71] 1073741824 0 0 None) as (H1 & H2 & _);
    [done|done|by repeat constructor|by right; right; left|by right; right; right; left|done|done|]. by split.
Defined.

(** A unit without a number is not taken for malformed, but for zero. *)
Lemma unit_alone min0 max0 : parse_heapsize (fun s => (S754_zero false, s)) (fun _ => 0) [77] min0 max0 = (0, 0).
Proof. reflexivity. Qed.
