(* ===== verification/Control.v ===== *)
(** * Worker threads and handshakes

    src/src/runtime/control.c: the states of the worker contexts, the lists
    of workers, and the handshakes by which the workers drive a collection
    through its phases.  Every atomic access to shared memory is a step of
    its own; [exec] performs one step of one thread, so that a list of
    events is an interleaving.  Pointers to worker contexts are the numbers
    of the threads that own them. *)
From Stdlib Require Import ZArith Lia.
From stdpp Require Import base option list gmap.
From S2P Require Import Prelude Bits Layout Segment Alloc.

Local Open Scope Z_scope.

(** ** State words *)
Definition PHASE_MASK : Z := 7.
Definition INACTIVE_STATE : Z := 16.
Definition HELPER_STATE : Z := 32.
Definition PHASE (state : Z) : Z := Z.land state PHASE_MASK.
Definition ACTIVE (phase : Z) : Z := phase.
Definition INACTIVE (phase : Z) : Z := Z.lor phase INACTIVE_STATE.
Definition IS_ACTIVE (state : Z) : bool := Z.land state INACTIVE_STATE =? 0.

Definition CANCELED_FLAG : Z := 2.
Definition DEAD_FLAG : Z := 4.
Definition GLOBALENUM_FLAG : Z := 8.

(** [case ACTIVE(PREASYNC)], [ACTIVE(PRESYNC1)], [ACTIVE(PRESYNC2)] and
    [ACTIVE(PREMARK)] of a switch. *)
Definition is_signal (state : Z) : bool :=
  (state =? ACTIVE PREASYNC) || (state =? ACTIVE PRESYNC1) || (state =? ACTIVE PRESYNC2) || (state =? ACTIVE PREMARK).

(** ** Data *)

(** [struct sml_worker]; of the list [users] only its length. *)
Record worker := Worker { wstate : Z; wflags : Z; wusers : nat; wnext : option nat }.

Definition dead (wk : worker) : bool := negb (Z.land (wflags wk) DEAD_FLAG =? 0).
Definition canceled (wk : worker) : bool := negb (Z.land (wflags wk) CANCELED_FLAG =? 0).

Definition set_state (s : Z) (wk : worker) : worker := Worker s (wflags wk) (wusers wk) (wnext wk).
Definition set_flags (f : Z) (wk : worker) : worker := Worker (wstate wk) f (wusers wk) (wnext wk).
Definition set_users (n : nat) (wk : worker) : worker := Worker (wstate wk) (wflags wk) n (wnext wk).
Definition set_next (p : option nat) (wk : worker) : worker := Worker (wstate wk) (wflags wk) (wusers wk) p.

(** A pointer with a phase in its low three bits. *)
Definition stamped : Type := option nat * Z.

(** Where a thread goes on after an action: back to ML code, out of
    [leave_worker], or to the end of the help for a worker, whose state is
    expected to be [new_state]. *)
Inductive cont := Resume | Leave | Help (w : nat) (new_state : Z).

(** The arguments of [change_phase] and [global_phase]. *)
Record lead := Lead { old_phase : Z; new_phase : Z; global : Z; greedy : bool; after : cont }.

(** What a thread is about to do. *)
Inductive pc :=
| Outside
| Gone
| InML
| RegisterWalk (old : stamped) (next : option nat)
| Answer (state : Z)
| Act (w : nat) (phase : Z) (greedy : bool) (k : cont)
| GlobalLoad (l : lead)
| GlobalWalk (l : lead) (old : stamped) (ret : option nat)
| Change (l : lead) (head prev : option nat) (count : Z)
| Publish (l : lead) (head : option nat) (count : Z)
| AddCount (l : lead) (count : Z)
| Own (l : lead)
| Finish (k : cont)
| HelpLoad
| HelpWalk (old : stamped) (w : option nat)
| HelpTake (old : stamped) (w : nat) (old_state : Z)
| HelpLock (w : nat) (old_state : Z)
| HelpRelease (w : nat) (new_state : Z)
| HelpAgain (w : nat) (old_state : Z).

Record control := Control {
  workers : gmap nat worker;
  available : stamped;       (* workers_available *)
  handshake : stamped;       (* workers_handshake *)
  check_flag : Z;            (* sml_check_flag *)
  gc_count : Z;
  pcs : gmap nat pc
}.

Definition init_control : control := Control ∅ (None, ASYNC) (None, 0) 0 0 ∅.

Definition pc_of (c : control) (t : nat) : pc := default Outside (pcs c !! t).

Definition set_workers (m : gmap nat worker) (c : control) : control :=
  Control m (available c) (handshake c) (check_flag c) (gc_count c) (pcs c).
Definition put_worker (w : nat) (wk : worker) (c : control) : control := set_workers (<[w := wk]> (workers c)) c.
Definition set_available (p : stamped) (c : control) : control :=
  Control (workers c) p (handshake c) (check_flag c) (gc_count c) (pcs c).
Definition set_handshake (p : stamped) (c : control) : control :=
  Control (workers c) (available c) p (check_flag c) (gc_count c) (pcs c).
Definition set_check_flag (n : Z) (c : control) : control :=
  Control (workers c) (available c) (handshake c) n (gc_count c) (pcs c).
Definition set_gc_count (n : Z) (c : control) : control :=
  Control (workers c) (available c) (handshake c) (check_flag c) n (pcs c).
Definition goto (t : nat) (p : pc) (c : control) : control :=
  Control (workers c) (available c) (handshake c) (check_flag c) (gc_count c) (<[t := p]> (pcs c)).

(** What the scheduler and the rest of the runtime decide: whether a weak
    compare-and-swap fails without cause, the answer of
    [sml_heap_mark_finish], and how many user contexts [worker_sync2] finds
    to belong to the worker no longer. *)
Record oracle := Oracle { weak_fails : bool; mark_finished : bool; users_gone : nat }.

(** ** Handshakes *)

Definition return_to (k : cont) : pc :=
  match k with Resume => InML | Leave => Outside | Help w new_state => HelpRelease w new_state end.

(** [fetch_sub(acq_rel, &sml_check_flag, 1) == 1]. *)
Definition answered (t : nat) (k : cont) (c : control) (last : control -> control) : control :=
  let old := check_flag c in
  let c := set_check_flag (u32 (old - 1)) c in
  if old =? 1 then last c else goto t (return_to k) c.

Definition worker_sync1 (t w : nat) (greedy : bool) (k : cont) (c : control) : res control :=
  wk ← deref (workers c !! w);
  Ok (answered t k c (fun c =>
        goto t (GlobalLoad (Lead SYNC1 PRESYNC2 SYNC2 greedy k))
          (put_worker w (set_flags (Z.lor (wflags wk) GLOBALENUM_FLAG) wk) c))).

Definition worker_sync2 (t w : nat) (greedy : bool) (k : cont) (o : oracle) (c : control) : res control :=
  wk ← deref (workers c !! w);
  let wk := set_users (wusers wk - users_gone o) wk in
  let wk := set_flags (Z.ldiff (wflags wk) GLOBALENUM_FLAG) wk in
  Ok (answered t k (put_worker w wk c) (fun c =>
        goto t (GlobalLoad (Lead SYNC2 PREMARK MARK greedy k)) c)).

Definition worker_mark (t w : nat) (greedy : bool) (k : cont) (o : oracle) (c : control) : res control :=
  Ok (answered t k c (fun c =>
        goto t (GlobalLoad (if mark_finished o then Lead MARK PREASYNC ASYNC greedy k
                            else Lead MARK PREMARK MARK greedy k)) c)).

Definition worker_async (t w : nat) (k : cont) (c : control) : res control :=
  Ok (answered t k c (fun c => goto t (Finish k) c)).

(** The end of a collection in [worker_async]. *)
Definition finish_gc (t : nat) (k : cont) (c : control) : res control :=
  assert_that (Z.odd (gc_count c));;
  Ok (goto t (return_to k) (set_gc_count ((gc_count c + 1) mod 2 ^ 64) c)).

(** [switch(PHASE(old_state))] on a pending signal. *)
Definition act (t w : nat) (phase : Z) (greedy : bool) (k : cont) (o : oracle) (c : control) : res control :=
  if phase =? PREASYNC then worker_async t w k c
  else if phase =? PRESYNC1 then worker_sync1 t w greedy k c
  else if phase =? PRESYNC2 then worker_sync2 t w greedy k o c
  else if phase =? PREMARK then worker_mark t w greedy k o c
  else Fatal.

(** Skipping dead workers at the head of [workers_available]. *)
Definition skip_dead (next : option nat) (c : control) : res (option (option nat)) :=
  match next with
  | None => Ok None
  | Some w => wk ← deref (workers c !! w); Ok (if dead wk then Some (wnext wk) else None)
  end.

(** One turn of a loop of [global_phase]. *)
Definition global_phase (t : nat) (l : lead) (old : stamped) (ret : option nat) (o : oracle) (c : control) : res control :=
  assert_that ((Z.land (global l) (Z.lnot PHASE_MASK) =? 0) && negb (global l =? 0));;
  skipped ← skip_dead ret c;
  match skipped with
  | Some next => Ok (goto t (GlobalWalk l old next) c)
  | None =>
      if bool_decide (available c = old) && negb (weak_fails o)
      then Ok (goto t (Change l ret None 0) (set_available (ret, global l) c))
      else Ok (goto t (GlobalWalk l (available c) (available c).1) c)
  end.

(** One turn of the loop of [change_phase]; [prev] is [None] when [i] points
    to the variable [workers] and otherwise the worker whose [next] it points
    to. *)
Definition change_phase (t : nat) (l : lead) (head prev : option nat) (count : Z) (c : control) : res control :=
  i ← (match prev with None => Ok head | Some p => wk ← deref (workers c !! p); Ok (wnext wk) end);
  match i with
  | None =>
      assert_that (Z.land (new_phase l) (Z.lnot PHASE_MASK) =? 0);;
      Ok (goto t (Publish l head count) c)
  | Some w =>
      wk ← deref (workers c !! w);
      let unlink p c :=
        pk ← deref (workers c !! p);
        Ok (goto t (Change l head prev count) (put_worker p (set_next (wnext wk) pk) c)) in
      match prev, dead wk with
      | Some p, true => unlink p c
      | _, _ =>
          if (old_phase l =? ASYNC) && canceled wk && (wusers wk =? 0)%nat then
            let c := put_worker w (set_flags (Z.lor (wflags wk) DEAD_FLAG) wk) c in
            match prev with
            | Some p => unlink p c
            | None => Ok (goto t (Change l head (Some w) count) c)
            end
          else
            assert_that (PHASE (wstate wk) =? old_phase l);;
            Ok (goto t (Change l head (Some w) (u32 (count + 1)))
                  (put_worker w (set_state (Z.lxor (wstate wk) (Z.lxor (old_phase l) (new_phase l))) wk) c))
      end
  end.

(** [if (greedy)] after [change_phase]: the leader's own action. *)
Definition own_action (t : nat) (l : lead) (c : control) : res control :=
  wk ← deref (workers c !! t);
  assert_that (wstate wk =? ACTIVE (new_phase l));;
  Ok (goto t (Act t (new_phase l) true (after l)) (put_worker t (set_state (ACTIVE (Z.lor (new_phase l) 1)) wk) c)).

Definition sml_gc (t : nat) (greedy : bool) (k : cont) (c : control) : res control :=
  if Z.odd (gc_count c) then Ok c
  else Ok (goto t (GlobalLoad (Lead ASYNC PRESYNC1 SYNC1 greedy k)) (set_gc_count (Z.lor (gc_count c) 1) c)).

(** ** Help for inactive workers *)

(** One turn of the loop of [help_inactive]. *)
Definition help_inactive (t : nat) (old : stamped) (w : option nat) (o : oracle) (c : control) : res control :=
  match w with
  | None =>
      let c := if bool_decide (old.1 ≠ None) && bool_decide (handshake c = old) && negb (weak_fails o)
               then set_handshake (None, old.2) c else c in
      Ok (goto t InML c)
  | Some w =>
      wk ← deref (workers c !! w);
      if dead wk then Ok (goto t (HelpWalk old (wnext wk)) c)
      else if negb (wstate wk =? INACTIVE (Z.ldiff (wstate wk) 1)) then Ok (goto t (HelpWalk old (wnext wk)) c)
      else Ok (goto t (HelpTake old w (wstate wk)) c)
  end.

Definition help_take (t : nat) (old : stamped) (w : nat) (old_state : Z) (o : oracle) (c : control) : res control :=
  wk ← deref (workers c !! w);
  if bool_decide (handshake c = old) && negb (weak_fails o)
  then Ok (goto t (HelpLock w old_state) (set_handshake (wnext wk, old.2) c))
  else Ok (goto t InML c).

Definition help_lock (t w : nat) (old_state : Z) (c : control) : res control :=
  wk ← deref (workers c !! w);
  let new_state := Z.lor (ACTIVE (Z.lor (PHASE old_state) 1)) HELPER_STATE in
  if wstate wk =? old_state
  then Ok (goto t (Act w (PHASE old_state) false (Help w new_state)) (put_worker w (set_state new_state wk) c))
  else Ok (goto t InML c).

Definition help_release (t w : nat) (new_state : Z) (c : control) : res control :=
  wk ← deref (workers c !! w);
  if wstate wk =? new_state
  then Ok (goto t InML (put_worker w (set_state (Z.lxor new_state (Z.lor INACTIVE_STATE HELPER_STATE)) wk) c))
  else Ok (goto t (HelpAgain w (wstate wk)) c).

Definition help_again (t w : nat) (old_state : Z) (c : control) : res control :=
  wk ← deref (workers c !! w);
  let new_state := Z.lor old_state 1 in
  Ok (goto t (Act w (PHASE old_state) false (Help w new_state)) (put_worker w (set_state new_state wk) c)).

(** ** Threads *)

(** [register_worker] after its first load, with the rest of [enter_worker]
    once the new worker is in the list.  When the phase is 0 the thread
    sleeps for ever. *)
Definition register_worker (t : nat) (old : stamped) (next : option nat) (o : oracle) (c : control) : res control :=
  if old.2 =? 0 then Ok (goto t Gone c)
  else
    skipped ← skip_dead next c;
    match skipped with
    | Some next => Ok (goto t (RegisterWalk old next) c)
    | None =>
        if bool_decide (available c = old) && negb (weak_fails o)
        then Ok (goto t InML (set_available (Some t, old.2) (put_worker t (Worker (ACTIVE old.2) 0 0 next) c)))
        else Ok (goto t (RegisterWalk (available c) (available c).1) c)
    end.

(** [enter_worker]: one attempt to take the lock, or the first load of
    [register_worker]. *)
Definition enter_worker (t : nat) (c : control) : res control :=
  match workers c !! t with
  | Some wk =>
      if Z.land (wstate wk) INACTIVE_STATE =? 0 then Ok c
      else Ok (goto t InML (put_worker t (set_state (Z.ldiff (wstate wk) INACTIVE_STATE) wk) c))
  | None => Ok (goto t (RegisterWalk (available c) (available c).1) c)
  end.

Definition leave_worker (t : nat) (c : control) : res control :=
  wk ← deref (workers c !! t);
  assert_that (IS_ACTIVE (wstate wk));;
  let old := wstate wk in
  let c := put_worker t (set_state (Z.lor old (Z.lor INACTIVE_STATE 1)) wk) c in
  if is_signal old then Ok (goto t (Act t old false Leave) c) else Ok (goto t Outside c).

(** The load and the switch of [sml_check_internal]. *)
Definition sml_check_internal (t : nat) (c : control) : res control :=
  wk ← deref (workers c !! t);
  let state := wstate wk in
  assert_that (IS_ACTIVE state);;
  if is_signal state then Ok (goto t (Answer state) c) else Ok (goto t HelpLoad c).

(** The store of [sml_check_internal]. *)
Definition answer_signal (t : nat) (state : Z) (c : control) : res control :=
  wk ← deref (workers c !! t);
  Ok (goto t (Act t state true Resume) (put_worker t (set_state (ACTIVE (Z.lor state 1)) wk) c)).

(** [cancel_worker], when the thread ends. *)
Definition cancel_worker (t : nat) (c : control) : res control :=
  match workers c !! t with
  | Some wk =>
      if IS_ACTIVE (wstate wk) && (Z.land (wstate wk) HELPER_STATE =? 0) then Fatal
      else Ok (goto t Gone (put_worker t (set_flags (Z.lor (wflags wk) CANCELED_FLAG) wk) c))
  | None => Ok (goto t Gone c)
  end.

(** A user context is added to the worker ([sml_start], [sml_enter]). *)
Definition add_user (t : nat) (c : control) : res control :=
  wk ← deref (workers c !! t);
  Ok (put_worker t (set_users (S (wusers wk)) wk) c).

(** ** Steps *)

(** What a thread can do outside of the code of this file ([Run]: its next
    step inside). *)
Inductive command := Enter | Exit | Check | Gc (greedy : bool) | User | Cancel | Run (o : oracle).

Definition step (t : nat) (o : oracle) (c : control) : res control :=
  match pc_of c t with
  | Outside | Gone | InML => Ok c
  | RegisterWalk old next => register_worker t old next o c
  | Answer state => answer_signal t state c
  | Act w phase g k => act t w phase g k o c
  | GlobalLoad l => Ok (goto t (GlobalWalk l (available c) (available c).1) c)
  | GlobalWalk l old ret => global_phase t l old ret o c
  | Change l head prev n => change_phase t l head prev n c
  | Publish l head n => Ok (goto t (AddCount l n) (set_handshake (head, new_phase l) c))
  | AddCount l n =>
      let c := set_check_flag (u32 (check_flag c + n)) c in
      Ok (goto t (if greedy l then Own l else return_to (after l)) c)
  | Own l => own_action t l c
  | Finish k => finish_gc t k c
  | HelpLoad => Ok (goto t (HelpWalk (handshake c) (handshake c).1) c)
  | HelpWalk old w => help_inactive t old w o c
  | HelpTake old w st => help_take t old w st o c
  | HelpLock w st => help_lock t w st c
  | HelpRelease w st => help_release t w st c
  | HelpAgain w st => help_again t w st c
  end.

(** Commands that a thread cannot give where it is change nothing. *)
Definition exec (e : nat * command) (c : control) : res control :=
  let t := e.1 in
  match e.2, pc_of c t with
  | Enter, Outside => enter_worker t c
  | Exit, InML => leave_worker t c
  | Check, InML => sml_check_internal t c
  | Gc g, InML => sml_gc t g Resume c
  | Gc false, Outside => sml_gc t false Leave c
  | User, InML => add_user t c
  | Cancel, Outside => cancel_worker t c
  | Run o, _ => step t o c
  | _, _ => Ok c
  end.

Definition run (es : list (nat * command)) (c : control) : res control :=
  foldl (fun r e => c ← r; exec e c) (Ok c) es.
