(* ===== verification/ControlFacts.v ===== *)
(** * Facts about state words, the list of workers and counting

    What the invariant of ControlInv.v rests on: the bit operations on state
    words, reachability along the [next] pointers, and the number of entries
    of a map with a property. *)
From Stdlib Require Import ZArith Lia.
From stdpp Require Import base option list gmap relations.
From S2P Require Import Prelude Bits Layout Segment Alloc Control.

Local Open Scope Z_scope.

(** ** State words

    The phase in the low bits, and who has the lock: the thread that owns
    the worker, nobody, or a helper. *)
Inductive lock := Owned | Free | Helped.
#[export] Instance lock_eq_dec : EqDecision lock.
Proof. solve_decision. Defined.

Definition word (l : lock) (ph : Z) : Z :=
  match l with Owned => ph | Free => ph + 16 | Helped => ph + 32 end.
Definition is_phase (ph : Z) : Prop := 0 <= ph < 8.
Definition pre (ph : Z) : Prop := ph = 0 \/ ph = 2 \/ ph = 4 \/ ph = 6.
Definition post (ph : Z) : Prop := ph = 1 \/ ph = 3 \/ ph = 5 \/ ph = 7.

Lemma phase_cases ph : is_phase ph -> pre ph \/ post ph.
Proof. unfold is_phase, pre, post. lia. Qed.
Lemma pre_phase ph : pre ph -> is_phase ph.
Proof. unfold is_phase, pre. lia. Qed.
Lemma post_phase ph : post ph -> is_phase ph.
Proof. unfold is_phase, post. lia. Qed.
Lemma pre_post ph : pre ph -> post (ph + 1).
Proof. unfold pre, post. lia. Qed.
Lemma pre_not_post ph : pre ph -> post ph -> False.
Proof. unfold pre, post. lia. Qed.
#[export] Hint Resolve pre_phase post_phase pre_post : runtime.

(** Every phase is one of eight numbers. *)
Ltac phases :=
  repeat match goal with
  | H : is_phase ?p |- _ => apply phase_cases in H as [H|H]
  | H : pre ?p |- _ => destruct H as [->|[->|[->| ->]]]
  | H : post ?p |- _ => destruct H as [->|[->|[->| ->]]]
  end.

Lemma PHASE_word l ph : is_phase ph -> PHASE (word l ph) = ph.
Proof. intros H. destruct l; phases; reflexivity. Qed.
Lemma word_inj l ph l' ph' : is_phase ph -> is_phase ph' -> word l ph = word l' ph' -> l = l' /\ ph = ph'.
Proof. unfold is_phase. destruct l, l'; simpl; intros; split; lia || congruence. Qed.
Lemma IS_ACTIVE_word l ph : is_phase ph -> IS_ACTIVE (word l ph) = bool_decide (l ≠ Free).
Proof. intros H. destruct l; phases; reflexivity. Qed.
Lemma inactive_word l ph : is_phase ph -> (Z.land (word l ph) INACTIVE_STATE =? 0) = bool_decide (l ≠ Free).
Proof. intros H. destruct l; phases; reflexivity. Qed.
Lemma helper_word l ph : is_phase ph -> (Z.land (word l ph) HELPER_STATE =? 0) = bool_decide (l ≠ Helped).
Proof. intros H. destruct l; phases; reflexivity. Qed.
Lemma is_signal_owned ph : is_phase ph -> is_signal (word Owned ph) = Z.even ph.
Proof. intros H. phases; reflexivity. Qed.
Lemma leave_word ph : is_phase ph -> Z.lor (word Owned ph) (Z.lor INACTIVE_STATE 1) = word Free (Z.lor ph 1).
Proof. intros H. phases; reflexivity. Qed.
Lemma enter_word ph : is_phase ph -> Z.ldiff (word Free ph) INACTIVE_STATE = word Owned ph.
Proof. intros H. phases; reflexivity. Qed.
Lemma lor1_pre ph : pre ph -> Z.lor ph 1 = ph + 1.
Proof. intros H. phases; reflexivity. Qed.
Lemma lor1_post ph : post ph -> Z.lor ph 1 = ph.
Proof. intros H. phases; reflexivity. Qed.
Lemma help_word l ph : is_phase ph ->
  (word l ph =? INACTIVE (Z.ldiff (word l ph) 1)) = bool_decide (l = Free) && Z.even ph.
Proof. intros H. destruct l; phases; reflexivity. Qed.
Lemma lock_word ph : pre ph -> Z.lor (ACTIVE (Z.lor (PHASE (word Free ph)) 1)) HELPER_STATE = word Helped (ph + 1).
Proof. intros H. phases; reflexivity. Qed.
Lemma release_word ph : is_phase ph -> Z.lxor (word Helped ph) (Z.lor INACTIVE_STATE HELPER_STATE) = word Free ph.
Proof. intros H. phases; reflexivity. Qed.
Lemma again_word ph : pre ph -> Z.lor (word Helped ph) 1 = word Helped (ph + 1).
Proof. intros H. phases; reflexivity. Qed.
Lemma even_pre ph : is_phase ph -> Z.even ph = true <-> pre ph.
Proof. intros H. phases; simpl; unfold pre; split; intros; lia || congruence. Qed.
Lemma even_post ph : is_phase ph -> Z.even ph = false <-> post ph.
Proof. intros H. phases; simpl; unfold post; split; intros; lia || congruence. Qed.

Lemma post_even ph : post ph -> Z.even ph = false.
Proof. intros H. by phases. Qed.

(** The five changes of phase. *)
Definition lead_ok (l : lead) : Prop :=
  (old_phase l, new_phase l, global l) ∈
    [(ASYNC, PRESYNC1, SYNC1); (SYNC1, PRESYNC2, SYNC2); (SYNC2, PREMARK, MARK); (MARK, PREASYNC, ASYNC); (MARK, PREMARK, MARK)] /\
  (greedy l = true -> after l = Resume).

Ltac lead_cases H :=
  let Hg := fresh "Hg" in
  destruct H as [H Hg];
  repeat (apply elem_of_cons in H as [H|H]; [injection H as ? ? ?|]);
  [.. | by apply not_elem_of_nil in H].

Lemma lead_phases l : lead_ok l -> post (old_phase l) /\ pre (new_phase l) /\ post (global l) /\ global l = new_phase l + 1.
Proof. intros H. unfold post, pre. lead_cases H; repeat match goal with E : _ = _ |- _ => rewrite E end; cbv; intuition congruence. Qed.
Lemma lead_global l : lead_ok l -> (Z.land (global l) (Z.lnot PHASE_MASK) =? 0) && negb (global l =? 0) = true.
Proof. intros H. lead_cases H; repeat match goal with E : _ = _ |- _ => rewrite E end; reflexivity. Qed.
Lemma lead_new l : lead_ok l -> (Z.land (new_phase l) (Z.lnot PHASE_MASK) =? 0) = true.
Proof. intros H. lead_cases H; repeat match goal with E : _ = _ |- _ => rewrite E end; reflexivity. Qed.
Lemma change_word l k : lead_ok l ->
  Z.lxor (word k (old_phase l)) (Z.lxor (old_phase l) (new_phase l)) = word k (new_phase l).
Proof. intros H. destruct k; lead_cases H; repeat match goal with E : _ = _ |- _ => rewrite E end; reflexivity. Qed.
Lemma lead_lor l : lead_ok l -> ACTIVE (Z.lor (new_phase l) 1) = global l.
Proof. intros H. lead_cases H; repeat match goal with E : _ = _ |- _ => rewrite E end; reflexivity. Qed.

(** ** Counting *)
Definition tally {A} (P : A -> bool) (m : gmap nat A) : nat := size (filter (fun kv => P kv.2 = true) m).

Lemma tally_insert {A} (P : A -> bool) (m : gmap nat A) k v :
  (tally P (<[k := v]> m) + Nat.b2n (from_option P false (m !! k)) = tally P m + Nat.b2n (P v))%nat.
Proof.
  unfold tally. destruct (m !! k) as [x|] eqn:Hk; simpl.
  - rewrite <- (insert_id m k x Hk) at 2. rewrite <- (insert_delete_eq m k v), <- (insert_delete_eq m k x).
    pose proof (lookup_delete_eq m k) as Hn. set (m' := delete k m) in *.
    assert (filter (fun kv : nat * A => P kv.2 = true) m' !! k = None) as Hf by (apply map_lookup_filter_None; by left).
    rewrite !map_filter_insert. rewrite !delete_id by done.
    repeat case_decide; simpl in *; rewrite ?map_size_insert, ?Hf; destruct (P v), (P x); simpl; congruence || lia.
  - assert (filter (fun kv : nat * A => P kv.2 = true) m !! k = None) as Hf by (apply map_lookup_filter_None; by left).
    rewrite map_filter_insert. rewrite delete_id by done.
    case_decide; simpl in *; rewrite ?map_size_insert, ?Hf; destruct (P v); simpl; congruence || lia.
Qed.

Lemma tally_zero {A} (P : A -> bool) (m : gmap nat A) : tally P m = 0%nat <-> (forall k v, m !! k = Some v -> P v = false).
Proof.
  unfold tally. rewrite map_size_empty_iff. split.
  - intros He k v Hk. destruct (P v) eqn:Hp; [|done].
    assert (filter (fun kv : nat * A => P kv.2 = true) m !! k = Some v) as Hf by (by apply map_lookup_filter_Some).
    by rewrite He, lookup_empty in Hf.
  - intros H. apply map_eq. intros k. rewrite lookup_empty. apply map_lookup_filter_None. right.
    intros v Hk. simpl. by rewrite (H _ _ Hk).
Qed.

Lemma tally_pos {A} (P : A -> bool) (m : gmap nat A) k v : m !! k = Some v -> P v = true -> (0 < tally P m)%nat.
Proof.
  intros Hk Hp. destruct (decide (tally P m = 0%nat)) as [E|]; [|lia].
  apply (proj1 (tally_zero P m)) with (k := k) (v := v) in E; congruence.
Qed.

(** ** The list of workers *)
Section Reach.
Implicit Types (m : gmap nat worker) (w v : nat).

Definition edge m w v : Prop := exists wk, m !! w = Some wk /\ wnext wk = Some v.
Definition reach m (p : option nat) w : Prop := exists v, p = Some v /\ rtc (edge m) v w.

Lemma reach_none m w : ~ reach m None w.
Proof. by intros (? & ? & _). Qed.
Lemma reach_here m w : reach m (Some w) w.
Proof. exists w. split; [done|apply rtc_refl]. Qed.
Lemma reach_step m w wk v : m !! w = Some wk -> reach m (wnext wk) v -> reach m (Some w) v.
Proof. intros Hw (u & Hu & Hr). exists w. split; [done|]. eapply rtc_l; [by exists wk|done]. Qed.
Lemma reach_inv m w wk v : m !! w = Some wk -> reach m (Some w) v -> v = w \/ reach m (wnext wk) v.
Proof.
  intros Hw (u & [= <-] & Hr). apply rtc_inv in Hr as [->|(x & (wk' & Hw' & Hx) & Hr)]; [by left|].
  right. exists x. split; [congruence|done].
Qed.

Definition ranked m : Prop := exists rank : nat -> nat, forall w v, edge m w v -> (rank v < rank w)%nat.

Lemma ranked_next m w wk : ranked m -> m !! w = Some wk -> ~ reach m (wnext wk) w.
Proof.
  intros [rank Hr] Hw (v & Hv & Hp).
  assert (rank w <= rank v)%nat as Hle.
  { clear Hv Hw. induction Hp as [|x y z Hxy _ IH]; [done|]. specialize (Hr _ _ Hxy). lia. }
  assert (edge m w v) as He by (by exists wk). specialize (Hr _ _ He). lia.
Qed.

(** Only the [next] fields matter. *)
Lemma edge_ext m m' w v : wnext <$> m !! w = wnext <$> m' !! w -> edge m w v -> edge m' w v.
Proof.
  intros E (wk & Hw & Hn). rewrite Hw in E. destruct (m' !! w) as [wk'|] eqn:Hw'; [|done].
  exists wk'. split; [done|]. injection E as E. congruence.
Qed.
Lemma reach_ext m m' p w : (forall w, wnext <$> m !! w = wnext <$> m' !! w) -> reach m p w -> reach m' p w.
Proof.
  intros E (v & Hv & Hr). exists v. split; [done|]. clear Hv.
  induction Hr as [|x y z Hxy _ IH]; [apply rtc_refl|]. eapply rtc_l; [|done]. eauto using edge_ext.
Qed.
Lemma next_insert m w wk wk' : m !! w = Some wk -> wnext wk' = wnext wk ->
  forall v, wnext <$> m !! v = wnext <$> (<[w := wk']> m) !! v.
Proof.
  intros Hw Hn v. destruct (decide (v = w)) as [->|Hne].
  - rewrite lookup_insert_eq, Hw. simpl. by rewrite Hn.
  - by rewrite lookup_insert_ne.
Qed.
Lemma reach_insert m w wk wk' p v : m !! w = Some wk -> wnext wk' = wnext wk -> reach (<[w := wk']> m) p v <-> reach m p v.
Proof. intros Hw Hn. split; apply reach_ext; intros x; [symmetry|]; by eapply next_insert. Qed.
Lemma ranked_insert m w wk wk' : m !! w = Some wk -> wnext wk' = wnext wk -> ranked m -> ranked (<[w := wk']> m).
Proof.
  intros Hw Hn [rank Hr]. exists rank. intros x y Hxy. apply Hr. eapply edge_ext; [|exact Hxy]. symmetry. by eapply next_insert.
Qed.

(** Taking the worker [d] out of the list behind [p]. *)
Lemma edge_unlink m p pk d dk x y : m !! p = Some pk -> wnext pk = Some d -> m !! d = Some dk ->
  edge (<[p := set_next (wnext dk) pk]> m) x y -> edge m x y \/ (x = p /\ edge m d y).
Proof.
  intros Hp Hn Hd (wk & Hx & Hy). destruct (decide (x = p)) as [->|Hne].
  - rewrite lookup_insert_eq in Hx. injection Hx as <-. right. split; [done|]. by exists dk.
  - rewrite lookup_insert_ne in Hx by done. left. by exists wk.
Qed.
Lemma reach_unlink_inv m p pk d dk q w : m !! p = Some pk -> wnext pk = Some d -> m !! d = Some dk ->
  reach (<[p := set_next (wnext dk) pk]> m) q w -> reach m q w.
Proof.
  intros Hp Hn Hd (v & Hv & Hr). exists v. split; [done|]. clear Hv.
  induction Hr as [|x y z Hxy _ IH]; [apply rtc_refl|].
  eapply edge_unlink in Hxy as [Hxy|[-> Hxy]]; [| |done..]; [by eapply rtc_l|].
  eapply rtc_l; [by exists pk|]. by eapply rtc_l.
Qed.
Lemma reach_unlink m p pk d dk q w : ranked m -> m !! p = Some pk -> wnext pk = Some d -> m !! d = Some dk -> w ≠ d ->
  reach m q w -> reach (<[p := set_next (wnext dk) pk]> m) q w.
Proof.
  intros Hrk Hp Hn Hd Hw (v & Hv & Hr). exists v. split; [done|]. clear Hv.
  assert (d ≠ p) as Hdp by (intros ->; eapply (ranked_next m p pk); eauto; rewrite Hn; apply reach_here).
  set (m' := <[p := _]> m) in *.
  induction Hr as [|x y z (xk & Hx & Hy) Hyz IH]; [apply rtc_refl|]. specialize (IH Hw).
  destruct (decide (x = p)) as [->|Hne].
  - rewrite Hp in Hx. injection Hx as <-. rewrite Hn in Hy. injection Hy as <-.
    apply rtc_inv in IH as [->|(u & (dk' & Hd' & Hu) & IH)]; [done|].
    unfold m' in Hd'. rewrite lookup_insert_ne, Hd in Hd' by done. injection Hd' as <-.
    eapply rtc_l; [|exact IH]. exists (set_next (wnext dk) pk). split; [apply lookup_insert_eq|done].
  - eapply rtc_l; [|exact IH]. exists xk. split; [|done]. unfold m'. by rewrite lookup_insert_ne.
Qed.
Lemma ranked_unlink m p pk d dk : m !! p = Some pk -> wnext pk = Some d -> m !! d = Some dk ->
  ranked m -> ranked (<[p := set_next (wnext dk) pk]> m).
Proof.
  intros Hp Hn Hd [rank Hr]. exists rank. intros x y Hxy.
  eapply edge_unlink in Hxy as [Hxy|[-> Hxy]]; [| |done..]; [by apply Hr|].
  assert (edge m p d) as He by (by exists pk). apply Hr in He, Hxy. lia.
Qed.

(** A new worker in front. *)
Definition closed m (p : option nat) : Prop := forall w, p = Some w -> is_Some (m !! w).
Lemma reach_register m t wk p w : m !! t = None -> (forall x xk, m !! x = Some xk -> closed m (wnext xk)) -> closed m p ->
  reach (<[t := wk]> m) p w <-> reach m p w.
Proof.
  intros Ht Hc Hp. split; intros (v & Hv & Hr); exists v; (split; [done|]).
  - specialize (Hp v Hv). clear Hv. induction Hr as [|x y z (xk & Hx & Hy) _ IH]; [apply rtc_refl|].
    rewrite lookup_insert_ne in Hx by (intros ->; destruct Hp; congruence).
    eapply rtc_l; [by exists xk|]. apply IH. by eapply Hc.
  - clear Hv. induction Hr as [|x y z (xk & Hx & Hy) _ IH]; [apply rtc_refl|].
    eapply rtc_l; [|exact IH]. exists xk. split; [|done]. rewrite lookup_insert_ne; [done|]. congruence.
Qed.
Lemma reach_closed m p w : (forall x xk, m !! x = Some xk -> closed m (wnext xk)) -> closed m p -> reach m p w -> is_Some (m !! w).
Proof.
  intros Hc Hp (v & Hv & Hr). specialize (Hp v Hv). clear Hv.
  induction Hr as [|x y z (xk & Hx & Hy) _ IH]; [done|]. apply IH. by eapply Hc.
Qed.
Lemma ranked_register m t wk : m !! t = None -> (forall x xk, m !! x = Some xk -> closed m (wnext xk)) -> closed m (wnext wk) ->
  ranked m -> ranked (<[t := wk]> m).
Proof.
  intros Ht Hc Hwk [rank Hr].
  exists (fun x => if decide (x = t) then S (default 0%nat (rank <$> wnext wk)) else rank x).
  intros x y (xk & Hx & Hy).
  assert (y ≠ t) as Hyt.
  { intros ->. destruct (decide (x = t)) as [->|Hne].
    - rewrite lookup_insert_eq in Hx. injection Hx as <-. destruct (Hwk t Hy). congruence.
    - rewrite lookup_insert_ne in Hx by done. destruct (Hc _ _ Hx t Hy). congruence. }
  rewrite (decide_False _ _ Hyt). destruct (decide (x = t)) as [->|Hne].
  - rewrite lookup_insert_eq in Hx. injection Hx as <-. rewrite Hy. simpl. lia.
  - rewrite lookup_insert_ne in Hx by done. apply Hr. by exists xk.
Qed.
End Reach.
