(* ===== verification/ControlInv.v ===== *)
(** * The invariant of the handshakes

    Four groups of facts about every reachable state of Control.v: who holds
    the lock of a worker ([locks]), how the list of workers is linked
    ([links]), what a thread in the middle of an operation relies on
    ([thread_ok]), and the phases and the counter of the handshake
    ([Stage]). *)
From Stdlib Require Import ZArith Lia.
From stdpp Require Import base option list gmap relations.
From S2P Require Import Prelude Bits Layout Segment Alloc Control ControlFacts.

Local Open Scope Z_scope.

(** ** Views of a thread *)

(** The thread holds the lock of its own worker. *)
Definition inside_cont (k : cont) : bool := match k with Leave => false | _ => true end.
Definition inside (p : pc) : bool :=
  match p with
  | Outside | Gone | RegisterWalk _ _ => false
  | InML | Answer _ | HelpLoad | HelpWalk _ _ | HelpTake _ _ _ | HelpLock _ _ | HelpRelease _ _ | HelpAgain _ _ | Own _ => true
  | Act _ _ _ k | Finish k => inside_cont k
  | GlobalLoad l | GlobalWalk l _ _ | Change l _ _ _ | Publish l _ _ | AddCount l _ => inside_cont (after l)
  end.

(** The worker that the thread holds as a helper. *)
Definition held_cont (k : cont) : option nat := match k with Help w _ => Some w | _ => None end.
Definition held (p : pc) : option nat :=
  match p with
  | Act _ _ _ k | Finish k => held_cont k
  | GlobalLoad l | GlobalWalk l _ _ | Change l _ _ _ | Publish l _ _ | AddCount l _ => held_cont (after l)
  | HelpRelease w _ | HelpAgain w _ => Some w
  | _ => None
  end.

(** The thread is in an action, before the decrement of the counter. *)
Definition is_act (p : pc) : bool := match p with Act _ _ _ _ => true | _ => false end.

(** The thread leads everyone to the next phase, or ends the collection. *)
Definition leading (p : pc) : bool :=
  match p with
  | GlobalLoad _ | GlobalWalk _ _ _ | Change _ _ _ _ | Publish _ _ _ | AddCount _ _ | Finish _ => true
  | _ => false
  end.

(** The worker whose state word must not change under the thread. *)
Definition focus (t : nat) (p : pc) : option nat :=
  match p with
  | Answer _ | Own _ => Some t
  | Act w _ _ _ | HelpAgain w _ => Some w
  | _ => None
  end.

(** ** Locks *)
Definition worker_ok (c : control) (w : nat) (wk : worker) : Prop :=
  exists l ph, is_phase ph /\ wstate wk = word l ph /\
    (inside (pc_of c w) = true <-> l = Owned) /\
    (forall t, held (pc_of c t) = Some w -> l = Helped) /\
    (canceled wk = true -> pc_of c w = Gone) /\
    (dead wk = true -> canceled wk = true /\ post ph).

Record locks (c : control) : Prop := Locks {
  locks_worker : forall w wk, workers c !! w = Some wk -> worker_ok c w wk;
  locks_inside : forall t, inside (pc_of c t) = true -> is_Some (workers c !! t);
  locks_held : forall t w, held (pc_of c t) = Some w -> is_Some (workers c !! w);
  locks_unique : forall t t' w, held (pc_of c t) = Some w -> held (pc_of c t') = Some w -> t = t'
}.

(** ** Links *)
Definition live (m : gmap nat worker) (w : nat) : Prop := exists wk, m !! w = Some wk /\ dead wk = false.

(** What is reached from [p] and alive is reached from [q]. *)
Definition leads_on (m : gmap nat worker) (p q : option nat) : Prop :=
  forall w, live m w -> reach m p w -> reach m q w.

Record links (c : control) : Prop := Links {
  links_closed : forall w wk, workers c !! w = Some wk -> closed (workers c) (wnext wk);
  links_ranked : ranked (workers c);
  links_available : closed (workers c) (available c).1;
  links_handshake : closed (workers c) (handshake c).1;
  links_all : forall w, live (workers c) w -> reach (workers c) (available c).1 w
}.

(** ** Threads *)
Definition state_is (m : gmap nat worker) (w : nat) (s : Z) : Prop :=
  exists wk, m !! w = Some wk /\ dead wk = false /\ wstate wk = s.

Definition after_ok (m : gmap nat worker) (k : cont) : Prop :=
  match k with
  | Help w ns =>
      exists ph wk, post ph /\ ns = word Helped ph /\ m !! w = Some wk /\
        (wstate wk = ns \/ exists ph', pre ph' /\ wstate wk = word Helped ph')
  | _ => True
  end.

Definition lock_of (k : cont) : lock := match k with Resume => Owned | Leave => Free | Help _ _ => Helped end.
Definition acting (m : gmap nat worker) (t w : nat) (s : Z) (k : cont) : Prop :=
  w = default t (held_cont k) /\ state_is m w (word (lock_of k) (s + 1)) /\
  forall w' ns, k = Help w' ns -> ns = word Helped (s + 1).

Definition thread_ok (m : gmap nat worker) (t : nat) (p : pc) : Prop :=
  match p with
  | Outside | Gone | InML | HelpLoad => True
  | RegisterWalk old next => m !! t = None /\ closed m old.1 /\ closed m next /\ leads_on m old.1 next
  | Answer s => pre s /\ state_is m t (word Owned s)
  | Act w s g k => pre s /\ acting m t w s k /\ (g = true -> k = Resume)
  | GlobalLoad l | AddCount l _ => lead_ok l /\ after_ok m (after l)
  | GlobalWalk l old ret => lead_ok l /\ after_ok m (after l) /\ closed m old.1 /\ closed m ret /\ leads_on m old.1 ret
  | Change l head prev _ =>
      lead_ok l /\ after_ok m (after l) /\ closed m head /\ closed m prev /\
      (prev = None -> forall w wk, head = Some w -> m !! w = Some wk -> dead wk = false)
  | Publish l head _ => lead_ok l /\ after_ok m (after l) /\ closed m head
  | Own l => lead_ok l /\ after l = Resume /\ state_is m t (word Owned (new_phase l))
  | Finish k => after_ok m k
  | HelpWalk old w => closed m old.1 /\ closed m w
  | HelpTake old w st => is_Some (m !! w) /\ exists ph, pre ph /\ st = word Free ph
  | HelpLock w st => is_Some (m !! w) /\ exists ph, pre ph /\ st = word Free ph
  | HelpRelease w ns => after_ok m (Help w ns)
  | HelpAgain w st => exists ph, pre ph /\ st = word Helped ph /\ state_is m w st
  end.

(** ** Phases and the counter *)

(** A signal that the worker has not accepted. *)
Definition signalled (wk : worker) : bool := negb (dead wk) && Z.even (PHASE (wstate wk)).

(** Responses that the handshake waits for. *)
Definition outstanding (c : control) : Z :=
  Z.of_nat (tally signalled (workers c)) + Z.of_nat (tally is_act (pcs c)).

(** Responses that [change_phase] has asked for and not yet counted. *)
Definition debt (p : pc) : Z :=
  match p with Change _ _ _ n | Publish _ _ n | AddCount _ n => n | _ => 0 end.

(** [*i] of [change_phase]. *)
Definition position (m : gmap nat worker) (head prev : option nat) : option nat :=
  match prev with None => head | Some p => m !! p ≫= wnext end.

Definition idle (c : control) (w : nat) : Prop := forall t s g k, pc_of c t ≠ Act w s g k.

(** The phase [ph] of a live worker [w]. *)
Definition phase_ok (c : control) (p : pc) (w : nat) (ph : Z) : Prop :=
  match p with
  | GlobalLoad l | GlobalWalk l _ _ => ph = old_phase l
  | Finish _ => ph = ASYNC
  | Change l head prev _ =>
      let i := position (workers c) head prev in
      (reach (workers c) i w /\ ph = old_phase l /\ idle c w) \/
      (~ reach (workers c) i w /\ (ph = new_phase l \/ ph = global l))
  | Publish l _ _ | AddCount l _ => ph = new_phase l \/ ph = global l
  | _ => ph + 1 = (available c).2 \/ ph = (available c).2
  end.

Definition all_live (m : gmap nat worker) (P : nat -> Z -> Prop) : Prop :=
  forall w wk, m !! w = Some wk -> dead wk = false -> P w (PHASE (wstate wk)).

(** [xs] are the workers that [change_phase] has changed. *)
Definition progress (N : Z) (c : control) (p : pc) : Prop :=
  match p with
  | GlobalLoad l | GlobalWalk l _ _ => outstanding c = 0 /\ (available c).2 = old_phase l
  | Finish _ => outstanding c = 0 /\ (available c).2 = ASYNC
  | Change l head prev n =>
      (available c).2 = global l /\ outstanding c <= n /\
      exists xs, NoDup xs /\ Z.of_nat (length xs) = n /\
        forall x, x ∈ xs -> is_Some (workers c !! x) /\ ~ reach (workers c) (position (workers c) head prev) x
  | Publish l _ n | AddCount l n => (available c).2 = global l /\ outstanding c <= n <= N
  | _ => outstanding c <= N /\ (Z.odd (gc_count c) = true \/ (outstanding c = 0 /\ (available c).2 = ASYNC))
  end.

(** The worker of a greedy leader, whose phase nobody else changes. *)
Definition own_ok (c : control) (t : nat) (p : pc) : Prop :=
  match p with
  | Change l head prev _ => greedy l = true ->
      forall wk, workers c !! t = Some wk ->
        reach (workers c) (position (workers c) head prev) t \/ PHASE (wstate wk) = new_phase l
  | Publish l _ _ | AddCount l _ => greedy l = true ->
      forall wk, workers c !! t = Some wk -> PHASE (wstate wk) = new_phase l
  | _ => True
  end.

Record Stage (N : Z) (c : control) (t : nat) : Prop := MkStage {
  stage_unique : forall t', leading (pc_of c t') = true -> t' = t;
  stage_odd : leading (pc_of c t) = true -> Z.odd (gc_count c) = true;
  stage_post : post (available c).2;
  stage_acts : forall t' w s g k, pc_of c t' = Act w s g k -> s + 1 = (available c).2;
  stage_flag : check_flag c = u32 (outstanding c - debt (pc_of c t));
  stage_progress : progress N c (pc_of c t);
  stage_phases : all_live (workers c) (phase_ok c (pc_of c t));
  stage_own : own_ok c t (pc_of c t)
}.

(** All workers belong to threads with numbers below [N]. *)
Record Inv (N : Z) (c : control) : Prop := MkInv {
  inv_locks : locks c;
  inv_links : links c;
  inv_threads : forall t, thread_ok (workers c) t (pc_of c t);
  inv_stage : exists t, Stage N c t;
  inv_bound : forall w, is_Some (workers c !! w) -> Z.of_nat w < N
}.

Lemma pc_goto c t p t' : pc_of (goto t p c) t' = if decide (t' = t) then p else pc_of c t'.
Proof.
  unfold pc_of, goto. simpl. case_decide as E; [subst; by rewrite lookup_insert_eq|by rewrite lookup_insert_ne].
Qed.
Lemma pc_goto_eq c t p : pc_of (goto t p c) t = p.
Proof. rewrite pc_goto. by rewrite decide_True. Qed.
Lemma pc_goto_ne c t p t' : t' ≠ t -> pc_of (goto t p c) t' = pc_of c t'.
Proof. intros. rewrite pc_goto. by rewrite decide_False. Qed.

Lemma init_inv N : 0 <= N -> Inv N init_control.
Proof.
  intros HN. assert (forall t, pc_of init_control t = Outside) as Hpc by (intros; unfold pc_of; simpl; by rewrite lookup_empty).
  split.
  - split; intros; simpl in *; rewrite ?Hpc, ?lookup_empty in *; simpl in *; done.
  - split; simpl.
    + intros w wk H. by rewrite lookup_empty in H.
    + exists (fun _ => 0%nat). intros w v (wk & H & _). by rewrite lookup_empty in H.
    + done.
    + done.
    + intros w (wk & H & _). by rewrite lookup_empty in H.
  - intros t. by rewrite Hpc.
  - exists 0%nat. split; rewrite ?Hpc; simpl.
    + intros t'. by rewrite Hpc.
    + done.
    + left; reflexivity.
    + intros t' w s g k. by rewrite Hpc.
    + reflexivity.
    + split; [done|]. right. by split.
    + intros w wk H. simpl in H. by rewrite lookup_empty in H.
    + done.
  - simpl. intros w H. rewrite lookup_empty in H. by destruct H.
Qed.
