(* ===== verification/ControlFrame.v ===== *)
(** * Frame lemmas of the handshake invariant

    How the parts of the invariant survive the kinds of change that a step
    makes: a thread that moves on, a new state word or flag of one worker, a
    worker taken out of the list, a new worker. *)
From Stdlib Require Import ZArith Lia.
From stdpp Require Import base option list gmap relations.
From S2P Require Import Prelude Bits Layout Segment Alloc Control ControlFacts ControlInv.

Local Open Scope Z_scope.

(** ** Threads *)
Lemma closed_mono m m' p : (forall x, is_Some (m !! x) -> is_Some (m' !! x)) -> closed m p -> closed m' p.
Proof. intros H Hc w Hw. by apply H, Hc. Qed.

Lemma closed_put m w (wk : worker) p : closed m p -> closed (<[w := wk]> m) p.
Proof.
  apply closed_mono. intros x Hx. destruct (decide (x = w)) as [->|]; [rewrite lookup_insert_eq|rewrite lookup_insert_ne by done]; eauto.
Qed.
#[export] Hint Resolve closed_put : runtime.

(** What a thread relies on depends on a few facts about the workers. *)
Lemma thread_ok_mono m m' t p :
  (forall x, is_Some (m !! x) -> is_Some (m' !! x)) ->
  (forall q r, closed m q -> closed m r -> leads_on m q r -> leads_on m' q r) ->
  (forall x xk, focus t p = Some x -> m !! x = Some xk ->
     exists xk', m' !! x = Some xk' /\ wstate xk' = wstate xk /\ dead xk' = dead xk) ->
  (forall x xk, held p = Some x -> m !! x = Some xk ->
     exists xk', m' !! x = Some xk' /\ (wstate xk' = wstate xk \/ exists ph', pre ph' /\ wstate xk' = word Helped ph')) ->
  (leading p = true -> forall x xk xk', m !! x = Some xk -> m' !! x = Some xk' -> dead xk = false -> dead xk' = false) ->
  (m !! t = None -> m' !! t = None) ->
  thread_ok m t p -> thread_ok m' t p.
Proof.
  intros Hdom Hon Hf Hh Hl Hn.
  assert (forall q, closed m q -> closed m' q) as Hc by (intros q; by apply closed_mono).
  assert (forall x s, focus t p = Some x -> state_is m x s -> state_is m' x s) as Hs.
  { intros x s Hx (xk & Hk & Hd & <-). destruct (Hf x xk Hx Hk) as (xk' & Hk' & Hs' & Hd'). exists xk'. rewrite Hd', Hs'. done. }
  assert (forall k, held_cont k = held p -> after_ok m k -> after_ok m' k) as Ha.
  { intros [| |w ns]; simpl; [done..|]. intros Hp (ph & wk & Hph & Hns & Hk & Hor).
    destruct (Hh w wk (eq_sym Hp) Hk) as (wk' & Hk' & Hor'). exists ph, wk'. repeat split; [done..|].
    destruct Hor' as [->|]; [done|by right]. }
  destruct p; simpl in *; try tauto.
  - (* RegisterWalk *) intros (? & ? & ? & ?). split_and!; auto.
  - (* Answer *) intros (? & ?). split; auto.
  - (* Act *) intros (? & (? & ? & ?) & ?). split_and!; auto. split_and!; auto.
  - (* GlobalLoad *) intros (? & ?). split_and!; auto.
  - (* GlobalWalk *) intros (? & ? & ? & ? & ?). split_and!; auto.
  - (* Change *) intros (? & ? & Hc1 & ? & Hhead). split_and!; auto.
    intros Hnone w wk' Hw Hk'. destruct (Hc1 w Hw) as [wk Hk]. eauto.
  - (* Publish *) intros (? & ? & ?). split_and!; auto.
  - (* AddCount *) intros (? & ?). split_and!; auto.
  - (* Own *) intros (? & ? & ?). split_and!; auto.
  - (* Finish *) auto.
  - (* HelpWalk *) intros (? & ?). split_and!; auto.
  - (* HelpTake *) intros (? & ?). split_and!; auto.
  - (* HelpLock *) intros (? & ?). split_and!; auto.
  - (* HelpRelease *) intros Hx. by apply (Ha (Help w new_state)).
  - (* HelpAgain *) intros (ph & ? & ? & ?). exists ph. split_and!; auto.
Qed.

Lemma thread_ok_put m t p w wk wk' :
  m !! w = Some wk -> wnext wk' = wnext wk -> (dead wk' = false -> dead wk = false) ->
  (focus t p = Some w -> wstate wk' = wstate wk /\ dead wk' = dead wk) ->
  (held p = Some w -> wstate wk' = wstate wk \/ exists ph', pre ph' /\ wstate wk' = word Helped ph') ->
  (leading p = true -> dead wk = false -> dead wk' = false) ->
  thread_ok m t p -> thread_ok (<[w := wk']> m) t p.
Proof.
  intros Hw Hn Hlive Hf Hh Hl.
  assert (forall x xk (P : worker -> Prop), m !! x = Some xk -> P xk -> (x = w -> P wk') ->
            exists xk', <[w := wk']> m !! x = Some xk' /\ P xk') as Hput.
  { intros x xk P Hx HP HP'. destruct (decide (x = w)) as [->|Hne].
    - exists wk'. rewrite lookup_insert_eq. auto.
    - exists xk. by rewrite lookup_insert_ne. }
  apply thread_ok_mono.
  - intros x [xk Hx]. destruct (Hput x xk (fun _ => True)) as (xk' & Hk' & _); eauto.
  - intros q r _ _ Hqr x (xk & Hx & Hd) Hq. rewrite reach_insert in * by done. apply Hqr; [|done].
    destruct (decide (x = w)) as [->|Hne].
    + rewrite lookup_insert_eq in Hx. injection Hx as <-. exists wk. auto.
    + rewrite lookup_insert_ne in Hx by done. by exists xk.
  - intros x xk Hx Hk. apply (Hput x xk (fun k => wstate k = wstate xk /\ dead k = dead xk)); [done..|].
    intros ->. rewrite Hw in Hk. injection Hk as <-. auto.
  - intros x xk Hx Hk.
    apply (Hput x xk (fun k => wstate k = wstate xk \/ exists ph', pre ph' /\ wstate k = word Helped ph')); [by auto..|].
    intros ->. rewrite Hw in Hk. injection Hk as <-. auto.
  - intros Hlead x xk xk' Hk Hk' Hd. destruct (decide (x = w)) as [->|Hne].
    + rewrite lookup_insert_eq in Hk'. injection Hk' as <-. apply Hl; congruence.
    + rewrite lookup_insert_ne in Hk' by done. congruence.
  - intros Hnone. rewrite lookup_insert_ne; congruence.
Qed.

Lemma thread_ok_unlink m t p q qk d dk :
  ranked m -> m !! q = Some qk -> wnext qk = Some d -> m !! d = Some dk -> dead dk = true ->
  thread_ok m t p -> thread_ok (<[q := set_next (wnext dk) qk]> m) t p.
Proof.
  intros Hrk Hq Hn Hd Hdead.
  assert (forall x xk (P : worker -> Prop), m !! x = Some xk -> P xk -> (x = q -> P (set_next (wnext dk) qk)) ->
            exists xk', <[q := set_next (wnext dk) qk]> m !! x = Some xk' /\ P xk') as Hput.
  { intros x xk P Hx HP HP'. destruct (decide (x = q)) as [->|Hne]; [eexists; rewrite lookup_insert_eq|exists xk; rewrite lookup_insert_ne by done]; auto. }
  apply thread_ok_mono.
  - intros x [xk Hx]. destruct (Hput x xk (fun _ => True)) as (xk' & Hk' & _); eauto.
  - intros a b _ _ Hab x (xk & Hx & Hl) Ha.
    assert (live m x) as Hlive.
    { destruct (decide (x = q)) as [->|Hne].
      - rewrite lookup_insert_eq in Hx. injection Hx as <-. exists qk. by destruct qk.
      - rewrite lookup_insert_ne in Hx by done. by exists xk. }
    apply (reach_unlink m q qk d dk); [done..| |].
    + intros ->. destruct Hlive as (? & ? & ?). congruence.
    + apply Hab; [done|]. by eapply (reach_unlink_inv m q qk d dk).
  - intros x xk Hx Hk. apply (Hput x xk (fun k => wstate k = wstate xk /\ dead k = dead xk)); [done..|].
    intros ->. rewrite Hq in Hk. injection Hk as <-. by destruct qk.
  - intros x xk Hx Hk.
    apply (Hput x xk (fun k => wstate k = wstate xk \/ exists ph', pre ph' /\ wstate k = word Helped ph')); [by auto..|].
    intros ->. rewrite Hq in Hk. injection Hk as <-. left. by destruct qk.
  - intros Hlead x xk xk' Hk Hk' Hx. destruct (decide (x = q)) as [->|Hne].
    + rewrite lookup_insert_eq in Hk'. injection Hk' as <-. rewrite Hq in Hk. injection Hk as <-. by destruct qk.
    + rewrite lookup_insert_ne in Hk' by done. congruence.
  - intros Hnone. rewrite lookup_insert_ne; congruence.
Qed.

Lemma thread_ok_register m t p t0 wk0 :
  m !! t0 = None -> (forall x xk, m !! x = Some xk -> closed m (wnext xk)) -> t ≠ t0 ->
  thread_ok m t p -> thread_ok (<[t0 := wk0]> m) t p.
Proof.
  intros Ht0 Hc Hne.
  assert (forall x xk, m !! x = Some xk -> <[t0 := wk0]> m !! x = Some xk) as Hput
    by (intros x xk Hx; rewrite lookup_insert_ne; [done|congruence]).
  apply thread_ok_mono.
  - intros x [xk Hx]. eauto.
  - intros q r Hcq Hcr Hqr x (xk & Hx & Hl) Hq. rewrite reach_register in * by done.
    apply Hqr; [|done]. destruct (decide (x = t0)) as [->|Hx0].
    + apply reach_closed in Hq as [? ?]; [congruence|done..].
    + rewrite lookup_insert_ne in Hx by done. by exists xk.
  - eauto.
  - eauto.
  - intros _ x xk xk' Hx Hx' Hd. apply Hput in Hx. congruence.
  - intros Hn. by rewrite lookup_insert_ne.
Qed.

(** Nobody else relies on the state of a worker whose lock [t0] has, or
    that is free with a signal that nobody has accepted. *)
Lemma focus_word m t p w : thread_ok m t p -> focus t p = Some w ->
  exists l ph, is_phase ph /\ state_is m w (word l ph) /\
    (l = Owned -> w = t) /\ (l = Free -> w = t /\ post ph) /\ (l = Helped -> held p = Some w).
Proof.
  destruct p; simpl; try done.
  - intros [Hs Hst] [= <-]. exists Owned, state. split_and!; eauto with runtime; done.
  - intros (Hs & (-> & Hst & _) & _) [= <-]. exists (lock_of k), (phase + 1). split_and!; eauto with runtime.
    all: destruct k; simpl; try done. split; [done|]. eauto with runtime.
  - intros (Hl & _ & Hst) [= <-]. exists Owned, (new_phase l). split_and!; eauto; try done.
    apply lead_phases in Hl. destruct Hl as (_ & ? & _). eauto with runtime.
  - intros (ph & Hph & -> & Hst) [= <-]. exists Helped, ph. split_and!; eauto with runtime; done.
Qed.

Definition owns (c : control) (t0 w : nat) (l : lock) (ph : Z) : Prop :=
  (l = Owned -> w = t0) /\ (l = Helped -> held (pc_of c t0) = Some w) /\ (l = Free -> w = t0 \/ pre ph).

Lemma exclusive c t0 w wk l ph t : locks c -> thread_ok (workers c) t (pc_of c t) ->
  workers c !! w = Some wk -> is_phase ph -> wstate wk = word l ph -> owns c t0 w l ph -> t ≠ t0 ->
  focus t (pc_of c t) ≠ Some w /\ held (pc_of c t) ≠ Some w.
Proof.
  intros HL Ht Hw Hph Hs (Ho & Hh & Hf) Hne.
  assert (held (pc_of c t) ≠ Some w) as Hheld.
  { intros E. destruct (locks_worker c HL w wk Hw) as (l' & ph' & Hph' & Hs' & _ & Hheld & _).
    rewrite Hs in Hs'. apply word_inj in Hs' as [<- <-]; [|done..].
    rewrite (Hheld _ E) in Hh. apply Hne. eapply locks_unique; eauto. }
  split; [|done]. intros E.
  destruct (focus_word _ _ _ _ Ht E) as (l' & ph' & Hph' & (wk' & Hw' & _ & Hs') & H1 & H2 & H3).
  rewrite Hw in Hw'. injection Hw' as <-. rewrite Hs in Hs'. apply word_inj in Hs' as [<- <-]; [|done..].
  destruct l.
  - specialize (Ho eq_refl). specialize (H1 eq_refl). congruence.
  - destruct (H2 eq_refl) as [-> Hpost]. destruct (Hf eq_refl) as [|Hpre]; [congruence|]. by eapply pre_not_post.
  - auto.
Qed.

(** ** Steps

    [c'] is the state after a step of the thread [t0] that ends at [p0]. *)
Lemma pc_step c c' t0 p0 t : pcs c' = <[t0 := p0]> (pcs c) -> pc_of c' t = if decide (t = t0) then p0 else pc_of c t.
Proof.
  intros E. unfold pc_of. rewrite E. case_decide as D; [subst; by rewrite lookup_insert_eq|by rewrite lookup_insert_ne].
Qed.

(** Takes a fact about the threads of [c'] apart. *)
Ltac step_cases E t :=
  rewrite (pc_step _ _ _ _ t E) in *; destruct (decide (t = _)) as [->|].

Lemma locks_goto c c' t0 p0 : locks c -> workers c' = workers c -> pcs c' = <[t0 := p0]> (pcs c) ->
  inside p0 = inside (pc_of c t0) -> held p0 = held (pc_of c t0) -> pc_of c t0 ≠ Gone -> locks c'.
Proof.
  intros HL Hm E Hi Hh Hg.
  assert (forall t, inside (pc_of c' t) = inside (pc_of c t)) as Hi'
    by (intros t; rewrite (pc_step _ _ _ _ t E); case_decide; congruence).
  assert (forall t, held (pc_of c' t) = held (pc_of c t)) as Hh'
    by (intros t; rewrite (pc_step _ _ _ _ t E); case_decide; congruence).
  split; rewrite ?Hm.
  - intros w wk Hw. destruct (locks_worker c HL w wk Hw) as (l & ph & ? & ? & ? & Hheld & Hc & ?).
    exists l, ph. rewrite Hi'. split_and!; auto.
    + intros t. rewrite Hh'. apply Hheld.
    + intros Hcan. rewrite (pc_step _ _ _ _ w E). case_decide as D; [|auto]. subst. by apply Hc in Hcan.
  - intros t. rewrite Hi'. apply locks_inside, HL.
  - intros t w. rewrite Hh'. apply locks_held, HL.
  - intros t t' w. rewrite !Hh'. apply locks_unique, HL.
Qed.

(** The state of one worker changes, its lock does not. *)
Lemma locks_same c c' t0 p0 w wk wk' : locks c -> workers c !! w = Some wk ->
  workers c' = <[w := wk']> (workers c) -> pcs c' = <[t0 := p0]> (pcs c) ->
  inside p0 = inside (pc_of c t0) -> held p0 = held (pc_of c t0) -> pc_of c t0 ≠ Gone ->
  (canceled wk' = true -> canceled wk = true) ->
  (forall l ph, is_phase ph -> wstate wk = word l ph -> (dead wk = true -> canceled wk = true /\ post ph) ->
     exists ph', is_phase ph' /\ wstate wk' = word l ph' /\ (dead wk' = true -> canceled wk' = true /\ post ph')) ->
  locks c'.
Proof.
  intros HL Hw Hm E Hi Hh Hg Hcan Hst.
  assert (forall t, inside (pc_of c' t) = inside (pc_of c t)) as Hi'
    by (intros t; rewrite (pc_step _ _ _ _ t E); case_decide; congruence).
  assert (forall t, held (pc_of c' t) = held (pc_of c t)) as Hh'
    by (intros t; rewrite (pc_step _ _ _ _ t E); case_decide; congruence).
  assert (forall x, is_Some (workers c !! x) -> is_Some (workers c' !! x)) as Hdom.
  { intros x Hx. rewrite Hm. destruct (decide (x = w)) as [->|]; [rewrite lookup_insert_eq|rewrite lookup_insert_ne by done]; eauto. }
  assert (forall x, pc_of c x = Gone -> pc_of c' x = Gone) as Hgone.
  { intros x Hx. rewrite (pc_step _ _ _ _ x E). case_decide; congruence. }
  split.
  - intros x xk Hx. rewrite Hm in Hx. apply lookup_insert_Some in Hx as [[<- <-]|[Hne Hx]].
    + destruct (locks_worker c HL w wk Hw) as (l & ph & Hph & Hs & Hin & Hheld & Hc & Hd).
      destruct (Hst l ph Hph Hs Hd) as (ph' & ? & ? & ?). exists l, ph'. rewrite Hi'. split_and!; auto.
      intros t. rewrite Hh'. apply Hheld.
    + destruct (locks_worker c HL x xk Hx) as (l & ph & ? & ? & ? & Hheld & Hc & ?).
      exists l, ph. rewrite Hi'. split_and!; auto. intros t. rewrite Hh'. apply Hheld.
  - intros t. rewrite Hi'. intros. by apply Hdom, locks_inside.
  - intros t x. rewrite Hh'. intros. by eapply Hdom, locks_held.
  - intros t t' x. rewrite !Hh'. apply locks_unique, HL.
Qed.

(** The lock of one worker changes hands. *)
Lemma locks_change c c' t0 p0 w wk wk' l ph l' ph' :
  locks c -> (forall t, thread_ok (workers c) t (pc_of c t)) -> workers c !! w = Some wk ->
  workers c' = <[w := wk']> (workers c) -> pcs c' = <[t0 := p0]> (pcs c) ->
  is_phase ph -> is_phase ph' -> wstate wk = word l ph -> wstate wk' = word l' ph' -> owns c t0 w l ph ->
  wflags wk' = wflags wk -> (dead wk = true -> post ph') -> pc_of c t0 ≠ Gone ->
  (if decide (w = t0) then inside p0 = true <-> l' = Owned
   else inside p0 = inside (pc_of c t0) /\ l ≠ Owned /\ l' ≠ Owned) ->
  (forall x, held p0 = Some x -> if decide (x = w) then l' = Helped else held (pc_of c t0) = Some x) ->
  locks c'.
Proof.
  intros HL HT Hw Hm E Hph Hph' Hs Hs' Hown Hfl Hdead Hg Hin Hheld.
  assert (forall t, t ≠ t0 -> held (pc_of c t) ≠ Some w) as Hex by (intros t Hne; by apply (exclusive c t0 w wk l ph t)).
  assert (forall x, is_Some (workers c !! x) -> is_Some (workers c' !! x)) as Hdom.
  { intros x Hx. rewrite Hm. destruct (decide (x = w)) as [->|]; [rewrite lookup_insert_eq|rewrite lookup_insert_ne by done]; eauto. }
  assert (forall x, pc_of c x = Gone -> pc_of c' x = Gone) as Hgone.
  { intros x Hx. rewrite (pc_step _ _ _ _ x E). destruct (decide (x = t0)); congruence. }
  assert (canceled wk' = canceled wk /\ dead wk' = dead wk) as [Hcan Hdd] by (unfold canceled, dead; by rewrite Hfl).
  destruct (locks_worker c HL w wk Hw) as (l1 & ph1 & Hph1 & Hs1 & Hin1 & Hheld1 & Hc1 & Hd1).
  rewrite Hs in Hs1. apply word_inj in Hs1 as [<- <-]; [|done..].
  split.
  - intros x xk Hx. rewrite Hm in Hx. apply lookup_insert_Some in Hx as [[<- <-]|[Hne Hx]].
    + exists l', ph'. split_and!; auto.
      * rewrite (pc_step _ _ _ _ w E). destruct (decide (w = t0)); [done|].
        destruct Hin as (_ & ? & ?). rewrite Hin1. split; intros ?; contradiction.
      * intros t. rewrite (pc_step _ _ _ _ t E). destruct (decide (t = t0)) as [D|D]; [|intros Ht; by apply Hex in Ht].
        intros Ht. apply Hheld in Ht. by rewrite decide_True in Ht.
      * rewrite Hcan. auto.
      * rewrite Hcan, Hdd. intros Hd. split; [by apply Hd1|auto].
    + destruct (locks_worker c HL x xk Hx) as (l2 & ph2 & ? & ? & Hin2 & Hheld2 & Hc2 & ?).
      exists l2, ph2. split_and!; auto.
      * rewrite (pc_step _ _ _ _ x E). destruct (decide (x = t0)) as [->|]; [|done].
        rewrite decide_False in Hin by done. destruct Hin as (-> & _). done.
      * intros t. rewrite (pc_step _ _ _ _ t E). destruct (decide (t = t0)) as [D|D]; [|apply Hheld2].
        intros Ht. apply Hheld in Ht. rewrite decide_False in Ht by done. by apply Hheld2 in Ht.
  - intros t. rewrite (pc_step _ _ _ _ t E). destruct (decide (t = t0)) as [D|D]; intros Ht; apply Hdom; [|by apply locks_inside].
    subst t. destruct (decide (w = t0)) as [<-|]; [by eexists|]. destruct Hin as (Hin & _). apply locks_inside; congruence.
  - intros t x. rewrite (pc_step _ _ _ _ t E). destruct (decide (t = t0)) as [D|D]; intros Ht; apply Hdom; [|by eapply locks_held].
    apply Hheld in Ht. destruct (decide (x = w)) as [->|]; [by eexists|by eapply locks_held].
  - assert (forall t x, t ≠ t0 -> held p0 = Some x -> held (pc_of c t) ≠ Some x) as Hu.
    { intros t x Hne Hx Ht. apply Hheld in Hx. destruct (decide (x = w)) as [->|]; [by eapply Hex|].
      apply Hne. by eapply locks_unique. }
    intros t t' x. rewrite !(pc_step _ _ _ _ _ E). destruct (decide (t = t0)), (decide (t' = t0)); intros H1 H2; subst; try done.
    + by apply Hu in H2.
    + by apply Hu in H1.
    + by eapply locks_unique.
Qed.

Lemma threads_goto c c' t0 p0 : (forall t, thread_ok (workers c) t (pc_of c t)) ->
  workers c' = workers c -> pcs c' = <[t0 := p0]> (pcs c) -> thread_ok (workers c) t0 p0 ->
  forall t, thread_ok (workers c') t (pc_of c' t).
Proof. intros HT Hm E H0 t. rewrite Hm, (pc_step _ _ _ _ t E). by case_decide; subst. Qed.

(** [t0] changes a worker that nobody else relies on. *)
Lemma threads_put c c' t0 p0 w wk wk' l ph : locks c -> (forall t, thread_ok (workers c) t (pc_of c t)) ->
  workers c !! w = Some wk -> workers c' = <[w := wk']> (workers c) -> pcs c' = <[t0 := p0]> (pcs c) ->
  is_phase ph -> wstate wk = word l ph -> owns c t0 w l ph ->
  wnext wk' = wnext wk -> dead wk' = dead wk -> thread_ok (workers c') t0 p0 ->
  forall t, thread_ok (workers c') t (pc_of c' t).
Proof.
  intros HL HT Hw Hm E Hph Hs Hown Hn Hd H0 t. rewrite (pc_step _ _ _ _ t E).
  destruct (decide (t = t0)) as [->|Hne]; [done|].
  destruct (exclusive c t0 w wk l ph t) as [Hf Hh]; try done. rewrite Hm.
  apply (thread_ok_put _ _ _ _ wk); auto; congruence || (intros; contradiction).
Qed.

(** Flags and users may change at any time. *)
Lemma threads_flags c c' t0 p0 w wk wk' : (forall t, thread_ok (workers c) t (pc_of c t)) ->
  workers c !! w = Some wk -> workers c' = <[w := wk']> (workers c) -> pcs c' = <[t0 := p0]> (pcs c) ->
  wstate wk' = wstate wk -> wnext wk' = wnext wk -> dead wk' = dead wk -> thread_ok (workers c') t0 p0 ->
  forall t, thread_ok (workers c') t (pc_of c' t).
Proof.
  intros HT Hw Hm E Hs Hn Hd H0 t. rewrite (pc_step _ _ _ _ t E).
  destruct (decide (t = t0)) as [->|Hne]; [done|]. rewrite Hm.
  apply (thread_ok_put _ _ _ _ wk); auto; congruence.
Qed.

Lemma leads_on_put m w wk wk' p q : m !! w = Some wk -> wnext wk' = wnext wk -> (dead wk' = false -> dead wk = false) ->
  leads_on m p q -> leads_on (<[w := wk']> m) p q.
Proof.
  intros Hw Hn Hd Hpq x (xk & Hx & Hl) Hp. rewrite reach_insert in * by done. apply Hpq; [|done].
  apply lookup_insert_Some in Hx as [[-> ->]|[Hne Hx]]; [exists wk; auto|by exists xk].
Qed.

(** Changing a worker keeps the set of workers. *)
Lemma bound_put N (m : gmap nat worker) w (wk wk' : worker) : m !! w = Some wk -> (forall x, is_Some (m !! x) -> Z.of_nat x < N) ->
  forall x, is_Some (<[w := wk']> m !! x) -> Z.of_nat x < N.
Proof. intros Hw HB x [<-|[_ Hx]]%lookup_insert_is_Some; apply HB; eauto. Qed.

(** ** Links *)
Lemma links_goto c c' : links c -> workers c' = workers c -> available c' = available c ->
  closed (workers c) (handshake c').1 -> links c'.
Proof. intros [] Hm Ha Hh. split; rewrite ?Hm, ?Ha; done. Qed.

Lemma links_put c c' w wk wk' : links c -> workers c !! w = Some wk -> workers c' = <[w := wk']> (workers c) ->
  available c' = available c -> handshake c' = handshake c -> wnext wk' = wnext wk ->
  (dead wk' = false -> dead wk = false) -> links c'.
Proof.
  intros HL Hw Hm Ha Hh Hn Hd. split; rewrite ?Hm, ?Ha, ?Hh.
  - intros x xk Hx. apply closed_put. apply lookup_insert_Some in Hx as [[-> <-]|[_ Hx]]; [rewrite Hn|]; by eapply links_closed.
  - eapply ranked_insert; [done..|]. apply HL.
  - apply closed_put, HL.
  - apply closed_put, HL.
  - intros x (xk & Hx & Hl). apply (reach_insert _ _ wk); [done..|]. apply HL.
    apply lookup_insert_Some in Hx as [[-> ->]|[Hne Hx]]; [exists wk; auto|by exists xk].
Qed.

(** ** Stages *)
Lemma outstanding_nonneg c : 0 <= outstanding c.
Proof. unfold outstanding. lia. Qed.

Lemma u32_sub_l a b : u32 (u32 a - b) = u32 (a - b).
Proof. unfold u32. by rewrite Zminus_mod_idemp_l. Qed.

(** What a step of a thread that does not lead may do to the workers. *)
Definition worker_steps (c : control) (m' : gmap nat worker) : Prop :=
  forall w wk', m' !! w = Some wk' -> dead wk' = false ->
    (exists wk, workers c !! w = Some wk /\ dead wk = false /\
       (PHASE (wstate wk') = PHASE (wstate wk) \/
        pre (PHASE (wstate wk)) /\ PHASE (wstate wk') = PHASE (wstate wk) + 1)) \/
    (workers c !! w = None /\ PHASE (wstate wk') = (available c).2).

(** ... to what it acts on. *)
Definition act_steps (c : control) (t0 : nat) (p0 : pc) : Prop :=
  forall w s g k, p0 = Act w s g k ->
    pc_of c t0 = p0 \/
    exists wk, workers c !! w = Some wk /\ dead wk = false /\ pre (PHASE (wstate wk)) /\ s = PHASE (wstate wk).

(** ... and to the links. *)
Definition link_steps (c : control) (m' : gmap nat worker) : Prop :=
  (forall x xk, workers c !! x = Some xk -> exists xk', m' !! x = Some xk' /\ wnext xk' = wnext xk) /\
  (forall q w, closed (workers c) q -> reach m' q w <-> reach (workers c) q w).

Lemma link_steps_put c w wk wk' : workers c !! w = Some wk -> wnext wk' = wnext wk -> link_steps c (<[w := wk']> (workers c)).
Proof.
  intros Hw Hn. split.
  - intros x xk Hx. destruct (decide (x = w)) as [->|Hne].
    + exists wk'. rewrite lookup_insert_eq. split; congruence.
    + exists xk. by rewrite lookup_insert_ne.
  - intros q x _. by eapply reach_insert.
Qed.

Lemma link_steps_refl c : link_steps c (workers c).
Proof. split; [eauto|done]. Qed.
Lemma worker_steps_refl c : worker_steps c (workers c).
Proof. intros w wk Hw Hd. left. eauto. Qed.
#[export] Hint Resolve link_steps_put link_steps_refl worker_steps_refl : runtime.

Lemma position_steps c m' head prev : link_steps c m' -> closed (workers c) prev -> position m' head prev = position (workers c) head prev.
Proof.
  intros [Hn _] Hc. destruct prev as [q|]; [|done]. simpl. destruct (Hc q eq_refl) as [qk Hq]. rewrite Hq.
  destruct (Hn _ _ Hq) as (qk' & -> & ?). done.
Qed.

Lemma closed_position c head prev : links c -> closed (workers c) head -> closed (workers c) (position (workers c) head prev).
Proof.
  intros HL Hh. destruct prev as [q|]; [|done]. simpl. destruct (workers c !! q) as [qk|] eqn:Hq; [|done].
  simpl. by eapply links_closed.
Qed.

Lemma reach_position_steps c m' head prev w : links c -> link_steps c m' -> closed (workers c) head -> closed (workers c) prev ->
  reach m' (position m' head prev) w <-> reach (workers c) (position (workers c) head prev) w.
Proof.
  intros HL Hm Hh Hp. rewrite (position_steps c m') by done. apply Hm. by apply closed_position.
Qed.

Lemma phase_post_stage N c t w wk : Stage N c t -> thread_ok (workers c) t (pc_of c t) ->
  workers c !! w = Some wk -> dead wk = false -> pre (PHASE (wstate wk)) -> PHASE (wstate wk) + 1 = (available c).2.
Proof.
  intros HS HT Hw Hd Hpre. pose proof (stage_phases _ _ _ HS w wk Hw Hd) as Hp.
  pose proof (stage_progress _ _ _ HS) as Hg. pose proof (stage_post _ _ _ HS) as Hpost.
  destruct (pc_of c t) eqn:Hpc; simpl in *;
    try (destruct Hp as [Hp|Hp]; [done|rewrite Hp in Hpre; by apply pre_not_post in Hpre]).
  - destruct HT as [Hl _]. destruct (lead_phases _ Hl) as (H1 & _). rewrite Hp in Hpre. by apply pre_not_post in Hpre.
  - destruct HT as [Hl _]. destruct (lead_phases _ Hl) as (H1 & _). rewrite Hp in Hpre. by apply pre_not_post in Hpre.
  - destruct HT as [Hl _]. destruct (lead_phases _ Hl) as (H1 & H2 & H3 & H4). destruct Hg as (-> & _).
    destruct Hp as [(_ & Hp & _)|(_ & [Hp|Hp])]; rewrite Hp in *; [by apply pre_not_post in Hpre|lia|by apply pre_not_post in Hpre].
  - destruct HT as [Hl _]. destruct (lead_phases _ Hl) as (H1 & H2 & H3 & H4). destruct Hg as (-> & _).
    destruct Hp as [Hp|Hp]; rewrite Hp in *; [lia|by apply pre_not_post in Hpre].
  - destruct HT as [Hl _]. destruct (lead_phases _ Hl) as (H1 & H2 & H3 & H4). destruct Hg as (-> & _).
    destruct Hp as [Hp|Hp]; rewrite Hp in *; [lia|by apply pre_not_post in Hpre].
  - rewrite Hp in Hpre. apply pre_not_post in Hpre; [done|]. left. reflexivity.
Qed.

(** Where nobody leads. *)
Lemma calm_debt p : leading p = false -> debt p = 0.
Proof. by destruct p. Qed.
Lemma calm_progress N c p : leading p = false ->
  progress N c p = (outstanding c <= N /\ (Z.odd (gc_count c) = true \/ (outstanding c = 0 /\ (available c).2 = ASYNC))).
Proof. by destruct p. Qed.
Lemma calm_phase c p w ph : leading p = false ->
  phase_ok c p w ph = (ph + 1 = (available c).2 \/ ph = (available c).2).
Proof. by destruct p. Qed.
Lemma calm_own c t p : leading p = false -> own_ok c t p = True.
Proof. by destruct p. Qed.

Section Other.
Context {N : Z} {c c' : control} {t t0 : nat} {p0 : pc}.
Hypothesis (HL : links c) (HT : forall t, thread_ok (workers c) t (pc_of c t)) (HS : Stage N c t).
Hypothesis (E : pcs c' = <[t0 := p0]> (pcs c)).
Hypothesis (Hl0 : leading (pc_of c t0) = false) (Hl0' : leading p0 = false).
Hypothesis (Ha : (available c').2 = (available c).2) (Hgc : gc_count c' = gc_count c).
Hypothesis (Hw : worker_steps c (workers c')) (Hact : act_steps c t0 p0) (Hlk : link_steps c (workers c')).

Lemma other_cases :
  (leading (pc_of c t) = true /\ pc_of c' t = pc_of c t /\ t ≠ t0) \/
  (leading (pc_of c t) = false /\ leading (pc_of c' t) = false).
Proof.
  rewrite (pc_step _ _ _ _ t E). destruct (decide (t = t0)) as [->|]; [by right|].
  destruct (leading (pc_of c t)); [left|right]; done.
Qed.

Lemma other_dom x : is_Some (workers c !! x) -> is_Some (workers c' !! x).
Proof. intros [xk Hx]. destruct Hlk as [Hn _]. destruct (Hn _ _ Hx) as (? & ? & _). eauto. Qed.

Lemma other_progress : outstanding c' <= outstanding c -> progress N c' (pc_of c' t).
Proof.
  intros Ho. pose proof (stage_progress _ _ _ HS) as Hp. pose proof (outstanding_nonneg c') as Hnn. pose proof (HT t) as HTt.
  destruct other_cases as [(Hld & -> & _)|[Hld Hld']].
  - destruct (pc_of c t) eqn:Hpc; simpl in *; try done; rewrite ?Ha.
    1, 2, 6: destruct Hp; split; [lia|done].
    2, 3: destruct Hp; split; [done|lia].
    destruct Hp as (? & ? & xs & ? & ? & Hxs). split_and!; [done|lia|]. exists xs. split_and!; [done..|].
    destruct HTt as (_ & _ & Hch & Hcp & _).
    intros x Hx. destruct (Hxs x Hx) as [Hx1 Hx2]. split; [by apply other_dom|]. by rewrite (reach_position_steps c).
  - rewrite calm_progress in * by done. rewrite Ha, Hgc.
    destruct Hp as [Hb [Hp|[Hp1 Hp2]]]; (split; [lia|]); [by left|right; split; [lia|done]].
Qed.

Lemma other_phases : all_live (workers c') (phase_ok c' (pc_of c' t)).
Proof.
  intros w wk' Hw' Hd'. pose proof (HT t) as HTt. pose proof (stage_post _ _ _ HS) as Hpost.
  pose proof (stage_progress _ _ _ HS) as Hpr.
  assert (forall wk, workers c !! w = Some wk -> dead wk = false -> pre (PHASE (wstate wk)) ->
            PHASE (wstate wk) + 1 = (available c).2) as Hpre by (intros wk ???; by eapply phase_post_stage).
  assert (idle c w -> (forall wk, workers c !! w = Some wk -> dead wk = false -> post (PHASE (wstate wk))) -> idle c' w) as Hidle.
  { intros Hi Hpo t' s g k. rewrite (pc_step _ _ _ _ t' E). destruct (decide (t' = t0)) as [->|]; [|apply Hi].
    intros Hp. destruct (Hact _ _ _ _ Hp) as [Hp'|(wk & Hk & Hd & Hpr' & _)].
    - eapply Hi. by rewrite Hp', Hp.
    - specialize (Hpo wk Hk Hd). by eapply pre_not_post. }
  destruct (Hw w wk' Hw' Hd') as [(wk & Hk & Hd & Hph)|[Hk Hph]].
  - pose proof (stage_phases _ _ _ HS w wk Hk Hd) as Hold.
    assert (post (PHASE (wstate wk)) -> PHASE (wstate wk') = PHASE (wstate wk)) as Hstay.
    { intros Hpo. destruct Hph as [|[Hpr' _]]; [done|]. by destruct (pre_not_post _ Hpr' Hpo). }
    destruct other_cases as [(Hld & -> & _)|[Hld Hld']].
    + destruct (pc_of c t) eqn:Hpc; simpl in *; try done.
      1, 2: destruct HTt as [Hl _]; destruct (lead_phases _ Hl) as (H1 & _); rewrite Hstay; congruence.
      * destruct HTt as (Hl & _ & Hch & Hcp & _). destruct (lead_phases _ Hl) as (H1 & H2 & H3 & H4).
        rewrite (reach_position_steps c) by done. destruct Hpr as (Hav & _).
        destruct Hold as [(Hr & Ho & Hi)|[Hr Ho]].
        -- left. assert (post (PHASE (wstate wk))) as Hpo by congruence. rewrite Hstay by done. split_and!; [done..|].
           apply Hidle; [done|]. congruence.
        -- right. split; [done|]. destruct Hph as [->|[Hpr' Hp1]]; [done|]. right. rewrite Hp1, <- Hav. by apply Hpre.
      * destruct HTt as (Hl & _). destruct Hpr as (Hav & _).
        destruct Hph as [->|[Hpr' Hp1]]; [done|]. right. rewrite Hp1, <- Hav. by apply Hpre.
      * destruct HTt as (Hl & _). destruct Hpr as (Hav & _).
        destruct Hph as [->|[Hpr' Hp1]]; [done|]. right. rewrite Hp1, <- Hav. by apply Hpre.
      * rewrite Hstay; [done|]. rewrite Hold. left. reflexivity.
    + rewrite calm_phase in * by done. rewrite Ha. destruct Hph as [->|[Hpr' Hp1]]; [done|]. right. rewrite Hp1. by apply Hpre.
  - destruct other_cases as [(Hld & -> & _)|[Hld Hld']].
    + destruct (pc_of c t) eqn:Hpc; simpl in *; try done.
      1, 2, 6: destruct Hpr; congruence.
      2, 3: right; destruct Hpr; congruence.
      right. destruct HTt as (Hl & _ & Hch & Hcp & _). rewrite (reach_position_steps c) by done. split; [|right; destruct Hpr; congruence].
      intros Hr. apply reach_closed in Hr as [? ?]; [congruence|by apply links_closed|by apply closed_position].
    + rewrite calm_phase by done. right. congruence.
Qed.

Lemma other_own :
  (forall wk', t ≠ t0 -> inside (pc_of c t) = true -> workers c' !! t = Some wk' ->
     exists wk, workers c !! t = Some wk /\ PHASE (wstate wk') = PHASE (wstate wk)) ->
  own_ok c' t (pc_of c' t).
Proof.
  intros Hown. pose proof (HT t) as HTt. pose proof (stage_own _ _ _ HS) as Ho.
  destruct other_cases as [(Hld & -> & Hne)|[Hld Hld']]; [|by rewrite calm_own].
  destruct (pc_of c t) eqn:Hpc; simpl in *; try done.
  all: intros Hg wk' Hk'; destruct HTt as ((Hl & Hres) & HTt); specialize (Hres Hg).
  all: destruct (Hown wk') as (wk & Hk & ->); [done|by rewrite Hres|done|].
  - destruct HTt as (_ & Hch & Hcp & _). rewrite (reach_position_steps c) by done. by apply Ho.
  - by apply Ho.
  - by apply Ho.
Qed.
End Other.

(** A step of a thread that does not lead, which counts [d] responses. *)
Lemma stage_other N c c' t t0 p0 d :
  links c -> (forall t, thread_ok (workers c) t (pc_of c t)) -> Stage N c t -> pcs c' = <[t0 := p0]> (pcs c) ->
  leading (pc_of c t0) = false -> leading p0 = false ->
  (available c').2 = (available c).2 -> gc_count c' = gc_count c ->
  0 <= d -> outstanding c' = outstanding c - d -> check_flag c' = u32 (check_flag c - d) ->
  worker_steps c (workers c') -> act_steps c t0 p0 -> link_steps c (workers c') ->
  (forall wk', t ≠ t0 -> inside (pc_of c t) = true -> workers c' !! t = Some wk' ->
     exists wk, workers c !! t = Some wk /\ PHASE (wstate wk') = PHASE (wstate wk)) ->
  Stage N c' t.
Proof.
  intros HL HT HS E Hl0 Hl0' Ha Hgc Hd0 Ho Hf Hw Hact Hlk Hown.
  assert (_ \/ _) as Hcs by (eapply (other_cases (t := t)); eassumption).
  split.
  - intros t'. rewrite (pc_step _ _ _ _ t' E). destruct (decide (t' = t0)); [by rewrite Hl0'|]. apply HS.
  - rewrite Hgc. intros Hld. destruct Hcs as [(? & _)|[? ?]]; [by apply HS|congruence].
  - rewrite Ha. apply HS.
  - intros t' w s g k. rewrite Ha, (pc_step _ _ _ _ t' E). destruct (decide (t' = t0)) as [->|]; [|apply HS].
    intros Hp. destruct (Hact _ _ _ _ Hp) as [Hp'|(wk & Hk & Hdd & Hpre & ->)].
    + eapply HS. by rewrite Hp', Hp.
    + by eapply phase_post_stage.
  - rewrite Hf, (stage_flag _ _ _ HS), u32_sub_l. f_equal. rewrite Ho.
    destruct Hcs as [(? & -> & _)|[? ?]]; [|rewrite !calm_debt by done]; lia.
  - eapply other_progress; [eassumption..|lia].
  - eapply other_phases; eassumption.
  - eapply other_own; eassumption.
Qed.

(** ** Counting over a step *)
Lemma tally_pc c t0 p0 :
  Z.of_nat (tally is_act (<[t0 := p0]> (pcs c))) =
  Z.of_nat (tally is_act (pcs c)) - Z.b2z (is_act (pc_of c t0)) + Z.b2z (is_act p0).
Proof.
  pose proof (tally_insert is_act (pcs c) t0 p0) as H.
  assert (from_option is_act false (pcs c !! t0) = is_act (pc_of c t0)) as Hp by (unfold pc_of; by destruct (pcs c !! t0)).
  rewrite Hp in H. destruct (is_act (pc_of c t0)), (is_act p0); simpl in *; lia.
Qed.

Lemma outstanding_goto c c' t0 p0 : workers c' = workers c -> pcs c' = <[t0 := p0]> (pcs c) ->
  outstanding c' = outstanding c - Z.b2z (is_act (pc_of c t0)) + Z.b2z (is_act p0).
Proof. intros Hm E. unfold outstanding. rewrite Hm, E, tally_pc. lia. Qed.

Lemma outstanding_put c c' t0 p0 w wk wk' : workers c !! w = Some wk ->
  workers c' = <[w := wk']> (workers c) -> pcs c' = <[t0 := p0]> (pcs c) ->
  outstanding c' = outstanding c - Z.b2z (signalled wk) + Z.b2z (signalled wk') - Z.b2z (is_act (pc_of c t0)) + Z.b2z (is_act p0).
Proof.
  intros Hw Hm E. unfold outstanding. rewrite Hm, E, tally_pc.
  pose proof (tally_insert signalled (workers c) w wk') as H. rewrite Hw in H. simpl in H.
  destruct (signalled wk), (signalled wk'); simpl in *; lia.
Qed.

(** ** Whole steps of threads that do not lead *)
Lemma inv_goto N c c' t0 p0 d : Inv N c -> workers c' = workers c -> pcs c' = <[t0 := p0]> (pcs c) ->
  available c' = available c -> closed (workers c) (handshake c').1 -> gc_count c' = gc_count c ->
  check_flag c' = u32 (check_flag c - d) -> d = Z.b2z (is_act (pc_of c t0)) - Z.b2z (is_act p0) -> 0 <= d ->
  inside p0 = inside (pc_of c t0) -> held p0 = held (pc_of c t0) -> pc_of c t0 ≠ Gone ->
  leading (pc_of c t0) = false -> leading p0 = false -> is_act p0 = false ->
  thread_ok (workers c) t0 p0 -> Inv N c'.
Proof.
  intros [HL HK HT [t HS] HB] Hm E Ha Hh Hgc Hf Hd Hd0 Hin Hheld Hg Hl Hl' Hact H0. split.
  - by eapply locks_goto.
  - by eapply links_goto.
  - by eapply threads_goto.
  - exists t. apply (stage_other N c c' t t0 p0 d); try done; rewrite ?Hm, ?Ha; auto with runtime.
    + rewrite (outstanding_goto c c' t0 p0) by done. lia.
    + intros w s g k ->. done.
    + intros wk' _ _ Hk. eauto.
  - rewrite Hm. done.
Qed.

Lemma inv_put N c c' t0 p0 w wk wk' l ph d : Inv N c -> locks c' -> workers c !! w = Some wk ->
  workers c' = <[w := wk']> (workers c) -> pcs c' = <[t0 := p0]> (pcs c) ->
  available c' = available c -> handshake c' = handshake c -> gc_count c' = gc_count c ->
  is_phase ph -> wstate wk = word l ph -> owns c t0 w l ph -> wnext wk' = wnext wk -> dead wk' = dead wk ->
  leading (pc_of c t0) = false -> leading p0 = false ->
  (PHASE (wstate wk') = PHASE (wstate wk) \/
   pre (PHASE (wstate wk)) /\ PHASE (wstate wk') = PHASE (wstate wk) + 1) ->
  (is_act p0 = true -> pc_of c t0 = p0 \/
     dead wk = false /\ pre (PHASE (wstate wk)) /\ exists g k, p0 = Act w (PHASE (wstate wk)) g k) ->
  check_flag c' = u32 (check_flag c - d) -> 0 <= d ->
  d = Z.b2z (signalled wk) - Z.b2z (signalled wk') + Z.b2z (is_act (pc_of c t0)) - Z.b2z (is_act p0) ->
  thread_ok (workers c') t0 p0 -> Inv N c'.
Proof.
  intros [HL HK HT [t HS] HB] HL' Hw Hm E Ha Hh Hgc Hph Hs Hown Hn Hdd Hl Hl' Hphase Hact Hf Hd0 Hd H0. split.
  - done.
  - eapply links_put; [done..|congruence].
  - by apply (threads_put c c' t0 p0 w wk wk' l ph).
  - exists t. apply (stage_other N c c' t t0 p0 d); try done; rewrite ?Hm, ?Ha; auto with runtime.
    + rewrite (outstanding_put c c' t0 p0 w wk wk') by done. lia.
    + intros x xk' Hx Hxd. left. apply lookup_insert_Some in Hx as [[<- <-]|[Hne Hx]]; [|eauto].
      exists wk. split_and!; [done|congruence|done].
    + intros x s g k Hp. rewrite Hp in Hact |- *.
      destruct (Hact eq_refl) as [|(? & ? & g' & k' & Heq)]; [by left|]. right. injection Heq as -> -> -> ->. eauto.
    + eauto with runtime.
    + intros xk' Hne Hin Hx. apply lookup_insert_Some in Hx as [[<- <-]|[_ Hx]]; [|eauto].
      destruct (locks_worker c HL w wk Hw) as (l1 & ph1 & Hph1 & Hs1 & Hin1 & _).
      rewrite Hs in Hs1. apply word_inj in Hs1 as [<- <-]; [|done..]. apply Hin1 in Hin as ->.
      destruct Hown as (Ho & _). destruct (Hne (Ho eq_refl)).
  - rewrite Hm. by apply (bound_put _ _ _ wk).
Qed.
