(* ===== verification/ControlSteps.v ===== *)
(** * The steps of Control.v keep the invariant

    For every step of a thread: it does not fail, and the state after it has
    the invariant of ControlInv.v. *)
From Stdlib Require Import ZArith Lia.
From stdpp Require Import base option list gmap relations.
From S2P Require Import Prelude Bits Layout Segment Alloc Control ControlFacts ControlInv ControlFrame.

Local Open Scope Z_scope.

Definition good (N : Z) (r : res control) : Prop := exists c, r = Ok c /\ Inv N c.

Lemma good_ok N c : Inv N c -> good N (Ok c).
Proof. intros. by exists c. Qed.
Lemma good_bind {A} N (m : res A) (f : A -> res control) a : m = Ok a -> good N (f a) -> good N (m ≫= f).
Proof. by intros ->. Qed.
#[export] Hint Resolve good_ok : runtime.

(** ** Flags *)
Lemma dead_flags wk wk' : Z.land (wflags wk') DEAD_FLAG = Z.land (wflags wk) DEAD_FLAG -> dead wk' = dead wk.
Proof. unfold dead. by intros ->. Qed.
Lemma canceled_flags wk wk' : Z.land (wflags wk') CANCELED_FLAG = Z.land (wflags wk) CANCELED_FLAG -> canceled wk' = canceled wk.
Proof. unfold canceled. by intros ->. Qed.
Lemma land_lor_other f a b : Z.land a b = 0 -> Z.land (Z.lor f a) b = Z.land f b.
Proof. intros H. by rewrite Z.land_lor_distr_l, H, Z.lor_0_r. Qed.
Lemma land_ldiff_other f a b : Z.land (Z.lnot a) b = b -> Z.land (Z.ldiff f a) b = Z.land f b.
Proof. intros H. by rewrite Z.ldiff_land, <- Z.land_assoc, H. Qed.
Lemma land_lor_bit f b : b ≠ 0 -> Z.land (Z.lor f b) b = b.
Proof. intros _. apply Z.bits_inj'. intros n _. rewrite Z.land_spec, Z.lor_spec. destruct (Z.testbit b n), (Z.testbit f n); done. Qed.

(** ** What the invariant says of a thread *)
Lemma inside_word N c t : Inv N c -> inside (pc_of c t) = true ->
  exists wk ph, workers c !! t = Some wk /\ is_phase ph /\ wstate wk = word Owned ph /\ dead wk = false /\ canceled wk = false.
Proof.
  intros [HL _ _ _ _] Hin. destruct (locks_inside c HL t Hin) as [wk Hw].
  destruct (locks_worker c HL t wk Hw) as (l & ph & Hph & Hs & Hi & _ & Hc & Hd).
  apply Hi in Hin as Hl. subst l. exists wk, ph.
  assert (canceled wk = false) as Hcan.
  { destruct (canceled wk); [|done]. rewrite (Hc eq_refl) in Hin. done. }
  split_and!; try done. destruct (dead wk); [|done]. destruct (Hd eq_refl). congruence.
Qed.

Lemma held_word N c t w : Inv N c -> held (pc_of c t) = Some w ->
  exists wk ph, workers c !! w = Some wk /\ is_phase ph /\ wstate wk = word Helped ph /\ (dead wk = true -> post ph).
Proof.
  intros [HL _ _ _ _] Hh. destruct (locks_held c HL t w Hh) as [wk Hw].
  destruct (locks_worker c HL w wk Hw) as (l & ph & Hph & Hs & _ & Hheld & _ & Hd).
  apply Hheld in Hh as ->. exists wk, ph. split_and!; try done. intros; by apply Hd.
Qed.

Lemma owns_inside c t ph : owns c t t Owned ph.
Proof. by split_and!. Qed.
Lemma owns_held c t w ph : held (pc_of c t) = Some w -> owns c t w Helped ph.
Proof. intros H. by split_and!. Qed.
#[export] Hint Resolve owns_inside owns_held : runtime.

(** A thread that acts on a worker has its lock, or it is its own. *)
Lemma act_owns N c t w s g k : Inv N c -> pc_of c t = Act w s g k ->
  exists wk, workers c !! w = Some wk /\ dead wk = false /\ pre s /\ wstate wk = word (lock_of k) (s + 1) /\
    owns c t w (lock_of k) (s + 1).
Proof.
  intros HI Hpc. pose proof (inv_threads _ _ HI t) as HT. rewrite Hpc in HT.
  destruct HT as (Hs & (-> & (wk & Hw & Hd & Hst) & _) & _). exists wk. unfold owns. split_and!; try done.
  - by destruct k.
  - rewrite Hpc. by destruct k.
  - intros Hf. left. by destruct k.
Qed.

Lemma handshake_closed N c : Inv N c -> closed (workers c) (handshake c).1.
Proof. intros HI. apply HI. Qed.
Lemma available_closed N c : Inv N c -> closed (workers c) (available c).1.
Proof. intros HI. apply HI. Qed.
#[export] Hint Resolve handshake_closed available_closed : runtime.

Lemma leads_on_refl m p : leads_on m p p.
Proof. by intros w. Qed.
Lemma leads_on_skip m p w wk : m !! w = Some wk -> dead wk = true -> leads_on m p (Some w) -> leads_on m p (wnext wk).
Proof.
  intros Hw Hd Hon x Hx Hp. destruct (reach_inv m w wk x Hw (Hon x Hx Hp)) as [->|]; [|done].
  destruct Hx as (? & ? & ?). congruence.
Qed.
#[export] Hint Resolve leads_on_refl : runtime.

Lemma skip_dead_ok c next : closed (workers c) next ->
  (skip_dead next c = Ok None /\ (forall w wk, next = Some w -> workers c !! w = Some wk -> dead wk = false)) \/
  exists w wk, next = Some w /\ workers c !! w = Some wk /\ dead wk = true /\ skip_dead next c = Ok (Some (wnext wk)).
Proof.
  intros Hc. unfold skip_dead. destruct next as [w|]; [|left; by split].
  destruct (Hc w eq_refl) as [wk Hw]. rewrite Hw. simpl. destruct (dead wk) eqn:Hd; [right; by exists w, wk|].
  left. split; [done|]. intros ? ? [= <-] Hk. congruence.
Qed.

(** ** Moving on without touching a worker *)
Lemma goto_inv N c t p : Inv N c -> inside p = inside (pc_of c t) -> held p = held (pc_of c t) -> pc_of c t ≠ Gone ->
  leading (pc_of c t) = false -> leading p = false -> is_act (pc_of c t) = false -> is_act p = false ->
  thread_ok (workers c) t p -> Inv N (goto t p c).
Proof.
  intros HI Hin Hh Hg Hl Hl' Ha Ha' H0. pose proof (inv_stage _ _ HI) as [t1 HS].
  apply (inv_goto N c (goto t p c) t p 0); try done.
  - simpl. by eapply handshake_closed.
  - simpl. by rewrite (stage_flag _ _ _ HS), u32_sub_l, Z.sub_0_r.
  - by rewrite Ha, Ha'.
Qed.

(** [goto] to a place with the same view. *)
Ltac goto_inv Hpc :=
  apply good_ok, goto_inv; rewrite ?Hpc; try done; auto with runtime.

Section Steps.
Context (N : Z) (HN : N < 2 ^ 32 - 1) (c : control) (t : nat) (o : oracle) (HI : Inv N c).

Lemma help_load_inv : pc_of c t = HelpLoad -> good N (Ok (goto t (HelpWalk (handshake c) (handshake c).1) c)).
Proof. intros Hpc. goto_inv Hpc. split; by eapply handshake_closed. Qed.

Lemma help_walk_inv old w : pc_of c t = HelpWalk old w -> good N (help_inactive t old w o c).
Proof.
  intros Hpc. pose proof (inv_threads _ _ HI t) as HT. rewrite Hpc in HT. destruct HT as [Ho Hc].
  unfold help_inactive. destruct w as [w|].
  - destruct (Hc w eq_refl) as [wk Hw]. rewrite Hw. cbn [deref mbind res_bind].
    pose proof (links_closed _ (inv_links _ _ HI) _ _ Hw) as Hn.
    destruct (dead wk) eqn:Hd; [by goto_inv Hpc|].
    destruct (locks_worker _ (inv_locks _ _ HI) _ _ Hw) as (l & ph & Hph & Hs & _).
    rewrite Hs, help_word by done. case_bool_decide as Hl; simpl; [|by goto_inv Hpc]. subst l.
    destruct (Z.even ph) eqn:He; simpl; goto_inv Hpc. apply even_pre in He; [|done]. split; eauto.
  - case_match; [|by goto_inv Hpc].
    pose proof (inv_stage _ _ HI) as [t1 HS].
    apply good_ok, (inv_goto N c _ t InML 0); rewrite ?Hpc; try done.
    simpl. by rewrite (stage_flag _ _ _ HS), u32_sub_l, Z.sub_0_r.
Qed.

Lemma help_take_inv old w st : pc_of c t = HelpTake old w st -> good N (help_take t old w st o c).
Proof.
  intros Hpc. pose proof (inv_threads _ _ HI t) as HT. rewrite Hpc in HT. destruct HT as [[wk Hw] Hst].
  unfold help_take. rewrite Hw. cbn [deref mbind res_bind].
  case_match; [|by goto_inv Hpc].
  pose proof (inv_stage _ _ HI) as [t1 HS].
  apply good_ok, (inv_goto N c _ t (HelpLock w st) 0); rewrite ?Hpc; try done.
  - simpl. by eapply links_closed; [apply HI|].
  - simpl. by rewrite (stage_flag _ _ _ HS), u32_sub_l, Z.sub_0_r.
Qed.

(** ** Answering signals *)

Lemma flag_same : check_flag c = u32 (check_flag c - 0).
Proof. pose proof (inv_stage _ _ HI) as [t1 HS]. by rewrite (stage_flag _ _ _ HS), u32_sub_l, Z.sub_0_r. Qed.

Lemma signalled_word wk l ph : is_phase ph -> wstate wk = word l ph -> dead wk = false -> signalled wk = Z.even ph.
Proof. intros Hph Hs Hd. unfold signalled. by rewrite Hs, PHASE_word, Hd. Qed.

(** The step that accepts a signal: the lock may change hands too. *)
Lemma accept_inv w wk l l' ph k p0 g : Inv N c -> workers c !! w = Some wk -> dead wk = false ->
  pre ph -> wstate wk = word l ph -> owns c t w l ph ->
  pc_of c t ≠ Gone -> leading (pc_of c t) = false -> is_act (pc_of c t) = false ->
  p0 = Act w ph g k -> l' = lock_of k -> (g = true -> k = Resume) ->
  w = default t (held_cont k) -> (forall w' ns, k = Help w' ns -> ns = word Helped (ph + 1)) ->
  (if decide (w = t) then inside p0 = true <-> l' = Owned
   else inside p0 = inside (pc_of c t) /\ l ≠ Owned /\ l' ≠ Owned) ->
  Inv N (goto t p0 (put_worker w (set_state (word l' (ph + 1)) wk) c)).
Proof.
  intros _ Hw Hd Hpre Hs Hown Hg Hl Ha -> -> Hgk Hwk Hns Hlock.
  pose proof (pre_phase _ Hpre) as Hph. pose proof (pre_post _ Hpre) as Hpost. pose proof (post_phase _ Hpost) as Hph'.
  assert (Z.even ph = true) as He by (by apply even_pre).
  assert (Z.even (ph + 1) = false) as He' by (by apply even_post).
  set (wk' := set_state _ wk). set (c' := goto _ _ _).
  assert (thread_ok (workers c') t (Act w ph g k)) as Hthr.
  { split; [done|]. split; [|done]. split; [done|]. split; [|done].
    exists wk'. simpl. rewrite lookup_insert_eq. by split_and!. }
  apply (inv_put N c c' t (Act w ph g k) w wk wk' l ph 0); try done; auto.
  - eapply (locks_change c c' t (Act w ph g k) w wk wk' l ph (lock_of k) (ph + 1)); try done; try apply HI.
    intros x Hx. destruct (decide (x = w)) as [->|Hne]; [by destruct k|].
    destruct k; simpl in *; congruence.
  - right. simpl. rewrite Hs, !PHASE_word by done. done.
  - intros _. right. rewrite Hs, PHASE_word by done. split_and!; eauto.
  - simpl. apply flag_same.
  - rewrite Ha. rewrite (signalled_word wk l ph), (signalled_word wk' (lock_of k) (ph + 1)) by done. by rewrite He, He'.
Qed.

Lemma answer_inv s : pc_of c t = Answer s -> good N (answer_signal t s c).
Proof.
  intros Hpc. pose proof (inv_threads _ _ HI t) as HT. rewrite Hpc in HT. destruct HT as (Hs & wk & Hw & Hd & Hst).
  unfold answer_signal. rewrite Hw. cbn [deref mbind res_bind]. unfold ACTIVE. rewrite lor1_pre by done.
  apply good_ok, (accept_inv t wk Owned Owned s Resume _ true); rewrite ?Hpc; try done; auto with runtime.
  by rewrite decide_True.
Qed.

Lemma help_lock_inv w st : pc_of c t = HelpLock w st -> good N (help_lock t w st c).
Proof.
  intros Hpc. pose proof (inv_threads _ _ HI t) as HT. rewrite Hpc in HT. destruct HT as ([wk Hw] & ph & Hpre & ->).
  unfold help_lock. rewrite Hw. cbn [deref mbind res_bind]. pose proof (pre_phase _ Hpre) as Hph.
  destruct (wstate wk =? word Free ph) eqn:Hs; [|by goto_inv Hpc]. apply Z.eqb_eq in Hs.
  rewrite lock_word, PHASE_word by done.
  destruct (locks_worker _ (inv_locks _ _ HI) _ _ Hw) as (l & ph' & Hph' & Hs' & Hin & _ & _ & Hd).
  rewrite Hs in Hs'. apply word_inj in Hs' as [<- <-]; [|done..].
  assert (w ≠ t) as Hne by (intros ->; rewrite Hpc in Hin; destruct Hin as [Hin _]; by specialize (Hin eq_refl)).
  apply good_ok, (accept_inv w wk Free Helped ph (Help w (word Helped (ph + 1))) _ false); rewrite ?Hpc; try done.
  - destruct (dead wk); [|done]. destruct (Hd eq_refl) as [_ Hpost]. by destruct (pre_not_post _ Hpre Hpost).
  - unfold owns. split_and!; try done. by right.
  - by intros w' ns [= <- <-].
  - by rewrite decide_False.
Qed.

Lemma help_again_inv w st : pc_of c t = HelpAgain w st -> good N (help_again t w st c).
Proof.
  intros Hpc. pose proof (inv_threads _ _ HI t) as HT. rewrite Hpc in HT. destruct HT as (ph & Hpre & -> & wk & Hw & Hd & Hs).
  unfold help_again. rewrite Hw. cbn [deref mbind res_bind]. pose proof (pre_phase _ Hpre) as Hph.
  rewrite again_word, PHASE_word by done.
  destruct (locks_worker _ (inv_locks _ _ HI) _ _ Hw) as (l & ph' & Hph' & Hs' & Hin & _).
  rewrite Hs in Hs'. apply word_inj in Hs' as [<- <-]; [|done..].
  assert (w ≠ t) as Hne by (intros ->; rewrite Hpc in Hin; destruct Hin as [Hin _]; by specialize (Hin eq_refl)).
  apply good_ok, (accept_inv w wk Helped Helped ph (Help w (word Helped (ph + 1))) _ false); rewrite ?Hpc; try done.
  - apply owns_held. by rewrite Hpc.
  - by intros w' ns [= <- <-].
  - by rewrite decide_False.
Qed.

(** ** Locks *)
Lemma relock_inv w wk l l' ph p0 : workers c !! w = Some wk -> is_phase ph -> wstate wk = word l ph -> owns c t w l ph ->
  pc_of c t ≠ Gone -> leading (pc_of c t) = false -> leading p0 = false -> is_act (pc_of c t) = false -> is_act p0 = false ->
  (if decide (w = t) then inside p0 = true <-> l' = Owned
   else inside p0 = inside (pc_of c t) /\ l ≠ Owned /\ l' ≠ Owned) ->
  held p0 = None -> (forall m, thread_ok m t p0) ->
  Inv N (goto t p0 (put_worker w (set_state (word l' ph) wk) c)).
Proof.
  intros Hw Hph Hs Hown Hg Hl Hl' Ha Ha' Hlock Hh H0.
  destruct (locks_worker _ (inv_locks _ _ HI) _ _ Hw) as (l1 & ph1 & Hph1 & Hs1 & _ & _ & _ & Hd).
  rewrite Hs in Hs1. apply word_inj in Hs1 as [<- <-]; [|done..].
  set (wk' := set_state _ wk). set (c' := goto _ _ _).
  apply (inv_put N c c' t p0 w wk wk' l ph 0); try done; auto.
  - eapply (locks_change c c' t p0 w wk wk' l ph l' ph); try done; try apply HI.
    + intros Hdd. by apply Hd.
    + rewrite Hh. done.
  - left. simpl. by rewrite Hs, !PHASE_word.
  - by rewrite Ha'.
  - simpl. apply flag_same.
  - rewrite Ha, Ha'. destruct (dead wk) eqn:Hdd.
    + unfold signalled. change (dead wk') with (dead wk). rewrite Hdd. done.
    + rewrite (signalled_word wk l ph), (signalled_word wk' l' ph) by done. lia.
Qed.

Lemma help_release_inv w ns : pc_of c t = HelpRelease w ns -> good N (help_release t w ns c).
Proof.
  intros Hpc. pose proof (inv_threads _ _ HI t) as HT. rewrite Hpc in HT. destruct HT as (ph & wk & Hpost & -> & Hw & Hor).
  unfold help_release. rewrite Hw. cbn [deref mbind res_bind]. pose proof (post_phase _ Hpost) as Hph.
  assert (held (pc_of c t) = Some w) as Hheld by (by rewrite Hpc).
  destruct (locks_worker _ (inv_locks _ _ HI) _ _ Hw) as (l & ph' & Hph' & Hs' & Hin & Hhl & _ & Hd).
  apply Hhl in Hheld as Hl. subst l.
  assert (w ≠ t) as Hne by (intros ->; rewrite Hpc in Hin; destruct Hin as [Hin _]; by specialize (Hin eq_refl)).
  destruct (wstate wk =? word Helped ph) eqn:Hs.
  - apply Z.eqb_eq in Hs. rewrite release_word by done. apply good_ok.
    apply (relock_inv w wk Helped Free ph); rewrite ?Hpc; try done.
    by rewrite decide_False.
  - apply Z.eqb_neq in Hs. destruct Hor as [|(ph2 & Hpre2 & Hs2)]; [done|].
    goto_inv Hpc. exists ph2. split_and!; [done|done|]. exists wk. split_and!; [done| |done].
    rewrite Hs' in Hs2. apply word_inj in Hs2 as [_ ->]; eauto with runtime.
    destruct (dead wk); [|done]. destruct (Hd eq_refl) as [_ Hp]. by destruct (pre_not_post _ Hpre2 Hp).
Qed.

Lemma check_inv : pc_of c t = InML -> good N (sml_check_internal t c).
Proof.
  intros Hpc. destruct (inside_word N c t HI) as (wk & ph & Hw & Hph & Hs & Hd & _); [by rewrite Hpc|].
  unfold sml_check_internal. rewrite Hw. cbn [deref mbind res_bind]. rewrite Hs.
  rewrite IS_ACTIVE_word, bool_decide_true by done. cbn [mbind res_bind assert_that].
  rewrite is_signal_owned by done. destruct (Z.even ph) eqn:He; goto_inv Hpc.
  apply even_pre in He; [|done]. split; [done|]. by exists wk.
Qed.

Lemma leave_inv : pc_of c t = InML -> good N (leave_worker t c).
Proof.
  intros Hpc. destruct (inside_word N c t HI) as (wk & ph & Hw & Hph & Hs & Hd & _); [by rewrite Hpc|].
  unfold leave_worker. rewrite Hw. cbn [deref mbind res_bind]. rewrite Hs. rewrite IS_ACTIVE_word, bool_decide_true by done.
  cbn [mbind res_bind assert_that]. rewrite is_signal_owned, leave_word by done. destruct (Z.even ph) eqn:He; apply good_ok.
  - apply even_pre in He; [|done]. rewrite lor1_pre by done.
    apply (accept_inv t wk Owned Free ph Leave _ false); rewrite ?Hpc; try done; auto with runtime.
    by rewrite decide_True.
  - apply even_post in He; [|done]. rewrite lor1_post by done.
    apply (relock_inv t wk Owned Free ph); rewrite ?Hpc; try done; auto with runtime. by rewrite decide_True.
Qed.

Lemma enter_inv : pc_of c t = Outside -> good N (enter_worker t c).
Proof.
  intros Hpc. unfold enter_worker. destruct (workers c !! t) as [wk|] eqn:Hw.
  - destruct (locks_worker _ (inv_locks _ _ HI) _ _ Hw) as (l & ph & Hph & Hs & Hin & _).
    rewrite Hs, inactive_word by done. destruct l; simpl; auto with runtime.
    change (Z.ldiff (ph + 16) _) with (Z.ldiff (word Free ph) INACTIVE_STATE). rewrite enter_word by done. apply good_ok.
    apply (relock_inv t wk Free Owned ph); rewrite ?Hpc; try done; auto with runtime; [unfold owns; split_and!; auto; done|].
    by rewrite decide_True.
  - goto_inv Hpc. split_and!; [done|by eapply available_closed..|apply leads_on_refl].
Qed.

(** ** Users, the end of a thread *)
Lemma pcs_id p : pc_of c t = p -> p ≠ Outside -> <[t := p]> (pcs c) = pcs c.
Proof. unfold pc_of. intros H Hp. apply insert_id. destruct (pcs c !! t); simpl in *; congruence. Qed.

Lemma user_inv : pc_of c t = InML -> good N (add_user t c).
Proof.
  intros Hpc. destruct (inside_word N c t HI) as (wk & ph & Hw & Hph & Hs & Hd & _); [by rewrite Hpc|].
  unfold add_user. rewrite Hw. cbn [deref mbind res_bind]. apply good_ok.
  set (wk' := set_users _ wk). set (c' := put_worker _ _ _).
  assert (pcs c' = <[t := InML]> (pcs c)) as E by (by rewrite pcs_id).
  assert (locks c') as HL'.
  { apply (locks_same c c' t InML t wk wk'); rewrite ?Hpc; try done; [apply HI|]. intros l2 ph2 ? ? ?. eauto. }
  apply (inv_put N c c' t InML t wk wk' Owned ph 0); rewrite ?Hpc; try done; auto with runtime.
  - apply flag_same.
  - change (signalled wk') with (signalled wk). lia.
Qed.

(** [cancel_worker] sets a flag of a worker that is outside ML code. *)
Lemma locks_cancel c' wk f : pc_of c t = Outside -> workers c !! t = Some wk ->
  workers c' = <[t := set_flags f wk]> (workers c) -> pcs c' = <[t := Gone]> (pcs c) ->
  canceled (set_flags f wk) = true -> dead (set_flags f wk) = dead wk -> locks c'.
Proof.
  intros Hpc Hw Hm E Hcan' Hdead.
  assert (forall x, inside (pc_of c' x) = inside (pc_of c x)) as Hi'
    by (intros x; rewrite (pc_step _ _ _ _ x E); destruct (decide (x = t)) as [->|]; [by rewrite Hpc|done]).
  assert (forall x, held (pc_of c' x) = held (pc_of c x)) as Hh'
    by (intros x; rewrite (pc_step _ _ _ _ x E); destruct (decide (x = t)) as [->|]; [by rewrite Hpc|done]).
  destruct (locks_worker _ (inv_locks _ _ HI) _ _ Hw) as (l & ph & Hph & Hs & Hin & Hheld & Hcan & Hd).
  split; rewrite ?Hm.
  - intros x xk Hx. apply lookup_insert_Some in Hx as [[<- <-]|[Hne Hx]].
    + exists l, ph. rewrite Hi', Hcan', Hdead. split_and!; try done.
      * intros x. rewrite Hh'. apply Hheld.
      * intros _. by rewrite (pc_step _ _ _ _ t E), decide_True.
      * intros Hdd. split; [done|]. by apply Hd.
    + destruct (locks_worker _ (inv_locks _ _ HI) _ _ Hx) as (l2 & ph2 & ? & ? & ? & Hheld2 & Hc2 & ?).
      exists l2, ph2. rewrite Hi'. split_and!; try done; [intros y; rewrite Hh'; apply Hheld2|].
      intros Hxc. rewrite (pc_step _ _ _ _ x E), decide_False by done. auto.
  - intros x. rewrite Hi'. intros Hx. apply (locks_inside _ (inv_locks _ _ HI)) in Hx.
    destruct (decide (x = t)) as [->|]; [rewrite lookup_insert_eq|rewrite lookup_insert_ne by done]; eauto.
  - intros x y. rewrite Hh'. intros Hx. apply (locks_held _ (inv_locks _ _ HI)) in Hx.
    destruct (decide (y = t)) as [->|]; [rewrite lookup_insert_eq|rewrite lookup_insert_ne by done]; eauto.
  - intros x y z. rewrite !Hh'. apply HI.
Qed.

Lemma cancel_inv : pc_of c t = Outside -> good N (cancel_worker t c).
Proof.
  intros Hpc. unfold cancel_worker. destruct (workers c !! t) as [wk|] eqn:Hw; [|by goto_inv Hpc].
  destruct (locks_worker _ (inv_locks _ _ HI) _ _ Hw) as (l & ph & Hph & Hs & Hin & Hheld & Hcan & Hd).
  rewrite Hpc in Hin. destruct Hin as [_ Hin].
  assert (l ≠ Owned) as Hl by (intros ->; by specialize (Hin eq_refl)).
  rewrite Hs, IS_ACTIVE_word, helper_word by done.
  assert (bool_decide (l ≠ Free) && bool_decide (l ≠ Helped) = false) as -> by (by destruct l). apply good_ok.
  set (wk' := set_flags _ wk). set (c' := goto _ _ _).
  assert (workers c' = <[t := wk']> (workers c)) as Hm by done.
  assert (pcs c' = <[t := Gone]> (pcs c)) as E by done.
  assert (dead wk' = dead wk) as Hdead by (apply dead_flags; simpl; by apply land_lor_other).
  assert (canceled wk' = true) as Hcan'.
  { unfold canceled. simpl. by rewrite land_lor_bit. }
  pose proof (inv_stage _ _ HI) as [t1 HS]. split.
  - by apply (locks_cancel c' wk (wflags wk')).
  - apply (links_put c c' t wk wk'); try done; [apply HI|congruence].
  - apply (threads_flags c c' t Gone t wk wk'); try done. apply HI.
  - exists t1. apply (stage_other N c c' t1 t Gone 0); rewrite ?Hpc, ?Hm; try done; auto with runtime; try apply HI.
    + rewrite (outstanding_put c c' t Gone t wk wk') by done. rewrite Hpc.
      assert (signalled wk' = signalled wk) as -> by (unfold signalled; by rewrite Hdead). simpl. lia.
    + simpl. apply flag_same.
    + intros x xk Hx Hxd. left. apply lookup_insert_Some in Hx as [[<- <-]|[Hne Hx]]; [|eauto].
      exists wk. split_and!; [done|congruence|by left].
    + by eapply link_steps_put.
    + intros xk Hne _ Hx. apply lookup_insert_Some in Hx as [[? _]|[_ Hx]]; [congruence|eauto].
  - rewrite Hm. apply (bound_put _ _ _ wk); [done|apply HI].
Qed.

(** ** A greedy leader's own action *)
Lemma own_inv l : pc_of c t = Own l -> good N (own_action t l c).
Proof.
  intros Hpc. pose proof (inv_threads _ _ HI t) as HT. rewrite Hpc in HT. destruct HT as (Hl & Hafter & wk & Hw & Hd & Hs).
  destruct (lead_phases _ Hl) as (_ & Hpre & _).
  unfold own_action. rewrite Hw. cbn [deref mbind res_bind]. rewrite Hs. unfold ACTIVE.
  change (word Owned ?p) with p. rewrite Z.eqb_refl. cbn [assert_that mbind res_bind]. rewrite lor1_pre by done.
  apply good_ok, (accept_inv t wk Owned Owned (new_phase l) Resume _ true); rewrite ?Hpc, ?Hafter; try done; auto with runtime.
  by rewrite decide_True.
Qed.

(** ** New workers *)
(** A new worker [wk] of [t], in front of the list of workers. *)
Section Register.
Context (c' : control) (wk : worker) (ph : Z) (Hnone : workers c !! t = None).
Context (Hm : workers c' = <[t := wk]> (workers c)) (E : pcs c' = <[t := InML]> (pcs c)).

Lemma register_old x xk : workers c !! x = Some xk -> workers c' !! x = Some xk.
Proof. intros Hx. rewrite Hm, lookup_insert_ne; [done|congruence]. Qed.

Lemma locks_register : held (pc_of c t) = None -> pc_of c t <> Gone -> is_phase ph -> wstate wk = word Owned ph ->
  canceled wk = false -> dead wk = false -> locks c'.
Proof.
  intros Hht Hgone Hph Hs Hcan Hdead.
  assert (forall x, held (pc_of c' x) = held (pc_of c x)) as Hh'
    by (intros x; rewrite (pc_step _ _ _ _ x E); destruct (decide (x = t)) as [->|]; [by rewrite Hht|done]).
  split.
  - intros x xk Hx. rewrite Hm in Hx. apply lookup_insert_Some in Hx as [[<- <-]|[Hne Hx]].
    + exists Owned, ph. rewrite (pc_step _ _ _ _ t E), decide_True, Hcan, Hdead by done. split_and!; try done.
      intros x. rewrite Hh'. intros Hx. apply (locks_held _ (inv_locks _ _ HI)) in Hx as [? ?]. congruence.
    + destruct (locks_worker _ (inv_locks _ _ HI) _ _ Hx) as (l2 & ph2 & ? & ? & ? & Hheld2 & Hc2 & ?).
      exists l2, ph2. rewrite (pc_step _ _ _ _ x E), decide_False by done. split_and!; try done.
      intros y. rewrite Hh'. apply Hheld2.
  - intros x. rewrite (pc_step _ _ _ _ x E). destruct (decide (x = t)) as [->|Hne].
    + intros _. rewrite Hm, lookup_insert_eq. eauto.
    + intros Hx. apply (locks_inside _ (inv_locks _ _ HI)) in Hx as [xk Hx]. exists xk. by apply register_old.
  - intros x y. rewrite Hh'. intros Hx. apply (locks_held _ (inv_locks _ _ HI)) in Hx as [xk Hx].
    exists xk. by apply register_old.
  - intros x y z. rewrite !Hh'. apply HI.
Qed.

Lemma links_register next : (available c').1 = Some t -> handshake c' = handshake c -> wnext wk = next ->
  closed (workers c) next -> leads_on (workers c) (available c).1 next -> links c'.
Proof.
  intros Ha Hh Hn Hnext Hon.
  assert (forall x xk, workers c !! x = Some xk -> closed (workers c) (wnext xk)) as Hcl by (apply links_closed, HI).
  assert (forall q, closed (workers c) q -> closed (workers c') q) as Hcl'.
  { intros q. apply closed_mono. intros x [xk Hx]. exists xk. by apply register_old. }
  split; rewrite ?Ha, ?Hh.
  - intros x xk Hx. rewrite Hm in Hx. apply lookup_insert_Some in Hx as [[<- <-]|[_ Hx]]; apply Hcl'; [by rewrite Hn|by eapply Hcl].
  - rewrite Hm. apply ranked_register; try done; [by rewrite Hn|]. apply HI.
  - intros x [= <-]. rewrite Hm, lookup_insert_eq. eauto.
  - apply Hcl'. by eapply handshake_closed.
  - intros x (xk & Hx & Hxd). rewrite Hm in *. apply lookup_insert_Some in Hx as [[<- <-]|[Hne Hx]]; [apply reach_here|].
    eapply reach_step; [apply lookup_insert_eq|]. rewrite Hn. apply reach_register; [done..|].
    apply Hon; [by exists xk|]. apply HI. by exists xk.
Qed.
End Register.

Lemma register_inv old next : Z.of_nat t < N -> pc_of c t = RegisterWalk old next -> good N (register_worker t old next o c).
Proof.
  intros HtN Hpc. pose proof (inv_threads _ _ HI t) as HT. rewrite Hpc in HT. destruct HT as (Hnone & Hold & Hnext & Hon).
  unfold register_worker. case_match; [by goto_inv Hpc|].
  destruct (skip_dead_ok c next Hnext) as [[Hsk _]|(w & wk & -> & Hw & Hd & Hsk)]; rewrite Hsk; cbn [mbind res_bind].
  2: { goto_inv Hpc. split_and!; try done; [by eapply links_closed; [apply HI|]|by eapply leads_on_skip]. }
  case_match eqn:Hcas; [|goto_inv Hpc; split_and!; [done|by eapply available_closed..|apply leads_on_refl]].
  apply andb_true_iff in Hcas as [Hcas _]. apply bool_decide_eq_true in Hcas. subst old.
  apply good_ok. set (wk := Worker _ _ _ _). set (c' := goto _ _ _).
  pose proof (inv_stage _ _ HI) as [t1 HS]. pose proof (stage_post _ _ _ HS) as Hpost.
  pose proof (post_phase _ Hpost) as Hph. set (aph := (available c).2) in *.
  assert (workers c' = <[t := wk]> (workers c)) as Hm by done.
  assert (pcs c' = <[t := InML]> (pcs c)) as E by done.
  assert (forall x xk, workers c !! x = Some xk -> closed (workers c) (wnext xk)) as Hcl by (apply links_closed, HI).
  assert (forall x xk, workers c !! x = Some xk -> workers c' !! x = Some xk) as Hput by (by apply (register_old c' wk)).
  split.
  - apply (locks_register c' wk aph); rewrite ?Hpc; done.
  - by apply (links_register c' wk Hnone Hm next).
  - intros x. rewrite (pc_step _ _ _ _ x E). destruct (decide (x = t)) as [->|Hne]; [done|].
    rewrite Hm. apply thread_ok_register; try done. apply HI.
  - exists t1. apply (stage_other N c c' t1 t InML 0); rewrite ?Hpc; try done; try apply HI.
    + unfold outstanding. rewrite Hm, E, tally_pc, Hpc. pose proof (tally_insert signalled (workers c) t wk) as Ht.
      rewrite Hnone in Ht. simpl in Ht.
      assert (signalled wk = false) as Hsig.
      { rewrite (signalled_word wk Owned aph) by done. by apply even_post. }
      rewrite Hsig in Ht. simpl in *. lia.
    + simpl. apply flag_same.
    + intros x xk Hx Hxd. rewrite Hm in Hx. apply lookup_insert_Some in Hx as [[<- <-]|[Hne Hx]].
      * right. split; [done|]. simpl. by apply (PHASE_word Owned).
      * left. eauto.
    + split; [eauto|]. intros q w Hq. rewrite Hm. by apply reach_register.
    + intros xk Hne _ Hx. rewrite Hm, lookup_insert_ne in Hx by done. eauto.
  - intros x [xk Hx]. rewrite Hm in Hx. apply lookup_insert_Some in Hx as [[<- _]|[_ Hx]]; [done|]. apply HI. eauto.
Qed.
End Steps.
