(* ===== verification/ControlLead.v ===== *)
(** * The steps of the thread that leads

    The last response makes a thread the leader: it changes the phase of
    every worker and adds their number to the counter.  These steps keep the
    invariant of ControlInv.v, too. *)
From Stdlib Require Import ZArith Lia.
From stdpp Require Import base option list gmap relations.
From S2P Require Import Prelude Bits Layout Segment Alloc Control ControlFacts ControlInv ControlFrame ControlSteps.

Local Open Scope Z_scope.

Lemma u32_id x : 0 <= x < 2 ^ 32 -> u32 x = x.
Proof. apply Z.mod_small. Qed.

(** As many different workers as there can be. *)
Lemma worker_bound N (m : gmap nat worker) xs : (forall w, is_Some (m !! w) -> Z.of_nat w < N) ->
  NoDup xs -> (forall x, x ∈ xs -> is_Some (m !! x)) -> 0 <= N -> Z.of_nat (length xs) <= N.
Proof.
  intros HB Hnd Hxs HN.
  assert (length xs <= length (seq 0 (Z.to_nat N)))%nat as Hle.
  { apply submseteq_length, NoDup_submseteq; [done|]. intros x Hx. apply elem_of_seq. specialize (HB x (Hxs x Hx)). lia. }
  rewrite length_seq in Hle. lia.
Qed.

Lemma outstanding_zero c : outstanding c = 0 ->
  (forall w, idle c w) /\ forall w wk, workers c !! w = Some wk -> dead wk = false -> signalled wk = false.
Proof.
  unfold outstanding. intros H. split.
  - intros w t s g k Hp. assert (tally is_act (pcs c) = 0%nat) as H0 by lia. apply tally_zero with (k := t) (v := Act w s g k) in H0; [done|].
    unfold pc_of in Hp. destruct (pcs c !! t); simpl in *; congruence.
  - intros w wk Hw _. assert (tally signalled (workers c) = 0%nat) as H0 by lia. by eapply tally_zero in H0.
Qed.

Lemma outstanding_act c t w s g k : pc_of c t = Act w s g k -> 1 <= outstanding c.
Proof.
  intros Hp. unfold outstanding. assert (0 < tally is_act (pcs c))%nat; [|lia].
  apply (tally_pos _ _ t (Act w s g k)); [|done]. unfold pc_of in Hp. destruct (pcs c !! t); simpl in *; congruence.
Qed.

(** Locks and phases are worker words. *)
Lemma live_word N c w wk : Inv N c -> workers c !! w = Some wk ->
  exists l ph, is_phase ph /\ wstate wk = word l ph /\ PHASE (wstate wk) = ph.
Proof.
  intros HI Hw. destruct (locks_worker _ (inv_locks _ _ HI) _ _ Hw) as (l & ph & Hph & Hs & _).
  exists l, ph. rewrite Hs, PHASE_word by done. done.
Qed.

(** With nothing outstanding, every worker has the phase of [available]. *)
Lemma calm_phases N c t : Inv N c -> Stage N c t -> leading (pc_of c t) = false -> outstanding c = 0 ->
  all_live (workers c) (fun _ ph => ph = (available c).2).
Proof.
  intros HI HS Hl Ho w wk Hw Hd. destruct (live_word N c w wk HI Hw) as (l & ph & Hph & Hs & HP).
  apply outstanding_zero in Ho as [_ Ho]. specialize (Ho w wk Hw Hd).
  rewrite (signalled_word wk l ph) in Ho by done. apply even_post in Ho; [|done].
  pose proof (stage_phases _ _ _ HS w wk Hw Hd) as Hp. rewrite calm_phase in Hp by done. rewrite HP in *.
  destruct Hp as [Hp|]; [|done]. pose proof (stage_post _ _ _ HS) as Hpost. rewrite <- Hp in Hpost.
  unfold post in *. lia.
Qed.

(** ** Becoming the leader *)
Section Start.
Context (N : Z) (HN : N < 2 ^ 32 - 1) (c c' : control) (t : nat) (p : pc) (HI : Inv N c).

Lemma lead_start : workers c' = workers c -> pcs c' = <[t := p]> (pcs c) ->
  available c' = available c -> handshake c' = handshake c ->
  inside p = inside (pc_of c t) -> held p = held (pc_of c t) -> pc_of c t ≠ Gone ->
  (forall t', leading (pc_of c t') = false) ->
  outstanding c' = 0 -> check_flag c' = 0 -> Z.odd (gc_count c') = true -> is_act p = false ->
  thread_ok (workers c) t p ->
  (forall t', t' ≠ t -> is_act (pc_of c t') = false) -> all_live (workers c) (fun _ ph => ph = (available c).2) ->
  (exists l, p = GlobalLoad l /\ old_phase l = (available c).2) \/ (exists k, p = Finish k /\ (available c).2 = ASYNC) ->
  Inv N c'.
Proof.
  intros Hm E Ha Hh Hin Hheld Hg Hno Ho Hf Hgc Hact H0 Hidle Hall Hp. destruct HI as [HL HK HT [t1 HS] HB].
  split.
  - by eapply locks_goto.
  - apply (links_goto c c'); try done. rewrite Hh. apply HK.
  - by eapply threads_goto.
  - exists t. assert (pc_of c' t = p) as Hpt by (by rewrite (pc_step _ _ _ _ t E), decide_True). split; rewrite ?Hpt, ?Hm, ?Ha.
    + intros t'. rewrite (pc_step _ _ _ _ t' E). destruct (decide (t' = t)); [done|]. by rewrite Hno.
    + done.
    + apply HS.
    + intros t' w s g k. rewrite (pc_step _ _ _ _ t' E). destruct (decide (t' = t)) as [->|Hne].
      * intros ->. done.
      * intros Hp'. specialize (Hidle t' Hne). by rewrite Hp' in Hidle.
    + rewrite Hf, Ho. destruct Hp as [(l & -> & _)|(k & -> & _)]; reflexivity.
    + destruct Hp as [(l & -> & Hl)|(k & -> & Hl)]; simpl; rewrite Ha; by split.
    + intros w wk Hw Hd. specialize (Hall w wk Hw Hd). destruct Hp as [(l & -> & Hl)|(k & -> & Hl)]; simpl in *; congruence.
    + destruct Hp as [(l & -> & _)|(k & -> & _)]; done.
  - by rewrite Hm.
Qed.
End Start.

Section Lead.
Context (N : Z) (HN0 : 0 <= N) (HN : N < 2 ^ 32 - 1) (c : control) (t : nat) (o : oracle) (HI : Inv N c).

(** Where a response is due, nobody leads when the counter is 1. *)
Lemma no_leader w s g k : pc_of c t = Act w s g k -> check_flag c = 1 ->
  outstanding c = 1 /\ Z.odd (gc_count c) = true /\ forall t', leading (pc_of c t') = false.
Proof.
  intros Hpc Hf. pose proof (outstanding_act c t w s g k Hpc) as Ho. pose proof (inv_stage _ _ HI) as [t1 HS].
  pose proof (stage_flag _ _ _ HS) as Hfl. rewrite Hf in Hfl.
  assert (forall n, outstanding c <= n <= N -> 1 = u32 (outstanding c - n) -> False) as Hno.
  { intros n Hn E. unfold u32 in E. pose proof (Z.div_mod (outstanding c - n) (2 ^ 32) ltac:(lia)) as Hdm. rewrite <- E in Hdm.
    assert ((outstanding c - n) / 2 ^ 32 < 0) by lia. nia. }
  destruct (leading (pc_of c t1)) eqn:Hl.
  - exfalso. pose proof (stage_progress _ _ _ HS) as Hp. destruct (pc_of c t1); simpl in *; try done; try lia.
    + destruct Hp as (_ & Hn & xs & Hnd & Hlen & Hxs). apply (Hno count); [|done].
      assert (Z.of_nat (length xs) <= N); [|lia].
      apply (worker_bound N (workers c)); try done; [apply HI|]. intros x Hx. by apply Hxs.
    + apply (Hno count); [lia|done].
    + apply (Hno count); [lia|done].
  - assert (outstanding c = 1) as Ho1.
    { rewrite calm_debt in Hfl by done. pose proof (stage_progress _ _ _ HS) as Hp. rewrite calm_progress in Hp by done.
      rewrite u32_id in Hfl by lia. lia. }
    split_and!; [done| |].
    + pose proof (stage_progress _ _ _ HS) as Hp. rewrite calm_progress in Hp by done. destruct Hp as (_ & [|[? _]]); [done|lia].
    + intros t'. destruct (leading (pc_of c t')) eqn:Hl'; [|done]. pose proof (stage_unique _ _ _ HS _ Hl'). congruence.
Qed.

(** Flags and the number of users change, the thread stays. *)
Lemma flags_inv w wk wk' : pc_of c t ≠ Outside -> pc_of c t ≠ Gone -> leading (pc_of c t) = false ->
  workers c !! w = Some wk -> (exists l ph, is_phase ph /\ wstate wk = word l ph /\ owns c t w l ph) ->
  wstate wk' = wstate wk -> wnext wk' = wnext wk -> dead wk' = dead wk -> canceled wk' = canceled wk ->
  Inv N (put_worker w wk' c).
Proof.
  intros Ho Hg Hl Hw (l & ph & Hph & Hs & Hown) Hs' Hn Hd Hc. set (c' := put_worker w wk' c).
  assert (pcs c' = <[t := pc_of c t]> (pcs c)) as E by (by rewrite pcs_id).
  assert (locks c') as HL'.
  { apply (locks_same c c' t (pc_of c t) w wk wk'); try done; [apply HI|congruence|]. intros l2 ph2 ? ? Hdd.
    exists ph2. rewrite Hs', Hc, Hd. done. }
  apply (inv_put N c c' t (pc_of c t) w wk wk' l ph 0); try done; auto.
  - left. by rewrite Hs'.
  - change (check_flag c') with (check_flag c). by eapply flag_same.
  - unfold signalled. rewrite Hd, Hs'. lia.
  - apply (thread_ok_put _ _ _ _ wk); try done; auto; try (intros; congruence). apply HI.
Qed.

Lemma after_act w s g k : pc_of c t = Act w s g k -> after_ok (workers c) k /\ (g = true -> k = Resume) /\ s + 1 = (available c).2.
Proof.
  intros Hpc. pose proof (inv_threads _ _ HI t) as HT. rewrite Hpc in HT.
  pose proof (inv_stage _ _ HI) as [t1 HS]. pose proof (stage_acts _ _ _ HS _ _ _ _ _ Hpc) as Ha.
  destruct HT as (Hs & (Hw & (wk & Hk & Hd & Hst) & Hns) & Hg). split_and!; [|done..].
  destruct k as [| |w' ns]; [done..|]. simpl in *. subst w'. exists (s + 1), wk. rewrite (Hns w ns eq_refl).
  split_and!; auto with runtime.
Qed.

Lemma return_ok k : after_ok (workers c) k -> thread_ok (workers c) t (return_to k).
Proof. destruct k; simpl; [done..|]. auto. Qed.

Lemma answered_inv w s g k last p : pc_of c t = Act w s g k ->
  (forall n, last (set_check_flag n c) = goto t p (set_check_flag n c)) ->
  (exists l, p = GlobalLoad l /\ lead_ok l /\ old_phase l = s + 1 /\ after l = k) \/ (p = Finish k /\ s + 1 = ASYNC) ->
  Inv N (answered t k c last).
Proof.
  intros Hpc Hlast Hp. destruct (after_act w s g k Hpc) as (Hk & Hg & Ha). unfold answered.
  destruct (check_flag c =? 1) eqn:Hf.
  - apply Z.eqb_eq in Hf. destruct (no_leader w s g k Hpc Hf) as (Ho & Hgc & Hno). rewrite Hlast.
    pose proof (inv_stage _ _ HI) as [t1 HS].
    set (c' := goto t p _). assert (is_act p = false) as Hact by (destruct Hp as [(l & -> & _)|[-> _]]; done).
    assert (outstanding c' = 0) as Ho'.
    { rewrite (outstanding_goto c c' t p) by done. rewrite Hpc, Hact, Ho. reflexivity. }
    assert (forall t', t' ≠ t -> is_act (pc_of c t') = false) as Hidle.
    { intros t' Hne. destruct (is_act (pc_of c t')) eqn:Hi; [|done]. destruct (pc_of c t') eqn:Hp'; try done.
      pose proof (outstanding_act c' t' w0 phase greedy k0) as H1. rewrite Ho' in H1.
      assert (1 <= 0); [|lia]. apply H1. unfold c'. rewrite pc_goto_ne by done. done. }
    apply (lead_start N c c' t p); try done; rewrite ?Hpc; try (destruct Hp as [(l & -> & _ & _ & <-)|[-> _]]; done).
    + simpl. by rewrite Hf.
    + destruct Hp as [(l & -> & Hl & _ & <-)|[-> _]]; [by split|done].
    + intros x xk Hx Hd. destruct (live_word N c x xk HI Hx) as (l & ph & Hph & Hs & HP). rewrite HP.
      assert (signalled xk = false) as Hsig.
      { destruct (outstanding_zero c' Ho') as [_ H1]. by apply (H1 x xk). }
      rewrite (signalled_word xk l ph) in Hsig by done. apply even_post in Hsig; [|done].
      pose proof (stage_phases _ _ _ HS x xk Hx Hd) as Hp1. rewrite calm_phase, HP in Hp1 by apply Hno.
      pose proof (stage_post _ _ _ HS) as Hpost. unfold post in *. lia.
    + rewrite <- Ha. destruct Hp as [(l & -> & _ & ? & _)|[-> ?]]; [left; eauto|right; eauto].
  - apply (inv_goto N c _ t (return_to k) 1); rewrite ?Hpc; try done; try (by destruct k).
    simpl. by eapply handshake_closed.
Qed.

End Lead.

Section Leader.
Context (N : Z) (HN0 : 0 <= N) (HN : N < 2 ^ 32 - 1) (c : control) (t : nat) (o : oracle) (HI : Inv N c).

Lemma act_inv w s g k : pc_of c t = Act w s g k -> good N (act t w s g k o c).
Proof.
  intros Hpc. destruct (act_owns N c t w s g k HI Hpc) as (wk & Hw & Hd & Hs & Hst & Hown).
  destruct (after_act N c t HI w s g k Hpc) as (Hk & Hg & Ha).
  assert (is_phase (s + 1)) as Hph by eauto with runtime.
  assert (exists l ph, is_phase ph /\ wstate wk = word l ph /\ owns c t w l ph) as Hx by eauto.
  unfold act. destruct Hs as [->|[->|[->| ->]]]; cbn -[answered Z.lor Z.ldiff].
  - unfold worker_async. apply good_ok, (answered_inv N HN0 HN c t HI w 0 g k _ (Finish k)); [done..|]. by right.
  - unfold worker_sync1. rewrite Hw. cbn [deref mbind res_bind]. apply good_ok.
    unfold answered. destruct (check_flag c =? 1) eqn:Hf.
    + set (wk' := set_flags _ wk). set (c1 := put_worker w wk' c).
      assert (Inv N c1) as HI1.
      { apply (flags_inv N c t HI w wk); rewrite ?Hpc; try done; [apply dead_flags|apply canceled_flags]; simpl; by apply land_lor_other. }
      pose proof (answered_inv N HN0 HN c1 t HI1 w 2 g k (fun c => goto t (GlobalLoad (Lead SYNC1 PRESYNC2 SYNC2 g k)) c)
        (GlobalLoad (Lead SYNC1 PRESYNC2 SYNC2 g k))) as H1.
      unfold answered in H1. change (check_flag c1) with (check_flag c) in H1. rewrite Hf in H1. apply H1; [done..|].
      left. eexists. split_and!; try done. split; [|done]. apply elem_of_cons. right. by left.
    + pose proof (answered_inv N HN0 HN c t HI w 2 g k (fun c => goto t (Finish k) c) (Finish k) Hpc) as H1.
      unfold answered in H1. rewrite Hf in H1.
      apply (inv_goto N c _ t (return_to k) 1); rewrite ?Hpc; try done; try (by destruct k).
      simpl. by eapply handshake_closed.
  - unfold worker_sync2. rewrite Hw. cbn [deref mbind res_bind]. apply good_ok.
    set (wk' := set_flags _ _). set (c1 := put_worker w wk' c).
    assert (Inv N c1) as HI1.
    { apply (flags_inv N c t HI w wk); rewrite ?Hpc; try done; [apply dead_flags|apply canceled_flags]; simpl; by apply land_ldiff_other. }
    apply (answered_inv N HN0 HN c1 t HI1 w 4 g k _ (GlobalLoad (Lead SYNC2 PREMARK MARK g k))); [done..|].
    left. eexists. split_and!; try done. split; [|done]. by repeat (apply elem_of_cons; (by left) || right).
  - unfold worker_mark. apply good_ok.
    destruct (mark_finished o);
      [apply (answered_inv N HN0 HN c t HI w 6 g k _ (GlobalLoad (Lead MARK PREASYNC ASYNC g k)))
      |apply (answered_inv N HN0 HN c t HI w 6 g k _ (GlobalLoad (Lead MARK PREMARK MARK g k)))]; try done;
      (left; eexists; split_and!; try done; split; [|done]; by repeat (apply elem_of_cons; (by left) || right)).
Qed.

(** The trigger of a collection. *)
Lemma gc_inv g k : (pc_of c t = InML /\ k = Resume) \/ (pc_of c t = Outside /\ k = Leave /\ g = false) ->
  good N (sml_gc t g k c).
Proof.
  intros Hk. unfold sml_gc. destruct (Z.odd (gc_count c)) eqn:Hodd; [by apply good_ok|]. apply good_ok.
  pose proof (inv_stage _ _ HI) as [t1 HS].
  assert (forall t', leading (pc_of c t') = false) as Hno.
  { intros t'. destruct (leading (pc_of c t')) eqn:Hl; [|done]. pose proof (stage_unique _ _ _ HS _ Hl) as ->.
    apply (stage_odd _ _ _ HS) in Hl. congruence. }
  pose proof (stage_progress _ _ _ HS) as Hp. rewrite calm_progress in Hp by done. destruct Hp as (_ & [?|[Ho Ha]]); [congruence|].
  pose proof (stage_flag _ _ _ HS) as Hf. rewrite calm_debt, Ho in Hf by done. simpl in Hf.
  set (p := GlobalLoad _). set (c' := goto _ _ _).
  assert (is_act (pc_of c t) = false) as Hact by (destruct Hk as [[-> _]|[-> _]]; done).
  apply (lead_start N c c' t p); try done; rewrite ?Ha; try (destruct Hk as [[-> ->]|(-> & -> & ->)]; done).
  - rewrite (outstanding_goto c c' t p) by done. by rewrite Hact, Ho.
  - simpl. rewrite <- Z.bit0_odd, Z.lor_spec. apply orb_true_r.
  - split; [|by destruct Hk as [[_ ->]|(_ & -> & _)]]. split; [simpl; by left|]. simpl.
    destruct Hk as [[_ ->]|(_ & _ & ->)]; done.
  - intros t' _. destruct (is_act (pc_of c t')) eqn:Hi; [|done]. destruct (pc_of c t') eqn:Hp'; try done.
    pose proof (outstanding_act c t' _ _ _ _ Hp'). lia.
  - rewrite <- Ha. by apply (calm_phases N c t1).
  - left. by eexists.
Qed.

(** ** Changing the phase *)

(** The leader's steps that change no worker. *)
Lemma leader_stage : leading (pc_of c t) = true -> Stage N c t.
Proof. intros Hl. pose proof (inv_stage _ _ HI) as [t1 HS]. by rewrite (stage_unique _ _ _ HS t Hl). Qed.

Lemma leader_goto c' p : leading (pc_of c t) = true -> workers c' = workers c -> pcs c' = <[t := p]> (pcs c) ->
  available c' = available c -> closed (workers c) (handshake c').1 -> gc_count c' = gc_count c ->
  inside p = inside (pc_of c t) -> held p = held (pc_of c t) -> leading p = true ->
  check_flag c' = check_flag c -> debt p = debt (pc_of c t) -> thread_ok (workers c) t p ->
  (forall ck, workers ck = workers c -> available ck = available c -> outstanding ck = outstanding c -> progress N ck p) ->
  (forall ck, workers ck = workers c -> available ck = available c ->
     (forall w, idle c w -> idle ck w) -> all_live (workers c) (phase_ok ck p)) ->
  (forall ck, workers ck = workers c -> own_ok ck t p) ->
  Inv N c'.
Proof.
  intros Hl Hm E Ha Hh Hgc Hin Hheld Hl' Hf Hdebt H0 Hprog Hphase Hown.
  pose proof (leader_stage Hl) as HS.
  assert (pc_of c t ≠ Gone) as Hg by (by intros Hp; rewrite Hp in Hl).
  assert (is_act (pc_of c t) = false /\ is_act p = false) as [Hna Hna'] by (destruct (pc_of c t), p; done).
  assert (outstanding c' = outstanding c) as Ho.
  { rewrite (outstanding_goto c c' t p) by done. rewrite Hna, Hna'. simpl. lia. }
  assert (pc_of c' t = p) as Hpt by (by rewrite (pc_step _ _ _ _ t E), decide_True).
  split.
  - eapply locks_goto; try done. apply HI.
  - apply (links_goto c c'); try done. apply HI.
  - eapply threads_goto; try done. apply HI.
  - exists t. split; rewrite ?Hpt.
    + intros t'. rewrite (pc_step _ _ _ _ t' E). destruct (decide (t' = t)); [done|]. apply HS.
    + intros _. rewrite Hgc. by apply HS.
    + rewrite Ha. apply HS.
    + intros t' w s g k. rewrite Ha, (pc_step _ _ _ _ t' E). destruct (decide (t' = t)) as [->|]; [intros ->; done|apply HS].
    + rewrite Hf, Ho, Hdebt. apply HS.
    + by apply Hprog.
    + rewrite Hm. apply Hphase; try done. intros w Hi t' s g k. rewrite (pc_step _ _ _ _ t' E).
      destruct (decide (t' = t)) as [->|]; [intros ->; done|apply Hi].
    + by apply Hown.
  - rewrite Hm. apply HI.
Qed.

Lemma global_load_inv l : pc_of c t = GlobalLoad l -> Inv N (goto t (GlobalWalk l (available c) (available c).1) c).
Proof.
  intros Hpc. pose proof (inv_threads _ _ HI t) as HT. rewrite Hpc in HT. destruct HT as [Hl Hk].
  assert (leading (pc_of c t) = true) as Hld by (by rewrite Hpc). pose proof (leader_stage Hld) as HS.
  apply (leader_goto _ (GlobalWalk l (available c) (available c).1)); rewrite ?Hpc; try done.
  - exact (handshake_closed N c HI).
  - split_and!; try done; [by eapply available_closed..|apply leads_on_refl].
  - pose proof (stage_progress _ _ _ HS) as Hp. rewrite Hpc in Hp. simpl in *. intros ck _ -> ->. done.
  - pose proof (stage_phases _ _ _ HS) as Hp. rewrite Hpc in Hp. simpl in *. done.
Qed.

Lemma global_walk_inv l old ret : pc_of c t = GlobalWalk l old ret -> good N (global_phase t l old ret o c).
Proof.
  intros Hpc. pose proof (inv_threads _ _ HI t) as HT. rewrite Hpc in HT. destruct HT as (Hl & Hk & Hold & Hret & Hon).
  assert (leading (pc_of c t) = true) as Hld by (by rewrite Hpc). pose proof (leader_stage Hld) as HS.
  pose proof (stage_progress _ _ _ HS) as Hp. rewrite Hpc in Hp. simpl in Hp.
  pose proof (stage_phases _ _ _ HS) as Hph. rewrite Hpc in Hph.
  assert (forall old ret, closed (workers c) old.1 -> closed (workers c) ret -> leads_on (workers c) old.1 ret ->
            good N (Ok (goto t (GlobalWalk l old ret) c))) as Hmove.
  { intros old' ret' H1 H2 H3. apply good_ok.
    apply (leader_goto _ (GlobalWalk l old' ret')); rewrite ?Hpc; try done.
    - exact (handshake_closed N c HI).
    - simpl. intros ck _ -> ->. done. }
  unfold global_phase. rewrite lead_global by done. cbn [assert_that mbind res_bind].
  destruct (skip_dead_ok c ret Hret) as [[Hsk Hlive]|(w & wk & -> & Hw & Hd & Hsk)]; rewrite Hsk; cbn [mbind res_bind].
  2: { apply Hmove; [done|by eapply links_closed; [apply HI|]|by eapply leads_on_skip]. }
  case_match eqn:Hcas; [|apply Hmove; [by eapply available_closed..|apply leads_on_refl]].
  apply andb_true_iff in Hcas as [Hcas _]. apply bool_decide_eq_true in Hcas. subst old.
  apply good_ok. set (p := Change l ret None 0). set (c' := goto _ _ _).
  assert (pcs c' = <[t := p]> (pcs c)) as E by done.
  assert (pc_of c' t = p) as Hpt by (by rewrite (pc_step _ _ _ _ t E), decide_True).
  destruct Hp as [Ho Ha]. destruct (outstanding_zero c Ho) as [Hidle _].
  assert (outstanding c' = outstanding c) as Ho'.
  { rewrite (outstanding_goto c c' t p) by done. rewrite Hpc. simpl. lia. }
  assert (forall w, live (workers c) w -> reach (workers c) ret w) as Hall.
  { intros w Hw. apply Hon; [done|]. by apply HI. }
  split.
  - apply (locks_goto c c' t p); rewrite ?Hpc; try done. apply HI.
  - split; try apply HI; simpl; [done|]. exact Hall.
  - apply (threads_goto c c' t p (inv_threads _ _ HI)); try done.
  - exists t. split; rewrite ?Hpt.
    + intros t'. rewrite (pc_step _ _ _ _ t' E). destruct (decide (t' = t)); [done|]. apply HS.
    + intros _. by apply HS.
    + simpl. by destruct (lead_phases _ Hl) as (_ & _ & ? & _).
    + intros t' w s g k. rewrite (pc_step _ _ _ _ t' E). destruct (decide (t' = t)) as [->|]; [done|].
      intros Hp. by apply Hidle in Hp.
    + simpl. change (check_flag c') with (check_flag c). rewrite Ho', (stage_flag _ _ _ HS), Hpc. done.
    + simpl. split_and!; [done|lia|]. exists []. split_and!; [constructor|done|]. intros x Hx. by apply not_elem_of_nil in Hx.
    + intros w wk Hw Hd. left. simpl. split_and!.
      * apply Hall. by exists wk.
      * by apply (Hph w wk).
      * intros t' s g k. rewrite (pc_step _ _ _ _ t' E). destruct (decide (t' = t)) as [->|]; [done|apply Hidle].
    + simpl. intros Hg wk Hw. left. apply Hall. exists wk. split; [done|].
      destruct (inside_word N c t HI) as (wk2 & _ & Hw2 & _ & _ & Hd & _); [|congruence].
      rewrite Hpc. simpl. destruct Hl as [_ Hl]. by rewrite (Hl Hg).
  - apply HI.
Qed.
End Leader.
