(* ===== verification/ControlChange.v ===== *)
(** * The loop of [change_phase] and the end of a handshake

    The leader's steps from the first worker it changes to the addition to
    the counter, and the end of a collection, keep the invariant. *)
From Stdlib Require Import ZArith Lia.
From stdpp Require Import base option list gmap relations.
From S2P Require Import Prelude Bits Layout Segment Alloc Control ControlFacts ControlInv ControlFrame ControlSteps ControlLead.

Local Open Scope Z_scope.

Lemma idle_leader c c' t p w : pcs c' = <[t := p]> (pcs c) -> is_act p = false -> idle c w -> idle c' w.
Proof.
  intros E Hp Hi t' s g k. rewrite (pc_step _ _ _ _ t' E). destruct (decide (t' = t)) as [->|]; [by intros ->|apply Hi].
Qed.

(** Whom a focus is on is signalled or being acted on. *)
Lemma focus_phase N c t w wk : Inv N c -> focus t (pc_of c t) = Some w -> workers c !! w = Some wk ->
  (exists s g k, pc_of c t = Act w s g k) \/ pre (PHASE (wstate wk)).
Proof.
  intros HI Hf Hw. pose proof (inv_threads _ _ HI t) as HT. destruct (pc_of c t) eqn:Hpc; cbn [thread_ok focus] in *; try done; simplify_eq.
  - right. destruct HT as (Hs & wk' & Hw' & _ & Hst). assert (wk' = wk) as -> by congruence.
    rewrite Hst, PHASE_word; eauto with runtime.
  - left. eauto.
  - right. destruct HT as (Hl & _ & wk' & Hw' & _ & Hst). assert (wk' = wk) as -> by congruence.
    destruct (lead_phases _ Hl) as (_ & ? & _). rewrite Hst, PHASE_word; eauto with runtime.
  - right. destruct HT as (ph & Hph & -> & wk' & Hw' & _ & Hst). assert (wk' = wk) as -> by congruence.
    rewrite Hst, PHASE_word; eauto with runtime.
Qed.

Section Change.
Context (N : Z) (HN0 : 0 <= N) (HN : N < 2 ^ 32 - 1) (c : control) (t : nat) (o : oracle) (HI : Inv N c).
Context (l : lead) (head prev : option nat) (n : Z) (Hpc : pc_of c t = Change l head prev n).
Abbreviation m := (workers c).
Abbreviation i := (position m head prev).

Lemma change_stage : Stage N c t.
Proof. apply leader_stage; [done|]. by rewrite Hpc. Qed.

Lemma change_thread : lead_ok l /\ after_ok m (after l) /\ closed m head /\ closed m prev /\
  (prev = None -> forall w wk, head = Some w -> m !! w = Some wk -> dead wk = false).
Proof. pose proof (inv_threads _ _ HI t) as HT. by rewrite Hpc in HT. Qed.

Lemma change_closed : closed m i.
Proof. destruct change_thread as (_ & _ & ? & ? & _). apply closed_position; [apply HI|done]. Qed.

Lemma change_progress : (available c).2 = global l /\ outstanding c <= n /\
  exists xs, NoDup xs /\ Z.of_nat (length xs) = n /\ forall x, x ∈ xs -> is_Some (m !! x) /\ ~ reach m i x.
Proof. pose proof (stage_progress _ _ _ change_stage) as H. by rewrite Hpc in H. Qed.

Lemma change_live w wk : m !! w = Some wk -> dead wk = false ->
  (reach m i w /\ PHASE (wstate wk) = old_phase l /\ idle c w) \/
  (~ reach m i w /\ (PHASE (wstate wk) = new_phase l \/ PHASE (wstate wk) = global l)).
Proof. intros Hw Hd. pose proof (stage_phases _ _ _ change_stage w wk Hw Hd) as H. by rewrite Hpc in H. Qed.

(** The worker at [*i] has the old phase and nothing to do. *)
Lemma change_here w wk : i = Some w -> m !! w = Some wk -> dead wk = false -> PHASE (wstate wk) = old_phase l /\ idle c w.
Proof.
  intros Hi Hw Hd. destruct (change_live w wk Hw Hd) as [(_ & ? & ?)|[Hr _]]; [done|].
  destruct Hr. rewrite Hi. apply reach_here.
Qed.

Lemma own_reach : greedy l = true -> exists wk, m !! t = Some wk /\ dead wk = false /\ canceled wk = false /\
  (reach m i t \/ PHASE (wstate wk) = new_phase l).
Proof.
  intros Hg. destruct change_thread as ([_ Hl] & _).
  destruct (inside_word N c t HI) as (wk & ph & Hw & _ & _ & Hd & Hc); [rewrite Hpc; simpl; by rewrite (Hl Hg)|].
  exists wk. split_and!; try done. pose proof (stage_own _ _ _ change_stage) as H. rewrite Hpc in H. by apply H.
Qed.

(** The next turn of the loop, with the worker [prev'] behind [*i]. *)
Lemma next_stage c' prev' n' : pcs c' = <[t := Change l head prev' n']> (pcs c) -> available c' = available c ->
  gc_count c' = gc_count c -> check_flag c' = check_flag c -> outstanding c' - n' = outstanding c - n ->
  (exists xs, NoDup xs /\ Z.of_nat (length xs) = n' /\
     forall x, x ∈ xs -> is_Some (workers c' !! x) /\ ~ reach (workers c') (position (workers c') head prev') x) ->
  (forall w wk, workers c' !! w = Some wk -> dead wk = false ->
     (reach (workers c') (position (workers c') head prev') w /\ PHASE (wstate wk) = old_phase l /\ idle c w) \/
     (~ reach (workers c') (position (workers c') head prev') w /\ (PHASE (wstate wk) = new_phase l \/ PHASE (wstate wk) = global l))) ->
  (greedy l = true -> forall wk, workers c' !! t = Some wk ->
     reach (workers c') (position (workers c') head prev') t \/ PHASE (wstate wk) = new_phase l) ->
  Stage N c' t.
Proof.
  intros E Ha Hgc Hf Ho Hxs Hph Hown. pose proof change_stage as HS. destruct change_progress as (Hav & Hle & _).
  assert (pc_of c' t = Change l head prev' n') as Hpt by (by rewrite (pc_step _ _ _ _ t E), decide_True).
  split; rewrite ?Hpt.
  - intros t'. rewrite (pc_step _ _ _ _ t' E). destruct (decide (t' = t)); [done|]. apply HS.
  - intros _. rewrite Hgc. apply HS. by rewrite Hpc.
  - rewrite Ha. apply HS.
  - intros t' w s g k. rewrite Ha, (pc_step _ _ _ _ t' E). destruct (decide (t' = t)) as [->|]; [done|apply HS].
  - rewrite Hf, (stage_flag _ _ _ HS), Hpc. simpl. f_equal. lia.
  - simpl. rewrite Ha. split_and!; [done|lia|done].
  - intros w wk Hw Hd. simpl. destruct (Hph w wk Hw Hd) as [(? & ? & ?)|]; [left|by right].
    split_and!; try done. by eapply idle_leader.
  - done.
Qed.

Lemma change_bound : n <= N.
Proof.
  destruct change_progress as (_ & _ & xs & Hnd & Hlen & Hxs). rewrite <- Hlen.
  apply (worker_bound N m); try done; [apply HI|]. intros x Hx. by apply Hxs.
Qed.

Lemma tally_workers_same c' w wk wk' p : m !! w = Some wk -> workers c' = <[w := wk']> m -> pcs c' = <[t := p]> (pcs c) ->
  is_act p = false -> outstanding c' = outstanding c - Z.b2z (signalled wk) + Z.b2z (signalled wk').
Proof.
  intros Hw Hm E Hp. rewrite (outstanding_put c c' t p w wk wk') by done. rewrite Hpc, Hp. simpl. lia.
Qed.

(** The workers behind [*i] have been passed, and those behind [q] too. *)
Lemma passed_put (m' : gmap nat worker) w wk wk' q : m' = <[w := wk']> m -> m !! w = Some wk ->
  (forall x, reach m' q x -> reach m i x) ->
  exists xs, NoDup xs /\ Z.of_nat (length xs) = n /\ forall x, x ∈ xs -> is_Some (m' !! x) /\ ~ reach m' q x.
Proof.
  intros -> Hw Hq. destruct change_progress as (_ & _ & xs & Hnd & Hlen & Hxs). exists xs. split_and!; [done..|].
  intros x Hx. destruct (Hxs x Hx) as [Hsx Hr]. split; [|by intros Hr'%Hq].
  destruct (decide (x = w)) as [->|]; [rewrite lookup_insert_eq|rewrite lookup_insert_ne by done]; eauto.
Qed.

(** A change of the worker at [*i]: its word stays, or it gets a signal. *)
Section Here.
Context (w : nat) (wk wk' : worker) (Hi : i = Some w) (Hw : m !! w = Some wk) (Hd : dead wk = false).
Hypothesis Hst : wstate wk' = wstate wk \/
  exists lk ph', wstate wk = word lk (old_phase l) /\ pre ph' /\ wstate wk' = word lk ph'.

Lemma after_put : after_ok (<[w := wk']> m) (after l).
Proof.
  destruct change_thread as (Hl & Hk & _). destruct (lead_phases l Hl) as (Hpost & _).
  destruct (after l) as [| |h ns]; [done..|].
  destruct Hk as (ph & hk & Hph & -> & Hh & Hor). destruct (decide (h = w)) as [->|Hhw].
  - assert (hk = wk) as -> by congruence. exists ph, wk'. rewrite lookup_insert_eq. split_and!; try done.
    destruct Hst as [->|(lk & ph' & Hs & Hpre & Hs')]; [done|]. right. exists ph'. split; [done|].
    assert (lk = Helped) as <-; [|done].
    destruct Hor as [Hor|(ph3 & Hph3 & Hor)]; rewrite Hs in Hor; apply word_inj in Hor as [-> _]; auto with runtime.
  - exists ph, hk. rewrite lookup_insert_ne by done. done.
Qed.

Lemma others_put : wnext wk' = wnext wk -> (dead wk' = false -> dead wk = false) ->
  forall t', t' ≠ t -> thread_ok (<[w := wk']> m) t' (pc_of c t').
Proof.
  intros Hn Hdd t' Hne. destruct (change_here w wk Hi Hw Hd) as [Hold Hidle].
  destruct change_thread as (Hl & _). destruct (lead_phases l Hl) as (Hpost & _).
  apply (thread_ok_put _ _ _ _ wk); try done; [| | |apply HI].
  - intros Hf. destruct (focus_phase N c t' w wk HI Hf Hw) as [(s & g & k & Hp)|Hpr]; [by apply Hidle in Hp|].
    rewrite Hold in Hpr. by destruct (pre_not_post _ Hpr Hpost).
  - intros Hheld. destruct Hst as [?|(lk & ph' & Hs & Hpre & Hs')]; [by left|right]. exists ph'. split; [done|].
    destruct (held_word N c t' w HI Hheld) as (wk2 & ph2 & Hw2 & Hph2 & Hs2 & _). assert (wk2 = wk) as -> by congruence.
    rewrite Hs in Hs2. apply word_inj in Hs2 as [-> _]; auto with runtime.
  - intros Hld. pose proof (stage_unique _ _ _ change_stage _ Hld). congruence.
Qed.
End Here.

(** A dead worker is taken out of the list. *)
Lemma unlink_inv p pk w wk : prev = Some p -> m !! p = Some pk -> wnext pk = Some w -> m !! w = Some wk -> dead wk = true ->
  Inv N (goto t (Change l head prev n) (put_worker p (set_next (wnext wk) pk) c)).
Proof.
  intros Hprev Hp Hn Hw Hd. set (c' := goto _ _ _). set (pk' := set_next _ _) in *.
  assert (workers c' = <[p := pk']> m) as Hm by done.
  assert (pcs c' = <[t := Change l head prev n]> (pcs c)) as E by done.
  assert (ranked m) as Hrk by apply HI.
  assert (i = Some w) as Hi by (rewrite Hprev; simpl; by rewrite Hp).
  assert (position (workers c') head prev = wnext wk) as Hi' by (rewrite Hprev, Hm; simpl; by rewrite lookup_insert_eq).
  assert (forall q, closed m q -> closed (workers c') q) as Hcl by (intros q; rewrite Hm; apply closed_put).
  assert (forall q x, reach (workers c') q x -> reach m q x) as Hinv by (intros q x; rewrite Hm; by apply (reach_unlink_inv m p pk w wk)).
  assert (forall q x, live m x -> reach m q x -> reach (workers c') q x) as Hfwd.
  { intros q x (xk & Hx & Hxd) Hr. rewrite Hm. apply (reach_unlink m p pk w wk); try done. intros ->. congruence. }
  assert (forall x, live (workers c') x -> live m x) as Hlv.
  { intros x (xk & Hx & Hxd). rewrite Hm in Hx. apply lookup_insert_Some in Hx as [[<- <-]|[_ Hx]]; [by exists pk|by exists xk]. }
  assert (forall x xk, workers c' !! x = Some xk -> exists xk0, m !! x = Some xk0 /\ wstate xk = wstate xk0 /\ dead xk = dead xk0) as Hold.
  { intros x xk Hx. rewrite Hm in Hx. apply lookup_insert_Some in Hx as [[<- <-]|[_ Hx]]; eauto. }
  assert (forall x, live m x -> reach (workers c') (wnext wk) x <-> reach m i x) as Hreach.
  { intros x Hx. rewrite Hi. split.
    - intros Hr. apply Hinv in Hr. by eapply reach_step.
    - intros Hr. apply Hfwd; [done|]. destruct (reach_inv m w wk x Hw Hr) as [->|]; [|done]. destruct Hx as (? & ? & ?). congruence. }
  split.
  - apply (locks_same c c' t (Change l head prev n) p pk pk'); rewrite ?Hpc; try done; [apply HI|]. intros; eauto.
  - split; rewrite ?Hm.
    + intros x xk Hx. rewrite <- Hm. apply Hcl. apply lookup_insert_Some in Hx as [[<- <-]|[_ Hx]].
      * exact (links_closed _ (inv_links _ _ HI) _ _ Hw).
      * exact (links_closed _ (inv_links _ _ HI) _ _ Hx).
    + by apply (ranked_unlink m p pk w wk).
    + rewrite <- Hm. apply Hcl. apply HI.
    + rewrite <- Hm. apply Hcl. apply HI.
    + intros x Hx. rewrite <- Hm in *. apply Hfwd; [by apply Hlv|]. apply HI. by apply Hlv.
  - intros t'. rewrite (pc_step _ _ _ _ t' E), Hm. apply (thread_ok_unlink _ _ _ p pk w wk); try done.
    destruct (decide (t' = t)) as [->|]; [|apply HI]. rewrite <- Hpc. apply HI.
  - exists t. apply (next_stage c' prev n); try done; rewrite ?Hi'.
    + rewrite (tally_workers_same c' p pk pk' (Change l head prev n)) by done. change (signalled pk') with (signalled pk). lia.
    + apply (passed_put _ p pk pk'); [done..|]. intros x Hr. rewrite Hi. eapply reach_step; [done|]. by apply Hinv.
    + intros x xk Hx Hxd. destruct (Hold x xk Hx) as (xk0 & Hx0 & -> & Hdd). rewrite Hdd in Hxd.
      rewrite Hreach by (by exists xk0). by apply change_live.
    + intros Hg xk Hx. destruct (own_reach Hg) as (xk0 & Hx0 & Hxd & _ & Hor). rewrite Hreach by (by exists xk0).
      destruct (Hold t xk Hx) as (xk1 & Hx1 & -> & _). assert (xk1 = xk0) as -> by congruence. done.
  - rewrite Hm. apply (bound_put _ _ _ pk); [done|apply HI].
Qed.

(** A canceled worker without users dies.  The first of the list stays and
    is passed over. *)
Lemma kill_inv w wk prev' : old_phase l = ASYNC -> i = Some w -> m !! w = Some wk -> dead wk = false -> canceled wk = true ->
  prev' = match prev with None => Some w | _ => prev end ->
  Inv N (goto t (Change l head prev' n) (put_worker w (set_flags (Z.lor (wflags wk) DEAD_FLAG) wk) c)).
Proof.
  intros Hasync Hi Hw Hd Hcan Hprev'. set (wk' := set_flags _ _). set (c' := goto _ _ _).
  destruct (change_here w wk Hi Hw Hd) as [Hold Hidle]. destruct change_thread as (Hl & Hk & Hch & Hcp & _).
  assert (workers c' = <[w := wk']> m) as Hm by done.
  assert (pcs c' = <[t := Change l head prev' n]> (pcs c)) as E by done.
  assert (dead wk' = true) as Hd' by (unfold dead; simpl; by rewrite land_lor_bit).
  assert (canceled wk' = true) as Hcan' by (rewrite <- Hcan; apply canceled_flags; simpl; by apply land_lor_other).
  assert (forall q x, reach (workers c') q x <-> reach m q x) as Hreach by (intros q x; rewrite Hm; by eapply reach_insert).
  assert (forall x xk, workers c' !! x = Some xk -> dead xk = false -> m !! x = Some xk /\ x ≠ w) as Hlive.
  { intros x xk Hx Hxd. rewrite Hm in Hx. apply lookup_insert_Some in Hx as [[<- <-]|[Hne Hx]]; [congruence|by split]. }
  assert (forall x, x ≠ w -> reach m (position (workers c') head prev') x <-> reach m i x) as Hpos.
  { intros x Hne. rewrite Hprev', Hi. destruct prev as [p|]; cbn [position] in *.
    - rewrite Hm. destruct (decide (p = w)) as [->|Hpw].
      + rewrite lookup_insert_eq. rewrite Hw in Hi. simpl in Hi |- *. by rewrite Hi.
      + rewrite lookup_insert_ne by done. by rewrite Hi.
    - rewrite Hm, lookup_insert_eq. simpl. split; [by apply reach_step|].
      intros Hr. destruct (reach_inv m w wk x Hw Hr); [congruence|done]. }
  assert (forall x, reach m (position (workers c') head prev') x -> reach m i x) as Hpos'.
  { intros x. destruct (decide (x = w)) as [->|]; [|by apply Hpos]. intros _. rewrite Hi. apply reach_here. }
  assert (post (old_phase l)) as Hpost by (by apply lead_phases).
  split.
  - apply (locks_same c c' t (Change l head prev' n) w wk wk'); rewrite ?Hpc; try done; [apply HI|].
    intros l2 ph2 Hph2 Hs2 _. exists ph2. split_and!; try done. intros _. split; [done|].
    rewrite Hs2, PHASE_word in Hold by done. congruence.
  - apply (links_put c c' w wk wk'); try done; apply HI.
  - intros t'. rewrite (pc_step _ _ _ _ t' E), Hm. destruct (decide (t' = t)) as [->|Hne];
      [|by apply (others_put w wk wk'); auto].
    simpl. split_and!; auto with runtime; [by apply (after_put w wk wk'); auto| |by rewrite Hprev'; destruct prev].
    apply closed_put. rewrite Hprev'. destruct prev; [done|]. intros x [= <-]. eauto.
  - exists t. apply (next_stage c' prev' n); try done.
    + rewrite (tally_workers_same c' w wk wk' (Change l head prev' n)) by done.
      assert (signalled wk' = false) as -> by (unfold signalled; by rewrite Hd').
      assert (signalled wk = false) as ->; [|lia]. unfold signalled. rewrite Hold, Hd. simpl. apply even_post; auto with runtime.
    + apply (passed_put _ w wk wk'); [done..|]. intros x Hr%Hreach. by apply Hpos'.
    + intros x xk Hx Hxd. destruct (Hlive x xk Hx Hxd) as [Hx' Hne]. rewrite Hreach, Hpos by done. by apply change_live.
    + intros Hg xk Hx. destruct (own_reach Hg) as (xk0 & Hx0 & Hxd & Hxc & Hor).
      assert (t ≠ w) as Hne by (intros ->; congruence). rewrite Hreach, Hpos by done.
      rewrite Hm, lookup_insert_ne in Hx by done. congruence.
  - rewrite Hm. apply (bound_put _ _ _ wk); [done|apply HI].
Qed.

(** The phase of a worker changes. *)
Lemma signal_inv w wk : i = Some w -> m !! w = Some wk -> dead wk = false ->
  Inv N (goto t (Change l head (Some w) (u32 (n + 1)))
    (put_worker w (set_state (Z.lxor (wstate wk) (Z.lxor (old_phase l) (new_phase l))) wk) c)).
Proof.
  intros Hi Hw Hd. destruct (change_here w wk Hi Hw Hd) as [Hold Hidle]. destruct change_thread as (Hl & Hk & Hch & Hcp & _).
  destruct (lead_phases l Hl) as (Hpost & Hpre & _). pose proof (pre_phase _ Hpre) as Hph'.
  destruct (live_word N c w wk HI Hw) as (lk & ph & Hph & Hs & HP). assert (ph = old_phase l) as -> by congruence.
  rewrite Hs, (change_word l lk Hl).
  pose proof change_bound as Hn. destruct change_progress as (_ & Hout & xs & Hnd & Hlen & Hxs).
  rewrite (u32_id (n + 1)) by lia.
  set (wk' := set_state _ wk). set (p := Change l head (Some w) (n + 1)). set (c' := goto _ _ _).
  assert (workers c' = <[w := wk']> m) as Hm by done.
  assert (pcs c' = <[t := p]> (pcs c)) as E by done.
  assert (forall q x, reach (workers c') q x <-> reach m q x) as Hreach by (intros q x; rewrite Hm; by eapply reach_insert).
  assert (position (workers c') head (Some w) = wnext wk) as Hpos by (rewrite Hm; simpl; by rewrite lookup_insert_eq).
  assert (~ reach m (wnext wk) w) as Hnw by (apply ranked_next; [apply HI|done]).
  assert (forall x, x ≠ w -> reach m (wnext wk) x <-> reach m i x) as Hstep.
  { intros x Hne. rewrite Hi. split; [by apply reach_step|]. intros Hr. by destruct (reach_inv m w wk x Hw Hr). }
  assert (Z.even (old_phase l) = false) as He by (apply even_post; auto with runtime).
  assert (Z.even (new_phase l) = true) as He' by (by apply even_pre).
  split.
  - apply (locks_same c c' t p w wk wk'); rewrite ?Hpc; try done; [apply HI|].
    intros l2 ph2 Hph2 Hs2 Hdd. rewrite Hs in Hs2. apply word_inj in Hs2 as [<- <-]; [|done..].
    exists (new_phase l). split_and!; try done. change (dead wk') with (dead wk). congruence.
  - apply (links_put c c' w wk wk'); try done. apply HI.
  - intros t'. rewrite (pc_step _ _ _ _ t' E), Hm.
    assert (wstate wk' = wstate wk \/ exists lk ph', wstate wk = word lk (old_phase l) /\ pre ph' /\ wstate wk' = word lk ph') as Hst
      by (right; by exists lk, (new_phase l)).
    destruct (decide (t' = t)) as [->|Hne]; [|by apply (others_put w wk wk')].
    simpl. split_and!; auto with runtime; [by apply (after_put w wk wk')|intros x [= <-]; rewrite lookup_insert_eq; eauto|done].
  - exists t. apply (next_stage c' (Some w) (n + 1)); try done; rewrite ?Hpos.
    + rewrite (tally_workers_same c' w wk wk' p) by done.
      rewrite (signalled_word wk lk (old_phase l)), (signalled_word wk' lk (new_phase l)), He, He' by done. simpl. lia.
    + exists (w :: xs). split_and!; [constructor; [|done]|simpl; lia|].
      * intros Hin. destruct (Hxs w Hin) as [_ Hr]. apply Hr. rewrite Hi. apply reach_here.
      * intros x Hx. apply elem_of_cons in Hx as [->|Hx].
        -- rewrite Hm, lookup_insert_eq. split; [eauto|]. by rewrite <- Hm, Hreach.
        -- destruct (Hxs x Hx) as [Hsx Hr]. assert (x ≠ w) as Hne by (intros ->; apply Hr; rewrite Hi; apply reach_here).
           rewrite Hreach, Hstep by done. split; [|done]. by rewrite Hm, lookup_insert_ne.
    + intros x xk Hx Hxd. rewrite Hreach. rewrite Hm in Hx. apply lookup_insert_Some in Hx as [[<- <-]|[Hne Hx]].
      * right. split; [done|]. left. simpl. by apply PHASE_word.
      * rewrite Hstep by done. by apply change_live.
    + intros Hg xk Hx. destruct (own_reach Hg) as (xk0 & Hx0 & _ & _ & Hor). rewrite Hreach.
      rewrite Hm in Hx. apply lookup_insert_Some in Hx as [[<- <-]|[Hne Hx]]; [right; simpl; by apply PHASE_word|].
      rewrite Hstep by done. congruence.
  - rewrite Hm. apply (bound_put _ _ _ wk); [done|apply HI].
Qed.

(** The end of the loop. *)
Lemma publish_inv : i = None -> Inv N (goto t (Publish l head n) c).
Proof.
  intros Hi. destruct change_thread as (Hl & Hk & Hch & Hcp & _). destruct change_progress as (Hav & Hout & _).
  pose proof change_bound as Hn. pose proof change_stage as HS.
  assert (forall x, ~ reach m i x) as Hnone by (intros x; rewrite Hi; apply reach_none).
  apply (leader_goto N c t HI _ (Publish l head n)); rewrite ?Hpc; try done.
  - exact (handshake_closed N c HI).
  - intros ck _ Ha Ho. simpl. by rewrite Ha, Ho.
  - intros ck _ _ _ w wk Hw Hd. simpl. destruct (change_live w wk Hw Hd) as [(Hr & _)|[_ ?]]; [by apply Hnone in Hr|done].
  - intros ck Hm Hg wk Hw. rewrite Hm in Hw. destruct (own_reach Hg) as (wk2 & Hw2 & _ & _ & [Hr|]); [by apply Hnone in Hr|congruence].
Qed.
End Change.

Section Last.
Context (N : Z) (HN0 : 0 <= N) (HN : N < 2 ^ 32 - 1) (c : control) (t : nat) (o : oracle) (HI : Inv N c).

Lemma change_inv l head prev n : pc_of c t = Change l head prev n -> good N (change_phase t l head prev n c).
Proof.
  intros Hpc. pose proof (change_thread N c t HI l head prev n Hpc) as (Hl & Hk & Hch & Hcp & Hhead).
  pose proof (change_closed N c t HI l head prev n Hpc) as Hci.
  unfold change_phase.
  apply (good_bind N _ _ (position (workers c) head prev)).
  { destruct prev as [p|]; [|done]. destruct (Hcp p eq_refl) as [pk Hp]. simpl. by rewrite Hp. }
  destruct (position (workers c) head prev) as [w|] eqn:Hi.
  2: { rewrite lead_new by done. apply good_ok. by eapply publish_inv. }
  destruct (Hci w eq_refl) as [wk Hw]. rewrite Hw. cbn [deref mbind res_bind].
  assert (dead wk = false -> good N (assert_that (PHASE (wstate wk) =? old_phase l);;
            Ok (goto t (Change l head (Some w) (u32 (n + 1)))
                  (put_worker w (set_state (Z.lxor (wstate wk) (Z.lxor (old_phase l) (new_phase l))) wk) c)))) as Hsig.
  { intros Hd. destruct (change_here N c t HI l head prev n Hpc w wk Hi Hw Hd) as [Hold _].
    rewrite Hold, Z.eqb_refl. apply good_ok. by eapply signal_inv. }
  assert (forall c1 wk1 p, prev = Some p -> Inv N c1 -> pc_of c1 t = Change l head prev n -> workers c1 !! w = Some wk1 ->
            dead wk1 = true -> wnext wk1 = wnext wk -> position (workers c1) head prev = Some w ->
            good N (pk ← deref (workers c1 !! p); Ok (goto t (Change l head prev n) (put_worker p (set_next (wnext wk) pk) c1)))) as Hunlink.
  { intros c1 wk1 p -> HI1 Hpc1 Hw1 Hd1 Hn1 Hi1. simpl in Hi1. destruct (workers c1 !! p) as [pk|] eqn:Hp; [|done].
    simpl in Hi1. cbn [deref mbind res_bind]. apply good_ok. rewrite <- Hn1. by eapply unlink_inv. }
  destruct (dead wk) eqn:Hd.
  - destruct prev as [p|]; [|by rewrite (Hhead eq_refl w wk) in Hd]. by apply (Hunlink c wk).
  - assert (forall A (x y : A), match prev with Some p => if false then x else y | None => y end = y) as Hmatch by (by destruct prev).
    destruct ((old_phase l =? ASYNC) && canceled wk && (wusers wk =? 0)%nat) eqn:Hkill; [|destruct prev; by apply Hsig].
    apply andb_true_iff in Hkill as [Hkill _]. apply andb_true_iff in Hkill as [Hasync Hcan]. apply Z.eqb_eq in Hasync.
    destruct prev as [p|].
    + set (wk1 := set_flags _ wk). set (c1 := put_worker w wk1 c).
      assert (Inv N c1) as HI1.
      { assert (goto t (Change l head (Some p) n) c1 = c1) as <-; [|by eapply kill_inv].
        unfold goto. simpl. rewrite (pcs_id c t (Change l head (Some p) n)) by done. by destruct c. }
      apply (Hunlink c1 wk1); try done.
      * simpl. by rewrite lookup_insert_eq.
      * unfold dead. simpl. by rewrite land_lor_bit.
      * simpl in *. destruct (decide (p = w)) as [->|]; [rewrite lookup_insert_eq|by rewrite lookup_insert_ne].
        rewrite Hw in Hi. done.
    + apply good_ok. by eapply kill_inv.
Qed.

Lemma publish_step_inv l head n : pc_of c t = Publish l head n -> Inv N (goto t (AddCount l n) (set_handshake (head, new_phase l) c)).
Proof.
  intros Hpc. pose proof (inv_threads _ _ HI t) as HT. rewrite Hpc in HT. destruct HT as (Hl & Hk & Hch).
  assert (leading (pc_of c t) = true) as Hld by (by rewrite Hpc). pose proof (leader_stage N c t HI Hld) as HS.
  apply (leader_goto N c t HI _ (AddCount l n)); rewrite ?Hpc; try done.
  - pose proof (stage_progress _ _ _ HS) as Hp. rewrite Hpc in Hp. intros ck _ Ha Ho. simpl in *. by rewrite Ha, Ho.
  - pose proof (stage_phases _ _ _ HS) as Hp. by rewrite Hpc in Hp.
  - pose proof (stage_own _ _ _ HS) as Hp. rewrite Hpc in Hp. intros ck Hm. simpl. by rewrite Hm.
Qed.

(** The leader becomes one of many. *)
Lemma lead_end c' p : leading (pc_of c t) = true -> workers c' = workers c -> pcs c' = <[t := p]> (pcs c) ->
  available c' = available c -> handshake c' = handshake c ->
  inside p = inside (pc_of c t) -> held p = held (pc_of c t) -> leading p = false -> is_act p = false ->
  check_flag c' = u32 (outstanding c) -> outstanding c <= N ->
  (Z.odd (gc_count c') = true \/ (outstanding c = 0 /\ (available c).2 = ASYNC)) ->
  all_live (workers c) (fun _ ph => ph + 1 = (available c).2 \/ ph = (available c).2) ->
  thread_ok (workers c) t p -> Inv N c'.
Proof.
  intros Hl Hm E Ha Hh Hin Hheld Hl' Hact Hf Hb Hgc Hph H0. pose proof (leader_stage N c t HI Hl) as HS.
  assert (pc_of c t ≠ Gone) as Hg by (by intros Hp; rewrite Hp in Hl).
  assert (is_act (pc_of c t) = false) as Hna by (by destruct (pc_of c t)).
  assert (outstanding c' = outstanding c) as Ho.
  { rewrite (outstanding_goto c c' t p) by done. rewrite Hna, Hact. simpl. lia. }
  assert (pc_of c' t = p) as Hpt by (by rewrite (pc_step _ _ _ _ t E), decide_True).
  split.
  - eapply locks_goto; try done. apply HI.
  - apply (links_goto c c'); try done; [apply HI|]. rewrite Hh. exact (handshake_closed N c HI).
  - eapply threads_goto; try done. apply HI.
  - exists t. split; rewrite ?Hpt.
    + intros t'. rewrite (pc_step _ _ _ _ t' E). destruct (decide (t' = t)); [done|]. apply HS.
    + by rewrite Hl'.
    + rewrite Ha. apply HS.
    + intros t' w s g k. rewrite Ha, (pc_step _ _ _ _ t' E). destruct (decide (t' = t)) as [->|]; [intros ->; done|apply HS].
    + by rewrite calm_debt, Z.sub_0_r, Ho.
    + rewrite calm_progress by done. by rewrite Ho, Ha.
    + rewrite Hm. intros w wk Hw Hd. rewrite calm_phase, Ha by done. exact (Hph w wk Hw Hd).
    + by rewrite calm_own.
  - rewrite Hm. apply HI.
Qed.

Lemma add_count_inv l n : pc_of c t = AddCount l n ->
  Inv N (goto t (if greedy l then Own l else return_to (after l)) (set_check_flag (u32 (check_flag c + n)) c)).
Proof.
  intros Hpc. pose proof (inv_threads _ _ HI t) as HT. rewrite Hpc in HT. destruct HT as (Hl & Hk).
  assert (leading (pc_of c t) = true) as Hld by (by rewrite Hpc). pose proof (leader_stage N c t HI Hld) as HS.
  pose proof (stage_progress _ _ _ HS) as Hp. rewrite Hpc in Hp. destruct Hp as (Hav & Hout).
  pose proof (stage_phases _ _ _ HS) as Hph. rewrite Hpc in Hph.
  destruct (lead_phases l Hl) as (_ & _ & _ & Hglob).
  apply (lead_end _ (if greedy l then Own l else return_to (after l))); rewrite ?Hpc; try done.
  - simpl. destruct (greedy l) eqn:Hg; [by rewrite (proj2 Hl Hg)|by destruct (after l)].
  - simpl. destruct (greedy l) eqn:Hg; [by rewrite (proj2 Hl Hg)|by destruct (after l)].
  - destruct (greedy l); [done|by destruct (after l)].
  - destruct (greedy l); [done|by destruct (after l)].
  - simpl. rewrite (stage_flag _ _ _ HS), Hpc. unfold u32. rewrite Zplus_mod_idemp_l. f_equal. simpl. lia.
  - lia.
  - left. by apply HS.
  - intros w wk Hw Hd. destruct (Hph w wk Hw Hd) as [Hx|Hx]; simpl in Hx; [left|right]; lia.
  - destruct (greedy l) eqn:Hg; [|by apply return_ok].
    split; [done|]. pose proof (proj2 Hl Hg) as Hres. split; [done|].
    destruct (inside_word N c t HI) as (wk & ph & Hw & Hph2 & Hs & Hd & _); [rewrite Hpc; simpl; by rewrite Hres|].
    exists wk. split_and!; try done. pose proof (stage_own _ _ _ HS) as Ho. rewrite Hpc in Ho. specialize (Ho Hg wk Hw).
    rewrite Hs, PHASE_word in Ho by done. rewrite Hs. simpl. congruence.
Qed.

Lemma finish_inv k : pc_of c t = Finish k -> good N (finish_gc t k c).
Proof.
  intros Hpc. pose proof (inv_threads _ _ HI t) as HT. rewrite Hpc in HT. simpl in HT.
  assert (leading (pc_of c t) = true) as Hld by (by rewrite Hpc). pose proof (leader_stage N c t HI Hld) as HS.
  pose proof (stage_progress _ _ _ HS) as Hp. rewrite Hpc in Hp. destruct Hp as (Hout & Hav).
  pose proof (stage_phases _ _ _ HS) as Hph. rewrite Hpc in Hph.
  unfold finish_gc. rewrite (stage_odd _ _ _ HS) by done. apply good_ok.
  apply (lead_end _ (return_to k)); rewrite ?Hpc; try done; try (by destruct k).
  - simpl. by rewrite (stage_flag _ _ _ HS), Hpc, Hout.
  - lia.
  - by right.
  - intros w wk Hw Hd. right. rewrite Hav. by apply (Hph w wk).
Qed.
End Last.
