(* ===== verification/ControlEffect.v ===== *)
(** * What a step of the handshake does to the other threads

    The facts about Control.v that the proofs of Migration.v rest on: how the
    phases, the flags and the user counts of workers change in a step, and
    which phases the workers can have while one of them does the action of
    SYNC2. *)
From Stdlib Require Import ZArith Lia.
From stdpp Require Import base option list gmap relations.
From S2P Require Import Prelude Bits Layout Segment Alloc Control ControlFacts ControlInv ControlFrame ControlSteps ControlLead ControlChange.

Local Open Scope Z_scope.

Definition signal_step (a b : Z) : Prop := (a, b) ∈ [(1, 2); (3, 4); (5, 6); (7, 0); (7, 6)].

Lemma lead_signal l : lead_ok l -> signal_step (old_phase l) (new_phase l).
Proof.
  intros H. unfold signal_step. lead_cases H; repeat match goal with E : _ = _ |- _ => rewrite E end;
    apply (bool_decide_unpack _); vm_compute; exact I.
Qed.

(** The worker [w] from [wk] to [wk'], in a step of the thread [t]. *)
Record worker_change (t : nat) (cmd : command) (c c' : control) (w : nat) (wk wk' : worker) : Prop := MkChange {
  change_phases : PHASE (wstate wk') = PHASE (wstate wk) \/ signal_step (PHASE (wstate wk)) (PHASE (wstate wk')) \/
    (pre (PHASE (wstate wk)) /\ PHASE (wstate wk') = PHASE (wstate wk) + 1 /\ is_act (pc_of c t) = false /\
     exists g k, pc_of c' t = Act w (PHASE (wstate wk)) g k);
  change_dead : dead wk' = dead wk \/ (dead wk = false /\ wusers wk = O /\ idle c w);
  change_users : wusers wk' = wusers wk \/
    (cmd = User /\ w = t /\ pc_of c t = InML /\ wusers wk' = S (wusers wk)) \/
    (exists o g k, cmd = Run o /\ pc_of c t = Act w PRESYNC2 g k /\ wusers wk' = (wusers wk - users_gone o)%nat)
}.

Record effect (t : nat) (cmd : command) (c c' : control) : Prop := MkEffect {
  effect_pcs : forall t', t' ≠ t -> pc_of c' t' = pc_of c t';
  effect_workers : forall w wk, workers c !! w = Some wk -> exists wk', workers c' !! w = Some wk' /\ worker_change t cmd c c' w wk wk';
  effect_new : forall w wk', workers c' !! w = Some wk' -> workers c !! w = None -> w = t /\ dead wk' = false
}.

Lemma change_refl t cmd c c' w wk : worker_change t cmd c c' w wk wk.
Proof. split; by left. Qed.

Lemma effect_same t cmd c c' : workers c' = workers c -> (forall t', t' ≠ t -> pc_of c' t' = pc_of c t') -> effect t cmd c c'.
Proof.
  intros Hw Hp. split; rewrite ?Hw; [done| |].
  - intros w wk H. exists wk. split; [done|]. apply change_refl.
  - intros. congruence.
Qed.

Lemma effect_goto t cmd c c' p : workers c' = workers c -> pcs c' = <[t := p]> (pcs c) -> effect t cmd c c'.
Proof. intros Hw Hp. apply effect_same; [done|]. intros t' Hne. by rewrite (pc_step c c' t p t' Hp), decide_False. Qed.

Lemma effect_put t cmd c c' p w wk wk' : workers c !! w = Some wk -> workers c' = <[w := wk']> (workers c) ->
  pcs c' = <[t := p]> (pcs c) -> worker_change t cmd c c' w wk wk' -> effect t cmd c c'.
Proof.
  intros Hw Hm Hp HC. split.
  - intros t' Hne. by rewrite (pc_step c c' t p t' Hp), decide_False.
  - intros x xk Hx. rewrite Hm. destruct (decide (x = w)) as [->|Hne].
    + rewrite lookup_insert_eq. assert (xk = wk) as -> by congruence. eauto.
    + rewrite lookup_insert_ne by done. exists xk. split; [done|]. apply change_refl.
  - intros x xk Hx Hn. rewrite Hm in Hx. apply lookup_insert_Some in Hx as [[<- <-]|[_ Hx]]; congruence.
Qed.

Section Effect.
Context (N : Z) (HN : 0 <= N < 2 ^ 32 - 1) (c : control) (t : nat) (HI : Inv N c).

(** The phase of a word does not depend on the lock. *)
Lemma change_relock cmd c' w wk wk' l l' ph : is_phase ph -> wstate wk = word l ph -> wstate wk' = word l' ph ->
  wflags wk' = wflags wk -> wusers wk' = wusers wk -> worker_change t cmd c c' w wk wk'.
Proof.
  intros Hph Hs Hs' Hf Hu. split.
  - left. by rewrite Hs, Hs', !PHASE_word.
  - left. unfold dead. by rewrite Hf.
  - by left.
Qed.

Lemma change_accept cmd c' w wk wk' l l' ph g k p : pre ph -> wstate wk = word l ph -> wstate wk' = word l' (ph + 1) ->
  wflags wk' = wflags wk -> wusers wk' = wusers wk -> is_act (pc_of c t) = false ->
  pcs c' = <[t := p]> (pcs c) -> p = Act w ph g k -> worker_change t cmd c c' w wk wk'.
Proof.
  intros Hph Hs Hs' Hf Hu Ha Hp ->. split.
  - right. right. rewrite Hs, Hs', !PHASE_word by (eauto with runtime). split_and!; try done.
    exists g, k. by rewrite (pc_step c c' t _ t Hp), decide_True.
  - left. unfold dead. by rewrite Hf.
  - by left.
Qed.

Lemma change_flags cmd c' w wk wk' : wstate wk' = wstate wk -> wusers wk' = wusers wk -> dead wk' = dead wk -> worker_change t cmd c c' w wk wk'.
Proof. intros Hs Hu Hd. split; left; congruence. Qed.

(** An action: its own worker's flags and number of users. *)
Lemma act_effect o w s g k c' : pc_of c t = Act w s g k -> act t w s g k o c = Ok c' -> effect t (Run o) c c'.
Proof.
  intros Hpc. destruct (act_owns N c t w s g k HI Hpc) as (wk & Hw & Hd & Hs & Hst & _).
  assert (dead (set_flags (Z.lor (wflags wk) GLOBALENUM_FLAG) wk) = dead wk) as Hd1 by (apply dead_flags; simpl; by apply land_lor_other).
  assert (forall n, dead (set_flags (Z.ldiff (wflags wk) GLOBALENUM_FLAG) (set_users n wk)) = dead wk) as Hd2
    by (intros n; apply dead_flags; simpl; by apply land_ldiff_other).
  unfold act. destruct (s =? PREASYNC); [|destruct (s =? PRESYNC1); [|destruct (s =? PRESYNC2) eqn:E2; [|destruct (s =? PREMARK); [|done]]]].
  - unfold worker_async, answered. intros [= <-]. simpl. destruct (check_flag c =? 1); by eapply effect_goto.
  - unfold worker_sync1, answered. rewrite Hw. cbn [deref mbind res_bind]. intros [= <-]. simpl.
    destruct (check_flag c =? 1); [|by eapply effect_goto]. eapply effect_put; [exact Hw|done..|]. by apply change_flags.
  - unfold worker_sync2, answered. rewrite Hw. cbn [deref mbind res_bind]. intros [= <-].
    assert (s = PRESYNC2) as -> by lia.
    set (wk' := set_flags _ _).
    assert (forall c', worker_change t (Run o) c c' w wk wk') as HC.
    { intros c'. split; [by left|left; apply Hd2|]. right; right. exists o, g, k. by split_and!. }
    simpl. destruct (check_flag c =? 1); eapply effect_put; try exact Hw; done.
  - unfold worker_mark, answered. intros [= <-]. simpl. destruct (check_flag c =? 1); by eapply effect_goto.
Qed.

Lemma change_phase_effect cmd l head prev n c' : pc_of c t = Change l head prev n -> change_phase t l head prev n c = Ok c' -> effect t cmd c c'.
Proof.
  intros Hpc. pose proof (change_thread N c t HI l head prev n Hpc) as (Hl & _ & _ & Hprev & _).
  unfold change_phase.
  assert ((match prev with None => Ok head | Some p => wk ← deref (workers c !! p); Ok (wnext wk) end) = Ok (position (workers c) head prev)) as ->.
  { unfold position. destruct prev as [p|]; [|done]. destruct (Hprev p eq_refl) as [pk ->]. done. }
  cbn [mbind res_bind]. destruct (position (workers c) head prev) as [w|] eqn:Hi.
  2:{ intros Hr. res_inv. by eapply effect_goto. }
  destruct (workers c !! w) as [wk|] eqn:Hw; cbn [deref mbind res_bind]; [|done].
  assert (forall p, (pk ← deref (workers c !! p); Ok (goto t (Change l head prev n) (put_worker p (set_next (wnext wk) pk) c))) = Ok c' -> effect t cmd c c') as Hunlink.
  { intros p Hp. res_inv. eapply effect_put; [done|done|done|]. by apply change_flags. }
  assert (dead wk = false -> (old_phase l =? ASYNC) && canceled wk && (wusers wk =? 0)%nat = true ->
          forall c', worker_change t cmd c c' w wk (set_flags (Z.lor (wflags wk) DEAD_FLAG) wk)) as Hkill.
  { intros Hd Hk c1. apply andb_true_iff in Hk as [_ Hu]. apply Nat.eqb_eq in Hu. split; [by left| |by left].
    right. split_and!; try done. by eapply (change_here N c t HI l head prev n Hpc). }
  assert (dead wk = false -> forall n', (assert_that (PHASE (wstate wk) =? old_phase l);;
            Ok (goto t (Change l head (Some w) n')
                  (put_worker w (set_state (Z.lxor (wstate wk) (Z.lxor (old_phase l) (new_phase l))) wk) c))) = Ok c' -> effect t cmd c c') as Hsignal.
  { intros Hd n' Hr. res_inv. apply Z.eqb_eq in H. eapply effect_put; [done|done|done|].
    destruct (live_word N c w wk HI Hw) as (lk & ph & Hph & Hst & HP). split; [|by left|by left].
    right. left. rewrite HP in H. subst ph. simpl. rewrite Hst, change_word, !PHASE_word by (try done; apply lead_phases in Hl as (? & ? & _); eauto with runtime).
    by apply lead_signal. }
  destruct prev as [p|].
  - destruct (dead wk) eqn:Hd; [apply Hunlink|].
    destruct ((old_phase l =? ASYNC) && canceled wk && (wusers wk =? 0)%nat) eqn:Hk; [|by apply Hsignal].
    intros Hr. res_inv. rename x into pk.
    (* killed and taken out of the list *)
    assert (w ≠ p) as Hne.
    { intros ->. unfold position in Hi. destruct (Hprev p eq_refl) as [pk' Hp]. rewrite Hp in Hi. simpl in Hi.
      destruct (links_ranked _ (inv_links _ _ HI)) as [r Hr]. specialize (Hr p p). lapply Hr; [lia|]. exists pk'. by split. }
    simpl in H. rewrite lookup_insert_ne in H by done.
    split.
    + intros t' Hne'. by rewrite pc_goto_ne.
    + intros x xk Hx. simpl. destruct (decide (x = p)) as [->|Hxp].
      * rewrite lookup_insert_eq. eexists. split; [done|]. assert (xk = pk) as -> by congruence. by apply change_flags.
      * rewrite lookup_insert_ne by done. destruct (decide (x = w)) as [->|Hxw].
        -- rewrite lookup_insert_eq. eexists. split; [done|]. assert (xk = wk) as -> by congruence. by apply Hkill.
        -- rewrite lookup_insert_ne by done. exists xk. split; [done|]. apply change_refl.
    + intros x xk Hx Hn. simpl in Hx. apply lookup_insert_Some in Hx as [[<- _]|[_ Hx]]; [congruence|].
      apply lookup_insert_Some in Hx as [[<- _]|[_ Hx]]; congruence.
  - assert (dead wk = false) as Hd.
    { pose proof (change_thread N c t HI l head None n Hpc) as (_ & _ & _ & _ & Hh). simpl in Hi. by eapply Hh. }
    destruct ((old_phase l =? ASYNC) && canceled wk && (wusers wk =? 0)%nat) eqn:Hk; [|by apply Hsignal].
    intros [= <-]. eapply effect_put; [exact Hw|done|done|]. by apply Hkill.
Qed.

(** A signal is accepted by whoever has the lock, or takes it. *)
Lemma accept_effect cmd w wk l l' ph g k c' : workers c !! w = Some wk -> pre ph -> wstate wk = word l ph ->
  is_act (pc_of c t) = false -> c' = goto t (Act w ph g k) (put_worker w (set_state (word l' (ph + 1)) wk) c) -> effect t cmd c c'.
Proof.
  intros Hw Hph Hs Ha ->. eapply effect_put; [done|done|done|]. by eapply change_accept.
Qed.
Lemma relock_effect cmd w wk l l' ph p c' : workers c !! w = Some wk -> is_phase ph -> wstate wk = word l ph ->
  c' = goto t p (put_worker w (set_state (word l' ph) wk) c) -> effect t cmd c c'.
Proof.
  intros Hw Hph Hs ->. eapply effect_put; [done|done|done|]. by eapply change_relock.
Qed.

Lemma step_effect o c' : step t o c = Ok c' -> effect t (Run o) c c'.
Proof.
  unfold step. pose proof (inv_threads _ _ HI t) as HT. destruct (pc_of c t) eqn:Hpc; try (intros [= <-]; by apply effect_same); cbn [thread_ok after_ok] in HT.
  - (* RegisterWalk *) destruct HT as (Hnone & _). unfold register_worker. case_match; [intros [= <-]; by eapply effect_goto|].
    destruct (skip_dead next c) as [[next'|]| | |]; cbn [mbind res_bind]; try done; [intros [= <-]; by eapply effect_goto|].
    case_match; intros [= <-]; [|by eapply effect_goto]. split.
    + intros t' Hne. by rewrite pc_goto_ne.
    + intros w wk Hw. exists wk. simpl. rewrite lookup_insert_ne by congruence. split; [done|apply change_refl].
    + intros w wk Hw Hn. simpl in Hw. apply lookup_insert_Some in Hw as [[<- <-]|[_ Hw]]; [done|congruence].
  - (* Answer *) destruct HT as (Hs & wk & Hw & _ & Hst). unfold answer_signal. rewrite Hw. cbn [deref mbind res_bind].
    unfold ACTIVE. rewrite lor1_pre by done. intros [= <-]. eapply (accept_effect _ t wk Owned Owned); try done. by rewrite Hpc.
  - by apply act_effect.
  - intros [= <-]. by eapply effect_goto.
  - (* GlobalWalk *) unfold global_phase. intros Hr. res_inv. destruct x0 as [next|]; [res_inv; by eapply effect_goto|].
    case_match; res_inv; by eapply effect_goto.
  - by apply change_phase_effect.
  - intros [= <-]. by eapply effect_goto.
  - intros [= <-]. by eapply effect_goto.
  - (* Own *) destruct HT as (Hl & Hk & wk & Hw & _ & Hst). unfold own_action. rewrite Hw. cbn [deref mbind res_bind]. intros Hr. res_inv.
    destruct (lead_phases _ Hl) as (_ & Hnew & _). rewrite lead_lor by done. pose proof (lead_phases _ Hl) as (_ & _ & _ & ->).
    eapply (accept_effect _ t wk Owned Owned); try done. by rewrite Hpc.
  - (* Finish *) unfold finish_gc. intros Hr. res_inv. by eapply effect_goto.
  - intros [= <-]. by eapply effect_goto.
  - (* HelpWalk *) unfold help_inactive. destruct w as [w|].
    + intros Hr. res_inv. repeat case_match; simplify_eq; by eapply effect_goto.
    + intros [= <-]. case_match; by eapply effect_goto.
  - (* HelpTake *) unfold help_take. intros Hr. res_inv. case_match; simplify_eq; by eapply effect_goto.
  - (* HelpLock *) destruct HT as ([wk Hw] & ph & Hph & ->). unfold help_lock. rewrite Hw. cbn [deref mbind res_bind].
    destruct (wstate wk =? word Free ph) eqn:Heq; rewrite ?lock_word, ?PHASE_word by (eauto with runtime);
      intros [= <-]; [|by eapply effect_goto]. apply Z.eqb_eq in Heq. eapply (accept_effect _ w wk Free Helped); try done. by rewrite Hpc.
  - (* HelpRelease *) destruct HT as (ph & wk & Hph & -> & Hw & _). unfold help_release. rewrite Hw. cbn [deref mbind res_bind].
    destruct (wstate wk =? word Helped ph) eqn:Heq; rewrite ?release_word by (eauto with runtime);
      intros [= <-]; [|by eapply effect_goto]. apply Z.eqb_eq in Heq. eapply (relock_effect _ w wk Helped Free); eauto with runtime.
  - (* HelpAgain *) destruct HT as (ph & Hph & -> & wk & Hw & _ & Hst). unfold help_again. rewrite Hw. cbn [deref mbind res_bind].
    rewrite again_word, PHASE_word by eauto with runtime. intros [= <-]. eapply (accept_effect _ w wk Helped Helped); try done. by rewrite Hpc.
Qed.

Theorem exec_effect cmd c' : exec (t, cmd) c = Ok c' -> effect t cmd c c'.
Proof.
  unfold exec. simpl. destruct cmd as [| | |[]| | |o]; [..|by apply step_effect].
  all: destruct (pc_of c t) eqn:Hpc; try (intros [= <-]; by apply effect_same).
  - (* Enter *) unfold enter_worker. destruct (workers c !! t) as [wk|] eqn:Hw; [|intros [= <-]; by eapply effect_goto].
    destruct (live_word N c t wk HI Hw) as (l & ph & Hph & Hs & _). rewrite Hs, inactive_word by done.
    case_bool_decide as Hl; intros [= <-]; [by apply effect_same|]. assert (l = Free) as -> by (by destruct l).
    rewrite enter_word by done. by eapply (relock_effect _ t wk Free Owned).
  - (* Exit *) destruct (inside_word N c t HI) as (wk & ph & Hw & Hph & Hs & _); [by rewrite Hpc|].
    unfold leave_worker. rewrite Hw. cbn [deref mbind res_bind]. rewrite Hs, IS_ACTIVE_word, bool_decide_true by done.
    cbn [assert_that mbind res_bind]. rewrite is_signal_owned, leave_word by done.
    destruct (Z.even ph) eqn:He; intros [= <-].
    + apply even_pre in He; [|done]. rewrite lor1_pre by done. eapply (accept_effect _ t wk Owned Free); try done. by rewrite Hpc.
    + apply even_post in He; [|done]. rewrite lor1_post by done. by eapply (relock_effect _ t wk Owned Free).
  - (* Check *) unfold sml_check_internal. intros Hr. res_inv. case_match; simplify_eq; by eapply effect_goto.
  - unfold sml_gc. case_match; intros [= <-]; [by apply effect_same|by eapply effect_goto].
  - unfold sml_gc. case_match; intros [= <-]; [by apply effect_same|by eapply effect_goto].
  - unfold sml_gc. case_match; intros [= <-]; [by apply effect_same|by eapply effect_goto].
  - (* User *) unfold add_user. intros Hr. res_inv. rename x into wk. split.
    + done.
    + intros w wk' Hw. simpl. destruct (decide (w = t)) as [->|Hne].
      * rewrite lookup_insert_eq. eexists. split; [done|]. assert (wk' = wk) as -> by congruence. split; [by left|by left|].
        right. left. by split_and!.
      * rewrite lookup_insert_ne by done. eexists. split; [done|apply change_refl].
    + intros w wk' Hw Hn. simpl in Hw. apply lookup_insert_Some in Hw as [[<- _]|[_ Hw]]; congruence.
  - (* Cancel *) unfold cancel_worker. destruct (workers c !! t) as [wk|] eqn:Hw; [|intros [= <-]; by eapply effect_goto].
    case_match; [done|]. intros [= <-]. eapply effect_put; [done|done|done|]. apply change_flags; [done..|].
    apply dead_flags. simpl. by apply land_lor_other.
Qed.
End Effect.

(** ** Facts about reachable states *)
Section Facts.
Context (N : Z) (HN : 0 <= N < 2 ^ 32 - 1) (c : control) (HI : Inv N c).

(** While a worker does the action of SYNC2, no worker is ahead of it or more
    than one signal behind. *)
Lemma sync2_phases t w g k w' wk' : pc_of c t = Act w PRESYNC2 g k -> workers c !! w' = Some wk' -> dead wk' = false ->
  3 <= PHASE (wstate wk') <= 5.
Proof.
  intros Hpc Hw Hd. destruct (inv_stage _ _ HI) as [t1 HS]. pose proof (stage_acts _ _ _ HS _ _ _ _ _ Hpc) as Ha.
  pose proof (outstanding_act c t _ _ _ _ Hpc) as Ho. pose proof (stage_phases _ _ _ HS w' wk' Hw Hd) as Hp.
  pose proof (stage_progress _ _ _ HS) as Hpr. pose proof (inv_threads _ _ HI t1) as HT.
  assert (forall l, lead_ok l -> global l = 5 -> old_phase l = 3 /\ new_phase l = 4) as Hl.
  { intros l H Hg. lead_cases H; repeat match goal with E : _ = _ |- _ => rewrite E in * end; try done; split; lia. }
  change (PRESYNC2 + 1) with 5 in Ha.
  destruct (pc_of c t1) eqn:Hpc1; simpl in Hp, Hpr, HT; try (destruct Hp; lia); try (destruct Hpr; lia).
  - destruct (Hl l) as [E1 E2]; [by destruct HT|lia|]. destruct Hp as [(_ & ? & _)|(_ & [?|?])]; lia.
  - destruct (Hl l) as [E1 E2]; [by destruct HT|lia|]. destruct Hp; lia.
  - destruct (Hl l) as [E1 E2]; [by destruct HT|lia|]. destruct Hp; lia.
Qed.

(** One action at a time for a worker. *)
Lemma act_unique t t' w s s' g g' k k' : pc_of c t = Act w s g k -> pc_of c t' = Act w s' g' k' -> t = t'.
Proof.
  intros H1 H2. pose proof (inv_threads _ _ HI t) as HT. pose proof (inv_threads _ _ HI t') as HT'. rewrite H1 in HT. rewrite H2 in HT'.
  destruct HT as (Hs & (Ew & (wk & Hw & _ & Hst) & _) & _). destruct HT' as (Hs' & (Ew' & (wk' & Hw' & _ & Hst') & _) & _).
  assert (wk' = wk) as -> by congruence. rewrite Hst in Hst'. apply word_inj in Hst' as [El _]; eauto with runtime.
  assert (forall k1, held_cont k1 = None \/ exists x, held_cont k1 = Some x /\ lock_of k1 = Helped) as Hk by (intros []; simpl; eauto).
  destruct (Hk k) as [E|(x & E & EL)], (Hk k') as [E'|(x' & E' & EL')]; rewrite E in Ew; rewrite E' in Ew'; simpl in *.
  - congruence.
  - destruct k; simpl in *; congruence.
  - destruct k'; simpl in *; congruence.
  - apply (locks_unique _ (inv_locks _ _ HI) t t' w); rewrite ?H1, ?H2; simpl; congruence.
Qed.

(** Nobody else acts for a worker whose thread is in ML code. *)
Lemma act_inside t t' s g k : inside (pc_of c t) = true -> pc_of c t' = Act t s g k -> t' = t /\ k = Resume.
Proof.
  intros Hin H1. destruct (inside_word N c t HI Hin) as (wk & ph & Hw & Hph & Hst & _).
  pose proof (inv_threads _ _ HI t') as HT. rewrite H1 in HT. destruct HT as (Hs & (Ew & (wk' & Hw' & _ & Hst') & _) & _).
  assert (wk' = wk) as -> by congruence. rewrite Hst in Hst'. apply word_inj in Hst' as [El _]; eauto with runtime.
  by destruct k.
Qed.

Lemma act_phase t w s g k : pc_of c t = Act w s g k ->
  exists wk, workers c !! w = Some wk /\ dead wk = false /\ PHASE (wstate wk) = s + 1 /\ pre s.
Proof.
  intros H1. destruct (act_owns N c t w s g k HI H1) as (wk & Hw & Hd & Hs & Hst & _). exists wk. split_and!; try done.
  rewrite Hst, PHASE_word; eauto with runtime.
Qed.

(** Between two collections, all workers are in ASYNC. *)
Lemma even_phases : Z.even (gc_count c) = true -> (forall w, idle c w) /\ all_live (workers c) (fun _ ph => ph = ASYNC).
Proof.
  intros He. destruct (inv_stage _ _ HI) as [t1 HS]. rewrite <- Z.negb_odd in He. apply negb_true_iff in He.
  assert (leading (pc_of c t1) = false) as Hl.
  { destruct (leading (pc_of c t1)) eqn:Hl; [|done]. apply (stage_odd _ _ _ HS) in Hl. congruence. }
  pose proof (stage_progress _ _ _ HS) as Hp. rewrite calm_progress in Hp by done. destruct Hp as (_ & [?|[Ho Ha]]); [congruence|].
  split; [by apply outstanding_zero|]. rewrite <- Ha. by apply (calm_phases N c t1).
Qed.

(** The thread of a worker in ML code stays there, and the worker is only
    signalled. *)
Lemma inside_live t : inside (pc_of c t) = true -> exists wk, workers c !! t = Some wk /\ dead wk = false.
Proof. intros H. destruct (inside_word N c t HI H) as (wk & ph & Hw & _ & _ & Hd & _). eauto. Qed.
End Facts.

Lemma inside_phases N c c' t t' cmd wk wk' : Inv N c -> Inv N c' -> effect t' cmd c c' -> t' ≠ t -> inside (pc_of c t) = true ->
  workers c !! t = Some wk -> workers c' !! t = Some wk' ->
  PHASE (wstate wk') = PHASE (wstate wk) \/ signal_step (PHASE (wstate wk)) (PHASE (wstate wk')).
Proof.
  intros HI HI' HE Hne Hin Hw Hw'. destruct (effect_workers _ _ _ _ HE t wk Hw) as (wk1 & Hw1 & HC).
  assert (wk1 = wk') as -> by congruence. destruct (change_phases _ _ _ _ _ _ _ HC) as [H|[H|(_ & _ & _ & g & k & Hact)]]; [by left|by right|].
  apply (act_inside N c' HI' t t') in Hact as [-> _]; [done|]. by rewrite (effect_pcs _ _ _ _ HE) by done.
Qed.

(** What [exec] does to the program counter. *)
Lemma step_inside N c t o c' : Inv N c -> step t o c = Ok c' -> inside (pc_of c t) = true -> inside (pc_of c' t) = true.
Proof.
  intros HI. assert (forall k, inside_cont k = true -> inside (return_to k) = true) as Hk by (by intros []).
  unfold step. destruct (pc_of c t) eqn:Hpc; try done; simpl; intros H Hin.
  all: try (injection H as <-; rewrite ?Hpc; done).
  - unfold answer_signal in H. res_inv. by rewrite pc_goto_eq.
  - unfold act, worker_async, worker_sync1, worker_sync2, worker_mark, answered in H.
    repeat (case_match; try done); res_inv; simpl; repeat (rewrite pc_goto_eq || case_match); simpl; auto.
  - injection H as <-. by rewrite pc_goto_eq.
  - unfold global_phase in H. res_inv. destruct x0; [res_inv; by rewrite pc_goto_eq|]. case_match; res_inv; by rewrite pc_goto_eq.
  - unfold change_phase in H. res_inv. destruct x; res_inv; [|by rewrite pc_goto_eq].
    repeat (case_match; try done); res_inv; by rewrite pc_goto_eq.
  - injection H as <-. by rewrite pc_goto_eq.
  - injection H as <-. rewrite pc_goto_eq. case_match; auto.
  - unfold own_action in H. res_inv. rewrite pc_goto_eq. simpl.
    pose proof (inv_threads _ _ HI t) as HT. rewrite Hpc in HT. by destruct HT as (_ & -> & _).
  - unfold finish_gc in H. res_inv. rewrite pc_goto_eq. auto.
  - injection H as <-. by rewrite pc_goto_eq.
  - unfold help_inactive in H. repeat (case_match; try done); res_inv; repeat (case_match; try done); res_inv; by rewrite pc_goto_eq.
  - unfold help_take in H. res_inv. case_match; res_inv; by rewrite pc_goto_eq.
  - unfold help_lock in H. res_inv. case_match; res_inv; by rewrite pc_goto_eq.
  - unfold help_release in H. res_inv. case_match; res_inv; by rewrite pc_goto_eq.
  - unfold help_again in H. res_inv. by rewrite pc_goto_eq.
Qed.

(** The actions of SYNC1 and SYNC2 of a thread for itself, up to the point
    where it has led the others to the next phase. *)
Definition closing (p : pc) : Prop :=
  match p with
  | Act _ s _ Resume => s = PRESYNC1 \/ s = PRESYNC2
  | GlobalLoad l | GlobalWalk l _ _ | Change l _ _ _ | Publish l _ _ | AddCount l _ =>
      greedy l = true /\ (new_phase l = PRESYNC1 \/ new_phase l = PRESYNC2)
  | Own l => new_phase l = PRESYNC1 \/ new_phase l = PRESYNC2
  | _ => False
  end.

Lemma step_closing N c t o c' : Inv N c -> step t o c = Ok c' -> closing (pc_of c' t) ->
  closing (pc_of c t) \/ exists s, pc_of c t = Answer s /\ (s = PRESYNC1 \/ s = PRESYNC2).
Proof.
  intros HI. assert (forall k, ~ closing (return_to k)) as Hk by (intros []; simpl; tauto).
  unfold step. pose proof (inv_threads _ _ HI t) as HT. destruct (pc_of c t) eqn:Hpc; intros H Hc; cbn [thread_ok] in HT.
  all: try (injection H as <-; rewrite ?Hpc, ?pc_goto_eq in Hc; simpl in Hc; by auto).
  - unfold register_worker in H. repeat (case_match; try done); res_inv; repeat (case_match; try done); res_inv; by rewrite pc_goto_eq in Hc.
  - unfold answer_signal in H. res_inv. rewrite pc_goto_eq in Hc. simpl in Hc. right. eauto.
  - left. assert (forall P, (greedy = true -> k = Resume) -> greedy = true /\ P -> k = Resume) as Hg by tauto. destruct HT as (_ & _ & Hgk).
    unfold act, worker_async, worker_sync1, worker_sync2, worker_mark, answered in H.
    destruct (phase =? PREASYNC); [|destruct (phase =? PRESYNC1) eqn:E1; [|destruct (phase =? PRESYNC2); [|destruct (phase =? PREMARK); [|done]]]];
      res_inv; simpl in Hc; destruct (check_flag c =? 1); rewrite pc_goto_eq in Hc; try (by apply Hk in Hc); simpl in Hc; try tauto.
    + destruct Hc as [Hgr _]. rewrite (Hgk Hgr). simpl. apply Z.eqb_eq in E1. tauto.
    + destruct Hc as [_ [?|?]]; done.
    + destruct (mark_finished o); simpl in Hc; destruct Hc as [_ [?|?]]; done.
  - unfold global_phase in H. res_inv. destruct x0; [res_inv; rewrite pc_goto_eq in Hc; by left|]. case_match; res_inv; rewrite pc_goto_eq in Hc; by left.
  - unfold change_phase in H. res_inv. destruct x; res_inv; [|rewrite pc_goto_eq in Hc; by left].
    repeat (case_match; try done); res_inv; rewrite pc_goto_eq in Hc; by left.
  - injection H as <-. rewrite pc_goto_eq in Hc. case_match; [by left; split|]. by apply Hk in Hc.
  - unfold own_action in H. res_inv. rewrite pc_goto_eq in Hc. simpl in Hc. destruct HT as (_ & Hl & _). rewrite Hl in Hc. by left.
  - unfold finish_gc in H. res_inv. rewrite pc_goto_eq in Hc. by apply Hk in Hc.
  - unfold help_inactive in H. repeat (case_match; try done); res_inv; repeat (case_match; try done); res_inv; by rewrite pc_goto_eq in Hc.
  - unfold help_take in H. res_inv. case_match; res_inv; by rewrite pc_goto_eq in Hc.
  - unfold help_lock in H. res_inv. case_match; res_inv; by rewrite pc_goto_eq in Hc.
  - unfold help_release in H. res_inv. case_match; res_inv; by rewrite pc_goto_eq in Hc.
  - unfold help_again in H. res_inv. by rewrite pc_goto_eq in Hc.
Qed.
