(* ===== verification/ControlThms.v ===== *)
(** * Theorems about the handshakes

    Every interleaving of the steps of Control.v keeps the invariant, so that
    no assertion fails and a phase begins only when every worker has answered
    the one before.  A response can be lost, though ([lost_wakeup]). *)
From Stdlib Require Import ZArith Lia.
From stdpp Require Import base option list gmap relations.
From S2P Require Import Prelude Bits Layout Segment Alloc Control ControlFacts ControlInv ControlFrame ControlSteps ControlLead ControlChange.

Local Open Scope Z_scope.

Lemma step_inv N c t o : 0 <= N < 2 ^ 32 - 1 -> Z.of_nat t < N -> Inv N c -> good N (step t o c).
Proof.
  intros [HN0 HN] Ht HI. unfold step. destruct (pc_of c t) eqn:Hpc; try by apply good_ok.
  - by apply register_inv.
  - by apply answer_inv.
  - by apply act_inv.
  - by apply good_ok, global_load_inv.
  - by apply global_walk_inv.
  - by apply change_inv.
  - by apply good_ok, publish_step_inv.
  - by apply good_ok, add_count_inv.
  - by apply own_inv.
  - by apply finish_inv.
  - by apply help_load_inv.
  - by apply help_walk_inv.
  - by apply help_take_inv.
  - by apply help_lock_inv.
  - by apply help_release_inv.
  - by apply help_again_inv.
Qed.

Lemma exec_inv N c e : 0 <= N < 2 ^ 32 - 1 -> Z.of_nat e.1 < N -> Inv N c -> good N (exec e c).
Proof.
  intros HN Ht HI. destruct e as [t cmd]. unfold exec. simpl in *.
  destruct cmd as [| | |[]| | |o]; [..|by apply step_inv].
  all: destruct (pc_of c t) eqn:Hpc; try by apply good_ok.
  - by apply enter_inv.
  - by apply leave_inv.
  - by apply check_inv.
  - apply gc_inv; try done. by left.
  - apply gc_inv; try done. by right.
  - apply gc_inv; try done. by left.
  - by apply user_inv.
  - by apply cancel_inv.
Qed.

Lemma run_app es es' c : run (es ++ es') c = c' ← run es c; run es' c'.
Proof.
  unfold run. rewrite foldl_app. destruct (foldl _ (Ok c) es) as [c'| | |]; [done|..];
    induction es' as [|e es' IH]; done.
Qed.

(** [es] involves the threads below [N] only. *)
Definition threads_below (N : Z) (es : list (nat * command)) : Prop := Forall (fun e => Z.of_nat e.1 < N) es.

Lemma run_inv N es c : 0 <= N < 2 ^ 32 - 1 -> threads_below N es -> Inv N c -> good N (run es c).
Proof.
  intros HN Hes. revert c. induction Hes as [|e es He _ IH]; intros c HI; [by apply good_ok|].
  change (e :: es) with ([e] ++ es). rewrite run_app.
  destruct (exec_inv N c e HN He HI) as (c1 & H1 & HI1).
  change (run [e] c) with (exec e c). rewrite H1. by apply IH.
Qed.

(** States that the runtime can get into. *)
Definition reachable (N : Z) (c : control) : Prop :=
  0 <= N < 2 ^ 32 - 1 /\ exists es, threads_below N es /\ run es init_control = Ok c.

Lemma reachable_inv N c : reachable N c -> Inv N c.
Proof.
  intros (HN & es & Hes & Hr). destruct (run_inv N es init_control HN Hes) as (c' & Hr' & HI); [apply init_inv; lia|]. congruence.
Qed.

(** ** Properties *)


(** C8. A thread that begins to change the phase, or to end the collection, is
    alone in that; every live worker has accepted the last signal, and no
    action is running. *)
Theorem leader_sees_all_answers : forall N c t l, reachable N c ->
  pc_of c t = GlobalLoad l \/ (exists old ret, pc_of c t = GlobalWalk l old ret) \/
    (exists k, pc_of c t = Finish k /\ old_phase l = ASYNC) ->
  (forall w wk, workers c !! w = Some wk -> dead wk = false -> PHASE (wstate wk) = old_phase l) /\
  (forall t' w ph g k, pc_of c t' ≠ Act w ph g k) /\
  (forall t', leading (pc_of c t') = true -> t' = t) /\
  check_flag c = 0 /\ Z.odd (gc_count c) = true.
Proof.
  intros N c t l HR Hpc. pose proof (reachable_inv N c HR) as HI.
  assert (leading (pc_of c t) = true) as Hld by (destruct Hpc as [->|[(? & ? & ->)|(? & -> & _)]]; done).
  pose proof (leader_stage N c t HI Hld) as HS.
  assert (outstanding c = 0) as Ho.
  { pose proof (stage_progress _ _ _ HS) as Hp. destruct Hpc as [Hpc|[(? & ? & Hpc)|(? & Hpc & _)]]; rewrite Hpc in Hp; by destruct Hp. }
  split_and!.
  - intros w wk Hw Hd. pose proof (stage_phases _ _ _ HS w wk Hw Hd) as Hp.
    destruct Hpc as [Hpc|[(? & ? & Hpc)|(? & Hpc & ?)]]; rewrite Hpc in Hp; simpl in Hp; congruence.
  - intros t' w ph g k. by apply outstanding_zero.
  - apply HS.
  - rewrite (stage_flag _ _ _ HS), Ho. destruct Hpc as [->|[(? & ? & ->)|(? & -> & _)]]; done.
  - by apply HS.
Qed.

(** The phases that the live workers are in at the same time: those around
    one signal. *)
Theorem workers_one_signal_apart : forall N c, reachable N c ->
  exists l, lead_ok l /\ forall w wk, workers c !! w = Some wk -> dead wk = false ->
    PHASE (wstate wk) = old_phase l \/ PHASE (wstate wk) = new_phase l \/ PHASE (wstate wk) = global l.
Proof.
  intros N c HR. pose proof (reachable_inv N c HR) as HI. destruct (inv_stage _ _ HI) as [t HS].
  pose proof (inv_threads _ _ HI t) as HT.
  destruct (leading (pc_of c t)) eqn:Hld.
  - pose proof (stage_phases _ _ _ HS) as Hp.
    destruct (pc_of c t) eqn:Hpc; try done; simpl in HT;
      try (exists l; split; [by destruct HT|]; intros w wk Hw Hd; specialize (Hp w wk Hw Hd); simpl in Hp; tauto).
    exists (Lead ASYNC PRESYNC1 SYNC1 false Leave). split; [split; [by left|done]|]. intros w wk Hw Hd. left. by apply (Hp w wk).
  - assert (exists l, lead_ok l /\ global l = (available c).2) as (l & Hl & Ha).
    { assert (forall o n g, (o, n, g) ∈ [(ASYNC, PRESYNC1, SYNC1); (SYNC1, PRESYNC2, SYNC2); (SYNC2, PREMARK, MARK); (MARK, PREASYNC, ASYNC); (MARK, PREMARK, MARK)] ->
        lead_ok (Lead o n g false Leave)) as Hmk by (intros; by split).
      destruct (stage_post _ _ _ HS) as [E|[E|[E|E]]]; rewrite E.
      - exists (Lead MARK PREASYNC ASYNC false Leave). split; [apply Hmk; set_solver|done].
      - exists (Lead ASYNC PRESYNC1 SYNC1 false Leave). split; [apply Hmk; set_solver|done].
      - exists (Lead SYNC1 PRESYNC2 SYNC2 false Leave). split; [apply Hmk; set_solver|done].
      - exists (Lead SYNC2 PREMARK MARK false Leave). split; [apply Hmk; set_solver|done]. }
    exists l. split; [done|]. intros w wk Hw Hd. pose proof (stage_phases _ _ _ HS w wk Hw Hd) as Hp.
    rewrite calm_phase in Hp by done. destruct (lead_phases l Hl) as (_ & _ & _ & Hg). right. destruct Hp; [left|right]; lia.
Qed.



(** ** A lost response

    Nobody leads and nobody has a signal to answer, but the collection has
    not ended: what no step changes. *)
Definition resting (p : pc) : Prop :=
  match p with
  | Outside | Gone | InML | RegisterWalk _ _ | HelpLoad | HelpWalk _ _ => True
  | _ => False
  end.

Record stuck (c : control) : Prop := Stuck {
  stuck_pcs : forall t, resting (pc_of c t);
  stuck_workers : forall w wk, workers c !! w = Some wk -> exists l ph, post ph /\ wstate wk = word l ph;
  stuck_phase : post (available c).2;
  stuck_gc : Z.odd (gc_count c) = true
}.

Lemma stuck_goto c t p : stuck c -> resting p -> stuck (goto t p c).
Proof.
  intros [Hp Hw Ha Hg] H. split; try done. intros t'. rewrite pc_goto. by case_decide.
Qed.
Lemma stuck_put c w wk l ph : stuck c -> post ph -> wstate wk = word l ph -> stuck (put_worker w wk c).
Proof.
  intros [Hp Hw Ha Hg] Hph Hs. split; try done. intros x xk Hx. simpl in Hx.
  apply lookup_insert_Some in Hx as [[_ <-]|[_ Hx]]; eauto.
Qed.
Lemma stuck_available c p : stuck c -> post p.2 -> stuck (set_available p c).
Proof. intros [Hp Hw Ha Hg] H. by split. Qed.
Lemma stuck_handshake c p : stuck c -> stuck (set_handshake p c).
Proof. intros [Hp Hw Ha Hg]. by split. Qed.

Lemma stuck_exec N c e c' : Inv N c -> stuck c -> exec e c = Ok c' -> stuck c' /\ gc_count c' = gc_count c.
Proof.
  intros HI HS. destruct e as [t cmd]. unfold exec. simpl. pose proof (stuck_pcs c HS t) as Hrest.
  assert (inside (pc_of c t) = true -> exists wk ph, workers c !! t = Some wk /\ post ph /\ wstate wk = word Owned ph) as Hin.
  { intros Hin. destruct (inside_word N c t HI Hin) as (wk & ph & Hw & Hph & Hs & _). exists wk, ph. split_and!; try done.
    destruct (stuck_workers _ HS _ _ Hw) as (l & ph' & Hph' & Hs'). rewrite Hs in Hs'. apply word_inj in Hs' as [_ ->]; auto with runtime. }
  destruct cmd as [| | |[]| | |o].
  8: unfold step.
  all: destruct (pc_of c t) eqn:Hpc; try done; try (intros [= <-]; by split).
  - (* Enter *) unfold enter_worker. destruct (workers c !! t) as [wk|] eqn:Hw; [|intros [= <-]; split; [by apply stuck_goto|done]].
    destruct (stuck_workers _ HS _ _ Hw) as (l & ph & Hph & Hs). rewrite Hs, inactive_word by auto with runtime.
    case_bool_decide; [intros [= <-]; by split|]. assert (l = Free) as -> by (by destruct l).
    rewrite enter_word by auto with runtime. intros [= <-]. split; [|done]. apply stuck_goto; [|done].
    by apply (stuck_put _ _ _ Owned ph).
  - (* Exit *) unfold leave_worker. destruct Hin as (wk & ph & Hw & Hph & Hs); [done|]. rewrite Hw. cbn [deref mbind res_bind].
    rewrite Hs, IS_ACTIVE_word, bool_decide_true by auto with runtime. cbn [assert_that mbind res_bind].
    rewrite is_signal_owned, leave_word, (post_even ph), lor1_post by auto with runtime.
    intros [= <-]. split; [|done]. apply stuck_goto; [|done]. by apply (stuck_put _ _ _ Free ph).
  - (* Check *) unfold sml_check_internal. destruct Hin as (wk & ph & Hw & Hph & Hs); [done|]. rewrite Hw. cbn [deref mbind res_bind].
    rewrite Hs, IS_ACTIVE_word, bool_decide_true by auto with runtime. cbn [assert_that mbind res_bind].
    rewrite is_signal_owned, (post_even ph) by auto with runtime.
    intros [= <-]. split; [|done]. by apply stuck_goto.
  - (* Gc *) unfold sml_gc. rewrite (stuck_gc _ HS). intros [= <-]. by split.
  - unfold sml_gc. rewrite (stuck_gc _ HS). intros [= <-]. by split.
  - unfold sml_gc. rewrite (stuck_gc _ HS). intros [= <-]. by split.
  - (* User *) unfold add_user. destruct Hin as (wk & ph & Hw & Hph & Hs); [done|]. rewrite Hw. cbn [deref mbind res_bind].
    intros [= <-]. split; [|done]. by apply (stuck_put _ _ _ Owned ph).
  - (* Cancel *) unfold cancel_worker. destruct (workers c !! t) as [wk|] eqn:Hw; [|intros [= <-]; split; [by apply stuck_goto|done]].
    destruct (stuck_workers _ HS _ _ Hw) as (l & ph & Hph & Hs). case_match; [done|]. intros [= <-]. split; [|done].
    apply stuck_goto; [|done]. by apply (stuck_put _ _ _ l ph).
  - (* RegisterWalk *) unfold register_worker. case_match; [intros [= <-]; split; [by apply stuck_goto|done]|].
    destruct (skip_dead next c) as [[next'|]| | |]; cbn [mbind res_bind]; try done;
      [intros [= <-]; split; [by apply stuck_goto|done]|].
    case_match eqn:Hcas; intros [= <-]; (split; [|done]); [|by apply stuck_goto].
    apply andb_true_iff in Hcas as [Hcas _]. apply bool_decide_eq_true in Hcas. subst old.
    apply stuck_goto; [|done]. apply stuck_available; [|apply HS].
    apply (stuck_put _ _ _ Owned (available c).2); [done|apply HS|done].
  - intros [= <-]. split; [by apply stuck_goto|done].
  - (* HelpWalk *) unfold help_inactive. destruct w as [w|].
    + destruct (workers c !! w) as [wk|] eqn:Hw; cbn [deref mbind res_bind]; [|done].
      destruct (dead wk); [intros [= <-]; split; [by apply stuck_goto|done]|].
      destruct (stuck_workers _ HS _ _ Hw) as (l & ph & Hph & Hs).
      rewrite Hs, help_word, (post_even ph), andb_false_r by auto with runtime. simpl.
      intros [= <-]. split; [by apply stuck_goto|done].
    + case_match; intros [= <-]; (split; [|done]); apply stuck_goto; try done. by apply stuck_handshake.
Qed.

Lemma stuck_run N c es : 0 <= N < 2 ^ 32 - 1 -> threads_below N es -> Inv N c -> stuck c ->
  exists c', run es c = Ok c' /\ gc_count c' = gc_count c.
Proof.
  intros HN Hes. revert c. induction Hes as [|e es He _ IH]; intros c HI HS; [by exists c|].
  change (e :: es) with ([e] ++ es). rewrite run_app. change (run [e] c) with (exec e c).
  destruct (exec_inv N c e HN He HI) as (c1 & H1 & HI1). rewrite H1. cbn [mbind res_bind].
  destruct (stuck_exec N c e c1 HI HS H1) as [HS1 <-]. by apply IH.
Qed.

(** Two threads: thread 0 waits for the collection that it has begun (the
    loop of [sml_wait_gc] calls [sml_check_internal]); thread 1 leaves ML
    code, is the last to answer SYNC1 and, not greedy, is interrupted between
    [change_phase] and the addition to the counter.  Thread 0 answers SYNC2
    for itself and, as a helper, for thread 1. *)
Definition go : command := Run (Oracle false true 0).
Definition lost_schedule : list (nat * command) :=
  let t0 := 0%nat in let t1 := 1%nat in
  (t0, Enter) :: replicate 3 (t0, go) ++ (t1, Enter) :: replicate 3 (t1, go) ++
  (t0, Gc true) :: replicate 9 (t0, go) ++
  (t1, Exit) :: replicate 7 (t1, go) ++
  (t0, Check) :: replicate 2 (t0, go) ++ (t0, Check) :: replicate 6 (t0, go) ++
  [(t1, go)].

Definition lost_state : control :=
  match run lost_schedule init_control with Ok c => c | _ => init_control end.

Lemma lost_run : run lost_schedule init_control = Ok lost_state.
Proof. vm_compute. reflexivity. Qed.

Lemma lost_stuck : stuck lost_state.
Proof.
  split.
  - intros t. unfold pc_of. destruct (pcs lost_state !! t) as [p|] eqn:Hp; [|done].
    apply (map_list_all resting (pcs lost_state) t); [|done]. vm_compute. repeat constructor.
  - intros w wk. apply (map_list_all (fun wk => exists l ph, post ph /\ wstate wk = word l ph)).
    assert (map_to_list (workers lost_state) = [(1%nat, Worker 21 0 0 (Some 0%nat)); (0%nat, Worker 5 0 0 None)]) as -> by reflexivity.
    repeat constructor; simpl; [exists Free, 5|exists Owned, 5]; (split; [right; right; by left|done]).
  - right; right; left. vm_compute. reflexivity.
  - vm_compute. reflexivity.
Qed.

(** C40. The wake-up of the leader can be lost: a collection has begun, thread 0
    waits for its end, and whatever any threads do, it never ends. *)
Theorem lost_wakeup :
  run lost_schedule init_control = Ok lost_state /\
  gc_count lost_state = 1 /\ pc_of lost_state 0%nat = InML /\ check_flag lost_state = 0 /\
  forall N es, 2 <= N < 2 ^ 32 - 1 -> threads_below N es -> exists c, run es lost_state = Ok c /\ gc_count c = 1.
Proof.
  split; [apply lost_run|]. split_and!; [vm_compute; reflexivity..|]. intros N es HN Hes.
  apply (stuck_run N); [lia|done| |apply lost_stuck].
  apply reachable_inv. split; [lia|]. exists lost_schedule. split; [|apply lost_run].
  apply Forall_impl with (P := fun e => (e.1 < 2)%nat); [|simpl; intros; lia].
  apply (bool_decide_unpack _). vm_compute. exact I.
Qed.

(** A collection with one thread. *)
Example one_thread_collects :
  exists c, run ((0%nat, Enter) :: replicate 3 (0%nat, go) ++ (0%nat, Gc true) :: replicate 33 (0%nat, go)) init_control = Ok c /\
    gc_count c = 2 /\ pc_of c 0%nat = InML /\ check_flag c = 0.
Proof. eexists. split; [vm_compute; reflexivity|]. vm_compute. done. Qed.

Module ControlSample.

Definition state_of (es : list (nat * command)) : control :=
  match run es init_control with Ok c => c | _ => init_control end.

Lemma state_reachable es :
  bool_decide (Forall (fun e => (e.1 < 2)%nat) es) = true -> run es init_control = Ok (state_of es) -> reachable 2 (state_of es).
Proof.
  intros Hes Hr. split; [lia|]. exists es. split; [|done]. apply bool_decide_eq_true in Hes.
  eapply Forall_impl; [exact Hes|]. simpl. intros. lia.
Qed.

(** Thread 0 begins a collection, thread 1 has left ML code. *)
Definition beginning : list (nat * command) :=
  (0%nat, Enter) :: replicate 3 (0%nat, go) ++ (1%nat, Enter) :: replicate 3 (1%nat, go) ++ [(1%nat, Exit); (0%nat, Gc true)].
(** ... and is now at the action that it has taken over from thread 1. *)
Definition helping : list (nat * command) :=
  beginning ++ replicate 9 (0%nat, go) ++ (0%nat, Check) :: replicate 4 (0%nat, go).


Lemma leader_sees_all_answers_witness :
  pc_of (state_of beginning) 0%nat = GlobalLoad (Lead ASYNC PRESYNC1 SYNC1 true Resume) /\
  (forall w wk, workers (state_of beginning) !! w = Some wk -> dead wk = false -> PHASE (wstate wk) = ASYNC) /\
  check_flag (state_of beginning) = 0.
Proof.
  assert (pc_of (state_of beginning) 0%nat = GlobalLoad (Lead ASYNC PRESYNC1 SYNC1 true Resume)) as Hpc by (vm_compute; reflexivity).
  destruct (leader_sees_all_answers 2 (state_of beginning) 0 (Lead ASYNC PRESYNC1 SYNC1 true Resume)) as (H1 & _ & _ & H2 & _).
  - apply state_reachable; vm_compute; reflexivity.
  - left. exact Hpc.
  - split; [exact Hpc|]. split; [exact H1|exact H2].
Defined.

Lemma workers_one_signal_apart_witness :
  exists l, lead_ok l /\ forall w wk, workers (state_of helping) !! w = Some wk -> dead wk = false ->
    PHASE (wstate wk) = old_phase l \/ PHASE (wstate wk) = new_phase l \/ PHASE (wstate wk) = global l.
Proof. apply (workers_one_signal_apart 2). apply state_reachable; vm_compute; reflexivity. Defined.



End ControlSample.
