(* ===== verification/Exit.v ===== *)
(** * The end of the program

    [sml_exit] of src/src/runtime/control.c, by one thread, while the others
    go on with the steps of Control.v.  It takes away the phase that
    [workers_available] has for new workers, and takes the locks of all
    workers; [sml_finish], which calls all finalizers and frees the table of
    callbacks, is called if none of them was locked.  From a worker whose lock it has got nothing more is to be
    expected ([exit_excludes]); but that is not enough to be alone
    ([exit_meets_action], [exit_meets_worker]). *)
From Stdlib Require Import ZArith Lia.
From stdpp Require Import base option list gmap relations.
From S2P Require Import Prelude Bits Layout Segment Alloc Control ControlFacts ControlInv ControlThms.

Local Open Scope Z_scope.

(** ** [sml_exit] *)
Inductive exit_pc :=
| ExitRetry (old : stamped)
| ExitLock (w : option nat)
| ExitFinish
| ExitNow.

(** [taken]: the workers whose lock it has got. *)
Record exiting := Exiting { running : control; exit_at : exit_pc; taken : list nat }.

Definition sml_exit_start (c : control) : exiting := Exiting c (ExitRetry (available c)) [].

(** One turn of a loop; [current] is the thread that exits. *)
Definition sml_exit (current : nat) (o : oracle) (s : exiting) : res exiting :=
  let c := running s in
  match exit_at s with
  | ExitRetry old =>
      if bool_decide (available c = old) && negb (weak_fails o)
      then Ok (Exiting (set_available (old.1, 0) c) (ExitLock old.1) (taken s))
      else Ok (Exiting c (ExitRetry (available c)) (taken s))
  | ExitLock None => Ok (Exiting c ExitFinish (taken s))
  | ExitLock (Some w) =>
      wk ← deref (workers c !! w);
      if (w =? current)%nat then Ok (Exiting c (ExitLock (wnext wk)) (taken s))
      else
        let c := put_worker w (set_state (Z.ldiff (wstate wk) INACTIVE_STATE) wk) c in
        if IS_ACTIVE (wstate wk) then Ok (Exiting c ExitNow (taken s))
        else Ok (Exiting c (ExitLock (wnext wk)) (w :: taken s))
  | ExitFinish | ExitNow => Ok s
  end.

(** A step of [sml_exit] ([None]), or of another thread. *)
Definition exit_exec (current : nat) (e : option (nat * command)) (o : oracle) (s : exiting) : res exiting :=
  match e with
  | None => sml_exit current o s
  | Some e => if (e.1 =? current)%nat then Ok s
              else c ← exec e (running s); Ok (Exiting c (exit_at s) (taken s))
  end.
Definition exit_step (current : nat) (s s' : exiting) : Prop := exists e o, exit_exec current e o s = Ok s'.

(** ** Who has the lock of a worker *)
Inductive holder := Owner | Helper (t : nat) | Exiter.
Inductive holds (c : control) (T : list nat) (w : nat) : holder -> Prop :=
| holds_owner : inside (pc_of c w) = true -> holds c T w Owner
| holds_helper t : held (pc_of c t) = Some w -> holds c T w (Helper t)
| holds_exiter : w ∈ T -> holds c T w Exiter.

Definition active (m : gmap nat worker) (w : nat) : Prop := exists wk, m !! w = Some wk /\ IS_ACTIVE (wstate wk) = true.

Record excl (c : control) (T : list nat) : Prop := {
  excl_active w h : holds c T w h -> active (workers c) w;
  excl_unique w h h' : holds c T w h -> holds c T w h' -> h = h'
}.

(** What a thread in the middle of an operation needs. *)
Definition phases_small (l : lead) : Prop := 0 <= old_phase l < 8 /\ 0 <= new_phase l < 8 /\ 0 <= global l < 8.
Definition side (m : gmap nat worker) (t : nat) (p : pc) : Prop :=
  match p with
  | RegisterWalk _ _ => m !! t = None
  | Answer s => 0 <= s < 8
  | HelpTake _ _ s | HelpLock _ s => IS_ACTIVE s = false
  | HelpAgain _ s => IS_ACTIVE s = true
  | Act _ _ g k => g = true -> k = Resume
  | GlobalLoad l | GlobalWalk l _ _ | Change l _ _ _ | Publish l _ _ | AddCount l _ => phases_small l /\ (greedy l = true -> after l = Resume)
  | Own l => phases_small l /\ after l = Resume
  | _ => True
  end.

(** The bit INACTIVE_STATE. *)
Lemma IS_ACTIVE_bit s : IS_ACTIVE s = negb (Z.testbit s 4).
Proof.
  unfold IS_ACTIVE, INACTIVE_STATE. change 16 with (2 ^ 4). rewrite <- Z.land_comm.
  destruct (Z.testbit s 4) eqn:Hb; simpl.
  - apply Z.eqb_neq. intros H. assert (Z.testbit (Z.land (2 ^ 4) s) 4 = false) as Hf by (by rewrite H).
    rewrite Z.land_spec, Hb in Hf. done.
  - apply Z.eqb_eq, Z.bits_inj'. intros n Hn. rewrite Z.land_spec, Z.bits_0, Z.pow2_bits_eqb by lia.
    destruct (Z.eqb_spec 4 n) as [<-|]; [by rewrite Hb|done].
Qed.

Lemma bit4_small x : 0 <= x < 8 -> Z.testbit x 4 = false.
Proof. intros Hx. apply (bool_decide_unpack _). assert (x = 0 \/ x = 1 \/ x = 2 \/ x = 3 \/ x = 4 \/ x = 5 \/ x = 6 \/ x = 7) by lia. naive_solver. Qed.

Lemma active_clear s : IS_ACTIVE (Z.ldiff s INACTIVE_STATE) = true.
Proof. rewrite IS_ACTIVE_bit, Z.ldiff_spec. simpl. by rewrite andb_false_r. Qed.
Lemma active_small x : 0 <= x < 8 -> IS_ACTIVE x = true.
Proof. intros Hx. by rewrite IS_ACTIVE_bit, bit4_small. Qed.
Lemma active_lor s x : Z.testbit x 4 = false -> IS_ACTIVE (Z.lor s x) = IS_ACTIVE s.
Proof. intros Hx. by rewrite !IS_ACTIVE_bit, Z.lor_spec, Hx, orb_false_r. Qed.
Lemma active_lxor s x : Z.testbit x 4 = false -> IS_ACTIVE (Z.lxor s x) = IS_ACTIVE s.
Proof. intros Hx. by rewrite !IS_ACTIVE_bit, Z.lxor_spec, Hx, xorb_false_r. Qed.
Lemma active_phase s : IS_ACTIVE (PHASE s) = true.
Proof. rewrite IS_ACTIVE_bit. unfold PHASE. rewrite Z.land_spec. simpl. by rewrite andb_false_r. Qed.

(** ** How a step changes the holders *)
Section Moves.
Variables (c c1 : control) (T : list nat) (t : nat) (p : pc).
Hypothesis Hexcl : excl c T.
Hypothesis Hpcs : pcs c1 = pcs c.

Lemma pc_after t' : pc_of (goto t p c1) t' = if decide (t' = t) then p else pc_of c t'.
Proof. rewrite pc_goto. unfold pc_of. by rewrite Hpcs. Qed.

(** What holds after the step held before, or is the thread itself in [p]. *)
Lemma holds_after w h : holds (goto t p c1) T w h ->
  (holds c T w h /\ (h = Owner -> w <> t) /\ h <> Helper t) \/ (w = t /\ h = Owner /\ inside p = true) \/ (h = Helper t /\ held p = Some w).
Proof.
  intros [Hi|t' Hh|Ht].
  - rewrite pc_after in Hi. case_decide; [by right; left|left; by split; [constructor|]].
  - rewrite pc_after in Hh. case_decide; [subst; by right; right|]. left. split; [by constructor|]. split; [done|congruence].
  - left. by split; [constructor|].
Qed.

(** The thread has the same locks as before. *)
Lemma keep_excl : (forall w, active (workers c) w -> active (workers c1) w) -> (inside p = true -> inside (pc_of c t) = true) ->
  (forall w, held p = Some w -> held (pc_of c t) = Some w) -> excl (goto t p c1) T.
Proof.
  intros Ha Hi Hh.
  assert (Hb : forall w h, holds (goto t p c1) T w h -> holds c T w h).
  { intros w h [[? _]|[(-> & -> & ?)|[-> ?]]]%holds_after; [done|by constructor; apply Hi|by constructor; apply Hh]. }
  split.
  - intros w h Hw%Hb. apply Ha. by apply (excl_active _ _ Hexcl w h).
  - intros w h h' Hw%Hb Hw'%Hb. by apply (excl_unique _ _ Hexcl w).
Qed.

(** It gives up the one of [w]. *)
Lemma release_excl w h0 : holds c T w h0 -> (h0 = Owner /\ w = t \/ h0 = Helper t) ->
  (forall w', w' <> w -> active (workers c) w' -> active (workers c1) w') ->
  (inside p = true -> inside (pc_of c t) = true /\ h0 <> Owner) -> (forall w', held p = Some w' -> held (pc_of c t) = Some w' /\ w' <> w) ->
  excl (goto t p c1) T.
Proof.
  intros H0 Hh0 Ha Hi Hh.
  assert (Hb : forall w' h, holds (goto t p c1) T w' h -> holds c T w' h /\ w' <> w).
  { intros w' h [(Hw & Ho & Hn)|[(-> & -> & Hin)|[-> Hw]]]%holds_after.
    - split; [done|]. intros ->. assert (h = h0) as -> by (by apply (excl_unique _ _ Hexcl w)). destruct Hh0 as [[-> ->]| ->]; [by apply Ho|done].
    - destruct (Hi Hin) as [Hin' Hno]. split; [by constructor|]. intros ->.
      apply Hno. apply (excl_unique _ _ Hexcl w); [done|by constructor].
    - destruct (Hh w' Hw) as [Hw' Hne]. split; [by constructor|done]. }
  split.
  - intros w' h [Hw Hne]%Hb. apply Ha; [done|]. by apply (excl_active _ _ Hexcl w' h).
  - intros w' h h' [Hw _]%Hb [Hw' _]%Hb. by apply (excl_unique _ _ Hexcl w').
Qed.

(** It gets the one of [w], which nobody had. *)
Lemma acquire_excl w : ~ active (workers c) w -> (forall w', w' = w \/ active (workers c) w' -> active (workers c1) w') ->
  (inside p = true -> w = t /\ held p = None \/ inside (pc_of c t) = true) ->
  (forall w', held p = Some w' -> w' = w /\ (inside p = true -> inside (pc_of c t) = true) \/ held (pc_of c t) = Some w') ->
  excl (goto t p c1) T.
Proof.
  intros Hw Ha Hi Hh.
  assert (Hb : forall w' h, holds (goto t p c1) T w' h -> holds c T w' h \/ w' = w /\ (h = Owner /\ w = t /\ held p = None \/ h = Helper t /\ held p = Some w)).
  { intros w' h [[? _]|[(-> & -> & Hin)|[-> Hw']]]%holds_after; [by left| |].
    - destruct (Hi Hin) as [[-> Hn]|?]; [right; split; [done|by left]|left; by constructor].
    - destruct (Hh w' Hw') as [[-> _]|?]; [right; split; [done|by right]|left; by constructor]. }
  assert (Hno : forall h, ~ holds c T w h) by (intros h Hh'; apply Hw; by apply (excl_active _ _ Hexcl w h)).
  split.
  - intros w' h [H|[-> _]]%Hb; apply Ha; [right; by apply (excl_active _ _ Hexcl w' h)|by left].
  - intros w' h h' [H1|[-> H1]]%Hb [H2|[H2 H2']]%Hb; [by apply (excl_unique _ _ Hexcl w')| | |]; subst; try (by exfalso; eapply Hno).
    destruct H1 as [(-> & _ & ?)|[-> ?]], H2' as [(-> & _ & ?)|[-> ?]]; congruence.
Qed.

Lemma keep_side : (forall t', side (workers c) t' (pc_of c t')) -> (forall w, is_Some (workers c1 !! w) -> is_Some (workers c !! w) \/ w = t) ->
  side (workers c1) t p -> forall t', side (workers c1) t' (pc_of (goto t p c1) t').
Proof.
  intros Hs Hd Hp t'. rewrite pc_after. case_decide as E; [by subst|]. specialize (Hs t').
  destruct (pc_of c t'); try done. simpl in *. apply eq_None_not_Some. intros [Hx|Hx]%Hd; [rewrite Hs in Hx; by destruct Hx|done].
Qed.
End Moves.

(** ** Updates of workers *)
Lemma active_put m w wk wk' w' : m !! w = Some wk -> (IS_ACTIVE (wstate wk) = true -> IS_ACTIVE (wstate wk') = true) ->
  active m w' -> active (<[w := wk']> m) w'.
Proof.
  intros Hw Hs (x & Hx & Ha). destruct (decide (w' = w)) as [->|]; [exists wk'|exists x].
  - rewrite lookup_insert_eq. split; [done|]. apply Hs. congruence.
  - by rewrite lookup_insert_ne.
Qed.

Lemma active_put_eq m w wk' : IS_ACTIVE (wstate wk') = true -> active (<[w := wk']> m) w.
Proof. intros H. exists wk'. by rewrite lookup_insert_eq. Qed.

Lemma dom_put (m : gmap nat worker) w (wk wk' : worker) w' : m !! w = Some wk -> is_Some (<[w := wk']> m !! w') -> is_Some (m !! w').
Proof. intros Hw. rewrite lookup_insert_is_Some. intros [->|[_ ?]]; [by eexists|done]. Qed.

(** ** The steps of the other threads *)
Record guarded (c : control) (T : list nat) : Prop := {
  guarded_excl : excl c T;
  guarded_side t : side (workers c) t (pc_of c t);
  guarded_phase : 0 <= (available c).2 < 8
}.

(** A thread moves on with the locks it has. *)
Lemma guarded_keep c c1 T t p : guarded c T -> pcs c1 = pcs c -> 0 <= (available c1).2 < 8 -> (forall w, active (workers c) w -> active (workers c1) w) ->
  (inside p = true -> inside (pc_of c t) = true) -> (forall w, held p = Some w -> held (pc_of c t) = Some w) ->
  (forall w, is_Some (workers c1 !! w) -> is_Some (workers c !! w) \/ w = t) -> side (workers c1) t p -> guarded (goto t p c1) T.
Proof.
  intros [He Hs _] Hp Hv Ha Hi Hh Hd Hsd. split; [by apply (keep_excl c)| |done].
  intros t'. change (workers (goto t p c1)) with (workers c1). by apply (keep_side c).
Qed.

(** Without a change to the workers. *)
Lemma guarded_goto c c1 T t p : guarded c T -> pcs c1 = pcs c -> 0 <= (available c1).2 < 8 -> workers c1 = workers c ->
  (inside p = true -> inside (pc_of c t) = true) -> (forall w, held p = Some w -> held (pc_of c t) = Some w) ->
  side (workers c) t p -> guarded (goto t p c1) T.
Proof. intros Hg Hp Hv Hw Hi Hh Hs. apply (guarded_keep c); rewrite ?Hw; naive_solver. Qed.

(** With a change to one worker that does not unlock it. *)
Lemma guarded_put c c1 T t p w wk wk' : guarded c T -> pcs c1 = pcs c -> available c1 = available c -> workers c !! w = Some wk -> workers c1 = <[w := wk']> (workers c) ->
  (IS_ACTIVE (wstate wk) = true -> IS_ACTIVE (wstate wk') = true) ->
  (inside p = true -> inside (pc_of c t) = true) -> (forall w, held p = Some w -> held (pc_of c t) = Some w) ->
  (forall m, side m t p) -> guarded (goto t p c1) T.
Proof.
  intros Hg Hp Hv Hw Hw1 Hs Hi Hh Hsd. apply (guarded_keep c); rewrite ?Hw1, ?Hv; try done; [by apply Hg|..].
  - intros w'. by apply active_put with wk.
  - intros w' Hw'. left. by apply (dom_put _ w wk wk').
Qed.

Lemma return_inside k : inside (return_to k) = inside_cont k.
Proof. by destruct k. Qed.
Lemma return_held k : held (return_to k) = held_cont k.
Proof. by destruct k. Qed.
Lemma return_side m t k : side m t (return_to k).
Proof. by destruct k. Qed.

Lemma small_lead o n u g k :
  forallb (fun x => (0 <=? x) && (x <? 8)) [o; n; u] = true -> (g = true -> k = Resume) -> phases_small (Lead o n u g k) /\ (g = true -> k = Resume).
Proof. intros H1 H2. split; [|done]. revert H1. cbn. rewrite !andb_true_iff, !Z.leb_le, !Z.ltb_lt. unfold phases_small. simpl. lia. Qed.

Section Exec.
Variables (c : control) (T : list nat) (t : nat) (o : oracle).
Hypothesis Hg : guarded c T.

(** A response; [last] goes on as leader. *)
Lemma answered_guarded c1 k l last : pcs c1 = pcs c -> available c1 = available c -> inside (pc_of c t) = inside_cont k -> held (pc_of c t) = held_cont k ->
  (forall w, active (workers c) w -> active (workers c1) w) -> (forall w, is_Some (workers c1 !! w) -> is_Some (workers c !! w)) ->
  (forall c2, pcs c2 = pcs c -> workers c2 = workers c1 -> last c2 = goto t l c2 \/ exists w wk f, workers c1 !! w = Some wk /\
     last c2 = goto t l (put_worker w (set_flags f wk) c2)) ->
  inside l = inside_cont k -> held l = held_cont k -> (forall m, side m t l) -> guarded (answered t k c1 last) T.
Proof.
  intros Hp Hv Hi Hh Ha Hd Hlast Hli Hlh Hls. pose proof (guarded_phase _ _ Hg) as Hph. unfold answered. destruct (check_flag c1 =? 1).
  - destruct (Hlast (set_check_flag (u32 (check_flag c1 - 1)) c1) Hp eq_refl) as [->|(w & wk & f & Hw & ->)].
    + apply (guarded_keep c); simpl; rewrite ?Hli, ?Hlh, ?Hi, ?Hh, ?Hv; try done; auto.
    + apply (guarded_keep c); simpl; rewrite ?Hli, ?Hlh, ?Hi, ?Hh, ?Hv; try done.
      * intros w' Hw'. by apply (active_put _ w wk), Ha.
      * intros w' Hw'%(dom_put _ w wk); [left; by apply Hd|done].
  - apply (guarded_keep c); simpl; rewrite ?return_inside, ?return_held, ?Hi, ?Hh, ?Hv; try done; auto using return_side.
Qed.

Lemma act_guarded w ph g k c' : pc_of c t = Act w ph g k -> act t w ph g k o c = Ok c' -> guarded c' T.
Proof.
  intros Hpc. assert (Hr : g = true -> k = Resume) by (pose proof (guarded_side _ _ Hg t) as Hs; by rewrite Hpc in Hs). assert (Hi : inside (pc_of c t) = inside_cont k) by (by rewrite Hpc).
  assert (Hh : held (pc_of c t) = held_cont k) by (by rewrite Hpc). unfold act. repeat case_match; [..|done].
  - intros [= <-]. by apply (answered_guarded c k (Finish k)); auto.
  - unfold worker_sync1. intros (wk & Hw%deref_ok & [= <-])%res_bind_ok. apply (answered_guarded c k (GlobalLoad (Lead SYNC1 PRESYNC2 SYNC2 g k))); auto;
      [|by intros; apply small_lead].
    intros c2 Hc2 Hw2. right. by eexists _, _, _.
  - unfold worker_sync2. intros (wk & Hw%deref_ok & [= <-])%res_bind_ok.
    apply (answered_guarded _ k (GlobalLoad (Lead SYNC2 PREMARK MARK g k))); simpl; auto; try done.
    all: intros w' Hw'; first [by apply active_put with wk
      |by apply (dom_put _ w wk) in Hw'|by apply small_lead].
  - intros [= <-]. destruct (mark_finished o);
      [apply (answered_guarded c k (GlobalLoad (Lead MARK PREASYNC ASYNC g k)))|apply (answered_guarded c k (GlobalLoad (Lead MARK PREMARK MARK g k)))]; auto;
      by intros; apply small_lead.
Qed.

Lemma side_t : side (workers c) t (pc_of c t).
Proof. apply Hg. Qed.
Lemma phase_t : 0 <= (available c).2 < 8.
Proof. apply Hg. Qed.
Hint Resolve phase_t : core.

(** Nobody has the lock of a worker that is not active, or not there. *)
Lemma register_guarded old next c' : pc_of c t = RegisterWalk old next -> register_worker t old next o c = Ok c' -> guarded c' T.
Proof.
  intros Hpc. assert (Hn : workers c !! t = None) by (pose proof side_t as Hs; by rewrite Hpc in Hs).
  assert (Ho : forall p, inside p = false -> held p = None -> side (workers c) t p -> forall c1, pcs c1 = pcs c -> available c1 = available c ->
    workers c1 = workers c -> guarded (goto t p c1) T).
  { intros p Hi Hh Hs c1 Hp Hv Hw. apply (guarded_goto c); rewrite ?Hi, ?Hh, ?Hv; done. }
  unfold register_worker. case_match; [intros [= <-]; by apply Ho|].
  intros ([next'|] & _ & Hr)%res_bind_ok; [injection Hr as <-; by apply Ho|].
  case_match eqn:Hcas; injection Hr as <-; [|by apply Ho].
  apply andb_true_iff in Hcas as [Hcas%bool_decide_eq_true _].
  split; [|intros t'|by rewrite <- Hcas].
  - apply (acquire_excl c (set_available (Some t, old.2) (put_worker t (Worker (ACTIVE old.2) 0 0 next) c)) T t InML (guarded_excl _ _ Hg) eq_refl t); simpl; [|intros w' [-> |Hw']|by left|done].
    + intros (wk & Hw & _). congruence.
    + apply active_put_eq. simpl. apply active_small. by rewrite <- Hcas.
    + destruct Hw' as (x & Hx & Ha). exists x. rewrite lookup_insert_ne by congruence. done.
  - apply (keep_side c (set_available (Some t, old.2) (put_worker t (Worker (ACTIVE old.2) 0 0 next) c)) t InML eq_refl); [apply Hg| |done]. intros w. simpl. rewrite lookup_insert_is_Some. intros [->|[_ ?]]; [by right|by left].
Qed.

(** The thread takes the lock of [w], which is not active. *)
Lemma take_guarded w wk s p : workers c !! w = Some wk -> IS_ACTIVE (wstate wk) = false -> IS_ACTIVE s = true ->
  (inside p = true -> w = t /\ held p = None \/ inside (pc_of c t) = true) ->
  (forall w', held p = Some w' -> w' = w /\ (inside p = true -> inside (pc_of c t) = true) \/ held (pc_of c t) = Some w') ->
  (forall m, side m t p) -> guarded (goto t p (put_worker w (set_state s wk) c)) T.
Proof.
  intros Hw Hf Hs Hi Hh Hsd. split; [|intros t'|apply phase_t].
  - apply (acquire_excl c (put_worker w (set_state s wk) c) T t p (guarded_excl _ _ Hg) eq_refl w); simpl; [|intros w' [->|Hw']|done..].
    + intros (x & Hx & Ha). congruence.
    + by apply active_put_eq.
    + by apply (active_put _ w wk).
  - apply (keep_side c (put_worker w (set_state s wk) c) t p eq_refl); [apply Hg|intros w' Hw'%(dom_put _ w wk); [by left|done]|apply Hsd].
Qed.

(** It gives the one of [w] back. *)
Lemma drop_guarded w wk s p h0 : holds c T w h0 -> (h0 = Owner /\ w = t \/ h0 = Helper t) -> workers c !! w = Some wk ->
  (inside p = true -> inside (pc_of c t) = true /\ h0 <> Owner) -> (forall w', held p = Some w' -> held (pc_of c t) = Some w' /\ w' <> w) ->
  (forall m, side m t p) -> guarded (goto t p (put_worker w (set_state s wk) c)) T.
Proof.
  intros H0 Hh0 Hw Hi Hh Hsd. split; [|intros t'|apply phase_t].
  - apply (release_excl c (put_worker w (set_state s wk) c) T t p (guarded_excl _ _ Hg) eq_refl w h0); try done. simpl. intros w' Hne (x & Hx & Ha).
    exists x. by rewrite lookup_insert_ne.
  - apply (keep_side c (put_worker w (set_state s wk) c) t p eq_refl); [apply Hg|intros w' Hw'%(dom_put _ w wk); [by left|done]|apply Hsd].
Qed.

Lemma enter_guarded c' : pc_of c t = Outside -> enter_worker t c = Ok c' -> guarded c' T.
Proof.
  intros Hpc. unfold enter_worker. destruct (workers c !! t) as [wk|] eqn:Hw.
  - destruct (Z.land (wstate wk) INACTIVE_STATE =? 0) eqn:Hs; intros [= <-]; [done|].
    apply take_guarded; rewrite ?Hpc; try done; [apply active_clear|by left].
  - intros [= <-]. by apply (guarded_goto c); rewrite ?Hpc.
Qed.

Lemma leave_guarded c' : pc_of c t = InML -> leave_worker t c = Ok c' -> guarded c' T.
Proof.
  intros Hpc (wk & Hw%deref_ok & (_ & _ & Hr)%res_bind_ok)%res_bind_ok.
  cbv zeta in Hr. destruct (is_signal (wstate wk)); injection Hr as <-;
    (apply drop_guarded with Owner; [constructor; by rewrite Hpc|by left|done|by rewrite Hpc|done|done]).
Qed.

Lemma lock_guarded w st c' : pc_of c t = HelpLock w st -> help_lock t w st c = Ok c' -> guarded c' T.
Proof.
  intros Hpc (wk & Hw%deref_ok & Hr)%res_bind_ok. pose proof side_t as Hs. rewrite Hpc in Hs. simpl in Hs.
  cbv zeta in Hr. destruct (Z.eqb_spec (wstate wk) st) as [E|]; injection Hr as <-; [|by apply (guarded_goto c); rewrite ?Hpc].
  apply take_guarded; rewrite ?Hpc; try done; [congruence| |by right|intros w' [= ->]; by left].
  unfold ACTIVE. rewrite !active_lor by done. apply active_phase.
Qed.

Lemma release_guarded w ns c' : pc_of c t = HelpRelease w ns -> help_release t w ns c = Ok c' -> guarded c' T.
Proof.
  intros Hpc (wk & Hw%deref_ok & Hr)%res_bind_ok. assert (Hh : holds c T w (Helper t)) by (constructor; by rewrite Hpc).
  cbv zeta in Hr. destruct (wstate wk =? ns); injection Hr as <-.
  - apply drop_guarded with (Helper t); rewrite ?Hpc; try done; by right.
  - apply (guarded_goto c); rewrite ?Hpc; try done. simpl. destruct (excl_active _ _ (guarded_excl _ _ Hg) w _ Hh) as (x & Hx & Ha). congruence.
Qed.

Lemma global_guarded l old ret c' : pc_of c t = GlobalWalk l old ret -> global_phase t l old ret o c = Ok c' -> guarded c' T.
Proof.
  intros Hpc (_ & _ & ([next|] & _ & Hr)%res_bind_ok)%res_bind_ok; pose proof side_t as Hs; rewrite Hpc in Hs; simpl in Hs.
  - injection Hr as <-. apply (guarded_goto c); rewrite ?Hpc; done.
  - case_match; injection Hr as <-; apply (guarded_goto c); rewrite ?Hpc; try done. apply Hs.
Qed.

Lemma change_guarded l head prev n c' : pc_of c t = Change l head prev n -> change_phase t l head prev n c = Ok c' -> guarded c' T.
Proof.
  intros Hpc (i & _ & Hr)%res_bind_ok. pose proof side_t as Hs. rewrite Hpc in Hs. simpl in Hs.
  assert (Hx : Z.testbit (Z.lxor (old_phase l) (new_phase l)) 4 = false) by (rewrite Z.lxor_spec, !bit4_small; [done|apply Hs..]).
  assert (Hput : forall p c1 w wk wk', pcs c1 = pcs c -> available c1 = available c -> workers c !! w = Some wk -> workers c1 = <[w := wk']> (workers c) ->
    (IS_ACTIVE (wstate wk) = true -> IS_ACTIVE (wstate wk') = true) -> guarded (goto t (Change l head p n) c1) T).
  { intros p c1 w wk wk' H1 H2 H3 H4 H5. eapply (guarded_put c); try done; by rewrite Hpc. }
  destruct i as [w|].
  2: { apply res_bind_ok in Hr as (_ & _ & [= <-]). apply (guarded_goto c); rewrite ?Hpc; done. }
  apply res_bind_ok in Hr as (wk & Hw%deref_ok & Hr). cbv zeta in Hr.
  assert (Hunlink : forall p, (pk ← deref (workers c !! p); Ok (goto t (Change l head prev n) (put_worker p (set_next (wnext wk) pk) c))) = Ok c' -> guarded c' T).
  { intros p (pk & Hp%deref_ok & [= <-])%res_bind_ok. by eapply Hput. }
  assert (Hchange : (assert_that (PHASE (wstate wk) =? old_phase l);; Ok (goto t (Change l head (Some w) (u32 (n + 1)))
     (put_worker w (set_state (Z.lxor (wstate wk) (Z.lxor (old_phase l) (new_phase l))) wk) c))) = Ok c' -> guarded c' T).
  { intros (_ & _ & [= <-])%res_bind_ok. eapply (guarded_put c); try done; [|by rewrite Hpc..]. simpl. by rewrite active_lxor. }
  destruct prev as [p|]; [destruct (dead wk); [by apply (Hunlink p)|]|]; (case_match; [|by apply Hchange]).
  - apply res_bind_ok in Hr as (pk & Hp%deref_ok & [= <-]). cbn in Hp.
    apply (guarded_keep c); rewrite ?Hpc; try done.
    + intros w' Hw'. simpl. apply (active_put _ p pk); [done|done|]. by apply (active_put _ w wk).
    + intros w' Hw'. left. simpl in Hw'. apply (dom_put _ p pk) in Hw'; [|done]. by apply (dom_put _ w wk) in Hw'.
  - injection Hr as <-. by eapply Hput.
Qed.

Lemma step_guarded c' : step t o c = Ok c' -> guarded c' T.
Proof.
  unfold step. pose proof side_t as Hs. destruct (pc_of c t) as [| | |old next|st|w ph g k|l|l old ret|l head prev n|l head n|l n|l|k| |old w|old w st|w st|w ns|w st] eqn:Hpc;
    simpl in Hs; intros Hr; try (by injection Hr as <-).
  - by apply register_guarded in Hr.
  - apply res_bind_ok in Hr as (wk & Hw%deref_ok & [= <-]). eapply (guarded_put c); try done; [|by rewrite Hpc..].
    intros _. simpl. unfold ACTIVE. rewrite active_lor by done. by apply active_small.
  - by eapply act_guarded.
  - injection Hr as <-. apply (guarded_goto c); rewrite ?Hpc; done.
  - by apply global_guarded in Hr.
  - by apply change_guarded in Hr.
  - injection Hr as <-. apply (guarded_goto c); rewrite ?Hpc; done.
  - injection Hr as <-. destruct Hs as [Hs Hgr]. destruct (greedy l).
    + specialize (Hgr eq_refl). apply (guarded_goto c); rewrite ?Hpc; simpl; rewrite ?Hgr; done.
    + apply (guarded_goto c); rewrite ?Hpc; simpl; rewrite ?return_inside, ?return_held; try done. apply return_side.
  - apply res_bind_ok in Hr as (wk & Hw%deref_ok & (_ & _ & [= <-])%res_bind_ok). eapply (guarded_put c); try done; rewrite ?Hpc, ?(proj2 Hs); try done.
    intros _. simpl. unfold ACTIVE. rewrite active_lor by done. apply active_small, Hs.
  - apply res_bind_ok in Hr as (_ & _ & [= <-]). apply (guarded_goto c); rewrite ?Hpc, ?return_inside, ?return_held; try done. apply return_side.
  - injection Hr as <-. apply (guarded_goto c); rewrite ?Hpc; done.
  - unfold help_inactive in Hr. destruct w as [w|].
    + apply res_bind_ok in Hr as (wk & Hw%deref_ok & Hr). destruct (dead wk); [injection Hr as <-; apply (guarded_goto c); rewrite ?Hpc; done|].
      destruct (wstate wk =? INACTIVE (Z.ldiff (wstate wk) 1)) eqn:He; injection Hr as <-; apply (guarded_goto c); rewrite ?Hpc; try done.
      simpl. apply Z.eqb_eq in He. rewrite He, IS_ACTIVE_bit. unfold INACTIVE. by rewrite Z.lor_spec, orb_true_r.
    + case_match; injection Hr as <-; apply (guarded_goto c); rewrite ?Hpc; done.
  - apply res_bind_ok in Hr as (wk & Hw%deref_ok & Hr). case_match; injection Hr as <-; apply (guarded_goto c); rewrite ?Hpc; done.
  - by apply lock_guarded in Hr.
  - by apply release_guarded in Hr.
  - apply res_bind_ok in Hr as (wk & Hw%deref_ok & [= <-]). eapply (guarded_put c); try done; rewrite ?Hpc; try done.
    intros _. simpl. by rewrite active_lor.
Qed.
End Exec.

(** A change that no thread is part of. *)
Lemma holds_pcs c c1 T w h : pcs c1 = pcs c -> holds c1 T w h -> holds c T w h.
Proof. intros Hp [Hi|t Hh|Hw]; constructor; unfold pc_of in *; by rewrite <- ?Hp. Qed.

Lemma guarded_frame c c1 T : guarded c T -> pcs c1 = pcs c -> (forall w, active (workers c) w -> active (workers c1) w) ->
  (forall w, is_Some (workers c1 !! w) -> is_Some (workers c !! w)) -> 0 <= (available c1).2 < 8 -> guarded c1 T.
Proof.
  intros [[Hact Huni] Hs _] Hp Ha Hd Hv. split; [split|intros t|done].
  - intros w h Hh%(holds_pcs c); [|done]. by apply Ha, (Hact w h).
  - intros w h h' Hh%(holds_pcs c) Hh'%(holds_pcs c); [|done..]. by apply (Huni w).
  - specialize (Hs t). unfold pc_of in *. rewrite Hp. destruct (default Outside (pcs c !! t)); try done. simpl in *.
    apply eq_None_not_Some. intros Hx%Hd. rewrite Hs in Hx. by destruct Hx.
Qed.

Lemma is_signal_small s : is_signal s = true -> 0 <= s < 8.
Proof. unfold is_signal, ACTIVE. rewrite !orb_true_iff, !Z.eqb_eq. intros [[[->| ->]| ->]| ->]; done. Qed.

Lemma exec_guarded c T e c' : guarded c T -> exec e c = Ok c' -> guarded c' T.
Proof.
  intros Hg. unfold exec. destruct e as [t [| | |[]| | |o]]; simpl; try (intros Hr; by apply (step_guarded c T t o Hg) in Hr);
    destruct (pc_of c t) eqn:Hpc; try (intros [= <-]; done); intros Hr.
  - by apply (enter_guarded c T t Hg).
  - by apply (leave_guarded c T t Hg).
  - apply res_bind_ok in Hr as (wk & Hw%deref_ok & (_ & _ & Hr)%res_bind_ok). cbv zeta in Hr.
    destruct (is_signal (wstate wk)) eqn:Hs; injection Hr as <-; apply (guarded_goto c); rewrite ?Hpc; try done; try apply Hg; by apply is_signal_small.
  - unfold sml_gc in Hr. case_match; injection Hr as <-; [done|]. apply (guarded_goto c); rewrite ?Hpc; try done; try apply Hg; by apply small_lead.
  - unfold sml_gc in Hr. case_match; injection Hr as <-; [done|]. apply (guarded_goto c); rewrite ?Hpc; try done; try apply Hg; by apply small_lead.
  - unfold sml_gc in Hr. case_match; injection Hr as <-; [done|]. apply (guarded_goto c); rewrite ?Hpc; try done; try apply Hg; by apply small_lead.
  - apply res_bind_ok in Hr as (wk & Hw%deref_ok & [= <-]). apply (guarded_frame c); [done|done| | |apply Hg]; simpl.
    + intros w Ha. by apply (active_put _ t wk).
    + intros w. by apply dom_put with wk.
  - unfold cancel_worker in Hr. destruct (workers c !! t) as [wk|] eqn:Hw.
    + case_match; [done|]. injection Hr as <-. eapply (guarded_put c); try done; rewrite ?Hpc; done.
    + injection Hr as <-. apply (guarded_goto c); rewrite ?Hpc; try done; apply Hg.
Qed.

(** ** The steps of [sml_exit] *)
Lemma sml_exit_guarded current o s s' : guarded (running s) (taken s) -> sml_exit current o s = Ok s' -> guarded (running s') (taken s').
Proof.
  intros Hg. unfold sml_exit. destruct (exit_at s) as [old|[w|]| |]; try (intros [= <-]; done).
  - case_match; intros [= <-]; [|done]. by apply (guarded_frame (running s)).
  - intros (wk & Hw%deref_ok & Hr)%res_bind_ok. destruct (w =? current)%nat; [by injection Hr as <-|]. cbv zeta in Hr.
    assert (Hg' : guarded (put_worker w (set_state (Z.ldiff (wstate wk) INACTIVE_STATE) wk) (running s)) (taken s)).
    { apply (guarded_frame (running s)); simpl; [done|done| | |apply Hg].
      - intros w' Ha. apply (active_put _ w wk); [done| |done]. intros _. apply active_clear.
      - intros w'. by apply dom_put with wk. }
    destruct (IS_ACTIVE (wstate wk)) eqn:Ha; injection Hr as <-; [done|]. simpl.
    split; [|apply Hg'..]. destruct Hg' as [[Hact Huni] _ _].
    assert (Hno : forall h, ~ holds (running s) (taken s) w h).
    { intros h Hh. destruct (excl_active _ _ (guarded_excl _ _ Hg) w h Hh) as (x & Hx & Hax). congruence. }
    assert (Hcons : forall w' h, holds (put_worker w (set_state (Z.ldiff (wstate wk) INACTIVE_STATE) wk) (running s)) (w :: taken s) w' h ->
      w' = w /\ h = Exiter \/ w' <> w /\ holds (put_worker w (set_state (Z.ldiff (wstate wk) INACTIVE_STATE) wk) (running s)) (taken s) w' h).
    { intros w' h Hh. destruct (decide (w' = w)) as [->|Hne].
      - left. split; [done|]. destruct Hh as [Hi|t Hh|_]; [..|done]; exfalso.
        + apply (Hno Owner). by constructor.
        + apply (Hno (Helper t)). by constructor.
      - right. split; [done|]. destruct Hh as [Hi|t Hh|Hin]; constructor; try done. by apply elem_of_cons in Hin as [?|?]. }
    split.
    + intros w' h [[-> ->]|[_ Hh]]%Hcons; [|by apply (Hact w' h)]. apply active_put_eq, active_clear.
    + intros w' h h' [[-> ->]|[? Hh]]%Hcons [[? ->]|[? Hh']]%Hcons; try done. by apply (Huni w').
Qed.

Lemma exit_guarded current s s' : rtc (exit_step current) s s' -> guarded (running s) (taken s) -> guarded (running s') (taken s').
Proof.
  induction 1 as [|s s1 s2 (e & o & He) _ IH]; [done|]. intros Hg. apply IH. unfold exit_exec in He.
  destruct e as [e|]; [|by apply (sml_exit_guarded current o s)].
  case_match; [by injection He as <-|]. apply res_bind_ok in He as (c & He & [= <-]). by apply (exec_guarded (running s) _ e).
Qed.

(** The states of Control.v. *)
Lemma lead_phases_small l : lead_ok l -> phases_small l.
Proof.
  intros Hl. destruct (lead_phases l Hl) as (Ho & Hn & Hgl & _). unfold phases_small.
  unfold post, pre in *. repeat match goal with H : _ \/ _ |- _ => destruct H as [H|H] end; rewrite ?Ho, ?Hn, ?Hgl; done.
Qed.

Lemma lead_side l : lead_ok l -> phases_small l /\ (greedy l = true -> after l = Resume).
Proof. intros Hl. split; [by apply lead_phases_small|apply Hl]. Qed.

Lemma thread_side m t p : thread_ok m t p -> side m t p.
Proof.
  destruct p as [| | |old next|st|w ph g k|l|l old ret|l head prev n|l head n|l n|l|k| |old w|old w st|w st|w ns|w st]; cbn -[word]; try done;
    try (by intros (Hl & _); apply lead_side).
  - by intros [? _].
  - intros [Hp _]. apply pre_phase in Hp. done.
  - by intros (_ & _ & ?).
  - intros (Hl & Ha & _). split; [by apply lead_phases_small|done].
  - intros (_ & ph & Hp%pre_phase & ->). by rewrite (IS_ACTIVE_word Free).
  - intros (_ & ph & Hp%pre_phase & ->). by rewrite (IS_ACTIVE_word Free).
  - intros (ph & Hp%pre_phase & -> & _). by rewrite (IS_ACTIVE_word Helped).
Qed.

Lemma reachable_guarded N c : reachable N c -> guarded c [].
Proof.
  intros Hr. pose proof (reachable_inv N c Hr) as [HL _ HT [t HS] _]. split; [split| |].
  - intros w h Hh. destruct Hh as [Hi|t' Hh|Hin]; [| |by apply elem_of_nil in Hin].
    + destruct (locks_inside _ HL w Hi) as [wk Hw]. destruct (locks_worker _ HL w wk Hw) as (l & ph & Hp & Hs & Hin & _).
      exists wk. split; [done|]. rewrite Hs, IS_ACTIVE_word by done. apply Hin in Hi as ->. done.
    + destruct (locks_held _ HL t' w Hh) as [wk Hw]. destruct (locks_worker _ HL w wk Hw) as (l & ph & Hp & Hs & _ & Hhe & _).
      exists wk. split; [done|]. rewrite Hs, IS_ACTIVE_word by done. apply Hhe in Hh as ->. done.
  - assert (Hno : forall w t', inside (pc_of c w) = true -> held (pc_of c t') = Some w -> False).
    { intros w t' Hi Hh. destruct (locks_inside _ HL w Hi) as [wk Hw]. destruct (locks_worker _ HL w wk Hw) as (l & ph & _ & _ & Hin & Hhe & _).
      apply Hin in Hi. apply Hhe in Hh. congruence. }
    intros w h h' [Hi|t1 H1|Hin] [Hi'|t2 H2|Hin']; try done; try (by apply elem_of_nil in Hin); try (by apply elem_of_nil in Hin'); [by destruct (Hno w t2)|by destruct (Hno w t1)|].
    f_equal. by apply (locks_unique _ HL t1 t2 w).
  - intros t'. apply thread_side, HT.
  - destruct (stage_post _ _ _ HS) as [->|[->|[->| ->]]]; done.
Qed.

(** ** What [sml_exit] may rely on *)
Lemma held_inside p w : held p = Some w -> inside p = true.
Proof.
  destruct p as [| | |old next|st|w' ph g k|l|l old ret|l head prev n|l head n|l n|l|k| |old w'|old w' st|w' st|w' ns|w' st]; simpl; try done;
    try (by destruct k); by destruct (after l).
Qed.

(** C29. From the moment at which [sml_exit] has got the lock of a worker, its
    thread is not in ML code and no helper acts for it, whatever the threads
    do.  If it has got the locks of all workers but its own, no other thread
    is in ML code or helps. *)
Theorem exit_excludes N c current s : reachable N c -> rtc (exit_step current) (sml_exit_start c) s ->
  (forall w, w ∈ taken s -> inside (pc_of (running s) w) = false /\ forall t, held (pc_of (running s) t) <> Some w) /\
  ((forall w, is_Some (workers (running s) !! w) -> w = current \/ w ∈ taken s) ->
     forall t, t <> current -> inside (pc_of (running s) t) = false /\ held (pc_of (running s) t) = None).
Proof.
  intros Hr Hs. destruct (exit_guarded current _ s Hs (reachable_guarded N c Hr)) as [[Hact Huni] _ _].
  assert (Htaken : forall w, w ∈ taken s -> inside (pc_of (running s) w) = false /\ forall t, held (pc_of (running s) t) <> Some w).
  { intros w Hw. split.
    - apply not_true_iff_false. intros Hi. assert (Exiter = Owner) by (apply (Huni w); by constructor). done.
    - intros t Hh. assert (Exiter = Helper t) by (apply (Huni w); by constructor). done. }
  split; [done|]. intros Hall t Ht.
  assert (Hin : inside (pc_of (running s) t) = false).
  { apply not_true_iff_false. intros Hi. destruct (Hact t Owner) as (wk & Hw & _); [by constructor|].
    destruct (Hall t) as [?|Htk]; [by eexists|done|]. destruct (Htaken t Htk) as [Hf _]. congruence. }
  split; [done|]. destruct (held (pc_of (running s) t)) as [w|] eqn:Hh; [|done]. apply held_inside in Hh. congruence.
Qed.

(** ** What it may not rely on *)
Fixpoint exit_play (current : nat) (es : list (option (nat * command))) (s : exiting) : res exiting :=
  match es with
  | [] => Ok s
  | e :: es => s ← exit_exec current e (Oracle false true 0) s; exit_play current es s
  end.

Lemma exit_play_sound current es : forall s s', exit_play current es s = Ok s' -> rtc (exit_step current) s s'.
Proof.
  induction es as [|e es IH]; intros s s'; [by intros [= <-]|]. intros (s1 & He & Hr)%res_bind_ok.
  eapply rtc_l; [by exists e, (Oracle false true 0)|by apply IH].
Qed.

Module ExitSample.
Import ControlSample.

(** Both threads are in ML code; thread 0 is in SYNC1 and thread 1 has not
    answered yet. *)
Definition before_sync1 : list (nat * command) :=
  (0%nat, Enter) :: replicate 3 (0%nat, go) ++ (1%nat, Enter) :: replicate 3 (1%nat, go) ++ (0%nat, Gc true) :: replicate 10 (0%nat, go).
(** Thread 0 has marked, thread 1 leaves ML code and marks now. *)
Definition marking : list (nat * command) :=
  before_sync1 ++ (1%nat, Check) :: replicate 14 (1%nat, go) ++ (0%nat, Check) :: replicate 14 (0%nat, go) ++ [(1%nat, Exit)].
(** Thread 1 has left ML code and begins to change the phase to SYNC2. *)
Definition changing : list (nat * command) := before_sync1 ++ [(1%nat, Exit); (1%nat, go); (1%nat, go)].

Lemma sample_reachable N es : 0 <= N < 2 ^ 32 - 1 -> bool_decide (Forall (fun e => Z.of_nat e.1 < N) es) = true ->
  match run es init_control with Ok _ => true | _ => false end = true -> reachable N (state_of es).
Proof.
  intros HN Hes%bool_decide_eq_true Hr. split; [done|]. exists es. split; [done|]. unfold state_of. by destruct (run es init_control).
Qed.

(** The state after a play, and a check of it. *)
Definition plays (es : list (nat * command)) (xs : list (option (nat * command))) (check : exiting -> bool) : bool :=
  match exit_play 0 xs (sml_exit_start (state_of es)) with Ok s => check s | _ => false end.
Lemma plays_sound es xs check : plays es xs check = true ->
  exists s, rtc (exit_step 0) (sml_exit_start (state_of es)) s /\ check s = true.
Proof.
  unfold plays. destruct (exit_play _ _ _) as [s| | |] eqn:Hs; try done. intros Hc. exists s. split; [by eapply exit_play_sound|done].
Qed.

Definition finishing (s : exiting) : bool := match exit_at s with ExitFinish => true | _ => false end.
Lemma finishing_true s : finishing s = true -> exit_at s = ExitFinish.
Proof. unfold finishing. by destruct (exit_at s). Qed.

(** [sml_exit] calls the finalizers while thread 1 is in the action of MARK,
    after which it may call them, too: [leave_worker] has given the lock back
    before the action. *)
Lemma exit_meets_action : exists c s, reachable 3 c /\ rtc (exit_step 0) (sml_exit_start c) s /\
  exit_at s = ExitFinish /\ pc_of (running s) 1 = Act 1 PREMARK false Leave.
Proof.
  destruct (plays_sound marking (replicate 4 None)
    (fun s => finishing s && match pc_of (running s) 1 with Act 1 ph false Leave => ph =? PREMARK | _ => false end)) as (s & Hs & Hc);
    [vm_compute; reflexivity|].
  exists (state_of marking), s. split; [apply sample_reachable; [lia|vm_compute; reflexivity..]|]. split; [exact Hs|].
  apply andb_true_iff in Hc as [Hf%finishing_true Hp]. split; [exact Hf|].
  destruct (pc_of (running s) 1) as [| | | | |[|[|w]] ph [|] [| |]| | | | | | | | | | | | |]; try done. by apply Z.eqb_eq in Hp as ->.
Qed.

(** [sml_exit] calls the finalizers while thread 2 is in ML code: [global_phase] of
    thread 1 has overwritten the 0 that was to keep new workers out. *)
Lemma exit_meets_worker : exists c s, reachable 3 c /\ rtc (exit_step 0) (sml_exit_start c) s /\
  exit_at s = ExitFinish /\ pc_of (running s) 2 = InML.
Proof.
  destruct (plays_sound changing ([None; Some (1%nat, go); Some (1%nat, go); Some (2%nat, Enter)] ++ replicate 3 (Some (2%nat, go)) ++ replicate 3 None)
    (fun s => finishing s && match pc_of (running s) 2 with InML => true | _ => false end)) as (s & Hs & Hc);
    [vm_compute; reflexivity|].
  exists (state_of changing), s. split; [apply sample_reachable; [lia|vm_compute; reflexivity..]|]. split; [exact Hs|].
  apply andb_true_iff in Hc as [Hf%finishing_true Hp]. split; [exact Hf|]. by destruct (pc_of (running s) 2).
Qed.
End ExitSample.

Lemma exit_excludes_witness : exists s, rtc (exit_step 0) (sml_exit_start (ControlSample.state_of ExitSample.marking)) s /\
  1%nat ∈ taken s /\ inside (pc_of (running s) 1) = false.
Proof.
  destruct (ExitSample.plays_sound ExitSample.marking (replicate 3 None) (fun s => bool_decide (1%nat ∈ taken s))) as (s & Hs & Hc%bool_decide_eq_true);
    [vm_compute; reflexivity|].
  exists s. split; [exact Hs|]. split; [exact Hc|].
  destruct (exit_excludes 3 (ControlSample.state_of ExitSample.marking) 0 s) as [Ht _]; [|exact Hs|by apply (Ht 1%nat)].
  apply ExitSample.sample_reachable; [lia|vm_compute; reflexivity..].
Defined.
