(* ===== verification/FrameTable.v ===== *)
(** * Frame tables and global roots

    src/src/runtime/top.c: the tables that the compiler emits, which say for
    every return address where the root pointers of its stack frame are, and
    the arrays of toplevel objects.  Programs are loaded one after another;
    the tables of a program become one array of safe points, sorted by
    address. *)
From Stdlib Require Import ZArith Lia.
From stdpp Require Import base option list sorting.
From S2P Require Import Prelude Bits Memory Object.

Local Open Scope Z_scope.

(** Addresses, [size_t] and [uintptr_t]. *)
Definition load16 (m : mem) (a : Z) : Z := load m a 2.

(** ** [struct sml_frame_layout] *)
Section Layout.
Variable m : mem.

Definition num_safe_points (t : Z) : Z := load16 m t.
Definition frame_size (t : Z) : Z := load16 m (t + 2).
Definition num_roots (t : Z) : Z := load16 m (t + 4).
Definition root_offset (t : Z) (i : nat) : Z := load16 m (t + 6 + 2 * Z.of_nat i).

Definition LAYOUT_SIZE (t : Z) : Z := 6 + 2 * num_roots t.
Definition SAFE_POINTS_OFFSET (t : Z) : Z := CEILING (LAYOUT_SIZE t) 8.
Definition SAFE_POINTS (t : Z) : Z := t + SAFE_POINTS_OFFSET t.
Definition NEXT_LAYOUT (t : Z) : Z := SAFE_POINTS t + 8 * num_safe_points t.
End Layout.

(** ** [struct sml_gcroot] *)
Record safe_point := SafePoint { addr : Z; layout : Z }.
#[export] Instance safe_point_eq_dec : EqDecision safe_point.
Proof. solve_decision. Defined.

(** [item] is the memory behind the struct, of [allocsize] bytes with it;
    its content is arbitrary where nothing has been stored. *)
Record sml_gcroot_t := Gcroot { num_points : Z; num_tops : Z; allocsize : Z; item : list safe_point }.

Definition SIZEOF_GCROOT : Z := 32.
Definition SIZEOF_SAFE_POINT : Z := 16.
Definition PAGE_SIZE : Z := CEILING SIZEOF_GCROOT 4096.
Definition capacity (allocsize : Z) : Z := (allocsize - SIZEOF_GCROOT) / SIZEOF_SAFE_POINT.
Definition REST_SAFE_POINTS (g : sml_gcroot_t) : Z := capacity (allocsize g) - (num_points g + num_tops g).

Definition garbage (n : Z) : list safe_point := replicate (Z.to_nat n) (SafePoint 0 0).

Definition new_gcroot : sml_gcroot_t := Gcroot 0 0 PAGE_SIZE (garbage (capacity PAGE_SIZE)).

(** The index of the first of [inc] new items, and the array. *)
Definition alloc_safe_points (g : sml_gcroot_t) (inc : Z) : Z * sml_gcroot_t :=
  let g :=
    if REST_SAFE_POINTS g <? inc then
      let minsize := num_points g + num_tops g + inc in
      let minsize := minsize * SIZEOF_SAFE_POINT in
      let minsize := SIZEOF_GCROOT + minsize in
      let allocsize' := CEILING minsize PAGE_SIZE in
      Gcroot (num_points g) (num_tops g) allocsize'
        (item g ++ garbage (capacity allocsize' - Z.of_nat (length (item g))))
    else g in
  (num_points g + num_tops g, Gcroot (num_points g + inc) (num_tops g) (allocsize g) (item g)).

(** [dst->addr = a; dst->layout = l; dst++]. *)
Definition put_item (p : safe_point) (st : Z * list safe_point) : res (Z * list safe_point) :=
  let '(dst, items) := st in
  assert_that ((0 <=? dst) && (dst <? Z.of_nat (length items)));;
  Ok (dst + 1, <[Z.to_nat dst := p]> items).

Section Load.
Variable m : mem.

(** [for (t = ftab; t->num_safe_points > 0; t = NEXT_LAYOUT(t))]. *)
Fixpoint table_layouts (fuel : nat) (t : Z) : res (list Z) :=
  match fuel with
  | O => NoFuel
  | S fuel =>
      if 0 <? num_safe_points m t then ts ← table_layouts fuel (NEXT_LAYOUT m t); Ok (t :: ts)
      else Ok []
  end.

(** The safe points of a descriptor. *)
Definition layout_points (smltabb t : Z) : list safe_point :=
  map (fun i => SafePoint (u64 (smltabb + load64 m (SAFE_POINTS m t + 8 * Z.of_nat i))) t)
    (seq 0 (Z.to_nat (num_safe_points m t))).

Definition sml_gcroot (fuel : nat) (g : sml_gcroot_t) (smltabb smlftab smlroot : Z) : res sml_gcroot_t :=
  ts ← (if smlftab =? 0 then Ok [] else table_layouts fuel smlftab);
  let inc := foldl (fun inc t => inc + num_safe_points m t) 0 ts in
  let inc := if smlroot =? 0 then inc else inc + 1 in
  let '(dst, g) := alloc_safe_points g inc in
  '(dst, items) ← foldl (fun st p => st ← st; put_item p st) (Ok (dst, item g)) (ts ≫= layout_points smltabb);
  if smlroot =? 0 then Ok (Gcroot (num_points g) (num_tops g) (allocsize g) items)
  else
    '(dst, items) ← put_item (SafePoint smlroot 0) (dst, items);
    Ok (Gcroot (num_points g - 1) (num_tops g + 1) (allocsize g) items).

Definition cmp_safe_point (s1 s2 : safe_point) : Z :=
  if negb (layout s1 =? 0) && (layout s2 =? 0) then -1
  else if (layout s1 =? 0) && negb (layout s2 =? 0) then 1
  else if addr s2 <? addr s1 then 1
  else if addr s1 <? addr s2 then -1
  else 0.

(** [qsort]: the order of the comparison function. *)
Definition safe_point_le (s1 s2 : safe_point) : Prop := cmp_safe_point s1 s2 <= 0.
#[export] Instance safe_point_le_dec s1 s2 : Decision (safe_point_le s1 s2).
Proof. unfold safe_point_le. apply _. Defined.

Definition sort_safe_points (g : sml_gcroot_t) : sml_gcroot_t :=
  let n := Z.to_nat (num_points g + num_tops g) in
  Gcroot (num_points g) (num_tops g) (allocsize g)
    (merge_sort safe_point_le (take n (item g)) ++ drop n (item g)).

(** [gcroot_list]: the first program, the last one, ..., the second one. *)
Definition register_gcroot (g : sml_gcroot_t) (gs : list sml_gcroot_t) : list sml_gcroot_t :=
  match gs with
  | [] => [g]
  | first :: rest => first :: g :: rest
  end.

(** The functions of the array [sml_loads] call [sml_gcroot] with these
    arguments. *)
Record load_args := LoadArgs { smltabb : Z; smlftab : Z; smlroot : Z }.

Definition sml_gcroot_load (fuel : nat) (loads : list load_args) (gs : list sml_gcroot_t) : res (list sml_gcroot_t) :=
  g ← foldl (fun g a => g ← g; sml_gcroot fuel g (smltabb a) (smlftab a) (smlroot a)) (Ok new_gcroot) loads;
  Ok (register_gcroot (sort_safe_points g) gs).

Definition sml_gcroot_unload (i : nat) (gs : list sml_gcroot_t) : list sml_gcroot_t :=
  alter (fun g => Gcroot 0 0 (allocsize g) (item g)) i gs.

(** ** Lookup *)

(** [while (l < r)]. *)
Fixpoint search (fuel : nat) (key : Z) (items : list safe_point) (l r : Z) : res (option safe_point) :=
  match fuel with
  | O => NoFuel
  | S fuel =>
      if l <? r then
        let c := (l + r) / 2 in
        s ← deref (items !! Z.to_nat c);
        if addr s =? key then Ok (Some s)
        else if addr s <? key then search fuel key items (c + 1) r
        else search fuel key items l c
      else Ok None
  end.

Definition binary_search (key : Z) (items : list safe_point) (len : Z) : res (option safe_point) :=
  search (S (Z.to_nat len)) key items 0 len.

Fixpoint sml_lookup_frametable (retaddr : Z) (gs : list sml_gcroot_t) : res Z :=
  match gs with
  | [] => Fatal
  | p :: gs =>
      s ← binary_search retaddr (item p) (num_points p);
      match s with Some s => Ok (layout s) | None => sml_lookup_frametable retaddr gs end
  end.

(** ** Global variables *)

(** The objects of a [struct toplevel_objects]. *)
Definition top_objects (tops : Z) : list Z :=
  map (fun j => u64 (tops + load64 m (tops + 8 + 8 * Z.of_nat j))) (seq 0 (Z.to_nat (load64 m tops))).

(** The calls of [trace], in order. *)
Definition concat_res {A B} (f : A -> res (list B)) (xs : list A) : res (list B) :=
  foldl (fun r x => ys ← r; zs ← f x; Ok (ys ++ zs)) (Ok []) xs.

Definition gcroot_slots (p : sml_gcroot_t) : res (list Z) :=
  concat_res (fun i =>
    s ← deref (item p !! Z.to_nat (num_points p + Z.of_nat i));
    assert_that (layout s =? 0);;
    concat_res (sml_obj_enum_ptr m) (top_objects (addr s)))
  (seq 0 (Z.to_nat (num_tops p))).

Definition sml_global_enum_ptr (gs : list sml_gcroot_t) : res (list Z) := concat_res gcroot_slots gs.
End Load.
