(* ===== verification/FrameThms.v ===== *)
(** * Theorems about frame tables

    Loading programs never writes outside of the array of safe points, the
    array ends up sorted with the toplevel objects last, and looking up a
    return address finds its frame layout in whatever program it is. *)
From Stdlib Require Import ZArith Lia.
From stdpp Require Import base option list sorting.
From S2P Require Import Prelude Bits Memory Object FrameTable.

Local Open Scope Z_scope.

(** ** The order of safe points *)
Definition is_point (s : safe_point) : Prop := layout s ≠ 0.
#[export] Instance is_point_dec s : Decision (is_point s).
Proof. unfold is_point. apply _. Defined.
Definition is_top (s : safe_point) : Prop := layout s = 0.
#[export] Instance is_top_dec s : Decision (is_top s).
Proof. unfold is_top. apply _. Defined.

(** The comparison is the lexicographic one. *)
Lemma safe_point_le_iff s1 s2 :
  safe_point_le s1 s2 <->
    (is_point s1 /\ is_top s2) \/
    ((is_point s1 <-> is_point s2) /\ addr s1 <= addr s2).
Proof.
  unfold safe_point_le, cmp_safe_point, is_point, is_top.
  destruct (Z.eqb_spec (layout s1) 0), (Z.eqb_spec (layout s2) 0), (Z.ltb_spec (addr s2) (addr s1)), (Z.ltb_spec (addr s1) (addr s2));
    simpl; split; intros; lia || tauto || (intuition lia).
Qed.

#[export] Instance safe_point_le_total : Total safe_point_le.
Proof.
  intros s1 s2. rewrite !safe_point_le_iff. unfold is_point, is_top.
  destruct (decide (layout s1 = 0)), (decide (layout s2 = 0)), (Z.le_ge_cases (addr s1) (addr s2)); tauto || (intuition lia).
Qed.
#[export] Instance safe_point_le_trans : Transitive safe_point_le.
Proof.
  intros s1 s2 s3. rewrite !safe_point_le_iff. unfold is_point, is_top.
  destruct (decide (layout s1 = 0)), (decide (layout s2 = 0)), (decide (layout s3 = 0)); intros; intuition lia.
Qed.

Lemma sorted_points_first l : StronglySorted safe_point_le l -> l = filter is_point l ++ filter is_top l.
Proof.
  induction 1 as [|s l Hs IH Hall]; [done|]. rewrite !filter_cons.
  destruct (decide (is_point s)) as [Hp|Hp].
  - rewrite decide_False by (intros Ht; by apply Hp). simpl. by f_equal.
  - rewrite decide_True by (unfold is_top, is_point in *; destruct (decide (layout s = 0)); tauto).
    rewrite (filter_none is_point l); simpl.
    + f_equal. rewrite IH at 1. rewrite (filter_none is_point l); [done|].
      eapply Forall_impl; [exact Hall|]. simpl. intros x Hx. apply safe_point_le_iff in Hx. unfold is_point, is_top in *. tauto.
    + eapply Forall_impl; [exact Hall|]. simpl. intros x Hx. apply safe_point_le_iff in Hx. unfold is_point, is_top in *. tauto.
Qed.

(** ** [binary_search] *)
Definition sorted_addrs (items : list safe_point) (len : Z) : Prop :=
  forall i j s1 s2, (i <= j)%nat -> Z.of_nat j < len -> items !! i = Some s1 -> items !! j = Some s2 -> addr s1 <= addr s2.

Lemma search_ok fuel key items len l r :
  sorted_addrs items len -> len <= Z.of_nat (length items) -> 0 <= l <= r -> r <= len -> r - l < Z.of_nat fuel ->
  (forall i s, Z.of_nat i < l -> items !! i = Some s -> addr s < key) ->
  (forall i s, r <= Z.of_nat i < len -> items !! i = Some s -> key < addr s) ->
  exists o, search fuel key items l r = Ok o /\
    match o with
    | Some s => addr s = key /\ exists i, Z.of_nat i < len /\ items !! i = Some s
    | None => forall i s, Z.of_nat i < len -> items !! i = Some s -> addr s ≠ key
    end.
Proof.
  intros Hs Hlen. revert l r. induction fuel as [|fuel IH]; intros l r Hl Hr Hf Hlo Hhi; [lia|]. simpl.
  destruct (Z.ltb_spec l r) as [Hlr|Hlr].
  - set (c := (l + r) / 2). assert (l <= c < r) as Hc by (unfold c; pose proof (Z.div_mod (l + r) 2); pose proof (Z.mod_pos_bound (l + r) 2); lia).
    destruct (lookup_lt_is_Some_2 items (Z.to_nat c)) as [s Hcs]; [lia|]. rewrite Hcs. cbn [deref mbind res_bind].
    destruct (Z.eqb_spec (addr s) key) as [He|He].
    + exists (Some s). split; [done|]. split; [done|]. exists (Z.to_nat c). split; [lia|done].
    + destruct (Z.ltb_spec (addr s) key) as [Hlt|Hlt].
      * apply IH; try lia.
        -- intros i x Hi Hx. assert (addr x <= addr s); [|lia]. apply (Hs i (Z.to_nat c)); try done; lia.
        -- intros i x Hi Hx. by apply (Hhi i).
      * apply IH; try lia.
        -- intros i x Hi Hx. by apply (Hlo i).
        -- intros i x Hi Hx. assert (addr s <= addr x); [|lia]. apply (Hs (Z.to_nat c) i); try done; lia.
  - exists None. split; [done|]. intros i s Hi Hx. destruct (Z.lt_ge_cases (Z.of_nat i) l) as [H|H].
    + specialize (Hlo i s H Hx). lia.
    + assert (key < addr s); [|lia]. apply (Hhi i); [lia|done].
Qed.

Lemma binary_search_ok key items len : sorted_addrs items len -> 0 <= len <= Z.of_nat (length items) ->
  exists o, binary_search key items len = Ok o /\
    match o with
    | Some s => addr s = key /\ exists i, Z.of_nat i < len /\ items !! i = Some s
    | None => forall i s, Z.of_nat i < len -> items !! i = Some s -> addr s ≠ key
    end.
Proof.
  intros Hs Hlen. apply (search_ok _ _ _ len); try done; try lia; intros i s Hi; lia.
Qed.

(** ** The array *)
Lemma CEILING_ge x y : 0 < y -> x <= CEILING x y.
Proof. intros Hy. destruct (CEILING_spec x y Hy) as (? & ? & ?). lia. Qed.

Lemma put_items ps : forall dst items, 0 <= dst -> dst + Z.of_nat (length ps) <= Z.of_nat (length items) ->
  foldl (fun st p => st ← st; put_item p st) (Ok (dst, items)) ps =
    Ok (dst + Z.of_nat (length ps),
        take (Z.to_nat dst) items ++ ps ++ drop (Z.to_nat dst + length ps) items).
Proof.
  induction ps as [|p ps IH]; intros dst items Hd Hl; simpl in *.
  - rewrite Z.add_0_r, Nat.add_0_r, take_drop. done.
  - rewrite (proj2 (Z.leb_le 0 dst)), (proj2 (Z.ltb_lt dst _)) by lia. simpl.
    rewrite IH by (rewrite ?length_insert; lia).
    replace (dst + 1 + Z.of_nat (length ps)) with (dst + Z.of_nat (S (length ps))) by lia.
    replace (Z.to_nat (dst + 1)) with (S (Z.to_nat dst)) by lia.
    assert (Z.to_nat dst < length items)%nat as Hlt by lia.
    rewrite (take_S_r _ _ p) by (by apply list_lookup_insert_eq).
    rewrite take_insert_ge by lia. rewrite drop_insert_lt by lia.
    rewrite <- app_assoc. by replace (Z.to_nat dst + S (length ps))%nat with (S (Z.to_nat dst) + length ps)%nat by lia.
Qed.

Section Load.
Context (m : mem) (fuel : nat) (Hm : bytes_ok m).

Lemma load16_range a : 0 <= load16 m a < 2 ^ 16.
Proof. apply (load_range m a 2 Hm). Qed.

(** The tables that [load_args] names end within [fuel] descriptors. *)
Definition table_of (a : load_args) : list Z :=
  if smlftab a =? 0 then [] else match table_layouts m fuel (smlftab a) with Ok ts => ts | _ => [] end.
Definition table_ends (a : load_args) : Prop :=
  0 <= smlftab a /\ (smlftab a = 0 \/ exists ts, table_layouts m fuel (smlftab a) = Ok ts).

Definition points_of (a : load_args) : list safe_point := table_of a ≫= layout_points m (smltabb a).
Definition tops_of (a : load_args) : list safe_point := if smlroot a =? 0 then [] else [SafePoint (smlroot a) 0].
Definition entries (loads : list load_args) : list safe_point := loads ≫= (fun a => points_of a ++ tops_of a).

Lemma table_layouts_ok f t ts : table_layouts m f t = Ok ts -> Forall (fun x => t <= x /\ 0 < num_safe_points m x) ts.
Proof.
  revert t ts. induction f as [|f IH]; intros t ts; simpl; [done|].
  destruct (Z.ltb_spec 0 (num_safe_points m t)) as [Hp|Hp]; [|by intros [= <-]].
  intros H. res_inv. constructor; [done|]. eapply Forall_impl; [by apply IH|]. simpl. intros y [Hy ?]. split; [|done].
  assert (t <= NEXT_LAYOUT m t); [|lia]. unfold NEXT_LAYOUT, SAFE_POINTS, SAFE_POINTS_OFFSET.
  pose proof (CEILING_ge (LAYOUT_SIZE m t) 8 ltac:(lia)). pose proof (load16_range (t + 4)).
  unfold LAYOUT_SIZE, num_roots in *. lia.
Qed.

Lemma points_are_points a : table_ends a -> Forall is_point (points_of a).
Proof.
  intros [H0 Ht]. unfold points_of, table_of. destruct (Z.eqb_spec (smlftab a) 0) as [|Hne]; [constructor|].
  destruct Ht as [|[ts Ht]]; [done|]. rewrite Ht. apply table_layouts_ok in Ht. apply Forall_forall. intros p Hp.
  apply list_elem_of_bind in Hp as (t & Hp & Hin). rewrite Forall_forall in Ht. specialize (Ht t Hin).
  apply list_elem_of_fmap in Hp as (i & -> & _). unfold is_point. simpl. lia.
Qed.

Lemma tops_are_tops a : Forall is_top (tops_of a).
Proof. unfold tops_of. case_match; repeat constructor. Qed.

Lemma points_count a : table_ends a ->
  foldl (fun inc t => inc + num_safe_points m t) 0 (table_of a) = Z.of_nat (length (points_of a)).
Proof.
  intros [_ Ht]. unfold points_of. assert (Forall (fun t => 0 < num_safe_points m t) (table_of a)) as Hpos.
  { unfold table_of. case_match; [constructor|]. case_match; try constructor. eapply Forall_impl; [by eapply table_layouts_ok|]. by intros ? []. }
  assert (forall ts n, Forall (fun t => 0 < num_safe_points m t) ts ->
            foldl (fun inc t => inc + num_safe_points m t) n ts = n + Z.of_nat (length (ts ≫= layout_points m (smltabb a)))) as H.
  { intros ts. induction ts as [|t ts IH]; intros n Hts; [simpl; lia|]. apply Forall_cons in Hts as [H0 Hts].
    rewrite bind_cons. cbn [foldl].
    assert (length (layout_points m (smltabb a) t) = Z.to_nat (num_safe_points m t)) as Hl
      by (unfold layout_points; by rewrite length_map, length_seq).
    rewrite IH by done. rewrite length_app, Hl. lia. }
  rewrite H by done. lia.
Qed.

(** While a program is loaded: the entries [es] so far. *)
Record loading (g : sml_gcroot_t) (es : list safe_point) : Prop := Loading {
  loading_capacity : Z.of_nat (length (item g)) = capacity (allocsize g);
  loading_room : Z.of_nat (length es) <= Z.of_nat (length (item g));
  loading_entries : take (length es) (item g) = es;
  loading_points : num_points g = Z.of_nat (length (filter is_point es));
  loading_tops : num_tops g = Z.of_nat (length (filter is_top es))
}.

Lemma points_tops_length es : (length (filter is_point es) + length (filter is_top es) = length es)%nat.
Proof.
  induction es as [|e es IH]; [done|]. rewrite !filter_cons. unfold is_point, is_top in *.
  destruct (decide (layout e ≠ 0)), (decide (layout e = 0)); simpl; lia || tauto.
Qed.
Lemma loading_total g es : loading g es -> num_points g + num_tops g = Z.of_nat (length es).
Proof. intros H. rewrite (loading_points _ _ H), (loading_tops _ _ H), <- (points_tops_length es). lia. Qed.

Lemma new_gcroot_loading : loading new_gcroot [].
Proof. by split. Qed.

Lemma alloc_safe_points_ok g es inc dst g' : loading g es -> 0 <= inc -> alloc_safe_points g inc = (dst, g') ->
  dst = Z.of_nat (length es) /\ num_points g' = num_points g + inc /\ num_tops g' = num_tops g /\
  take (length es) (item g') = es /\ Z.of_nat (length (item g')) = capacity (allocsize g') /\
  Z.of_nat (length es) + inc <= Z.of_nat (length (item g')).
Proof.
  intros HL Hinc. unfold alloc_safe_points. pose proof (loading_total g es HL) as Ht. destruct HL as [Hc Hr He Hp Htp].
  unfold REST_SAFE_POINTS. rewrite Ht, <- Hc. destruct (Z.ltb_spec (Z.of_nat (length (item g)) - Z.of_nat (length es)) inc) as [Hlt|Hge].
  - intros [= <- <-]. set (a := CEILING _ _). simpl.
    assert (Z.of_nat (length es) + inc <= capacity a) as Hcap.
    { unfold capacity. apply Z.div_le_lower_bound; [done|]. unfold a, SIZEOF_GCROOT, SIZEOF_SAFE_POINT.
      pose proof (CEILING_ge (32 + (Z.of_nat (length es) + inc) * 16) PAGE_SIZE ltac:(vm_compute; reflexivity)). lia. }
    assert (Z.of_nat (length (item g ++ garbage (capacity a - Z.of_nat (length (item g))))) = capacity a) as Hlen.
    { rewrite length_app. unfold garbage. rewrite length_replicate. lia. }
    split_and!; try done; try lia. rewrite take_app_le by lia. done.
  - intros [= <- <-]. simpl. split_and!; try done; lia.
Qed.

Lemma sml_gcroot_ok g es a : loading g es -> table_ends a ->
  exists g', sml_gcroot m fuel g (smltabb a) (smlftab a) (smlroot a) = Ok g' /\ loading g' (es ++ points_of a ++ tops_of a).
Proof.
  intros HL Ha. unfold sml_gcroot.
  assert ((if smlftab a =? 0 then Ok [] else table_layouts m fuel (smlftab a)) = Ok (table_of a)) as ->.
  { unfold table_of. destruct Ha as [_ Ha]. destruct (Z.eqb_spec (smlftab a) 0); [done|]. destruct Ha as [|[ts ->]]; done. }
  cbn [mbind res_bind]. rewrite points_count by done. fold (points_of a).
  pose proof (points_are_points a Ha) as Hpp. pose proof (tops_are_tops a) as Htt.
  set (inc := if smlroot a =? 0 then _ else _).
  assert (inc = Z.of_nat (length (points_of a ++ tops_of a))) as Hinc.
  { unfold inc, tops_of. rewrite length_app. destruct (smlroot a =? 0); simpl; lia. }
  destruct (alloc_safe_points g inc) as [dst g'] eqn:Hal.
  destruct (alloc_safe_points_ok g es inc dst g' HL ltac:(lia) Hal) as (-> & Hnp & Hnt & Htk & Hcap & Hroom).
  assert (filter is_point (points_of a ++ tops_of a) = points_of a) as Hfp.
  { rewrite filter_app, (filter_all is_point) by done. rewrite (filter_none is_point); [by rewrite app_nil_r|].
    eapply Forall_impl; [exact Htt|]. unfold is_top, is_point. simpl. tauto. }
  assert (filter is_top (points_of a ++ tops_of a) = tops_of a) as Hft.
  { rewrite filter_app, (filter_all is_top (tops_of a)) by done. rewrite (filter_none is_top (points_of a)); [done|].
    eapply Forall_impl; [exact Hpp|]. unfold is_top, is_point. simpl. tauto. }
  set (q := points_of a ++ tops_of a) in *.
  assert (forall n1 n2, n1 = num_points g + Z.of_nat (length (points_of a)) -> n2 = num_tops g + Z.of_nat (length (tops_of a)) ->
     loading (Gcroot n1 n2 (allocsize g') (take (length es) (item g') ++ q ++ drop (length es + length q) (item g'))) (es ++ q)) as Hfin.
  { intros n1 n2 -> ->. rewrite Htk. split; simpl.
    - rewrite !length_app, length_drop. rewrite <- Hcap. lia.
    - rewrite !length_app, length_drop. lia.
    - rewrite app_assoc. by rewrite take_app_length.
    - rewrite filter_app, length_app, Hfp, (loading_points _ _ HL). lia.
    - rewrite filter_app, length_app, Hft, (loading_tops _ _ HL). lia. }
  assert (length q = length (points_of a) + length (tops_of a))%nat as Hq by apply length_app.
  assert (Z.of_nat (length es) + Z.of_nat (length q) <= Z.of_nat (length (item g'))) as Hroom' by (rewrite <- Hinc; done).
  pose proof (put_items q (Z.of_nat (length es)) (item g') ltac:(lia) Hroom') as Hput. rewrite Nat2Z.id in Hput.
  assert (tops_of a = if smlroot a =? 0 then [] else [SafePoint (smlroot a) 0]) as Htops by done.
  destruct (Z.eqb_spec (smlroot a) 0) as [Hz|Hz].
  - unfold q in Hput at 1. rewrite Htops, app_nil_r in Hput. rewrite Hput. cbn [mbind res_bind].
    eexists. split; [done|]. rewrite Htops in Hq. apply Hfin; rewrite ?Htops; simpl in *; lia.
  - unfold q in Hput at 1. rewrite Htops, foldl_app in Hput. cbn [foldl] in Hput.
    rewrite put_items in Hput |- * by lia. cbn [mbind res_bind] in Hput |- *. rewrite Hput. cbn [mbind res_bind].
    eexists. split; [done|]. rewrite Htops in Hq. apply Hfin; rewrite ?Htops; simpl in *; lia.
Qed.
End Load.

(** ** Programs *)
Lemma concat_res_app {A B} (f : A -> res (list B)) xs x :
  concat_res f (xs ++ [x]) = (ys ← concat_res f xs; zs ← f x; Ok (ys ++ zs)).
Proof. unfold concat_res. by rewrite foldl_app. Qed.

Lemma concat_res_ok {A B} (f : A -> res (list B)) (g : A -> list B) xs :
  (forall x, x ∈ xs -> f x = Ok (g x)) -> concat_res f xs = Ok (xs ≫= g).
Proof.
  induction xs as [|x xs IH] using rev_ind; intros H; [done|].
  rewrite concat_res_app, IH by (intros y Hy; apply H; set_solver). cbn [mbind res_bind].
  rewrite H by set_solver. by rewrite bind_app, bind_cons, app_nil_r.
Qed.

Section Programs.
Context (m : mem) (fuel : nat) (Hm : bytes_ok m).

Definition load_all (progs : list (list load_args)) : res (list sml_gcroot_t) :=
  foldl (fun gs loads => gs ← gs; sml_gcroot_load m fuel loads gs) (Ok []) progs.

(** A sorted array with the entries [es]. *)
Record gcroot_ok (g : sml_gcroot_t) (es : list safe_point) : Prop := GcrootOk {
  gcroot_points : num_points g = Z.of_nat (length (filter is_point es));
  gcroot_tops : num_tops g = Z.of_nat (length (filter is_top es));
  gcroot_items : exists sorted rest, item g = sorted ++ rest /\ sorted ≡ₚ es /\ StronglySorted safe_point_le sorted
}.

Lemma loads_ok loads : forall g es, loading g es -> Forall (table_ends m fuel) loads ->
  exists g', foldl (fun g a => g ← g; sml_gcroot m fuel g (smltabb a) (smlftab a) (smlroot a)) (Ok g) loads = Ok g' /\
    loading g' (es ++ entries m fuel loads).
Proof.
  induction loads as [|a loads IH]; intros g es HL Hends; [exists g; by rewrite app_nil_r|].
  apply Forall_cons in Hends as [Ha Hends]. destruct (sml_gcroot_ok m fuel Hm g es a HL Ha) as (g1 & H1 & HL1).
  cbn [foldl mbind res_bind]. rewrite H1. destruct (IH g1 _ HL1 Hends) as (g2 & H2 & HL2). exists g2. split; [done|].
  unfold entries. rewrite bind_cons. by rewrite !app_assoc in *.
Qed.

Lemma sort_safe_points_ok g es : loading g es -> gcroot_ok (sort_safe_points g) es.
Proof.
  intros HL. pose proof (loading_total g es HL) as Ht. destruct HL as [Hc Hr He Hp Htp].
  split; [done..|]. unfold sort_safe_points. simpl. rewrite Ht, Nat2Z.id, He. eexists _, _. split; [done|].
  split; [apply merge_sort_Permutation|]. apply StronglySorted_merge_sort; apply _.
Qed.

Lemma sml_gcroot_load_ok loads gs : Forall (table_ends m fuel) loads ->
  exists g, sml_gcroot_load m fuel loads gs = Ok (register_gcroot g gs) /\ gcroot_ok g (entries m fuel loads).
Proof.
  intros Hends. unfold sml_gcroot_load. destruct (loads_ok loads new_gcroot [] new_gcroot_loading Hends) as (g & -> & HL).
  eexists. split; [done|]. by apply sort_safe_points_ok.
Qed.

(** The order of [gcroot_list]. *)
Definition main_then_latest {A} (xs : list A) : list A :=
  match xs with [] => [] | x :: xs => x :: reverse xs end.

Lemma load_all_ok progs : Forall (Forall (table_ends m fuel)) progs ->
  exists gs, load_all progs = Ok gs /\ Forall2 gcroot_ok gs (main_then_latest (map (entries m fuel) progs)).
Proof.
  induction progs as [|loads progs IH] using rev_ind; intros Hends; [by exists []|].
  apply Forall_app in Hends as [Hends Hl]. apply Forall_cons in Hl as [Hl _]. destruct (IH Hends) as (gs & Hgs & Hok).
  unfold load_all in *. rewrite foldl_app, Hgs. simpl. destruct (sml_gcroot_load_ok loads gs Hl) as (g & -> & Hg).
  eexists. split; [done|]. rewrite map_app. simpl.
  destruct (map (entries m fuel) progs) as [|e es]; simpl in *.
  - apply Forall2_nil_inv_r in Hok as ->. simpl. by constructor.
  - destruct (Forall2_cons_inv_r _ _ _ _ Hok) as (g1 & gs1 & H1 & H2 & ->). simpl.
    rewrite reverse_snoc. constructor; [done|]. by constructor.
Qed.

Lemma StronglySorted_lookup {A} (R : A -> A -> Prop) l i j x y :
  StronglySorted R l -> (i < j)%nat -> l !! i = Some x -> l !! j = Some y -> R x y.
Proof.
  intros Hs. revert i j. induction Hs as [|z l Hs IH Hall]; intros i j Hij Hi Hj; [done|].
  destruct j as [|j]; [lia|]. simpl in Hj. destruct i as [|i]; simpl in Hi.
  - injection Hi as ->. rewrite Forall_lookup in Hall. eauto.
  - apply (IH i j); [lia|done..].
Qed.

Lemma StronglySorted_filter {A} (R : A -> A -> Prop) (P : A -> Prop) `{!forall x, Decision (P x)} l :
  StronglySorted R l -> StronglySorted R (filter P l).
Proof.
  induction 1 as [|x l _ IH Hall]; [by constructor|]. rewrite filter_cons. destruct (decide (P x)); [|done].
  constructor; [done|]. rewrite Forall_forall in *. intros y [_ Hy]%list_elem_of_filter. auto.
Qed.

(** The first [num_points] items of a sorted array are its safe points, in
    the order of their addresses; the next are its toplevel objects. *)
Lemma gcroot_split g es : gcroot_ok g es -> exists pts tops rest,
  item g = pts ++ tops ++ rest /\ pts ≡ₚ filter is_point es /\ tops ≡ₚ filter is_top es /\
  num_points g = Z.of_nat (length pts) /\ num_tops g = Z.of_nat (length tops) /\ sorted_addrs (item g) (num_points g).
Proof.
  intros [Hp Ht (sorted & rest & Hi & Hperm & Hs)].
  exists (filter is_point sorted), (filter is_top sorted), rest. pose proof (sorted_points_first _ Hs) as Hsplit.
  assert (item g = filter is_point sorted ++ filter is_top sorted ++ rest) as Hi' by (rewrite Hi, Hsplit at 1; by rewrite <- app_assoc).
  assert (filter is_point sorted ≡ₚ filter is_point es) as Hpp by (by rewrite Hperm).
  assert (filter is_top sorted ≡ₚ filter is_top es) as Hpt by (by rewrite Hperm).
  split_and!; try done; [by rewrite Hp, Hpp|by rewrite Ht, Hpt|].
  rewrite Hp, <- Hpp, Hi'. intros i j s1 s2 Hij Hj H1 H2.
  rewrite lookup_app_l in H1, H2 by lia. destruct (decide (i = j)) as [->|]; [rewrite H1 in H2; injection H2 as ->; lia|].
  assert (StronglySorted safe_point_le (filter is_point sorted)) as Hs'.
  { by apply StronglySorted_filter. }
  pose proof (StronglySorted_lookup _ _ i j s1 s2 Hs' ltac:(lia) H1 H2) as Hle. apply safe_point_le_iff in Hle.
  assert (is_point s1 /\ is_point s2) as [Hs1 Hs2].
  { split; eapply list_elem_of_filter with (l := sorted); by eapply list_elem_of_lookup_2. }
  unfold is_point, is_top in *. tauto.
Qed.

Lemma gcroot_search g es key : gcroot_ok g es ->
  exists o, binary_search key (item g) (num_points g) = Ok o /\
    match o with
    | Some s => addr s = key /\ s ∈ filter is_point es
    | None => forall s, s ∈ filter is_point es -> addr s ≠ key
    end.
Proof.
  intros Hg. destruct (gcroot_split g es Hg) as (pts & tops & rest & Hi & Hp & _ & Hn & _ & Hs).
  destruct (binary_search_ok key (item g) (num_points g) Hs) as (o & -> & Ho).
  { rewrite Hn, Hi, length_app. lia. }
  exists o. split; [done|]. destruct o as [s|].
  - destruct Ho as (Ha & i & Hlt & Hl). split; [done|]. rewrite <- Hp. rewrite Hi, lookup_app_l in Hl by lia.
    by eapply list_elem_of_lookup_2.
  - intros s Hin. rewrite <- Hp in Hin. apply list_elem_of_lookup in Hin as [i Hl]. apply (Ho i).
    + apply lookup_lt_Some in Hl. lia.
    + by rewrite Hi, lookup_app_l by (by eapply lookup_lt_Some).
Qed.

Lemma lookup_ok gs ess ra : Forall2 gcroot_ok gs ess ->
  (exists p, p ∈ filter is_point (concat ess) /\ addr p = ra /\ sml_lookup_frametable ra gs = Ok (layout p)) \/
  ((forall p, p ∈ filter is_point (concat ess) -> addr p ≠ ra) /\ sml_lookup_frametable ra gs = Fatal).
Proof.
  induction 1 as [|g es gs ess Hg _ IH]; simpl.
  - right. split; [|done]. intros p Hp. by apply elem_of_nil in Hp.
  - destruct (gcroot_search g es ra Hg) as (o & -> & Ho). cbn [mbind res_bind]. setoid_rewrite filter_app. setoid_rewrite elem_of_app.
    destruct o as [s|].
    + left. destruct Ho as [Ha Hin]. exists s. tauto.
    + destruct IH as [(p & Hp & Ha & ->)|[Hno ->]].
      * left. exists p. tauto.
      * right. split; [|done]. intros p [Hp|Hp]; auto.
Qed.

Definition all_points (progs : list (list load_args)) : list safe_point := progs ≫= (fun loads => loads ≫= points_of m fuel).
Definition all_tops (progs : list (list load_args)) : list safe_point := progs ≫= (fun loads => loads ≫= tops_of).

Lemma filter_entries loads : Forall (table_ends m fuel) loads ->
  filter is_point (entries m fuel loads) = loads ≫= points_of m fuel /\ filter is_top (entries m fuel loads) = loads ≫= tops_of.
Proof.
  induction 1 as [|a loads Ha _ [IH1 IH2]]; [done|]. unfold entries in *. rewrite !bind_cons, !filter_app, IH1, IH2.
  pose proof (points_are_points m fuel Hm a Ha) as Hp. pose proof (tops_are_tops a) as Ht.
  rewrite (filter_all is_point (points_of m fuel a)), (filter_all is_top (tops_of a)) by done.
  rewrite (filter_none is_point (tops_of a)), (filter_none is_top (points_of m fuel a)); [by rewrite app_nil_r| |].
  - eapply Forall_impl; [exact Hp|]. unfold is_point, is_top. tauto.
  - eapply Forall_impl; [exact Ht|]. unfold is_point, is_top. tauto.
Qed.

Lemma main_then_latest_perm {A} (xs : list A) : main_then_latest xs ≡ₚ xs.
Proof. destruct xs; [done|]. simpl. by rewrite reverse_Permutation. Qed.

Lemma concat_perm {A} (xs ys : list (list A)) : xs ≡ₚ ys -> concat xs ≡ₚ concat ys.
Proof. induction 1; simpl; [done|by f_equiv|by rewrite !app_assoc, (Permutation_app_comm x y)|by etrans]. Qed.

Lemma filter_all_entries progs : Forall (Forall (table_ends m fuel)) progs ->
  filter is_point (concat (map (entries m fuel) progs)) = all_points progs /\
  filter is_top (concat (map (entries m fuel) progs)) = all_tops progs.
Proof.
  induction 1 as [|loads progs Hl _ [IH1 IH2]]; [done|]. unfold all_points, all_tops in *. rewrite !bind_cons. simpl.
  destruct (filter_entries loads Hl) as [H1 H2]. by rewrite !filter_app, IH1, IH2, H1, H2.
Qed.

Lemma gcroots_perm progs : Forall (Forall (table_ends m fuel)) progs ->
  filter is_point (concat (main_then_latest (map (entries m fuel) progs))) ≡ₚ all_points progs /\
  filter is_top (concat (main_then_latest (map (entries m fuel) progs))) ≡ₚ all_tops progs.
Proof.
  intros Hends. destruct (filter_all_entries progs Hends) as [<- <-].
  split; by rewrite (concat_perm _ _ (main_then_latest_perm _)).
Qed.

(** ** Global variables *)


Lemma bind_lookup_seq {A B} (f : A -> list B) l : seq 0 (length l) ≫= (fun i => from_option f [] (l !! i)) = l ≫= f.
Proof.
  induction l as [|x l IH]; [done|]. cbn [length seq]. rewrite !bind_cons, <- fmap_S_seq, list_fmap_bind. simpl.
  f_equal. exact IH.
Qed.

(** The pointer fields of an object. *)
Definition slots_of (o : Z) : list Z := match sml_obj_enum_ptr m o with Ok l => l | _ => [] end.
Definition top_slots (p : safe_point) : list Z := top_objects m (addr p) ≫= slots_of.

Lemma gcroot_slots_ok g es :
  gcroot_ok g es -> (forall p o, p ∈ filter is_top es -> o ∈ top_objects m (addr p) -> exists l, sml_obj_enum_ptr m o = Ok l) ->
  exists l, gcroot_slots m g = Ok l /\ l ≡ₚ filter is_top es ≫= top_slots.
Proof.
  intros Hg Hobj. destruct (gcroot_split g es Hg) as (pts & tops & rest & Hi & _ & Htp & Hn & Hnt & _).
  exists (tops ≫= top_slots). split; [|by rewrite Htp]. unfold gcroot_slots. rewrite Hnt, Nat2Z.id.
  assert (forall i, i ∈ seq 0 (length tops) -> exists p, item g !! Z.to_nat (num_points g + Z.of_nat i) = Some p /\ tops !! i = Some p) as Hat.
  { intros i Hin. apply elem_of_seq in Hin. destruct (lookup_lt_is_Some_2 tops i) as [p Hp]; [lia|]. exists p. split; [|done].
    rewrite Hn, Hi, lookup_app_r by lia. rewrite lookup_app_l by lia. rewrite <- Hp. f_equal. lia. }
  rewrite (concat_res_ok _ (fun i => from_option top_slots [] (tops !! i))).
  - f_equal. apply bind_lookup_seq.
  - intros i Hin. destruct (Hat i Hin) as (p & -> & Hp). rewrite Hp. cbn [deref mbind res_bind from_option].
    apply list_elem_of_lookup_2 in Hp. rewrite Htp in Hp. pose proof Hp as Htop. apply list_elem_of_filter in Htop as [Htop _].
    rewrite (proj2 (Z.eqb_eq _ _) Htop). cbn [assert_that mbind res_bind]. apply concat_res_ok.
    intros o Ho. unfold slots_of. by destruct (Hobj p o Hp Ho) as [l ->].
Qed.

Lemma global_slots_ok gs ess : Forall2 gcroot_ok gs ess ->
  (forall p o, p ∈ filter is_top (concat ess) -> o ∈ top_objects m (addr p) -> exists l, sml_obj_enum_ptr m o = Ok l) ->
  exists l, sml_global_enum_ptr m gs = Ok l /\ l ≡ₚ filter is_top (concat ess) ≫= top_slots.
Proof.
  unfold sml_global_enum_ptr. revert ess. induction gs as [|g gs IH] using rev_ind; intros ess H2 Hobj.
  - apply Forall2_nil_inv_l in H2 as ->. by exists [].
  - apply Forall2_app_inv_l in H2 as (ess1 & ess2 & H1 & H2 & ->). apply Forall2_cons_inv_l in H2 as (es & ess3 & Hg & Hn & ->).
    apply Forall2_nil_inv_l in Hn as ->. rewrite concat_app, filter_app in *. simpl in *. rewrite app_nil_r in *.
    destruct (IH ess1 H1) as (l1 & Hl1 & Hp1); [intros p o Hp; apply Hobj; set_solver|].
    destruct (gcroot_slots_ok g es Hg) as (l2 & Hl2 & Hp2); [intros p o Hp; apply Hobj; set_solver|].
    exists (l1 ++ l2). rewrite concat_res_app, Hl1. cbn [mbind res_bind]. rewrite Hl2. split; [done|].
    by rewrite bind_app, Hp1, Hp2.
Qed.
End Programs.

(** ** Properties *)

(** C19. After any programs have been loaded, the frame layout of a return
    address is found if it is a safe point of one of them (and no two safe
    points with different layouts share the address); otherwise the lookup
    is a fatal error.  Loading never fails. *)
Theorem sml_lookup_frametable_correct m fuel progs ra (Hm : bytes_ok m)
    (Hends : Forall (Forall (table_ends m fuel)) progs)
    (Hunique : forall p q, p ∈ all_points m fuel progs -> q ∈ all_points m fuel progs ->
       addr p = ra -> addr q = ra -> layout p = layout q) :
  exists gs, load_all m fuel progs = Ok gs /\
    sml_lookup_frametable ra gs =
      match list_find (fun p => addr p = ra) (all_points m fuel progs) with
      | Some (_, p) => Ok (layout p)
      | None => Fatal
      end.
Proof.
  destruct (load_all_ok m fuel Hm progs Hends) as (gs & Hgs & Hok). exists gs. split; [done|].
  destruct (gcroots_perm m fuel Hm progs Hends) as [Hperm _].
  destruct (list_find _ _) as [[i p]|] eqn:Hf.
  - apply list_find_Some in Hf as (Hi & Ha & _). apply list_elem_of_lookup_2 in Hi.
    destruct (lookup_ok gs _ ra Hok) as [(q & Hq & Hqa & ->)|[Hno _]].
    + f_equal. apply Hunique; try done. by rewrite <- Hperm.
    + destruct (Hno p); [by rewrite Hperm|done].
  - apply list_find_None in Hf. destruct (lookup_ok gs _ ra Hok) as [(q & Hq & Hqa & _)|[_ ->]]; [|done].
    rewrite Hperm in Hq. rewrite Forall_forall in Hf. by destruct (Hf q Hq).
Qed.

(** After any programs have been loaded, the global roots are the pointer
    fields of all toplevel objects of all programs, each reported exactly
    once, and [sml_global_enum_ptr] neither fails an assertion nor leaves the
    array of a program. *)
Theorem sml_global_enum_ptr_correct m fuel progs (Hm : bytes_ok m)
    (Hends : Forall (Forall (table_ends m fuel)) progs)
    (Hobj : forall p o, p ∈ all_tops progs -> o ∈ top_objects m (addr p) -> exists l, sml_obj_enum_ptr m o = Ok l) :
  exists gs slots, load_all m fuel progs = Ok gs /\ sml_global_enum_ptr m gs = Ok slots /\
    slots ≡ₚ all_tops progs ≫= top_slots m.
Proof.
  destruct (load_all_ok m fuel Hm progs Hends) as (gs & Hgs & Hok).
  destruct (gcroots_perm m fuel Hm progs Hends) as [_ Hperm].
  destruct (global_slots_ok m Hm gs _ Hok) as (l & Hl & Hp); [intros p o Hin; apply Hobj; by rewrite <- Hperm|].
  exists gs, l. split; [done|]. split; [done|]. by rewrite Hp, Hperm.
Qed.

(** ** A program with one frame table and one toplevel object *)
Module FrameSample.
(** At 64 a descriptor with two safe points, at 88 the end of the table, at
    128 the list of toplevel objects, at 160 an array of two pointers. *)
Definition m : mem :=
  store64 (store64 (store32 (store64 (store64 (store (store (store (store (fun _ => 0)
    64 2 2) 66 2 3) 68 2 1) 70 2 8) 72 16) 80 48) 156 (OBJ_HEADER_WORD OBJTYPE_BOXED_ARRAY 16)) 128 1) 136 32.
Definition prog : list load_args := [LoadArgs 4096 64 128; LoadArgs 8192 0 0].

Lemma m_bytes : bytes_ok m.
Proof. repeat apply store_bytes_ok. intros x. lia. Qed.

Lemma prog_ends : Forall (Forall (table_ends m 3)) [prog; prog].
Proof.
  assert (Forall (table_ends m 3) prog) as H; [|constructor; [done|]; constructor; [done|constructor]].
  constructor; [|constructor; [|constructor]]; (split; [simpl; lia|]); [right|by left].
  exists [64]. vm_compute. reflexivity.
Qed.
End FrameSample.

Lemma sml_lookup_frametable_correct_witness :
  exists gs, load_all FrameSample.m 3 [FrameSample.prog] = Ok gs /\ sml_lookup_frametable 4144 gs = Ok 64.
Proof.
  apply (sml_lookup_frametable_correct FrameSample.m 3 [FrameSample.prog] 4144 FrameSample.m_bytes).
  - constructor; [|constructor]. exact (Forall_inv FrameSample.prog_ends).
  - assert (Forall (fun p => layout p = 64) (all_points FrameSample.m 3 [FrameSample.prog])) as H.
    { change (all_points FrameSample.m 3 [FrameSample.prog]) with [SafePoint 4112 64; SafePoint 4144 64]. by repeat constructor. }
    rewrite Forall_forall in H. intros p q Hp Hq _ _. by rewrite (H p), (H q).
Defined.

Lemma sml_global_enum_ptr_correct_witness :
  exists gs slots, load_all FrameSample.m 3 [FrameSample.prog; FrameSample.prog] = Ok gs /\
    sml_global_enum_ptr FrameSample.m gs = Ok slots /\ slots ≡ₚ [160; 168; 160; 168].
Proof.
  apply (sml_global_enum_ptr_correct FrameSample.m 3 [FrameSample.prog; FrameSample.prog] FrameSample.m_bytes FrameSample.prog_ends).
  intros p o Hp Ho.
  assert (Forall (fun p => addr p = 128) (all_tops [FrameSample.prog; FrameSample.prog])) as H by (by repeat constructor).
  rewrite Forall_forall in H. rewrite (H p Hp) in Ho.
  change (top_objects FrameSample.m 128) with [160] in Ho. apply list_elem_of_singleton in Ho as ->. by eexists.
Defined.
