(* ===== verification/Users.v ===== *)
(** * User contexts

    src/src/runtime/control.c: the contexts of user threads, which belong to
    the worker context that enumerates their roots.  A user thread enters and
    leaves ML code; the part of its C stack that belongs to ML code is a
    stack of ranges of frames.  This file has the operations on contexts as
    functions of the data that a thread has for itself; Migration.v runs them
    concurrently with the handshakes of Control.v. *)
From Stdlib Require Import ZArith Lia.
From stdpp Require Import base option list gmap.
From S2P Require Import Prelude Bits Memory Object FrameTable.

Local Open Scope Z_scope.

Definition BUSY_FLAG : Z := 1.
Definition SIZEOF_USER : Z := 40.

(** ** Data *)

(** [struct frame_stack_range]; [top] is 0 while ML code runs in it. *)
Record range := Range { rtop : Z; rbottom : Z }.

(** [struct sml_user].  [worker] is null when the user is dead.  [stack]
    points into the C stack of the user thread [uthread]: it is the number of
    ranges in use, of which the last is the one pointed to and the one before
    is its [next]. *)
Record user := User { uflags : Z; uthread : nat; uworker : option nat; ustack : nat; exn_object : Z }.

Definition set_uflags (f : Z) (u : user) : user := User f (uthread u) (uworker u) (ustack u) (exn_object u).
Definition set_uworker (w : option nat) (u : user) : user := User (uflags u) (uthread u) w (ustack u) (exn_object u).
Definition set_ustack (n : nat) (u : user) : user := User (uflags u) (uthread u) (uworker u) n (exn_object u).
Definition set_exn_object (e : Z) (u : user) : user := User (uflags u) (uthread u) (uworker u) (ustack u) e.

Definition busy (u : user) : bool := negb (Z.land (uflags u) BUSY_FLAG =? 0).

Record ustate := UState {
  users : gmap nat user;
  stacks : gmap nat (list range);     (* the ranges of a user thread, oldest first *)
  lists : gmap nat (list nat);        (* worker->users *)
  current : gmap nat nat;             (* worker->current_user *)
  tlv : gmap nat nat                  (* user_tlv_get(current_user), by user thread *)
}.

Definition init_ustate : ustate := UState ∅ ∅ ∅ ∅ ∅.

Definition set_users (m : gmap nat user) (st : ustate) : ustate := UState m (stacks st) (lists st) (current st) (tlv st).
Definition put_user (u : nat) (x : user) (st : ustate) : ustate := set_users (<[u := x]> (users st)) st.
Definition put_stack (y : nat) (l : list range) (st : ustate) : ustate :=
  UState (users st) (<[y := l]> (stacks st)) (lists st) (current st) (tlv st).
Definition put_list (w : nat) (l : list nat) (st : ustate) : ustate :=
  UState (users st) (stacks st) (<[w := l]> (lists st)) (current st) (tlv st).
Definition set_current (w : nat) (u : option nat) (st : ustate) : ustate :=
  UState (users st) (stacks st) (lists st) (partial_alter (fun _ => u) w (current st)) (tlv st).
Definition set_tlv (y : nat) (u : option nat) (st : ustate) : ustate :=
  UState (users st) (stacks st) (lists st) (current st) (partial_alter (fun _ => u) y (tlv st)).

Definition list_of (st : ustate) (w : nat) : list nat := default [] (lists st !! w).
Definition stack_of (st : ustate) (y : nat) : list range := default [] (stacks st !! y).

(** [*user->stack]. *)
Definition top_range (st : ustate) (u : nat) : res range :=
  x ← deref (users st !! u);
  match ustack x with O => Fault | S d => deref (stack_of st (uthread x) !! d) end.

(** [user->stack->top = fp]. *)
Definition set_top (u : nat) (fp : Z) (st : ustate) : res ustate :=
  x ← deref (users st !! u);
  r ← top_range st u;
  Ok (put_stack (uthread x) (<[Nat.pred (ustack x) := Range fp (rbottom r)]> (stack_of st (uthread x))) st).

(** ** Locks *)

(** [acquire_bit(&user->flags, BUSY_FLAG)]; the weak compare-and-swap may
    fail without cause. *)
Definition acquire_busy (u : nat) (spurious : bool) (st : ustate) : res (bool * ustate) :=
  x ← deref (users st !! u);
  if busy x then Ok (false, st)
  else if spurious : bool then Ok (false, st)
  else Ok (true, put_user u (set_uflags (Z.lor (uflags x) BUSY_FLAG) x) st).

(** [store_release(&user->flags, 0)]. *)
Definition release_busy (u : nat) (st : ustate) : res ustate :=
  x ← deref (users st !! u); Ok (put_user u (set_uflags 0 x) st).

(** One turn of the loop of [cancel_user], with the rest of the function
    once it has the lock; [false] if it has to go on.  [CANCELED_FLAG] is 2. *)
Definition cancel_user (y : nat) (st : ustate) : res (bool * ustate) :=
  match tlv st !! y with
  | None => Ok (true, st)
  | Some u =>
      '(locked, st) ← acquire_busy u false st;
      if locked : bool then
        x ← deref (users st !! u);
        Ok (true, put_user u (set_uflags 2 (set_uworker None x)) st)
      else Ok (false, st)
  end.

Section Users.

(** [IS_PTHREAD]: the worker is no worker thread of MassiveThreads; it has
    one user only, which [current_user] keeps pointing to. *)
Variable pthread : nat -> bool.

(** The user thread [y] runs on the thread of the worker [w]. *)
Section Thread.
Variables y w : nat.

Definition current_context (st : ustate) : option nat := if pthread w then current st !! w else tlv st !! y.

(** [sml_leave_internal] before [leave_worker]. *)
Definition sml_leave_internal (fp : Z) (st : ustate) : res ustate :=
  u ← deref (current st !! w);
  r ← top_range st u;
  assert_that (rtop r =? 0);;
  st ← set_top u fp st;
  if pthread w then Ok st
  else assert_that (bool_decide (tlv st !! y = None));; Ok (set_tlv y (Some u) st).

(** [sml_enter_internal] after a migration, if any, with the context [u]. *)
Definition sml_enter_internal (u : nat) (fp : Z) (st : ustate) : res ustate :=
  let st := if pthread w then st else set_current w (Some u) (set_tlv y None st) in
  r ← top_range st u;
  assert_that (rtop r =? fp);;
  set_top u 0 st.

(** The migration of [u] into the new context [n] once [user->worker] is
    set. *)
Definition copy_user (u n : nat) (st : ustate) : res ustate :=
  x ← deref (users st !! u);
  Ok (put_list w (n :: list_of st w) (put_user n (User 0 (uthread x) (Some w) (ustack x) (exn_object x)) st)).

Definition sml_save (fp : Z) (st : ustate) : res ustate :=
  u ← deref (current st !! w);
  r ← top_range st u;
  assert_that (rtop r =? 0);;
  set_top u fp st.

Definition sml_unsave (fp : Z) (st : ustate) : res ustate :=
  u ← deref (current st !! w);
  r ← top_range st u;
  assert_that (rtop r =? fp);;
  set_top u 0 st.

Definition sml_saved (st : ustate) : res bool :=
  u ← deref (match current_context st with Some u => Some u | None => current st !! w end);
  r ← top_range st u;
  Ok (negb (rtop r =? 0)).

Definition sml_save_exn (obj : Z) (st : ustate) : res ustate :=
  u ← deref (current st !! w);
  x ← deref (users st !! u);
  if negb (exn_object x =? 0) then Fatal
  else Ok (put_user u (set_exn_object obj x) st).

Definition sml_unsave_exn (p : Z) (st : ustate) : res (Z * ustate) :=
  if p =? 0 then Ok (0, st)
  else
    u ← deref (current st !! w);
    x ← deref (users st !! u);
    assert_that (negb (exn_object x =? 0));;
    Ok (exn_object x, put_user u (set_exn_object 0 x) st).

(** [sml_start] after [enter_worker]; [n] is the memory for a new context. *)
Definition sml_start (n : nat) (fp : Z) (st : ustate) : res ustate :=
  match current_context st with
  | None =>
      let x := User 0 y (Some w) 1 0 in
      Ok (set_current w (Some n) (put_list w (n :: list_of st w) (put_user n x (put_stack y [Range 0 fp] st))))
  | Some u =>
      x ← deref (users st !! u);
      let st := put_stack (uthread x) (take (ustack x) (stack_of st (uthread x)) ++ [Range 0 fp]) st in
      let st := put_user u (set_ustack (S (ustack x)) x) st in
      Ok (if pthread w then st else set_tlv y None (set_current w (Some u) st))
  end.

(** [sml_end] before [leave_worker]. *)
Definition sml_end (st : ustate) : res ustate :=
  u ← deref (current st !! w);
  x ← deref (users st !! u);
  match ustack x with
  | O => Fault
  | S d =>
      let st := put_user u (set_ustack d x) st in
      match d with
      | O =>
          assert_that (pthread w || bool_decide (tlv st !! y = None));;
          Ok (set_current w None (put_user u (set_uworker None (set_ustack d x)) st))
      | S _ =>
          if pthread w then Ok st
          else assert_that (bool_decide (tlv st !! y = None));; Ok (set_tlv y (Some u) st)
      end
  end.

(** [sml_check_internal] and [sml_wait_gc] close the range of the current
    user for the time of an action; [true] if it was open. *)
Definition close_range (fp : Z) (st : ustate) : res (bool * ustate) :=
  u ← deref (current st !! w);
  r ← top_range st u;
  if rtop r =? 0 then st ← set_top u fp st; Ok (true, st) else Ok (false, st).
Definition reopen_range (closed : bool) (st : ustate) : res ustate :=
  if closed then u ← deref (current st !! w); set_top u 0 st else Ok st.

(** ** The hook of [sml_check_internal]

    [check_hook] of a worker is called once, outside of ML code; 0 is a null
    pointer.  [call_hook] is the call: it returns the exception object that
    was raised, or 0.  [sml_call_with_cleanup] runs the cleanup in both
    cases. *)
Definition sml_set_check_hook (hook : Z) (hooks : gmap nat Z) : Z * gmap nat Z :=
  (default 0 (hooks !! w), <[w := hook]> hooks).

Definition check_hook_cleanup (fp orig e : Z) (st : ustate) : res ustate :=
  u ← deref (current_context st);
  st ← sml_enter_internal u fp st;
  st ← set_top u orig st;
  '(_, st) ← sml_unsave_exn e st;
  Ok st.

Definition run_check_hook (call_hook : Z -> ustate -> res (Z * ustate)) (fp : Z) (hooks : gmap nat Z) (st : ustate) : res (gmap nat Z * ustate) :=
  let hook := default 0 (hooks !! w) in
  if hook =? 0 then Ok (hooks, st)
  else
    let hooks := <[w := 0]> hooks in
    u ← deref (current st !! w);
    r ← top_range st u;
    let orig := rtop r in
    let fp := if orig =? 0 then fp else orig in
    st ← set_top u 0 st;
    st ← sml_leave_internal fp st;
    '(e, st) ← call_hook hook st;
    st ← check_hook_cleanup fp orig e st;
    Ok (hooks, st).
End Thread.
End Users.

(** ** Enumeration of the roots of a user *)
Section Enumeration.
Variable m : mem.
Variable gs : list sml_gcroot_t.

Definition FRAME_CODE_ADDRESS (frame_end : Z) : Z := load64 m (frame_end - 8).
Definition NEXT_FRAME (frame_begin : Z) : Z := frame_begin + 8.

(** The pointers in the slots of the frame, and the next frame. *)
Definition frame_roots (frame_end lay : Z) : list Z :=
  filter (fun p => p ≠ 0) (map (fun i => load64 m (frame_end + 8 * root_offset m lay i)) (seq 0 (Z.to_nat (num_roots m lay)))).
Definition next_frame (frame_end lay : Z) : Z := NEXT_FRAME (frame_end + 8 * frame_size m lay).

Definition frame_enum_ptr (frame_end : Z) : res (list Z * Z) :=
  lay ← sml_lookup_frametable (FRAME_CODE_ADDRESS frame_end) gs;
  Ok (frame_roots frame_end lay, next_frame frame_end lay).

(** The frames of a range. *)
Fixpoint range_enum_ptr (fuel : nat) (fp bottom : Z) : res (list Z) :=
  match fuel with
  | O => NoFuel
  | S fuel =>
      '(rs, next) ← frame_enum_ptr fp;
      if fp =? bottom then Ok rs
      else rest ← range_enum_ptr fuel next bottom; Ok (rs ++ rest)
  end.

(** The ranges of a user, newest first. *)
Definition ranges_of (st : ustate) (x : user) : list range := reverse (take (ustack x) (stack_of st (uthread x))).

Definition sml_stack_enum_ptr (fuel : nat) (st : ustate) (u : nat) : res (list Z) :=
  x ← deref (users st !! u);
  assert_that (busy x);;
  assert_that (negb (ustack x =? 0)%nat);;
  rs ← concat_res (fun r =>
         assert_that (negb (rtop r =? 0) && negb (rbottom r =? 0));;
         range_enum_ptr fuel (rtop r) (rbottom r)) (ranges_of st x);
  Ok ((if exn_object x =? 0 then [] else [exn_object x]) ++ rs).
End Enumeration.
