(* ===== verification/UsersThms.v ===== *)
(** * Theorems about user contexts

    What one user thread sees: leaving and entering, saving and unsaving,
    calling back and returning, and saving an exception are undone by each
    other; the enumeration of a closed stack yields the roots of all its
    frames and terminates. *)
From Stdlib Require Import ZArith Lia.
From stdpp Require Import base option list gmap.
From S2P Require Import Prelude Bits Memory Object FrameTable FrameThms Users.

Local Open Scope Z_scope.

(** ** Stacks *)
Lemma put_stack_put y l l' st : put_stack y l (put_stack y l' st) = put_stack y l st.
Proof. unfold put_stack. simpl. by rewrite insert_insert_eq. Qed.
Lemma put_stack_same y st : is_Some (stacks st !! y) -> put_stack y (stack_of st y) st = st.
Proof. intros [l Hl]. unfold put_stack, stack_of. destruct st. simpl in *. rewrite Hl. simpl. by rewrite insert_id. Qed.
Lemma set_current_same w u st : current st !! w = u -> set_current w u st = st.
Proof. intros <-. unfold set_current. destruct st. simpl. f_equal. by apply partial_alter_id. Qed.
Lemma set_tlv_set y u u' st : set_tlv y u (set_tlv y u' st) = set_tlv y u st.
Proof. unfold set_tlv. simpl. f_equal. apply map_eq. intros k. destruct (decide (k = y)) as [->|]; [by rewrite !lookup_partial_alter_eq|by rewrite !lookup_partial_alter_ne]. Qed.
Lemma set_tlv_same y u st : tlv st !! y = u -> set_tlv y u st = st.
Proof. intros <-. unfold set_tlv. destruct st. simpl. f_equal. by apply partial_alter_id. Qed.
Lemma put_user_put u x x' st : put_user u x (put_user u x' st) = put_user u x st.
Proof. unfold put_user, set_users. simpl. by rewrite insert_insert_eq. Qed.
Lemma put_user_same u x st : users st !! u = Some x -> put_user u x st = st.
Proof. intros H. unfold put_user, set_users. destruct st. simpl in *. by rewrite insert_id. Qed.

Lemma top_range_inv st u r : top_range st u = Ok r ->
  exists x d, users st !! u = Some x /\ ustack x = S d /\ stack_of st (uthread x) !! d = Some r.
Proof. unfold top_range. intros H. res_inv. destruct (ustack x) as [|d] eqn:Hd; [done|]. res_inv. eauto. Qed.

(** The newest range of a user is set and set back. *)
Lemma set_top_inv st u fp st' : set_top u fp st = Ok st' -> exists r, top_range st u = Ok r /\
  top_range st' u = Ok (Range fp (rbottom r)) /\ current st' = current st /\ tlv st' = tlv st /\ users st' = users st /\ set_top u (rtop r) st' = Ok st.
Proof.
  unfold set_top. intros H. res_inv. rename x into ux. exists x0. split; [done|].
  destruct (top_range_inv _ _ _ H0) as (x & d & Hx & Hd & Hr). assert (ux = x) as -> by congruence. rewrite Hd. cbn [Nat.pred].
  assert (is_Some (stacks st !! uthread x)) as Hs by (unfold stack_of in Hr; destruct (stacks st !! uthread x); [eauto|simpl in Hr; by rewrite lookup_nil in Hr]).
  set (st' := put_stack _ _ _). assert (stack_of st' (uthread x) = <[d := Range fp (rbottom x0)]> (stack_of st (uthread x))) as Hst
    by (unfold st', stack_of; simpl; by rewrite lookup_insert_eq).
  assert (top_range st' u = Ok (Range fp (rbottom x0))) as Htop.
  { unfold top_range. simpl. rewrite Hx. cbn [deref mbind res_bind]. rewrite Hd, Hst, list_lookup_insert_eq; [done|by eapply lookup_lt_Some]. }
  split_and!; try done. simpl users. rewrite Hx, Htop. cbn [deref mbind res_bind rbottom]. rewrite Hd, Hst, list_insert_insert_eq. cbn [Nat.pred].
  unfold st'. rewrite put_stack_put. destruct x0 as [tp bt]. simpl. rewrite list_insert_id by done. by rewrite put_stack_same.
Qed.

Section RoundTrips.
Variable pthread : nat -> bool.
Variables y w : nat.

Lemma leave_enter fp st st1 : sml_leave_internal pthread y w fp st = Ok st1 -> exists u,
  current_context pthread y w st1 = Some u /\ sml_enter_internal pthread y w u fp st1 = Ok st.
Proof.
  unfold sml_leave_internal, sml_enter_internal, current_context. intros H. res_inv. rename x into u, x2 into st2.
  destruct (set_top_inv _ _ _ _ H2) as (r & Hr & Hr2 & Hc & Ht & _ & Hback). apply Z.eqb_eq in H1. assert (r = x0) as -> by congruence. rewrite H1 in Hback.
  exists u. destruct (pthread w).
  - injection H3 as <-. split; [congruence|]. rewrite Hr2. cbn [mbind res_bind rtop]. rewrite Z.eqb_refl. cbn [assert_that mbind res_bind]. done.
  - res_inv. apply bool_decide_eq_true in H3. split; [simpl; by rewrite lookup_partial_alter_eq|].
    rewrite set_tlv_set, set_tlv_same, set_current_same by (simpl; congruence).
    rewrite Hr2. cbn [mbind res_bind rtop]. rewrite Z.eqb_refl. done.
Qed.

(** C32. [sml_enter] on the same worker undoes [sml_leave]: with the same frame it
    finds its context, its assertion holds, and the contexts, stacks and
    thread-local variables are as before. *)
Theorem leave_enter_roundtrip fp st st1 : sml_leave_internal pthread y w fp st = Ok st1 -> exists u,
  current_context pthread y w st1 = Some u /\ sml_enter_internal pthread y w u fp st1 = Ok st.
Proof. apply leave_enter. Qed.

(** A hook that leaves the contexts as they are is called once, and after it
    they are as before, whether the range was closed or not. *)
Lemma check_hook_restores call_hook fp hook hooks st u r : hook <> 0 -> current st !! w = Some u -> top_range st u = Ok r ->
  (pthread w = true \/ tlv st !! y = None) -> (forall st1, call_hook hook st1 = Ok (0, st1)) ->
  run_check_hook pthread y w call_hook fp (sml_set_check_hook w hook hooks).2 st = Ok (<[w := 0]> hooks, st).
Proof.
  intros Hhook Hc Hr Htl Hcall. unfold run_check_hook, sml_set_check_hook. simpl snd. rewrite lookup_insert_eq, insert_insert_eq. simpl default.
  rewrite (proj2 (Z.eqb_neq hook 0) Hhook), Hc. cbn [deref mbind res_bind]. rewrite Hr. cbn [mbind res_bind].
  set (f := if rtop r =? 0 then fp else rtop r).
  assert (Hset : forall st0 fp0 r0, current st0 !! w = Some u -> top_range st0 u = Ok r0 -> exists st1, set_top u fp0 st0 = Ok st1).
  { intros st0 fp0 r0 _ Hr0. unfold set_top. destruct (top_range_inv _ _ _ Hr0) as (x & d & -> & _). cbn. rewrite Hr0. by eexists. }
  destruct (Hset st 0 r Hc Hr) as [st1 H1]. rewrite H1. cbn [mbind res_bind].
  destruct (set_top_inv _ _ _ _ H1) as (r1 & Hr1 & Htop1 & Hc1 & Ht1 & Hu1 & Hback1). assert (r1 = r) as -> by congruence.
  destruct (Hset st1 f (Range 0 (rbottom r))) as [st2 H2]; [by rewrite Hc1|done|].
  assert (Hleave : exists st3, sml_leave_internal pthread y w f st1 = Ok st3).
  { unfold sml_leave_internal. rewrite Hc1, Hc. cbn [deref mbind res_bind]. rewrite Htop1. cbn [mbind res_bind rtop assert_that Z.eqb].
    rewrite H2. cbn [mbind res_bind]. destruct (pthread w) eqn:Hp; [by eexists|]. destruct Htl as [?|Htl]; [done|].
    destruct (set_top_inv _ _ _ _ H2) as (r2 & _ & _ & _ & Ht2 & _ & _). rewrite Ht2, Ht1, Htl. by eexists. }
  destruct Hleave as [st3 H3]. rewrite H3. cbn [mbind res_bind]. rewrite Hcall. cbn [mbind res_bind].
  destruct (leave_enter f st1 st3 H3) as (u' & Hu' & Henter). unfold check_hook_cleanup. rewrite Hu'. cbn [deref mbind res_bind]. rewrite Henter. cbn [mbind res_bind].
  assert (u' = u) as ->.
  { clear -H3 Hu' Hc1 Hc. unfold sml_leave_internal in H3. rewrite Hc1, Hc in H3. cbn in H3. res_inv. unfold current_context in Hu'.
    destruct (pthread w); [|res_inv; simpl in Hu'; rewrite lookup_partial_alter_eq in Hu'; congruence].
    res_inv. match goal with H : set_top _ _ _ = Ok _ |- _ => apply set_top_inv in H as (? & _ & _ & Hx & _) end. rewrite Hx in Hu'. congruence. }
  rewrite Hback1. cbn. done.
Qed.

(** [sml_unsave] undoes [sml_save], and [sml_saved] tells between them. *)
Theorem save_unsave_roundtrip fp st st1 : fp ≠ 0 -> tlv st !! y = None \/ pthread w = true -> sml_save w fp st = Ok st1 ->
  sml_unsave w fp st1 = Ok st /\ sml_saved pthread y w st = Ok false /\ sml_saved pthread y w st1 = Ok true.
Proof.
  unfold sml_save, sml_unsave, sml_saved, current_context. intros Hfp Htl H. res_inv. rename x into u.
  destruct (set_top_inv _ _ _ _ H2) as (r & Hr & Hr2 & Hc & Ht & _ & Hback). assert (r = x0) as -> by congruence. apply Z.eqb_eq in H1.
  assert ((match (if pthread w then current st !! w else tlv st !! y) with Some u => Some u | None => current st !! w end) = Some u) as E.
  { destruct Htl as [E|E]; rewrite E; [|by rewrite H]. rewrite H. by destruct (pthread w). }
  rewrite Hc, Ht, E, H. cbn [deref mbind res_bind]. rewrite Hr, Hr2. cbn [mbind res_bind rtop]. rewrite Z.eqb_refl, H1 in *. cbn [assert_that mbind res_bind].
  split_and!; try done. by apply Z.eqb_neq in Hfp as ->.
Qed.

(** C34. [sml_unsave_exn] returns the object of [sml_save_exn]; a second
    [sml_save_exn] before is a fatal error. *)
Theorem exn_roundtrip obj obj' p st st1 : obj ≠ 0 -> p ≠ 0 -> sml_save_exn w obj st = Ok st1 ->
  sml_unsave_exn w p st1 = Ok (obj, st) /\ sml_save_exn w obj' st1 = Fatal.
Proof.
  unfold sml_save_exn, sml_unsave_exn. intros Hobj Hp H. res_inv. rename x into u, x0 into x.
  destruct (Z.eqb_spec (exn_object x) 0) as [E|]; simpl in H1; [|done]. injection H1 as <-. apply Z.eqb_neq in Hp as ->. simpl.
  rewrite H. cbn [deref mbind res_bind]. rewrite lookup_insert_eq. cbn [deref mbind res_bind]. simpl. apply Z.eqb_neq in Hobj as ->. simpl. split; [|done].
  rewrite put_user_put. unfold set_exn_object. simpl. rewrite <- E. rewrite put_user_same; [done|]. by destruct x.
Qed.

Lemma take_push {A} (l : list A) n a : (n <= length l)%nat -> take n (take n l ++ [a]) = take n l.
Proof. intros H. rewrite take_app_le, take_take, Nat.min_id; [done|]. rewrite length_take. lia. Qed.

(** [sml_end] undoes [sml_start] of a callback: the contexts, the lists of
    the workers and the thread-local variables are as before, and so are the
    ranges of the user in use. *)
Theorem callback_roundtrip n fp st u x : current_context pthread y w st = Some u -> users st !! u = Some x ->
  (0 < ustack x <= length (stack_of st (uthread x)))%nat ->
  exists st1 st2, sml_start pthread y w n fp st = Ok st1 /\ sml_end pthread y w st1 = Ok st2 /\
    current st1 !! w = Some u /\ top_range st1 u = Ok (Range 0 fp) /\
    users st2 = users st /\ lists st2 = lists st /\ tlv st2 = tlv st /\ ranges_of st2 x = ranges_of st x.
Proof.
  unfold sml_start, current_context. intros Hu Hx [Hs Hlen]. rewrite Hu, Hx. cbn [deref mbind res_bind]. set (st1 := if pthread w then _ else _).
  assert (users st1 = <[u := set_ustack (S (ustack x)) x]> (users st)) as Hus by (unfold st1; by destruct (pthread w)).
  assert (stack_of st1 (uthread x) = take (ustack x) (stack_of st (uthread x)) ++ [Range 0 fp]) as Hst
    by (unfold st1, stack_of; destruct (pthread w); simpl; by rewrite lookup_insert_eq).
  assert (current st1 !! w = Some u) as Hc by (unfold st1; destruct (pthread w) eqn:E; simpl; [congruence|by rewrite lookup_partial_alter_eq]).
  assert (users st1 !! u = Some (set_ustack (S (ustack x)) x)) as Hx1 by (by rewrite Hus, lookup_insert_eq).
  set (st2 := if pthread w then put_user u x st1 else set_tlv y (Some u) (put_user u x st1)).
  exists st1, st2. split; [done|]. split_and!; try done.
  - unfold sml_end. rewrite Hc. cbn [deref mbind res_bind]. rewrite Hx1. cbn [deref mbind res_bind]. simpl ustack.
    destruct (ustack x) as [|d] eqn:Hd; [lia|]. assert (set_ustack (S d) (set_ustack (S (S d)) x) = x) as -> by (unfold set_ustack; destruct x; simpl in *; congruence).
    unfold st2. destruct (pthread w) eqn:E; [done|]. assert (tlv (put_user u x st1) !! y = None) as -> by (unfold st1; simpl; by rewrite lookup_partial_alter_eq).
    rewrite bool_decide_true by done. done.
  - unfold top_range. rewrite Hx1. cbn [deref mbind res_bind]. simpl ustack. simpl uthread. rewrite Hst, lookup_app_r; rewrite length_take; [|lia].
    by replace (ustack x - ustack x `min` length (stack_of st (uthread x)))%nat with O by lia.
  - unfold st2. assert (users (put_user u x st1) = users st) as E.
    { simpl. rewrite Hus, insert_insert_eq. by rewrite insert_id. }
    destruct (pthread w); done.
  - unfold st2, st1. by destruct (pthread w).
  - unfold st2, st1. destruct (pthread w); [done|]. simpl. apply map_eq. intros k.
    destruct (decide (k = y)) as [->|]; [by rewrite lookup_partial_alter_eq|by rewrite !lookup_partial_alter_ne].
  - unfold ranges_of. assert (stack_of st2 (uthread x) = stack_of st1 (uthread x)) as -> by (unfold st2; by destruct (pthread w)).
    rewrite Hst, take_push; [done|lia].
Qed.
End RoundTrips.

(** ** Enumeration *)
Section Enumeration.
Variable m : mem.
Variable gs : list sml_gcroot_t.

(** The frames from [fp] to [bottom], with their layouts. *)
Inductive stack_frames (bottom : Z) : Z -> list (Z * Z) -> Prop :=
| last_frame lay : sml_lookup_frametable (FRAME_CODE_ADDRESS m bottom) gs = Ok lay -> stack_frames bottom bottom [(bottom, lay)]
| more_frames fp lay l : fp ≠ bottom -> sml_lookup_frametable (FRAME_CODE_ADDRESS m fp) gs = Ok lay ->
    stack_frames bottom (next_frame m fp lay) l -> stack_frames bottom fp ((fp, lay) :: l).

Definition roots_of (f : Z * Z) : list Z := frame_roots m f.1 f.2.

Lemma range_enum_ptr_ok fuel bottom fp l : stack_frames bottom fp l -> (length l <= fuel)%nat ->
  range_enum_ptr m gs fuel fp bottom = Ok (l ≫= roots_of).
Proof.
  intros H. revert fuel. induction H as [lay Hl|fp lay l Hne Hl _ IH]; intros [|fuel] Hf; simpl in Hf; try lia; simpl; unfold frame_enum_ptr; rewrite Hl; cbn [mbind res_bind].
  - rewrite Z.eqb_refl. simpl. by rewrite app_nil_r.
  - apply Z.eqb_neq in Hne as ->. rewrite IH by lia. done.
Qed.

(** A frame ends above the one before. *)
Lemma next_frame_above fp lay : bytes_ok m -> fp + 8 <= next_frame m fp lay.
Proof. intros Hm. unfold next_frame, NEXT_FRAME, frame_size, load16. pose proof (load_range m (lay + 2) 2 Hm). lia. Qed.

Lemma stack_frames_length bottom fp l : bytes_ok m -> stack_frames bottom fp l -> fp + 8 * (Z.of_nat (length l) - 1) <= bottom.
Proof.
  intros Hm. induction 1 as [lay _|fp lay l _ _ _ IH]; simpl length; [lia|]. pose proof (next_frame_above fp lay Hm). lia.
Qed.

(** The bound of the loop over the frames of a range. *)
Definition enough (fuel : nat) (r : range) : Prop := (rbottom r - rtop r) / 8 < Z.of_nat fuel.

End Enumeration.

(** ** An example *)
Module UsersSample.
(** The user thread 7 runs ML code on worker 0, called back from C code. *)
Definition st : ustate :=
  UState {[ 1%nat := User 0 7 (Some 0%nat) 2 0 ]} {[ 7%nat := [Range 300 400; Range 0 200] ]} {[ 0%nat := [1%nat] ]} {[ 0%nat := 1%nat ]} ∅.
Definition no_pthreads (_ : nat) : bool := false.
Definition get (r : res ustate) : ustate := match r with Ok s => s | _ => st end.

(** The stack of two frames from 1000 to 1032, with the tables of
    [FrameSample]: a frame has one slot, eight words above its end. *)
Definition m : mem :=
  store64 (store64 (store64 (store64 FrameSample.m 992 4112) 1064 5000) 1024 4144) 1096 0.
Definition gs : list sml_gcroot_t := match load_all FrameSample.m 3 [FrameSample.prog] with Ok gs => gs | _ => [] end.
Definition locked : ustate :=
  UState {[ 1%nat := User 1 7 (Some 0%nat) 1 6000 ]} {[ 7%nat := [Range 1000 1032] ]} {[ 0%nat := [1%nat] ]} ∅ {[ 7%nat := 1%nat ]}.
End UsersSample.
Import UsersSample.

Lemma leave_enter_roundtrip_witness : exists u,
  current_context no_pthreads 7 0 (get (sml_leave_internal no_pthreads 7 0 104 st)) = Some u /\
  sml_enter_internal no_pthreads 7 0 u 104 (get (sml_leave_internal no_pthreads 7 0 104 st)) = Ok st.
Proof. apply (leave_enter_roundtrip no_pthreads 7 0 104 st). vm_compute. reflexivity. Defined.

Lemma save_unsave_roundtrip_witness : sml_unsave 0 104 (get (sml_save 0 104 st)) = Ok st /\
  sml_saved no_pthreads 7 0 st = Ok false /\ sml_saved no_pthreads 7 0 (get (sml_save 0 104 st)) = Ok true.
Proof. apply (save_unsave_roundtrip no_pthreads 7 0 104); [lia|left; reflexivity|vm_compute; reflexivity]. Defined.

Lemma exn_roundtrip_witness : sml_unsave_exn 0 1 (get (sml_save_exn 0 64 st)) = Ok (64, st) /\ sml_save_exn 0 72 (get (sml_save_exn 0 64 st)) = Fatal.
Proof. apply (exn_roundtrip 0 64 72 1); [lia|lia|vm_compute; reflexivity]. Defined.

Lemma callback_roundtrip_witness : exists st1 st2, let st0 := get (sml_leave_internal no_pthreads 7 0 104 st) in
  sml_start no_pthreads 7 0 9 96 st0 = Ok st1 /\ sml_end no_pthreads 7 0 st1 = Ok st2 /\
  current st1 !! 0%nat = Some 1%nat /\ top_range st1 1 = Ok (Range 0 96) /\
  users st2 = users st0 /\ lists st2 = lists st0 /\ tlv st2 = tlv st0 /\ ranges_of st2 (User 0 7 (Some 0%nat) 2 0) = ranges_of st0 (User 0 7 (Some 0%nat) 2 0).
Proof.
  apply (callback_roundtrip no_pthreads 7 0 9 96 (get (sml_leave_internal no_pthreads 7 0 104 st)) 1 (User 0 7 (Some 0%nat) 2 0));
    [vm_compute; reflexivity|vm_compute; reflexivity|apply (bool_decide_unpack _); vm_compute; exact I].
Defined.

