(* ===== verification/Migration.v ===== *)
(** * User threads that move between workers during a collection

    src/src/runtime/control.c: sml_start, sml_end, sml_leave, sml_enter and
    the loop of worker_sync2, interleaved with the handshakes of Control.v.
    A user thread that a work-stealing scheduler has moved enters ML code on
    another worker than the one its context belongs to; [sml_enter] then
    copies the context, while the old worker, or a helper, may be enumerating
    its roots.  Threads are not pthreads of their own: those never move. *)
From Stdlib Require Import ZArith Lia.
From stdpp Require Import base option list gmap.
From S2P Require Import Prelude Bits Layout Segment Alloc Control Users.

Local Open Scope Z_scope.

Definition no_pthread (_ : nat) : bool := false.

(** ** Data *)

(** In [sml_enter]: the user thread, its frame, its context and the memory
    of the new one. *)
Record move := Move { m_thread : nat; m_fp : Z; m_old : nat; m_new : nat }.

(** What an operating system thread does for a user thread.  [InUser y saved
    closed]: [y] runs ML code, or C code between [sml_save] and [sml_unsave],
    or the runtime has closed its range for an action. *)
Inductive uact :=
| Out
| Starting (y : nat) (fp : Z)
| InUser (y : nat) (saved closed : bool)
| Leaving (y : nat)
| Entering (y : nat) (fp : Z)
| LoadPhase (v : move)
| Acquire (v : move) (phase : Z)
| Wait (v : move)
| Enumerate (v : move)
| StorePlain (v : move)
| StoreWorker (v : move)
| Unlock (v : move)
| Copy (v : move).

(** The loop of [worker_sync2]: [i] is behind the first [pos] users of the
    list; [pending] are taken off. *)
Inductive loop :=
| Walk (pos : nat) (pending : list nat)
| Checking (pos : nat) (pending : list nat) (u : nat)
| Visiting (pos : nat) (pending : list nat) (u : nat)
| Unlocking (pos : nat) (pending : list nat) (u : nat)
| Walked.

#[export] Instance loop_eq_dec : EqDecision loop.
Proof. solve_decision. Defined.

(** [seen]: the user threads whose roots have been enumerated since the
    collection began; [late]: those that began on a worker that had accepted
    SYNC2. *)
Record system := System {
  ctl : control;
  us : ustate;
  acts : gmap nat uact;
  loops : gmap nat loop;
  seen : gset nat;
  late : gset nat
}.

Definition init_system : system := System init_control init_ustate ∅ ∅ ∅ ∅.

Definition act_of (s : system) (t : nat) : uact := default Out (acts s !! t).
Definition set_act (t : nat) (a : uact) (s : system) : system :=
  System (ctl s) (us s) (<[t := a]> (acts s)) (loops s) (seen s) (late s).
Definition set_us (x : ustate) (s : system) : system := System (ctl s) x (acts s) (loops s) (seen s) (late s).
Definition set_loop (t : nat) (l : option loop) (s : system) : system :=
  System (ctl s) (us s) (acts s) (partial_alter (fun _ => l) t (loops s)) (seen s) (late s).
Definition add_seen (y : nat) (s : system) : system :=
  System (ctl s) (us s) (acts s) (loops s) ({[y]} ∪ seen s) (late s).
Definition add_late (y : nat) (s : system) : system :=
  System (ctl s) (us s) (acts s) (loops s) (seen s) ({[y]} ∪ late s).

(** The user thread that an operating system thread is busy with. *)
Definition runs (a : uact) : option nat :=
  match a with
  | Out => None
  | Starting y _ | InUser y _ _ | Leaving y | Entering y _ => Some y
  | LoadPhase v | Acquire v _ | Wait v | Enumerate v | StorePlain v | StoreWorker v | Unlock v | Copy v => Some (m_thread v)
  end.
Definition elsewhere (s : system) (y : nat) : bool :=
  negb (bool_decide (map_Forall (fun _ a => runs a ≠ Some y) (acts s))).

(** A step of Control.v; a new collection begins when [gc_count] becomes
    odd. *)
Definition control_step (t : nat) (cmd : command) (s : system) : res system :=
  c ← exec (t, cmd) (ctl s);
  let began := Z.even (gc_count (ctl s)) && Z.odd (gc_count c) in
  Ok (System c (us s) (acts s) (loops s) (if began then ∅ else seen s) (if began then ∅ else late s)).

(** ** [sml_heap_user_sync2]

    The assertions of [sml_stack_enum_ptr]. *)
Definition enumerable (st : ustate) (u : nat) : res unit :=
  x ← deref (users st !! u);
  assert_that (busy x);;
  assert_that (negb (ustack x =? 0)%nat);;
  assert_that (forallb (fun r => negb (rtop r =? 0) && negb (rbottom r =? 0)) (ranges_of st x)).

Definition enumerate (u : nat) (s : system) : res system :=
  _ ← enumerable (us s) u;
  x ← deref (users (us s) !! u);
  Ok (add_seen (uthread x) s).

(** ** The loop of [worker_sync2] *)
Definition sync2_step (t w : nat) (spurious : bool) (s : system) : res system :=
  let st := us s in
  let l := list_of st w in
  match loops s !! t with
  | None => Ok (set_loop t (Some (Walk 0 [])) s)
  | Some (Walk i pending) =>
      match l !! i with
      | Some u =>
          '(locked, st) ← acquire_busy u spurious st;
          if locked : bool then Ok (set_loop t (Some (Checking i pending u)) (set_us st s))
          else Ok (set_loop t (Some (Walk i (u :: pending))) (set_us (put_list w (delete i l) st) s))
      | None =>
          Ok (set_loop t (Some (match pending with [] => Walked | _ => Walk i [] end)) (set_us (put_list w (l ++ pending) st) s))
      end
  | Some (Checking i pending u) =>
      x ← deref (users st !! u);
      if bool_decide (uworker x = Some w) then Ok (set_loop t (Some (Visiting i pending u)) s)
      else Ok (set_loop t (Some (Walk i pending)) (set_us (put_list w (delete i l) st) s))
  | Some (Visiting i pending u) =>
      s ← enumerate u s; Ok (set_loop t (Some (Unlocking i pending u)) s)
  | Some (Unlocking i pending u) =>
      st ← release_busy u st; Ok (set_loop t (Some (Walk (S i) pending)) (set_us st s))
  | Some Walked => Ok s
  end.

(** ** Entering and leaving *)

(** The second assertion of [leave_worker]. *)
Definition leave_assertion (w : nat) (st : ustate) : res unit :=
  match current st !! w with
  | None => Ok tt
  | Some u =>
      x ← deref (users st !! u);
      if (ustack x =? 0)%nat then Ok tt else r ← top_range st u; assert_that (negb (rtop r =? 0))
  end.

(** [leave_worker], the user thread still on its way out. *)
Definition leave (t y : nat) (s : system) : res system :=
  _ ← leave_assertion t (us s);
  s ← control_step t Exit s;
  Ok (set_act t (Leaving y) s).

Definition phase_of (s : system) (w : nat) : res Z := wk ← deref (workers (ctl s) !! w); Ok (PHASE (wstate wk)).

(** The rest of [sml_start] when [enter_worker] has returned. *)
Definition finish_start (t y : nat) (fp : Z) (alloc : option nat) (s : system) : res system :=
  match tlv (us s) !! y, alloc with
  | Some _, _ =>
      st ← sml_start no_pthread y t 0 fp (us s);
      Ok (set_act t (InUser y false false) (set_us st s))
  | None, None => leave t y s
  | None, Some n =>
      if bool_decide (is_Some (users (us s) !! n)) then Ok s
      else
        st ← sml_start no_pthread y t n fp (us s);
        s ← control_step t Control.User (set_us st s);
        phase ← phase_of s t;
        let s := if phase =? SYNC2 then add_late y s else s in
        Ok (set_act t (InUser y false false) s)
  end.

(** [sml_enter] from the return of [enter_worker] to the allocation. *)
Definition begin_enter (t y : nat) (fp : Z) (alloc : option nat) (s : system) : res system :=
  u ← deref (tlv (us s) !! y);
  x ← deref (users (us s) !! u);
  if bool_decide (uworker x = Some t) then
    st ← sml_enter_internal no_pthread y t u fp (us s);
    Ok (set_act t (InUser y false false) (set_us st s))
  else
    match alloc with
    | None => leave t y s
    | Some n => if bool_decide (is_Some (users (us s) !! n)) then Ok s else Ok (set_act t (LoadPhase (Move y fp u n)) s)
    end.

Definition store_worker (t u : nat) (s : system) : res system :=
  x ← deref (users (us s) !! u);
  Ok (set_us (put_user u (set_uworker (Some t) x) (us s)) s).

Definition finish_enter (t : nat) (v : move) (s : system) : res system :=
  if bool_decide (is_Some (users (us s) !! m_new v)) then Ok s
  else
    st ← copy_user t (m_old v) (m_new v) (us s);
    st ← sml_enter_internal no_pthread (m_thread v) t (m_new v) (m_fp v) st;
    s ← control_step t Control.User (set_us st s);
    Ok (set_act t (InUser (m_thread v) false false) s).

Record uoracle := UOracle { spurious : bool; alloc : option nat }.

(** The next step of a thread in the functions of this file. *)
Definition user_step (t : nat) (o : uoracle) (s : system) : res system :=
  let p := pc_of (ctl s) t in
  let st := us s in
  match p with
  | Act w phase _ _ => if phase =? PRESYNC2 then sync2_step t w (spurious o) s else Ok s
  | Outside =>
      match act_of s t with
      | Starting _ _ | Entering _ _ => control_step t Enter s
      | Leaving y => Ok (set_act t Out s)
      | _ => Ok s
      end
  | InML =>
      match act_of s t with
      | Starting y fp => finish_start t y fp (alloc o) s
      | Entering y fp => begin_enter t y fp (alloc o) s
      | LoadPhase v =>
          phase ← phase_of s t;
          Ok (set_act t (if (SYNC1 <=? phase) && (phase <=? SYNC2) then Acquire v phase else StorePlain v) s)
      | Acquire v phase =>
          '(locked, st) ← acquire_busy (m_old v) (spurious o) st;
          let s := set_us st s in
          Ok (set_act t (if negb locked then Wait v else if phase =? SYNC2 then Enumerate v else StoreWorker v) s)
      | Wait v =>
          '(locked, st) ← acquire_busy (m_old v) (spurious o) st;
          let s := set_us st s in
          Ok (if locked : bool then set_act t (StoreWorker v) s else s)
      | Enumerate v => s ← enumerate (m_old v) s; Ok (set_act t (StoreWorker v) s)
      | StorePlain v => s ← store_worker t (m_old v) s; Ok (set_act t (Copy v) s)
      | StoreWorker v => s ← store_worker t (m_old v) s; Ok (set_act t (Unlock v) s)
      | Unlock v => st ← release_busy (m_old v) st; Ok (set_act t (Copy v) (set_us st s))
      | Copy v => finish_enter t v s
      | InUser y false true =>
          st ← reopen_range t true st; Ok (set_act t (InUser y false false) (set_us st s))
      | _ => Ok s
      end
  | _ => Ok s
  end.

(** A step of a thread in the handshake.  The action of SYNC2 ends when its
    loop has; [sml_check_internal] closes the range of the user before the
    actions of SYNC1 and SYNC2. *)
Definition handshake_step (t : nat) (o : oracle) (fp : Z) (s : system) : res system :=
  match pc_of (ctl s) t with
  | Act w phase _ _ =>
      if phase =? PRESYNC2 then
        match loops s !! t with
        | Some Walked =>
            wk ← deref (workers (ctl s) !! w);
            s ← control_step t (Run (Oracle (weak_fails o) (mark_finished o) (wusers wk - length (list_of (us s) w)))) s;
            Ok (set_loop t None s)
        | _ => Ok s
        end
      else control_step t (Run o) s
  | Answer state =>
      if (state =? PRESYNC1) || (state =? PRESYNC2) then
        match act_of s t with
        | InUser y saved false =>
            s ← control_step t (Run o) s;
            '(closed, st) ← close_range t fp (us s);
            Ok (set_act t (InUser y saved closed) (set_us st s))
        | _ => Ok s
        end
      else control_step t (Run o) s
  | _ => control_step t (Run o) s
  end.

(** ** Events *)
Inductive ucommand :=
| Start (y : nat) (fp : Z)
| EnterUser (y : nat) (fp : Z)
| Leave_ (fp : Z)
| End_
| Save (fp : Z)
| Unsave (fp : Z)
| CheckUser
| WaitGc (fp : Z)
| StartGc
| CancelUser (y : nat)
| CancelWorker
| Step (o : uoracle)
| Handshake (o : oracle) (fp : Z).

(** Commands that a thread cannot give where it is change nothing.  [fp] is
    the address of a frame, not null. *)
Definition sys_exec (e : nat * ucommand) (s : system) : res system :=
  let t := e.1 in
  let st := us s in
  let p := pc_of (ctl s) t in
  match e.2, p, act_of s t with
  | Start y fp, Outside, Out =>
      if elsewhere s y || (fp =? 0) then Ok s
      else s ← control_step t Enter s; Ok (set_act t (Starting y fp) s)
  | EnterUser y fp, Outside, Out =>
      if elsewhere s y then Ok s
      else
        match tlv st !! y with
        | None => Ok s
        | Some u =>
            r ← top_range st u;
            if rtop r =? fp then s ← control_step t Enter s; Ok (set_act t (Entering y fp) s) else Ok s
        end
  | Leave_ fp, InML, InUser y false false =>
      if fp =? 0 then Ok s
      else st ← sml_leave_internal no_pthread y t fp st; leave t y (set_us st s)
  | End_, InML, InUser y false false => st ← sml_end no_pthread y t st; leave t y (set_us st s)
  | Save fp, InML, InUser y false false =>
      if fp =? 0 then Ok s
      else st ← sml_save t fp st; Ok (set_act t (InUser y true false) (set_us st s))
  | Unsave fp, InML, InUser y true false =>
      u ← deref (current st !! t);
      r ← top_range st u;
      if rtop r =? fp then st ← sml_unsave t fp st; Ok (set_act t (InUser y false false) (set_us st s)) else Ok s
  | CheckUser, InML, InUser _ _ false => control_step t Check s
  | WaitGc fp, InML, InUser y saved false =>
      if fp =? 0 then Ok s
      else
        '(closed, st) ← close_range t fp st;
        control_step t (Gc true) (set_act t (InUser y saved closed) (set_us st s))
  | StartGc, InML, InUser _ _ false => control_step t (Gc false) s
  | StartGc, Outside, Out => control_step t (Gc false) s
  | CancelUser y, Outside, Out =>
      if elsewhere s y then Ok s
      else
        '(done, st) ← cancel_user y st;
        Ok (if done : bool then set_us (set_tlv y None st) s else s)
  | CancelWorker, Outside, Out => control_step t Cancel s
  | Step o, _, _ => user_step t o s
  | Handshake o fp, _, _ => if fp =? 0 then Ok s else handshake_step t o fp s
  | _, _, _ => Ok s
  end.

Definition sys_run (es : list (nat * ucommand)) (s : system) : res system :=
  foldl (fun r e => s ← r; sys_exec e s) (Ok s) es.
