(* ===== verification/MigrationInv.v ===== *)
(** * The invariant of the user contexts

    Where the context of a user thread is while threads start, end, leave,
    enter and move ([context]), who holds its lock ([holds]), and why its
    roots are not missed ([covered]). *)
From Stdlib Require Import ZArith Lia.
From stdpp Require Import base option list gmap relations.
From S2P Require Import Prelude Bits Layout Segment Alloc Control ControlFacts ControlInv ControlFrame ControlSteps ControlLead ControlChange ControlEffect ControlThms Users Migration.

Local Open Scope Z_scope.

(** ** Views of a thread *)
Definition loop_holds (lp : option loop) : option nat :=
  match lp with Some (Checking _ _ u) | Some (Visiting _ _ u) | Some (Unlocking _ _ u) => Some u | _ => None end.
Definition act_holds (a : uact) : option nat :=
  match a with Enumerate v | StoreWorker v | Unlock v => Some (m_old v) | _ => None end.
Definition moved (a : uact) : option nat :=
  match a with Unlock v | Copy v => Some (m_old v) | _ => None end.
Definition user_of (a : uact) : option nat := match a with InUser y _ _ => Some y | _ => None end.
Definition mover (a : uact) : option move :=
  match a with
  | LoadPhase v | Acquire v _ | Wait v | Enumerate v | StorePlain v | StoreWorker v | Unlock v | Copy v => Some v
  | _ => None
  end.

Definition loop_pending (lp : loop) : list nat :=
  match lp with Walk _ p | Checking _ p _ | Visiting _ p _ | Unlocking _ p _ => p | Walked => [] end.

(** The users that the loop has not reached. *)
Definition loop_ahead (l : list nat) (lp : option loop) : list nat :=
  match lp with
  | None => l
  | Some (Walk i p) | Some (Checking i p _) | Some (Visiting i p _) => drop i l ++ p
  | Some (Unlocking i p _) => drop (S i) l ++ p
  | Some Walked => []
  end.

(** Who holds the lock of a user: a loop or a thread in [sml_enter]. *)
Definition holds (s : system) (b : bool) (t : nat) : option nat :=
  if b then loop_holds (loops s !! t) else act_holds (act_of s t).

Definition acts_on (c : control) (t w : nat) : Prop := exists g k, pc_of c t = Act w PRESYNC2 g k.

(** The users of a worker, with those that the loop has put aside. *)
Definition full (s : system) (w u : nat) : Prop :=
  u ∈ list_of (us s) w \/ exists t lp, loops s !! t = Some lp /\ acts_on (ctl s) t w /\ u ∈ loop_pending lp.

(** ** Contexts *)

(** [u] is the context of the user thread [y]. *)
Definition context (s : system) (y u : nat) : Prop :=
  (tlv (us s) !! y = Some u /\ forall t, moved (act_of s t) ≠ Some u) \/
  (exists t, user_of (act_of s t) = Some y /\ current (us s) !! t = Some u).

Definition covered (s : system) (y u w : nat) (ph : Z) : Prop :=
  ph ≠ SYNC2 \/ y ∈ seen s \/ y ∈ late s \/
  exists t, acts_on (ctl s) t w /\ u ∈ loop_ahead (list_of (us s) w) (loops s !! t).

Definition context_ok (s : system) (y u : nat) : Prop := exists x w wk,
  users (us s) !! u = Some x /\ uthread x = y /\ uworker x = Some w /\
  workers (ctl s) !! w = Some wk /\ dead wk = false /\
  full s w u /\ (forall w', full s w' u -> w' = w) /\
  covered s y u w (PHASE (wstate wk)) /\
  (busy x = true -> exists b t, holds s b t = Some u).

(** ** Stacks *)
Definition range_closed (r : range) : Prop := rtop r ≠ 0 /\ rbottom r ≠ 0.

(** All ranges of the user are closed, except for the newest if [open]. *)
Definition head_open (st : ustate) (x : user) (open : bool) : Prop := exists d r,
  ustack x = S d /\ stack_of st (uthread x) !! d = Some r /\ Forall range_closed (take d (stack_of st (uthread x))) /\
  rbottom r ≠ 0 /\ (rtop r = 0 <-> open = true).

(** ** Threads *)
Definition phase_is (s : system) (t : nat) (P : Z -> Prop) : Prop :=
  forall wk, workers (ctl s) !! t = Some wk -> P (PHASE (wstate wk)).

Definition not_sync2 (ph : Z) : Prop := ph ≠ SYNC2.
Definition outside_sync (ph : Z) : Prop := ~ (SYNC1 <= ph <= SYNC2).

(** The loop of another thread is at [u]. *)
Definition being_visited (s : system) (u : nat) : Prop :=
  exists t i p, loops s !! t = Some (Checking i p u) \/ loops s !! t = Some (Visiting i p u).

Definition mover_ok (s : system) (t : nat) (a : uact) (v : move) (ow : option nat) : Prop :=
  match a with
  | Acquire _ ph => ow ≠ Some t /\ (ph ≠ SYNC2 -> phase_is s t not_sync2)
  | Wait _ => ow ≠ Some t /\ (phase_is s t not_sync2 \/ m_thread v ∈ seen s \/ being_visited s (m_old v))
  | StorePlain _ => ow ≠ Some t /\ phase_is s t outside_sync
  | StoreWorker _ => ow ≠ Some t /\ (phase_is s t not_sync2 \/ m_thread v ∈ seen s)
  | Unlock _ | Copy _ => ow = Some t /\ (phase_is s t not_sync2 \/ m_thread v ∈ seen s)
  | _ => ow ≠ Some t
  end.

Definition top_is (st : ustate) (u : nat) (fp : Z) : Prop := exists r, top_range st u = Ok r /\ rtop r = fp.

Definition act_ok (s : system) (t : nat) (a : uact) : Prop :=
  match a with
  | Out | Leaving _ => True
  | Starting y fp => fp ≠ 0 /\ forall u x, tlv (us s) !! y = Some u -> users (us s) !! u = Some x -> uworker x = Some t
  | InUser y saved closed =>
      inside (pc_of (ctl s) t) = true /\ tlv (us s) !! y = None /\
      (exists u x, current (us s) !! t = Some u /\ users (us s) !! u = Some x /\ uthread x = y /\ uworker x = Some t /\
         head_open (us s) x (negb (saved || closed))) /\
      (closing (pc_of (ctl s) t) -> saved || closed = true)
  | Entering y fp => exists u, tlv (us s) !! y = Some u /\ top_is (us s) u fp
  | _ => forall v, mover a = Some v ->
      pc_of (ctl s) t = InML /\ tlv (us s) !! m_thread v = Some (m_old v) /\ top_is (us s) (m_old v) (m_fp v) /\
      exists x, users (us s) !! m_old v = Some x /\ mover_ok s t a v (uworker x)
  end.

(** ** Loops *)
Definition loop_ok (s : system) (t : nat) (lp : loop) : Prop := exists w,
  acts_on (ctl s) t w /\
  (forall wk, workers (ctl s) !! w = Some wk -> (length (list_of (us s) w) + length (loop_pending lp) <= wusers wk)%nat) /\
  match lp with
  | Walk i p => (i <= length (list_of (us s) w))%nat
  | Checking i p u => list_of (us s) w !! i = Some u
  | Visiting i p u => list_of (us s) w !! i = Some u /\ exists x, users (us s) !! u = Some x /\ uworker x = Some w
  | Unlocking i p u => list_of (us s) w !! i = Some u /\ exists x, users (us s) !! u = Some x /\ uthread x ∈ seen s
  | Walked => True
  end.

Record UInv (N : Z) (s : system) : Prop := MkUInv {
  u_ctl : Inv N (ctl s);
  u_ctx : forall y u, context s y u -> context_ok s y u;
  u_act : forall t, act_ok s t (act_of s t);
  u_runs : forall t t' y, runs (act_of s t) = Some y -> runs (act_of s t') = Some y -> t = t';
  u_loop : forall t lp, loops s !! t = Some lp -> loop_ok s t lp;
  u_list : forall w u, full s w u -> exists x, users (us s) !! u = Some x /\ (uworker x = Some w -> context s (uthread x) u);
  u_tlv : forall y u, tlv (us s) !! y = Some u -> exists x, users (us s) !! u = Some x /\ uthread x = y /\ head_open (us s) x false;
  u_holds : forall b b' t t' u, holds s b t = Some u -> holds s b' t' = Some u -> b = b' /\ t = t';
  u_busy : forall b t u, holds s b t = Some u -> exists x, users (us s) !! u = Some x /\ busy x = true;
  u_count : forall w, list_of (us s) w ≠ [] -> exists wk, workers (ctl s) !! w = Some wk /\ (length (list_of (us s) w) <= wusers wk)%nat
}.

Lemma init_uinv N : 0 <= N -> UInv N init_system.
Proof.
  intros HN.
  assert (forall t, act_of init_system t = Out) as Ha by (intros t; unfold act_of; simpl; by rewrite lookup_empty).
  assert (forall w, list_of (us init_system) w = []) as Hl by (intros w; unfold list_of; simpl; by rewrite lookup_empty).
  split.
  - by apply init_inv.
  - intros y u [[H _]|(t & H & _)]; [simpl in H; by rewrite lookup_empty in H|by rewrite Ha in H].
  - intros t. by rewrite Ha.
  - intros t t' y H. by rewrite Ha in H.
  - intros t lp H. simpl in H. by rewrite lookup_empty in H.
  - intros w u [H|(t & lp & H & _)]; [rewrite Hl in H; by apply not_elem_of_nil in H|simpl in H; by rewrite lookup_empty in H].
  - intros y u H. simpl in H. by rewrite lookup_empty in H.
  - intros b b' t t' u H. exfalso. destruct b; simpl in H; [by rewrite lookup_empty in H|by rewrite Ha in H].
  - intros b t u H. exfalso. destruct b; simpl in H; [by rewrite lookup_empty in H|by rewrite Ha in H].
  - intros w H. by rewrite Hl in H.
Qed.

(** ** Threads that go on *)
Lemma act_set t a s t' : act_of (set_act t a s) t' = if decide (t' = t) then a else act_of s t'.
Proof.
  unfold act_of, set_act. simpl. case_decide as E; [subst; by rewrite lookup_insert_eq|by rewrite lookup_insert_ne].
Qed.

(** [s'] has other acts: [a] for the thread [t0]. *)
Definition acts_step (t0 : nat) (a : uact) (s s' : system) : Prop :=
  forall t, act_of s' t = if decide (t = t0) then a else act_of s t.

Lemma acts_step_same t0 s s' : (forall t, act_of s' t = act_of s t) -> acts_step t0 (act_of s t0) s s'.
Proof. intros H t. rewrite H. by case_decide as E; [subst|]. Qed.

Lemma top_is_ext st st' u fp : (forall x, users st !! u = Some x -> exists x', users st' !! u = Some x' /\ uthread x' = uthread x /\
    ustack x' = ustack x /\ stack_of st' (uthread x) = stack_of st (uthread x)) -> top_is st u fp -> top_is st' u fp.
Proof.
  intros H (r & Hr & Ht). exists r. split; [|done]. unfold top_range in *. res_inv.
  destruct (H _ H0) as (x' & -> & E1 & E2 & E3). cbn [deref mbind res_bind]. by rewrite E1, E2, E3.
Qed.

Lemma head_open_ext st st' x x' b : uthread x' = uthread x -> ustack x' = ustack x -> stack_of st' (uthread x) = stack_of st (uthread x) ->
  head_open st x b -> head_open st' x' b.
Proof. intros E1 E2 E3 (d & r & H1 & H2 & H3 & H4 & H5). exists d, r. rewrite E1, E2, E3. by split_and!. Qed.
