(* ===== verification/MigrationSteps.v ===== *)
(** * Steps that keep the invariant of the user contexts

    Frame lemmas for the kinds of change that an event of Migration.v makes:
    a step of the handshake ([control_inv]), a change of what one user thread
    has for itself ([local_inv]), a lock that is taken or given back
    ([lock_inv], [act_lock_inv]), a step of the loop of [worker_sync2]
    ([loop_inv]), a new context ([new_inv]), and changes that leave every
    context where it is ([same_context_inv]). *)
From Stdlib Require Import ZArith Lia.
From stdpp Require Import base option list gmap relations.
From S2P Require Import Prelude Bits Layout Segment Alloc Control ControlFacts ControlInv ControlFrame ControlSteps ControlLead ControlChange ControlEffect ControlThms Users Migration MigrationInv.

Local Open Scope Z_scope.

Lemma signal_cases (a b : Z) : signal_step a b -> (a = 1 /\ b = 2) \/ (a = 3 /\ b = 4) \/ (a = 5 /\ b = 6) \/ (a = 7 /\ b = 0) \/ (a = 7 /\ b = 6).
Proof. unfold signal_step. rewrite !elem_of_cons, elem_of_nil. intros H. naive_solver. Qed.
Lemma signal_not_sync2 a b : signal_step a b -> not_sync2 a -> not_sync2 b.
Proof. intros H _. apply signal_cases in H. unfold not_sync2, SYNC2. lia. Qed.
Lemma signal_outside a b : signal_step a b -> outside_sync a -> outside_sync b.
Proof. intros H. apply signal_cases in H. unfold outside_sync, SYNC1, SYNC2. lia. Qed.

Lemma acts_on_fun c t w w' : acts_on c t w -> acts_on c t w' -> w = w'.
Proof. intros (g & k & H) (g' & k' & H'). congruence. Qed.
Lemma acts_on_phase N c t w : Inv N c -> acts_on c t w -> exists wk, workers c !! w = Some wk /\ dead wk = false /\ PHASE (wstate wk) = SYNC2.
Proof. intros HI (g & k & H). destruct (act_phase N c HI _ _ _ _ _ H) as (wk & ? & ? & ? & _). exists wk. by split_and!. Qed.
Lemma acts_on_unique N c t t' w : Inv N c -> acts_on c t w -> acts_on c t' w -> t = t'.
Proof. intros HI (g & k & H) (g' & k' & H'). by eapply act_unique. Qed.
Lemma acts_on_InML N c t t' : Inv N c -> pc_of c t = InML -> ~ acts_on c t' t.
Proof.
  intros HI Hp (g & k & H). assert (inside (pc_of c t) = true) as Hin by (by rewrite Hp).
  destruct (act_inside N c HI t t' _ _ _ Hin H) as [-> _]. congruence.
Qed.

(** A context is always the same one. *)
Lemma context_fun N s y u u' : UInv N s -> context s y u -> context s y u' -> u = u'.
Proof.
  intros HU. assert (forall t z, user_of (act_of s t) = Some z -> tlv (us s) !! z = None /\ runs (act_of s t) = Some z) as Hno.
  { intros t z Ht. pose proof (u_act _ _ HU t) as HA. destruct (act_of s t); simpl in Ht; try done. injection Ht as ->. by destruct HA as (_ & ? & _). }
  intros [[H1 _]|(t & H1 & H2)] [[H1' _]|(t' & H1' & H2')]; [congruence|apply Hno in H1' as [? _]; congruence|apply Hno in H1 as [? _]; congruence|].
  apply Hno in H1 as [_ H1]. apply Hno in H1' as [_ H1']. rewrite (u_runs _ _ HU _ _ _ H1 H1') in H2. congruence.
Qed.
Lemma context_thread N s y y' u : UInv N s -> context s y u -> context s y' u -> y = y'.
Proof.
  intros HU H1 H2. destruct (u_ctx _ _ HU _ _ H1) as (x & _ & _ & Hx & <- & _). destruct (u_ctx _ _ HU _ _ H2) as (x' & _ & _ & Hx' & <- & _). congruence.
Qed.

(** The context of a thread in [sml_enter]. *)
Lemma mover_context N s t v : UInv N s -> mover (act_of s t) = Some v -> moved (act_of s t) = None -> context s (m_thread v) (m_old v).
Proof.
  intros HU Hv Hm. left. pose proof (u_act _ _ HU t) as HA.
  assert (tlv (us s) !! m_thread v = Some (m_old v)) as Ht by (destruct (act_of s t); try done; by destruct (HA v Hv) as (_ & ? & _)).
  split; [done|]. intros t' Hm'. pose proof (u_act _ _ HU t') as HA'.
  assert (exists v', mover (act_of s t') = Some v' /\ m_old v' = m_old v /\ tlv (us s) !! m_thread v' = Some (m_old v')) as (v' & Hv' & Ho & Ht').
  { destruct (act_of s t') as [| | | | | | | | | | |v'|v']; try done; exists v'; destruct (HA' v' eq_refl) as (_ & ? & _); split_and!; try done; simpl in Hm'; congruence. }
  destruct (u_tlv _ _ HU _ _ Ht) as (x & Hx & Hy & _). destruct (u_tlv _ _ HU _ _ Ht') as (x' & Hx' & Hy' & _).
  assert (m_thread v' = m_thread v) as E by congruence.
  assert (forall a w, mover a = Some w -> runs a = Some (m_thread w)) as Hr by (intros a w; destruct a; simpl; congruence).
  apply Hr in Hv, Hv'. rewrite E in Hv'. rewrite (u_runs _ _ HU _ _ _ Hv' Hv) in Hm'. congruence.
Qed.

(** ** The handshake *)
Section ControlStep.
Context (N : Z) (s s' : system) (t0 : nat) (cmd : command) (a : uact).
Context (HU : UInv N s) (HI' : Inv N (ctl s')) (HE : effect t0 cmd (ctl s) (ctl s')).
Context (Hus : us s' = us s) (Hacts : acts_step t0 a s s').
Context (Huser : user_of a = user_of (act_of s t0)) (Hmoved : moved a = moved (act_of s t0)) (Hholds : act_holds a = act_holds (act_of s t0)).
Context (Hruns : forall y, runs a = Some y -> runs (act_of s t0) = Some y \/ forall t, runs (act_of s t) ≠ Some y).
Context (Hok : act_ok s' t0 a).
Context (Hloops : (loops s' = loops s /\ forall w, acts_on (ctl s) t0 w -> acts_on (ctl s') t0 w) \/
  (loops s !! t0 = Some Walked /\ loops s' = delete t0 (loops s))).
Context (Hgone : forall w wk o, cmd = Run o -> acts_on (ctl s) t0 w -> workers (ctl s) !! w = Some wk ->
  loops s' !! t0 = None /\ (length (list_of (us s) w) <= wusers wk - users_gone o)%nat).
Context (Hseen : (seen s' = seen s /\ late s' = late s) \/ Z.even (gc_count (ctl s)) = true).

Lemma cs_users t : user_of (act_of s' t) = user_of (act_of s t).
Proof. rewrite Hacts. case_decide; congruence. Qed.
Lemma cs_moved t : moved (act_of s' t) = moved (act_of s t).
Proof. rewrite Hacts. case_decide; congruence. Qed.
Lemma cs_context y u : context s' y u <-> context s y u.
Proof. unfold context. rewrite Hus. setoid_rewrite cs_users. setoid_rewrite cs_moved. done. Qed.

Lemma cs_loop t lp : loops s' !! t = Some lp -> loops s !! t = Some lp.
Proof. destruct Hloops as [[-> _]|[_ ->]]; [done|]. by intros [_ ?]%lookup_delete_Some. Qed.
Lemma cs_loop_keep t lp : loops s !! t = Some lp -> lp ≠ Walked -> loops s' !! t = Some lp.
Proof. intros Ht Hne. destruct Hloops as [[-> _]|[Hw ->]]; [done|]. rewrite lookup_delete_ne; [done|]. intros ->. congruence. Qed.
Lemma cs_acts_on t w : acts_on (ctl s) t w -> loops s !! t ≠ Some Walked -> acts_on (ctl s') t w.
Proof.
  intros Ht Hne. destruct (decide (t = t0)) as [->|Hn].
  - destruct Hloops as [[_ H]|[H _]]; [auto|done].
  - unfold acts_on in *. by rewrite (effect_pcs _ _ _ _ HE) by done.
Qed.
Lemma cs_acts_on_inv t w lp : loops s' !! t = Some lp -> acts_on (ctl s') t w -> acts_on (ctl s) t w.
Proof.
  intros Hl Hw. pose proof (cs_loop t lp Hl) as Hl0. destruct (u_loop _ _ HU t lp Hl0) as (w' & Hw' & _).
  destruct (decide (t = t0)) as [->|Hn].
  - destruct Hloops as [[_ H]|[_ H]]; [|rewrite H, lookup_delete_eq in Hl; congruence].
    by rewrite (acts_on_fun _ _ _ _ Hw (H _ Hw')).
  - unfold acts_on in *. by rewrite (effect_pcs _ _ _ _ HE) in Hw.
Qed.
Lemma cs_full w u : full s' w u <-> full s w u.
Proof.
  unfold full. rewrite Hus. split; (intros [?|(t & lp & H1 & H2 & H3)]; [by left|right; exists t, lp]).
  - split_and!; [by apply cs_loop|by eapply cs_acts_on_inv|done].
  - assert (lp ≠ Walked) as Hne by (intros ->; by apply not_elem_of_nil in H3).
    split_and!; [by apply cs_loop_keep|apply cs_acts_on; [done|congruence]|done].
Qed.
Lemma cs_holds b t u : holds s' b t = Some u <-> holds s b t = Some u.
Proof.
  destruct b; simpl.
  - destruct (loops s !! t) as [lp|] eqn:Hl.
    + destruct (decide (lp = Walked)) as [->|Hne]; [|by rewrite (cs_loop_keep _ _ Hl Hne)].
      destruct (loops s' !! t) as [lp|] eqn:Hl'; [|done]. apply cs_loop in Hl'. by assert (lp = Walked) as -> by congruence.
    + destruct (loops s' !! t) as [lp|] eqn:Hl'; [|done]. apply cs_loop in Hl'. congruence.
  - rewrite Hacts. case_decide as E; [subst; by rewrite Hholds|done].
Qed.

Lemma cs_covered y u w wk wk' : full s w u -> workers (ctl s) !! w = Some wk -> dead wk = false -> worker_change t0 cmd (ctl s) (ctl s') w wk wk' ->
  covered s y u w (PHASE (wstate wk)) -> covered s' y u w (PHASE (wstate wk')).
Proof.
  intros Hf Hw Hd HC Hcov. pose proof (u_ctl _ _ HU) as HI. unfold covered. rewrite Hus.
  destruct (decide (PHASE (wstate wk') = SYNC2)) as [H5|]; [|by left].
  destruct (change_phases _ _ _ _ _ _ _ HC) as [Hp|[Hp|(_ & Hp & Hna & g & k & Hpc)]].
  - rewrite Hp. destruct Hcov as [?|Hcov]; [by left|].
    assert (forall P : Prop, (seen s' = seen s /\ late s' = late s -> P) -> P) as Hs.
    { intros P H. destruct Hseen as [Hs|Hev]; [by apply H|]. destruct (even_phases N _ HI Hev) as [_ Hall]. specialize (Hall _ _ Hw Hd). simpl in Hall.
      rewrite <- Hp, H5 in Hall. done. }
    destruct Hcov as [Hcov|[Hcov|(t & Ht & Hin)]]; [apply Hs; intros [-> _]; tauto|apply Hs; intros [_ ->]; tauto|].
    right; right; right. exists t. assert (loops s !! t ≠ Some Walked) as Hne by (intros E; rewrite E in Hin; by apply not_elem_of_nil in Hin).
    split; [by apply cs_acts_on|]. destruct (loops s !! t) as [lp|] eqn:Hl.
    + rewrite (cs_loop_keep _ _ Hl) by congruence. done.
    + destruct (loops s' !! t) as [lp|] eqn:Hl'; [|done]. apply cs_loop in Hl'. congruence.
  - rewrite H5 in Hp. apply signal_cases in Hp. unfold SYNC2 in Hp. lia.
  - right; right; right. exists t0. assert (PHASE (wstate wk) = PRESYNC2) as E4 by (unfold PRESYNC2, SYNC2 in *; lia).
    rewrite E4 in Hpc. split; [by exists g, k|].
    assert (loops s' !! t0 = None) as ->.
    { destruct (loops s' !! t0) as [lp|] eqn:Hl'; [|done]. apply cs_loop in Hl'. destruct (u_loop _ _ HU _ _ Hl') as (? & (? & ? & E) & _). rewrite E in Hna. done. }
    simpl. destruct Hf as [?|(t & lp & _ & Ht & _)]; [done|]. destruct (acts_on_phase N _ _ _ HI Ht) as (wk1 & Hw1 & _ & H1).
    assert (wk1 = wk) as -> by congruence. rewrite E4 in H1. done.
Qed.

Lemma cs_worker w wk u : workers (ctl s) !! w = Some wk -> dead wk = false -> full s w u ->
  exists wk', workers (ctl s') !! w = Some wk' /\ dead wk' = false /\ worker_change t0 cmd (ctl s) (ctl s') w wk wk'.
Proof.
  intros Hw Hd Hf. destruct (effect_workers _ _ _ _ HE w wk Hw) as (wk' & Hw' & HC). exists wk'. split_and!; try done.
  destruct (change_dead _ _ _ _ _ _ _ HC) as [->|(_ & H0 & Hidle)]; [done|]. exfalso.
  destruct Hf as [Hin|(t & lp & _ & (g & k & Ht) & _)]; [|by eapply Hidle].
  destruct (u_count _ _ HU w) as (wk1 & Hw1 & Hle); [intros E; rewrite E in Hin; by apply not_elem_of_nil in Hin|].
  assert (wk1 = wk) as -> by congruence. destruct (list_of (us s) w); [by apply not_elem_of_nil in Hin|simpl in Hle; lia].
Qed.

Lemma cs_phase t (P : Z -> Prop) : t ≠ t0 -> inside (pc_of (ctl s) t) = true -> (forall a b, signal_step a b -> P a -> P b) ->
  phase_is s t P -> phase_is s' t P.
Proof.
  intros Hne Hin HP Ht wk' Hw'. pose proof (u_ctl _ _ HU) as HI. destruct (inside_live N _ HI t Hin) as (wk & Hw & _).
  specialize (Ht _ Hw). destruct (inside_phases N _ _ t t0 cmd wk wk' HI HI' HE) as [->|Hs]; try done. by eapply HP.
Qed.
Lemma cs_even t : t ≠ t0 -> inside (pc_of (ctl s) t) = true -> Z.even (gc_count (ctl s)) = true -> phase_is s' t not_sync2.
Proof.
  intros Hne Hin He. apply cs_phase; [done..| |].
  - apply signal_not_sync2.
  - intros wk Hw. pose proof (u_ctl _ _ HU) as HI. destruct (inside_live N _ HI t Hin) as (wk1 & Hw1 & Hd).
    assert (wk1 = wk) as -> by congruence. destruct (even_phases N _ HI He) as [_ H]. by rewrite (H t wk Hw Hd).
Qed.

Lemma cs_seen t y : t ≠ t0 -> inside (pc_of (ctl s) t) = true -> phase_is s t not_sync2 \/ y ∈ seen s -> phase_is s' t not_sync2 \/ y ∈ seen s'.
Proof.
  intros Hne Hin [H|H]; [left; by apply cs_phase; [..|apply signal_not_sync2|]|].
  destruct Hseen as [[-> _]|He]; [by right|left; by apply cs_even].
Qed.

Lemma cs_act t : t ≠ t0 -> act_ok s t (act_of s t) -> act_ok s' t (act_of s t).
Proof.
  intros Hne HA. assert (pc_of (ctl s') t = pc_of (ctl s) t) as Hp by (by apply HE).
  assert (pc_of (ctl s) t = InML -> inside (pc_of (ctl s) t) = true) as Hin by (by intros ->).
  destruct (act_of s t) as [| | | | |v|v ph|v|v|v|v|v|v] eqn:Ha; simpl in *; rewrite ?Hp, ?Hus; try done;
    intros v' [= <-]; destruct (HA v eq_refl) as (Hpc & Ht & Htop & x & Hx & Hm); (split_and!; [done..|]); exists x; (split; [done|]); simpl in *.
  - destruct Hm as [Ho Hph]. split; [done|]. intros H5. apply cs_phase; auto. apply signal_not_sync2.
  - destruct Hm as [Ho Hph]. split; [done|].
    cut ((phase_is s' t not_sync2 \/ m_thread v ∈ seen s') \/ being_visited s' (m_old v)); [tauto|]. destruct Hph as [Hph|[Hph|(t' & i & p & Hl)]].
    + left. apply cs_seen; auto.
    + left. apply cs_seen; auto.
    + right. exists t', i, p. destruct Hl; [left|right]; by apply cs_loop_keep.
  - destruct Hm as [Ho Hph]. split; [done|]. apply cs_phase; auto. apply signal_outside.
  - destruct Hm as [Ho Hph]. split; [done|]. apply cs_seen; auto.
  - destruct Hm as [Ho Hph]. split; [done|]. apply cs_seen; auto.
  - destruct Hm as [Ho Hph]. split; [done|]. apply cs_seen; auto.
Qed.

Lemma cs_users_count w wk n : workers (ctl s) !! w = Some wk -> (length (list_of (us s) w) + n <= wusers wk)%nat ->
  (acts_on (ctl s) t0 w -> loops s' !! t0 = None -> n = O) ->
  exists wk', workers (ctl s') !! w = Some wk' /\ (length (list_of (us s) w) + n <= wusers wk')%nat.
Proof.
  intros Hw Hle Hn. destruct (effect_workers _ _ _ _ HE w wk Hw) as (wk' & Hw' & HC). exists wk'. split; [done|].
  destruct (change_users _ _ _ _ _ _ _ HC) as [->|[(_ & _ & _ & ->)|(o & g & k & Ec & Hp & ->)]]; [lia..|].
  assert (acts_on (ctl s) t0 w) as Hon by (by exists g, k). destruct (Hgone w wk o Ec Hon Hw) as [Hl Hle'].
  rewrite (Hn Hon Hl). lia.
Qed.

Lemma control_inv : UInv N s'.
Proof.
  pose proof (u_ctl _ _ HU) as HI. split.
  - done.
  - intros y u Hc. apply cs_context in Hc. destruct (u_ctx _ _ HU y u Hc) as (x & w & wk & Hx & Hy & Hxw & Hw & Hd & Hf & Hf' & Hcov & Hb).
    destruct (cs_worker w wk u Hw Hd Hf) as (wk' & Hw' & Hd' & HC). exists x, w, wk'. rewrite Hus. split_and!; try done.
    + by apply cs_full.
    + intros w' Hw1. apply Hf'. by apply cs_full.
    + by apply (cs_covered y u w wk).
    + intros Hbx. destruct (Hb Hbx) as (b & t & Hh). exists b, t. by apply cs_holds.
  - intros t. rewrite Hacts. case_decide as E; [by subst|]. apply cs_act; [done|]. apply HU.
  - assert (forall t t' y, t ≠ t' -> runs (act_of s' t) = Some y -> runs (act_of s' t') = Some y -> t' ≠ t0) as H.
    { intros t t' y Hne H1 H2 ->. rewrite Hacts in H1, H2. rewrite decide_False in H1 by done. rewrite decide_True in H2 by done.
      destruct (Hruns y H2) as [H3|H3]; [apply Hne; by eapply (u_runs _ _ HU)|by eapply H3]. }
    intros t t' y H1 H2. destruct (decide (t = t')) as [|Hne]; [done|exfalso].
    pose proof (H t t' y Hne H1 H2) as Ht'. pose proof (H t' t y (not_eq_sym Hne) H2 H1) as Ht.
    rewrite Hacts, decide_False in H1 by done. rewrite Hacts, decide_False in H2 by done. apply Hne. by eapply (u_runs _ _ HU).
  - intros t lp Hl. pose proof (cs_loop t lp Hl) as Hl0. destruct (u_loop _ _ HU t lp Hl0) as (w & Hon & Hn & Hlp).
    exists w. rewrite Hus. assert (acts_on (ctl s') t w) as Hon'.
    { destruct (decide (t = t0)) as [->|Hne]; [|unfold acts_on in *; by rewrite (effect_pcs _ _ _ _ HE) by done].
      destruct Hloops as [[_ H]|[_ H]]; [by apply H|]. rewrite H, lookup_delete_eq in Hl. done. }
    split_and!; [done| |].
    + intros wk' Hw'. destruct (acts_on_phase N _ _ _ HI Hon) as (wk & Hw & _).
      destruct (cs_users_count w wk _ Hw (Hn _ Hw)) as (wk2 & Hw2 & Hle); [|congruence].
      intros Hon0 Hnone. pose proof (acts_on_unique N _ _ _ _ HI Hon Hon0) as ->. congruence.
    + destruct lp as [| | |i p u|]; try done. destruct Hlp as (Hi & x & Hx & Hs). split; [done|]. exists x. split; [done|].
      destruct Hseen as [[-> _]|He]; [done|]. destruct (even_phases N _ HI He) as [Hidle _]. destruct Hon as (g & k & Hp). by destruct (Hidle _ _ _ _ _ Hp).
  - intros w u Hf. apply cs_full in Hf. destruct (u_list _ _ HU w u Hf) as (x & Hx & Hc). exists x. rewrite Hus. split; [done|].
    intros E. by apply cs_context, Hc.
  - rewrite Hus. apply HU.
  - intros b b' t t' u H1 H2. apply cs_holds in H1, H2. by eapply (u_holds _ _ HU).
  - intros b t u H1. apply cs_holds in H1. rewrite Hus. by apply (u_busy _ _ HU b t).
  - rewrite Hus. intros w Hne. destruct (u_count _ _ HU w Hne) as (wk & Hw & Hle).
    destruct (cs_users_count w wk 0 Hw) as (wk' & Hw' & Hle'); [lia|auto..|]. exists wk'. split; [done|lia].
Qed.
End ControlStep.

(** ** More user threads seen *)
Lemma seen_inv N s S L : UInv N s -> UInv N (System (ctl s) (us s) (acts s) (loops s) (S ∪ seen s) (L ∪ late s)).
Proof.
  intros HU. set (s' := System _ _ _ _ _ _).
  assert (forall y, y ∈ seen s -> y ∈ seen s') as Hs by (simpl; set_solver).
  split.
  - apply HU.
  - intros y u Hc. destruct (u_ctx _ _ HU y u Hc) as (x & w & wk & Hx & Hy & Hxw & Hw & Hd & Hf & Hf' & Hcov & Hb).
    exists x, w, wk. split_and!; try done. destruct Hcov as [?|[?|[?|?]]]; [by left|right; left; auto|right; right; left; simpl; set_solver|by right; right; right].
  - intros t. pose proof (u_act _ _ HU t) as HA. unfold act_of in *. simpl.
    destruct (default Out (acts s !! t)) as [| | | | |v|v ph|v|v|v|v|v|v]; try done;
      intros v' [= <-]; destruct (HA v eq_refl) as (Hpc & Ht & Htop & x & Hx & Hm); (split_and!; [done..|]); exists x; (split; [done|]); simpl in Hm |- *;
      naive_solver.
  - apply HU.
  - intros t lp Hl. destruct (u_loop _ _ HU t lp Hl) as (w & Hon & Hn & Hlp). exists w. split_and!; [done..|].
    destruct lp; try done. destruct Hlp as (? & x & ? & ?). split; [done|]. exists x. split; [done|]. by apply Hs.
  - apply HU.
  - apply HU.
  - apply HU.
  - apply HU.
  - apply HU.
Qed.

(** ** What a user thread has for itself *)
Section LocalStep.
Context (N : Z) (s s' : system) (t0 y0 : nat) (a : uact).
Context (HU : UInv N s) (Hctl : ctl s' = ctl s) (Hloops : loops s' = loops s) (Hseen : seen s' = seen s) (Hlate : late s' = late s).
Context (Hlists : forall w, list_of (us s') w = list_of (us s) w).
Context (Husers : forall u x, users (us s) !! u = Some x -> exists x', users (us s') !! u = Some x' /\ uthread x' = uthread x /\
  busy x' = busy x /\ (uthread x ≠ y0 -> x' = x)).
Context (Hdom : forall u x', users (us s') !! u = Some x' -> is_Some (users (us s) !! u)).
Context (Htlv : forall y, y ≠ y0 -> tlv (us s') !! y = tlv (us s) !! y).
Context (Hstack : forall y, y ≠ y0 -> stack_of (us s') y = stack_of (us s) y).
Context (Hcur : forall t, t ≠ t0 -> current (us s') !! t = current (us s) !! t).
Context (Hacts : acts_step t0 a s s').
Context (Honly : forall t, runs (act_of s t) = Some y0 -> t = t0) (Hold : forall y, runs (act_of s t0) = Some y -> y = y0)
  (Hruns : forall y, runs a = Some y -> y = y0).
Context (Hholds : act_holds a = act_holds (act_of s t0)).
Context (Hok : act_ok s' t0 a).
Context (Htlv0 : forall u, tlv (us s') !! y0 = Some u -> exists x, users (us s') !! u = Some x /\ uthread x = y0 /\ head_open (us s') x false).
Context (Hctx0 : forall u, context s' y0 u -> context s y0 u /\
  forall x x', users (us s) !! u = Some x -> users (us s') !! u = Some x' -> uworker x' = uworker x).
Context (Hlist0 : forall w u x', users (us s') !! u = Some x' -> uthread x' = y0 -> uworker x' = Some w -> full s w u -> context s' y0 u).
Context (Hmoved : forall t u, moved (act_of s' t) = Some u -> moved (act_of s t) = Some u \/ exists x, users (us s) !! u = Some x /\ uthread x = y0).
Context (Hmoved' : forall t u, moved (act_of s t) = Some u -> moved (act_of s' t) = Some u \/ exists x, users (us s) !! u = Some x /\ uthread x = y0).
Context (Hvisit : forall t i p u x x', loops s !! t = Some (Visiting i p u) -> users (us s) !! u = Some x -> users (us s') !! u = Some x' -> uworker x' = uworker x).

Lemma ls_other t y : t ≠ t0 -> runs (act_of s t) = Some y -> y ≠ y0.
Proof. intros Hne Hr ->. by apply Honly in Hr. Qed.

Lemma ls_full w u : full s' w u <-> full s w u.
Proof. unfold full. by rewrite Hlists, Hctl, Hloops. Qed.
Lemma ls_holds b t u : holds s' b t = Some u <-> holds s b t = Some u.
Proof. destruct b; simpl; [by rewrite Hloops|]. rewrite Hacts. case_decide as E; [subst; by rewrite Hholds|done]. Qed.

Lemma user_runs b y : user_of b = Some y -> runs b = Some y.
Proof. by destruct b. Qed.
Lemma mover_runs b v : mover b = Some v -> runs b = Some (m_thread v).
Proof. destruct b; simpl; congruence. Qed.

Lemma ls_context y u : y ≠ y0 -> (exists x, users (us s) !! u = Some x /\ uthread x = y) -> context s' y u <-> context s y u.
Proof.
  intros Hy (x & Hx & Hxy). unfold context. rewrite Htlv by done. split; (intros [[H1 H2]|(t & H1 & H2)]; [left|right; exists t]).
  - split; [done|]. intros t Hm. destruct (Hmoved' t u Hm) as [?|(x' & ? & ?)]; [by apply (H2 t)|congruence].
  - assert (t ≠ t0) as Hne by (intros ->; rewrite Hacts, decide_True in H1 by done; by apply user_runs, Hruns in H1).
    rewrite Hcur in H2 by done. rewrite Hacts, decide_False in H1 by done. done.
  - split; [done|]. intros t Hm. destruct (Hmoved t u Hm) as [?|(x' & ? & ?)]; [by apply (H2 t)|congruence].
  - assert (t ≠ t0) as Hne by (intros ->; by apply user_runs, Hold in H1).
    rewrite Hcur by done. rewrite Hacts, decide_False by done. done.
Qed.

(** The context of another thread is not touched. *)
Lemma ls_other_user y u x : y ≠ y0 -> users (us s) !! u = Some x -> uthread x = y -> users (us s') !! u = Some x.
Proof. intros Hy Hx Hxy. destruct (Husers u x Hx) as (x' & Hx' & _ & _ & E). rewrite E in Hx'; [done|congruence]. Qed.

Lemma ls_thread y u : context s' y u -> exists x, users (us s) !! u = Some x /\ uthread x = y.
Proof.
  destruct (decide (y = y0)) as [->|Hne].
  - intros Hc. destruct (Hctx0 u Hc) as [Hc' _]. destruct (u_ctx _ _ HU _ _ Hc') as (x & _ & _ & ? & ? & _). eauto.
  - intros [[H1 _]|(t & H1 & H2)].
    + rewrite Htlv in H1 by done. destruct (u_tlv _ _ HU _ _ H1) as (x & ? & ? & _). eauto.
    + assert (t ≠ t0) as Ht by (intros ->; rewrite Hacts, decide_True in H1 by done; by apply user_runs, Hruns in H1).
      rewrite Hcur in H2 by done. rewrite Hacts, decide_False in H1 by done. pose proof (u_act _ _ HU t) as HA.
      destruct (act_of s t); try done. simpl in H1. injection H1 as ->. destruct HA as (_ & _ & (u' & x & ? & ? & ? & _) & _).
      exists x. split; congruence.
Qed.

Lemma ls_act t : t ≠ t0 -> act_ok s t (act_of s t) -> act_ok s' t (act_of s t).
Proof.
  intros Hne HA. pose proof (ls_other t) as Hoth.
  assert (forall y u x, y ≠ y0 -> tlv (us s) !! y = Some u -> users (us s) !! u = Some x -> uthread x = y /\ users (us s') !! u = Some x) as Htx.
  { intros y u x Hy Ht Hx. destruct (u_tlv _ _ HU _ _ Ht) as (x' & Hx' & E & _). assert (x' = x) as -> by congruence. split; [done|]. by eapply ls_other_user. }
  assert (forall y u fp, y ≠ y0 -> tlv (us s) !! y = Some u -> top_is (us s) u fp -> top_is (us s') u fp) as Htop.
  { intros y u fp Hy Ht. apply top_is_ext. intros x Hx. destruct (Htx y u x Hy Ht Hx) as [E Hx']. exists x. rewrite E. split_and!; auto. }
  destruct (act_of s t) as [|y fp|y sv cl| |y fp|v|v ph|v|v|v|v|v|v] eqn:Ha; simpl in *; try done;
    try (specialize (Hoth _ Hne eq_refl));
    try (intros v' [= <-]; destruct (HA v eq_refl) as (Hpc & Ht & Htp & x & Hx & Hm); destruct (Htx _ _ _ Hoth Ht Hx) as [_ Hx'];
         rewrite Hctl, Htlv by done; (split_and!; [done|done|by eapply Htop|]); exists x; (split; [done|]);
         unfold mover_ok, phase_is, being_visited in *; by rewrite ?Hctl, ?Hseen, ?Hloops).
  - destruct HA as [? HA]. split; [done|]. rewrite Htlv by done. intros u x' Hu Hx'. destruct (Hdom u x' Hx') as [x Hx].
    destruct (Htx y u x Hoth Hu Hx) as [_ Hx2]. assert (x' = x) as -> by congruence. by eapply HA.
  - destruct HA as (H1 & H2 & (u & x & H3 & H4 & H5 & H6 & H7) & H8). rewrite Hctl, Htlv, Hcur by done. split_and!; try done.
    exists u, x. split_and!; try done; [by eapply ls_other_user|]. apply (head_open_ext (us s) (us s') x x); try done. rewrite H5. auto.
  - destruct HA as (u & H1 & H2). exists u. rewrite Htlv by done. split; [done|]. by eapply Htop.
Qed.

Lemma local_inv : UInv N s'.
Proof.
  split.
  - rewrite Hctl. apply HU.
  - intros y u Hc. destruct (ls_thread y u Hc) as (x0 & Hx0 & Hy0).
    assert (context s y u /\ exists x', users (us s') !! u = Some x' /\ uthread x' = uthread x0 /\ busy x' = busy x0 /\ uworker x' = uworker x0) as [Hc0 (x' & Hx' & E1 & E2 & E3)].
    { destruct (Husers u x0 Hx0) as (x' & Hx' & E1 & E2 & E3). destruct (decide (y = y0)) as [->|Hne].
      - destruct (Hctx0 u Hc) as [Hc0 Hw]. split; [done|]. exists x'. split_and!; auto.
      - split; [by apply (ls_context y u Hne); eauto|]. exists x'. rewrite E3 by congruence. by rewrite E3 in Hx' by congruence. }
    destruct (u_ctx _ _ HU y u Hc0) as (x & w & wk & Hx & Hy & Hxw & Hw & Hd & Hf & Hf' & Hcov & Hb).
    assert (x0 = x) as -> by congruence. exists x', w, wk. rewrite Hctl. split_and!; try done; try congruence.
    + by apply ls_full.
    + intros w' H. by apply Hf', ls_full.
    + unfold covered in *. by rewrite Hctl, Hseen, Hlate, Hlists, Hloops.
    + intros Hbx. rewrite E2 in Hbx. destruct (Hb Hbx) as (b & t & H). exists b, t. by apply ls_holds.
  - intros t. rewrite Hacts. case_decide as E; [by subst|]. apply ls_act; [done|]. apply HU.
  - intros t t' y H1 H2. rewrite Hacts in H1, H2. destruct (decide (t = t0)) as [->|Ht], (decide (t' = t0)) as [->|Ht']; [done|..].
    + apply Hruns in H1 as ->. symmetry. by apply Honly.
    + apply Hruns in H2 as ->. by apply Honly.
    + by eapply (u_runs _ _ HU).
  - intros t lp Hl. rewrite Hloops in Hl. destruct (u_loop _ _ HU t lp Hl) as (w & Hon & Hn & Hlp). exists w. rewrite Hctl, Hlists. split_and!; [done..|].
    destruct lp as [| |i p u|i p u|]; try done.
    + destruct Hlp as (? & x & Hx & Hw). split; [done|]. destruct (Husers u x Hx) as (x' & Hx' & _). exists x'. split; [done|].
      rewrite <- Hw. by eapply Hvisit.
    + destruct Hlp as (? & x & Hx & Hw). split; [done|]. destruct (Husers u x Hx) as (x' & Hx' & E & _). exists x'. rewrite E, Hseen. done.
  - intros w u Hf. apply ls_full in Hf. destruct (u_list _ _ HU w u Hf) as (x & Hx & Hc). destruct (Husers u x Hx) as (x' & Hx' & E1 & _ & E).
    exists x'. split; [done|]. intros Hw. destruct (decide (uthread x = y0)) as [Ey|Hne].
    + rewrite E1, Ey. eapply Hlist0; [done|congruence|done|done].
    + rewrite E in Hw |- * by done. apply ls_context; eauto.
  - intros y u Ht. destruct (decide (y = y0)) as [->|Hne]; [auto|]. rewrite Htlv in Ht by done.
    destruct (u_tlv _ _ HU _ _ Ht) as (x & Hx & Hy & Ho). exists x. split_and!; [by eapply ls_other_user|done|].
    apply (head_open_ext (us s) (us s') x x); try done. rewrite Hy. auto.
  - intros b b' t t' u H1 H2. apply ls_holds in H1, H2. by eapply (u_holds _ _ HU).
  - intros b t u H1. apply ls_holds in H1. destruct (u_busy _ _ HU b t u H1) as (x & Hx & Hb).
    destruct (Husers u x Hx) as (x' & Hx' & _ & E & _). exists x'. by rewrite E.
  - intros w. rewrite Hlists, Hctl. apply HU.
Qed.
End LocalStep.

(** ** Locks and loops

    The flags of the user [u0] change, and with them the holder; a loop
    changes the list of its worker. *)
Section LockStep.
Context (N : Z) (s s' : system).
Context (HU : UInv N s) (Hctl : ctl s' = ctl s) (Hseen : seen s' = seen s) (Hlate : late s' = late s).
Context (Htlv : tlv (us s') = tlv (us s)) (Hstacks : stacks (us s') = stacks (us s)) (Hcur : current (us s') = current (us s)).
Context (Husers : forall u x, users (us s) !! u = Some x -> exists f, users (us s') !! u = Some (set_uflags f x)).
Context (Hdom : forall u x', users (us s') !! u = Some x' -> is_Some (users (us s) !! u)).
Context (Huser : forall t, user_of (act_of s' t) = user_of (act_of s t)) (Hmoved : forall t, moved (act_of s' t) = moved (act_of s t))
  (Hruns : forall t, runs (act_of s' t) = runs (act_of s t)).
Context (Hact : forall t, act_of s' t = act_of s t \/ act_ok s' t (act_of s' t)).
Context (Hfull : forall w u, full s' w u -> full s w u).
Context (Hfull' : forall y u w, context s y u -> full s w u -> full s' w u).
Context (Hcov : forall y u w wk, context s y u -> workers (ctl s) !! w = Some wk -> full s w u ->
  covered s y u w (PHASE (wstate wk)) -> covered s' y u w (PHASE (wstate wk))).
Context (Hloop : forall t lp, loops s' !! t = Some lp -> loop_ok s' t lp).
Context (Hvis : forall y u, context s y u -> being_visited s u -> being_visited s' u \/ y ∈ seen s).
Context (Hholds : forall b b' t t' u, holds s' b t = Some u -> holds s' b' t' = Some u -> b = b' /\ t = t').
Context (Hbusy : forall b t u, holds s' b t = Some u -> exists x, users (us s') !! u = Some x /\ busy x = true).
Context (Hbusy' : forall y u x, context s y u -> users (us s') !! u = Some x -> busy x = true -> exists b t, holds s' b t = Some u).
Context (Hcount : forall w, list_of (us s') w ≠ [] -> exists wk, workers (ctl s) !! w = Some wk /\ (length (list_of (us s') w) <= wusers wk)%nat).

Lemma lk_context y u : context s' y u <-> context s y u.
Proof. unfold context. rewrite Htlv, Hcur. setoid_rewrite Huser. setoid_rewrite Hmoved. done. Qed.
Lemma lk_user u x' : users (us s') !! u = Some x' -> exists x f, users (us s) !! u = Some x /\ x' = set_uflags f x.
Proof. intros Hx. destruct (Hdom u x' Hx) as [x Hx0]. destruct (Husers u x Hx0) as [f Hf]. exists x, f. split; congruence. Qed.
Lemma lk_stack y : stack_of (us s') y = stack_of (us s) y.
Proof. unfold stack_of. by rewrite Hstacks. Qed.
Lemma lk_head x f b : head_open (us s) x b -> head_open (us s') (set_uflags f x) b.
Proof. apply head_open_ext; [done..|apply lk_stack]. Qed.
Lemma lk_top u fp : top_is (us s) u fp -> top_is (us s') u fp.
Proof. apply top_is_ext. intros x Hx. destruct (Husers u x Hx) as [f Hf]. exists (set_uflags f x). split_and!; try done. apply lk_stack. Qed.

Lemma lk_act t : act_ok s t (act_of s t) -> act_ok s' t (act_of s t).
Proof.
  intros HA. destruct (act_of s t) as [|y fp|y sv cl| |y fp|v|v ph|v|v|v|v|v|v] eqn:Ha; simpl in *; try done;
    try (intros v' [= <-]; destruct (HA v eq_refl) as (Hpc & Ht & Htp & x & Hx & Hm); destruct (Husers _ x Hx) as [f Hf];
         rewrite Hctl, Htlv; (split_and!; [done|done|by apply lk_top|]); exists (set_uflags f x); (split; [done|]);
         unfold mover_ok, phase_is in *; rewrite ?Hctl, ?Hseen; try done).
  - rewrite Htlv. destruct HA as [? HA]. split; [done|]. intros u x' Hu Hx'. destruct (lk_user u x' Hx') as (x & f & Hx & ->). exact (HA u x Hu Hx).
  - rewrite Htlv, Hctl, Hcur. destruct HA as (H1 & H2 & (u & x & H3 & H4 & H5 & H6 & H7) & H8). split_and!; try done.
    destruct (Husers u x H4) as [f Hf]. exists u, (set_uflags f x). split_and!; try done. by apply lk_head.
  - rewrite Htlv. destruct HA as (u & Hu & Htp). exists u. split; [done|]. by apply lk_top.
  - destruct Hm as [? [?|[?|Hb]]]; (split; [done|]); [by left|by right; left|].
    assert (context s (m_thread v) (m_old v)) as Hc by (apply (mover_context N s t); [done|by rewrite Ha|by rewrite Ha]).
    destruct (Hvis _ _ Hc Hb) as [?|?]; tauto.
Qed.

Lemma lock_inv : UInv N s'.
Proof.
  split.
  - rewrite Hctl. apply HU.
  - intros y u Hc. apply lk_context in Hc. destruct (u_ctx _ _ HU y u Hc) as (x & w & wk & Hx & Hy & Hxw & Hw & Hd & Hf & Hf' & Hcv & Hb).
    destruct (Husers u x Hx) as [f Hf0]. exists (set_uflags f x), w, wk. rewrite Hctl. split_and!; try done; eauto.
  - intros t. destruct (Hact t) as [->|]; [|done]. apply lk_act, HU.
  - intros t t' y. rewrite !Hruns. apply HU.
  - done.
  - intros w u Hf. apply Hfull in Hf. destruct (u_list _ _ HU w u Hf) as (x & Hx & Hc). destruct (Husers u x Hx) as [f Hf0].
    exists (set_uflags f x). split; [done|]. intros Hw. by apply lk_context, Hc.
  - intros y u Ht. rewrite Htlv in Ht. destruct (u_tlv _ _ HU _ _ Ht) as (x & Hx & Hy & Ho). destruct (Husers u x Hx) as [f Hf0].
    exists (set_uflags f x). split_and!; try done. by apply lk_head.
  - done.
  - done.
  - rewrite Hctl. done.
Qed.
End LockStep.

Lemma busy_set x : busy (set_uflags (Z.lor (uflags x) BUSY_FLAG) x) = true.
Proof.
  unfold busy, BUSY_FLAG. simpl. rewrite Z.land_lor_distr_l. replace (Z.land 1 1) with 1 by done.
  apply negb_true_iff, Z.eqb_neq. intros H. apply Z.lor_eq_0_iff in H as [_ H]. done.
Qed.
Lemma busy_zero x : busy (set_uflags 0 x) = false.
Proof. done. Qed.

(** The lock of a user in [sml_enter]. *)
Lemma act_lock_inv N s t0 u0 x0 f a : UInv N s -> users (us s) !! u0 = Some x0 ->
  (act_holds (act_of s t0) = None /\ act_holds a = Some u0 /\ busy x0 = false /\ busy (set_uflags f x0) = true \/
   act_holds (act_of s t0) = Some u0 /\ act_holds a = None /\ busy (set_uflags f x0) = false) ->
  user_of a = user_of (act_of s t0) -> moved a = moved (act_of s t0) -> runs a = runs (act_of s t0) ->
  act_ok (set_act t0 a (set_us (put_user u0 (set_uflags f x0) (us s)) s)) t0 a ->
  UInv N (set_act t0 a (set_us (put_user u0 (set_uflags f x0) (us s)) s)).
Proof.
  intros HU Hx0 Hh Hu Hm Hr Hok. set (s' := set_act _ _ _) in *.
  assert (acts_step t0 a s s') as Hacts by (intros t; unfold s'; by rewrite act_set).
  assert (forall b t u, u ≠ u0 -> holds s' b t = Some u <-> holds s b t = Some u) as Hhold.
  { intros b t u Hne. destruct b; simpl; [done|]. rewrite Hacts. destruct (decide (t = t0)) as [->|]; [|done].
    destruct Hh as [(-> & -> & _)|(-> & -> & _)]; split; congruence. }
  assert (forall b t, holds s' b t = Some u0 -> b = false /\ t = t0 /\ busy (set_uflags f x0) = true) as Hhold0.
  { intros b t H. destruct Hh as [(Hn & Ha & Hb & Hb')|(Ho & Ha & Hb)].
    - assert (forall b t, holds s b t ≠ Some u0) as Hno by (intros b' t' H'; destruct (u_busy _ _ HU b' t' u0 H') as (x & ? & ?); congruence).
      destruct b; simpl in H; [by destruct (Hno true t)|]. rewrite Hacts in H. destruct (decide (t = t0)) as [->|]; [done|by destruct (Hno false t)].
    - exfalso. assert (holds s false t0 = Some u0) as H0 by done. destruct b; simpl in H.
      + by destruct (u_holds _ _ HU true false t t0 u0 H H0).
      + rewrite Hacts in H. destruct (decide (t = t0)) as [->|Hne]; [congruence|]. by destruct (u_holds _ _ HU false false t t0 u0 H H0). }
  apply (lock_inv N s s'); try done.
  - intros u x Hx. simpl. destruct (decide (u = u0)) as [->|Hne].
    + rewrite lookup_insert_eq. exists f. congruence.
    + rewrite lookup_insert_ne by done. exists (uflags x). by destruct x.
  - intros u x' Hx'. simpl in Hx'. apply lookup_insert_Some in Hx' as [[<- _]|[_ ?]]; eauto.
  - intros t. rewrite Hacts. destruct (decide (t = t0)) as [->|]; done.
  - intros t. rewrite Hacts. destruct (decide (t = t0)) as [->|]; done.
  - intros t. rewrite Hacts. destruct (decide (t = t0)) as [->|]; done.
  - intros t. rewrite Hacts. destruct (decide (t = t0)) as [->|]; [by right|by left].
  - intros t lp Hl. destruct (u_loop _ _ HU t lp Hl) as (w & Hon & Hn & Hlp). exists w. split_and!; [done..|].
    assert (forall u (P : user -> Prop), (forall x g, P (set_uflags g x) <-> P x) -> (exists x, users (us s) !! u = Some x /\ P x) -> exists x, users (us s') !! u = Some x /\ P x) as HP.
    { intros u P HP (x & Hx & Hp). simpl. destruct (decide (u = u0)) as [->|Hne]; [rewrite lookup_insert_eq|rewrite lookup_insert_ne by done; eauto].
      eexists. split; [done|]. apply HP. congruence. }
    destruct lp as [| |i p u|i p u|]; try done; destruct Hlp as [? Hlp]; (split; [done|]).
    + by apply (HP u (fun x => uworker x = Some w)).
    + by apply (HP u (fun x => uthread x ∈ seen s)).
  - intros y u _ Hv. by left.
  - intros b b' t t' u H1 H2. destruct (decide (u = u0)) as [->|Hne].
    + apply Hhold0 in H1 as (-> & -> & _). by apply Hhold0 in H2 as (-> & -> & _).
    + apply Hhold in H1, H2; [|done..]. by eapply (u_holds _ _ HU).
  - intros b t u H. destruct (decide (u = u0)) as [->|Hne].
    + apply Hhold0 in H as (_ & _ & Hb). simpl. rewrite lookup_insert_eq. eauto.
    + apply Hhold in H; [|done]. simpl. rewrite lookup_insert_ne by done. by apply (u_busy _ _ HU b t).
  - intros y u x Hc Hx Hb. simpl in Hx. apply lookup_insert_Some in Hx as [[<- <-]|[Hne Hx]].
    + destruct Hh as [(_ & Ha & _)|(_ & _ & Hb')]; [|congruence]. exists false, t0. simpl. by rewrite Hacts, decide_True.
    + destruct (u_ctx _ _ HU y u Hc) as (x1 & w & wk & Hx1 & _ & _ & _ & _ & _ & _ & _ & Hb1).
      assert (x1 = x) as -> by congruence. destruct (Hb1 Hb) as (b & t & H). exists b, t. by apply Hhold.
  - apply HU.
Qed.

(** ** The loop of [worker_sync2] *)
Definition pend (lp : option loop) : list nat := match lp with Some lp => loop_pending lp | None => [] end.

Lemma full_acting N s t0 w u : UInv N s -> acts_on (ctl s) t0 w -> full s w u <-> u ∈ list_of (us s) w ++ pend (loops s !! t0).
Proof.
  intros HU Hon. unfold full. rewrite elem_of_app. split; intros [H|H]; [by left| |by left|right].
  - destruct H as (t & lp & Hl & Ht & Hp). rewrite (acts_on_unique N _ _ _ _ (u_ctl _ _ HU) Hon Ht). rewrite Hl. by right.
  - destruct (loops s !! t0) as [lp|] eqn:E; [|by apply not_elem_of_nil in H]. exists t0, lp. by split_and!.
Qed.

(** What happens to the lock of [u0]: taken, given back, kept for ever when
    [u0] is nobody's context, or nothing. *)
Definition lock_change (s : system) (lp lp' : option loop) (u0 : nat) (x0 : user) (f : Z) : Prop :=
  (loop_holds lp' = loop_holds lp /\ f = uflags x0) \/
  (loop_holds lp = None /\ loop_holds lp' = Some u0 /\ users (us s) !! u0 = Some x0 /\ busy x0 = false /\ busy (set_uflags f x0) = true) \/
  (loop_holds lp = Some u0 /\ loop_holds lp' = None /\ busy (set_uflags f x0) = false) \/
  (loop_holds lp = Some u0 /\ loop_holds lp' = None /\ f = uflags x0 /\ forall y, ~ context s y u0).

Section LoopStep.
Context (N : Z) (s s' : system) (t0 w : nat) (lp' : loop) (l' : list nat) (u0 : nat) (x0 : user) (f : Z).
Context (HU : UInv N s) (Hctl : ctl s' = ctl s) (Hseen : seen s' = seen s) (Hlate : late s' = late s) (Hacts : acts s' = acts s).
Context (Htlv : tlv (us s') = tlv (us s)) (Hstacks : stacks (us s') = stacks (us s)) (Hcur : current (us s') = current (us s)).
Context (Hon : acts_on (ctl s) t0 w).
Context (Hx0 : forall x, users (us s) !! u0 = Some x -> x = x0)
  (Husers : forall u x, users (us s) !! u = Some x -> users (us s') !! u = Some (if decide (u = u0) then set_uflags f x0 else x))
  (Hdom : forall u x', users (us s') !! u = Some x' -> is_Some (users (us s) !! u)).
Context (Hlw : list_of (us s') w = l') (Hlists : forall w', w' ≠ w -> list_of (us s') w' = list_of (us s) w').
Context (Hloops : loops s' = <[t0 := lp']> (loops s)).
Context (H1 : forall u, u ∈ l' ++ loop_pending lp' -> u ∈ list_of (us s) w ++ pend (loops s !! t0)).
Context (H2 : forall y u, context s y u -> u ∈ list_of (us s) w ++ pend (loops s !! t0) -> u ∈ l' ++ loop_pending lp').
Context (H3 : forall y u, context s y u -> u ∈ loop_ahead (list_of (us s) w) (loops s !! t0) -> u ∈ loop_ahead l' (Some lp') \/ y ∈ seen s).
Context (H4 : loop_ok s' t0 lp').
Context (H5 : lock_change s (loops s !! t0) (Some lp') u0 x0 f).
Context (H6 : forall y u i p, context s y u -> loops s !! t0 = Some (Checking i p u) \/ loops s !! t0 = Some (Visiting i p u) ->
  (exists i p, lp' = Checking i p u \/ lp' = Visiting i p u) \/ y ∈ seen s).

Lemma lp_act t : act_of s' t = act_of s t.
Proof. unfold act_of. by rewrite Hacts. Qed.
Lemma lp_full w1 u : full s' w1 u <-> if decide (w1 = w) then u ∈ l' ++ loop_pending lp' else full s w1 u.
Proof.
  unfold full. rewrite Hctl. case_decide as E.
  - subst w1. rewrite Hlw, elem_of_app. split; (intros [H|H]; [by left|right]).
    + destruct H as (t & lp & Hl & Ht & Hp). rewrite (acts_on_unique N _ _ _ _ (u_ctl _ _ HU) Ht Hon), Hloops, lookup_insert_eq in Hl. congruence.
    + exists t0, lp'. by rewrite Hloops, lookup_insert_eq.
  - rewrite Hlists by done. split; (intros [H|(t & lp & Hl & Ht & Hp)]; [by left|right; exists t, lp]).
    + rewrite Hloops, lookup_insert_ne in Hl; [by split_and!|]. intros <-. by apply E, (acts_on_fun (ctl s) t0).
    + rewrite Hloops, lookup_insert_ne; [by split_and!|]. intros <-. by apply E, (acts_on_fun (ctl s) t0).
Qed.
Lemma lp_user u x : users (us s) !! u = Some x -> exists g, users (us s') !! u = Some (set_uflags g x) /\ (u ≠ u0 -> set_uflags g x = x).
Proof.
  intros Hx. rewrite (Husers u x Hx). destruct (decide (u = u0)) as [->|Hne].
  - exists f. by rewrite (Hx0 x Hx).
  - exists (uflags x). by destruct x.
Qed.
Lemma lp_holds b t : (b, t) ≠ (true, t0) -> holds s' b t = holds s b t.
Proof. intros Hne. destruct b; simpl; [|by rewrite lp_act]. rewrite Hloops, lookup_insert_ne; congruence. Qed.
Lemma lp_holds0 : holds s' true t0 = loop_holds (Some lp').
Proof. simpl. by rewrite Hloops, lookup_insert_eq. Qed.
(** A holder after the step is one before, or the loop that takes the lock. *)
Lemma lp_holds_cases b t u : holds s' b t = Some u -> holds s b t = Some u \/ (b = true /\ t = t0 /\ u = u0 /\ users (us s) !! u0 = Some x0 /\ busy x0 = false /\ busy (set_uflags f x0) = true).
Proof.
  intros H. destruct (decide ((b, t) = (true, t0))) as [[= -> ->]|Hne]; [|left; by rewrite <- (lp_holds b t)].
  rewrite lp_holds0 in H. destruct H5 as [(E & _)|[(E1 & E2 & E3 & E4)|[(_ & E & _)|(_ & E & _)]]]; [|right|congruence..].
  - left. simpl. congruence.
  - split_and!; try tauto. congruence.
Qed.
Lemma lp_user0 x : users (us s) !! u0 = Some x -> users (us s') !! u0 = Some (set_uflags f x0).
Proof. intros Hx. by rewrite (Husers _ _ Hx), decide_True. Qed.

Lemma loop_inv : UInv N s'.
Proof.
  assert (forall b t, holds s b t = Some u0 -> busy x0 = true) as Hb0.
  { intros b t H. destruct (u_busy _ _ HU b t u0 H) as (x & Hx & Hb). by rewrite <- (Hx0 x Hx). }
  apply (lock_inv N s s'); try done; try (intros t; by rewrite lp_act).
  - intros u x Hx. destruct (lp_user u x Hx) as (g & Hg & _). eauto.
  - intros t. left. apply lp_act.
  - intros w1 u Hf. apply lp_full in Hf. case_decide as E; [|done]. subst. apply (full_acting N s t0 w u HU Hon). auto.
  - intros y u w1 Hc Hf. apply lp_full. case_decide as E; [|done]. subst. apply (full_acting N s t0 w u HU Hon) in Hf. eauto.
  - intros y u w1 wk Hc Hw Hf [?|[?|[?|(t & Ht & Ha)]]]; unfold covered; rewrite Hctl, Hseen, Hlate; try tauto.
    destruct (decide (w1 = w)) as [->|Hne].
    + rewrite (acts_on_unique N _ _ _ _ (u_ctl _ _ HU) Ht Hon) in Ha. destruct (H3 y u Hc Ha) as [Ha'|?]; [|tauto].
      right; right; right. exists t0. rewrite Hlw, Hloops, lookup_insert_eq. done.
    + right; right; right. exists t. rewrite Hlists, Hloops, lookup_insert_ne; try done. intros <-. by apply Hne, (acts_on_fun (ctl s) t0).
  - intros t lp Hl. rewrite Hloops in Hl. apply lookup_insert_Some in Hl as [[<- <-]|[Hne Hl]]; [done|].
    destruct (u_loop _ _ HU t lp Hl) as (w1 & Hon1 & Hn1 & Hlp). assert (w1 ≠ w) as Hw1 by (intros ->; by apply Hne, (acts_on_unique N (ctl s) _ _ w (u_ctl _ _ HU))).
    exists w1. rewrite Hctl, Hlists, Hseen by done. split_and!; [done..|].
    destruct lp as [| |i p u|i p u|]; try done; destruct Hlp as (? & x & Hx & ?); (split; [done|]);
      destruct (lp_user u x Hx) as (g & Hg & _); exists (set_uflags g x); done.
  - intros y u Hc (t & i & p & Hl). destruct (decide (t = t0)) as [->|Hne].
    + destruct (H6 y u i p Hc Hl) as [(i' & p' & He)|?]; [left|by right]. exists t0, i', p'. rewrite Hloops, lookup_insert_eq. destruct He as [->| ->]; tauto.
    + left. exists t, i, p. by rewrite Hloops, lookup_insert_ne.
  - intros b b' t t' u Ha Hb. apply lp_holds_cases in Ha as [Ha|(Eb & Et & Eu & _ & Hnb & _)], Hb as [Hb|(Eb' & Et' & Eu' & _ & Hnb' & _)].
    + by eapply (u_holds _ _ HU).
    + rewrite Eu' in Ha. apply Hb0 in Ha. congruence.
    + rewrite Eu in Hb. apply Hb0 in Hb. congruence.
    + by subst.
  - intros b t u H. pose proof H as H'. apply lp_holds_cases in H as [H|(-> & -> & -> & Hx & _ & Hb)].
    + destruct (u_busy _ _ HU b t u H) as (x & Hx & Hb). rewrite (Husers u x Hx). eexists. split; [done|].
      case_decide as E; [|done]. subst u. pose proof (Hx0 x Hx) as ->.
      destruct H5 as [(_ & ->)|[(_ & _ & _ & _ & ?)|[(Eo & En & _)|(_ & _ & -> & _)]]]; try done.
      exfalso. assert (holds s true t0 = Some u0) as Ho by done. destruct (u_holds _ _ HU _ _ _ _ _ H Ho) as [-> ->]. rewrite lp_holds0 in H'. congruence.
    + rewrite (lp_user0 _ Hx). eauto.
  - intros y u x Hc Hx Hb. destruct (u_ctx _ _ HU y u Hc) as (x1 & w1 & wk & Hx1 & _ & _ & _ & _ & _ & _ & _ & Hb1).
    rewrite (Husers u x1 Hx1) in Hx. injection Hx as Hx. destruct (decide (u = u0)) as [->|Hne].
    + pose proof (Hx0 x1 Hx1) as ->. rewrite <- Hx in Hb.
      destruct H5 as [(E & ->)|[(_ & E & _)|[(_ & _ & ?)|(_ & _ & _ & Hno)]]]; [|exists true, t0; by rewrite lp_holds0|congruence|by destruct (Hno y)].
      assert (busy x0 = true) as Hbx by (by destruct x0). destruct (Hb1 Hbx) as (b & t & Hh). exists b, t.
      destruct (decide ((b, t) = (true, t0))) as [Ed|Hd]; [|by rewrite lp_holds]. injection Ed as -> ->. rewrite lp_holds0, E. done.
    + subst x1. destruct (Hb1 Hb) as (b & t & Hh). exists b, t.
      destruct (decide ((b, t) = (true, t0))) as [Ed|Hd]; [|by rewrite lp_holds]. injection Ed as -> ->. simpl in Hh.
      destruct H5 as [(E & _)|[(E & _)|[(E & _)|(E & _)]]]; [rewrite lp_holds0; congruence|congruence..].
  - intros w1 Hne. destruct (decide (w1 = w)) as [->|Hw1].
    + destruct (acts_on_phase N _ _ _ (u_ctl _ _ HU) Hon) as (wk & Hw & _). exists wk. split; [done|].
      destruct H4 as (w' & Hon' & Hn & _). rewrite Hctl in Hon', Hn. rewrite <- (acts_on_fun _ _ _ _ Hon Hon') in Hn. specialize (Hn _ Hw). lia.
    + rewrite Hlists in Hne |- * by done. by apply (u_count _ _ HU).
Qed.
End LoopStep.

(** ** A new context *)
Section NewStep.
Context (N : Z) (s s' : system) (t0 y0 n : nat) (x0 : user).
Context (HU : UInv N s) (Hctl : ctl s' = ctl s) (Hloops : loops s' = loops s) (Hseen : seen s' = seen s) (Hlate : late s' = late s).
Context (Hfresh : users (us s) !! n = None) (Husers : users (us s') = <[n := x0]> (users (us s))).
Context (Hx0 : uthread x0 = y0 /\ uworker x0 = Some t0 /\ busy x0 = false).
Context (Hlist : list_of (us s') t0 = n :: list_of (us s) t0) (Hlists : forall w, w ≠ t0 -> list_of (us s') w = list_of (us s) w).
Context (Htlv0 : tlv (us s') !! y0 = None) (Htlv : forall y, y ≠ y0 -> tlv (us s') !! y = tlv (us s) !! y).
Context (Hstack : forall y, y ≠ y0 -> stack_of (us s') y = stack_of (us s) y).
Context (Hcur0 : current (us s') !! t0 = Some n) (Hcur : forall t, t ≠ t0 -> current (us s') !! t = current (us s) !! t).
Context (Hacts : acts_step t0 (InUser y0 false false) s s') (Hruns : runs (act_of s t0) = Some y0) (Hholds : act_holds (act_of s t0) = None).
Context (Hnone : forall u, ~ context s y0 u) (Hpc : pc_of (ctl s) t0 = InML) (Hhead : head_open (us s') x0 true).
Context (Hslack : forall wk, workers (ctl s) !! t0 = Some wk -> (length (list_of (us s) t0) < wusers wk)%nat).
Context (Hcov : phase_is s t0 not_sync2 \/ y0 ∈ seen s \/ y0 ∈ late s).
Context (Hmoved : forall u, moved (act_of s t0) = Some u -> exists x, users (us s) !! u = Some x /\ uthread x = y0).

Lemma nw_other t y : t ≠ t0 -> runs (act_of s t) = Some y -> y ≠ y0.
Proof. intros Hne Hr ->. by apply Hne, (u_runs _ _ HU _ _ _ Hr). Qed.
Lemma nw_user u x : users (us s) !! u = Some x -> users (us s') !! u = Some x /\ u ≠ n.
Proof. intros Hx. assert (u ≠ n) by congruence. by rewrite Husers, lookup_insert_ne. Qed.
Lemma nw_full w u : full s' w u <-> (w = t0 /\ u = n) \/ full s w u.
Proof.
  unfold full. rewrite Hctl, Hloops. destruct (decide (w = t0)) as [->|Hne].
  - rewrite Hlist, elem_of_cons. tauto.
  - rewrite Hlists by done. split; [by right|]. intros [[? _]|?]; done.
Qed.
Lemma nw_holds b t u : holds s' b t = Some u <-> holds s b t = Some u.
Proof. destruct b; simpl; [by rewrite Hloops|]. rewrite Hacts. case_decide as E; [subst; by rewrite Hholds|done]. Qed.

Lemma nw_context y u : context s' y u <-> (y = y0 /\ u = n) \/ (y ≠ y0 /\ context s y u).
Proof.
  split.
  - intros [[H1 H2]|(t & H1 & H2)].
    + assert (y ≠ y0) as Hy by congruence. right. split; [done|]. left. rewrite Htlv in H1 by done. split; [done|].
      intros t Hm. destruct (decide (t = t0)) as [->|Hne].
      * destruct (Hmoved _ Hm) as (x & Hx & Hxy). destruct (u_tlv _ _ HU _ _ H1) as (x' & Hx' & ? & _). congruence.
      * apply (H2 t). by rewrite Hacts, decide_False.
    + rewrite Hacts in H1. case_decide as E; [subst; left; simpl in H1; split; congruence|]. right. split.
      * apply (nw_other t); [done|]. by destruct (act_of s t).
      * right. exists t. rewrite <- Hcur by done. done.
  - intros [[-> ->]|[Hy [[H1 H2]|(t & H1 & H2)]]].
    + right. exists t0. by rewrite Hacts, decide_True.
    + left. rewrite Htlv by done. split; [done|]. intros t. rewrite Hacts. case_decide; [done|apply H2].
    + right. exists t. assert (t ≠ t0) as Hne by (intros ->; destruct (act_of s t0); simpl in *; congruence).
      by rewrite Hacts, Hcur, decide_False by done.
Qed.

Lemma nw_act t : t ≠ t0 -> act_ok s t (act_of s t) -> act_ok s' t (act_of s t).
Proof.
  intros Hne HA. pose proof (nw_other t) as Hoth.
  assert (forall y u fp, y ≠ y0 -> tlv (us s) !! y = Some u -> top_is (us s) u fp -> top_is (us s') u fp) as Htop.
  { intros y u fp Hy Ht. apply top_is_ext. intros x Hx. destruct (u_tlv _ _ HU _ _ Ht) as (x' & Hx' & E & _).
    assert (x' = x) as -> by congruence. exists x. rewrite E. split_and!; auto. by apply nw_user. }
  destruct (act_of s t) as [|y fp|y sv cl| |y fp|v|v ph|v|v|v|v|v|v] eqn:Ha; simpl in *; try done;
    try (specialize (Hoth _ Hne eq_refl));
    try (intros v' [= <-]; destruct (HA v eq_refl) as (Hp & Ht & Htp & x & Hx & Hm); destruct (nw_user _ _ Hx) as [Hx' _];
         rewrite Hctl, Htlv by done; (split_and!; [done|done|by eapply Htop|]); exists x; (split; [done|]);
         unfold mover_ok, phase_is, being_visited in *; by rewrite ?Hctl, ?Hseen, ?Hloops).
  - destruct HA as [? HA]. split; [done|]. rewrite Htlv by done. intros u x' Hu Hx'. destruct (u_tlv _ _ HU _ _ Hu) as (x & Hx & _).
    destruct (nw_user _ _ Hx) as [Hx2 _]. assert (x' = x) as -> by congruence. by eapply HA.
  - destruct HA as (H1 & H2 & (u & x & H3 & H4 & H5 & H6 & H7) & H8). rewrite Hctl, Htlv, Hcur by done. split_and!; try done.
    exists u, x. split_and!; try done; [by apply nw_user|]. apply (head_open_ext (us s) (us s') x x); try done. rewrite H5. auto.
  - destruct HA as (u & H1 & H2). exists u. rewrite Htlv by done. split; [done|]. by eapply Htop.
Qed.

Lemma new_inv : UInv N s'.
Proof.
  pose proof (u_ctl _ _ HU) as HI. assert (inside (pc_of (ctl s) t0) = true) as Hin by (by rewrite Hpc).
  assert (forall t, ~ acts_on (ctl s) t t0) as Hidle by (intros t; by apply (acts_on_InML N)).
  assert (forall w, ~ full s w n) as Hnf by (intros w Hf; destruct (u_list _ _ HU w n Hf) as (x & Hx & _); congruence).
  destruct Hx0 as (Hy0 & Hw0 & Hb0). split.
  - by rewrite Hctl.
  - intros y u Hc. apply nw_context in Hc as [[-> ->]|[Hy Hc]].
    + destruct (inside_live N _ HI t0 Hin) as (wk & Hw & Hd). exists x0, t0, wk. rewrite Hctl, Husers, lookup_insert_eq. split_and!; try done.
      * apply nw_full. by left.
      * intros w Hf. apply nw_full in Hf as [[? _]|Hf]; [done|by apply Hnf in Hf].
      * unfold covered. rewrite Hseen, Hlate. destruct Hcov as [Hph|?]; [left; by apply Hph|tauto].
      * congruence.
    + destruct (u_ctx _ _ HU y u Hc) as (x & w & wk & Hx & Hxy & Hxw & Hw & Hd & Hf & Hf' & Hcv & Hb).
      destruct (nw_user _ _ Hx) as [Hx' Hun]. exists x, w, wk. rewrite Hctl. split_and!; try done.
      * apply nw_full. by right.
      * intros w' H. apply nw_full in H as [[_ ->]|H]; [by apply Hnf in Hf|auto].
      * unfold covered in *. rewrite Hctl, Hseen, Hlate, Hloops. destruct Hcv as [?|[?|[?|(t & Ht & Ha)]]]; try tauto.
        right; right; right. exists t. split; [done|]. rewrite Hlists; [done|]. intros ->. by apply Hidle in Ht.
      * intros Hbx. destruct (Hb Hbx) as (b & t & H). exists b, t. by apply nw_holds.
  - intros t. rewrite Hacts. case_decide as E; [|by apply nw_act, HU]. subst. simpl. rewrite Hctl, Hpc. split_and!; try done.
    exists n, x0. rewrite Husers, lookup_insert_eq. split_and!; try done.
  - intros t t' y H1 H2. assert (forall t, runs (act_of s' t) = runs (act_of s t)) as Hr by (intros t1; rewrite Hacts; case_decide; subst; by rewrite ?Hruns).
    rewrite Hr in H1, H2. by eapply (u_runs _ _ HU).
  - intros t lp Hl. rewrite Hloops in Hl. destruct (u_loop _ _ HU t lp Hl) as (w & Hon & Hn & Hlp).
    assert (w ≠ t0) as Hne by (intros ->; by apply Hidle in Hon). exists w. rewrite Hctl, Hlists, Hseen by done. split_and!; [done..|].
    destruct lp as [| |i p u|i p u|]; try done; destruct Hlp as (? & x & Hx & ?); (split; [done|]); exists x; (split; [by apply nw_user|done]).
  - intros w u Hf. apply nw_full in Hf as [[-> ->]|Hf].
    + exists x0. rewrite Husers, lookup_insert_eq. split; [done|]. intros _. apply nw_context. by left.
    + destruct (u_list _ _ HU w u Hf) as (x & Hx & Hc). exists x. split; [by apply nw_user|]. intros Hw. apply nw_context. right.
      split; [|auto]. intros E. rewrite E in Hc. by destruct (Hnone u (Hc Hw)).
  - intros y u Ht. assert (y ≠ y0) as Hy by congruence. rewrite Htlv in Ht by done. destruct (u_tlv _ _ HU _ _ Ht) as (x & Hx & Hxy & Ho).
    exists x. split_and!; [by apply nw_user|done|]. apply (head_open_ext (us s) (us s') x x); try done. rewrite Hxy. auto.
  - intros b b' t t' u H1 H2. apply nw_holds in H1, H2. by eapply (u_holds _ _ HU).
  - intros b t u H. apply nw_holds in H. destruct (u_busy _ _ HU b t u H) as (x & Hx & Hb). exists x. split; [by apply nw_user|done].
  - intros w. rewrite Hctl. destruct (decide (w = t0)) as [->|Hne]; [|rewrite Hlists by done; apply HU].
    intros _. destruct (inside_live N _ HI t0 Hin) as (wk & Hw & _). exists wk. split; [done|]. rewrite Hlist. simpl. specialize (Hslack _ Hw). lia.
Qed.
End NewStep.

(** ** A thread that keeps its context

    The user thread [y0] is busy on [t0] and goes on there, or leaves, or
    comes back. *)
Lemma moved_thread N s t u : UInv N s -> moved (act_of s t) = Some u ->
  exists v x, mover (act_of s t) = Some v /\ m_old v = u /\ users (us s) !! u = Some x /\ uthread x = m_thread v /\ runs (act_of s t) = Some (m_thread v).
Proof.
  intros HU Hm. pose proof (u_act _ _ HU t) as HA.
  destruct (act_of s t) as [| | | | | | | | | | |v|v] eqn:Ha; try done; simpl in Hm; injection Hm as <-;
    destruct (HA v eq_refl) as (_ & Htl & _ & x & Hx & _); destruct (u_tlv _ _ HU _ _ Htl) as (x' & Hx' & Hy & _);
    exists v, x; split_and!; try done; congruence.
Qed.

Section SameContext.
Context (N : Z) (s s' : system) (t0 y0 u0 : nat) (x0 x0' : user) (a : uact).
Context (HU : UInv N s) (Hctl : ctl s' = ctl s) (Hloops : loops s' = loops s) (Hseen : seen s' = seen s) (Hlate : late s' = late s).
Context (Hlists : lists (us s') = lists (us s)).
Context (Hx0 : users (us s) !! u0 = Some x0) (Husers : users (us s') = <[u0 := x0']> (users (us s))).
Context (Hx0' : uthread x0' = uthread x0 /\ uflags x0' = uflags x0 /\ uworker x0' = uworker x0).
Context (Htlv : forall y, y ≠ y0 -> tlv (us s') !! y = tlv (us s) !! y).
Context (Hstack : forall y, y ≠ y0 -> stack_of (us s') y = stack_of (us s) y).
Context (Hcur : forall t, t ≠ t0 -> current (us s') !! t = current (us s) !! t).
Context (Hacts : acts_step t0 a s s') (Hruns0 : runs (act_of s t0) = Some y0) (Hruns : runs a = Some y0).
Context (Hholds : act_holds a = None /\ act_holds (act_of s t0) = None) (Hmoved : moved a = None /\ moved (act_of s t0) = None).
Context (Hctx : context s y0 u0).
Context (Hok : act_ok s' t0 a).
Context (Hwhere : (tlv (us s') !! y0 = None /\ user_of a = Some y0 /\ current (us s') !! t0 = Some u0) \/
  (tlv (us s') !! y0 = Some u0 /\ user_of a = None /\ head_open (us s') x0' false)).

Lemma sc_moved t : moved (act_of s' t) = moved (act_of s t).
Proof. rewrite Hacts. case_decide; [subst; by destruct Hmoved as [-> ->]|done]. Qed.
Lemma sc_not_moved t : moved (act_of s t) ≠ Some u0.
Proof.
  intros Hm. destruct (moved_thread N s t u0 HU Hm) as (v & x & _ & _ & Hx & Hxy & Hr).
  destruct (u_ctx _ _ HU _ _ Hctx) as (x1 & _ & _ & Hx1 & Hy & _). assert (m_thread v = y0) as E by congruence. rewrite E in Hr.
  rewrite (u_runs _ _ HU _ _ _ Hr Hruns0) in Hm. destruct Hmoved. congruence.
Qed.
Lemma sc_user_of t : user_of (act_of s' t) = Some y0 -> t = t0.
Proof.
  rewrite Hacts. case_decide as E; [done|]. intros Hu. assert (runs (act_of s t) = Some y0) as Hr by (by destruct (act_of s t)).
  by apply (u_runs _ _ HU _ _ _ Hr).
Qed.
Lemma sc_context u : context s' y0 u <-> u = u0.
Proof.
  destruct Hwhere as [(H1 & H2 & H3)|(H1 & H2 & _)]; split.
  - intros [[H _]|(t & Hu & Hc)]; [congruence|]. apply sc_user_of in Hu as ->. congruence.
  - intros ->. right. exists t0. by rewrite Hacts, decide_True.
  - intros [[H _]|(t & Hu & Hc)]; [congruence|]. pose proof (sc_user_of _ Hu) as ->. rewrite Hacts, decide_True in Hu by done. congruence.
  - intros ->. left. split; [done|]. intros t. rewrite sc_moved. apply sc_not_moved.
Qed.

Lemma same_context_inv : UInv N s'.
Proof.
  destruct (u_ctx _ _ HU _ _ Hctx) as (x1 & w1 & wk1 & Hx1 & Hy0 & _). assert (x1 = x0) as -> by congruence. clear Hx1.
  destruct Hx0' as (E1 & E2 & E3).
  assert (forall w, list_of (us s') w = list_of (us s) w) as Hl by (intros w; unfold list_of; by rewrite Hlists).
  assert (forall u x, users (us s) !! u = Some x -> exists x', users (us s') !! u = Some x' /\ uthread x' = uthread x /\ busy x' = busy x /\ uworker x' = uworker x /\ (uthread x ≠ y0 -> x' = x)) as Hus.
  { intros u x Hx. rewrite Husers. destruct (decide (u = u0)) as [->|Hne].
    - rewrite lookup_insert_eq. assert (x = x0) as -> by congruence. exists x0'. unfold busy. rewrite E2. split_and!; try done.
    - rewrite lookup_insert_ne by done. by exists x. }
  apply (local_inv N s s' t0 y0 a); try done.
  - intros u x Hx. destruct (Hus u x Hx) as (x' & ? & ? & ? & _ & ?). exists x'. by split_and!.
  - intros u x'. rewrite Husers. intros [[<- _]|[_ ?]]%lookup_insert_Some; eauto.
  - intros t Hr. by apply (u_runs _ _ HU _ _ _ Hr).
  - intros y Hr. congruence.
  - intros y Hr. congruence.
  - by destruct Hholds as [-> ->].
  - intros u Hu. destruct Hwhere as [(H1 & _)|(H1 & _ & H3)]; [congruence|]. assert (u = u0) as -> by congruence.
    exists x0'. rewrite Husers, lookup_insert_eq. split_and!; congruence || done.
  - intros u Hc. apply sc_context in Hc as ->. split; [done|]. intros x x' Hx Hx'. destruct (Hus _ _ Hx) as (x2 & Hx2 & _ & _ & E & _). congruence.
  - intros w u x' Hx' Hy Hw Hf. apply sc_context. destruct (u_list _ _ HU w u Hf) as (x & Hx & Hc). destruct (Hus _ _ Hx) as (x2 & Hx2 & Ey & _ & Ew & _).
    assert (x2 = x') as -> by congruence. eapply (context_fun N s y0); [done| |done]. rewrite <- Hy, Ey. apply Hc. congruence.
  - intros t u. rewrite sc_moved. by left.
  - intros t u. rewrite sc_moved. by left.
  - intros t i p u x x' _ Hx Hx'. destruct (Hus _ _ Hx) as (x2 & Hx2 & _ & _ & E & _). congruence.
Qed.
End SameContext.
