(* ===== verification/MigrationEvents.v ===== *)
(** * The events of user threads keep the invariant

    Every event of Migration.v, one lemma for each, from the frame lemmas of
    MigrationSteps.v.  [ugood] is the result of an event: no error, and the
    invariant. *)
From Stdlib Require Import ZArith Lia.
From stdpp Require Import base option list gmap relations.
From S2P Require Import Prelude Bits Layout Segment Alloc Control ControlFacts ControlInv ControlFrame ControlSteps ControlLead ControlChange ControlEffect ControlThms Users Migration MigrationInv MigrationSteps.

Local Open Scope Z_scope.

Definition ugood (N : Z) (r : res system) : Prop := exists s, r = Ok s /\ UInv N s.

Lemma ugood_ok N s : UInv N s -> ugood N (Ok s).
Proof. intros. by exists s. Qed.
#[export] Hint Resolve ugood_ok : runtime.

(** What [control_step] returns. *)
Lemma control_step_ok N s t cmd : 0 <= N < 2 ^ 32 - 1 -> Z.of_nat t < N -> UInv N s ->
  exists s1, control_step t cmd s = Ok s1 /\ exec (t, cmd) (ctl s) = Ok (ctl s1) /\ Inv N (ctl s1) /\ effect t cmd (ctl s) (ctl s1) /\
    us s1 = us s /\ acts s1 = acts s /\ loops s1 = loops s /\
    ((seen s1 = seen s /\ late s1 = late s) \/ Z.even (gc_count (ctl s)) = true).
Proof.
  intros HN Ht HU. pose proof (u_ctl _ _ HU) as HI. destruct (exec_inv N (ctl s) (t, cmd) HN Ht HI) as (c & Hc & HI').
  unfold control_step. rewrite Hc. cbn [mbind res_bind]. eexists. split; [done|]. simpl. split_and!; try done.
  - by eapply exec_effect.
  - destruct (Z.even (gc_count (ctl s))) eqn:He; [by right|by left].
Qed.

(** An event that is a step of the handshake outside of an action of
    SYNC2. *)
Lemma control_good N s t0 cmd a : 0 <= N < 2 ^ 32 - 1 -> Z.of_nat t0 < N -> UInv N s ->
  (forall w, ~ acts_on (ctl s) t0 w) ->
  user_of a = user_of (act_of s t0) -> moved a = moved (act_of s t0) -> act_holds a = act_holds (act_of s t0) ->
  (forall y, runs a = Some y -> runs (act_of s t0) = Some y \/ forall t, runs (act_of s t) ≠ Some y) ->
  (forall s', us s' = us s -> exec (t0, cmd) (ctl s) = Ok (ctl s') -> act_ok s' t0 a) ->
  exists s1, control_step t0 cmd s = Ok s1 /\ UInv N (set_act t0 a s1).
Proof.
  intros HN Ht HU Hno Hu Hm Hh Hr Hok. destruct (control_step_ok N s t0 cmd HN Ht HU) as (s1 & H1 & Hc & HI & HE & Hus & Hacts & Hloops & Hs).
  exists s1. split; [done|]. apply (control_inv N s (set_act t0 a s1) t0 cmd a); try done.
  - intros t. rewrite act_set. case_decide; [done|]. unfold act_of. by rewrite Hacts.
  - by apply Hok.
  - left. split; [done|]. intros w Hw. by apply Hno in Hw.
  - intros w wk o _ Hw. by apply Hno in Hw.
Qed.

Lemma set_act_same s t : act_of s t ≠ Out -> set_act t (act_of s t) s = s.
Proof.
  intros H. destruct s as [c u a l S L]. unfold set_act, act_of in *. simpl in *. f_equal. destruct (a !! t) eqn:E; [|done]. simpl. by apply insert_id.
Qed.

Lemma acts_on_pc s t w : acts_on (ctl s) t w -> exists g k, pc_of (ctl s) t = Act w PRESYNC2 g k.
Proof. done. Qed.

(** An invariant of a state is one of a state with the same threads. *)
Lemma set_act_id N s t : UInv N (set_act t (act_of s t) s) -> UInv N s.
Proof.
  intros HU. destruct (act_of s t) eqn:E; [|by rewrite <- E, set_act_same in HU by (by rewrite E)..].
  destruct HU. split; try done.
  all: assert (forall t', act_of (set_act t Out s) t' = act_of s t') as Ha by (intros t'; rewrite act_set; case_decide; subst; done).
  - intros y u Hc. unfold context, context_ok, covered, full in *. setoid_rewrite Ha in u_ctx.
    destruct (u_ctx y u Hc) as (x & w & wk & H). exists x, w, wk. unfold holds in *. setoid_rewrite Ha in H. exact H.
  - intros t'. specialize (u_act t'). rewrite Ha in u_act. exact u_act.
  - intros t' t'' y. rewrite <- (Ha t'), <- (Ha t''). apply u_runs.
  - intros w u Hf. destruct (u_list w u Hf) as (x & Hx & Hc). exists x. split; [done|]. intros Hw. specialize (Hc Hw).
    unfold context in *. setoid_rewrite Ha in Hc. exact Hc.
  - intros b b' t' t'' u. specialize (u_holds b b' t' t'' u). unfold holds in *. by rewrite !Ha in u_holds.
  - intros b t' u. specialize (u_busy b t' u). unfold holds in *. by rewrite Ha in u_busy.
Qed.

(** The thread goes on with what it does. *)
Lemma control_stay N s t0 cmd : 0 <= N < 2 ^ 32 - 1 -> Z.of_nat t0 < N -> UInv N s ->
  (forall w, ~ acts_on (ctl s) t0 w) ->
  (forall s', us s' = us s -> exec (t0, cmd) (ctl s) = Ok (ctl s') -> act_ok s' t0 (act_of s t0)) ->
  ugood N (control_step t0 cmd s).
Proof.
  intros HN Ht HU Hno Hok. destruct (control_good N s t0 cmd (act_of s t0) HN Ht HU Hno) as (s1 & H1 & HU1); try done.
  - intros y Hy. by left.
  - exists s1. split; [done|]. unfold control_step in H1. res_inv. apply (set_act_id N _ t0). exact HU1.
Qed.

Lemma elsewhere_false s y : elsewhere s y = false -> forall t, runs (act_of s t) ≠ Some y.
Proof.
  intros H t Hr. unfold elsewhere in H. apply negb_false_iff, bool_decide_eq_true in H. unfold act_of in Hr.
  destruct (acts s !! t) as [a|] eqn:E; [|done]. by apply (H t a).
Qed.

Lemma outside_no_acts s t w : pc_of (ctl s) t = Outside -> ~ acts_on (ctl s) t w.
Proof. intros H (g & k & H'). congruence. Qed.
Lemma inml_no_acts s t w : pc_of (ctl s) t = InML -> ~ acts_on (ctl s) t w.
Proof. intros H (g & k & H'). congruence. Qed.
#[export] Hint Resolve outside_no_acts inml_no_acts : runtime.

(** ** Stacks *)
Lemma stack_of_put y l st : stack_of (put_stack y l st) y = l.
Proof. unfold stack_of, put_stack. simpl. by rewrite lookup_insert_eq. Qed.
Lemma stack_of_put_ne y y' l st : y' ≠ y -> stack_of (put_stack y l st) y' = stack_of st y'.
Proof. intros H. unfold stack_of, put_stack. simpl. by rewrite lookup_insert_ne. Qed.

Lemma set_top_ok st u x b fp : users st !! u = Some x -> head_open st x b -> exists r l,
  top_range st u = Ok r /\ (rtop r = 0 <-> b = true) /\ set_top u fp st = Ok (put_stack (uthread x) l st) /\
  forall st', stack_of st' (uthread x) = l -> head_open st' x (fp =? 0).
Proof.
  intros Hx (d & r & Hd & Hr & Hall & Hb & Ht). exists r, (<[d := Range fp (rbottom r)]> (stack_of st (uthread x))).
  assert (top_range st u = Ok r) as Htop by (unfold top_range; rewrite Hx; cbn [deref mbind res_bind]; by rewrite Hd, Hr).
  split_and!; try done.
  - unfold set_top. rewrite Hx, Htop. cbn [deref mbind res_bind]. by rewrite Hd.
  - intros st' Hst. exists d, (Range fp (rbottom r)). rewrite Hst. split_and!; try done.
    + rewrite list_lookup_insert_eq; [done|by eapply lookup_lt_Some].
    + by rewrite take_insert_ge by lia.
    + simpl. by rewrite Z.eqb_eq.
Qed.

#[export] Instance pc_inml_dec p : Decision (p = InML).
Proof. destruct p; (by left) || (by right). Defined.

Section Events.
Context (N : Z) (HN : 0 <= N < 2 ^ 32 - 1) (s : system) (t : nat) (Ht : Z.of_nat t < N) (HU : UInv N s).
Abbreviation st := (us s).

Lemma act_here a : act_of s t = a -> act_ok s t a.
Proof. intros <-. apply HU. Qed.

(** Steps of Control.v that keep a thread in ML code inside. *)
Lemma check_pc c' : pc_of (ctl s) t = InML -> exec (t, Check) (ctl s) = Ok c' -> inside (pc_of c' t) = true /\ ~ closing (pc_of c' t).
Proof.
  intros Hp. unfold exec. simpl. rewrite Hp. unfold sml_check_internal. intros H. res_inv. case_match; res_inv; rewrite pc_goto_eq; simpl; tauto.
Qed.
Lemma gc_pc g c' : pc_of (ctl s) t = InML -> exec (t, Gc g) (ctl s) = Ok c' -> inside (pc_of c' t) = true /\ (closing (pc_of c' t) -> g = true).
Proof.
  intros Hp. unfold exec. simpl. rewrite Hp. unfold sml_gc. intros H.
  assert ((if Z.odd (gc_count (ctl s)) then Ok (ctl s) else
             Ok (goto t (GlobalLoad (Lead ASYNC PRESYNC1 SYNC1 g Resume)) (set_gc_count (Z.lor (gc_count (ctl s)) 1) (ctl s)))) = Ok c') as H' by (by destruct g).
  destruct (Z.odd _); injection H' as <-; [rewrite Hp|rewrite pc_goto_eq]; simpl; split; try done; tauto.
Qed.
Lemma user_pc c' : pc_of (ctl s) t = InML -> exec (t, Control.User) (ctl s) = Ok c' -> pc_of c' t = InML.
Proof. intros Hp. unfold exec. simpl. rewrite Hp. unfold add_user. intros H. by res_inv. Qed.
Lemma run_inml o : pc_of (ctl s) t = InML -> control_step t (Run o) s = Ok s.
Proof.
  intros Hp. unfold control_step, exec. simpl. unfold step. rewrite Hp. cbn [mbind res_bind].
  assert (Z.even (gc_count (ctl s)) && Z.odd (gc_count (ctl s)) = false) as ->
    by (rewrite <- Z.negb_odd; by destruct (Z.odd _)).
  by destruct s.
Qed.

Lemma start_good y fp : pc_of (ctl s) t = Outside -> act_of s t = Out ->
  (forall u x, tlv st !! y = Some u -> users st !! u = Some x -> uworker x = Some t) ->
  ugood N (if elsewhere s y || (fp =? 0) then Ok s else s ← control_step t Enter s; Ok (set_act t (Starting y fp) s)).
Proof.
  intros Hp Ha Hcb. destruct (elsewhere s y) eqn:He; simpl; [auto with runtime|].
  destruct (Z.eqb_spec fp 0) as [|Hfp]; [auto with runtime|]. pose proof (elsewhere_false _ _ He) as Hel.
  destruct (control_good N s t Enter (Starting y fp) HN Ht HU) as (s1 & H1 & HU1); rewrite ?Ha; try done; eauto with runtime.
  - intros y' [= ->]. by right.
  - intros s' Hus _. simpl. by rewrite Hus.
  - rewrite H1. cbn [mbind res_bind]. auto with runtime.
Qed.

Lemma enter_good y fp u r : pc_of (ctl s) t = Outside -> act_of s t = Out -> elsewhere s y = false ->
  tlv st !! y = Some u -> top_range st u = Ok r -> rtop r = fp ->
  ugood N (s ← control_step t Enter s; Ok (set_act t (Entering y fp) s)).
Proof.
  intros Hp Ha He Hu Hr Hfp. pose proof (elsewhere_false _ _ He) as Hel.
  destruct (control_good N s t Enter (Entering y fp) HN Ht HU) as (s1 & H1 & HU1); rewrite ?Ha; try done; eauto with runtime.
  - intros y' [= ->]. by right.
  - intros s' Hus _. simpl. rewrite Hus. exists u. split; [done|]. by exists r.
  - rewrite H1. cbn [mbind res_bind]. auto with runtime.
Qed.

(** In ML code. *)
Lemma in_user_good cmd y sv cl : pc_of (ctl s) t = InML -> act_of s t = InUser y sv cl ->
  (forall c', exec (t, cmd) (ctl s) = Ok c' -> inside (pc_of c' t) = true /\ (closing (pc_of c' t) -> sv || cl = true)) ->
  ugood N (control_step t cmd s).
Proof.
  intros Hp Ha Hc. apply control_stay; [done..| |].
  - intros w. by apply inml_no_acts.
  - intros s' Hus He. rewrite Ha. pose proof (act_here _ Ha) as (_ & H2 & H3 & _). simpl. rewrite Hus.
    destruct (Hc _ He) as [H4 H5]. split_and!; done.
Qed.

Lemma out_good cmd : pc_of (ctl s) t = Outside -> act_of s t = Out -> ugood N (control_step t cmd s).
Proof.
  intros Hp Ha. apply control_stay; [done..| |].
  - intros w. by apply outside_no_acts.
  - intros s' Hus He. by rewrite Ha.
Qed.

(** The handshake of a thread, outside of the actions of SYNC2. *)
Lemma run_good o : (forall w, ~ acts_on (ctl s) t w) ->
  (forall st0, pc_of (ctl s) t = Answer st0 -> st0 ≠ PRESYNC1 /\ st0 ≠ PRESYNC2) -> ugood N (control_step t (Run o) s).
Proof.
  intros Hno Hans. pose proof (act_here _ eq_refl) as HA. pose proof (u_ctl _ _ HU) as HI.
  destruct (decide (pc_of (ctl s) t = InML)) as [Hp|Hp]; [rewrite run_inml by done; auto with runtime|].
  apply control_stay; [done..|]. intros s' Hus He.
  destruct (act_of s t) as [| |y sv cl| | |v|v ph|v|v|v|v|v|v] eqn:Ha; try (by destruct (HA v eq_refl)); try (simpl in *; by rewrite ?Hus).
  destruct HA as (H1 & H2 & H3 & H4). simpl. rewrite Hus. split_and!; try done.
  - exact (step_inside N (ctl s) t o (ctl s') HI He H1).
  - intros Hc. destruct (step_closing N (ctl s) t o (ctl s') HI He Hc) as [?|(st0 & Hs & Hor)]; [auto|]. destruct (Hans _ Hs). destruct Hor; done.
Qed.

(** ** The open range of a user *)
Lemma in_user y sv cl : act_of s t = InUser y sv cl -> exists u x,
  current st !! t = Some u /\ users st !! u = Some x /\ uthread x = y /\ uworker x = Some t /\ tlv st !! y = None /\
  head_open st x (negb (sv || cl)) /\ context s y u /\ inside (pc_of (ctl s) t) = true /\ (closing (pc_of (ctl s) t) -> sv || cl = true).
Proof.
  intros Ha. pose proof (act_here _ Ha) as (H1 & H2 & (u & x & H3 & H4 & H5 & H6 & H7) & H8). exists u, x. split_and!; try done.
  right. exists t. by rewrite Ha.
Qed.

Lemma set_top_good y sv cl sv' cl' fp : act_of s t = InUser y sv cl -> (fp =? 0) = negb (sv' || cl') ->
  (closing (pc_of (ctl s) t) -> sv' || cl' = true) ->
  exists u r st', current st !! t = Some u /\ top_range st u = Ok r /\ (rtop r = 0 <-> negb (sv || cl) = true) /\
    set_top u fp st = Ok st' /\ UInv N (set_act t (InUser y sv' cl') (set_us st' s)).
Proof.
  intros Ha Hfp Hcl. destruct (in_user _ _ _ Ha) as (u & x & Hu & Hx & Hy & Hw & Htl & Hh & Hc & Hin & _).
  destruct (set_top_ok st u x _ fp Hx Hh) as (r & l & Hr & Hrt & Hs & Hh'). exists u, r, (put_stack (uthread x) l st). split_and!; try done; [by apply Hrt..|].
  rewrite Hy in *. set (s' := set_act _ _ _).
  assert (head_open (us s') x (fp =? 0)) as Hho by (apply Hh'; simpl; rewrite stack_of_put; done).
  apply (same_context_inv N s s' t y u x x (InUser y sv' cl')); try done; rewrite ?Ha; try done.
  - simpl. by rewrite insert_id.
  - intros y' Hne. simpl. by rewrite stack_of_put_ne.
  - intros t'. unfold s'. by rewrite act_set.
  - simpl. split_and!; try done. exists u, x. split_and!; try done. by rewrite <- Hfp.
  - by left.
Qed.

Lemma save_good y fp : pc_of (ctl s) t = InML -> act_of s t = InUser y false false -> fp ≠ 0 ->
  ugood N (st' ← sml_save t fp st; Ok (set_act t (InUser y true false) (set_us st' s))).
Proof.
  intros Hp Ha Hfp. destruct (set_top_good y false false true false fp Ha) as (u & r & st' & Hu & Hr & Hrt & Hs & HU').
  { by apply Z.eqb_neq. } { by rewrite Hp. }
  unfold sml_save. rewrite Hu. cbn [deref mbind res_bind]. rewrite Hr. cbn [mbind res_bind]. rewrite (proj2 (Z.eqb_eq _ _) (proj2 Hrt eq_refl)).
  cbn [assert_that mbind res_bind]. rewrite Hs. cbn [mbind res_bind]. auto with runtime.
Qed.

Lemma unsave_good y fp : pc_of (ctl s) t = InML -> act_of s t = InUser y true false ->
  ugood N (u ← deref (current st !! t); r ← top_range st u;
    if rtop r =? fp then st' ← sml_unsave t fp st; Ok (set_act t (InUser y false false) (set_us st' s)) else Ok s).
Proof.
  intros Hp Ha. destruct (set_top_good y true false false false 0 Ha) as (u & r & st' & Hu & Hr & Hrt & Hs & HU'); [done|by rewrite Hp|].
  rewrite Hu. cbn [deref mbind res_bind]. rewrite Hr. cbn [mbind res_bind]. destruct (rtop r =? fp) eqn:E; [|auto with runtime].
  unfold sml_unsave. rewrite Hu. cbn [deref mbind res_bind]. rewrite Hr. cbn [mbind res_bind]. rewrite E.
  cbn [assert_that mbind res_bind]. rewrite Hs. cbn [mbind res_bind]. auto with runtime.
Qed.

Lemma reopen_good y : pc_of (ctl s) t = InML -> act_of s t = InUser y false true ->
  ugood N (st' ← reopen_range t true st; Ok (set_act t (InUser y false false) (set_us st' s))).
Proof.
  intros Hp Ha. destruct (set_top_good y false true false false 0 Ha) as (u & r & st' & Hu & Hr & Hrt & Hs & HU'); [done|by rewrite Hp|].
  unfold reopen_range. rewrite Hu. cbn [deref mbind res_bind]. rewrite Hs. cbn [mbind res_bind]. auto with runtime.
Qed.

(** [close_range] closes what is open. *)
Lemma close_good y sv fp : act_of s t = InUser y sv false -> fp ≠ 0 -> exists st',
  close_range t fp st = Ok (negb sv, st') /\ UInv N (set_act t (InUser y sv (negb sv)) (set_us st' s)).
Proof.
  intros Ha Hfp. destruct (in_user _ _ _ Ha) as (u & x & Hu & Hx & Hy & Hw & Htl & Hh & Hc & Hin & Hcl). unfold close_range. rewrite Hu. cbn [deref mbind res_bind].
  destruct sv; simpl negb in *.
  - destruct (set_top_ok st u x _ fp Hx Hh) as (r & l & Hr & Hrt & _). rewrite Hr. cbn [mbind res_bind].
    destruct (Z.eqb_spec (rtop r) 0) as [E|_]; [by apply Hrt in E|]. exists st. split; [done|].
    replace (set_us st s) with s by (by destruct s). rewrite <- Ha, set_act_same; [done|]. by rewrite Ha.
  - destruct (set_top_good y false false false true fp Ha) as (u' & r & st' & Hu' & Hr & Hrt & Hs & HU'); [by apply Z.eqb_neq|done|].
    assert (u' = u) as -> by congruence. rewrite Hr. cbn [mbind res_bind]. rewrite (proj2 (Z.eqb_eq _ _) (proj2 Hrt eq_refl)), Hs. cbn [mbind res_bind]. eauto.
Qed.
End Events.

(** ** Acts and the handshake

    The act of a thread may change before or after a step of the
    handshake. *)
Lemma control_step_act t cmd t' a s : control_step t cmd (set_act t' a s) = (s1 ← control_step t cmd s; Ok (set_act t' a s1)).
Proof. unfold control_step. simpl. by destruct (exec _ _). Qed.
Lemma control_step_us t cmd x s : control_step t cmd (set_us x s) = (s1 ← control_step t cmd s; Ok (set_us x s1)).
Proof. unfold control_step. simpl. by destruct (exec _ _). Qed.
Lemma set_act_act t a b s : set_act t a (set_act t b s) = set_act t a s.
Proof. unfold set_act. simpl. by rewrite insert_insert_eq. Qed.

(** Only the act changes. *)
Lemma act_change_inv N s t a : UInv N s ->
  user_of a = user_of (act_of s t) -> moved a = moved (act_of s t) -> act_holds a = act_holds (act_of s t) ->
  (forall y, runs a = Some y -> runs (act_of s t) = Some y) -> act_ok s t a -> UInv N (set_act t a s).
Proof.
  intros HU Hu Hm Hh Hr Hok. apply (control_inv N s (set_act t a s) t Enter a); try done.
  - apply HU.
  - by apply effect_same.
  - intros t'. by rewrite act_set.
  - intros y Hy. left. auto.
  - by left.
  - by left.
Qed.

Section More.
Context (N : Z) (HN : 0 <= N < 2 ^ 32 - 1) (s : system) (t : nat) (Ht : Z.of_nat t < N).

(** The change of the user contexts first, then the handshake. *)
Lemma then_control cmd a : UInv N (set_act t a s) -> (forall w, ~ acts_on (ctl s) t w) ->
  (forall s', us s' = us s -> exec (t, cmd) (ctl s) = Ok (ctl s') -> act_ok s' t a) ->
  ugood N (s1 ← control_step t cmd s; Ok (set_act t a s1)).
Proof.
  intros HU Hno Hok. rewrite <- control_step_act. apply control_stay; try done.
  rewrite act_set, decide_True by done. exact Hok.
Qed.

Lemma leave_good y : UInv N (set_act t (Leaving y) s) -> pc_of (ctl s) t = InML -> leave_assertion t (us s) = Ok tt -> ugood N (leave t y s).
Proof.
  intros HU Hp Hl. unfold leave. rewrite Hl. cbn [mbind res_bind]. apply then_control; try done. intros w. by apply inml_no_acts.
Qed.
End More.

(** A user thread that is out, or on its way in, has the context in
    [user_tlv]. *)
Lemma tlv_context N s y u : UInv N s -> tlv (us s) !! y = Some u ->
  (forall t, runs (act_of s t) = Some y -> moved (act_of s t) = None) -> context s y u.
Proof.
  intros HU Ht Hr. left. split; [done|]. intros t Hm. destruct (moved_thread N s t u HU Hm) as (v & x & _ & _ & Hx & Hxy & Hrv).
  destruct (u_tlv _ _ HU _ _ Ht) as (x' & Hx' & Hy & _). assert (x' = x) as -> by congruence.
  rewrite Hr in Hm; [done|]. congruence.
Qed.

(** The owner of a context that is nobody's lock. *)
Lemma not_busy_idle N s u x : UInv N s -> users (us s) !! u = Some x -> busy x = false -> forall b t, holds s b t ≠ Some u.
Proof. intros HU Hx Hb b t H. destruct (u_busy _ _ HU b t u H) as (x' & ? & ?). congruence. Qed.

(** The lists of user contexts are for live contexts only, but for those
    that have gone to another worker: a user of the list of its worker is
    the context of its thread. *)
Lemma full_context N s y u u' w x' : UInv N s -> context s y u -> users (us s) !! u' = Some x' -> uthread x' = y -> uworker x' = Some w ->
  full s w u' -> u' = u.
Proof.
  intros HU Hc Hx Hy Hw Hf. destruct (u_list _ _ HU w u' Hf) as (x & Hx' & Hc'). assert (x = x') as -> by congruence.
  eapply (context_fun N s y); [done| |done]. rewrite <- Hy. auto.
Qed.

(** The thread [y0] has no context any more. *)
Lemma drop_inv N s s' t0 y0 u0 x0 x0' a : UInv N s ->
  ctl s' = ctl s -> loops s' = loops s -> seen s' = seen s -> late s' = late s -> lists (us s') = lists (us s) -> stacks (us s') = stacks (us s) ->
  users (us s) !! u0 = Some x0 -> users (us s') = <[u0 := x0']> (users (us s)) -> uthread x0' = uthread x0 -> busy x0' = busy x0 ->
  (forall y, y ≠ y0 -> tlv (us s') !! y = tlv (us s) !! y) -> (forall t, t ≠ t0 -> current (us s') !! t = current (us s) !! t) ->
  acts_step t0 a s s' -> (forall t, runs (act_of s t) = Some y0 -> t = t0) -> (forall y, runs (act_of s t0) = Some y -> y = y0) ->
  (forall y, runs a = Some y -> y = y0) -> act_holds a = act_holds (act_of s t0) -> act_ok s' t0 a ->
  (forall u, tlv (us s') !! y0 = Some u -> u = u0 /\ head_open (us s') x0' false) ->
  context s y0 u0 -> (forall u, ~ context s' y0 u) -> (forall w, uworker x0' = Some w -> ~ full s w u0) ->
  moved (act_of s t0) = None -> moved a = None \/ moved a = Some u0 ->
  (forall t i p, loops s !! t ≠ Some (Visiting i p u0)) -> UInv N s'.
Proof.
  intros HU Hctl Hloops Hseen Hlate Hlists Hstacks Hx0 Husers Hy Hb Htlv Hcur Hacts Honly Hold Hruns Hholds Hok Htlv0 Hc Hno Hw Hm Hm' Hvis.
  assert (uthread x0 = y0) as Hxy by (destruct (u_ctx _ _ HU _ _ Hc) as (x & _ & _ & ? & ? & _); congruence).
  apply (local_inv N s s' t0 y0 a); try done.
  - intros w. unfold list_of. by rewrite Hlists.
  - intros u x Hx. rewrite Husers. destruct (decide (u = u0)) as [->|Hne].
    + rewrite lookup_insert_eq. assert (x = x0) as -> by congruence. exists x0'. by split_and!.
    + rewrite lookup_insert_ne by done. by exists x.
  - intros u x'. rewrite Husers. intros [[<- _]|[_ ?]]%lookup_insert_Some; eauto.
  - intros y _. unfold stack_of. by rewrite Hstacks.
  - intros u Hu. destruct (Htlv0 u Hu) as [-> Hh]. exists x0'. rewrite Husers, lookup_insert_eq. split_and!; congruence || done.
  - intros u Hc'. by apply Hno in Hc'.
  - intros w u x' Hx' Hy' Hw' Hf. exfalso. rewrite Husers in Hx'. apply lookup_insert_Some in Hx' as [[<- <-]|[Hne Hx']]; [by eapply Hw|].
    by apply Hne, eq_sym, (full_context N s y0 u0 u w x' HU).
  - intros t u. rewrite Hacts. case_decide as E; [|by left]. intros Hu. right. exists x0. destruct Hm'; [congruence|]. split; congruence.
  - intros t u Hu. rewrite Hacts. case_decide as E; [|by left]. congruence.
  - intros t i p u x x' Hl Hx Hx'. rewrite Husers in Hx'. apply lookup_insert_Some in Hx' as [[<- _]|[Hne Hx']]; [by apply Hvis in Hl|]. congruence.
Qed.

Section Leave.
Context (N : Z) (HN : 0 <= N < 2 ^ 32 - 1) (s : system) (t : nat) (Ht : Z.of_nat t < N) (HU : UInv N s).
Abbreviation st := (us s).

Lemma leave_user_good y fp : pc_of (ctl s) t = InML -> act_of s t = InUser y false false -> fp ≠ 0 ->
  ugood N (st' ← sml_leave_internal no_pthread y t fp st; leave t y (set_us st' s)).
Proof.
  intros Hp Ha Hfp. destruct (in_user N s t HU _ _ _ Ha) as (u & x & Hu & Hx & Hy & Hw & Htl & Hh & Hc & Hin & _).
  destruct (set_top_ok st u x _ fp Hx Hh) as (r & l & Hr & Hrt & Hs & Hh').
  unfold sml_leave_internal. rewrite Hu. cbn [deref mbind res_bind]. rewrite Hr. cbn [mbind res_bind].
  rewrite (proj2 (Z.eqb_eq _ _) (proj2 Hrt eq_refl)). cbn [assert_that mbind res_bind]. rewrite Hs. cbn [mbind res_bind no_pthread].
  simpl tlv. rewrite Htl, bool_decide_true by done. cbn [assert_that mbind res_bind].
  set (st' := set_tlv _ _ _). assert (head_open st' x false) as Hho.
  { rewrite <- (proj2 (Z.eqb_neq fp 0) Hfp). apply Hh'. unfold st', set_tlv, stack_of. simpl. by rewrite lookup_insert_eq. }
  apply leave_good; try done.
  - apply (same_context_inv N s _ t y u x x (Leaving y)); try done; rewrite ?Ha; try done.
    + simpl. by rewrite insert_id.
    + intros y' Hne. simpl. by rewrite lookup_partial_alter_ne.
    + intros y' Hne. unfold set_act, set_us, st', set_tlv, stack_of. simpl. by rewrite lookup_insert_ne by congruence.
    + intros t'. by rewrite act_set.
    + right. simpl. split_and!; try done. by rewrite lookup_partial_alter_eq.
  - unfold leave_assertion, set_us. simpl us. simpl current. rewrite Hu. simpl users. rewrite Hx. cbn [deref mbind res_bind].
    destruct Hho as (d & r' & Hd & Hr' & _ & _ & Hrt'). rewrite Hd. simpl. unfold top_range. simpl users. rewrite Hx. cbn [deref mbind res_bind].
    rewrite Hd, Hr'. cbn [deref mbind res_bind]. destruct (Z.eqb_spec (rtop r') 0) as [E|]; [|done]. apply Hrt' in E. done.
Qed.

(** Nobody is at the context of a thread in ML code. *)
Lemma user_no_visit y sv cl u i p t' : act_of s t = InUser y sv cl -> pc_of (ctl s) t = InML -> current st !! t = Some u -> loops s !! t' ≠ Some (Visiting i p u).
Proof.
  intros Ha Hp Hu Hl. destruct (in_user N s t HU _ _ _ Ha) as (u' & x & Hu' & Hx & _ & Hw & _). assert (u' = u) as -> by congruence.
  destruct (u_loop _ _ HU _ _ Hl) as (w & Hon & _ & _ & x' & Hx' & Hw'). assert (w = t) as -> by congruence.
  by apply (acts_on_InML N _ _ _ (u_ctl _ _ HU) Hp) in Hon.
Qed.

Lemma end_user_good y : pc_of (ctl s) t = InML -> act_of s t = InUser y false false ->
  ugood N (st' ← sml_end no_pthread y t st; leave t y (set_us st' s)).
Proof.
  intros Hp Ha. destruct (in_user N s t HU _ _ _ Ha) as (u & x & Hu & Hx & Hy & Hw & Htl & Hh & Hc & Hin & _).
  pose proof (fun t' i p => user_no_visit _ _ _ u i p t' Ha Hp Hu) as Hvis.
  unfold sml_end. rewrite Hu. cbn [deref mbind res_bind]. rewrite Hx. cbn [deref mbind res_bind].
  destruct Hh as (d & r & Hd & Hr & Hall & Hb & Hrt). rewrite Hd. simpl tlv. rewrite Htl, bool_decide_true by done. cbn [no_pthread orb].
  assert (forall t', act_of s t' = InUser y false false \/ runs (act_of s t') = Some y -> t' = t) as Honly.
  { intros t' H. apply (u_runs _ _ HU t' t y); [destruct H as [->|]|rewrite Ha]; done. }
  destruct d as [|d]; cbn [assert_that mbind res_bind].
  - apply leave_good; try done.
    + eapply (drop_inv N s _ t y u x (set_uworker None (set_ustack 0 x)) (Leaving y)); try done; rewrite ?Ha; try done.
      * simpl. apply insert_insert_eq.
      * intros t' Hne. simpl. by rewrite lookup_partial_alter_ne.
      * intros t'. by rewrite act_set.
      * intros t' H. apply Honly. by right.
      * by intros y' [= ->].
      * by intros y' [= ->].
      * simpl. intros u'. congruence.
      * intros u' [[H _]|(t' & H & Hcu)]; [simpl in H; congruence|]. rewrite act_set in H. case_decide as E; [done|].
        apply E, Honly. right. by apply user_runs.
      * by left.
    + unfold leave_assertion. simpl. by rewrite lookup_partial_alter_eq.
  - assert (exists r', stack_of st (uthread x) !! d = Some r' /\ range_closed r') as (r' & Hr' & Hc').
    { destruct (lookup_lt_is_Some_2 (stack_of st (uthread x)) d) as [r' Hr']; [apply lookup_lt_Some in Hr; lia|]. exists r'. split; [done|].
      rewrite Forall_lookup in Hall. apply (Hall d). by rewrite lookup_take_lt by lia. }
    assert (forall st', stacks st' = stacks st -> head_open st' (set_ustack (S d) x) false) as Hh'.
    { intros st' E. exists d, r'. unfold stack_of in *. simpl. rewrite E. destruct Hc'. split_and!; try done.
      rewrite Forall_lookup in Hall |- *. intros i r0. intros [Hi Hlt]%lookup_take_Some. apply (Hall i). by rewrite lookup_take_lt by lia. }
    apply leave_good; try done.
    + apply (same_context_inv N s _ t y u x (set_ustack (S d) x) (Leaving y)); try done; rewrite ?Ha; try done.
      * intros y' Hne. simpl. by rewrite lookup_partial_alter_ne.
      * intros t'. by rewrite act_set.
      * right. simpl. split_and!; [by rewrite lookup_partial_alter_eq|done|by apply Hh'].
    + unfold leave_assertion, set_us. simpl us. simpl current. rewrite Hu. simpl users. rewrite lookup_insert_eq. cbn [deref mbind res_bind]. simpl ustack.
      unfold top_range. simpl users. rewrite lookup_insert_eq. cbn [deref mbind res_bind]. simpl ustack. simpl uthread. unfold stack_of in *. simpl stacks.
      cbn [Nat.eqb]. rewrite Hr'. cbn [deref mbind res_bind]. destruct (Z.eqb_spec (rtop r') 0) as [E|]; [|done]. by destruct Hc'.
Qed.

Lemma wait_good y sv fp : pc_of (ctl s) t = InML -> act_of s t = InUser y sv false -> fp ≠ 0 ->
  ugood N ('(closed, st') ← close_range t fp st; control_step t (Gc true) (set_act t (InUser y sv closed) (set_us st' s))).
Proof.
  intros Hp Ha Hfp. destruct (close_good N s t HU y sv fp Ha Hfp) as (st' & -> & HU'). cbn [mbind res_bind].
  eapply in_user_good; [done..|by rewrite act_set, decide_True|]. intros c' Hc. eapply gc_pc in Hc as [? _]; [|done..]. split; [done|]. by destruct sv.
Qed.

(** [sml_check_internal] closes the range when it has answered. *)
Lemma answer_good y sv fp o st0 : pc_of (ctl s) t = Answer st0 -> act_of s t = InUser y sv false -> fp ≠ 0 ->
  ugood N (s1 ← control_step t (Run o) s; '(closed, st') ← close_range t fp (us s1); Ok (set_act t (InUser y sv closed) (set_us st' s1))).
Proof.
  intros Hp Ha Hfp. destruct (close_good N s t HU y sv fp Ha Hfp) as (st' & Hcl & HU'). pose proof (u_ctl _ _ HU) as HI.
  assert (ugood N (control_step t (Run o) (set_act t (InUser y sv (negb sv)) (set_us st' s)))) as (s2 & Hs2 & HU2).
  { apply control_stay; [done..| |].
    - intros w (g & k & H). simpl in H. congruence.
    - intros s' Hus He. rewrite act_set, decide_True by done. pose proof (act_here N _ t HU' (InUser y sv (negb sv))) as HA.
      rewrite act_set, decide_True in HA by done. destruct (HA eq_refl) as (H1 & H2 & H3 & H4). simpl in *. rewrite Hus. split_and!; try done.
      + exact (step_inside N (ctl s) t o (ctl s') HI He H1).
      + intros _. by destruct sv. }
  rewrite control_step_act, control_step_us in Hs2. destruct (control_step t (Run o) s) as [s1| | |] eqn:E; cbn [mbind res_bind] in Hs2 |- *; try done.
  assert (us s1 = us s) as -> by (unfold control_step in E; by res_inv). rewrite Hcl. cbn [mbind res_bind]. injection Hs2 as <-. auto with runtime.
Qed.

Lemma cancel_good y : act_of s t = Out -> elsewhere s y = false ->
  ugood N ('(done, st') ← cancel_user y st; Ok (if done : bool then set_us (set_tlv y None st') s else s)).
Proof.
  intros Ha He. pose proof (elsewhere_false _ _ He) as Hel. unfold cancel_user. destruct (tlv st !! y) as [u|] eqn:Hu.
  - destruct (u_tlv _ _ HU _ _ Hu) as (x & Hx & Hy & Hh). unfold acquire_busy. rewrite Hx. cbn [deref mbind res_bind].
    destruct (busy x) eqn:Hb; cbn [mbind res_bind]; [auto with runtime|]. simpl users. rewrite lookup_insert_eq. cbn [deref mbind res_bind].
    assert (context s y u) as Hc by (apply (tlv_context N); [done..|]; intros t' H; by destruct (Hel t')).
    apply ugood_ok. apply (drop_inv N s _ t y u x (set_uflags 2 (set_uworker None (set_uflags (Z.lor (uflags x) BUSY_FLAG) x))) Out); try done; rewrite ?Ha; try done.
    + simpl. apply insert_insert_eq.
    + intros y' Hne. simpl. by rewrite lookup_partial_alter_ne.
    + intros t'. unfold act_of. simpl. case_decide as E; [subst; exact Ha|done].
    + intros t' H. by destruct (Hel t').
    + intros u'. simpl. by rewrite lookup_partial_alter_eq.
    + intros u' [[H _]|(t' & H & _)]; [simpl in H; by rewrite lookup_partial_alter_eq in H|].
      apply (Hel t'). change (act_of _ t') with (act_of s t') in H. by destruct (act_of s t').
    + by left.
    + intros t' i p Hl. apply (not_busy_idle N s u x HU Hx Hb true t'). simpl. by rewrite Hl.
  - cbn [mbind res_bind]. apply ugood_ok. replace (set_tlv y None st) with st; [by destruct s|]. destruct st eqn:E. unfold set_tlv. simpl in *. f_equal.
    symmetry. by apply partial_alter_id.
Qed.
End Leave.
