(* ===== verification/MigrationEnter.v ===== *)
(** * Entering ML code keeps the invariant

    [sml_start] and [sml_enter] of Migration.v after [enter_worker], one
    lemma for each step of the thread: with the context that it has, or into
    a new one when it has moved. *)
From Stdlib Require Import ZArith Lia.
From stdpp Require Import base option list gmap relations.
From S2P Require Import Prelude Bits Layout Segment Alloc Control ControlFacts ControlInv ControlFrame ControlSteps ControlLead ControlChange ControlEffect ControlThms Users Migration MigrationInv MigrationSteps MigrationEvents.

Local Open Scope Z_scope.

(** [sml_stack_enum_ptr] finds only closed ranges. *)
Lemma enumerable_ok st u x : users st !! u = Some x -> busy x = true -> head_open st x false -> enumerable st u = Ok tt.
Proof.
  intros Hx Hb (d & r & Hd & Hr & Hall & Hrb & Hrt). unfold enumerable, ranges_of. rewrite Hx. cbn [deref mbind res_bind]. rewrite Hb, Hd.
  cbn [assert_that mbind res_bind Nat.eqb negb]. rewrite (take_S_r _ _ _ Hr), reverse_app, reverse_singleton. cbn [forallb app].
  assert (negb (rtop r =? 0) && negb (rbottom r =? 0) = true) as ->.
  { apply andb_true_iff. rewrite !negb_true_iff, !Z.eqb_neq. split; [|done]. intros E. by apply Hrt in E. }
  cbn [andb]. assert (forallb (fun r => negb (rtop r =? 0) && negb (rbottom r =? 0)) (reverse (take d (stack_of st (uthread x)))) = true) as ->; [|done].
  rewrite forallb_forall. intros r' H. rewrite Forall_forall in Hall. destruct (Hall r') as [H1 H2]; [by rewrite <- elem_of_reverse, list_elem_of_In|].
  apply andb_true_iff. by rewrite !negb_true_iff, !Z.eqb_neq.
Qed.

(** A new range on the stack of a user whose ranges are closed. *)
Lemma push_range st st' x x' fp : head_open st x false -> uthread x' = uthread x -> ustack x' = S (ustack x) -> fp ≠ 0 ->
  stack_of st' (uthread x) = take (ustack x) (stack_of st (uthread x)) ++ [Range 0 fp] -> head_open st' x' true.
Proof.
  intros (d & r & Hd & Hr & Hall & Hrb & Hrt) Hy Hs Hfp Hst. exists (ustack x), (Range 0 fp). rewrite Hy, Hst, Hs, Hd in *.
  assert (length (take (S d) (stack_of st (uthread x))) = S d) as Hlen by (rewrite length_take; apply lookup_lt_Some in Hr; lia).
  split_and!; try done.
  - by rewrite lookup_app_r, Hlen, Nat.sub_diag by lia.
  - rewrite take_app_le, take_ge, (take_S_r _ _ _ Hr) by lia. apply Forall_app. split; [done|]. apply Forall_singleton. split; [|done].
    intros E. by apply Hrt in E.
Qed.

Lemma mover_here N s t a v : UInv N s -> act_of s t = a -> mover a = Some v ->
  pc_of (ctl s) t = InML /\ tlv (us s) !! m_thread v = Some (m_old v) /\ top_is (us s) (m_old v) (m_fp v) /\
  exists x, users (us s) !! m_old v = Some x /\ uthread x = m_thread v /\ head_open (us s) x false /\ mover_ok s t a v (uworker x).
Proof.
  intros HU Ha Hv. pose proof (act_here N s t HU _ Ha) as HA.
  assert (pc_of (ctl s) t = InML /\ tlv (us s) !! m_thread v = Some (m_old v) /\ top_is (us s) (m_old v) (m_fp v) /\
      exists x, users (us s) !! m_old v = Some x /\ mover_ok s t a v (uworker x)) as (H1 & H2 & H3 & x & Hx & Hm) by (by destruct a; try done; apply HA).
  split_and!; try done. destruct (u_tlv _ _ HU _ _ H2) as (x' & Hx' & Hy & Hh). exists x'. split_and!; try done. congruence.
Qed.

Section Enter.
Context (N : Z) (HN : 0 <= N < 2 ^ 32 - 1) (s : system) (t : nat) (Ht : Z.of_nat t < N) (HU : UInv N s).
Abbreviation st := (us s).

(** A thread on its way into ML code, with the context that it has. *)
Lemma resume_good y u x st' : pc_of (ctl s) t = InML -> runs (act_of s t) = Some y -> act_holds (act_of s t) = None -> moved (act_of s t) = None ->
  tlv st !! y = Some u -> users st !! u = Some x -> uworker x = Some t ->
  forall x', uthread x' = uthread x /\ uflags x' = uflags x /\ uworker x' = uworker x ->
  users st' = <[u := x']> (users st) -> lists st' = lists st -> tlv st' !! y = None -> (forall y', y' ≠ y -> tlv st' !! y' = tlv st !! y') ->
  (forall y', y' ≠ y -> stack_of st' y' = stack_of st y') -> current st' !! t = Some u -> (forall t', t' ≠ t -> current st' !! t' = current st !! t') ->
  head_open st' x' true -> UInv N (set_act t (InUser y false false) (set_us st' s)).
Proof.
  intros Hp Hr Hh Hm Hu Hx Hw x' Hx' Hus Hl Ht1 Ht2 Hs Hc1 Hc2 Ho.
  assert (context s y u) as Hc by (apply (tlv_context N); [done..|]; intros t' H; by rewrite (u_runs _ _ HU t' t y)).
  destruct (u_ctx _ _ HU _ _ Hc) as (x1 & _ & _ & Hx1 & Hy & _). assert (x1 = x) as -> by congruence.
  apply (same_context_inv N s _ t y u x x' (InUser y false false)); try done.
  - intros t'. by rewrite act_set.
  - simpl. rewrite Hp. split_and!; try done. exists u, x'. rewrite Hus, lookup_insert_eq. destruct Hx' as (E1 & E2 & E3). split_and!; try done; congruence.
  - by left.
Qed.

Lemma leave_out_good y : pc_of (ctl s) t = InML -> runs (act_of s t) = Some y -> act_holds (act_of s t) = None -> moved (act_of s t) = None ->
  user_of (act_of s t) = None -> leave_assertion t st = Ok tt -> ugood N (leave t y s).
Proof.
  intros Hp Hr Hh Hm Hu Hl. apply leave_good; try done. apply act_change_inv; try done; simpl; congruence.
Qed.

(** [sml_start] on a thread that comes back from a callback. *)
Lemma callback_good y fp u : pc_of (ctl s) t = InML -> act_of s t = Starting y fp -> tlv st !! y = Some u ->
  ugood N (st' ← sml_start no_pthread y t 0 fp st; Ok (set_act t (InUser y false false) (set_us st' s))).
Proof.
  intros Hp Ha Hu. pose proof (act_here N s t HU _ Ha) as [Hfp Hown]. destruct (u_tlv _ _ HU _ _ Hu) as (x & Hx & Hy & Hh).
  unfold sml_start, current_context. cbn [no_pthread]. rewrite Hu, Hx. cbn [deref mbind res_bind]. apply ugood_ok.
  apply (resume_good y u x _ Hp) with (x' := set_ustack (S (ustack x)) x); rewrite ?Ha; try done.
  - by eapply Hown.
  - simpl. by rewrite lookup_partial_alter_eq.
  - intros y' Hne. simpl. by rewrite lookup_partial_alter_ne.
  - intros y' Hne. unfold stack_of. simpl. by rewrite lookup_insert_ne by congruence.
  - simpl. by rewrite lookup_partial_alter_eq.
  - intros t' Hne. simpl. by rewrite lookup_partial_alter_ne.
  - apply (push_range st _ x _ fp Hh); try done. unfold stack_of. simpl. by rewrite lookup_insert_eq.
Qed.

(** One more user is counted before it is on the list. *)
Lemma count_user : pc_of (ctl s) t = InML -> exists c wk,
  let s1 := System c st (acts s) (loops s) (seen s) (late s) in
  control_step t Control.User s = Ok s1 /\ UInv N s1 /\ pc_of c t = InML /\
  workers c !! t = Some wk /\ (length (list_of st t) < wusers wk)%nat /\ (forall P, phase_is s t P -> phase_is s1 t P).
Proof.
  intros Hp. destruct (inside_live N _ (u_ctl _ _ HU) t) as (wk & Hw & _); [by rewrite Hp|].
  destruct (control_step_ok N s t Control.User HN Ht HU) as (s1 & Hs & He & HI & HE & Hus & Hacts & Hloops & _).
  pose proof (user_pc s t _ Hp He) as Hp'.
  unfold exec in He. simpl in He. rewrite Hp in He. unfold add_user in He. rewrite Hw in He. cbn [deref mbind res_bind] in He.
  injection He as He. exists (ctl s1), (Control.set_users (S (wusers wk)) wk). simpl.
  assert (s1 = System (ctl s1) st (acts s) (loops s) (seen s) (late s)) as E.
  { unfold control_step, exec in Hs. simpl in Hs. rewrite Hp in Hs. unfold add_user in Hs. rewrite Hw in Hs. cbn [deref mbind res_bind] in Hs.
    injection Hs as <-. simpl. rewrite <- Z.negb_odd. by destruct (Z.odd _). }
  assert (forall P, phase_is s t P -> phase_is s1 t P) as Hph.
  { intros P HP wk' Hw'. rewrite <- He in Hw'. simpl in Hw'. rewrite lookup_insert_eq in Hw'. injection Hw' as <-. exact (HP wk Hw). }
  assert (workers (ctl s1) !! t = Some (Control.set_users (S (wusers wk)) wk)) as Hw1 by (rewrite <- He; simpl; by rewrite lookup_insert_eq).
  rewrite <- E. split_and!; try done.
  - apply (control_inv N s s1 t Control.User (act_of s t)); try done.
    + apply acts_step_same. intros t'. unfold act_of. by rewrite Hacts.
    + by left.
    + pose proof (u_act _ _ HU t) as HA. assert (seen s1 = seen s) as Hsn by (by rewrite E).
      destruct (act_of s t) as [|y' fp'|y' sv cl| |y' fp'|v|v ph|v|v|v|v|v|v] eqn:Ha; simpl in HA |- *; rewrite ?Hus; try done;
        try (intros v' [= <-]; destruct (HA v eq_refl) as (_ & H2 & H3 & x & Hx & Hm); split_and!; try done; exists x; split; [done|]; simpl in Hm |- *;
          rewrite ?Hsn; unfold being_visited in *; rewrite ?Hloops; naive_solver).
      destruct HA as (H1 & H2 & H3 & H4). split_and!; try done; by rewrite Hp'.
    + left. split; [done|]. intros w Hon. by apply inml_no_acts in Hon.
    + left. by rewrite E.
  - simpl. destruct (decide (list_of st t = [])) as [->|Hne]; [simpl; lia|].
    destruct (u_count _ _ HU t Hne) as (wk' & Hw' & Hle). assert (wk' = wk) as -> by congruence. lia.
Qed.

(** A new context, for a thread that has none or leaves its own behind. *)
Lemma new_context y n x0 st' : pc_of (ctl s) t = InML -> runs (act_of s t) = Some y -> act_holds (act_of s t) = None -> (forall u, ~ context s y u) ->
  users st !! n = None -> users st' = <[n := x0]> (users st) -> uthread x0 = y /\ uworker x0 = Some t /\ busy x0 = false ->
  list_of st' t = n :: list_of st t -> (forall w, w ≠ t -> list_of st' w = list_of st w) ->
  tlv st' !! y = None -> (forall y', y' ≠ y -> tlv st' !! y' = tlv st !! y') -> (forall y', y' ≠ y -> stack_of st' y' = stack_of st y') ->
  current st' !! t = Some n -> (forall t', t' ≠ t -> current st' !! t' = current st !! t') -> head_open st' x0 true ->
  (forall u, moved (act_of s t) = Some u -> exists x, users st !! u = Some x /\ uthread x = y) ->
  exists c wk, control_step t Control.User (set_us st' s) = Ok (System c st' (acts s) (loops s) (seen s) (late s)) /\
    workers c !! t = Some wk /\ forall L, phase_is s t not_sync2 \/ PHASE (wstate wk) ≠ SYNC2 \/ y ∈ seen s \/ y ∈ L ->
    UInv N (set_act t (InUser y false false) (System c st' (acts s) (loops s) (seen s) (L ∪ late s))).
Proof.
  intros Hp Hr Hh Hno Hn Hus Hx0 Hl Hl' Ht1 Ht2 Hs Hc1 Hc2 Ho Hm.
  destruct (count_user Hp) as (c & wk & Hs1 & HU1 & Hp1 & Hw & Hlen & Hph). exists c, wk. split_and!; [|done|].
  { rewrite control_step_us, Hs1. done. }
  intros L HL. pose proof (seen_inv N _ ∅ L HU1) as HU2. simpl in HU2. rewrite union_empty_l_L in HU2.
  eapply (new_inv N _ _ t y n x0 HU2); try done; simpl.
  - intros t'. by rewrite act_set.
  - intros wk' Hw'. simpl in *. congruence.
  - destruct HL as [HL|[HL|[HL|HL]]]; [left|left|by right; left|right; right; set_solver].
    + apply Hph in HL. exact HL.
    + intros wk' Hw'. simpl in Hw'. by assert (wk' = wk) as -> by congruence.
Qed.

(** [sml_start] on a new user thread. *)
Lemma first_good y fp n : pc_of (ctl s) t = InML -> act_of s t = Starting y fp -> tlv st !! y = None -> users st !! n = None ->
  ugood N (st' ← sml_start no_pthread y t n fp st; s1 ← control_step t Control.User (set_us st' s); phase ← phase_of s1 t;
    let s1 := if phase =? SYNC2 then add_late y s1 else s1 in Ok (set_act t (InUser y false false) s1)).
Proof.
  intros Hp Ha Hu Hn. pose proof (act_here N s t HU _ Ha) as [Hfp _].
  assert (forall t', runs (act_of s t') = Some y -> t' = t) as Hr by (intros t' H; apply (u_runs _ _ HU _ _ y H); by rewrite Ha).
  unfold sml_start, current_context. cbn [no_pthread]. rewrite Hu. cbn [mbind res_bind]. set (st' := set_current _ _ _).
  destruct (new_context y n (User 0 y (Some t) 1 0) st' Hp) as (c & wk & Hs & Hw & HUL); rewrite ?Ha; try done.
  - intros u [[H _]|(t' & H & _)]; [congruence|]. pose proof (Hr t' (user_runs _ _ H)) as ->. by rewrite Ha in H.
  - unfold st', list_of. simpl. by rewrite lookup_insert_eq.
  - intros w Hne. unfold st', list_of. simpl. by rewrite lookup_insert_ne.
  - intros y' Hne. unfold st', stack_of. simpl. by rewrite lookup_insert_ne.
  - simpl. by rewrite lookup_partial_alter_eq.
  - intros t' Hne. simpl. by rewrite lookup_partial_alter_ne.
  - exists 0%nat, (Range 0 fp). unfold st', stack_of. simpl. rewrite lookup_insert_eq. by split_and!.
  - rewrite Hs. cbn [mbind res_bind]. unfold phase_of. simpl. rewrite Hw. cbn [deref mbind res_bind]. apply ugood_ok.
    destruct (Z.eqb_spec (PHASE (wstate wk)) SYNC2) as [E|E].
    + apply (HUL {[y]}). set_solver.
    + specialize (HUL ∅). rewrite union_empty_l_L in HUL. apply HUL. auto.
Qed.

Lemma finish_start_good y fp a : pc_of (ctl s) t = InML -> act_of s t = Starting y fp -> (a = None -> leave_assertion t st = Ok tt) ->
  ugood N (finish_start t y fp a s).
Proof.
  intros Hp Ha Hl. unfold finish_start. destruct (tlv st !! y) as [u|] eqn:Hu; [by eapply callback_good|].
  destruct a as [n|]; [|apply leave_out_good; rewrite ?Ha; auto].
  case_bool_decide as Hn; [auto with runtime|]. apply eq_None_not_Some in Hn. by apply first_good.
Qed.

Lemma top_range_ext st1 st2 u : users st1 = users st2 -> stacks st1 = stacks st2 -> top_range st1 u = top_range st2 u.
Proof. intros E1 E2. unfold top_range, stack_of. by rewrite E1, E2. Qed.

(** [sml_enter_internal] finds the frame of [sml_leave_internal]. *)
Lemma enter_internal_ok y u fp st0 x : users st0 !! u = Some x -> head_open st0 x false -> top_is st0 u fp ->
  exists st', sml_enter_internal no_pthread y t u fp st0 = Ok st' /\ users st' = users st0 /\ lists st' = lists st0 /\
    tlv st' !! y = None /\ (forall y', y' ≠ y -> tlv st' !! y' = tlv st0 !! y') /\
    (forall y', y' ≠ uthread x -> stack_of st' y' = stack_of st0 y') /\ current st' !! t = Some u /\
    (forall t', t' ≠ t -> current st' !! t' = current st0 !! t') /\ head_open st' x true.
Proof.
  intros Hx Hh (r & Hr & Hfp). unfold sml_enter_internal. cbn [no_pthread]. set (st1 := set_current _ _ _).
  assert (top_range st1 u = Ok r) as Hr1 by (rewrite <- Hr; by apply top_range_ext). rewrite Hr1. cbn [mbind res_bind].
  rewrite (proj2 (Z.eqb_eq _ _) Hfp). cbn [assert_that mbind res_bind].
  destruct (set_top_ok st1 u x false 0 Hx Hh) as (r' & l & _ & _ & Hs & Hh'). rewrite Hs. eexists. split; [done|]. split_and!; try done.
  - simpl. by rewrite lookup_partial_alter_eq.
  - intros y' Hne. simpl. by rewrite lookup_partial_alter_ne.
  - intros y' Hne. by rewrite stack_of_put_ne.
  - simpl. by rewrite lookup_partial_alter_eq.
  - intros t' Hne. simpl. by rewrite lookup_partial_alter_ne.
  - apply Hh', stack_of_put.
Qed.

Lemma begin_enter_good y fp a : pc_of (ctl s) t = InML -> act_of s t = Entering y fp -> (a = None -> leave_assertion t st = Ok tt) ->
  ugood N (begin_enter t y fp a s).
Proof.
  intros Hp Ha Hl. destruct (act_here N s t HU _ Ha) as (u & Hu & Htop). destruct (u_tlv _ _ HU _ _ Hu) as (x & Hx & Hy & Hh).
  unfold begin_enter. rewrite Hu. cbn [deref mbind res_bind]. rewrite Hx. cbn [deref mbind res_bind]. case_bool_decide as Hw.
  - destruct (enter_internal_ok y u fp st x Hx Hh Htop) as (st' & -> & H1 & H2 & H3 & H4 & H5 & H6 & H7 & H8). cbn [mbind res_bind]. apply ugood_ok.
    apply (resume_good y u x st' Hp) with (x' := x); rewrite ?Ha; try done; [|by rewrite <- Hy].
    by rewrite H1, insert_id.
  - destruct a as [n|]; [|apply leave_out_good; rewrite ?Ha; auto].
    case_bool_decide; [auto with runtime|]. apply ugood_ok. apply act_change_inv; rewrite ?Ha; try done.
    intros v [= <-]. split_and!; try done. exists x. by split.
Qed.

(** ** Moving *)
Lemma load_phase_good v : pc_of (ctl s) t = InML -> act_of s t = LoadPhase v ->
  ugood N (phase ← phase_of s t; Ok (set_act t (if (SYNC1 <=? phase) && (phase <=? SYNC2) then Acquire v phase else StorePlain v) s)).
Proof.
  intros Hp Ha. destruct (mover_here N s t _ v HU Ha eq_refl) as (_ & H2 & H3 & x & Hx & _ & _ & Hw).
  destruct (inside_live N _ (u_ctl _ _ HU) t) as (wk & Hwk & _); [by rewrite Hp|]. unfold phase_of. rewrite Hwk. cbn [deref mbind res_bind]. apply ugood_ok.
  destruct ((SYNC1 <=? _) && _) eqn:E; apply act_change_inv; rewrite ?Ha; try done; intros v' [= <-]; split_and!; try done; exists x; cbn [mover_ok]; split_and!; try done.
  - intros Hph wk' Hwk'. by assert (wk' = wk) as -> by congruence.
  - intros wk' Hwk'. assert (wk' = wk) as -> by congruence. unfold outside_sync. lia.
Qed.

Lemma acquire_good v ph : act_of s t = Acquire v ph ->
  ugood N ('(locked, st') ← acquire_busy (m_old v) false st;
    let s := set_us st' s in Ok (set_act t (if negb locked then Wait v else if ph =? SYNC2 then Enumerate v else StoreWorker v) s)).
Proof.
  intros Ha. destruct (mover_here N s t _ v HU Ha eq_refl) as (Hp & H2 & H3 & x & Hx & Hy & Hh & Hw & Hph). unfold acquire_busy. rewrite Hx. cbn [deref mbind res_bind].
  assert (top_is (us (set_us (put_user (m_old v) (set_uflags (Z.lor (uflags x) BUSY_FLAG) x) st) s)) (m_old v) (m_fp v)) as Htop.
  { revert H3. apply top_is_ext. intros x' Hx'. exists (set_uflags (Z.lor (uflags x) BUSY_FLAG) x). simpl. rewrite lookup_insert_eq. assert (x' = x) as -> by congruence. done. }
  destruct (busy x) eqn:Hb; cbn [mbind res_bind negb].
  - apply ugood_ok. replace (set_us st s) with s by (by destruct s). apply act_change_inv; rewrite ?Ha; try done. intros v' [= <-]. split_and!; try done.
    exists x. cbn [mover_ok]. split_and!; try done. destruct (decide (ph = SYNC2)) as [->|Hne]; [right|left; by apply Hph].
    assert (context s (m_thread v) (m_old v)) as Hc by (apply (mover_context N s t); rewrite ?Ha; done).
    destruct (u_ctx _ _ HU _ _ Hc) as (x1 & w & wk & Hx1 & _ & _ & _ & _ & _ & _ & _ & Hbusy). assert (x1 = x) as -> by congruence.
    destruct (Hbusy Hb) as ([|] & t' & Ho); simpl in Ho.
    + destruct (loops s !! t') as [[| | | |]|] eqn:Hl; simpl in Ho; try done; injection Ho as ->; [right; exists t'; eauto..|].
      destruct (u_loop _ _ HU _ _ Hl) as (w' & _ & _ & _ & x' & Hx' & Hs). left. congruence.
    + exfalso. assert (exists v', mover (act_of s t') = Some v' /\ m_old v' = m_old v) as (v' & Hv' & Eo) by (destruct (act_of s t'); try done; simpl in Ho; injection Ho as Ho; eauto).
      assert (runs (act_of s t') = Some (m_thread v')) as Hr' by (by apply mover_runs).
      destruct (mover_here N s t' _ v' HU eq_refl Hv') as (_ & _ & _ & x' & Hx' & Hy' & _).
      assert (t' = t) as -> by (apply (u_runs _ _ HU t' t (m_thread v)); [congruence|by rewrite Ha]). by rewrite Ha in Ho.
  - apply ugood_ok. destruct (Z.eqb_spec ph SYNC2) as [->|Hne]; apply act_lock_inv; rewrite ?Ha; try done.
    all: try (left; split_and!; try done; apply busy_set).
    all: intros v' [= <-]; split_and!; try done; simpl us; simpl users; rewrite lookup_insert_eq; eexists; split; [done|]; simpl; tauto.
Qed.

(** A lock does not change the frames. *)
Lemma top_is_flags u x f fp : users st !! u = Some x -> top_is st u fp -> top_is (put_user u (set_uflags f x) st) u fp.
Proof.
  intros Hx. apply top_is_ext. intros x' Hx'. exists (set_uflags f x). simpl. rewrite lookup_insert_eq. assert (x' = x) as -> by congruence. done.
Qed.

Lemma wait_lock_good v sp : act_of s t = Wait v ->
  ugood N ('(locked, st') ← acquire_busy (m_old v) sp st;
    let s := set_us st' s in Ok (if locked : bool then set_act t (StoreWorker v) s else s)).
Proof.
  intros Ha. destruct (mover_here N s t _ v HU Ha eq_refl) as (Hp & H2 & H3 & x & Hx & Hy & Hh & Hw & Hph).
  unfold acquire_busy. rewrite Hx. cbn [deref mbind res_bind]. assert (set_us st s = s) as E by (by destruct s).
  destruct (busy x) eqn:Hb; cbn [mbind res_bind]; [rewrite E; auto with runtime|].
  destruct sp; cbn [mbind res_bind]; [rewrite E; auto with runtime|]. apply ugood_ok. apply act_lock_inv; rewrite ?Ha; try done.
  - left. split_and!; try done. apply busy_set.
  - intros v' [= <-]. split_and!; try done; [by apply top_is_flags|]. eexists. simpl users. rewrite lookup_insert_eq. split; [done|]. simpl.
    split; [done|]. destruct Hph as [?|[?|(t' & i & p & Hl)]]; [tauto..|]. exfalso.
    apply (not_busy_idle N s _ x HU Hx Hb true t'). simpl. by destruct Hl as [-> | ->].
Qed.

Lemma enumerate_good v : act_of s t = Enumerate v ->
  ugood N (s1 ← enumerate (m_old v) s; Ok (set_act t (StoreWorker v) s1)).
Proof.
  intros Ha. destruct (mover_here N s t _ v HU Ha eq_refl) as (Hp & H2 & H3 & x & Hx & Hy & Hh & Hw).
  destruct (u_busy _ _ HU false t (m_old v)) as (x' & Hx' & Hb); [simpl; by rewrite Ha|]. assert (x' = x) as -> by congruence.
  unfold enumerate. rewrite (enumerable_ok st _ x), Hx by done. cbn [deref mbind res_bind]. apply ugood_ok.
  pose proof (seen_inv N s {[uthread x]} ∅ HU) as HU'. rewrite union_empty_l_L in HU'. change (System _ _ _ _ _ _) with (add_seen (uthread x) s) in HU'.
  apply act_change_inv; try done; change (act_of (add_seen (uthread x) s) t) with (act_of s t); rewrite ?Ha; try done.
  intros v' [= <-]. split_and!; try done. exists x. cbn [mover_ok]. split_and!; try done. right. rewrite Hy. simpl. set_solver.
Qed.

(** [store_release(&old_user->worker, worker)]: the old context is left
    behind. *)
Lemma store_worker_good v a a' : act_of s t = a -> mover a = Some v -> mover a' = Some v -> user_of a = None -> moved a = None ->
  act_holds a' = act_holds a -> moved a' = Some (m_old v) ->
  (match a with StorePlain _ | StoreWorker _ => True | _ => False end) -> (match a' with Unlock _ | Copy _ => True | _ => False end) ->
  ugood N (s1 ← store_worker t (m_old v) s; Ok (set_act t a' s1)).
Proof.
  intros Ha Hv Hv' Hu Hm Hho Hm' Hk Hk'. destruct (mover_here N s t a v HU Ha Hv) as (Hp & H2 & H3 & x & Hx & Hy & Hh & Hw).
  assert (uworker x ≠ Some t /\ (phase_is s t not_sync2 \/ m_thread v ∈ seen s) /\ forall t' i p, loops s !! t' ≠ Some (Visiting i p (m_old v))) as (Hne & Hph & Hvis).
  { destruct a; try done; simpl in Hv; injection Hv as ->; destruct Hw as [? Hph]; split_and!; try done.
    - left. intros wk Hwk. specialize (Hph wk Hwk). unfold outside_sync, not_sync2, SYNC1, SYNC2 in *. lia.
    - intros t' i p Hl. destruct (u_loop _ _ HU _ _ Hl) as (w & (g & k & Hon) & _).
      destruct (inside_live N _ (u_ctl _ _ HU) t) as (wk & Hwk & Hd); [by rewrite Hp|]. specialize (Hph wk Hwk). unfold outside_sync, SYNC1, SYNC2 in *.
      pose proof (sync2_phases N _ (u_ctl _ _ HU) _ _ _ _ _ _ Hon Hwk Hd). lia.
    - intros t' i p Hl. assert (holds s true t' = Some (m_old v)) as H1' by (simpl; by rewrite Hl).
      assert (holds s false t = Some (m_old v)) as H2' by (simpl; by rewrite Ha). by destruct (u_holds _ _ HU _ _ _ _ _ H1' H2'). }
  assert (context s (m_thread v) (m_old v)) as Hc by (apply (mover_context N s t); rewrite ?Ha; done).
  assert (runs (act_of s t) = Some (m_thread v)) as Hr by (rewrite Ha; by apply mover_runs).
  assert (runs a' = Some (m_thread v)) as Hr' by (by apply mover_runs).
  unfold store_worker. rewrite Hx. cbn [deref mbind res_bind]. apply ugood_ok.
  apply (drop_inv N s _ t (m_thread v) (m_old v) x (set_uworker (Some t) x) a'); rewrite ?Ha; try done.
  - intros t'. by rewrite act_set.
  - intros t' H. by apply (u_runs _ _ HU _ _ _ H).
  - intros y' H. rewrite <- Ha in H. congruence.
  - congruence.
  - assert (top_is (put_user (m_old v) (set_uworker (Some t) x) st) (m_old v) (m_fp v)) as Htop.
    { revert H3. apply top_is_ext. intros x' Hx'. exists (set_uworker (Some t) x). simpl. rewrite lookup_insert_eq. assert (x' = x) as -> by congruence. done. }
    destruct a'; try done; simpl in Hv'; injection Hv' as ->; intros v' [= <-]; split_and!; try done; eexists; simpl users; rewrite lookup_insert_eq; (split; [done|]); by simpl.
  - intros u. simpl. rewrite H2. intros [= <-]. split; [done|]. by apply (head_open_ext st _ x).
  - intros u [[H Hno]|(t' & H & _)]; rewrite ?act_set in *.
    + simpl in H. apply (Hno t). rewrite act_set, decide_True by done. congruence.
    + case_decide as E; [by destruct a'|]. change (act_of _ t') with (act_of s t') in H. apply E. apply (u_runs _ _ HU t' t (m_thread v)); [by apply user_runs|done].
  - intros w [= <-] Hf. destruct (u_ctx _ _ HU _ _ Hc) as (x1 & w & wk & Hx1 & _ & Hw1 & _ & _ & _ & Hf1 & _). assert (x1 = x) as -> by congruence.
    apply Hf1 in Hf as ->. done.
  - by right.
Qed.

Lemma unlock_good v : act_of s t = Unlock v ->
  ugood N (st' ← release_busy (m_old v) st; Ok (set_act t (Copy v) (set_us st' s))).
Proof.
  intros Ha. destruct (mover_here N s t _ v HU Ha eq_refl) as (Hp & H2 & H3 & x & Hx & Hy & Hh & Hw).
  unfold release_busy. rewrite Hx. cbn [deref mbind res_bind]. apply ugood_ok. apply act_lock_inv; rewrite ?Ha; try done.
  - right. by split_and!.
  - intros v' [= <-]. split_and!; try done; [by apply top_is_flags|]. eexists. simpl users. rewrite lookup_insert_eq. by split.
Qed.

Lemma finish_enter_good v : act_of s t = Copy v -> ugood N (finish_enter t v s).
Proof.
  intros Ha. destruct (mover_here N s t _ v HU Ha eq_refl) as (Hp & H2 & H3 & x & Hx & Hy & Hh & Hw & Hph).
  unfold finish_enter. case_bool_decide as Hn; [auto with runtime|]. apply eq_None_not_Some in Hn.
  unfold copy_user. rewrite Hx. cbn [deref mbind res_bind]. set (x' := User 0 _ _ _ _). set (st1 := put_list _ _ _).
  assert (forall t', runs (act_of s t') = Some (m_thread v) -> t' = t) as Hr by (intros t' H; apply (u_runs _ _ HU _ _ _ H); by rewrite Ha).
  destruct (enter_internal_ok (m_thread v) (m_new v) (m_fp v) st1 x') as (st' & -> & H1' & H2' & H3' & H4' & H5' & H6' & H7' & H8'); simpl.
  - by rewrite lookup_insert_eq.
  - by apply (head_open_ext st _ x).
  - destruct H3 as (r & Hr' & Hfp). exists r. split; [|done]. rewrite <- Hr'. unfold top_range. simpl users. rewrite lookup_insert_eq, Hx. done.
  - cbn [mbind res_bind]. destruct (new_context (m_thread v) (m_new v) x' st' Hp) as (c & wk & Hs & Hwk & HUL); rewrite ?Ha; try done.
    + intros u [[H Hno]|(t' & H & _)].
      * apply (Hno t). rewrite Ha. simpl. congruence.
      * pose proof (Hr t' (user_runs _ _ H)) as ->. by rewrite Ha in H.
    + unfold list_of. rewrite H2'. simpl. by rewrite lookup_insert_eq.
    + intros w Hne. unfold list_of. rewrite H2'. simpl. by rewrite lookup_insert_ne.
    + intros y' Hne. rewrite H5'; [done|]. simpl. congruence.
    + intros u [= <-]. eauto.
    + rewrite Hs. cbn [mbind res_bind]. apply ugood_ok. specialize (HUL ∅). rewrite union_empty_l_L in HUL. apply HUL. tauto.
Qed.
End Enter.
