(* ===== verification/MigrationLoop.v ===== *)
(** * The loop of [worker_sync2] keeps the invariant

    One lemma for each step of the loop, and the end of the action.  The loop
    takes the lock of every user of its worker: a user whose lock it does not
    get is put aside and tried again, one that has gone to another worker is
    taken off the list. *)
From Stdlib Require Import ZArith Lia.
From stdpp Require Import base option list gmap relations.
From S2P Require Import Prelude Bits Layout Segment Alloc Control ControlFacts ControlInv ControlFrame ControlSteps ControlLead ControlChange ControlEffect ControlThms Users Migration MigrationInv MigrationSteps MigrationEvents MigrationEnter.

Local Open Scope Z_scope.

Section LoopSame.
Context (N : Z) (s : system) (t : nat) (HU : UInv N s) (w : nat) (Hon : acts_on (ctl s) t w).
Abbreviation st := (us s).

(** A loop that leaves the users as they are. *)
Lemma loop_same_inv lp l' x : x = put_list w l' st \/ (x = st /\ l' = list_of st w) ->
  (forall u, u ∈ l' ++ loop_pending lp -> u ∈ list_of st w ++ pend (loops s !! t)) ->
  (forall y u, context s y u -> u ∈ list_of st w ++ pend (loops s !! t) -> u ∈ l' ++ loop_pending lp) ->
  (forall y u, context s y u -> u ∈ loop_ahead (list_of st w) (loops s !! t) -> u ∈ loop_ahead l' (Some lp) \/ y ∈ seen s) ->
  (length l' + length (loop_pending lp) <= length (list_of st w) + length (pend (loops s !! t)))%nat ->
  (match lp with
   | Walk i p => (i <= length l')%nat
   | Checking i p u => l' !! i = Some u
   | Visiting i p u => l' !! i = Some u /\ exists x, users st !! u = Some x /\ uworker x = Some w
   | Unlocking i p u => l' !! i = Some u /\ exists x, users st !! u = Some x /\ uthread x ∈ seen s
   | Walked => True
   end) ->
  loop_holds (Some lp) = loop_holds (loops s !! t) \/
    (exists u, loop_holds (loops s !! t) = Some u /\ loop_holds (Some lp) = None /\ forall y, ~ context s y u) ->
  (forall y u i p, context s y u -> loops s !! t = Some (Checking i p u) \/ loops s !! t = Some (Visiting i p u) ->
    (exists i p, lp = Checking i p u \/ lp = Visiting i p u) \/ y ∈ seen s) ->
  UInv N (set_loop t (Some lp) (set_us x s)).
Proof.
  intros Hx H1 H2 H3 Hlen H4 H5 H6.
  assert (users x = users st) as Hus by (by destruct Hx as [-> |[-> _]]).
  assert (list_of x w = l') as Hlw by (destruct Hx as [-> |[-> ->]]; [unfold list_of; simpl; by rewrite lookup_insert_eq|done]).
  set (u0 := default O (loop_holds (loops s !! t))). set (x0 := default (User 0 0 None 0 0) (users st !! u0)).
  apply (loop_inv N s _ t w lp l' u0 x0 (uflags x0)); try done.
  - by destruct Hx as [-> |[-> _]].
  - by destruct Hx as [-> |[-> _]].
  - by destruct Hx as [-> |[-> _]].
  - intros x' Hx'. unfold x0. by rewrite Hx'.
  - intros u x' Hx'. simpl. rewrite Hus, Hx'. case_decide as E; [|done]. subst u. unfold x0. rewrite Hx'. simpl. by destruct x'.
  - intros u x'. simpl. rewrite Hus. eauto.
  - intros w' Hne. destruct Hx as [-> |[-> _]]; [|done]. unfold list_of. simpl. by rewrite lookup_insert_ne.
  - exists w. split; [done|]. simpl us. rewrite Hlw. split.
    + intros wk Hwk. destruct (loops s !! t) as [lp0|] eqn:Hl.
      * destruct (u_loop _ _ HU t lp0 Hl) as (w' & Hon' & Hn & _). rewrite (acts_on_fun _ _ _ _ Hon' Hon) in Hn. specialize (Hn wk Hwk). simpl in Hlen. lia.
      * simpl in Hlen. destruct (decide (list_of st w = [])) as [E|Hne]; [rewrite E in Hlen; simpl in Hlen; lia|].
        destruct (u_count _ _ HU w Hne) as (wk' & Hwk' & Hle). simpl in Hwk. assert (wk' = wk) as -> by congruence. lia.
    + simpl. by rewrite Hus.
  - unfold lock_change. destruct H5 as [E|(u & E1 & E2 & E3)]; [by left|]. do 3 right. unfold u0. rewrite E1, E2. simpl. by split_and!.
Qed.
End LoopSame.

Section Loop.
Context (N : Z) (HN : 0 <= N < 2 ^ 32 - 1) (s : system) (t : nat) (HU : UInv N s) (w : nat) (Hon : acts_on (ctl s) t w).
Abbreviation st := (us s).

Lemma delete_ahead {A} (l : list A) i u p : l !! i = Some u -> forall x, x ∈ drop i l ++ p <-> x = u \/ x ∈ drop i (delete i l) ++ p.
Proof.
  intros Hi x. rewrite (drop_S l u i Hi), delete_take_drop, drop_app_ge, length_take, !elem_of_app, elem_of_cons;
    [|rewrite length_take; apply lookup_lt_Some in Hi; lia].
  apply lookup_lt_Some in Hi. replace (i - i `min` length l)%nat with O by lia. rewrite drop_0. tauto.
Qed.
Lemma delete_elem {A} (l : list A) i u x : l !! i = Some u -> x ∈ l <-> x = u \/ x ∈ delete i l.
Proof.
  intros Hi. rewrite delete_take_drop. rewrite <- (take_drop_middle l i u Hi) at 1. rewrite !elem_of_app, elem_of_cons. tauto.
Qed.

Lemma list_user i u : list_of st w !! i = Some u -> exists x, users st !! u = Some x /\ (uworker x = Some w -> context s (uthread x) u).
Proof. intros Hi. apply (u_list _ _ HU w). left. by apply list_elem_of_lookup_2 in Hi. Qed.
Lemma loop_list i p u : loops s !! t = Some (Checking i p u) \/ loops s !! t = Some (Visiting i p u) \/ loops s !! t = Some (Unlocking i p u) -> list_of st w !! i = Some u.
Proof.
  intros [H|[H|H]]; destruct (u_loop _ _ HU _ _ H) as (w' & Hon' & _ & Hlp); rewrite (acts_on_fun _ _ _ _ Hon Hon'); [done|by destruct Hlp..].
Qed.
Lemma loop_busy u : loop_holds (loops s !! t) = Some u -> exists x, users st !! u = Some x /\ busy x = true.
Proof. intros H. by apply (u_busy _ _ HU true t). Qed.

Lemma begin_loop_good : loops s !! t = None -> ugood N (Ok (set_loop t (Some (Walk 0 [])) s)).
Proof.
  intros Hl. apply ugood_ok. replace (set_loop t (Some (Walk 0 [])) s) with (set_loop t (Some (Walk 0 [])) (set_us st s)) by (by destruct s).
  apply (loop_same_inv N s t HU w Hon (Walk 0 []) (list_of st w) st); rewrite ?Hl; simpl; try done; try lia; [by right| |by left|naive_solver].
  intros y u _ H. left. by rewrite drop_0, app_nil_r.
Qed.

Lemma try_lock_good i p u sp : loops s !! t = Some (Walk i p) -> list_of st w !! i = Some u ->
  ugood N ('(locked, st') ← acquire_busy u sp st;
    if locked : bool then Ok (set_loop t (Some (Checking i p u)) (set_us st' s))
    else Ok (set_loop t (Some (Walk i (u :: p))) (set_us (put_list w (delete i (list_of st w)) st') s))).
Proof.
  intros Hl Hi. destruct (list_user i u Hi) as (x & Hx & _). unfold acquire_busy. rewrite Hx. cbn [deref mbind res_bind].
  assert (ugood N (Ok (set_loop t (Some (Walk i (u :: p))) (set_us (put_list w (delete i (list_of st w)) st) s)))) as Haside.
  { apply ugood_ok. apply (loop_same_inv N s t HU w Hon (Walk i (u :: p)) (delete i (list_of st w))); rewrite ?Hl; simpl; try done.
    - by left.
    - intros u'. rewrite !elem_of_app, elem_of_cons, (delete_elem _ _ _ u' Hi). tauto.
    - intros y u' _. rewrite !elem_of_app, elem_of_cons, (delete_elem _ _ _ u' Hi). tauto.
    - intros y u' _. rewrite (delete_ahead _ _ _ p Hi), !elem_of_app, elem_of_cons. tauto.
    - rewrite length_delete by eauto. apply lookup_lt_Some in Hi. lia.
    - rewrite length_delete by eauto. apply lookup_lt_Some in Hi. lia.
    - by left.
    - naive_solver. }
  destruct (busy x) eqn:Hb; cbn [mbind res_bind]; [done|]. destruct sp; cbn [mbind res_bind]; [done|]. clear Haside. apply ugood_ok.
  apply (loop_inv N s _ t w (Checking i p u) (list_of st w) u x (Z.lor (uflags x) BUSY_FLAG)); rewrite ?Hl; simpl; try done.
  - congruence.
  - intros u' x' Hx'. case_decide as E; [subst; by rewrite lookup_insert_eq|by rewrite lookup_insert_ne].
  - intros u' x' [[<- _]|[_ ?]]%lookup_insert_Some; eauto.
  - intros y u' _ H. by left.
  - exists w. split; [done|]. split; [|done]. destruct (u_loop _ _ HU _ _ Hl) as (w' & Hon' & Hn & _). by rewrite (acts_on_fun _ _ _ _ Hon Hon').
  - right. left. split_and!; try done. apply busy_set.
  - naive_solver.
Qed.

Lemma list_end_good i p : loops s !! t = Some (Walk i p) -> list_of st w !! i = None ->
  ugood N (Ok (set_loop t (Some (match p with [] => Walked | _ => Walk i [] end)) (set_us (put_list w (list_of st w ++ p) st) s))).
Proof.
  intros Hl Hi. apply lookup_ge_None in Hi. destruct (u_loop _ _ HU _ _ Hl) as (w' & Hon' & _ & Hle). rewrite (acts_on_fun _ _ _ _ Hon' Hon) in Hle.
  assert (i = length (list_of st w)) as -> by lia. apply ugood_ok.
  apply (loop_same_inv N s t HU w Hon _ (list_of st w ++ p)); rewrite ?Hl; try done; simpl.
  - by left.
  - intros u. destruct p; simpl; rewrite !app_nil_r; done.
  - intros y u _. destruct p; simpl; rewrite !app_nil_r; done.
  - intros y u _. rewrite drop_all. destruct p as [|u0 p]; simpl; [by left|]. rewrite drop_app_length, app_nil_r. by left.
  - rewrite length_app. destruct p; simpl; lia.
  - destruct p; simpl; [done|]. rewrite ?length_app. lia.
  - left. by destruct p.
  - naive_solver.
Qed.

Lemma checking_good i p u : loops s !! t = Some (Checking i p u) ->
  ugood N (x ← deref (users st !! u);
    if bool_decide (uworker x = Some w) then Ok (set_loop t (Some (Visiting i p u)) s)
    else Ok (set_loop t (Some (Walk i p)) (set_us (put_list w (delete i (list_of st w)) st) s))).
Proof.
  intros Hl. pose proof (loop_list i p u (or_introl Hl)) as Hi. destruct (list_user i u Hi) as (x & Hx & Hc). rewrite Hx. cbn [deref mbind res_bind].
  case_bool_decide as Hw; apply ugood_ok.
  - replace (set_loop t (Some (Visiting i p u)) s) with (set_loop t (Some (Visiting i p u)) (set_us st s)) by (by destruct s).
    apply (loop_same_inv N s t HU w Hon _ (list_of st w)); rewrite ?Hl; simpl; try done; [by right|by left|split; eauto|by left|].
    intros y u' i' p' _ [[= -> -> ->]|[=]]. left. eauto.
  - assert (forall y, ~ context s y u) as Hno.
    { intros y Hcu. destruct (u_ctx _ _ HU _ _ Hcu) as (x' & w' & _ & Hx' & _ & Hw' & _ & _ & _ & Hf & _). rewrite Hx in Hx'. injection Hx' as <-.
      rewrite <- (Hf w) in Hw'; [done|]. left. by apply list_elem_of_lookup_2 in Hi. }
    apply (loop_same_inv N s t HU w Hon _ (delete i (list_of st w))); rewrite ?Hl; simpl; try done.
    + by left.
    + intros u'. rewrite !elem_of_app, (delete_elem _ _ _ u' Hi). tauto.
    + intros y u' Hcu. rewrite !elem_of_app, (delete_elem _ _ _ u' Hi). intros [[->|?]|?]; [by apply Hno in Hcu|tauto..].
    + intros y u' Hcu. rewrite (delete_ahead _ _ _ p Hi). intros [->|?]; [by apply Hno in Hcu|tauto].
    + rewrite length_delete by eauto. lia.
    + rewrite length_delete by eauto. apply lookup_lt_Some in Hi. lia.
    + right. exists u. by split_and!.
    + intros y u' i' p' Hcu [[= -> -> ->]|[=]]. by apply Hno in Hcu.
Qed.

(** The stack of a user that is enumerated is closed. *)
Lemma visited_closed y u x : context s y u -> users st !! u = Some x -> uworker x = Some w -> head_open st x false.
Proof.
  intros Hc Hx Hw. destruct Hc as [[Hu _]|(t' & Hu & Hcur)].
  - destruct (u_tlv _ _ HU _ _ Hu) as (x' & Hx' & _ & Hh). congruence.
  - destruct (act_of s t') as [| |y' sv cl| | | | | | | | | |] eqn:Ha; try done. simpl in Hu. injection Hu as ->.
    destruct (in_user N s t' HU _ _ _ Ha) as (u' & x' & Hu' & Hx' & _ & Hw' & _ & Hh & _ & Hin & Hcl). assert (u' = u) as -> by congruence.
    assert (x' = x) as -> by congruence. assert (t' = w) as -> by congruence. destruct Hon as (g & k & Hp).
    destruct (act_inside N _ (u_ctl _ _ HU) w t _ _ _ Hin Hp) as [-> ->]. rewrite Hcl in Hh; [done|]. rewrite Hp. simpl. by right.
Qed.

Lemma visiting_good i p u : loops s !! t = Some (Visiting i p u) ->
  ugood N (s1 ← enumerate u s; Ok (set_loop t (Some (Unlocking i p u)) s1)).
Proof.
  intros Hl. pose proof (loop_list i p u (or_intror (or_introl Hl))) as Hi. destruct (list_user i u Hi) as (x & Hx & Hc).
  destruct (u_loop _ _ HU _ _ Hl) as (w' & Hon' & _ & _ & x' & Hx' & Hw). rewrite (acts_on_fun _ _ _ _ Hon' Hon) in Hw. assert (x' = x) as -> by congruence.
  specialize (Hc Hw). destruct (loop_busy u) as (x' & Hx2 & Hb); [by rewrite Hl|]. assert (x' = x) as -> by congruence.
  unfold enumerate. rewrite (enumerable_ok st u x Hx Hb (visited_closed _ _ _ Hc Hx Hw)), Hx. cbn [deref mbind res_bind]. apply ugood_ok.
  pose proof (seen_inv N s {[uthread x]} ∅ HU) as HU'. rewrite union_empty_l_L in HU'. change (System _ _ _ _ _ _) with (add_seen (uthread x) s) in HU'.
  change (set_loop t (Some (Unlocking i p u)) (add_seen (uthread x) s)) with (set_loop t (Some (Unlocking i p u)) (set_us (us (add_seen (uthread x) s)) (add_seen (uthread x) s))).
  assert (forall y, y ∈ ({[uthread x]} ∪ seen s : gset nat) <-> y = uthread x \/ y ∈ seen s) as Hin by (intros y; set_solver).
  apply (loop_same_inv N (add_seen (uthread x) s) t HU' w Hon _ (list_of st w)); change (loops (add_seen (uthread x) s)) with (loops s); rewrite ?Hl; simpl; try done.
  - by right.
  - intros y u' Hcu. rewrite (drop_S _ _ _ Hi), Hin. cbn [app]. rewrite elem_of_cons. intros [->|?]; [right|by left]. left.
    apply (context_thread N s y (uthread x) u); done.
  - split; [done|]. exists x. split; [done|]. rewrite Hin. by left.
  - by left.
  - intros y u' i' p' Hcu [[=]|[= -> -> ->]]. right. rewrite Hin. left. apply (context_thread N s y (uthread x) u'); done.
Qed.

Lemma unlocking_good i p u : loops s !! t = Some (Unlocking i p u) ->
  ugood N (st' ← release_busy u st; Ok (set_loop t (Some (Walk (S i) p)) (set_us st' s))).
Proof.
  intros Hl. pose proof (loop_list i p u (or_intror (or_intror Hl))) as Hi. destruct (list_user i u Hi) as (x & Hx & _).
  unfold release_busy. rewrite Hx. cbn [deref mbind res_bind]. apply ugood_ok.
  apply (loop_inv N s _ t w (Walk (S i) p) (list_of st w) u x 0); rewrite ?Hl; simpl; try done.
  - congruence.
  - intros u' x' Hx'. case_decide as E; [subst; by rewrite lookup_insert_eq|by rewrite lookup_insert_ne].
  - intros u' x' [[<- _]|[_ ?]]%lookup_insert_Some; eauto.
  - intros y u' _ H. by left.
  - exists w. split; [done|]. destruct (u_loop _ _ HU _ _ Hl) as (w' & Hon' & Hn & _). rewrite (acts_on_fun _ _ _ _ Hon' Hon) in Hn.
    split; [done|]. change (list_of (us _) w) with (list_of st w). apply lookup_lt_Some in Hi. lia.
  - right. right. left. by split_and!.
  - naive_solver.
Qed.

Lemma sync2_good sp : ugood N (sync2_step t w sp s).
Proof.
  unfold sync2_step. destruct (loops s !! t) as [[i p|i p u|i p u|i p u|]|] eqn:Hl.
  - destruct (list_of st w !! i) as [u|] eqn:Hi; [by apply try_lock_good|by apply list_end_good].
  - by apply checking_good.
  - by apply visiting_good.
  - by apply unlocking_good.
  - auto with runtime.
  - by apply begin_loop_good.
Qed.

(** The action ends when the loop has. *)
Lemma walked_good (Ht : Z.of_nat t < N) wf mf : loops s !! t = Some Walked ->
  ugood N (wk ← deref (workers (ctl s) !! w);
    s1 ← control_step t (Run (Oracle wf mf (wusers wk - length (list_of st w)))) s; Ok (set_loop t None s1)).
Proof.
  intros Hl. pose proof (u_ctl _ _ HU) as HI. destruct (acts_on_phase N _ _ _ HI Hon) as (wk & Hw & Hd & _). rewrite Hw. cbn [deref mbind res_bind].
  set (o := Oracle _ _ _). destruct (control_step_ok N s t (Run o) HN Ht HU) as (s1 & -> & He & HI1 & HE & Hus & Hacts & Hloops & Hsn). cbn [mbind res_bind].
  apply ugood_ok. apply (control_inv N s _ t (Run o) (act_of s t)); try done.
  - apply acts_step_same. intros t'. unfold act_of. simpl. by rewrite Hacts.
  - by left.
  - pose proof (u_act _ _ HU t) as HA. destruct Hon as (g & k & Hp).
    destruct (act_of s t) as [|y' fp'|y' sv cl| |y' fp'|v|v ph|v|v|v|v|v|v] eqn:Ha; simpl in HA |- *; rewrite ?Hus; try done; try (by destruct (HA v eq_refl) as (H & _); rewrite H in Hp).
    destruct HA as (H1 & H2 & H3 & H4). split_and!; try done; [exact (step_inside N (ctl s) t o (ctl s1) HI He H1)|].
    intros Hc. apply H4. destruct (step_closing N (ctl s) t o (ctl s1) HI He Hc) as [?|(st0 & Hs & _)]; [done|]. rewrite Hs in Hp. done.
  - right. split; [done|]. simpl. by rewrite Hloops.
  - intros w' wk' o' [= <-] Hon' Hw'. rewrite (acts_on_fun _ _ _ _ Hon' Hon) in *. assert (wk' = wk) as -> by congruence. simpl. rewrite Hloops.
    split; [apply lookup_partial_alter_eq|]. destruct (u_loop _ _ HU _ _ Hl) as (w2 & Hon2 & Hn & _). rewrite (acts_on_fun _ _ _ _ Hon2 Hon) in Hn.
    specialize (Hn wk Hw). simpl in Hn. lia.
Qed.
End Loop.
