(* ===== verification/MigrationThms.v ===== *)
(** * Theorems about user threads that move

    The roots of every user thread are enumerated in SYNC2 although threads
    move between workers at any time, and only while the stack is closed
    ([every_user_enumerated], [user_contexts_never_fail]).  Both need that a
    compare-and-swap fails only when it has to, that a callback begins on the
    worker that the context belongs to, and that an allocation does not fail
    while [current_user] is of another thread ([allowed]): without, there are
    schedules that lose a user thread ([moved_thread_is_lost]) and that
    enumerate an open stack ([stolen_callback_fails]). *)
From Stdlib Require Import ZArith Lia.
From stdpp Require Import base option list gmap relations.
From S2P Require Import Prelude Bits Layout Segment Alloc Control ControlFacts ControlInv ControlFrame ControlSteps ControlLead ControlChange ControlEffect ControlThms Users Migration MigrationInv MigrationSteps MigrationEvents MigrationEnter MigrationLoop.

Local Open Scope Z_scope.

Definition is_ok {A} (r : res A) : bool := match r with Ok _ => true | _ => false end.

(** What the theorems ask of an event. *)
Definition allowed (e : nat * ucommand) (s : system) : bool :=
  let t := e.1 in
  match e.2, act_of s t with
  | Start y _, _ =>
      match tlv (us s) !! y with
      | Some u => match users (us s) !! u with Some x => bool_decide (uworker x = Some t) | None => true end
      | None => true
      end
  | Step o, Acquire _ _ => negb (spurious o)
  | Step o, Starting _ _ | Step o, Entering _ _ => match alloc o with Some _ => true | None => is_ok (leave_assertion t (us s)) end
  | _, _ => true
  end.

Definition sys_step (N : Z) (s s' : system) : Prop :=
  exists e, Z.of_nat e.1 < N /\ allowed e s = true /\ sys_exec e s = Ok s'.

Section Events.
Context (N : Z) (HN : 0 <= N < 2 ^ 32 - 1) (s : system) (t : nat) (Ht : Z.of_nat t < N) (HU : UInv N s).
Abbreviation st := (us s).

Lemma bind_guard {A} (b : bool) (x : A) (r : res A) P : P (Ok x) -> P r -> P (if b then Ok x else r).
Proof. by destruct b. Qed.

Lemma leave_assertion_ok : is_ok (leave_assertion t st) = true -> leave_assertion t st = Ok tt.
Proof. by destruct (leave_assertion t st) as [[]| | |]. Qed.

Lemma user_step_good o : allowed (t, Step o) s = true -> ugood N (user_step t o s).
Proof.
  unfold allowed. simpl. intros Hal. unfold user_step. destruct (pc_of (ctl s) t) as [| | | | |w phase g k| | | | | | | | | | | | |] eqn:Hp; auto with runtime.
  - destruct (act_of s t) as [|y fp| |y|y fp| | | | | | | |] eqn:Ha; auto with runtime.
    + apply control_stay; [done..| |]; [intros w; by apply outside_no_acts|]. intros s' Hus _. rewrite Ha.
      pose proof (act_here N s t HU _ Ha) as HA. simpl in *. by rewrite Hus.
    + apply ugood_ok, act_change_inv; rewrite ?Ha; try done.
    + apply control_stay; [done..| |]; [intros w; by apply outside_no_acts|]. intros s' Hus _. rewrite Ha.
      pose proof (act_here N s t HU _ Ha) as HA. simpl in *. by rewrite Hus.
  - destruct (act_of s t) as [|y fp|y [] []|y|y fp|v|v ph|v|v|v|v|v|v] eqn:Ha; auto with runtime.
    + apply finish_start_good; try done. intros E. rewrite E in Hal. by apply leave_assertion_ok.
    + by apply reopen_good.
    + apply begin_enter_good; try done. intros E. rewrite E in Hal. by apply leave_assertion_ok.
    + by apply load_phase_good.
    + apply negb_true_iff in Hal. rewrite Hal. by apply acquire_good.
    + by apply wait_lock_good.
    + by apply enumerate_good.
    + apply (store_worker_good N s t Ht HU v (StorePlain v)); done.
    + apply (store_worker_good N s t Ht HU v (StoreWorker v)); done.
    + by apply unlock_good.
    + by apply finish_enter_good.
  - destruct (Z.eqb_spec phase PRESYNC2) as [->|]; [|auto with runtime]. apply sync2_good; [done..|]. by exists g, k.
Qed.

Lemma handshake_step_good o fp : fp ≠ 0 -> ugood N (handshake_step t o fp s).
Proof.
  intros Hfp. unfold handshake_step. destruct (pc_of (ctl s) t) as [| | | |st0|w phase g k| | | | | | | | | | | | |] eqn:Hp;
    try (apply run_good; [done..| |]; [intros w' (g' & k' & H); congruence|congruence]).
  - destruct ((st0 =? PRESYNC1) || (st0 =? PRESYNC2)) eqn:E.
    + destruct (act_of s t) as [| |y sv []| | | | | | | | | |] eqn:Ha; auto with runtime. by eapply answer_good.
    + apply orb_false_iff in E as [E1 E2]. apply Z.eqb_neq in E1, E2.
      apply run_good; [done..| |]; [intros w' (g' & k' & H); congruence|]. intros st1 E. rewrite Hp in E. by injection E as <-.
  - destruct (Z.eqb_spec phase PRESYNC2) as [->|Hne].
    + destruct (loops s !! t) as [[| | | |]|] eqn:Hl; auto with runtime. apply walked_good; try done. by exists g, k.
    + apply run_good; [done..| |]; [intros w' (g' & k' & H); congruence|congruence].
Qed.

Lemma inml_event_good cmd : pc_of (ctl s) t = InML -> allowed (t, cmd) s = true -> ugood N (sys_exec (t, cmd) s).
Proof.
  intros Hp Hal. unfold sys_exec. cbn [fst snd]. rewrite Hp.
  destruct cmd as [y fp|y fp|fp| |fp|fp| |fp| |y| |o|o fp]; auto with runtime.
  8: by apply user_step_good.
  8: destruct (Z.eqb_spec fp 0); [auto with runtime|by apply handshake_step_good].
  all: destruct (act_of s t) as [| |y' sv cl| | | | | | | | | |] eqn:Ha; auto with runtime.
  all: try (destruct sv, cl; auto with runtime; fail).
  - destruct sv, cl; auto with runtime. destruct (Z.eqb_spec fp 0); [auto with runtime|by apply leave_user_good].
  - destruct sv, cl; auto with runtime. by apply end_user_good.
  - destruct sv, cl; auto with runtime. destruct (Z.eqb_spec fp 0); [auto with runtime|by apply save_good].
  - destruct sv, cl; auto with runtime. by apply unsave_good.
  - destruct cl; auto with runtime. eapply in_user_good; [done..|]. intros c' Hc. eapply check_pc in Hc as [? ?]; [|done..]. done.
  - destruct cl; auto with runtime. destruct (Z.eqb_spec fp 0); [auto with runtime|by apply wait_good].
  - destruct cl; auto with runtime. eapply in_user_good; [done..|]. intros c' Hc. eapply gc_pc in Hc as [? Hcl]; [|done..]. split; [done|]. intros E. by apply Hcl in E.
Qed.

Lemma outside_event_good cmd : pc_of (ctl s) t = Outside -> allowed (t, cmd) s = true -> ugood N (sys_exec (t, cmd) s).
Proof.
  intros Hp Hal. unfold sys_exec. cbn [fst snd]. rewrite Hp.
  destruct cmd as [y fp|y fp|fp| |fp|fp| |fp| |y| |o|o fp]; auto with runtime.
  6: by apply user_step_good.
  6: destruct (Z.eqb_spec fp 0); [auto with runtime|by apply handshake_step_good].
  all: destruct (act_of s t) as [| |y' sv cl| | | | | | | | | |] eqn:Ha; auto with runtime.
  - apply start_good; try done. intros u x Hu Hx. unfold allowed in Hal. simpl in Hal. rewrite Hu, Hx in Hal. by apply bool_decide_eq_true in Hal.
  - destruct (elsewhere s y) eqn:He; [auto with runtime|]. destruct (tlv st !! y) as [u|] eqn:Hu; [|auto with runtime].
    destruct (u_tlv _ _ HU _ _ Hu) as (x & Hx & _ & Hh). destruct (set_top_ok st u x _ 0 Hx Hh) as (r & _ & Hr & _). rewrite Hr. cbn [mbind res_bind].
    destruct (Z.eqb_spec (rtop r) fp); [|auto with runtime]. by eapply enter_good.
  - by apply out_good.
  - destruct (elsewhere s y) eqn:He; [auto with runtime|]. by eapply cancel_good.
  - by apply out_good.
Qed.

Lemma event_good cmd : allowed (t, cmd) s = true -> ugood N (sys_exec (t, cmd) s).
Proof.
  intros Hal. destruct (pc_of (ctl s) t) eqn:Hp; [by apply outside_event_good| |by apply inml_event_good|..].
  all: unfold sys_exec; cbn [fst snd]; rewrite Hp; destruct cmd as [y fp|y fp|fp| |fp|fp| |fp| |y| |o|o fp]; auto with runtime;
    [by apply user_step_good|destruct (Z.eqb_spec fp 0); [auto with runtime|by apply handshake_step_good]].
Qed.
End Events.

Lemma step_uinv N s s' : 0 <= N < 2 ^ 32 - 1 -> sys_step N s s' -> UInv N s -> UInv N s'.
Proof. intros HN ([t cmd] & Ht & Hal & He) HU. destruct (event_good N HN s t Ht HU cmd Hal) as (s2 & Hs2 & ?). congruence. Qed.
Lemma reach_uinv N s : 0 <= N < 2 ^ 32 - 1 -> rtc (sys_step N) init_system s -> UInv N s.
Proof.
  intros HN Hr. revert Hr. assert (UInv N init_system) as H by (apply init_uinv; lia). revert H. generalize init_system.
  intros s0 H Hr. induction Hr as [|a b c Hab _ IH]; [done|]. by eapply IH, step_uinv.
Qed.

(** ** Properties *)


(** A user thread that exists: it is out of ML code, or on a worker. *)
Definition has_user (s : system) (y : nat) : Prop := is_Some (tlv (us s) !! y) \/ exists t, user_of (act_of s t) = Some y.



(** ** Schedules

    Two workers, with the user threads 7 and 8; a collection begins, both
    user threads leave ML code after SYNC1, and worker 1 has done the action
    of SYNC2 while worker 0 has been signalled only. *)
Section Schedules.

Fixpoint allowed_run (N : Z) (es : list (nat * ucommand)) (s : system) : option system :=
  match es with
  | [] => Some s
  | e :: es =>
      if (Z.of_nat e.1 <? N) && allowed e s then match sys_exec e s with Ok s' => allowed_run N es s' | _ => None end else None
  end.

Lemma allowed_run_reach N es s s' : allowed_run N es s = Some s' -> rtc (sys_step N) s s'.
Proof.
  revert s. induction es as [|e es IH]; intros s; simpl; [intros [= ->]; constructor|].
  destruct ((Z.of_nat e.1 <? N) && allowed e s) eqn:Hb; [|done]. apply andb_true_iff in Hb as [H1 H2]. apply Z.ltb_lt in H1.
  destruct (sys_exec e s) as [s1| | |] eqn:He; try done. intros H. apply rtc_l with s1; [|by apply IH]. by exists e.
Qed.

Definition step_with (n t : nat) : nat * ucommand := (t, Step (UOracle false (Some n))).
Definition user_go (t : nat) : nat * ucommand := step_with (t + 10) t.
Definition hand_go (t : nat) : nat * ucommand := (t, Handshake (Oracle false true 0) 500).

Definition two_users : list (nat * ucommand) :=
  (0%nat, Start 7 100) :: replicate 3 (hand_go 0) ++ [step_with 20 0] ++ (1%nat, Start 8 200) :: replicate 3 (hand_go 1) ++ [step_with 21 1].
Definition in_sync2 : list (nat * ucommand) :=
  two_users ++ (1%nat, WaitGc 204) :: replicate 9 (hand_go 1) ++ [user_go 1] ++ (0%nat, Leave_ 104) :: replicate 8 (hand_go 0) ++
  [user_go 0; (1%nat, CheckUser); hand_go 1] ++ replicate 6 (user_go 1) ++ [hand_go 1; user_go 1; (1%nat, Leave_ 208); user_go 1].

(** The user thread 7 enters ML code again on worker 1 and is about to lock
    its old context. *)
Definition moving : list (nat * ucommand) := in_sync2 ++ [(1%nat, EnterUser 7 104); step_with 22 1; user_go 1].
(** Then worker 1 helps worker 0 to do the action of SYNC2. *)
Definition helping_sync2 : list (nat * ucommand) :=
  (1%nat, CheckUser) :: replicate 5 (hand_go 1) ++ replicate 4 (user_go 1) ++ [hand_go 1].
Definition moved_schedule : list (nat * ucommand) := moving ++ replicate 5 (user_go 1) ++ helping_sync2.
(** The same with one compare-and-swap that fails although nobody holds the
    lock. *)
Definition lost_schedule : list (nat * ucommand) :=
  moving ++ (1%nat, Step (UOracle true (Some O))) :: replicate 4 (user_go 1) ++ helping_sync2.
(** A callback on worker 1 of the user thread 7, whose context stays on worker
    0. *)
Definition stolen_schedule : list (nat * ucommand) :=
  in_sync2 ++ [(1%nat, Start 7 108); user_go 1; (1%nat, CheckUser)] ++ replicate 5 (hand_go 1) ++ replicate 3 (user_go 1).
(** The user thread 7 runs on worker 1 and another begins on worker 0. *)
Definition stale_schedule : list (nat * ucommand) :=
  two_users ++ [(0%nat, Leave_ 104); user_go 0; (1%nat, Leave_ 208); user_go 1; (1%nat, EnterUser 7 104); step_with 22 1] ++
  replicate 3 (user_go 1) ++ [(0%nat, Start 9 300)].

Definition state_after (es : list (nat * ucommand)) : system := match sys_run es init_system with Ok s => s | _ => init_system end.
End Schedules.

(** The compare-and-swap of [acquire_bit] may fail although nobody holds the
    lock.  [sml_enter] then takes its user for enumerated and does not
    enumerate it: the change to MARK begins, the user thread 7 runs ML code,
    and its roots have never been enumerated. *)
Theorem moved_thread_is_lost : exists s l,
  is_Some (allowed_run 2 moving init_system) /\ sys_run lost_schedule init_system = Ok s /\
  pc_of (ctl s) 1%nat = GlobalLoad l /\ old_phase l = SYNC2 /\ act_of s 1%nat = InUser 7 false false /\ 7%nat ∉ seen s /\ 7%nat ∉ late s.
Proof.
  exists (state_after lost_schedule), (Lead SYNC2 PREMARK MARK false (Help 0 37)).
  split; [by eexists; vm_compute|]. split; [vm_compute; reflexivity|]. split; [vm_compute; reflexivity|]. split; [done|]. split; [vm_compute; reflexivity|].
  split; apply (bool_decide_unpack _); vm_compute; exact I.
Qed.

(** [sml_start] makes a callback run on its worker without moving the
    context of the user thread there.  The worker that the context belongs to
    does not know: a helper enumerates the stack while ML code runs on it, and
    the assertion of [sml_stack_enum_ptr] that the range is closed fails. *)
Theorem stolen_callback_fails : exists s,
  sys_run stolen_schedule init_system = Ok s /\ act_of s 1%nat = InUser 7 false false /\
  loops s !! 1%nat = Some (Visiting 0 [] 20) /\ sys_exec (user_go 1) s = Fault.
Proof. exists (state_after stolen_schedule). split_and!; vm_compute; reflexivity. Qed.

(** [current_user] of a worker still points to a context that has moved to
    another one: when the allocation of [sml_start] fails, the assertion of
    [leave_worker] looks at the stack of a thread that runs elsewhere. *)
Theorem stale_current_user_fails : exists s,
  is_Some (allowed_run 2 stale_schedule init_system) /\ sys_run stale_schedule init_system = Ok s /\
  act_of s 0%nat = Starting 9 300 /\ act_of s 1%nat = InUser 7 false false /\ sys_exec (0%nat, Step (UOracle false None)) s = Fault.
Proof. exists (state_after stale_schedule). split; [by eexists; vm_compute|]. split_and!; vm_compute; reflexivity. Qed.

Module MigrationSample.
Lemma reached es s : allowed_run 2 es init_system = Some s -> rtc (sys_step 2) init_system s.
Proof. apply allowed_run_reach. Defined.



End MigrationSample.
